(* ===== verification/_CoqProject ===== *)
-Q . S2P
Prelude.v
GoStrings.v
GoStrconv.v
GoPath.v
GoJson.v
Token.v
Lexer.v
LexerFacts.v
LexerLocal.v
LexerRoundtrip.v
Include.v
IncludeFacts.v
Ast.v
Runtime.v
Opname.v
Resonator.v
Parser.v
ParserFacts.v
ParserModes.v
ParserRules.v
JsonxPath.v
Builder.v
BuilderFacts.v
Merge.v
MergeFacts.v
MergeValues.v
ContStore.v
Runs.v
Callbacks.v
RunsFacts.v
CallbackFacts.v
Wakeup.v
Joins.v
FileStore.v
FileStoreFacts.v
Sweep.v
ContExamples.v
Txcguard.v
Budget.v
BudgetFacts.v
OpsIndex.v
OpsIndexFacts.v
FastForward.v
Sanitize.v
OpClauses.v
RepeatLoop.v
Policy.v
Nonces.v
Throttle.v
RateLimit.v
Admission.v
BoltStore.v
Kv.v
KvFacts.v
KvAtomic.v
KvRaces.v
KvPages.v
KvExamples.v
Sandbox.v
RunGrants.v
Tokens.v
Gateway.v
RunGrantFacts.v
RunGrantLedger.v
RunGrantLives.v
RunGrantTree.v
GatewayFacts.v
GrantExamples.v
DrivePath.v
Drive.v
DriveRows.v
DriveTxn.v
DriveErrors.v
DriveTree.v
DriveInv.v
DriveSync.v
DriveMoves.v
DriveBytes.v
DriveEvents.v
DriveExamples.v
