(* ===== verification/Prelude.v ===== *)
(** * A verification of the chassis of Thanks, Computer

    The chassis runs tenants' stacks of rules over JSON envelopes.  A rule is a
    text in txcl ([WHEN .a == 1 SET .b = 2 EXEC "..."]).  The program's parts
    and the files that model them, in dependency order (all Go paths are under
    src/chassis).

    ** The language and its libraries

    - Prelude, GoStrings, GoStrconv, GoPath, GoJson: bounded [while] loops and
      the lemmas that their bound is enough, 64-bit integers as [Z] with
      explicit wrap-around, the functions of Go's strings, strconv, time, path,
      unicode/utf8 and encoding/json packages the code calls, on arbitrary
      bytes; binary64 floats are Stdlib's [spec_float].  Tactics and the hint
      database [txco] are in the Prelude, [txco_str] in GoStrings.

    ** Rules

    - Token, Lexer (txcl/token, txcl/lexer): [NextToken] and its readers over
      the [Lexer] struct.  LexerFacts has its invariant and progress, LexerLocal
      what a token depends on, LexerRoundtrip the round trips.
    - Include, IncludeFacts (txcl/include): files pulled into a rule text.
    - Ast, Runtime (txcl/ast, txcl/runtime, txcl/funcs/funcs.go): literals,
      path references and calls, and their resolution in an environment.
    - Opname (opname): names of stacks and operations, [goto://] and [call://].
    - Resonator (resonator): a parsed rule and the evaluation of its WHEN
      clause, with the package-wide cache of compiled patterns.
    - Parser (txcl/parser, txcl.go): one definition per parsing method, in a
      state monad over the [Parser] struct; [txcl_Resonator] is the runtime's
      entry point, [Validate] the editor's.  ParserFacts, ParserModes and
      ParserRules have its theorems.

    ** Envelopes

    - JsonxPath, Builder, BuilderFacts (jsonx/builder.go): paths split into keys,
      and the document tree behind [Set], [SetRaw] and [String].
    - Merge, MergeFacts, MergeValues (processor/merge.go): folding an op's output
      into the envelope, the fast way and the slow way.
    - Txcguard (txcguard), Sanitize (processor/txcguard.go): which keys of the
      control-plane object [_txc] rules, operations and the system may write,
      and the projection of an op's answer onto them.

    ** A request

    - Budget, BudgetFacts (processor/budget.go, allowance.go, frame.go): what a
      request may spend (fuel, hops, an allowance) and the frames of calls.
    - OpsIndex, OpsIndexFacts (processor/opsindex.go, processor.go): the ops of a
      stage, by SQL and by the in-memory index.
    - FastForward (processor/fastforward.go): the walk over scopes where no rule
      matches.
    - OpClauses (processor/processor.go): WHEN and PRIORITY, SET before the op,
      the shared tail after it with EMIT.
    - RepeatLoop (processor/loop.go): the LOOP clause at run time.

    ** Suspended runs

    - ContStore (continuation/store.go): the create-once document store, programs
      over it ([Prog]) and their interleavings ([step], [pstep], [sched]).
    - Runs, RunsFacts (continuation/runs.go, deferred.go): every operation on
      suspended runs and deferred ops, and a logic ([wpk]) for programs whose
      store others write to.
    - Callbacks, CallbackFacts (personality/web/continuation.go and the dispatch
      tails of processor): the goroutines around a suspended stage.
    - Wakeup, Joins: that the last one wakes the stage; Sweep
      (personality/sweep): the janitor.
    - FileStore, FileStoreFacts (continuation/filestore): the file backend, one
      system call at a time.  ContExamples: the theorems on concrete runs.

    ** Shared services

    - Policy (auth/policy, auth/context.go): capabilities and the gates on them.
    - Nonces, Throttle (auth/nonces.go, auth/throttle), RateLimit
      (mail/ratelimit.go): the replay store, the fixed-window throttle of the
      unsigned endpoints, the sliding-window limiter of outgoing mail.
    - Admission (admission): the per-tenant gate, its limiters and its
      concurrency slots.
    - BoltStore (kv/boltstore), Kv (kv/kv.go): the key-value store, its
      operations as programs over a backend ([KProg], [kstep]).  KvFacts,
      KvAtomic, KvRaces, KvPages and KvExamples have its theorems.

    ** Delegated work

    - Sandbox (sandbox): declarations of what a program may hold.
    - RunGrants (authn/grants.go, rungrants.go, owner.go): the tables, standing
      grants and run grants; a statement or transaction is one [Call], an
      operation a program of calls ([Tx]).
    - Tokens (rungrant, signedurl): signed tokens.
    - Gateway (server/grantgw): where a request made with a run grant is decided.
    - RunGrantFacts: the logic ([wp]) and the system of all grant and gateway
      operations ([gstep]), and that authority narrows.  RunGrantLedger: budgets.
      RunGrantLives: generations.  RunGrantTree: endings.  GatewayFacts: what the
      trace of an allowed request holds.  GrantExamples: concrete runs.

    ** Drives

    - DrivePath (drive/path.go, policy.go, links.go, the ETag
      headers of resources.go): paths, conditional headers, what a client may do
      and which collections are shown inside another.
    - Drive (drive/resources.go, collections.go, sink.go, sweep.go): the index's
      two tables and its outbox ([DB]), the object store, and every operation as
      a program ([DProg]) of index reads, one write transaction, object-store
      calls, sink events, clock reads and minted ids; callers interleave call by
      call ([dstep], [dpstep]).
    - DriveRows: queries, sums and LIKE.  DriveTxn: every commit of every caller
      is one of the index transactions ([txn], [callers_refine]), so theorems
      about transactions hold of interleaved runs.  DriveErrors, DriveTree with
      DriveInv, DriveSync, DriveMoves, DriveBytes and DriveEvents have a group of
      theorems each; DriveExamples runs one caller on SQLite's LIKE, and shows
      where the code does something else.

    A request passes [Admission] and the credentials checks; its stage is looked
    up in [OpsIndex], the rules [Parser] built are matched by [Resonator] and
    chosen by [OpClauses]; the operations they dispatch are named through
    [Opname], pay from [Budget], and their answers pass [Sanitize] and [Merge].
    A stage whose ops answer later is suspended through [Runs] and resumed by
    [Callbacks]; work dispatched elsewhere acts through [Gateway] under a row of
    [RunGrants].

    ** What the theorems show

    - Text to verdict.  The lexer and the parser return on every text
      ([tokenize_total], [parse_total]); what the parser builds is well-formed
      whatever the diagnostics; validation and the runtime build the same rule
      ([strict_refines_lenient], [Validate_sound]); evaluating a parsed rule,
      with precompiled patterns and a cache shared by all goroutines, is the
      meaning of its WHEN clause ([parsed_when_refines]).  Expanding an include
      changes one token ([Expand_tokens]) and reads only inside its stack
      ([read_confined]).
    - Envelopes.  What is set is read back, exactly what names no place is
      refused, other places are kept, and the text is JSON ([set_then_read],
      [set_keeps_others], [builder_writes_json]); the fast merge is the slow merge
      where numbers are finite ([MergeJSON_is_slow]), and the order of answers
      that write different fields under plain keys does not matter
      ([scope_order]; a wildcard key empties the envelope, [bad_key_wipes]); the
      write guard with its fast paths is the intended set of paths
      ([AuthorMayWrite_iff]) and of an answer of an untrusted transport nothing
      is left below [_txc] but at the paths it may write
      ([untrusted_output_guarded], [sanitized_core_gone]).
    - A request.  The index finds what the SQL finds ([index_refines_sql]), in
      the request's own tenant and stack ([stage_lookup_sound]); fast-forward is
      the recursion it replaces ([fastForward_is_recursion]); a LOOP ends and
      says why ([runLoop_ends]); the fuel ceiling is never raised
      ([ceiling_never_raised]) and survives a suspend ([sync_load_roundtrip]).
    - Suspended runs, under every interleaving: at most one resume
      ([resumed_once]); a barrier is woken unless the suspending scope itself
      recorded the last result, after which it does not look ([barrier_wakes],
      [barrier_lost_wakeup]); a deferred join is always woken
      ([deferred_wakes]); no terminal without its payload
      ([terminal_has_payload]); the file backend, a tree of files and directories,
      is the store for keys none of which is the directory of another
      ([filestore_refines]); the verdicts of a pass of the janitor that runs by
      itself and whose calls succeed ([sweep_verdicts], [failed_read_purges]).
    - Services.  No escalation through granting ([no_escalation]), the replay
      window ([replay_window]), the mail caps ([rate_caps]), concurrency slots
      ([slots_accounted]); in the key-value store, isolation of tenants
      ([tenants_isolated]), counters and locks that do not expire
      ([Incr_linearizable], [CAS_lock]), lifetimes ([Set_Get_lifetime]) and pages
      ([pages_stable]).
    - Delegated work, in every reachable state of the operations interleaved
      call by call with failing calls: authority narrows ([authority_narrows]),
      budgets are conserved down the tree ([budget_conserved]), only the newest
      generation of a run holds ([newest_generation_only]) and a grant ends with
      its ancestors ([live_on_live_ancestors]); a request the gateway allows was
      identified, decided and charged once ([Invoke_accounts],
      [OpenSandbox_accounts]), and a token says what was signed
      ([token_says_what_was_signed]).
    - Drives, whatever callers do and whichever calls fail: every collection
      stays a tree with true counters ([index_stays_tree]), no live file is
      without its bytes ([never_row_without_bytes]), a consumer keeps up by sync
      token ([sync_complete]) or by events alone ([outbox_mirrors]), and an error
      changes nothing ([error_changes_nothing]).  A move transplants a subtree,
      a copy that answers has duplicated it and a delete takes it, no more and no
      less, on paths where LIKE is exact ([move_transplants], [copy_duplicates],
      [delete_takes_subtree]).
    - Where the code does not do what its comments or documents say, among
      others: [barrier_lost_wakeup], [second_visit_lost], [failed_read_purges],
      [restart_loses_updates], [expired_get_drops_fresh], [denial_not_carried],
      [minted_below_itself], [loop_every_overflow], [emit_ttl_ineffective],
      [bad_key_wipes],
      [move_onto_parent_loses], [move_cuts_foreign_names],
      [delete_takes_case_variants], [nested_links_pass], [policy_by_order].

    ** Conventions

    - Parameters.  gjson and sjson ([Gjson], [GjsonDoc], [Docs] with [DocLaws],
      [DocEnv], [MergeDocs] with [MergeLaws], [MergeReads] and [MergeRejects]), the regexp engine
      ([RegexpEngine]), the registry of txcl functions ([Funcs]), encoding/json
      where whole values are marshalled ([JSONLib] with [JSONLaws], [ClaimsJSON]
      with [ClaimsLaws]), golang.org/x/time/rate ([RateLib]), HMAC (a field of
      [Signer]), the file system ([FS] of Include) and what surrounds a loop
      ([Surroundings]) are arguments of the definitions that use them; [StageLookup]
      is what the walk over scopes needs of a lookup, and [GatewayLib] gathers the
      gateway's parameters.  In the drive they are Unicode's NFC ([Unicode]), the
      characters LIKE takes for equal ([Collation], with an exact and SQLite's
      instance), sha256 and the platform's content types ([Platform]).  A theorem that needs an instance has a witness at a
      concrete one.
    - Errors are constructors with the values the message interpolates, or without
      where no caller looks at them; Go's nil error is [None] or [inl].
    - Fuel.  The lexer's loops run for at most the bytes left, the token list
      for the length of the text plus two, the parser for a linear function of
      the length; each bound is shown sufficient ([scan_exit], [tokenize_total],
      [parse_total]).  The rotation loop of the replay store runs for the
      periods elapsed and [Use] answers [None] if it were not done, which
      [replay_window] excludes.  Retries (casAttempts, the passes of PutGrant,
      MaxRunDepth levels) have the source's own bounds.
    - Concurrency is a step relation on shared state and a list of goroutines,
      one atomic access, store call or statement per step ([cstep], [bstep],
      [astep], [pstep], [fstep], [kpstep], [gstep]); a mutex-guarded method is one
      step.  Any store call may fail.  An invariant of such a system is proved
      against what each goroutine has established before its next call ([wpk],
      [wp]); [post] speaks of the traces of one goroutine while others do
      anything.
    - Time is an argument in nanoseconds, or an answer of the clock; the drive
      keeps seconds, as its index does.
    - The drive's database is a table per record type.  A write transaction is
      [DBegin], a pure function from the index and [DCommit]; there is one writer
      at a time, SQLite's BEGIN IMMEDIATE, and a commit that fails wrote nothing.
      The unique indexes are checked by each INSERT and after each UPDATE.  Only
      live rows are looked up, the one way the code asks.  Counters are [Z]
      without a width.

    ** Not modelled

    The builtin txcl functions and [SetMany]; WITH resolution and SELECT, the
    dispatch of ops to their transports and the re-run after a resume; the secret
    store and connections; of the drive, accounts, the seekable reader, the JSON
    text of policies and links, schema migration and the object-store backends;
    request signing, the identity registry, the SQL of tenants and stacks; the
    network personalities, HTTP handlers, the admin API and the command line.  The first carry logic of their own and are
    where this development is meant to grow next; the others are I/O or calls
    into third-party code. *)

From Stdlib Require Import Ascii String ZArith Lia Bool.
From stdpp Require Import base tactics list strings gmap sorting.

(** ** Scope and record conventions *)

Declare Scope txco_scope.
Delimit Scope txco_scope with txco.
Open Scope txco_scope.
Open Scope list_scope.

(** Boolean equality of bytes, written as the Go sources write it. *)
Notation "a =c b" := (Ascii.eqb a b) (at level 70) : txco_scope.
Notation "a =s b" := (String.eqb a b) (at level 70) : txco_scope.

(** ** Loops

    [while n cond body s] is the Go loop [for cond(s) { s = body(s) }] run for
    at most [n] iterations.  [while_exit] and [while_unfold] say when [n] is
    large enough for the result to be that of the unbounded loop. *)

Section While.
Context {St : Type}.

Fixpoint while (n : nat) (cond : St -> bool) (body : St -> St) (s : St) : St :=
  match n with
  | 0 => s
  | S n => if cond s then while n cond body (body s) else s
  end.

Variables (cond : St -> bool) (body : St -> St) (meas : St -> nat) (I : St -> Prop).
Hypothesis body_inv : forall s, I s -> cond s = true -> I (body s).
Hypothesis body_dec : forall s, I s -> cond s = true -> meas (body s) < meas s.

Lemma while_inv n s : I s -> I (while n cond body s).
Proof.
  revert s; induction n as [|n IH]; intros s Hs; simpl; [done|].
  destruct (cond s) eqn:E; eauto.
Qed.

(** Enough iterations: the loop stopped because its condition failed. *)
Lemma while_exit n s : I s -> meas s <= n -> cond (while n cond body s) = false.
Proof.
  revert s; induction n as [|n IH]; intros s Hs Hn; simpl.
  - destruct (cond s) eqn:E; [|done].
    pose proof (body_dec s Hs E); lia.
  - destruct (cond s) eqn:E; [|done].
    apply IH; [eauto|]. pose proof (body_dec s Hs E); lia.
Qed.

Lemma while_more n m s :
  I s -> meas s <= n -> meas s <= m -> while n cond body s = while m cond body s.
Proof.
  revert m s; induction n as [|n IH]; intros m s Hs Hn Hm.
  - destruct m as [|m]; simpl; [done|].
    destruct (cond s) eqn:E; [|done].
    pose proof (body_dec s Hs E); lia.
  - simpl. destruct (cond s) eqn:E.
    + pose proof (body_dec s Hs E).
      destruct m as [|m]; [lia|]. simpl. rewrite E.
      apply IH; [eauto|lia|lia].
    + destruct m as [|m]; simpl; [done|]. by rewrite E.
Qed.

Lemma while_meas n s : I s -> meas (while n cond body s) <= meas s.
Proof.
  revert s; induction n as [|n IH]; intros s Hs; simpl; [done|].
  destruct (cond s) eqn:E; [|done].
  pose proof (body_dec s Hs E). specialize (IH (body s) ltac:(eauto)). lia.
Qed.

(** The loop equation: with enough iterations, running the loop is testing
    the condition and, when it holds, running the body and the loop again. *)
Lemma while_unfold n s :
  I s -> meas s <= n ->
  while n cond body s = if cond s then while n cond body (body s) else s.
Proof.
  intros Hs Hn. destruct n as [|n]; simpl.
  - destruct (cond s) eqn:E; [|done]. pose proof (body_dec s Hs E); lia.
  - destruct (cond s) eqn:E; [|done].
    pose proof (body_dec s Hs E).
    rewrite (while_more n (S n) (body s)); [done|eauto|lia|lia].
Qed.
End While.

(** Two loops whose states stay related run in step. *)
Lemma while_rel {S1 S2} (R : S1 -> S2 -> Prop) c1 b1 c2 b2 n s1 s2 :
  (forall s1 s2, R s1 s2 -> c1 s1 = c2 s2) ->
  (forall s1 s2, R s1 s2 -> c1 s1 = true -> R (b1 s1) (b2 s2)) ->
  R s1 s2 -> R (while n c1 b1 s1) (while n c2 b2 s2).
Proof.
  intros Hc Hb. revert s1 s2; induction n as [|n IH]; intros s1 s2 HR; simpl; [done|].
  rewrite <- (Hc _ _ HR). destruct (c1 s1) eqn:E; auto.
Qed.

(** ** Machine integers

    Go's [int64] (and [int] on the supported 64-bit targets) is a [Z] in
    [[-2^63, 2^63)]; every addition or multiplication wraps explicitly. *)

Definition two63 : Z := 9223372036854775808.
Definition two64 : Z := 18446744073709551616.
Definition MaxInt64 : Z := two63 - 1.
Definition MinInt64 : Z := - two63.

Definition wrap64 (z : Z) : Z := ((z + two63) mod two64 - two63)%Z.
Definition wrapU64 (z : Z) : Z := (z mod two64)%Z.

Definition int64_ok (z : Z) : Prop := (MinInt64 <= z <= MaxInt64)%Z.

Lemma wrap64_ok z : int64_ok (wrap64 z).
Proof.
  unfold int64_ok, wrap64, MinInt64, MaxInt64, two63, two64.
  pose proof (Z.mod_pos_bound (z + 9223372036854775808) 18446744073709551616 ltac:(lia)).
  lia.
Qed.

Lemma wrap64_id z : int64_ok z -> wrap64 z = z.
Proof.
  unfold int64_ok, wrap64, MinInt64, MaxInt64, two63, two64. intros H.
  rewrite Z.mod_small; lia.
Qed.

(** ** Tactics *)

(** Case analysis on the innermost boolean test or match of the goal. *)
Ltac case_bool :=
  match goal with
  | |- context [if ?b then _ else _] => destruct b eqn:?
  | H : context [if ?b then _ else _] |- _ => destruct b eqn:?
  end.

Ltac bool_to_prop :=
  repeat match goal with
  | H : _ && _ = true |- _ => apply andb_true_iff in H as [? ?]
  | H : _ || _ = false |- _ => apply orb_false_iff in H as [? ?]
  | H : negb _ = true |- _ => apply negb_true_iff in H
  | H : negb _ = false |- _ => apply negb_false_iff in H
  | H : Ascii.eqb _ _ = true |- _ => apply Ascii.eqb_eq in H
  | H : Ascii.eqb _ _ = false |- _ => apply Ascii.eqb_neq in H
  | H : String.eqb _ _ = true |- _ => apply String.eqb_eq in H
  | H : String.eqb _ _ = false |- _ => apply String.eqb_neq in H
  | H : Nat.eqb _ _ = true |- _ => apply Nat.eqb_eq in H
  | H : Nat.ltb _ _ = true |- _ => apply Nat.ltb_lt in H
  | H : Nat.ltb _ _ = false |- _ => apply Nat.ltb_ge in H
  | H : Nat.leb _ _ = true |- _ => apply Nat.leb_le in H
  | H : Nat.leb _ _ = false |- _ => apply Nat.leb_gt in H
  | H : Z.eqb _ _ = true |- _ => apply Z.eqb_eq in H
  | H : Z.eqb _ _ = false |- _ => apply Z.eqb_neq in H
  | H : Z.ltb _ _ = true |- _ => apply Z.ltb_lt in H
  | H : Z.ltb _ _ = false |- _ => apply Z.ltb_ge in H
  | H : Z.leb _ _ = true |- _ => apply Z.leb_le in H
  | H : Z.leb _ _ = false |- _ => apply Z.leb_gt in H
  end.

Create HintDb txco discriminated.
#[export] Hint Resolve wrap64_ok : txco.
