(* ===== verification/GoStrings.v ===== *)
(** * Go strings

    A Go [string] is a sequence of bytes: here Stdlib's [string] over 8-bit
    [ascii].  This file holds the functions of Go's [strings] package that the
    chassis calls, with Go's results on every byte sequence, and the lemmas
    the components share. *)

From Stdlib Require Import Ascii String ZArith Lia Bool.
From stdpp Require Import base tactics list strings gmap sorting.
From S2P Require Import Prelude.

Abbreviation length := List.length.
Abbreviation slen := String.length.

#[global] Arguments String.append !_ _ : simpl nomatch.

Definition byte0 : ascii := Ascii.zero.

(** ** Indexing and slicing *)

(** [s[n]], with 0 past the end (the lexer's own convention for [l.ch]). *)
Fixpoint byte_at (s : string) (n : nat) : ascii :=
  match s, n with
  | EmptyString, _ => byte0
  | String c _, 0 => c
  | String _ s, S n => byte_at s n
  end.

(** [s[n:]] and [s[:n]]. *)
Fixpoint sdrop (n : nat) (s : string) : string :=
  match n, s with
  | 0, _ => s
  | _, EmptyString => EmptyString
  | S n, String _ s => sdrop n s
  end.

Fixpoint stake (n : nat) (s : string) : string :=
  match n, s with
  | 0, _ => EmptyString
  | _, EmptyString => EmptyString
  | S n, String c s => String c (stake n s)
  end.

Definition sslice (s : string) (i j : nat) : string := stake (j - i) (sdrop i s).

(** ** Byte classes *)

Definition bval (c : ascii) : nat := nat_of_ascii c.
Definition in_range (lo hi c : ascii) : bool := (bval lo <=? bval c) && (bval c <=? bval hi).
Definition is_lower (c : ascii) : bool := in_range "a" "z" c.
Definition is_upper (c : ascii) : bool := in_range "A" "Z" c.
Definition is_dec (c : ascii) : bool := in_range "0" "9" c.

Fixpoint sall (p : ascii -> bool) (s : string) : bool :=
  match s with EmptyString => true | String c s => p c && sall p s end.
Fixpoint sany (p : ascii -> bool) (s : string) : bool :=
  match s with EmptyString => false | String c s => p c || sany p s end.

(** ** package strings *)

Definition HasPrefix (s pre : string) : bool := String.prefix pre s.
Definition TrimPrefix (s pre : string) : string :=
  if HasPrefix s pre then sdrop (slen pre) s else s.

(** [strings.Split] on a one-byte separator; [Split("", sep)] is [[""]]. *)
Fixpoint Split (s : string) (sep : ascii) : list string :=
  match s with
  | EmptyString => [EmptyString]
  | String c s =>
      if c =c sep then EmptyString :: Split s sep
      else match Split s sep with
           | w :: ws => String c w :: ws
           | [] => [String c EmptyString]
           end
  end.

(** [strings.LastIndex] of a one-byte string; [None] is Go's -1. *)
Fixpoint LastIndex (s : string) (c : ascii) : option nat :=
  match s with
  | EmptyString => None
  | String d s =>
      match LastIndex s c with
      | Some i => Some (S i)
      | None => if d =c c then Some 0 else None
      end
  end.

Fixpoint Contains (s sub : string) : bool :=
  String.prefix sub s ||
  match s with EmptyString => false | String _ s => Contains s sub end.

Definition ContainsByte (s : string) (c : ascii) : bool := sany (Ascii.eqb c) s.
Definition ContainsAny (s chars : string) : bool := sany (ContainsByte chars) s.

(** [strings.ReplaceAll s old new] for a non-empty [old]: left to right, without
    overlap.  [skip] counts the bytes of a match still to be stepped over. *)
Fixpoint replace_from (old new : string) (skip : nat) (s : string) : string :=
  match s with
  | EmptyString => EmptyString
  | String c s' =>
      match skip with
      | S k => replace_from old new k s'
      | 0 => if String.prefix old s
             then String.append new (replace_from old new (slen old - 1) s')
             else String c (replace_from old new 0 s')
      end
  end.
Definition ReplaceAll (s old new : string) : string := replace_from old new 0 s.

(** [strings.EqualFold] of two ASCII strings. *)
Definition to_lower (c : ascii) : ascii :=
  if is_upper c then ascii_of_nat (bval c + 32) else c.
Fixpoint EqualFold (s t : string) : bool :=
  match s, t with
  | EmptyString, EmptyString => true
  | String c s, String d t => (to_lower c =c to_lower d) && EqualFold s t
  | _, _ => false
  end.

(** [strings.TrimSpace]: the runes of [unicode.IsSpace] in UTF-8.  UTF-8 is
    self-synchronising, so the first (last) rune of a byte string is one of
    these exactly when the string starts (ends) with its encoding. *)
Definition b (n : nat) : ascii := ascii_of_nat n.
Definition bytes (l : list nat) : string := foldr (fun n s => String (b n) s) EmptyString l.
Definition space_runes : list string :=
  [bytes [9]; bytes [10]; bytes [11]; bytes [12]; bytes [13]; bytes [32];
   bytes [194;133]; bytes [194;160]; bytes [225;154;128];
   bytes [226;128;128]; bytes [226;128;129]; bytes [226;128;130]; bytes [226;128;131];
   bytes [226;128;132]; bytes [226;128;133]; bytes [226;128;134]; bytes [226;128;135];
   bytes [226;128;136]; bytes [226;128;137]; bytes [226;128;138]; bytes [226;128;168];
   bytes [226;128;169]; bytes [226;128;175]; bytes [226;129;159]; bytes [227;128;128]].

Fixpoint srev_onto (s acc : string) : string :=
  match s with EmptyString => acc | String c s => srev_onto s (String c acc) end.
Definition srev (s : string) : string := srev_onto s EmptyString.

Fixpoint trim_left (runes : list string) (n : nat) (s : string) : string :=
  match n with
  | 0 => s
  | S n => match List.find (fun r => String.prefix r s) runes with
           | Some r => trim_left runes n (sdrop (slen r) s)
           | None => s
           end
  end.
Definition TrimSpace (s : string) : string :=
  let s := trim_left space_runes (slen s) s in
  srev (trim_left (List.map srev space_runes) (slen s) (srev s)).

(** [sort.Strings]: ascending byte order. *)
Definition string_le (s t : string) : Prop := String.leb s t = true.
#[export] Instance string_le_dec : RelDecision string_le.
Proof. intros s t. unfold string_le. apply _. Defined.
Definition SortStrings (l : list string) : list string := merge_sort string_le l.

(** [strings.IndexByte]. *)
Fixpoint IndexByte (s : string) (c : ascii) : option nat :=
  match s with
  | EmptyString => None
  | String d s => if d =c c then Some 0 else match IndexByte s c with Some i => Some (S i) | None => None end
  end.

(** [strings.Trim(s, '/')]. *)
Fixpoint trim_slashes (s : string) : string :=
  match s with EmptyString => EmptyString | String c s' => if c =c "/" then trim_slashes s' else s end.
Definition TrimSlashes (s : string) : string := srev (trim_slashes (srev (trim_slashes s))).

(** ** Lemmas *)

#[export] Instance string_le_po : PartialOrder string_le.
Proof.
  assert (E : forall x y, string_le x y <-> String.le x y) by (intros x y; symmetry; apply Is_true_true).
  split; [split|].
  - intros x. by apply E.
  - intros x y z. rewrite !E. apply transitivity.
  - intros x y. rewrite !E. apply (anti_symm String.le).
Qed.
#[export] Instance string_le_total : Total string_le.
Proof. intros x y. apply String.leb_total. Qed.

Lemma ltb_not_le x y : String.ltb x y = true <-> ~ string_le y x.
Proof.
  unfold String.ltb, string_le, String.leb. rewrite String.compare_antisym. by destruct (String.compare y x).
Qed.

Lemma slen_app s t : slen (s ++ t)%string = slen s + slen t.
Proof. induction s; simpl; f_equal; auto. Qed.

Lemma sapp_assoc s t u : (s ++ (t ++ u))%string = ((s ++ t) ++ u)%string.
Proof. induction s as [|c s IH]; simpl; [done|]. by rewrite <- IH. Qed.

Lemma sapp_nil_r s : (s ++ "")%string = s.
Proof. induction s as [|c s IH]; simpl; [done|]. by rewrite IH. Qed.

Lemma sapp_inj_l s t u : (s ++ t)%string = (s ++ u)%string -> t = u.
Proof. induction s as [|c s IH]; simpl; [done|]. intros H; injection H; auto. Qed.

Lemma sapp_inj_r s t u : (s ++ u)%string = (t ++ u)%string -> s = t.
Proof.
  intros E. assert (Hl : slen s = slen t) by (apply (f_equal slen) in E; rewrite !slen_app in E; lia).
  revert t E Hl; induction s as [|c s IH]; intros [|d t] E Hl; simpl in *; try done.
  injection E as -> E. by rewrite (IH t E) by lia.
Qed.

Lemma sdrop_len s : sdrop (slen s) s = EmptyString.
Proof. induction s; simpl; auto. Qed.

Lemma sdrop_app s t : sdrop (slen s) (s ++ t)%string = t.
Proof. induction s; simpl; auto. Qed.

Lemma stake_app s t : stake (slen s) (s ++ t)%string = s.
Proof. induction s; simpl; [by destruct t|]. by f_equal. Qed.

Lemma stake_app_le n s t : n <= slen s -> stake n (s ++ t)%string = stake n s.
Proof. revert n; induction s as [|c s IH]; intros [|n] H; simpl in *; [by destruct t|lia|done|]. rewrite IH; [done|lia]. Qed.

Lemma sdrop_sdrop m n s : sdrop m (sdrop n s) = sdrop (n + m) s.
Proof.
  revert s; induction n as [|n IH]; intros s; simpl; [done|].
  destruct s; [by destruct m|]. apply IH.
Qed.

Lemma slen_sdrop n s : slen (sdrop n s) = slen s - n.
Proof.
  revert s; induction n as [|n IH]; intros s; simpl; [lia|].
  destruct s; simpl; auto.
Qed.

Lemma byte_at_sdrop s n : byte_at s n = byte_at (sdrop n s) 0.
Proof. revert n; induction s; intros [|n]; simpl; auto. Qed.

Lemma byte_at_ge s n : slen s <= n -> byte_at s n = byte0.
Proof. revert n; induction s; intros [|n] H; simpl in *; auto with lia. Qed.

Lemma sdrop_cons s n c t : sdrop n s = String c t -> sdrop (S n) s = t.
Proof.
  revert s; induction n as [|n IH]; intros s H; destruct s; simpl in *; try congruence.
  by apply IH in H.
Qed.

Lemma sdrop_nil_iff s n : sdrop n s = EmptyString <-> slen s <= n.
Proof.
  split.
  - intros H. pose proof (slen_sdrop n s) as E. rewrite H in E. simpl in E. lia.
  - intros H. assert (E : slen (sdrop n s) = 0) by (rewrite slen_sdrop; lia).
    by destruct (sdrop n s).
Qed.

Lemma stake_sdrop n s : (stake n s ++ sdrop n s)%string = s.
Proof. revert s; induction n; intros [|c s]; simpl; auto. by rewrite IHn. Qed.

Lemma slen_stake n s : slen (stake n s) = min n (slen s).
Proof. revert s; induction n; intros [|c s]; simpl; auto. Qed.

Lemma stake_add i j s : stake (i + j) s = (stake i s ++ stake j (sdrop i s))%string.
Proof.
  revert s; induction i as [|i IH]; intros s; simpl; [done|].
  destruct s; simpl; [by destruct j|]. by rewrite IH.
Qed.

Lemma sall_app p s t : sall p (s ++ t) = sall p s && sall p t.
Proof. induction s; simpl; [done|]. rewrite IHs. apply andb_assoc. Qed.

Lemma sany_app p s t : sany p (s ++ t) = sany p s || sany p t.
Proof. induction s; simpl; [done|]. rewrite IHs. apply orb_assoc. Qed.

Lemma sall_impl (p q : ascii -> bool) s :
  (forall c, p c = true -> q c = true) -> sall p s = true -> sall q s = true.
Proof.
  intros H; induction s as [|c s IH]; simpl; [done|]. intros Hs. bool_to_prop.
  rewrite H; auto.
Qed.

Lemma sany_false_iff p s : sany p s = false <-> sall (fun c => negb (p c)) s = true.
Proof.
  induction s as [|c s IH]; simpl; [done|].
  rewrite orb_false_iff, andb_true_iff, negb_true_iff. by rewrite IH.
Qed.

Lemma prefix_app p s : String.prefix p (p ++ s)%string = true.
Proof.
  induction p as [|c p IH]; simpl; [by destruct s|].
  destruct (ascii_dec c c); [done|congruence].
Qed.

Lemma prefix_iff p s : String.prefix p s = true <-> exists t, s = (p ++ t)%string.
Proof.
  split; [|intros [t ->]; apply prefix_app].
  revert s; induction p as [|c p IH]; intros s H; [by exists s|].
  destruct s as [|d s]; simpl in H; [done|].
  destruct (ascii_dec c d) as [->|]; [|done].
  destruct (IH s H) as [t ->]. by exists t.
Qed.

Lemma TrimPrefix_app p s : TrimPrefix (p ++ s)%string p = s.
Proof. unfold TrimPrefix, HasPrefix. by rewrite prefix_app, sdrop_app. Qed.

Lemma Split_not_nil s sep : Split s sep <> [].
Proof. destruct s; simpl; [done|]. case_match; [done|]. by case_match. Qed.

Lemma Split_no_sep s sep : sall (fun c => negb (c =c sep)) s = true -> Split s sep = [s].
Proof.
  induction s as [|c s IH]; simpl; [done|]. intros H. bool_to_prop.
  rewrite (proj2 (Ascii.eqb_neq _ _)) by done. by rewrite IH.
Qed.

Lemma Split_cons_sep s t sep :
  sall (fun c => negb (c =c sep)) s = true ->
  Split (s ++ String sep t)%string sep = s :: Split t sep.
Proof.
  induction s as [|c s IH]; simpl; intros H.
  - by rewrite Ascii.eqb_refl.
  - bool_to_prop. rewrite (proj2 (Ascii.eqb_neq _ _)) by done. by rewrite IH.
Qed.

Lemma Split_app_sep s t sep : Split (s ++ String sep t)%string sep = Split s sep ++ Split t sep.
Proof.
  induction s as [|c s IH]; simpl; [by rewrite Ascii.eqb_refl|]. rewrite IH.
  destruct (c =c sep); [done|]. pose proof (Split_not_nil s sep). by destruct (Split s sep).
Qed.

Lemma Split_segments s sep w :
  In w (Split s sep) -> sall (fun c => negb (c =c sep)) w = true.
Proof.
  revert w; induction s as [|c s IH]; intros w; simpl.
  - by intros [<-|[]].
  - destruct (c =c sep) eqn:E.
    + intros [<-|H]; [done|]. by apply IH.
    + pose proof (Split_not_nil s sep). destruct (Split s sep) as [|u us] eqn:Es; [done|].
      intros [<-|H']; simpl.
      * rewrite E. simpl. apply IH. by left.
      * apply IH. by right.
Qed.

Create Rewrite HintDb txco_str.
#[export] Hint Rewrite slen_app sapp_nil_r sdrop_len sdrop_app stake_app : txco_str.

(** ** LastIndex and single-byte replacement *)

Lemma LastIndex_none s c :
  sall (fun d => negb (d =c c)) s = true <-> LastIndex s c = None.
Proof.
  induction s as [|d s IH]; simpl; [done|]. rewrite andb_true_iff, negb_true_iff, IH.
  destruct (LastIndex s c), (d =c c); (split; [|done]); try done; by intros [? ?].
Qed.

Lemma LastIndex_app s t c :
  sall (fun d => negb (d =c c)) t = true -> LastIndex (s ++ String c t)%string c = Some (slen s).
Proof.
  intros Ht. induction s as [|d s IH]; simpl; [|by rewrite IH].
  apply LastIndex_none in Ht. by rewrite Ht, Ascii.eqb_refl.
Qed.

Lemma LastIndex_some s c i :
  LastIndex s c = Some i ->
  s = (stake i s ++ String c (sdrop (S i) s))%string /\
  sall (fun d => negb (d =c c)) (sdrop (S i) s) = true.
Proof.
  revert i; induction s as [|d s IH]; intros i; [done|]. cbn [LastIndex].
  destruct (LastIndex s c) as [j|] eqn:E.
  - intros H. injection H as <-. destruct (IH j eq_refl) as [E1 E2]. split; [|done].
    cbn [stake String.append sdrop]. f_equal. exact E1.
  - destruct (Ascii.eqb_spec d c) as [->|]; [|done]. intros H. injection H as <-.
    split; [done|]. by apply LastIndex_none.
Qed.

(** Replace every byte by a string. *)
Fixpoint sflat (f : ascii -> string) (s : string) : string :=
  match s with
  | EmptyString => EmptyString
  | String c s => (f c ++ sflat f s)%string
  end.

Lemma ReplaceAll_byte s c new :
  ReplaceAll s (String c EmptyString) new =
  sflat (fun d => if d =c c then new else String d EmptyString) s.
Proof.
  unfold ReplaceAll. induction s as [|d s IH]; [done|].
  cbn [replace_from String.prefix sflat String.length Nat.sub]. rewrite IH.
  destruct (ascii_dec c d) as [->|Hn].
  - rewrite Ascii.eqb_refl. by destruct s.
  - rewrite (proj2 (Ascii.eqb_neq d c)) by congruence. done.
Qed.

Lemma sflat_app f s t : sflat f (s ++ t)%string = (sflat f s ++ sflat f t)%string.
Proof. induction s as [|c s IH]; simpl; [done|]. by rewrite IH, sapp_assoc. Qed.

Lemma sflat_sflat f g s : sflat f (sflat g s) = sflat (fun c => sflat f (g c)) s.
Proof. induction s as [|c s IH]; simpl; [done|]. by rewrite sflat_app, IH. Qed.

Lemma sflat_ext f g s : (forall c, f c = g c) -> sflat f s = sflat g s.
Proof. intros H. induction s as [|c s IH]; simpl; [done|]. by rewrite H, IH. Qed.

(** ** TrimSpace *)

Lemma srev_onto_app s acc : srev_onto s acc = (srev s ++ acc)%string.
Proof.
  unfold srev. revert acc. induction s as [|c s IH]; intros acc; simpl; [done|].
  rewrite IH, (IH (String c EmptyString)), <- sapp_assoc. done.
Qed.

Lemma srev_app s t : srev (s ++ t)%string = (srev t ++ srev s)%string.
Proof.
  unfold srev at 1. revert t. induction s as [|c s IH]; intros t; simpl.
  - rewrite sapp_nil_r. done.
  - rewrite srev_onto_app. fold (srev (s ++ t)%string). unfold srev in IH at 1.
    unfold srev at 1. rewrite IH. unfold srev at 3. simpl. rewrite (srev_onto_app s (String c EmptyString)).
    by rewrite <- sapp_assoc.
Qed.

Lemma srev_cons c s : srev (String c s) = (srev s ++ String c EmptyString)%string.
Proof. unfold srev at 1. simpl. apply srev_onto_app. Qed.

Lemma srev_srev s : srev (srev s) = s.
Proof.
  induction s as [|c s IH]; [done|]. rewrite srev_cons, srev_app, IH. done.
Qed.

Lemma TrimSlashes_id s : trim_slashes s = s -> trim_slashes (srev s) = srev s -> TrimSlashes s = s.
Proof. unfold TrimSlashes. intros -> ->. apply srev_srev. Qed.

Lemma slen_srev s : slen (srev s) = slen s.
Proof.
  induction s as [|c s IH]; [done|]. rewrite srev_cons, slen_app, IH. simpl. lia.
Qed.

(** No rune of the list opens the text. *)
Definition no_lead (runes : list string) (s : string) : Prop :=
  Forall (fun r => String.prefix r s = false) runes.

Lemma no_lead_find runes s :
  no_lead runes s <-> List.find (fun r => String.prefix r s) runes = None.
Proof.
  unfold no_lead. induction runes as [|r runes IH]; simpl; [done|].
  rewrite Forall_cons, IH. destruct (String.prefix r s); [split; [by intros [? _]|done]|].
  split; [by intros [_ ?]|done].
Qed.

Lemma trim_left_stop runes n s : no_lead runes s -> trim_left runes n s = s.
Proof. rewrite no_lead_find. intros H. destruct n; simpl; [done|]. by rewrite H. Qed.

Lemma trim_left_no_lead runes n s :
  Forall (fun r => r <> EmptyString) runes -> slen s <= n -> no_lead runes (trim_left runes n s).
Proof.
  intros Hr. revert s. induction n as [|n IH]; intros s Hn; simpl.
  - destruct s; [|simpl in Hn; lia]. eapply Forall_impl; [exact Hr|]. by intros [|? ?].
  - destruct (List.find _ runes) as [r|] eqn:E; [|by apply no_lead_find].
    apply IH. apply List.find_some in E as [Hin Hp].
    rewrite Forall_forall in Hr. specialize (Hr r ltac:(by apply list_elem_of_In)).
    rewrite slen_sdrop. destruct r; [done|]. simpl. destruct s; simpl in *; [done|lia].
Qed.

(** What is left after trimming is a suffix. *)
Lemma trim_left_suffix runes n s : exists u, s = (u ++ trim_left runes n s)%string.
Proof.
  revert s. induction n as [|n IH]; intros s; simpl; [by exists EmptyString|].
  destruct (List.find _ runes) as [r|]; [|by exists EmptyString].
  destruct (IH (sdrop (slen r) s)) as [u E]. exists (stake (slen r) s ++ u)%string.
  rewrite <- sapp_assoc, <- E. by rewrite stake_sdrop.
Qed.

Lemma prefix_trans_app r s t : String.prefix r s = true -> String.prefix r (s ++ t)%string = true.
Proof. rewrite !prefix_iff. intros [u ->]. exists (u ++ t)%string. by rewrite sapp_assoc. Qed.

Lemma no_lead_prefix runes s t : no_lead runes (s ++ t)%string -> no_lead runes s.
Proof.
  intros H. eapply Forall_impl; [exact H|]. intros r Hr. cbv beta in *.
  destruct (String.prefix r s) eqn:E; [|done]. by rewrite (prefix_trans_app _ _ t E) in Hr.
Qed.

(** Neither end is a space. *)
Definition trimmed (s : string) : Prop :=
  no_lead space_runes s /\ no_lead (List.map srev space_runes) (srev s).

Lemma TrimSpace_trimmed s : trimmed (TrimSpace s).
Proof.
  unfold TrimSpace. set (s1 := trim_left space_runes (slen s) s).
  assert (H1 : no_lead space_runes s1) by (apply trim_left_no_lead; [repeat constructor; done|lia]).
  set (t := trim_left _ (slen s1) (srev s1)).
  assert (H2 : no_lead (List.map srev space_runes) t).
  { apply trim_left_no_lead; [repeat constructor; done|]. by rewrite slen_srev. }
  split; [|by rewrite srev_srev].
  destruct (trim_left_suffix (List.map srev space_runes) (slen s1) (srev s1)) as [u E].
  fold t in E. apply (f_equal srev) in E. rewrite srev_srev, srev_app in E.
  apply (no_lead_prefix _ _ (srev u)). by rewrite <- E.
Qed.

Lemma TrimSpace_id s : trimmed s -> TrimSpace s = s.
Proof.
  intros [H1 H2]. unfold TrimSpace. rewrite (trim_left_stop _ _ s H1).
  rewrite trim_left_stop by done. apply srev_srev.
Qed.

Lemma TrimSpace_idem s : TrimSpace (TrimSpace s) = TrimSpace s.
Proof. apply TrimSpace_id, TrimSpace_trimmed. Qed.

(** A prefix without [c] of a text in which [c] follows [s] is a prefix of [s]. *)
Lemma prefix_upto r s c t :
  sall (fun d => negb (d =c c)) r = true ->
  String.prefix r (s ++ String c t)%string = String.prefix r s.
Proof.
  revert s. induction r as [|d r IH]; intros s Hr; [by destruct s|].
  simpl in Hr. apply andb_true_iff in Hr as [Hd Hr]. apply negb_true_iff, Ascii.eqb_neq in Hd.
  destruct s as [|e s]; simpl.
  - by destruct (ascii_dec d c).
  - destruct (ascii_dec d e); [|done]. by apply IH.
Qed.

Lemma no_lead_upto runes s c t t' :
  Forall (fun r => sall (fun d => negb (d =c c)) r = true) runes ->
  no_lead runes (s ++ String c t)%string -> no_lead runes (s ++ String c t')%string.
Proof.
  intros Hr H. unfold no_lead in *. rewrite Forall_forall in *. intros r Hin.
  rewrite prefix_upto by auto. rewrite <- (prefix_upto r s c t) by auto. auto.
Qed.

(** Trimming looks no further than the first and the last colon. *)
Lemma trimmed_infix x y m : trimmed (x ++ String ":" y)%string ->
  trimmed (x ++ String ":" (m ++ String ":" y))%string.
Proof.
  intros [H1 H2]. split.
  - eapply no_lead_upto; [|exact H1]. repeat constructor.
  - replace (srev (x ++ String ":" (m ++ String ":" y))%string)
      with (srev y ++ String ":" (srev m ++ String ":" (srev x)))%string.
    + rewrite srev_app, srev_cons, <- sapp_assoc in H2. simpl in H2.
      eapply no_lead_upto; [|exact H2]. repeat constructor.
    + rewrite srev_app, srev_cons, srev_app, srev_cons, <- !sapp_assoc. done.
Qed.
