(* ===== verification/GoStrconv.v ===== *)
(** * Go numbers and their text

    [strconv.ParseInt], [ParseFloat], [ParseBool], [Itoa], [time.ParseDuration]
    and [base64.StdEncoding], as far as the chassis uses them.  A [float64] is
    Stdlib's [spec_float] at precision 53 and exponent bound 1024 (binary64),
    whose operations round to nearest even as Go's do. *)

From Stdlib Require Import Ascii String ZArith Lia Bool SpecFloat.
From stdpp Require Import base tactics list strings.
From S2P Require Import Prelude GoStrings.

Local Open Scope Z_scope.

(** ** float64 *)

Definition float64 : Type := spec_float.
Definition f64_prec : Z := 53.
Definition f64_emax : Z := 1024.

Definition f64_mul (x y : float64) : float64 := SFmul f64_prec f64_emax x y.
Definition f64_div (x y : float64) : float64 := SFdiv f64_prec f64_emax x y.
Definition f64_eqb (x y : float64) : bool := SFeqb x y.
Definition f64_ltb (x y : float64) : bool := SFltb x y.
Definition f64_leb (x y : float64) : bool := SFleb x y.

(** [float64(z)] for an integer [z]. *)
Definition f64_of_Z (z : Z) : float64 := binary_normalize f64_prec f64_emax z 0 false.

(** [uint64(x)] of a non-negative finite [x]: truncation toward zero. *)
Definition f64_trunc (x : float64) : Z :=
  match x with
  | S754_finite s m e =>
      let v := if 0 <=? e then Z.pos m * 2 ^ e else Z.pos m / 2 ^ (- e) in
      if s then - v else v
  | _ => 0
  end.

(** ** Digits *)

Definition digit_val (c : ascii) : Z := Z.of_nat (bval c - 48)%nat.

(** [strconv.lower]: sets bit 0x20. *)
Definition lowerb (c : ascii) : ascii := ascii_of_nat (Nat.lor (bval c) 32).

(** ** strconv.ParseInt(s, 0, 64) *)

Inductive NumErr := ErrSyntax | ErrRange.

(** The digit of [c] in any base up to 36, as [ParseUint]'s inner switch. *)
Definition digit36 (c : ascii) : option Z :=
  if is_dec c then Some (digit_val c)
  else if in_range "a" "z" (lowerb c)
       then Some (Z.of_nat (bval (lowerb c) - 97)%nat + 10)
       else None.

(** [ParseUint]'s digit loop.  [seen] is the [underscores] flag; a range error
    stops the loop at once, a bad digit is a syntax error. *)
Fixpoint uint_loop (base : Z) (s : string) (n : Z) (seen : bool) : (Z * bool) + (Z * NumErr) :=
  match s with
  | EmptyString => inl (n, seen)
  | String c s =>
      if c =c "_" then uint_loop base s n true
      else match digit36 c with
           | None => inr (0, ErrSyntax)
           | Some d =>
               if base <=? d then inr (0, ErrSyntax)
               else if (two64 - 1) / base + 1 <=? n then inr (two64 - 1, ErrRange)
               else let n1 := n * base + d in
                    if two64 <=? n1 then inr (two64 - 1, ErrRange)
                    else uint_loop base s n1 seen
           end
  end.

(** [strconv.underscoreOK] after the sign and the base prefix: [i] is the
    class of the previous byte: [^] start, [0] digit, [_] underscore, [!] other. *)
Fixpoint underscore_loop (hex : bool) (i : ascii) (s : string) : bool :=
  match s with
  | EmptyString => negb (i =c "_")
  | String c s =>
      if is_dec c || (hex && in_range "a" "f" (lowerb c)) then underscore_loop hex "0" s
      else if c =c "_" then if i =c "0" then underscore_loop hex "_" s else false
      else if i =c "_" then false
      else underscore_loop hex "!" s
  end.

Definition underscoreOK (s : string) : bool :=
  let s := match s with
           | String c s' => if (c =c "-") || (c =c "+") then s' else s
           | EmptyString => s
           end in
  match s with
  | String z (String c s') =>
      if (z =c "0") && ((lowerb c =c "b") || (lowerb c =c "o") || (lowerb c =c "x"))
      then underscore_loop (lowerb c =c "x") "0" s'
      else underscore_loop false "^" s
  | _ => underscore_loop false "^" s
  end.

(** [strconv.ParseUint(s, 0, 64)]. *)
Definition ParseUint (s : string) : Z + (Z * NumErr) :=
  match s with
  | EmptyString => inr (0, ErrSyntax)
  | String c0 s1 =>
      let '(base, digits) :=
        if c0 =c "0" then
          match s1 with
          | String c1 (String _ _ as s2) =>
              if lowerb c1 =c "b" then (2, s2)
              else if lowerb c1 =c "o" then (8, s2)
              else if lowerb c1 =c "x" then (16, s2)
              else (8, s1)
          | _ => (8, s1)
          end
        else (10, s) in
      match uint_loop base digits 0 false with
      | inr e => inr e
      | inl (n, seen) => if seen && negb (underscoreOK s) then inr (0, ErrSyntax) else inl n
      end
  end.

(** [strconv.ParseInt(s, 0, 64)]: the value, and the error Go also returns. *)
Definition ParseInt (s : string) : Z * option NumErr :=
  match s with
  | EmptyString => (0, Some ErrSyntax)
  | String c s' =>
      let neg := c =c "-" in
      let t := if (c =c "-") || (c =c "+") then s' else s in
      match ParseUint t with
      | inr (_, ErrSyntax) => (0, Some ErrSyntax)
      | inr (un, ErrRange) =>
          if neg then (MinInt64, Some ErrRange) else (MaxInt64, Some ErrRange)
      | inl un =>
          if negb neg && (two63 <=? un) then (MaxInt64, Some ErrRange)
          else if neg && (two63 <? un) then (MinInt64, Some ErrRange)
          else (if neg then wrap64 (- wrap64 un) else un, None)
      end
  end.

(** ** strconv.ParseFloat

    On the alphabet the lexer gives it (digits, [.] and [-]): an optional sign,
    then digits with at most one point and at least one digit; the exact
    decimal is rounded once.  Anything else is a syntax error, whose value Go
    reports as 0. *)

Fixpoint float_digits (s : string) (mant : Z) (frac : option nat) (saw : bool)
  : option (Z * nat) :=
  match s with
  | EmptyString => if saw then Some (mant, match frac with Some k => k | None => 0%nat end) else None
  | String c s =>
      if c =c "." then
        match frac with
        | Some _ => None
        | None => float_digits s mant (Some 0%nat) saw
        end
      else if is_dec c then
        float_digits s (mant * 10 + digit_val c)
          (match frac with Some k => Some (S k) | None => None end) true
      else None
  end.

(** [m / 10^k], rounded to nearest even. *)
Definition decimal_to_f64 (neg : bool) (m : Z) (k : nat) : float64 :=
  match m with
  | Zpos p =>
      match 10 ^ Z.of_nat k with
      | Zpos q => f64_div (S754_finite neg p 0) (S754_finite false q 0)
      | _ => S754_nan
      end
  | _ => S754_zero neg
  end.

Definition ParseFloat (s : string) : float64 * option NumErr :=
  let '(neg, t) := match s with
                   | String c s' => if c =c "-" then (true, s')
                                    else if c =c "+" then (false, s') else (false, s)
                   | EmptyString => (false, s)
                   end in
  match float_digits t 0 None false with
  | None => (S754_zero false, Some ErrSyntax)
  | Some (m, k) =>
      match decimal_to_f64 neg m k with
      | S754_infinity _ as v => (v, Some ErrRange)
      | v => (v, None)
      end
  end.

(** ** strconv.ParseBool *)
Definition ParseBool (s : string) : bool * option NumErr :=
  if existsb (String.eqb s) ["1"; "t"; "T"; "true"; "TRUE"; "True"] then (true, None)
  else if existsb (String.eqb s) ["0"; "f"; "F"; "false"; "FALSE"; "False"] then (false, None)
  else (false, Some ErrSyntax).

(** ** strconv.Itoa and Atoi *)
Fixpoint itoa_aux (fuel : nat) (n : Z) (acc : string) : string :=
  match fuel with
  | 0%nat => acc
  | S fuel =>
      let acc := String (ascii_of_nat (48 + Z.to_nat (n mod 10))%nat) acc in
      if n / 10 =? 0 then acc else itoa_aux fuel (n / 10) acc
  end.
Definition Itoa (n : Z) : string :=
  if n <? 0 then String "-" (itoa_aux 20 (- n) EmptyString) else itoa_aux 20 n EmptyString.

(** The value of a run of decimal digits. *)
Fixpoint dec_value (s : string) (acc : Z) : Z :=
  match s with
  | EmptyString => acc
  | String c s => dec_value s (acc * 10 + digit_val c)
  end.

(** ** time.ParseDuration *)

Definition Nanosecond : Z := 1.
Definition Microsecond : Z := 1000.
Definition Millisecond : Z := 1000000.
Definition Second : Z := 1000000000.
Definition Minute : Z := 60 * Second.
Definition Hour : Z := 60 * Minute.

(** [leadingInt]: the value and the rest, or an overflow. *)
Fixpoint leadingInt (s : string) (x : Z) : option (Z * string) :=
  match s with
  | String c s' =>
      if is_dec c then
        if two63 / 10 <? x then None
        else let x := x * 10 + digit_val c in
             if two63 <? x then None else leadingInt s' x
      else Some (x, s)
  | EmptyString => Some (x, s)
  end.

Fixpoint leadingFraction (s : string) (x : Z) (scale : float64) (overflow : bool)
  : Z * float64 * string :=
  match s with
  | String c s' =>
      if is_dec c then
        if overflow then leadingFraction s' x scale true
        else if (two63 - 1) / 10 <? x then leadingFraction s' x scale true
        else let y := x * 10 + digit_val c in
             if two63 <? y then leadingFraction s' x scale true
             else leadingFraction s' y (f64_mul scale (f64_of_Z 10)) false
      else (x, scale, s)
  | EmptyString => (x, scale, s)
  end.

Definition unitMap (u : string) : option Z :=
  if u =s "ns" then Some Nanosecond
  else if (u =s "us") || (u =s bytes [194;181;115]%nat) || (u =s bytes [206;188;115]%nat)
       then Some Microsecond
  else if u =s "ms" then Some Millisecond
  else if u =s "s" then Some Second
  else if u =s "m" then Some Minute
  else if u =s "h" then Some Hour
  else None.

Fixpoint unit_run (s : string) : nat :=
  match s with
  | String c s => if (c =c ".") || is_dec c then 0%nat else S (unit_run s)
  | EmptyString => 0%nat
  end.

(** One [number unit] group of the duration: the nanoseconds and the rest. *)
Definition duration_group (s : string) : option (Z * string) :=
  match s with
  | EmptyString => None
  | String c0 _ =>
      if negb ((c0 =c ".") || is_dec c0) then None
      else match leadingInt s 0 with
           | None => None
           | Some (v, s1) =>
               let pre := negb (slen s1 =? slen s)%nat in
               let '(f, scale, s2, post) :=
                 match s1 with
                 | String c s' =>
                     if c =c "." then
                       let '(f, scale, s2) := leadingFraction s' 0 (f64_of_Z 1) false in
                       (f, scale, s2, negb (slen s2 =? slen s')%nat)
                     else (0, f64_of_Z 1, s1, false)
                 | EmptyString => (0, f64_of_Z 1, s1, false)
                 end in
               if negb pre && negb post then None
               else
                 let i := unit_run s2 in
                 if (i =? 0)%nat then None
                 else match unitMap (stake i s2) with
                      | None => None
                      | Some unit =>
                          if two63 / unit <? v then None
                          else
                            let v := v * unit in
                            let v := if 0 <? f
                                     then wrapU64 (v + f64_trunc (f64_mul (f64_of_Z f)
                                                     (f64_div (f64_of_Z unit) scale)))
                                     else v in
                            if (0 <? f) && (two63 <? v) then None
                            else Some (v, sdrop i s2)
                      end
           end
  end.

Fixpoint duration_loop (fuel : nat) (s : string) (d : Z) : option Z :=
  match s with
  | EmptyString => Some d
  | _ =>
      match fuel with
      | 0%nat => None
      | S fuel =>
          match duration_group s with
          | None => None
          | Some (v, s') =>
              let d := wrapU64 (d + v) in
              if two63 <? d then None else duration_loop fuel s' d
          end
      end
  end.

(** [time.ParseDuration]; [None] is the error return. *)
Definition ParseDuration (s : string) : option Z :=
  let '(neg, t) := match s with
                   | String c s' => if (c =c "-") || (c =c "+") then (c =c "-", s') else (false, s)
                   | EmptyString => (false, s)
                   end in
  if t =s "0" then Some 0
  else if t =s "" then None
  else match duration_loop (slen t) t 0 with
       | None => None
       | Some d => if neg then Some (wrap64 (- wrap64 d))
                   else if two63 - 1 <? d then None else Some d
       end.

(** ** base64.StdEncoding.EncodeToString *)

Definition b64_alphabet : string :=
  "ABCDEFGHIJKLMNOPQRSTUVWXYZabcdefghijklmnopqrstuvwxyz0123456789+/".
Definition b64_char (n : nat) : ascii := byte_at b64_alphabet n.

Fixpoint b64_encode (s : string) : string :=
  match s with
  | EmptyString => EmptyString
  | String x EmptyString =>
      let x := bval x in
      String (b64_char (x / 4)) (String (b64_char (x mod 4 * 16)) "==")
  | String x (String y EmptyString) =>
      let x := bval x in let y := bval y in
      String (b64_char (x / 4)) (String (b64_char (x mod 4 * 16 + y / 16))
        (String (b64_char (y mod 16 * 4)) "="))
  | String x (String y (String z s)) =>
      let x := bval x in let y := bval y in let z := bval z in
      String (b64_char (x / 4)) (String (b64_char (x mod 4 * 16 + y / 16))
        (String (b64_char (y mod 16 * 4 + z / 64)) (String (b64_char (z mod 64))
          (b64_encode s))))
  end%nat.

(** ** Checks *)

Example parse_int_ex :
  List.map (fun s => fst (ParseInt s)) ["42"; "-3"; "010"; "09"; "0x1F"; "9223372036854775808"; "1-2"; "1_000"; "1__0"]
  = [42; -3; 8; 0; 31; MaxInt64; 0; 1000; 0].
Proof. reflexivity. Qed.

Example parse_float_ex :
  List.map (fun s => fst (ParseFloat s)) ["0.75"; "1.2.3"; "-0.5"; "3."; "-."]
  = [S754_finite false 6755399441055744 (-53); S754_zero false;
     S754_finite true 4503599627370496 (-53); S754_finite false 6755399441055744 (-51);
     S754_zero false].
Proof. reflexivity. Qed.

Example parse_duration_ex :
  List.map ParseDuration ["50ms"; "2s"; "1.5h"; "-1m"; "0"; ""; "5"; "1h30m"; "x"]
  = [Some 50000000; Some 2000000000; Some 5400000000000; Some (-60000000000); Some 0;
     None; None; Some 5400000000000; None].
Proof. vm_compute. reflexivity. Qed.

Example itoa_ex : List.map Itoa [0; 7; 1234567890; -12] = ["0"; "7"; "1234567890"; "-12"].
Proof. reflexivity. Qed.

Example b64_ex : List.map b64_encode [""; "f"; "fo"; "foo"; "foobar"] = [""; "Zg=="; "Zm8="; "Zm9v"; "Zm9vYmFy"].
Proof. reflexivity. Qed.

(** ** Lemmas *)

Lemma digit_val_bounds c : is_dec c = true -> 0 <= digit_val c <= 9.
Proof.
  unfold is_dec, in_range, digit_val. intros H. bool_to_prop.
  change (bval "0") with 48%nat in *. change (bval "9") with 57%nat in *. lia.
Qed.

Lemma uint_loop_bounds base s n seen :
  0 <= n < two64 -> 0 < base ->
  match uint_loop base s n seen with
  | inl (m, _) => 0 <= m < two64
  | inr (m, _) => 0 <= m < two64
  end.
Proof.
  revert n seen; induction s as [|c s IH]; intros n seen Hn Hb; simpl; [done|].
  case_bool; [by apply IH|].
  unfold digit36. destruct (is_dec c) eqn:Ed.
  - pose proof (digit_val_bounds c Ed). repeat case_bool; bool_to_prop; try (unfold two64 in *; lia).
    apply IH; [unfold two64 in *; nia|done].
  - case_bool; [|unfold two64; lia].
    repeat case_bool; bool_to_prop; try (unfold two64 in *; lia).
    apply IH; [unfold two64 in *; nia|done].
Qed.

(** [ParseInt]'s value is always an [int64]. *)
Lemma ParseInt_int64 s : int64_ok (fst (ParseInt s)).
Proof.
  unfold ParseInt. destruct s as [|c s]; [by vm_compute|].
  set (t := if _ : bool then s else String c s). clearbody t.
  assert (Hu : match ParseUint t with inl m => 0 <= m < two64 | inr _ => True end).
  { unfold ParseUint. destruct t as [|c0 s1]; [done|].
    match goal with |- context [let '(_, _) := ?p in _] => set (q := p) end.
    assert (Hb : 0 < fst q).
    { unfold q. repeat case_match; simpl; lia. }
    clearbody q. destruct q as [base digits]. simpl in Hb.
    pose proof (uint_loop_bounds base digits 0 false ltac:(unfold two64; lia) Hb).
    repeat case_match; simplify_eq; auto. }
  assert (Hc : int64_ok 0 /\ int64_ok MaxInt64 /\ int64_ok MinInt64)
    by (unfold int64_ok, MinInt64, MaxInt64, two63; lia).
  destruct Hc as (H0 & Hmax & Hmin).
  destruct (ParseUint t) as [un|[un []]]; simpl; try done; [|by case_bool].
  destruct (c =c "-"); simpl.
  - case_bool; simpl; auto with txco.
  - case_bool; simpl; [done|]. bool_to_prop. unfold int64_ok, MinInt64, MaxInt64 in *. lia.
Qed.

(** ** Printing and reading integers *)

Lemma digit_char d : 0 <= d < 10 ->
  is_dec (ascii_of_nat (48 + Z.to_nat d)) = true /\ digit_val (ascii_of_nat (48 + Z.to_nat d)) = d /\
  (0 < d -> (ascii_of_nat (48 + Z.to_nat d) =c "0") = false).
Proof.
  intros H.
  assert (d = 0 \/ d = 1 \/ d = 2 \/ d = 3 \/ d = 4 \/ d = 5 \/ d = 6 \/ d = 7 \/ d = 8 \/ d = 9) as Hd by lia.
  repeat destruct Hd as [->|Hd]; [split; [reflexivity|split; [reflexivity|intros; first [reflexivity|lia]]]..|subst d; done].
Qed.

(** The digits of a positive number, the first one not a zero. *)
Lemma itoa_aux_digits fuel : forall n acc,
  0 < n < 10 ^ Z.of_nat fuel -> sall is_dec acc = true ->
  exists c s, itoa_aux fuel n acc = String c s /\ is_dec c = true /\ (c =c "0") = false /\ sall is_dec s = true.
Proof.
  induction fuel as [|fuel IH]; intros n acc Hn Ha; [cbn in Hn; lia|].
  pose proof (Z.mod_pos_bound n 10 ltac:(lia)) as Hm. pose proof (Z.div_mod n 10 ltac:(lia)) as Hdm.
  destruct (digit_char (n mod 10) Hm) as (Hd & _ & Hz). cbn [itoa_aux].
  destruct (Z.eqb_spec (n / 10) 0) as [E|E].
  - eexists _, _. split; [done|]. split; [done|]. split; [apply Hz; lia|done].
  - apply IH; [|cbn [sall]; by rewrite Hd]. rewrite Nat2Z.inj_succ, Z.pow_succ_r in Hn by lia.
    split; [|apply Z.div_lt_upper_bound; lia].
    assert (0 <= n / 10) by (apply Z.div_pos; lia). lia.
Qed.

Lemma itoa_aux_value fuel : forall n acc,
  0 <= n < 10 ^ Z.of_nat fuel -> dec_value (itoa_aux fuel n acc) 0 = dec_value acc n.
Proof.
  induction fuel as [|fuel IH]; intros n acc Hn; [cbn in Hn; replace n with 0 by lia; done|].
  pose proof (Z.mod_pos_bound n 10 ltac:(lia)) as Hm. pose proof (Z.div_mod n 10 ltac:(lia)) as Hdm.
  destruct (digit_char (n mod 10) Hm) as (_ & Hv & _). cbn [itoa_aux].
  destruct (Z.eqb_spec (n / 10) 0) as [E|E].
  - cbn [dec_value]. rewrite Hv. f_equal. lia.
  - rewrite IH; [cbn [dec_value]; rewrite Hv; f_equal; lia|].
    rewrite Nat2Z.inj_succ, Z.pow_succ_r in Hn by lia.
    split; [apply Z.div_pos; lia|apply Z.div_lt_upper_bound; lia].
Qed.

(** A non-negative integer prints as its decimal digits. *)
Lemma Itoa_nonneg n :
  0 <= n < 10 ^ 20 -> Itoa n <> "" /\ sall is_dec (Itoa n) = true /\ dec_value (Itoa n) 0 = n.
Proof.
  intros Hn. unfold Itoa. destruct (Z.ltb_spec n 0); [lia|].
  rewrite itoa_aux_value by lia. destruct (Z.eq_dec n 0) as [->|]; [done|].
  destruct (itoa_aux_digits 20 n EmptyString) as (c & s & -> & Hc & _ & Hs); [lia|done|].
  cbn [sall]. by rewrite Hc, Hs.
Qed.
