(* ===== verification/GoPath.v ===== *)
(** * Slash paths (Go's path package)

    [Clean], [Join], [Dir] and [IsAbs] by components: [Clean] drops empty and
    [.] components and lets [..] cancel the component before it. *)

From Stdlib Require Import Ascii String ZArith Lia Bool.
From stdpp Require Import base tactics list strings.
From S2P Require Import Prelude GoStrings.

(** The components kept so far, the last one first. *)
Definition clean_step (rooted : bool) (out : list string) (c : string) : list string :=
  if (c =s "") || (c =s ".") then out
  else if c =s ".." then
    match out with
    | top :: below => if top =s ".." then ".." :: out else below
    | [] => if rooted then [] else [".."]
    end
  else c :: out.

Definition IsAbs (p : string) : bool := HasPrefix p "/".

Definition render (rooted : bool) (comps : list string) : string :=
  if rooted then String "/" (String.concat "/" comps)
  else match comps with [] => "." | _ => String.concat "/" comps end.

Definition Clean (p : string) : string :=
  if p =s "" then "."
  else render (IsAbs p) (rev (foldl (clean_step (IsAbs p)) [] (Split p "/"))).

Definition Join (a c : string) : string :=
  if (a =s "") && (c =s "") then "" else if a =s "" then Clean c else Clean (a ++ "/" ++ c).

(** Everything up to the last slash, cleaned. *)
Definition Dir (p : string) : string :=
  Clean (match LastIndex p "/" with Some i => stake (S i) p | None => "" end).

Example Clean_ex :
  map Clean [""; "a//b/./c"; "../../x"; "/../x"; "a/../.."; "a/b/../c/"; "/"] =
  ["."; "a/b/c"; "../../x"; "/x"; ".."; "a/c"; "/"].
Proof. reflexivity. Qed.

(** ** The form of a clean path *)

Definition no_slash (c : string) : Prop := sall (fun d => negb (d =c "/")) c = true.
Definition plain (c : string) : Prop := no_slash c /\ c <> "" /\ c <> "." /\ c <> "..".

(** Some [..] in front, unless the path is rooted, and plain components. *)
Definition normal (rooted : bool) (l : list string) : Prop :=
  exists k ps, l = replicate k ".." ++ ps /\ Forall plain ps /\ (rooted = true -> k = 0).

Lemma Split_no_slash s : Forall no_slash (Split s "/").
Proof.
  induction s as [|c s IH]; cbn; [by constructor|]. destruct (c =c "/") eqn:E; [by constructor|].
  pose proof (Split_not_nil s "/") as Hn. destruct (Split s "/") as [|w ws]; [done|].
  inversion_clear IH as [|? ? Hw Hws]. constructor; [|done]. unfold no_slash. cbn. by rewrite E.
Qed.

Lemma clean_step_normal rooted out c : no_slash c -> normal rooted (rev out) -> normal rooted (rev (clean_step rooted out c)).
Proof.
  intros Hc (k & ps & E & Hps & Hk). unfold clean_step.
  destruct ((c =s "") || (c =s ".")) eqn:E1; [by exists k, ps|]. apply orb_false_iff in E1 as [E1 E2].
  destruct (c =s "..") eqn:E3; bool_to_prop.
  - destruct out as [|top below].
    + destruct rooted; [by exists 0, []|]. exists 1, []. by repeat split.
    + cbn in E. destruct ps as [|x ps _] using rev_ind.
      * rewrite app_nil_r in E. assert (Ht : top = "..").
        { assert (Hin : Forall (fun c => c = "..") (replicate k "..")) by (by apply Forall_replicate).
          rewrite <- E in Hin. apply Forall_app in Hin as [_ Hin]. by inversion_clear Hin. }
        subst top. cbn. exists (S k), []. rewrite E, app_nil_r, replicate_S_end.
        split; [done|]. split; [done|]. intros Hr. specialize (Hk Hr). subst k. by destruct (rev below).
      * rewrite (assoc_L (++)) in E. apply app_inj_tail in E as [E ->].
        apply Forall_app in Hps as [Hps Hx]. inversion_clear Hx as [|? ? Hpx _].
        rewrite (proj2 (String.eqb_neq _ _)) by apply Hpx. by exists k, ps.
  - exists k, (ps ++ [c]). cbn. rewrite E, (assoc_L (++)). split; [done|]. split; [|done].
    apply Forall_app. split; [done|]. by repeat constructor.
Qed.

Lemma clean_normal rooted l : Forall no_slash l -> normal rooted (rev (foldl (clean_step rooted) [] l)).
Proof.
  intros H. assert (H0 : normal rooted (rev [])) by (by exists 0, []). revert H0. generalize (@nil string) as out.
  induction H as [|c l Hc _ IH]; intros out Hn; [done|]. cbn. apply IH. by apply clean_step_normal.
Qed.

Lemma Clean_normal p : exists rooted l, Clean p = render rooted l /\ normal rooted l.
Proof.
  unfold Clean. case_bool; [by exists false, []; split; [|exists 0, []]|].
  eexists _, _. split; [reflexivity|]. apply clean_normal, Split_no_slash.
Qed.

Lemma normal_no_slash rooted l : normal rooted l -> Forall no_slash l.
Proof.
  intros (k & ps & -> & H & _). apply Forall_app. split; [by apply Forall_replicate|].
  eapply Forall_impl; [exact H|]. by intros c [].
Qed.

Lemma Split_concat l : l <> [] -> Forall no_slash l -> Split (String.concat "/" l) "/" = l.
Proof.
  intros Hn H. induction H as [|c l Hc Hl IH]; [done|]. destruct l as [|d l]; [by apply Split_no_sep|].
  change (String.concat "/" (c :: d :: l)) with (c ++ String "/" (String.concat "/" (d :: l)))%string.
  rewrite Split_app_sep, (Split_no_sep c) by done. cbn [app]. f_equal. by apply IH.
Qed.

Lemma concat_Split s : String.concat "/" (Split s "/") = s.
Proof.
  induction s as [|c s IH]; [done|]. cbn [Split]. pose proof (Split_not_nil s "/") as Hn.
  destruct (Split s "/") as [|w ws] eqn:E; [done|]. destruct (c =c "/") eqn:Ec.
  - apply Ascii.eqb_eq in Ec as ->.
    change (String.concat "/" ("" :: w :: ws)) with (String "/" (String.concat "/" (w :: ws))). by rewrite IH.
  - rewrite <- IH. by destruct ws.
Qed.

Lemma foldl_clean_plain rooted out l :
  Forall plain l -> foldl (clean_step rooted) out l = rev l ++ out.
Proof.
  intros H. revert out. induction H as [|c l Hc _ IH]; intros out; [done|]. cbn. rewrite IH, <- (assoc_L (++)). cbn.
  f_equal. unfold clean_step. destruct Hc as (_ & H1 & H2 & H3).
  by rewrite !(proj2 (String.eqb_neq _ _)).
Qed.

Lemma foldl_clean_dots k out :
  out = replicate (length out) ".." -> foldl (clean_step false) out (replicate k "..") = replicate (length out + k) "..".
Proof.
  revert out; induction k as [|k IH]; intros out Ho; cbn [replicate foldl]; [by rewrite Nat.add_0_r|].
  assert (E : clean_step false out ".." = ".." :: out).
  { unfold clean_step. cbn. destruct out as [|t out]; [done|]. cbn in Ho. injection Ho as -> _. done. }
  rewrite E, IH; [|cbn; by rewrite Ho at 1]. cbn [length]. f_equal. lia.
Qed.

Lemma foldl_clean_normal rooted l : normal rooted l -> rev (foldl (clean_step rooted) [] l) = l.
Proof.
  intros (k & ps & -> & Hps & Hk). rewrite foldl_app. destruct rooted.
  - rewrite (Hk eq_refl). cbn. by rewrite foldl_clean_plain, app_nil_r, rev_involutive.
  - rewrite (foldl_clean_dots k []) by done. rewrite foldl_clean_plain, rev_app_distr, rev_involutive by done. cbn.
    f_equal. clear. induction k as [|k IH]; [done|]. cbn. rewrite IH. symmetry. apply replicate_S_end.
Qed.

Lemma render_abs rooted l : normal rooted l -> render rooted l <> "" /\ IsAbs (render rooted l) = rooted.
Proof.
  intros Hn. destruct rooted; cbn; [split; [done|]; by destruct (String.concat _ _)|].
  destruct l as [|c l]; [done|]. assert (Hc : no_slash c /\ c <> "").
  { apply normal_no_slash in Hn as Hs. inversion_clear Hs as [|? ? Hc _]. split; [done|].
    destruct Hn as ([|k] & ps & E & Hps & _); cbn in E; [subst ps|by injection E as -> _].
    inversion_clear Hps as [|? ? Hp _]. apply Hp. }
  destruct Hc as [Hc He]. destruct c as [|d c]; [done|]. unfold no_slash in Hc. cbn in Hc. bool_to_prop.
  split; [by destruct l|]. unfold IsAbs, HasPrefix. apply not_true_is_false. intros Hp.
  apply prefix_iff in Hp as [t Hp]. destruct l; cbn in Hp; congruence.
Qed.

(** A clean path is its own cleaning. *)
Lemma Clean_render rooted l : normal rooted l -> Clean (render rooted l) = render rooted l.
Proof.
  intros Hn. destruct (render_abs rooted l Hn) as [Hne Ha]. pose proof (normal_no_slash _ _ Hn) as Hs.
  unfold Clean. rewrite (proj2 (String.eqb_neq _ _) Hne), Ha. f_equal.
  rewrite <- (foldl_clean_normal rooted l Hn) at 2. do 1 f_equal.
  destruct rooted; cbn [render].
  - destruct l as [|c l]; [done|]. change (String "/" ?x) with ("" ++ String "/" x)%string.
    rewrite Split_app_sep, Split_concat by done. done.
  - destruct l as [|c l]; [done|]. by rewrite Split_concat.
Qed.

(** ** Staying below a directory *)

(** A clean directory name that does not end in [..]. *)
Definition dir_ok (D : string) : Prop :=
  exists rooted ds, D = render rooted ds /\ ds <> [] /\ normal rooted ds /\ last ds <> Some "..".

Lemma concat_snoc ds s : ds <> [] -> String.concat "/" (ds ++ [s]) = (String.concat "/" ds ++ String "/" s)%string.
Proof.
  intros Hd. induction ds as [|d ds IH]; [done|]. destruct ds as [|d' ds]; [done|].
  change (String.concat "/" ((d :: d' :: ds) ++ [s])) with (d ++ String "/" (String.concat "/" ((d' :: ds) ++ [s])))%string.
  rewrite IH by done.
  change (String.concat "/" (d :: d' :: ds)) with (d ++ String "/" (String.concat "/" (d' :: ds)))%string.
  by rewrite <- sapp_assoc.
Qed.

Lemma render_snoc rooted ds s : ds <> [] -> render rooted (ds ++ [s]) = (render rooted ds ++ String "/" s)%string.
Proof.
  intros Hd. destruct rooted; cbn [render]; [cbn; f_equal; by apply concat_snoc|].
  destruct ds as [|d ds]; [done|]. by apply (concat_snoc (d :: ds)).
Qed.

Lemma Join_below D s : dir_ok D -> plain s -> Join D s = (D ++ String "/" s)%string /\ dir_ok (D ++ String "/" s).
Proof.
  intros (rooted & ds & -> & Hd & Hn & _) Hs.
  assert (Hn' : normal rooted (ds ++ [s])).
  { destruct Hn as (k & ps & -> & Hps & Hk). exists k, (ps ++ [s]). rewrite (assoc_L (++)). split; [done|].
    split; [|done]. apply Forall_app. split; [done|by constructor]. }
  rewrite <- render_snoc by done. split.
  - unfold Join. rewrite (proj2 (String.eqb_neq _ _) (proj1 (render_abs _ _ Hn))). cbn [andb].
    change ("/" ++ s)%string with (String "/" s). rewrite <- render_snoc by done. by apply Clean_render.
  - exists rooted, (ds ++ [s]). split; [done|]. split; [by destruct ds|]. split; [done|].
    rewrite last_snoc. intros [= E]. by destruct Hs as (_ & _ & _ & ?).
Qed.

Lemma normal_suffix rooted ds ts :
  normal rooted (ds ++ ts) -> ds <> [] -> last ds <> Some ".." -> normal rooted ds /\ Forall plain ts.
Proof.
  intros (k & ps & E & Hps & Hk) Hd Hl.
  assert (Hlen : k <= length ds).
  { destruct (decide (k <= length ds)) as [|H]; [done|]. exfalso. apply Hl.
    assert (Ed : ds = replicate (length ds) "..").
    { apply (f_equal (take (length ds))) in E. rewrite take_app_length, take_app_le in E by (rewrite length_replicate; lia).
      rewrite take_replicate in E. rewrite E at 1. f_equal. lia. }
    destruct ds as [|d ds _] using rev_ind; [done|]. rewrite last_snoc. f_equal.
    assert (Hf : Forall (fun c => c = "..") (ds ++ [d])) by (rewrite Ed; by apply Forall_replicate).
    apply Forall_app in Hf as [_ Hf]. by inversion_clear Hf. }
  assert (Ets : ts = drop (length ds - k) ps).
  { apply (f_equal (drop (length ds))) in E. rewrite drop_app_length, drop_app in E.
    rewrite drop_ge, length_replicate in E by (rewrite length_replicate; lia). exact E. }
  assert (Eds : ds = replicate k ".." ++ take (length ds - k) ps).
  { apply (f_equal (take (length ds))) in E. rewrite take_app_length, take_app in E.
    rewrite (take_ge (replicate k "..")), length_replicate in E by (rewrite length_replicate; lia). exact E. }
  split; [|rewrite Ets; by apply Forall_drop].
  exists k, (take (length ds - k) ps). split; [done|]. split; [by apply Forall_take|done].
Qed.

(** What a cleaned path has behind a directory name is below that directory. *)
Lemma Clean_below q D t :
  Clean q = (D ++ String "/" t)%string -> D <> "" -> last (Split D "/") <> Some ".." ->
  dir_ok D /\ Forall plain (Split t "/").
Proof.
  intros E HD Hl. destruct (Clean_normal q) as (rooted & l & Eq & Hn). rewrite Eq in E. clear q Eq.
  assert (Hs : Split (render rooted l) "/" = Split D "/" ++ Split t "/") by (by rewrite E, Split_app_sep).
  assert (Hlne : l <> []).
  { intros ->. destruct rooted; cbn in E; [|by destruct D as [|? [|? ?]]].
    destruct D as [|? D]; [done|]. cbn in E. injection E as _ E. by destruct D. }
  destruct rooted; cbn [render] in Hs.
  - change (String "/" ?x) with ("" ++ String "/" x)%string in Hs.
    rewrite Split_app_sep, Split_concat in Hs by eauto using normal_no_slash. cbn [Split app] in Hs.
    destruct (Split D "/") as [|d ds] eqn:ED; [by apply Split_not_nil in ED|]. cbn in Hs. injection Hs as <- Hs.
    assert (Hds : ds <> []).
    { intros ->. apply HD. by rewrite <- (concat_Split D), ED. }
    destruct (normal_suffix true ds (Split t "/")) as [H1 H2]; [by rewrite <- Hs|done| |].
    { destruct ds; [done|]. exact Hl. }
    split; [|done]. exists true, ds. split; [|split; [done|split; [done|by destruct ds]]].
    rewrite <- (concat_Split D), ED. by destruct ds.
  - destruct l as [|c l]; [done|]. rewrite Split_concat in Hs by eauto using normal_no_slash.
    destruct (normal_suffix false (Split D "/") (Split t "/")) as [H1 H2]; [by rewrite <- Hs|apply Split_not_nil|done|].
    split; [|done]. exists false, (Split D "/"). split; [|split; [apply Split_not_nil|done]].
    rewrite <- (concat_Split D) at 1. pose proof (Split_not_nil D "/"). by destruct (Split D "/").
Qed.
