(* ===== verification/GoJson.v ===== *)
(** * UTF-8 and JSON strings

    [utf8.DecodeRune] and [utf8.Valid] of unicode/utf8, and the string encoder
    of encoding/json with its HTML escaping, on arbitrary bytes.  [unquote] is a
    decoder of JSON string literals against which the encoder is checked. *)

From Stdlib Require Import Ascii String ZArith Lia Bool.
From stdpp Require Import base tactics list strings.
From S2P Require Import Prelude GoStrings GoStrconv.

(** ** unicode/utf8 *)

Definition between (lo hi : nat) (c : ascii) : bool := (lo <=? bval c) && (bval c <=? hi).
Definition is_cont (c : ascii) : bool := between 128 191 c.

(** The bytes of the first rune of [s]; [None] when they are not valid UTF-8
    (then [DecodeRune] consumes one byte as [RuneError]). *)
Definition rune_size (s : string) : option nat :=
  match s with
  | EmptyString => None
  | String c s =>
      if bval c <? 128 then Some 1
      else
        let c1 := byte_at s 0 in let c2 := byte_at s 1 in let c3 := byte_at s 2 in
        if between 194 223 c then if is_cont c1 then Some 2 else None
        else if between 224 239 c then
          let lo := if bval c =? 224 then 160 else 128 in
          let hi := if bval c =? 237 then 159 else 191 in
          if between lo hi c1 && is_cont c2 then Some 3 else None
        else if between 240 244 c then
          let lo := if bval c =? 240 then 144 else 128 in
          let hi := if bval c =? 244 then 143 else 191 in
          if between lo hi c1 && is_cont c2 && is_cont c3 then Some 4 else None
        else None
  end.

(** [f] of every rune of [s], [bad] for every byte that starts none; [skip]
    counts the bytes of the current rune still to be stepped over. *)
Fixpoint runes_from (f : string -> string) (bad : string) (skip : nat) (s : string) : string :=
  match s with
  | EmptyString => EmptyString
  | String c s' =>
      match skip with
      | S k => runes_from f bad k s'
      | 0 => match rune_size s with
             | Some n => (f (stake n s) ++ runes_from f bad (n - 1) s')%string
             | None => (bad ++ runes_from f bad 0 s')%string
             end
      end
  end.

Fixpoint valid_from (skip : nat) (s : string) : bool :=
  match s with
  | EmptyString => true
  | String c s' =>
      match skip with
      | S k => valid_from k s'
      | 0 => match rune_size s with Some n => valid_from (n - 1) s' | None => false end
      end
  end.

(** [utf8.Valid]. *)
Definition utf8_valid (s : string) : bool := valid_from 0 s.

(** ** encoding/json, appendString with escapeHTML *)

Definition hex_digits : string := "0123456789abcdef".
Definition hex (n : nat) : ascii := byte_at hex_digits n.
Definition json_DQ : ascii := b 34.
Definition json_BS : ascii := b 92.

(** [htmlSafeSet]. *)
Definition html_safe (c : ascii) : bool :=
  between 32 127 c && negb ((c =c json_DQ) || (c =c json_BS) || (c =c "<") || (c =c ">") || (c =c "&")).

Definition escape1 (c : ascii) : string :=
  if html_safe c then String c EmptyString
  else if (c =c json_BS) || (c =c json_DQ) then String json_BS (String c EmptyString)
  else if bval c =? 8 then String json_BS "b"
  else if bval c =? 12 then String json_BS "f"
  else if bval c =? 10 then String json_BS "n"
  else if bval c =? 13 then String json_BS "r"
  else if bval c =? 9 then String json_BS "t"
  else String json_BS ("u00" ++ String (hex (bval c / 16)) (String (hex (bval c mod 16)) EmptyString)).

(** U+2028 and U+2029, which JSONP cannot hold. *)
Definition escape_rune (r : string) : string :=
  match r with
  | String c EmptyString => escape1 c
  | _ => if r =s bytes [226; 128; 168] then String json_BS "u2028"
         else if r =s bytes [226; 128; 169] then String json_BS "u2029"
         else r
  end.

(** [json.Marshal] of a string. *)
Definition json_marshal_string (s : string) : string :=
  String json_DQ (runes_from escape_rune (String json_BS "ufffd") 0 s ++ String json_DQ EmptyString).

(** ** A decoder for string literals *)

Definition hexval (c : ascii) : option nat :=
  if is_dec c then Some (bval c - 48)
  else if between 97 102 c then Some (bval c - 87)
  else if between 65 70 c then Some (bval c - 55)
  else None.

Definition hex4 (s : string) : option nat :=
  match s with
  | String a (String b (String c (String d _))) =>
      match hexval a, hexval b, hexval c, hexval d with
      | Some a, Some b, Some c, Some d => Some (((a * 16 + b) * 16 + c) * 16 + d)
      | _, _, _, _ => None
      end
  | _ => None
  end.

(** The UTF-8 of a code point of the basic plane. *)
Definition utf8_encode (n : nat) : string :=
  if n <? 128 then bytes [n]
  else if n <? 2048 then bytes [192 + n / 64; 128 + n mod 64]
  else bytes [224 + n / 4096; 128 + n / 64 mod 64; 128 + n mod 64].

Definition simple_escape (c : ascii) : option ascii :=
  if (c =c json_DQ) || (c =c json_BS) || (c =c "/") then Some c
  else if c =c "b" then Some (b 8) else if c =c "f" then Some (b 12)
  else if c =c "n" then Some (b 10) else if c =c "r" then Some (b 13)
  else if c =c "t" then Some (b 9) else None.

(** The contents of a literal up to its closing quote, decoded, and what
    follows it; [skip] steps over the digits of an escape. *)
Fixpoint unquote_body (skip : nat) (s : string) : option (string * string) :=
  match s with
  | EmptyString => None
  | String c s' =>
      match skip with
      | S k => unquote_body k s'
      | 0 =>
          if c =c json_DQ then Some (EmptyString, s')
          else if bval c <? 32 then None
          else if c =c json_BS then
            match s' with
            | EmptyString => None
            | String d s'' =>
                match simple_escape d with
                | Some x => match unquote_body 1 s' with Some (t, r) => Some (String x t, r) | None => None end
                | None =>
                    if d =c "u" then
                      match hex4 s'' with
                      | Some n => match unquote_body 5 s' with
                                  | Some (t, r) => Some ((utf8_encode n ++ t)%string, r)
                                  | None => None
                                  end
                      | None => None
                      end
                    else None
                end
            end
          else match unquote_body 0 s' with Some (t, r) => Some (String c t, r) | None => None end
      end
  end.

Definition unquote (s : string) : option (string * string) :=
  match s with
  | String c s => if c =c json_DQ then unquote_body 0 s else None
  | EmptyString => None
  end.

(** ** Lemmas *)

Lemma runes_skip f bad k s : runes_from f bad k s = runes_from f bad 0 (sdrop k s).
Proof. revert s; induction k as [|k IH]; intros [|c s]; try done. apply IH. Qed.

Lemma valid_skip k s : valid_from k s = valid_from 0 (sdrop k s).
Proof. revert s; induction k as [|k IH]; intros [|c s]; try done. apply IH. Qed.

Lemma unquote_skip k s : unquote_body k s = unquote_body 0 (sdrop k s).
Proof. revert s; induction k as [|k IH]; intros [|c s]; try done. apply IH. Qed.

(** Rune by rune. *)
Lemma runes_rune f bad s n :
  rune_size s = Some n -> runes_from f bad 0 s = (f (stake n s) ++ runes_from f bad 0 (sdrop n s))%string.
Proof.
  destruct s as [|c s]; [done|]. intros E. cbn [runes_from]. rewrite E.
  assert (1 <= n) by (unfold rune_size in E; repeat case_match; simplify_eq; lia).
  rewrite runes_skip. destruct n as [|n]; [lia|]. cbn [sdrop]. by rewrite Nat.sub_succ, Nat.sub_0_r.
Qed.

Lemma valid_rune s n : rune_size s = Some n -> valid_from 0 s = valid_from 0 (sdrop n s).
Proof.
  destruct s as [|c s]; [done|]. intros E. cbn [valid_from]. rewrite E.
  assert (1 <= n) by (unfold rune_size in E; repeat case_match; simplify_eq; lia).
  rewrite valid_skip. destruct n as [|n]; [lia|]. cbn [sdrop]. by rewrite Nat.sub_succ, Nat.sub_0_r.
Qed.

Definition high (c : ascii) : bool := 128 <=? bval c.
#[global] Arguments high : simpl never.

Lemma between_high lo hi c : 128 <= lo -> between lo hi c = true -> high c = true.
Proof. unfold between, high. intros H [H1 _]%andb_true_iff. apply Nat.leb_le in H1. apply Nat.leb_le. lia. Qed.

Lemma high_not_nul c : high c = true -> c <> byte0.
Proof. intros H ->. done. Qed.

(** A rune is one ASCII byte, or all its bytes are above. *)
Lemma rune_bytes s n :
  rune_size s = Some n ->
  (exists c s', s = String c s' /\ n = 1 /\ bval c < 128) \/
  (2 <= n /\ sall high (stake n s) = true /\ slen (stake n s) = n).
Proof.
  assert (Hs : forall t k, byte_at t k <> byte0 -> k < slen t).
  { intros t k H. destruct (Nat.lt_ge_cases k (slen t)) as [|Hge]; [done|]. by rewrite byte_at_ge in H. }
  assert (Hc : forall t k, k < slen t -> sdrop k t = String (byte_at t k) (sdrop (S k) t)).
  { intros t; induction t as [|d t IHt]; intros [|k] Hk; simpl in *; try lia; [done|].
    rewrite IHt by lia. done. }
  unfold rune_size. destruct s as [|c s]; [done|].
  destruct (Nat.ltb_spec (bval c) 128); [intros [= <-]; left; eauto|].
  intros E. right.
  assert (Hh : high c = true) by (apply Nat.leb_le; lia).
  assert (Hb : forall lo hi k, 128 <= lo -> between lo hi (byte_at s k) = true -> high (byte_at s k) = true /\ k < slen s).
  { intros lo hi k Hlo Hk. apply between_high in Hk; [|done]. split; [done|]. by apply Hs, high_not_nul. }
  pose proof (Hc s 0) as C0. pose proof (Hc s 1) as C1. pose proof (Hc s 2) as C2.
  change (sdrop 0 s) with s in C0.
  destruct (between 194 223 c).
  { destruct (is_cont _) eqn:E1; simplify_eq. apply Hb in E1 as [E1 L1]; [|lia].
    rewrite C0 by lia. cbn [stake sall String.length]. rewrite Hh, E1. destruct (sdrop 1 s); auto. }
  destruct (between 224 239 c).
  { destruct (between _ _ _ && is_cont _) eqn:E1; simplify_eq. apply andb_true_iff in E1 as [E1 E2].
    apply Hb in E1 as [E1 L1]; [|destruct (bval c =? 224); lia]. apply Hb in E2 as [E2 L2]; [|lia].
    rewrite C0, C1 by lia. cbn [stake sall String.length]. rewrite Hh, E1, E2. destruct (sdrop 2 s); auto. }
  destruct (between 240 244 c); [|done].
  destruct (_ && _ && _) eqn:E1; simplify_eq. apply andb_true_iff in E1 as [[E1 E2]%andb_true_iff E3].
  apply Hb in E1 as [E1 L1]; [|destruct (bval c =? 240); lia]. apply Hb in E2 as [E2 L2]; [|lia]. apply Hb in E3 as [E3 L3]; [|lia].
  rewrite C0, C1, C2 by lia. cbn [stake sall String.length]. rewrite Hh, E1, E2, E3. destruct (sdrop 3 s); auto.
Qed.

(** The decoded contents with [r] in front. *)
Definition prepend (r : string) (o : option (string * string)) : option (string * string) :=
  match o with Some (t, u) => Some ((r ++ t)%string, u) | None => None end.

Lemma unquote_high r t : sall high r = true -> unquote_body 0 (r ++ t) = prepend r (unquote_body 0 t).
Proof.
  induction r as [|c r IH]; intros H.
  { change (EmptyString ++ t)%string with t. by destruct (unquote_body 0 t) as [[? ?]|]. }
  cbn in H. apply andb_true_iff in H as [Hc Hr]. cbn [String.append unquote_body].
  unfold high in Hc. apply Nat.leb_le in Hc.
  destruct (Ascii.eqb_spec c json_DQ) as [->|_]; [vm_compute in Hc; lia|].
  destruct (Nat.ltb_spec (bval c) 32); [lia|].
  destruct (Ascii.eqb_spec c json_BS) as [->|_]; [vm_compute in Hc; lia|].
  rewrite IH by done. by destruct (unquote_body 0 t) as [[? ?]|].
Qed.

Lemma unquote_plain c t :
  c <> json_DQ -> c <> json_BS -> 32 <= bval c ->
  unquote_body 0 (String c t) = prepend (String c EmptyString) (unquote_body 0 t).
Proof.
  intros H1 H2 H3. cbn [unquote_body].
  apply Ascii.eqb_neq in H1 as ->. apply Ascii.eqb_neq in H2 as ->. apply Nat.ltb_ge in H3 as ->.
  by destruct (unquote_body 0 t) as [[? ?]|].
Qed.

Lemma unquote_esc d t :
  unquote_body 0 (String json_BS (String d t)) =
  match simple_escape d with
  | Some x => prepend (String x EmptyString) (unquote_body 0 t)
  | None => if d =c "u" then
              match hex4 t with Some n => prepend (utf8_encode n) (unquote_body 0 (sdrop 4 t)) | None => None end
            else None
  end.
Proof.
  cbn [unquote_body]. change (json_BS =c json_DQ) with false. change (json_BS =c json_BS) with true.
  change (bval json_BS <? 32) with false. cbv iota. rewrite (unquote_skip 4).
  destruct (simple_escape d); [by destruct (unquote_body 0 t) as [[? ?]|]|].
  destruct (d =c "u"); [|done]. destruct (hex4 t); [|done].
  by destruct (unquote_body 0 (sdrop 4 t)) as [[? ?]|].
Qed.

Lemma unquote_simple d x t :
  simple_escape d = Some x ->
  unquote_body 0 (String json_BS (String d t)) = prepend (String x EmptyString) (unquote_body 0 t).
Proof. intros H. by rewrite unquote_esc, H. Qed.

Lemma unquote_hex h1 h2 h3 h4 n t :
  hex4 (String h1 (String h2 (String h3 (String h4 EmptyString)))) = Some n ->
  unquote_body 0 (String json_BS (String "u" (String h1 (String h2 (String h3 (String h4 t)))))) =
  prepend (utf8_encode n) (unquote_body 0 t).
Proof.
  intros H. rewrite unquote_esc. change (simple_escape "u") with (@None ascii). cbv iota.
  change ("u" =c "u") with true. cbv iota.
  change (hex4 (String h1 (String h2 (String h3 (String h4 t))))) with
    (hex4 (String h1 (String h2 (String h3 (String h4 EmptyString))))).
  by rewrite H.
Qed.

Lemma hex4_byte c :
  hex4 (String "0" (String "0" (String (hex (bval c / 16)) (String (hex (bval c mod 16)) EmptyString)))) =
  Some (bval c).
Proof. destruct c as [[] [] [] [] [] [] [] []]; vm_compute; reflexivity. Qed.

Lemma unquote_escape1 c t :
  bval c < 128 -> unquote_body 0 (escape1 c ++ t) = prepend (String c EmptyString) (unquote_body 0 t).
Proof.
  intros H. unfold escape1.
  assert (Hb : forall k, bval c = k -> c = b k) by (intros k <-; symmetry; apply ascii_nat_embedding).
  destruct (html_safe c) eqn:Es.
  { unfold html_safe, between in Es. bool_to_prop. by apply unquote_plain. }
  destruct ((c =c json_BS) || (c =c json_DQ)) eqn:Eq.
  { apply unquote_simple. unfold simple_escape. apply orb_true_iff in Eq as [E|E]; rewrite E; [by rewrite orb_true_r|done]. }
  destruct (bval c =? 8) eqn:E8; [bool_to_prop; rewrite (Hb 8) by done; by apply unquote_simple|].
  destruct (bval c =? 12) eqn:E12; [bool_to_prop; rewrite (Hb 12) by done; by apply unquote_simple|].
  destruct (bval c =? 10) eqn:E10; [bool_to_prop; rewrite (Hb 10) by done; by apply unquote_simple|].
  destruct (bval c =? 13) eqn:E13; [bool_to_prop; rewrite (Hb 13) by done; by apply unquote_simple|].
  destruct (bval c =? 9) eqn:E9; [bool_to_prop; rewrite (Hb 9) by done; by apply unquote_simple|].
  cbn [String.append]. rewrite (unquote_hex _ _ _ _ _ _ (hex4_byte c)).
  unfold utf8_encode. apply Nat.ltb_lt in H as ->. cbn [bytes foldr]. unfold b.
  by rewrite ascii_nat_embedding.
Qed.

Lemma unquote_rune s n t :
  rune_size s = Some n ->
  unquote_body 0 (escape_rune (stake n s) ++ t) = prepend (stake n s) (unquote_body 0 t).
Proof.
  intros E. destruct (rune_bytes s n E) as [(c & s' & -> & -> & Hc)|(Hn & Hh & Hl)].
  - cbn [stake escape_rune]. by apply unquote_escape1.
  - unfold escape_rune. destruct (stake n s) as [|c [|d r]]; [cbn in Hl; lia..|].
    destruct (String.eqb_spec (String c (String d r)) (bytes [226; 128; 168])) as [->|_];
      [exact (unquote_hex "2" "0" "2" "8" _ t eq_refl)|].
    destruct (String.eqb_spec (String c (String d r)) (bytes [226; 128; 169])) as [->|_];
      [exact (unquote_hex "2" "0" "2" "9" _ t eq_refl)|].
    by apply unquote_high.
Qed.

Lemma unquote_bad t :
  unquote_body 0 ((String json_BS "ufffd") ++ t) = prepend (bytes [239; 191; 189]) (unquote_body 0 t).
Proof. exact (unquote_hex "f" "f" "f" "d" _ t eq_refl). Qed.

(** [s] with every byte that starts no rune replaced by U+FFFD, as
    [strings.ToValidUTF8] has it one byte at a time. *)
Definition coerce_utf8 (s : string) : string := runes_from id (bytes [239; 191; 189]) 0 s.

(** Decoding a marshalled string, whatever follows it. *)
Lemma marshal_unquote s t : unquote (json_marshal_string s ++ t) = Some (coerce_utf8 s, t).
Proof.
  unfold unquote, json_marshal_string, coerce_utf8. cbn [String.append].
  change (json_DQ =c json_DQ) with true. cbv iota. rewrite <- sapp_assoc. cbn [String.append].
  remember (slen s) as k eqn:Hk. revert s Hk.
  induction k as [k IH] using lt_wf_ind. intros s ->.
  destruct s as [|c s]; [done|].
  destruct (rune_size (String c s)) as [n|] eqn:E.
  - assert (1 <= n) by (destruct (rune_bytes _ _ E) as [(? & ? & _ & -> & _)|(? & _)]; lia).
    rewrite !(runes_rune _ _ _ n E), <- sapp_assoc, (unquote_rune _ n _ E).
    by rewrite (IH (slen (sdrop n (String c s)))) by (auto; rewrite slen_sdrop; cbn; lia).
  - cbn [runes_from]. rewrite E, <- sapp_assoc, unquote_bad.
    by rewrite (IH (slen s)) by (cbn; auto).
Qed.

Lemma coerce_valid s : utf8_valid s = true -> coerce_utf8 s = s.
Proof.
  unfold utf8_valid, coerce_utf8. remember (slen s) as k eqn:Hk. revert s Hk.
  induction k as [k IH] using lt_wf_ind. intros s -> Hv. destruct s as [|c s]; [done|].
  destruct (rune_size (String c s)) as [n|] eqn:E; [|cbn [valid_from] in Hv; by rewrite E in Hv].
  rewrite (runes_rune _ _ _ n E). rewrite (valid_rune _ n E) in Hv.
  assert (1 <= n) by (destruct (rune_bytes _ _ E) as [(? & ? & _ & -> & _)|(? & _)]; lia).
  rewrite (IH (slen (sdrop n (String c s)))) by (auto; rewrite slen_sdrop; cbn; lia).
  apply stake_sdrop.
Qed.

(** ASCII is valid UTF-8. *)
Lemma ascii_valid s : sall (fun c => bval c <? 128) s = true -> utf8_valid s = true.
Proof.
  unfold utf8_valid. induction s as [|c s IH]; intros H; [done|]. cbn [sall] in H. bool_to_prop.
  rewrite (valid_rune _ 1); [by apply IH|]. cbn [rune_size]. by apply Nat.ltb_lt in H as ->.
Qed.
