(* ===== verification/Token.v ===== *)
(** * Tokens (chassis/txcl/token/token.go)

    Go's [TokenType] is a string; the constants become constructors.  [NOTYPE]
    is the zero [TokenType] [""], which the lexer returns for a [.] that starts
    no branch.  [NEGATIVE] and [MINUS] are the same string [-] and share a
    constructor. *)

From Stdlib Require Import Ascii String Bool.
From stdpp Require Import base tactics list strings.
From S2P Require Import Prelude GoStrings.

Inductive TokenType :=
| NOTYPE | ILLEGAL | EOF
| IDENT | INT | STRING | NULL
| ASSIGN | PLUS | MINUS | BANG | ASTERISK | SLASH | CONCAT | MATCH | NO_MATCH | LAND | LOR
| FLOAT
| LT | LT_EQ | GT | GT_EQ | EQ | NOT_EQ
| COMMA | SEMICOLON | COLON
| LPAREN | RPAREN | LBRACE | RBRACE | LBRACKET | RBRACKET
| FUNCTION | LET | SET | TRUE | FALSE | IF | ELSE | RETURN | WHEN | SELECT | AS | DEFAULT
| WITH | PRIORITY | EXEC | EMIT | LOOP | UNTIL
| BRANCH | STAR | REGEX | AMP_IDENT.

#[export] Instance TokenType_eq_dec : EqDecision TokenType.
Proof. solve_decision. Defined.

Definition tt_eqb (a b : TokenType) : bool := bool_decide (a = b).

Record Token := mkToken { Type_ : TokenType; Literal_ : string }.

#[export] Instance Token_eq_dec : EqDecision Token.
Proof. solve_decision. Defined.

(** The zero [Token{}]. *)
Definition zeroToken : Token := mkToken NOTYPE "".

Definition keywords : list (string * TokenType) :=
  [("fn", FUNCTION); ("let", LET); ("true", TRUE); ("false", FALSE); ("if", IF);
   ("else", ELSE); ("return", RETURN); ("RETURN", RETURN); ("select", SELECT);
   ("SELECT", SELECT); ("as", AS); ("AS", AS); ("default", DEFAULT); ("DEFAULT", DEFAULT);
   ("with", WITH); ("WITH", WITH); ("when", WHEN); ("WHEN", WHEN);
   ("priority", PRIORITY); ("PRIORITY", PRIORITY); ("exec", EXEC); ("EXEC", EXEC);
   ("emit", EMIT); ("EMIT", EMIT); ("loop", LOOP); ("LOOP", LOOP);
   ("until", UNTIL); ("UNTIL", UNTIL); ("set", SET); ("SET", SET);
   ("null", NULL); ("NULL", NULL)].

Definition LookupIdent (ident : string) : TokenType :=
  match List.find (fun kv => String.eqb kv.1 ident) keywords with
  | Some kv => kv.2
  | None => IDENT
  end.

Lemma LookupIdent_not_EOF s : LookupIdent s <> EOF /\ LookupIdent s <> NOTYPE.
Proof.
  unfold LookupIdent. destruct (List.find _ _) as [[k t]|] eqn:E; [|done].
  apply List.find_some in E as [E _]. simpl in *.
  repeat (destruct E as [E|E]; [by simplify_eq|]). done.
Qed.
