(* ===== verification/Lexer.v ===== *)
(** * The txcl lexer (chassis/txcl/lexer/lexer.go)

    [Lexer] keeps the Go struct's fields; every method is a function on it.
    The scanning loops run under [while] with the bytes left as the bound,
    which [scan_exit] shows is enough for each of them. *)

From Stdlib Require Import Ascii String ZArith Lia Bool.
From stdpp Require Import base tactics list strings.
From S2P Require Import Prelude GoStrings GoStrconv Token.

(** ** State *)

Inductive LexError := UnterminatedString | UnterminatedRegex.

Record Lexer := mkLexer {
  input : string;
  position : nat;
  readPosition : nat;
  ch : ascii;
  LastToken : Token;
  start : nat;
  errs : list LexError }.

Definition set_start (l : Lexer) (n : nat) : Lexer :=
  mkLexer (input l) (position l) (readPosition l) (ch l) (LastToken l) n (errs l).
Definition set_last (l : Lexer) (t : Token) : Lexer :=
  mkLexer (input l) (position l) (readPosition l) (ch l) t (start l) (errs l).
Definition add_err (l : Lexer) (e : LexError) : Lexer :=
  mkLexer (input l) (position l) (readPosition l) (ch l) (LastToken l) (start l) (errs l ++ [e]).

(** ** Byte classes *)

Definition isLetter (c : ascii) : bool := is_lower c || is_upper c || (c =c "_").
Definition isDigit (c : ascii) : bool := is_dec c || (c =c ".") || (c =c "-").
Definition isBranchChar (c : ascii) : bool :=
  isLetter c || is_dec c || (c =c ".") || (c =c "-").
Definition isBinding (t : TokenType) : bool := tt_eqb t MATCH || tt_eqb t NO_MATCH.

Definition str1 (c : ascii) : string := String c EmptyString.
(** Go's [string(c)] of a byte is the UTF-8 of the code point [c]: two bytes
    from 0x80 on. *)
Definition string_of_byte (c : ascii) : string :=
  if bval c <? 128 then str1 c
  else String (b (192 + bval c / 64)) (str1 (b (128 + bval c mod 64))).
Definition newToken (t : TokenType) (c : ascii) : Token := mkToken t (string_of_byte c).
Definition LF : ascii := b 10.
Definition CR : ascii := b 13.
Definition TAB : ascii := b 9.
Definition DQ : ascii := b 34.
Definition BSL : ascii := b 92.

(** [s] between double quotes. *)
Definition quoted (s : string) : string := String DQ (s ++ String DQ EmptyString)%string.

(** ** Reading bytes *)

Definition readChar (l : Lexer) : Lexer :=
  mkLexer (input l) (readPosition l) (S (readPosition l))
    (if slen (input l) <=? readPosition l then byte0 else byte_at (input l) (readPosition l))
    (LastToken l) (start l) (errs l).

Definition peekChar (l : Lexer) : ascii :=
  if slen (input l) <=? readPosition l then byte0 else byte_at (input l) (readPosition l).

(** The bytes not yet stepped over; the measure of every loop. *)
Definition bytes_left (l : Lexer) : nat := slen (input l) - position l.

(** [for cond(l) { l = body(l) }], bounded by the bytes left. *)
Definition scan (cond : Lexer -> bool) (body : Lexer -> Lexer) (l : Lexer) : Lexer :=
  while (S (bytes_left l)) cond body l.

Definition NewLexer (input : string) : Lexer :=
  readChar (mkLexer input 0 0 byte0 zeroToken 0 []).

Definition isSpace (c : ascii) : bool :=
  (c =c " ") || (c =c TAB) || (c =c LF) || (c =c CR).

Definition skipWhitespace (l : Lexer) : Lexer := scan (fun l => isSpace (ch l)) readChar l.

Definition skipComment (l : Lexer) : Lexer :=
  skipWhitespace (scan (fun l => negb (ch l =c LF) && negb (ch l =c byte0)) readChar l).

(** [NextToken]'s recursion past comments: whitespace, then as long as a
    comment starts here, the comment and the whitespace after it. *)
Definition skipTrivia (l : Lexer) : Lexer :=
  scan (fun l => ch l =c "#") (fun l => skipWhitespace (skipComment l)) (skipWhitespace l).

(** [l.input[position:l.position]] *)
Definition text_from (l : Lexer) (pos : nat) : string := sslice (input l) pos (position l).

Definition readIdentifier (l : Lexer) : string * Lexer :=
  let l' := scan (fun l => isLetter (ch l) || is_dec (ch l)) readChar l in
  (text_from l' (position l), l').

Definition readNumber (l : Lexer) : string * Lexer :=
  let l' := scan (fun l => isDigit (ch l)) readChar l in
  (text_from l' (position l), l').

(** ** Branch paths

    A [strings.Builder] is the string written so far. *)

Definition wr (bl : string * Lexer) (c : ascii) : string * Lexer :=
  ((bl.1 ++ str1 c)%string, bl.2).
Definition rd (bl : string * Lexer) : string * Lexer := (bl.1, readChar bl.2).

Definition scanB (cond : Lexer -> bool) (body : string * Lexer -> string * Lexer)
    (bl : string * Lexer) : string * Lexer :=
  while (S (S (bytes_left bl.2))) (fun bl => cond bl.2) body bl.

Definition is_seg_meta (c : ascii) : bool :=
  (c =c BSL) || (c =c ".") || (c =c "*") || (c =c "?").

(** The body of [appendQuotedSegment]'s loop, after its [readChar]. *)
Definition seg_byte (bl : string * Lexer) : string * Lexer :=
  let c := ch bl.2 in
  if is_seg_meta c then wr (wr bl BSL) c else wr bl c.

(** [appendQuotedSegment]: [for { readChar; if ch is 0 or a quote, break; write }]. *)
Definition appendQuotedSegment (bl : string * Lexer) : string * Lexer :=
  scanB (fun l => negb ((ch l =c byte0) || (ch l =c DQ)))
        (fun bl => rd (seg_byte bl)) (rd bl).

(** One turn of [scanBranchRun]'s loop, when the next byte continues the run. *)
Definition run_step (bl : string * Lexer) : string * Lexer :=
  if peekChar bl.2 =c DQ then appendQuotedSegment (rd bl)
  else let bl := rd bl in wr bl (ch bl.2).

Definition scanBranchRun (bl : string * Lexer) : string * Lexer :=
  scanB (fun l => (peekChar l =c DQ) || isBranchChar (peekChar l))
        run_step (wr bl (ch bl.2)).

Definition readBranchString (l : Lexer) : string * Lexer :=
  scanBranchRun (rd (wr ("", l) (ch l))).

Definition readAtBranchString (l : Lexer) : string * Lexer :=
  scanBranchRun (rd ("._txc.", l)).

(** ** Regex literals *)

(** [for l.ch == '\\' && l.peekChar() == '/' { readChar; readChar }] *)
Definition skipEscapedSlashes (l : Lexer) : Lexer :=
  scan (fun l => (ch l =c BSL) && (peekChar l =c "/")) (fun l => readChar (readChar l)) l.

(** The outer loop: [for l.ch != 0 { readChar; skip escapes; if '/' break }].
    The break is the loop condition of every turn but the first. *)
Definition readRegex (l : Lexer) : string * Lexer :=
  let pos := S (position l) in
  let turn l := skipEscapedSlashes (readChar l) in
  let l1 := if ch l =c byte0 then l else turn l in
  let l2 := if ch l =c byte0 then l
            else scan (fun l => negb (ch l =c "/") && negb (ch l =c byte0)) turn l1 in
  let l3 := if ch l2 =c "/" then l2 else add_err l2 UnterminatedRegex in
  (ReplaceAll (text_from l3 pos) "\/" "/", l3).

(** ** String literals *)

(** What one turn of [readString]'s loop does with the byte at hand. *)
Inductive StrStep :=
| StrStop (done : string * Lexer)    (** [break] or [return] *)
| StrMore (more : string * Lexer).

Definition str_turn (bl : string * Lexer) : StrStep :=
  let bl := rd bl in
  let c := ch bl.2 in
  if c =c byte0 then StrStop (bl.1, add_err bl.2 UnterminatedString)
  else if c =c DQ then StrStop bl
  else if c =c BSL then
    let bl := rd bl in
    let c := ch bl.2 in
    if c =c DQ then StrMore (wr bl DQ)
    else if c =c BSL then StrMore (wr bl BSL)
    else if c =c "n" then StrMore (wr bl LF)
    else if c =c "r" then StrMore (wr bl CR)
    else if c =c "t" then StrMore (wr bl TAB)
    else if c =c byte0 then StrStop bl
    else StrMore (wr (wr bl BSL) c)
  else StrMore (wr bl c).

Fixpoint str_loop (n : nat) (bl : string * Lexer) : string * Lexer :=
  match n with
  | 0 => bl
  | S n => match str_turn bl with StrStop r => r | StrMore bl => str_loop n bl end
  end.

Definition readString (l : Lexer) : string * Lexer := str_loop (S (S (bytes_left l))) ("", l).

(** ** NextToken *)

(** The tail of the switch: step off the token's last byte, remember it. *)
Definition finish (tl : Token * Lexer) : Token * Lexer := (tl.1, set_last (readChar tl.2) tl.1).
(** The early returns: the token's reader already stepped past it. *)
Definition finish_early (tl : Token * Lexer) : Token * Lexer := (tl.1, set_last tl.2 tl.1).

Definition tok1 (t : TokenType) (l : Lexer) : Token * Lexer := finish (newToken t (ch l), l).

(** A two-byte operator: [literal := string(ch) + string(l.ch)]. *)
Definition tok2 (t : TokenType) (l : Lexer) : Token * Lexer :=
  let l' := readChar l in
  finish (mkToken t (string_of_byte (ch l) ++ string_of_byte (ch l'))%string, l').

Definition numberToken (l : Lexer) : Token * Lexer :=
  let '(lit, l) := readNumber l in
  finish_early (mkToken (if Contains lit "." then FLOAT else INT) lit, l).

(** The default case: identifiers, [b64"..."] strings, numbers, else illegal. *)
Definition defaultToken (l : Lexer) : Token * Lexer :=
  if isLetter (ch l) then
    let '(lit, l) := readIdentifier l in
    if (lit =s "b64") && (ch l =c DQ) then
      let '(raw, l) := readString l in
      finish_early (mkToken STRING (b64_encode raw), readChar l)
    else finish_early (mkToken (LookupIdent lit) lit, l)
  else if isDigit (ch l) then numberToken l
  else tok1 ILLEGAL l.

(** The switch on [l.ch] once whitespace and comments are behind. *)
Definition scanToken (l : Lexer) : Token * Lexer :=
  let l := set_start l (min (position l) (slen (input l))) in
  let c := ch l in
  let p := peekChar l in
  if c =c "=" then
    if p =c "=" then tok2 EQ l else if p =c "~" then tok2 MATCH l else tok1 ASSIGN l
  else if c =c "+" then tok1 PLUS l
  else if c =c "-" then
    if negb (isDigit p) then tok1 MINUS l else numberToken l
  else if c =c "!" then
    if p =c "=" then tok2 NOT_EQ l else if p =c "~" then tok2 NO_MATCH l else tok1 BANG l
  else if c =c "/" then
    if isBinding (Type_ (LastToken l))
    then let '(lit, l) := readRegex l in finish (mkToken REGEX lit, l)
    else tok1 SLASH l
  else if c =c "*" then
    if tt_eqb (Type_ (LastToken l)) WHEN then tok1 STAR l else tok1 ASTERISK l
  else if c =c "<" then if p =c "=" then tok2 LT_EQ l else tok1 LT l
  else if c =c ">" then if p =c "=" then tok2 GT_EQ l else tok1 GT l
  else if c =c ";" then tok1 SEMICOLON l
  else if c =c ":" then tok1 COLON l
  else if c =c "," then tok1 COMMA l
  else if c =c "." then
    if isLetter p then let '(lit, l) := readBranchString l in finish (mkToken BRANCH lit, l)
    else finish (zeroToken, l)
  else if c =c "@" then
    if isLetter p then let '(lit, l) := readAtBranchString l in finish (mkToken BRANCH lit, l)
    else tok1 ILLEGAL l
  else if c =c "{" then tok1 LBRACE l
  else if c =c "}" then tok1 RBRACE l
  else if c =c "(" then tok1 LPAREN l
  else if c =c ")" then tok1 RPAREN l
  else if c =c DQ then let '(lit, l) := readString l in finish (mkToken STRING lit, l)
  else if c =c "[" then tok1 LBRACKET l
  else if c =c "]" then tok1 RBRACKET l
  else if c =c "&" then
    if p =c "&" then tok2 LAND l
    else if isLetter p then
      let '(lit, l) := readIdentifier (readChar l) in finish_early (mkToken AMP_IDENT lit, l)
    else tok1 ILLEGAL l
  else if c =c "|" then if p =c "|" then tok2 LOR l else tok1 ILLEGAL l
  else if c =c byte0 then finish (mkToken EOF "", l)
  else defaultToken l.

Definition NextToken (l : Lexer) : Token * Lexer := scanToken (skipTrivia l).

(** [Span]: the byte offsets of the token last returned. *)
Definition Span (l : Lexer) : nat * nat := (start l, min (position l) (slen (input l))).

(** All tokens up to and including the first EOF; [None] when [fuel] is short. *)
Fixpoint tokens (fuel : nat) (l : Lexer) : option (list Token) :=
  match fuel with
  | 0 => None
  | S fuel =>
      let '(t, l) := NextToken l in
      if tt_eqb (Type_ t) EOF then Some [t]
      else match tokens fuel l with Some ts => Some (t :: ts) | None => None end
  end.

Definition tokenize (s : string) : option (list Token) := tokens (slen s + 2) (NewLexer s).
