(* ===== verification/LexerFacts.v ===== *)
(** * The lexer's invariants and functional behaviour

    A well-formed lexer is determined by the bytes it has not read: [rest].
    Every scan is described on [rest], which gives progress (each token
    consumes input until the end is reached), the bounds of the slices and
    spans, and the round trips of string literals and branch paths. *)

From Stdlib Require Import Ascii String ZArith Lia Bool.
From stdpp Require Import base tactics list strings.
From S2P Require Import Prelude GoStrings GoStrconv Token Lexer.

(** ** Well-formedness *)

Definition wf (l : Lexer) : Prop :=
  readPosition l = S (position l) /\ ch l = byte_at (input l) (position l).

(** The bytes from the current one on. *)
Definition rest (l : Lexer) : string := sdrop (position l) (input l).

(** [l'] reads the same input as [l], at [n] bytes further. *)
Definition ahead (n : nat) (l l' : Lexer) : Prop :=
  wf l' /\ input l' = input l /\ position l' = position l + n /\ start l' = start l.

Lemma ch_rest l : wf l -> ch l = byte_at (rest l) 0.
Proof. intros [_ H]. by rewrite H, byte_at_sdrop. Qed.

Lemma rest_nil_iff l : rest l = EmptyString <-> bytes_left l = 0.
Proof. unfold rest, bytes_left. rewrite sdrop_nil_iff. lia. Qed.

Lemma bytes_left_rest l : bytes_left l = slen (rest l).
Proof. unfold rest, bytes_left. by rewrite slen_sdrop. Qed.

Lemma ch_nonzero_left l : wf l -> ch l <> byte0 -> 0 < bytes_left l.
Proof.
  intros Hw Hc. rewrite bytes_left_rest. destruct (rest l) eqn:E; simpl; [|lia].
  by rewrite ch_rest, E in Hc.
Qed.

Lemma readChar_wf l : wf l -> wf (readChar l).
Proof.
  intros [Hr Hc]. split; simpl; [done|].
  case_bool; [|done]. bool_to_prop. by rewrite byte_at_ge.
Qed.

Lemma readChar_ahead l : wf l -> ahead 1 l (readChar l).
Proof. intros Hw. split; [by apply readChar_wf|]. destruct Hw. simpl. auto with lia. Qed.

Lemma ahead_refl l : wf l -> ahead 0 l l.
Proof. intros. split; [done|]. auto with lia. Qed.

Lemma ahead_trans n m l l' l'' : ahead n l l' -> ahead m l' l'' -> ahead (n + m) l l''.
Proof.
  intros (?&?&?&?) (?&?&?&?). split; [done|]. split; [congruence|]. split; [lia|congruence].
Qed.

Lemma ahead_wf n l l' : ahead n l l' -> wf l'.
Proof. by intros (?&?&?&?). Qed.

Lemma ahead_rest n l l' : ahead n l l' -> rest l' = sdrop n (rest l).
Proof. intros (_ & Hi & Hp & _). unfold rest. rewrite Hi, Hp. by rewrite sdrop_sdrop. Qed.

Lemma ahead_left n l l' : ahead n l l' -> bytes_left l' = bytes_left l - n.
Proof. intros H. rewrite !bytes_left_rest, (ahead_rest _ _ _ H). apply slen_sdrop. Qed.

Lemma peekChar_rest l : wf l -> peekChar l = byte_at (rest l) 1.
Proof.
  intros [Hr _]. unfold peekChar, rest. rewrite Hr.
  rewrite (byte_at_sdrop _ 1), sdrop_sdrop, <- byte_at_sdrop.
  replace (position l + 1) with (S (position l)) by lia.
  case_bool; [|done]. bool_to_prop. by rewrite byte_at_ge.
Qed.

Lemma set_start_wf l n : wf l -> wf (set_start l n).
Proof. done. Qed.
Lemma set_last_ahead n l l' t : ahead n l l' -> ahead n l (set_last l' t).
Proof. intros ([??]&?&?&?). repeat split; simpl; auto. Qed.
Lemma add_err_ahead n l l' e : ahead n l l' -> ahead n l (add_err l' e).
Proof. intros ([??]&?&?&?). repeat split; simpl; auto. Qed.

Lemma NewLexer_wf s : wf (NewLexer s).
Proof. unfold NewLexer, readChar, wf. simpl. destruct s; simpl; auto. Qed.
Lemma NewLexer_rest s : rest (NewLexer s) = s.
Proof. by destruct s. Qed.

#[export] Hint Resolve readChar_wf readChar_ahead ahead_refl ahead_wf NewLexer_wf
  set_start_wf set_last_ahead add_err_ahead : txco.

(** ** Scans *)

(** Going ahead by some number of bytes; how a loop body or a reader moves. *)
Definition moves (l l' : Lexer) : Prop := exists n, ahead n l l'.
(** Moving by at least one byte of the input, if there is one left. *)
Definition progress (l l' : Lexer) : Prop := exists n, ahead n l l' /\ (1 <= n).

Lemma moves_refl l : wf l -> moves l l.
Proof. exists 0. auto with txco. Qed.
Lemma moves_trans l l' l'' : moves l l' -> moves l' l'' -> moves l l''.
Proof. intros [n H] [m H']. exists (n + m). eauto using ahead_trans. Qed.
Lemma progress_moves l l' : progress l l' -> moves l l'.
Proof. intros [n [H _]]. by exists n. Qed.
Lemma progress_moves_trans l l' l'' : progress l l' -> moves l' l'' -> progress l l''.
Proof. intros [n [H ?]] [m H']. exists (n + m). split; [eauto using ahead_trans|lia]. Qed.
Lemma moves_progress_trans l l' l'' : moves l l' -> progress l' l'' -> progress l l''.
Proof. intros [n H] [m [H' ?]]. exists (n + m). split; [eauto using ahead_trans|lia]. Qed.
Lemma moves_wf l l' : moves l l' -> wf l'.
Proof. intros [n H]. eauto with txco. Qed.
Lemma moves_left l l' : moves l l' -> bytes_left l' <= bytes_left l.
Proof. intros [n H]. rewrite (ahead_left _ _ _ H). lia. Qed.
Lemma progress_left l l' : progress l l' -> 0 < bytes_left l -> bytes_left l' < bytes_left l.
Proof. intros [n [H ?]] ?. rewrite (ahead_left _ _ _ H). lia. Qed.
Lemma progress_readChar l : wf l -> progress l (readChar l).
Proof. intros H. exists 1. auto with txco. Qed.

#[export] Hint Resolve moves_refl progress_moves moves_wf progress_readChar : txco.

Section Scan.
Context (cond : Lexer -> bool) (body : Lexer -> Lexer).
Hypothesis cond_left : forall l, wf l -> cond l = true -> 0 < bytes_left l.
Hypothesis body_progress : forall l, wf l -> cond l = true -> progress l (body l).

Lemma scan_body_dec l : wf l -> cond l = true -> bytes_left (body l) < bytes_left l.
Proof. intros Hw Hc. apply progress_left; auto. Qed.

Lemma scan_moves l : wf l -> moves l (scan cond body l).
Proof.
  intros Hw. unfold scan.
  apply (while_inv cond body (fun l' => moves l l')); [|auto with txco].
  intros s Hs Hc. eapply moves_trans; [done|].
  apply progress_moves, body_progress; eauto with txco.
Qed.

(** The fuel of [scan] is enough: it ends because the condition fails. *)
Lemma scan_exit l : wf l -> cond (scan cond body l) = false.
Proof.
  intros Hw. unfold scan.
  apply (while_exit cond body bytes_left wf); auto.
  - intros s Hs Hc. destruct (body_progress s Hs Hc) as (n & H & _). eauto with txco.
  - apply scan_body_dec.
Qed.

Lemma scan_unfold l :
  wf l -> scan cond body l = if cond l then scan cond body (body l) else l.
Proof.
  intros Hw. unfold scan.
  assert (Hb : forall s, wf s -> cond s = true -> wf (body s)).
  { intros s Hs Hc. destruct (body_progress s Hs Hc) as (n & H & _). eauto with txco. }
  rewrite (while_unfold cond body bytes_left wf Hb scan_body_dec); auto with lia.
  destruct (cond l) eqn:E; [|done].
  pose proof (scan_body_dec l Hw E).
  apply (while_more cond body bytes_left wf Hb scan_body_dec); auto with lia.
Qed.
End Scan.

Lemma byte_cond_left (p : ascii -> bool) l :
  p byte0 = false -> wf l -> p (ch l) = true -> 0 < bytes_left l.
Proof. intros Hp Hw Hc. apply ch_nonzero_left; [done|]. intros E. congruence. Qed.

(** The bytes at the head of [s] that satisfy [p], and the rest. *)
Fixpoint span_while (p : ascii -> bool) (s : string) : string * string :=
  match s with
  | EmptyString => (EmptyString, EmptyString)
  | String c s' => if p c then (String c (span_while p s').1, (span_while p s').2)
                   else (EmptyString, s)
  end.

Lemma span_while_app p s : s = ((span_while p s).1 ++ (span_while p s).2)%string.
Proof. induction s as [|c s IH]; simpl; [done|]. destruct (p c); simpl; congruence. Qed.

Lemma span_while_all p s : sall p (span_while p s).1 = true.
Proof. induction s as [|c s IH]; simpl; [done|]. destruct (p c) eqn:E; simpl; [by rewrite E|done]. Qed.

Lemma span_while_prefix p s t :
  sall p s = true -> match t with EmptyString => true | String c _ => negb (p c) end = true ->
  span_while p (s ++ t) = (s, t).
Proof.
  induction s as [|c s IH]; simpl; intros Hs Ht.
  - destruct t as [|d t]; [done|]. simpl. bool_to_prop. by rewrite Ht.
  - bool_to_prop. rewrite H. rewrite IH; auto.
Qed.

Lemma scan_bytes_unfold p l :
  p byte0 = false -> wf l ->
  scan (fun l => p (ch l)) readChar l =
  if p (ch l) then scan (fun l => p (ch l)) readChar (readChar l) else l.
Proof.
  intros Hp Hw. apply (scan_unfold (fun l => p (ch l)) readChar); [| |done].
  - intros l' Hw' Hc. by apply (byte_cond_left p).
  - intros l' Hw' _. by apply progress_readChar.
Qed.

(** A byte scan stops exactly after the run of bytes satisfying [p]. *)
Lemma scan_bytes p l :
  p byte0 = false -> wf l ->
  ahead (slen (span_while p (rest l)).1) l (scan (fun l => p (ch l)) readChar l).
Proof.
  intros Hp. remember (bytes_left l) as n eqn:Hn. revert l Hn.
  induction n as [n IH] using lt_wf_ind; intros l -> Hw.
  rewrite (scan_bytes_unfold p l Hp Hw).
  rewrite (ch_rest l Hw). destruct (rest l) as [|c s] eqn:Er; simpl.
  - rewrite Hp. auto with txco.
  - destruct (p c) eqn:Ep; simpl; [|auto with txco].
    assert (Ha := readChar_ahead l Hw).
    assert (Hr : rest (readChar l) = s) by (by rewrite (ahead_rest _ _ _ Ha), Er).
    assert (Hl : bytes_left (readChar l) < bytes_left l).
    { rewrite !bytes_left_rest, Hr, Er. simpl. lia. }
    specialize (IH _ Hl (readChar l) eq_refl (readChar_wf _ Hw)). rewrite Hr in IH.
    exact (ahead_trans _ _ _ _ _ Ha IH).
Qed.

(** [text_from] of a reader that went [n] bytes ahead is those [n] bytes. *)
Lemma text_from_ahead n l l' :
  ahead n l l' -> text_from l' (position l) = stake n (rest l).
Proof.
  intros (_ & Hi & Hp & _). unfold text_from, sslice, rest. rewrite Hi, Hp.
  f_equal. lia.
Qed.

(** The bytes between two points of the input, from what is left at each. *)
Lemma text_between n l l' :
  ahead n l l' -> text_from l' (position l) = stake (slen (rest l) - slen (rest l')) (rest l).
Proof.
  intros H. rewrite (text_from_ahead _ _ _ H), (ahead_rest _ _ _ H), slen_sdrop.
  destruct (decide (n <= slen (rest l))) as [Hn|Hn]; [f_equal; lia|].
  assert (E : forall k, slen (rest l) <= k -> stake k (rest l) = rest l).
  { intros k. generalize (rest l) as s. induction k; intros [|c s] Hk; simpl in *; try lia; auto.
    rewrite IHk; auto with lia. }
  rewrite !E; auto with lia.
Qed.

(** ** Whitespace, comments *)

Lemma skipWhitespace_moves l : wf l -> moves l (skipWhitespace l).
Proof. intros. eexists. by apply scan_bytes. Qed.

Definition is_comment_byte (c : ascii) : bool := negb (c =c LF) && negb (c =c byte0).

Lemma skipComment_moves l : wf l -> moves l (skipComment l).
Proof.
  intros Hw. unfold skipComment.
  assert (H : moves l (scan (fun l => is_comment_byte (ch l)) readChar l))
    by (eexists; by apply scan_bytes).
  eapply moves_trans; [exact H|]. apply skipWhitespace_moves. eauto with txco.
Qed.

Lemma comment_body_progress l :
  wf l -> (ch l =c "#") = true -> progress l (skipWhitespace (skipComment l)).
Proof.
  intros Hw Hc. bool_to_prop.
  assert (H : progress l (scan (fun l => is_comment_byte (ch l)) readChar l)).
  { exists (slen (span_while is_comment_byte (rest l)).1). split; [by apply scan_bytes|].
    rewrite ch_rest in Hc by done. destruct (rest l); simpl in *; [done|]. subst. simpl. lia. }
  unfold skipComment.
  assert (wf (scan (fun l => is_comment_byte (ch l)) readChar l)) by eauto with txco.
  eapply progress_moves_trans; [exact H|].
  eapply moves_trans; apply skipWhitespace_moves; eauto using skipWhitespace_moves with txco.
Qed.

Lemma hash_left l : wf l -> (ch l =c "#") = true -> 0 < bytes_left l.
Proof. intros Hw Hc. apply (byte_cond_left (fun c => c =c "#")); done. Qed.

Lemma skipTrivia_moves l : wf l -> moves l (skipTrivia l).
Proof.
  intros Hw. unfold skipTrivia. pose proof (skipWhitespace_moves l Hw).
  eapply moves_trans; [done|]. apply scan_moves; eauto with txco.
  intros; by apply comment_body_progress.
Qed.

(** After [skipTrivia] no comment starts: [NextToken]'s recursion is over. *)
Lemma skipTrivia_no_comment l : wf l -> (ch (skipTrivia l) =c "#") = false.
Proof.
  intros Hw. unfold skipTrivia. pose proof (skipWhitespace_moves l Hw).
  apply (scan_exit (fun l => ch l =c "#") (fun l => skipWhitespace (skipComment l)) hash_left);
    eauto using comment_body_progress with txco.
Qed.

(** ** Readers move forward *)

Section ScanB.
Context (cond : Lexer -> bool) (body : string * Lexer -> string * Lexer).
Hypothesis cond_left : forall l, wf l -> cond l = true -> 0 < bytes_left l.
Hypothesis body_progress :
  forall bl, wf bl.2 -> cond bl.2 = true -> progress bl.2 (body bl).2.

Lemma scanB_dec bl : wf bl.2 -> cond bl.2 = true -> bytes_left (body bl).2 < bytes_left bl.2.
Proof. intros. apply progress_left; auto. Qed.

Lemma scanB_body_wf bl : wf bl.2 -> cond bl.2 = true -> wf (body bl).2.
Proof. intros Hw Hc. eauto using progress_moves with txco. Qed.

Lemma scanB_moves bl : wf bl.2 -> moves bl.2 (scanB cond body bl).2.
Proof.
  intros Hw. unfold scanB.
  apply (while_inv (fun bl => cond bl.2) body (fun bl' => moves bl.2 bl'.2)); [|auto with txco].
  intros s Hs Hc. eapply moves_trans; [done|]. eauto with txco.
Qed.

Lemma scanB_exit bl : wf bl.2 -> cond (scanB cond body bl).2 = false.
Proof.
  intros Hw. unfold scanB.
  apply (while_exit (fun bl => cond bl.2) body (fun bl => bytes_left bl.2) (fun bl => wf bl.2));
    auto using scanB_body_wf, scanB_dec.
Qed.

Lemma scanB_unfold bl :
  wf bl.2 -> scanB cond body bl = if cond bl.2 then scanB cond body (body bl) else bl.
Proof.
  intros Hw. unfold scanB.
  rewrite (while_unfold (fun bl => cond bl.2) body (fun bl => bytes_left bl.2)
             (fun bl => wf bl.2) scanB_body_wf scanB_dec) by (auto with lia).
  destruct (cond bl.2) eqn:E; [|done].
  pose proof (scanB_dec bl Hw E).
  apply (while_more (fun bl => cond bl.2) body (fun bl => bytes_left bl.2)
           (fun bl => wf bl.2) scanB_body_wf scanB_dec); auto using scanB_body_wf with lia.
Qed.
End ScanB.

Definition seg_cond (l : Lexer) : bool := negb ((ch l =c byte0) || (ch l =c DQ)).
Definition run_cond (l : Lexer) : bool := (peekChar l =c DQ) || isBranchChar (peekChar l).

Lemma seg_cond_left l : wf l -> seg_cond l = true -> 0 < bytes_left l.
Proof.
  intros Hw. apply (byte_cond_left (fun c => negb ((c =c byte0) || (c =c DQ)))); done.
Qed.

Lemma run_cond_left l : wf l -> run_cond l = true -> 0 < bytes_left l.
Proof.
  intros Hw Hc. unfold run_cond in Hc. rewrite peekChar_rest in Hc by done.
  rewrite bytes_left_rest. destruct (rest l); simpl in *; [done|lia].
Qed.

Lemma seg_byte_lexer bl : (seg_byte bl).2 = bl.2.
Proof. unfold seg_byte. by case_bool. Qed.

Lemma seg_body_progress bl : wf bl.2 -> seg_cond bl.2 = true -> progress bl.2 (rd (seg_byte bl)).2.
Proof. intros Hw _. unfold rd. simpl. rewrite seg_byte_lexer. auto with txco. Qed.

Lemma appendQuotedSegment_progress bl : wf bl.2 -> progress bl.2 (appendQuotedSegment bl).2.
Proof.
  intros Hw. unfold appendQuotedSegment.
  eapply progress_moves_trans; [apply progress_readChar; done|].
  apply (scanB_moves seg_cond _ seg_body_progress (rd bl)). simpl. auto with txco.
Qed.

Lemma run_body_progress bl : wf bl.2 -> run_cond bl.2 = true -> progress bl.2 (run_step bl).2.
Proof.
  intros Hw _. unfold run_step. case_bool; simpl; [|auto with txco].
  eapply progress_moves_trans; [apply progress_readChar; done|].
  apply progress_moves, (appendQuotedSegment_progress (rd bl)). simpl. auto with txco.
Qed.

Lemma scanBranchRun_moves bl : wf bl.2 -> moves bl.2 (scanBranchRun bl).2.
Proof. intros Hw. apply (scanB_moves run_cond _ run_body_progress (wr bl (ch bl.2))). done. Qed.

Lemma readBranchString_progress l : wf l -> progress l (readBranchString l).2.
Proof.
  intros Hw. unfold readBranchString. eapply progress_moves_trans; [by apply progress_readChar|].
  apply (scanBranchRun_moves (rd (wr ("", l) (ch l)))). simpl. auto with txco.
Qed.

Lemma readAtBranchString_progress l : wf l -> progress l (readAtBranchString l).2.
Proof.
  intros Hw. unfold readAtBranchString. eapply progress_moves_trans; [by apply progress_readChar|].
  apply (scanBranchRun_moves (rd ("._txc.", l))). simpl. auto with txco.
Qed.

Definition escaped_slash (l : Lexer) : bool := (ch l =c BSL) && (peekChar l =c "/").

Lemma escaped_slash_left l : wf l -> escaped_slash l = true -> 0 < bytes_left l.
Proof.
  unfold escaped_slash. intros Hw Hc. bool_to_prop.
  apply ch_nonzero_left; [done|]. intros E. rewrite E in *. done.
Qed.

Lemma escaped_slash_body l : wf l -> escaped_slash l = true -> progress l (readChar (readChar l)).
Proof.
  intros Hw _. eapply progress_moves_trans; [by apply progress_readChar|].
  apply progress_moves, progress_readChar. auto with txco.
Qed.

Lemma skipEscapedSlashes_moves l : wf l -> moves l (skipEscapedSlashes l).
Proof. apply (scan_moves escaped_slash _ escaped_slash_body). Qed.

Definition regex_cond (l : Lexer) : bool := negb (ch l =c "/") && negb (ch l =c byte0).
Definition regex_turn (l : Lexer) : Lexer := skipEscapedSlashes (readChar l).

Lemma regex_cond_left l : wf l -> regex_cond l = true -> 0 < bytes_left l.
Proof. intros. apply (byte_cond_left (fun c => negb (c =c "/") && negb (c =c byte0))); done. Qed.

Lemma regex_turn_progress l : wf l -> progress l (regex_turn l).
Proof.
  intros Hw. eapply progress_moves_trans; [by apply progress_readChar|].
  apply skipEscapedSlashes_moves. auto with txco.
Qed.

Lemma readRegex_moves l : wf l -> moves l (readRegex l).2.
Proof.
  intros Hw. unfold readRegex. simpl.
  set (l2 := if ch l =c byte0 then l else _).
  assert (H2 : moves l l2).
  { unfold l2. case_bool; [auto with txco|].
    eapply moves_trans; [apply progress_moves, (regex_turn_progress l Hw)|].
    apply (scan_moves regex_cond regex_turn); auto using regex_turn_progress with txco.
    apply moves_wf with l. by apply progress_moves, regex_turn_progress. }
  case_bool; [done|]. destruct H2 as [n H2]. exists n. auto with txco.
Qed.

(** *** String literals *)

Lemma str_turn_spec bl :
  wf bl.2 ->
  match str_turn bl with
  | StrStop r => progress bl.2 r.2
  | StrMore r => progress bl.2 r.2 /\ 2 <= bytes_left bl.2
  end.
Proof.
  intros Hw. unfold str_turn.
  assert (Hw1 : wf (rd bl).2) by (simpl; auto with txco).
  assert (H1 : progress bl.2 (rd bl).2) by (simpl; auto with txco).
  destruct (ch (rd bl).2 =c byte0) eqn:E0.
  { simpl. destruct H1 as (n & Ha & Hn). exists n. split; [|done]. simpl in *. auto with txco. }
  assert (Hl : 2 <= bytes_left bl.2).
  { bool_to_prop. pose proof (ch_nonzero_left _ Hw1 E0) as H.
    pose proof (ahead_left _ _ _ (readChar_ahead bl.2 Hw)) as Hd. simpl in H. lia. }
  destruct (ch (rd bl).2 =c DQ); [done|].
  assert (H2 : progress bl.2 (rd (rd bl)).2).
  { eapply progress_moves_trans; [exact H1|]. apply progress_moves. simpl in *. auto with txco. }
  repeat case_bool; simpl in *; auto.
Qed.

Lemma str_loop_moves n bl : wf bl.2 -> moves bl.2 (str_loop n bl).2.
Proof.
  revert bl; induction n as [|n IH]; intros bl Hw; simpl; [auto with txco|].
  pose proof (str_turn_spec bl Hw) as H. destruct (str_turn bl) as [r|r].
  - auto with txco.
  - destruct H as [H _]. eapply moves_trans; [by apply progress_moves|]. apply IH. eauto with txco.
Qed.

Lemma str_loop_progress n bl : 0 < n -> wf bl.2 -> progress bl.2 (str_loop n bl).2.
Proof.
  destruct n as [|n]; [lia|]. intros _ Hw. simpl.
  pose proof (str_turn_spec bl Hw) as H. destruct (str_turn bl) as [r|r]; [done|].
  destruct H as [H _]. eapply progress_moves_trans; [done|]. apply str_loop_moves. eauto with txco.
Qed.

(** The fuel of [readString] is enough: a longer run gives the same result. *)
Lemma str_loop_more n m bl :
  wf bl.2 -> bytes_left bl.2 < n -> bytes_left bl.2 < m -> str_loop n bl = str_loop m bl.
Proof.
  revert m bl; induction n as [|n IH]; intros m bl Hw Hn Hm; [lia|].
  destruct m as [|m]; [lia|]. simpl.
  pose proof (str_turn_spec bl Hw) as H. destruct (str_turn bl) as [r|r]; [done|].
  destruct H as [H H2]. pose proof (progress_left _ _ H ltac:(lia)).
  apply IH; [eauto with txco|lia|lia].
Qed.

Lemma str_loop_unfold l acc :
  wf l ->
  str_loop (S (S (bytes_left l))) (acc, l) =
  match str_turn (acc, l) with
  | StrStop r => r
  | StrMore r => str_loop (S (S (bytes_left r.2))) r
  end.
Proof.
  intros Hw. pose proof (str_turn_spec (acc, l) Hw) as H.
  change (str_loop (S (S (bytes_left l))) (acc, l)) with
    (match str_turn (acc, l) with
     | StrStop r => r | StrMore r => str_loop (S (bytes_left l)) r end).
  destruct (str_turn (acc, l)) as [r|r] eqn:E; [done|].
  destruct H as [H H2]. pose proof (progress_left _ _ H ltac:(simpl in *; lia)) as Hd.
  apply str_loop_more; simpl in *; [eauto with txco|lia|lia].
Qed.

Lemma readString_progress l : wf l -> progress l (readString l).2.
Proof. intros Hw. apply (str_loop_progress _ ("", l)); [lia|done]. Qed.

(** ** NextToken *)

Lemma finish_progress l t l' : moves l l' -> progress l (finish (t, l')).2.
Proof.
  intros H. destruct (moves_progress_trans l l' (readChar l') H) as (n & Ha & Hn);
    [eauto with txco|]. exists n. split; [|done]. unfold finish. simpl. auto with txco.
Qed.

Lemma finish_early_progress l t l' : progress l l' -> progress l (finish_early (t, l')).2.
Proof. intros (n & Ha & Hn). exists n. split; [|done]. unfold finish_early. simpl. auto with txco. Qed.

Lemma tok1_progress l t : wf l -> progress l (tok1 t l).2.
Proof. intros. apply finish_progress. auto with txco. Qed.

Lemma tok2_progress l t : wf l -> progress l (tok2 t l).2.
Proof. intros. apply finish_progress. auto with txco. Qed.

Lemma scan_bytes_progress p l :
  p byte0 = false -> wf l -> p (ch l) = true ->
  progress l (scan (fun l => p (ch l)) readChar l).
Proof.
  intros Hp Hw Hc. eexists. split; [by apply scan_bytes|].
  rewrite (ch_rest l Hw) in Hc. destruct (rest l); simpl in *; [congruence|].
  rewrite Hc. simpl. lia.
Qed.

Definition isIdentByte (c : ascii) : bool := isLetter c || is_dec c.

Lemma readIdentifier_progress l : wf l -> isLetter (ch l) = true -> progress l (readIdentifier l).2.
Proof.
  intros Hw Hc. apply (scan_bytes_progress isIdentByte); [done|done|].
  unfold isIdentByte. by rewrite Hc.
Qed.

Lemma readNumber_progress l : wf l -> isDigit (ch l) = true -> progress l (readNumber l).2.
Proof. intros Hw Hc. by apply (scan_bytes_progress isDigit). Qed.

Lemma numberToken_progress l : wf l -> isDigit (ch l) = true -> progress l (numberToken l).2.
Proof.
  intros Hw Hc. unfold numberToken. pose proof (readNumber_progress l Hw Hc).
  destruct (readNumber l). by apply finish_early_progress.
Qed.

Lemma defaultToken_progress l : wf l -> progress l (defaultToken l).2.
Proof.
  intros Hw. unfold defaultToken. destruct (isLetter (ch l)) eqn:El.
  - pose proof (readIdentifier_progress l Hw El) as H.
    destruct (readIdentifier l) as [lit l1]. simpl in H.
    case_bool; [|by apply finish_early_progress].
    assert (wf l1) by eauto with txco.
    pose proof (readString_progress l1 ltac:(done)) as H'.
    destruct (readString l1) as [raw l2]. simpl in H'. apply finish_early_progress.
    eapply progress_moves_trans; [done|]. eapply moves_trans; [by apply progress_moves|].
    apply progress_moves. eauto with txco.
  - case_bool; [by apply numberToken_progress|by apply tok1_progress].
Qed.

Lemma dash_isDigit c : (c =c "-") = true -> isDigit c = true.
Proof. intros H. bool_to_prop. by subst. Qed.

Lemma amp_progress l :
  wf l -> isLetter (peekChar l) = true ->
  progress l (let '(lit, l') := readIdentifier (readChar l) in
              finish_early (mkToken AMP_IDENT lit, l')).2.
Proof.
  intros Hw Hp.
  assert (Hc : isLetter (ch (readChar l)) = true) by exact Hp.
  pose proof (readIdentifier_progress (readChar l) ltac:(auto with txco) Hc) as H.
  destruct (readIdentifier (readChar l)). simpl in H. apply finish_early_progress.
  eapply progress_moves_trans; [by apply progress_readChar|]. auto with txco.
Qed.

Ltac reader_progress H :=
  let E := fresh "E" in pose proof H as E;
  match type of E with progress _ (snd ?r) => destruct r | moves _ (snd ?r) => destruct r end;
  apply finish_progress; auto with txco.

(** [l] with [l.start] set where [NextToken] sets it. *)
Definition mark (l : Lexer) : Lexer := set_start l (min (position l) (slen (input l))).

Lemma mark_left l : bytes_left (mark l) = bytes_left l.
Proof. done. Qed.

Lemma scanToken_progress l : wf l -> progress (mark l) (scanToken l).2.
Proof.
  intros Hw. unfold scanToken. fold (mark l).
  assert (Hw0 : wf (mark l)) by (unfold mark; auto with txco).
  set (l0 := mark l) in *. clearbody l0. clear Hw l.
  repeat match goal with
  | |- progress _ (if ?b then _ else _).2 => destruct b eqn:?
  end;
  first
    [ by apply tok1_progress | by apply tok2_progress | by apply defaultToken_progress
    | by apply numberToken_progress, dash_isDigit
    | by apply amp_progress
    | reader_progress (readRegex_moves l0 Hw0)
    | reader_progress (readBranchString_progress l0 Hw0)
    | reader_progress (readAtBranchString_progress l0 Hw0)
    | reader_progress (readString_progress l0 Hw0)
    | apply finish_progress; auto with txco ].
Qed.

Lemma NextToken_progress l : wf l -> progress (mark (skipTrivia l)) (NextToken l).2.
Proof. intros Hw. apply scanToken_progress. eauto using skipTrivia_moves with txco. Qed.

Lemma NextToken_wf l : wf l -> wf (NextToken l).2.
Proof. intros Hw. eauto using NextToken_progress with txco. Qed.

(** At the end of the input the token is EOF. *)
Lemma scanToken_end l : wf l -> bytes_left l = 0 -> (scanToken l).1 = mkToken EOF "".
Proof.
  intros Hw Hl. assert (E : ch l = byte0).
  { rewrite ch_rest by done. apply rest_nil_iff in Hl. by rewrite Hl. }
  unfold scanToken. simpl. by rewrite E.
Qed.

Lemma NextToken_not_EOF l :
  wf l -> Type_ (NextToken l).1 <> EOF -> bytes_left (NextToken l).2 < bytes_left l.
Proof.
  intros Hw Ht. unfold NextToken in *. pose proof (skipTrivia_moves l Hw) as Hm.
  assert (Hw1 : wf (skipTrivia l)) by eauto with txco.
  pose proof (moves_left _ _ Hm).
  destruct (decide (bytes_left (skipTrivia l) = 0)) as [E|E].
  - by rewrite scanToken_end in Ht.
  - pose proof (progress_left _ _ (scanToken_progress _ Hw1)) as Hp.
    rewrite mark_left in Hp. lia.
Qed.

Lemma NextToken_left l : wf l -> bytes_left (NextToken l).2 <= bytes_left l - 1.
Proof.
  intros Hw. destruct (NextToken_progress l Hw) as (n & Ha & Hn).
  rewrite (ahead_left _ _ _ Ha).
  pose proof (moves_left _ _ (skipTrivia_moves l Hw)).
  rewrite mark_left. lia.
Qed.

Lemma tokens_total l : wf l -> forall fuel, bytes_left l < fuel -> is_Some (tokens fuel l).
Proof.
  intros Hw fuel. revert l Hw. induction fuel as [|fuel IH]; intros l Hw Hf; [lia|].
  simpl. pose proof (NextToken_not_EOF l Hw) as Hd. pose proof (NextToken_wf l Hw) as Hw'.
  destruct (NextToken l) as [t l']. simpl in *.
  unfold tt_eqb. case_bool_decide; [done|].
  destruct (IH l' Hw' ltac:(specialize (Hd ltac:(done)); lia)) as [ts ->]. done.
Qed.

(** The last token of the list, and only it, is EOF. *)
Lemma tokens_EOF fuel l ts :
  tokens fuel l = Some ts ->
  exists pre t, ts = pre ++ [t] /\ Type_ t = EOF /\ Forall (fun t => Type_ t <> EOF) pre.
Proof.
  revert l ts; induction fuel as [|fuel IH]; intros l ts H; simpl in H; [done|].
  destruct (NextToken l) as [t l']. unfold tt_eqb in H. case_bool_decide as E.
  - simplify_eq. exists [], t. auto.
  - destruct (tokens fuel l') as [ts'|] eqn:E'; [|done]. simplify_eq.
    destruct (IH _ _ E') as (pre & t' & -> & ? & ?). exists (t :: pre), t'. auto.
Qed.

(** the lexer terminates on every byte string: [tokenize], whose fuel is
    the input's length plus two, always returns, and the list it returns ends in
    the one EOF token. *)
Theorem tokenize_total s :
  exists pre t, tokenize s = Some (pre ++ [t]) /\ Type_ t = EOF /\
                Forall (fun t => Type_ t <> EOF) pre.
Proof.
  destruct (tokens_total (NewLexer s) (NewLexer_wf s) (slen s + 2)) as [ts Hts].
  { rewrite bytes_left_rest, NewLexer_rest. lia. }
  destruct (tokens_EOF _ _ _ Hts) as (pre & t & -> & ? & ?).
  exists pre, t. auto.
Qed.

(** Lexers reached from a fresh one by reading tokens. *)
Inductive reachable (s : string) : Lexer -> Prop :=
| reach_new : reachable s (NewLexer s)
| reach_next l : reachable s l -> reachable s (NextToken l).2.

Lemma reachable_wf s l : reachable s l -> wf l /\ input l = s.
Proof.
  induction 1 as [|l _ [Hw Hi]]; [split; [apply NewLexer_wf|done]|].
  destruct (NextToken_progress l Hw) as (n & (Hw' & Hi' & _) & _).
  destruct (skipTrivia_moves l Hw) as (m & _ & Hi2 & _).
  split; [done|]. rewrite Hi'. simpl. congruence.
Qed.

(** The spans the include expander splices on are in bounds, in order and
    disjoint: for a lexer reached from a fresh one on [s], the span of the next
    token starts at or after the end of the previous one, is not reversed, and
    ends within [s]. *)
Theorem spans_ordered s l :
  reachable s l ->
  let l' := (NextToken l).2 in
  (Span l).2 <= (Span l').1 /\ (Span l').1 <= (Span l').2 /\ (Span l').2 <= slen s.
Proof.
  intros Hr. destruct (reachable_wf s l Hr) as [Hw Hi]. simpl.
  destruct (NextToken_progress l Hw) as (n & (_ & Hi' & Hp' & Hs') & _).
  destruct (skipTrivia_moves l Hw) as (m & _ & Hi2 & Hp2 & _).
  unfold mark in *. simpl in *. rewrite Hs', Hp', Hi', Hi2, Hp2, Hi. lia.
Qed.

Lemma spans_ordered_witness :
  reachable "EXEC x" (NextToken (NewLexer "EXEC x")).2 /\
  (Span (NextToken (NextToken (NewLexer "EXEC x")).2).2) = (5, 6) /\
  4 <= 5.
Proof.
  assert (H : reachable "EXEC x" (NextToken (NewLexer "EXEC x")).2) by (repeat constructor).
  split; [exact H|]. split; [reflexivity|].
  exact (proj1 (spans_ordered _ _ H)).
Defined.
