(* ===== verification/LexerLocal.v ===== *)
(** * What a token depends on

    The lexer decides a token from the bytes of the token, at most one byte after
    it, and whether the last token was a binding or [WHEN].  Two lexers whose
    inputs agree up to a boundary return the same tokens until one of them
    crosses it; beyond the boundary the inputs may differ: both end there, or one
    goes on with [&] and the other with a double quote.  The second case is the
    one of an include directive replaced by a string literal, which needs that no
    path, [b64] prefix or quoted segment touches the boundary. *)

From Stdlib Require Import Ascii String ZArith Lia Bool.
From stdpp Require Import base tactics list strings.
From S2P Require Import Prelude GoStrings GoStrconv Token Lexer LexerFacts.

(** The bytes a double quote would be glued to. *)
Definition glue (c : ascii) : bool := isBranchChar c || (c =c DQ) || (c =c byte0).

Section Boundary.
(** What follows the boundary on the two sides, the byte before it, and the errors
    recorded on the two sides so far. *)
Context (r r' : string) (z : ascii) (e e' : list LexError).
Hypothesis sides :
  (r = EmptyString /\ r' = EmptyString) \/
  (exists t t', r = String "&" t /\ r' = String DQ t' /\ glue z = false).

Definition ends_in (u : string) : Prop := u = EmptyString \/ exists v, u = (v ++ str1 z)%string.

(** Both lexers are before the boundary, with the same bytes to go to it. *)
Definition near (l l' : Lexer) : Prop :=
  wf l /\ wf l' /\
  (exists u, rest l = (u ++ r)%string /\ rest l' = (u ++ r')%string /\ ends_in u) /\
  exists x, errs l = e ++ x /\ errs l' = e' ++ x.

(** Fewer than [k] bytes to the boundary, or past it, and something behind it. *)
Definition past (k : nat) (l : Lexer) : Prop := r <> EmptyString /\ slen (rest l) < slen r + k.
Definition nearby (k : nat) (l l' : Lexer) : Prop := past k l \/ near l l'.

Lemma past_dec k l : past k l \/ ~ past k l.
Proof.
  unfold past. destruct r as [|c t]; [right; intros []; done|].
  destruct (decide (slen (rest l) < slen (String c t) + k)); [by left|right; intros []; lia].
Qed.

Lemma past_moves k l m : past k l -> moves l m -> past k m.
Proof.
  intros [Hr H] Hm. split; [done|]. apply moves_left in Hm. rewrite !bytes_left_rest in Hm. lia.
Qed.

Lemma slen_pos (s : string) : s <> EmptyString -> 0 < slen s.
Proof. destruct s; simpl; [done|lia]. Qed.

Lemma past_readChar k l : wf l -> past (S k) l -> past k (readChar l).
Proof.
  intros Hw [Hr H]. split; [done|]. rewrite (ahead_rest 1 l), slen_sdrop by auto with txco.
  pose proof (slen_pos r Hr). lia.
Qed.

Lemma past_weaken k l : past 0 l -> past k l.
Proof. intros [? ?]. split; [done|lia]. Qed.

Lemma ends_in_tail c u : ends_in (String c u) -> ends_in u.
Proof.
  intros [H|[[|d v] H]]; [done| |]; unfold str1 in H; cbn in H; simplify_eq; [by left|right; by exists v].
Qed.

Lemma ends_in_last c : ends_in (str1 c) -> c = z.
Proof.
  intros [H|[[|d v] H]]; [done| |]; unfold str1 in H; cbn in H; simplify_eq; [done|by destruct v].
Qed.

Lemma near_readChar l l' : near l l' -> nearby 0 (readChar l) (readChar l').
Proof.
  intros (Hw & Hw' & (u & E & E' & Hu) & Hx).
  assert (H : rest (readChar l) = sdrop 1 (rest l)) by (apply (ahead_rest 1); auto with txco).
  assert (H' : rest (readChar l') = sdrop 1 (rest l')) by (apply (ahead_rest 1); auto with txco).
  destruct u as [|c u]; cbn in E, E'.
  - destruct sides as [[Hr Hr']|(t & t' & Hr & _)].
    + right. split; [auto with txco|]. split; [auto with txco|]. split; [|done].
      exists EmptyString. rewrite H, H', E, E', Hr, Hr'. split; [done|]. split; [done|by left].
    + left. split; [by rewrite Hr|]. rewrite H, E, Hr. simpl. destruct t; simpl; lia.
  - right. split; [auto with txco|]. split; [auto with txco|]. split; [|done].
    exists u. rewrite H, H', E, E'. split; [by destruct u|]. split; [by destruct u|].
    by apply ends_in_tail in Hu.
Qed.

Lemma nearby_readChar k l l' : wf l -> nearby (S k) l l' -> nearby k (readChar l) (readChar l').
Proof.
  intros Hw [H|H]; [left; by apply past_readChar|].
  destruct (near_readChar l l' H) as [H1|H1]; [left; by apply past_weaken|by right].
Qed.

(** ** Looking at a byte *)

Lemma near_ch (p : ascii -> bool) l l' : p "&"%char = p DQ -> near l l' -> p (ch l) = p (ch l').
Proof.
  intros Hp (Hw & Hw' & (u & E & E' & _) & _). rewrite !ch_rest, E, E' by done.
  destruct u; [|done]. destruct sides as [[-> ->]|(t & t' & -> & -> & _)]; done.
Qed.

(** At least one byte to the boundary, or the boundary is the end. *)
Lemma near_inner l l' : near l l' -> ~ past 1 l ->
  (r = EmptyString /\ rest l = rest l') \/
  exists c u, rest l = String c (u ++ r) /\ rest l' = String c (u ++ r') /\ ends_in (String c u) /\ glue z = false.
Proof.
  intros (Hw & Hw' & (u & E & E' & Hu) & _) Hp.
  destruct sides as [[Hr Hr']|(t & t' & Hr & Hr' & Hz)].
  - left. split; [done|]. by rewrite E, E', Hr, Hr'.
  - right. destruct u as [|c u]; [|by exists c, u].
    exfalso. apply Hp. split; [by rewrite Hr|]. rewrite E. simpl. lia.
Qed.

Lemma near_ch1 l l' : near l l' -> ~ past 1 l -> ch l = ch l'.
Proof.
  intros H Hp. pose proof H as (Hw & Hw' & _). rewrite !ch_rest by done.
  destruct (near_inner l l' H Hp) as [[_ ->]|(c & u & -> & -> & _)]; done.
Qed.

Lemma near_peek (p : ascii -> bool) l l' :
  p "&"%char = p DQ -> near l l' -> ~ past 1 l -> p (peekChar l) = p (peekChar l').
Proof.
  intros Hpp H Hp. pose proof H as (Hw & Hw' & _). rewrite !peekChar_rest by done.
  destruct (near_inner l l' H Hp) as [[_ ->]|(c & u & -> & -> & _)]; [done|].
  destruct u; [|done]. cbn. destruct sides as [[-> ->]|(t & t' & -> & -> & _)]; done.
Qed.

(** A glued byte is not the last one before the boundary. *)
Lemma near_peek_glued l l' : near l l' -> ~ past 1 l -> glue (ch l) = true -> peekChar l = peekChar l'.
Proof.
  intros H Hp Hg. pose proof H as (Hw & Hw' & _). rewrite ch_rest in Hg by done. rewrite !peekChar_rest by done.
  destruct (near_inner l l' H Hp) as [[_ ->]|(c & u & E & E' & Hu & Hz)]; [done|]. rewrite E in Hg. rewrite E, E'.
  destruct u; [|done]. apply ends_in_last in Hu. cbn in Hg. congruence.
Qed.

(** ** Scans *)

Section NearScan.
Context (k : nat) (cond : Lexer -> bool) (body : Lexer -> Lexer).
Hypothesis cond_left : forall l, wf l -> cond l = true -> 0 < bytes_left l.
Hypothesis body_progress : forall l, wf l -> cond l = true -> progress l (body l).
Hypothesis cond_near : forall l l', near l l' -> ~ past k l -> cond l = cond l'.
Hypothesis body_near : forall l l', near l l' -> ~ past k l -> cond l = true -> nearby k (body l) (body l').

Lemma scan_near l l' : wf l -> nearby k l l' -> nearby k (scan cond body l) (scan cond body l').
Proof.
  remember (bytes_left l) as n eqn:Hn. revert l l' Hn. induction n as [n IH] using lt_wf_ind. intros l l' -> Hw H.
  assert (Hm : moves l (scan cond body l)) by (by apply scan_moves).
  destruct (past_dec k l) as [Hp|Hp]; [left; by apply (past_moves k l)|].
  destruct H as [H|H]; [done|]. pose proof H as (_ & Hw' & _).
  rewrite (scan_unfold cond body cond_left body_progress l) by done.
  rewrite (scan_unfold cond body cond_left body_progress l') by done.
  rewrite <- (cond_near l l' H Hp). destruct (cond l) eqn:Ec; [|by right].
  apply (IH (bytes_left (body l))); [by apply (scan_body_dec cond body)|done| |by apply body_near].
  by apply (moves_wf l), progress_moves, body_progress.
Qed.
End NearScan.

Definition nearB (x y : string * Lexer) : Prop := x.1 = y.1 /\ near x.2 y.2.
Definition nearbyB (k : nat) (x y : string * Lexer) : Prop := past k x.2 \/ nearB x y.

Section NearScanB.
Context (k : nat) (cond : Lexer -> bool) (body : string * Lexer -> string * Lexer) (I : Lexer -> Prop).
Hypothesis cond_left : forall l, wf l -> cond l = true -> 0 < bytes_left l.
Hypothesis body_progress : forall x, wf x.2 -> cond x.2 = true -> progress x.2 (body x).2.
Hypothesis body_inv : forall x, wf x.2 -> cond x.2 = true -> I (body x).2.
Hypothesis cond_near : forall l l', near l l' -> ~ past k l -> I l -> cond l = cond l'.
Hypothesis body_near : forall x y, nearB x y -> ~ past k x.2 -> I x.2 -> cond x.2 = true -> nearbyB k (body x) (body y).

Lemma scanB_near x y : wf x.2 -> I x.2 -> nearbyB k x y -> nearbyB k (scanB cond body x) (scanB cond body y).
Proof.
  remember (bytes_left x.2) as n eqn:Hn. revert x y Hn. induction n as [n IH] using lt_wf_ind. intros x y -> Hw HI H.
  assert (Hm : moves x.2 (scanB cond body x).2) by (by apply scanB_moves).
  destruct (past_dec k x.2) as [Hp|Hp]; [left; by apply (past_moves k x.2)|].
  destruct H as [H|H]; [done|]. pose proof H as (_ & _ & Hw' & _).
  rewrite (scanB_unfold cond body cond_left body_progress x) by done.
  rewrite (scanB_unfold cond body cond_left body_progress y) by done.
  rewrite <- (cond_near x.2 y.2 (proj2 H) Hp HI). destruct (cond x.2) eqn:Ec; [|by right].
  apply (IH (bytes_left (body x).2)); [by apply (scanB_dec cond body)|done| |by apply body_inv|by apply body_near].
  by apply (moves_wf x.2), progress_moves, body_progress.
Qed.
End NearScanB.

Lemma scan_bytes_near (p : ascii -> bool) l l' :
  p byte0 = false -> p "&"%char = p DQ -> wf l -> nearby 0 l l' ->
  nearby 0 (scan (fun l => p (ch l)) readChar l) (scan (fun l => p (ch l)) readChar l').
Proof.
  intros H0 Hp. apply (scan_near 0 (fun l => p (ch l)) readChar).
  - intros. by apply (byte_cond_left p).
  - auto with txco.
  - intros. by apply near_ch.
  - intros k k' H _ _. by apply near_readChar.
Qed.

Lemma skipWhitespace_near l l' : wf l -> nearby 0 l l' -> nearby 0 (skipWhitespace l) (skipWhitespace l').
Proof. by apply (scan_bytes_near isSpace). Qed.

Lemma skipComment_near l l' : wf l -> nearby 0 l l' -> nearby 0 (skipComment l) (skipComment l').
Proof.
  intros Hw H. apply skipWhitespace_near; [|by apply (scan_bytes_near is_comment_byte)].
  eapply ahead_wf, (scan_bytes is_comment_byte); done.
Qed.

Lemma skipTrivia_near l l' : wf l -> nearby 0 l l' -> nearby 0 (skipTrivia l) (skipTrivia l').
Proof.
  intros Hw H. pose proof (skipWhitespace_moves l Hw).
  apply (scan_near 0 (fun l => ch l =c "#") (fun l => skipWhitespace (skipComment l)) hash_left).
  - intros. by apply comment_body_progress.
  - intros k k' Hk _. by apply (near_ch (fun c => c =c "#")).
  - intros k k' Hk _ _. pose proof Hk as (Hwk & _). pose proof (skipComment_moves k Hwk).
    apply skipWhitespace_near; [eauto with txco|]. apply skipComment_near; [done|by right].
  - eauto with txco.
  - by apply skipWhitespace_near.
Qed.

(** ** Readers *)

(** The bytes between two points before the boundary are the same on both sides. *)
Lemma text_near l l' m m' :
  near l l' -> near m m' -> moves l m -> moves l' m' ->
  text_from m (position l) = text_from m' (position l').
Proof.
  intros (_ & _ & (u & E & E' & _) & _) (_ & _ & (v & Ev & Ev' & _) & _) [i Hi] [j Hj].
  rewrite (text_between _ _ _ Hi), (text_between _ _ _ Hj), E, E', Ev, Ev', !slen_app.
  replace (slen u + slen r - (slen v + slen r)) with (slen u - slen v) by lia.
  replace (slen u + slen r' - (slen v + slen r')) with (slen u - slen v) by lia.
  rewrite !stake_app_le; auto with lia.
Qed.

Lemma scan_text_near (p : ascii -> bool) l l' :
  p byte0 = false -> p "&"%char = p DQ -> near l l' ->
  let f l := let m := scan (fun l => p (ch l)) readChar l in (text_from m (position l), m) in
  nearbyB 0 (f l) (f l').
Proof.
  intros H0 Hp H. cbn. pose proof H as (Hw & Hw' & _).
  destruct (scan_bytes_near p l l' H0 Hp Hw ltac:(by right)) as [Hq|Hq]; [by left|]. right. split; [|done]. cbn.
  apply text_near; [done..| |]; eexists; by apply scan_bytes.
Qed.

Lemma readIdentifier_near l l' : near l l' -> nearbyB 0 (readIdentifier l) (readIdentifier l').
Proof. by apply (scan_text_near isIdentByte). Qed.
Lemma readNumber_near l l' : near l l' -> nearbyB 0 (readNumber l) (readNumber l').
Proof. by apply (scan_text_near isDigit). Qed.

Lemma rd_near k x y : wf x.2 -> nearbyB (S k) x y -> nearbyB k (rd x) (rd y).
Proof.
  intros Hw [H|[E H]]; [left; by apply past_readChar|].
  destruct (near_readChar _ _ H) as [H1|H1]; [left; by apply past_weaken|right; by split].
Qed.
Lemma wr_near k x y c : nearbyB k x y -> nearbyB k (wr x c) (wr y c).
Proof. intros [H|[E H]]; [by left|right]. split; [cbn; by rewrite E|done]. Qed.

Lemma nearB_nearby k x y : nearB x y -> nearbyB k x y.
Proof. by right. Qed.

Lemma rd_near1 x y : nearB x y -> ~ past 1 x.2 -> nearbyB 1 (rd x) (rd y).
Proof.
  intros [E H] Hp. destruct (near_readChar _ _ H) as [H1|H1]; [left; by apply past_weaken|right; by split].
Qed.

Lemma past_dec1 x y : nearbyB 1 x y -> past 1 x.2 \/ (nearB x y /\ ~ past 1 x.2).
Proof. intros H. destruct (past_dec 1 x.2); [by left|]. destruct H; [done|by right]. Qed.

Lemma seg_byte_near x y : nearB x y -> ~ past 1 x.2 -> nearB (seg_byte x) (seg_byte y).
Proof.
  intros [E H] Hp. unfold seg_byte. rewrite (near_ch1 _ _ H Hp).
  case_bool; (split; [cbn; by rewrite E|done]).
Qed.

Lemma appendQuotedSegment_near x y :
  nearB x y -> ~ past 1 x.2 -> nearbyB 1 (appendQuotedSegment x) (appendQuotedSegment y).
Proof.
  intros H Hp. pose proof H as (_ & Hw & _).
  apply (scanB_near 1 seg_cond (fun bl => rd (seg_byte bl)) (fun _ => True) seg_cond_left seg_body_progress);
    [done| | |cbn; auto with txco|done|by apply rd_near1].
  - intros l l' Hl Hlp _. unfold seg_cond. by rewrite (near_ch1 _ _ Hl Hlp).
  - intros a c Ha Hap _ _. apply rd_near1; [by apply seg_byte_near|by rewrite seg_byte_lexer].
Qed.

Lemma appendQuotedSegment_glued x : wf x.2 -> glue (ch (appendQuotedSegment x).2) = true.
Proof.
  intros Hw. unfold appendQuotedSegment. change (fun l => negb ((ch l =c byte0) || (ch l =c DQ))) with seg_cond.
  assert (H := scanB_exit seg_cond (fun bl => rd (seg_byte bl)) seg_cond_left seg_body_progress (rd x) ltac:(cbn; auto with txco)).
  unfold seg_cond in H at 1. apply negb_false_iff in H. unfold glue. apply orb_true_iff in H as [H|H]; rewrite H; by rewrite ?orb_true_r.
Qed.

Lemma run_step_glued x : wf x.2 -> run_cond x.2 = true -> glue (ch (run_step x).2) = true.
Proof.
  intros Hw Hc. unfold run_step. destruct (peekChar x.2 =c DQ) eqn:Eq.
  - apply appendQuotedSegment_glued. cbn. auto with txco.
  - unfold run_cond in Hc. rewrite Eq in Hc. cbn in Hc |- *. unfold glue.
    rewrite peekChar_rest in Hc by done. rewrite (byte_at_sdrop _ 1) in Hc.
    rewrite <- (ahead_rest 1 x.2 (readChar x.2)), <- ch_rest in Hc by auto with txco. cbn in Hc. by rewrite Hc.
Qed.

Lemma run_step_near x y :
  nearB x y -> ~ past 1 x.2 -> glue (ch x.2) = true -> nearbyB 1 (run_step x) (run_step y).
Proof.
  intros H Hp Hg. unfold run_step. rewrite <- (near_peek_glued _ _ (proj2 H) Hp Hg).
  pose proof (past_dec1 _ _ (rd_near1 x y H Hp)) as Hr. pose proof H as (_ & Hw & _).
  assert (Hwr : wf (rd x).2) by (cbn; auto with txco). case_bool; destruct Hr as [Hr|[Hr Hrp]].
  - left. by apply (past_moves 1 (rd x).2), progress_moves, appendQuotedSegment_progress.
  - by apply appendQuotedSegment_near.
  - by left.
  - rewrite (near_ch1 _ _ (proj2 Hr) Hrp). apply wr_near. by right.
Qed.

Lemma run_loop_near x y :
  nearB x y -> glue (ch x.2) = true -> nearbyB 1 (scanB run_cond run_step x) (scanB run_cond run_step y).
Proof.
  intros H Hg. pose proof H as (_ & Hw & _).
  apply (scanB_near 1 run_cond run_step (fun l => glue (ch l) = true) run_cond_left run_body_progress run_step_glued);
    [| |done|done|by right].
  - intros l l' Hl Hlp Hlg. unfold run_cond. by rewrite (near_peek_glued _ _ Hl Hlp Hlg).
  - intros a c Ha Hap Hag _. by apply run_step_near.
Qed.

(** The reader of a path, at the byte before the first one of its run. *)
Lemma scanBranchRun_near x y :
  nearbyB 1 x y -> wf x.2 -> isLetter (ch x.2) = true -> nearbyB 1 (scanBranchRun x) (scanBranchRun y).
Proof.
  intros H Hw Hl. destruct (past_dec1 _ _ H) as [Hp|[Hn Hp]].
  - left. apply (past_moves 1 x.2); [done|]. by apply scanBranchRun_moves.
  - unfold scanBranchRun. rewrite <- (near_ch1 _ _ (proj2 Hn) Hp). apply run_loop_near.
    + destruct Hn as [E Hn]. split; [cbn; by rewrite E|done].
    + cbn. unfold glue, isBranchChar. by rewrite Hl.
Qed.

Lemma near_next_letter l l' : near l l' -> isLetter (peekChar l) = true -> isLetter (ch (readChar l)) = true.
Proof.
  intros (Hw & _) H. rewrite peekChar_rest in H by done. rewrite (byte_at_sdrop _ 1) in H.
  by rewrite <- (ahead_rest 1 l (readChar l)), <- ch_rest in H by auto with txco.
Qed.

Lemma readBranchString_near l l' :
  near l l' -> ~ past 1 l -> isLetter (peekChar l) = true -> nearbyB 1 (readBranchString l) (readBranchString l').
Proof.
  intros H Hp Hl. pose proof H as (Hw & _). unfold readBranchString. apply scanBranchRun_near.
  - apply rd_near1; [|done]. split; [cbn; by rewrite (near_ch1 _ _ H Hp)|done].
  - cbn. auto with txco.
  - by apply (near_next_letter l l').
Qed.

Lemma readAtBranchString_near l l' :
  near l l' -> ~ past 1 l -> isLetter (peekChar l) = true ->
  nearbyB 1 (readAtBranchString l) (readAtBranchString l').
Proof.
  intros H Hp Hl. pose proof H as (Hw & _). unfold readAtBranchString. apply scanBranchRun_near.
  - by apply rd_near1.
  - cbn. auto with txco.
  - by apply (near_next_letter l l').
Qed.

(** ** String literals *)

Definition str_res (s : StrStep) : string * Lexer := match s with StrStop x | StrMore x => x end.

Definition near_turn (s t : StrStep) : Prop :=
  match s, t with
  | StrStop x, StrStop y | StrMore x, StrMore y => nearB x y
  | _, _ => False
  end.

Lemma str_res_moves x : wf x.2 -> moves x.2 (str_res (str_turn x)).2.
Proof. intros Hw. pose proof (str_turn_spec x Hw) as H. destruct (str_turn x); cbn; [|destruct H]; auto with txco. Qed.

Lemma str_res_moves_rd x : wf x.2 -> moves (rd x).2 (str_res (str_turn x)).2.
Proof.
  intros Hw. assert (Hw1 : wf (readChar x.2)) by auto with txco. assert (Hw2 : wf (readChar (readChar x.2))) by auto with txco.
  unfold str_turn. repeat case_bool; cbn; auto with txco. exists 0. auto with txco.
Qed.

Lemma wr_nearB x y c : nearB x y -> nearB (wr x c) (wr y c).
Proof. intros [E H]. split; [cbn; by rewrite E|done]. Qed.

Lemma add_err_near l l' er : near l l' -> near (add_err l er) (add_err l' er).
Proof.
  intros (Hw & Hw' & Hu & x & E & E'). split; [done|]. split; [done|]. split; [done|]. exists (x ++ [er]). cbn.
  by rewrite E, E', !(assoc_L (++)).
Qed.

Lemma str_turn_near x y :
  nearB x y -> ~ past 1 x.2 ->
  past 1 (str_res (str_turn x)).2 \/ near_turn (str_turn x) (str_turn y).
Proof.
  intros H Hp. pose proof H as (_ & Hw & _).
  destruct (past_dec1 _ _ (rd_near1 x y H Hp)) as [H1|[H1 Hp1]].
  { left. by apply (past_moves 1 (rd x).2), str_res_moves_rd. }
  destruct (past_dec1 _ _ (rd_near1 _ _ H1 Hp1)) as [H2|[H2 Hp2]].
  - unfold str_turn. rewrite <- (near_ch1 _ _ (proj2 H1) Hp1).
    destruct (ch (rd x).2 =c byte0); [right; split; [apply H1|apply add_err_near, H1]|].
    destruct (ch (rd x).2 =c DQ); [by right|]. destruct (ch (rd x).2 =c BSL); [left|by right; apply wr_nearB].
    repeat case_bool; done.
  - right. unfold str_turn. rewrite <- (near_ch1 _ _ (proj2 H1) Hp1), <- (near_ch1 _ _ (proj2 H2) Hp2).
    repeat case_bool; cbn; auto using wr_nearB. split; [apply H1|apply add_err_near, H1].
Qed.

Lemma str_loop_near acc l acc' l' :
  nearbyB 1 (acc, l) (acc', l') -> wf l -> wf l' ->
  nearbyB 1 (str_loop (S (S (bytes_left l))) (acc, l)) (str_loop (S (S (bytes_left l'))) (acc', l')).
Proof.
  remember (bytes_left l) as n eqn:Hn. revert acc l acc' l' Hn.
  induction n as [n IH] using lt_wf_ind. intros acc l acc' l' -> H Hw Hw'.
  destruct (past_dec1 _ _ H) as [Hp|[Hn Hp]].
  { left. by apply (past_moves 1 l), (str_loop_moves _ (acc, l)). }
  rewrite !str_loop_unfold by done. pose proof (str_turn_spec (acc, l) Hw) as Hs. pose proof (str_turn_spec (acc', l') Hw') as Hs'.
  destruct (str_turn_near _ _ Hn Hp) as [Ht|Ht].
  - left. destruct (str_turn (acc, l)) as [x|[a k]]; [done|]. cbn in Ht, Hs.
    apply (past_moves 1 k); [done|]. apply (str_loop_moves _ (a, k)). destruct Hs as [Hs _]. eauto with txco.
  - destruct (str_turn (acc, l)) as [x|[a k]], (str_turn (acc', l')) as [y|[a' k']]; try done; cbn in Ht; [by right|].
    destruct Hs as [Hs H2]. destruct Hs' as [Hs' _]. cbn in Hs, Hs', H2. cbn [snd].
    apply (IH (bytes_left k)); [apply (progress_left l); [done|lia]|done|by right| |]; eauto with txco.
Qed.

Lemma readString_near l l' : near l l' -> nearbyB 1 (readString l) (readString l').
Proof. intros H. pose proof H as (Hw & Hw' & _). apply str_loop_near; [by right|done..]. Qed.

(** ** Regex literals *)

Lemma skipEscapedSlashes_near l l' :
  wf l -> nearby 1 l l' -> nearby 1 (skipEscapedSlashes l) (skipEscapedSlashes l').
Proof.
  apply (scan_near 1 escaped_slash (fun l => readChar (readChar l)) escaped_slash_left escaped_slash_body).
  - intros k k' H Hp. unfold escaped_slash.
    by rewrite (near_ch1 _ _ H Hp), (near_peek (fun c => c =c "/") _ _ eq_refl H Hp).
  - intros k k' H Hp _. pose proof H as (Hw & _). destruct (near_readChar k k' H) as [H1|H1].
    + left. apply (past_moves 1 (readChar k)); [by apply past_weaken|]. apply progress_moves. auto with txco.
    + destruct (near_readChar _ _ H1); [left; by apply past_weaken|by right].
Qed.

Lemma regex_turn_near l l' : near l l' -> nearby 1 (regex_turn l) (regex_turn l').
Proof.
  intros H. pose proof H as (Hw & _). apply skipEscapedSlashes_near; [auto with txco|].
  destruct (near_readChar l l' H); [left; by apply past_weaken|by right].
Qed.

Lemma regex_scan_near l l' :
  near l l' -> nearby 1 (scan regex_cond regex_turn (regex_turn l)) (scan regex_cond regex_turn (regex_turn l')).
Proof.
  intros H. pose proof H as (Hw & _).
  apply (scan_near 1 regex_cond regex_turn regex_cond_left); auto using regex_turn_progress.
  - intros k k' Hk Hp. unfold regex_cond. by rewrite (near_ch1 _ _ Hk Hp).
  - intros k k' Hk _ _. by apply regex_turn_near.
  - by apply (moves_wf l), progress_moves, regex_turn_progress.
  - by apply regex_turn_near.
Qed.

(** What [readRegex] does once its loop is over. *)
Definition close_regex (pos : nat) (l : Lexer) : string * Lexer :=
  let l3 := if ch l =c "/" then l else add_err l UnterminatedRegex in
  (ReplaceAll (text_from l3 pos) "\/" "/", l3).

Lemma readRegex_unfold l :
  ch l <> byte0 ->
  readRegex l = close_regex (S (position l)) (scan regex_cond regex_turn (regex_turn l)).
Proof. intros Hc. unfold readRegex. by rewrite (proj2 (Ascii.eqb_neq _ _) Hc). Qed.

Lemma regex_scan_moves l : wf l -> moves (readChar l) (scan regex_cond regex_turn (regex_turn l)).
Proof.
  intros Hw. assert (Hr : moves (readChar l) (regex_turn l)) by (apply skipEscapedSlashes_moves; auto with txco).
  eapply moves_trans; [exact Hr|]. apply scan_moves; eauto using regex_turn_progress with txco.
Qed.

Lemma readRegex_near l l' : near l l' -> ~ past 1 l -> ch l <> byte0 -> nearbyB 1 (readRegex l) (readRegex l').
Proof.
  intros H Hp Hc. pose proof H as (Hw & Hw' & _).
  rewrite (readRegex_unfold l Hc), (readRegex_unfold l') by (by rewrite <- (near_ch1 _ _ H Hp)).
  destruct (past_dec 1 (scan regex_cond regex_turn (regex_turn l))) as [Hs|Hs].
  { left. unfold close_regex. case_bool; done. }
  destruct (regex_scan_near l l' H) as [|Hn]; [done|]. right. unfold close_regex.
  rewrite <- (near_ch1 _ _ Hn Hs).
  assert (Ht : text_from (scan regex_cond regex_turn (regex_turn l)) (S (position l)) =
               text_from (scan regex_cond regex_turn (regex_turn l')) (S (position l'))).
  { replace (S (position l)) with (position (readChar l)) by (by destruct Hw).
    replace (S (position l')) with (position (readChar l')) by (by destruct Hw').
    assert (Hm := regex_scan_moves l Hw). assert (Hm' := regex_scan_moves l' Hw').
    apply text_near; [|done..]. destruct (near_readChar l l' H) as [Hq|]; [|done].
    exfalso. apply Hs, (past_moves 1 (readChar l)); [by apply past_weaken|done]. }
  case_bool; (split; cbn; [f_equal; exact Ht|]); [done|by apply add_err_near].
Qed.

(** ** Tokens *)

Definition nearbyT (x y : Token * Lexer) : Prop :=
  past 0 x.2 \/ (x.1 = y.1 /\ near x.2 y.2 /\ LastToken x.2 = LastToken y.2).

Lemma finish_near t l l' : wf l -> nearby 1 l l' -> nearbyT (finish (t, l)) (finish (t, l')).
Proof. intros Hw H. destruct (nearby_readChar 0 l l' Hw H); [by left|right]. done. Qed.

Lemma finish_early_near t l l' : nearby 0 l l' -> nearbyT (finish_early (t, l)) (finish_early (t, l')).
Proof. intros [H|H]; [by left|right]. done. Qed.

Lemma reader_near ty x y :
  wf x.2 -> nearbyB 1 x y ->
  nearbyT (let '(lit, k) := x in finish (mkToken ty lit, k)) (let '(lit, k) := y in finish (mkToken ty lit, k)).
Proof.
  destruct x as [a l], y as [b l']. cbn. intros Hw [H|[E H]]; cbn in *; [left; by apply (past_readChar 0)|].
  subst. apply finish_near; [done|by right].
Qed.

Lemma early_near f x y :
  nearbyB 0 x y ->
  nearbyT (let '(lit, k) := x in finish_early (mkToken (f lit) lit, k))
          (let '(lit, k) := y in finish_early (mkToken (f lit) lit, k)).
Proof.
  destruct x as [a l], y as [b l']. intros [H|[E H]]; cbn in *; [by left|]. subst. apply finish_early_near. by right.
Qed.

Lemma tok1_near t l l' : near l l' -> ~ past 1 l -> nearbyT (tok1 t l) (tok1 t l').
Proof.
  intros H Hp. unfold tok1. rewrite (near_ch1 _ _ H Hp). apply finish_near; [apply H|by right].
Qed.

Lemma tok2_near t l l' : near l l' -> ~ past 1 l -> nearbyT (tok2 t l) (tok2 t l').
Proof.
  intros H Hp. pose proof H as (Hw & _). unfold tok2.
  destruct (past_dec 1 (readChar l)) as [H1|H1]; [left; apply (past_readChar 0 (readChar l)); auto with txco|].
  destruct (near_readChar l l' H) as [H2|H2]; [by destruct H1; apply past_weaken|].
  rewrite (near_ch1 _ _ H Hp), (near_ch1 _ _ H2 H1). apply finish_near; [auto with txco|by right].
Qed.

Lemma numberToken_near l l' : near l l' -> nearbyT (numberToken l) (numberToken l').
Proof.
  intros H. unfold numberToken. apply (early_near (fun lit => if Contains lit "." then FLOAT else INT)).
  by apply readNumber_near.
Qed.

(** An identifier does not end at the boundary. *)
Lemma identifier_inner l l' :
  near l l' -> ~ past 1 l -> near (readIdentifier l).2 (readIdentifier l').2 -> ~ past 1 (readIdentifier l).2.
Proof.
  intros H Hp Hm [Hr Hs]. pose proof H as (Hw & _).
  destruct (near_inner l l' H Hp) as [[? _]|(c & u & E & E' & Hu & Hz)]; [done|].
  pose proof Hm as (_ & _ & (v & Ev & _) & _).
  pose proof (ahead_rest _ _ _ (scan_bytes isIdentByte l eq_refl Hw)) as Ha. cbn in Ev, Hs.
  change (rest (scan (fun l => isIdentByte (ch l)) readChar l) = v ++ r)%string in Ev.
  change (slen (rest (scan (fun l => isIdentByte (ch l)) readChar l)) < slen r + 1) in Hs.
  rewrite Ev in Ha, Hs. rewrite slen_app in Hs. assert (v = EmptyString) as -> by (destruct v; [done|cbn in Hs; lia]).
  pose proof (span_while_app isIdentByte (rest l)) as Happ. pose proof (span_while_all isIdentByte (rest l)) as Hall.
  pose proof (sdrop_app (span_while isIdentByte (rest l)).1 (span_while isIdentByte (rest l)).2) as Hd.
  rewrite <- Happ in Hd. rewrite Hd in Ha. rewrite <- Ha in Happ. rewrite E in Happ at 1.
  assert (Hc : String c u = (span_while isIdentByte (rest l)).1) by (by apply (sapp_inj_r _ _ r)).
  rewrite <- Hc in Hall. destruct Hu as [?|[w Hu]]; [done|]. rewrite Hu, sall_app in Hall. cbn in Hall.
  bool_to_prop. revert Hz. unfold glue, isBranchChar. unfold isIdentByte in *.
  destruct (isLetter z), (is_dec z); done.
Qed.

(** The token that starts with the identifier just read. *)
Definition word_token (x : string * Lexer) : Token * Lexer :=
  let '(lit, l) := x in
  if (lit =s "b64") && (ch l =c DQ) then
    let '(raw, l) := readString l in finish_early (mkToken STRING (b64_encode raw), readChar l)
  else finish_early (mkToken (LookupIdent lit) lit, l).

Lemma word_token_moves x : wf x.2 -> moves x.2 (word_token x).2.
Proof.
  destruct x as [lit l]. cbn [snd]. intros Hw. unfold word_token. case_bool.
  - pose proof (readString_progress l Hw) as H. destruct (readString l) as [raw m]. cbn in *.
    assert (Hm : wf m) by eauto with txco. eapply moves_trans; [by apply progress_moves|]. exists 1. eapply set_last_ahead. by apply readChar_ahead.
  - exists 0. eapply set_last_ahead. by apply ahead_refl.
Qed.

Lemma word_token_near x y : nearB x y -> ~ past 1 x.2 -> nearbyT (word_token x) (word_token y).
Proof.
  destruct x as [lit l], y as [lit' l']. intros [E H] Hp. cbn in E, H, Hp. subst lit'. unfold word_token.
  rewrite <- (near_ch1 _ _ H Hp). case_bool; [|apply finish_early_near; by right].
  assert (Hw2 : wf (readString l).2) by (destruct H as (Hw & _); pose proof (readString_progress l Hw); eauto with txco).
  pose proof (readString_near l l' H) as Hs. destruct (readString l) as [a k], (readString l') as [a' k'].
  destruct Hs as [Hs|[E Hs]]; cbn in *; [left; by apply (past_readChar 0)|]. subst.
  apply finish_early_near. apply nearby_readChar; [done|by right].
Qed.

Lemma defaultToken_near l l' : near l l' -> ~ past 1 l -> nearbyT (defaultToken l) (defaultToken l').
Proof.
  intros H Hp. pose proof H as (Hw & _). unfold defaultToken. rewrite <- (near_ch1 _ _ H Hp).
  destruct (isLetter (ch l)) eqn:El.
  - change (nearbyT (word_token (readIdentifier l)) (word_token (readIdentifier l'))).
    assert (Hi : wf (readIdentifier l).2) by (pose proof (readIdentifier_progress l Hw El); eauto with txco).
    destruct (readIdentifier_near l l' H) as [Hq|Hq].
    + left. apply (past_moves 0 (readIdentifier l).2); [done|]. by apply word_token_moves.
    + apply word_token_near; [done|]. by apply (identifier_inner l l' H Hp), Hq.
  - case_bool; [by apply numberToken_near|by apply tok1_near].
Qed.

Lemma amp_near l l' :
  near l l' -> isLetter (peekChar l) = true ->
  nearbyT (let '(lit, k) := readIdentifier (readChar l) in finish_early (mkToken AMP_IDENT lit, k))
          (let '(lit, k) := readIdentifier (readChar l') in finish_early (mkToken AMP_IDENT lit, k)).
Proof.
  intros H Hl. pose proof H as (Hw & _).
  destruct (near_readChar l l' H) as [Hq|Hq].
  - left. pose proof (readIdentifier_progress (readChar l) ltac:(auto with txco) (near_next_letter l l' H Hl)) as Hm.
    destruct (readIdentifier (readChar l)) as [lit k]. cbn in *.
    by apply (past_moves 0 (readChar l)), progress_moves.
  - apply (early_near (fun _ => AMP_IDENT)). by apply readIdentifier_near.
Qed.

(** One byte to go: the byte after the current one is [&]. *)
Lemma near_peek2 l l' : near l l' -> ~ past 1 l -> (past 2 l /\ peekChar l = "&"%char) \/ peekChar l = peekChar l'.
Proof.
  intros H Hp. pose proof H as (Hw & Hw' & _). rewrite !peekChar_rest by done.
  destruct (near_inner l l' H Hp) as [[_ ->]|(c & u & E & E' & _)]; [by right|].
  destruct u as [|d u]; [|right; by rewrite E, E'].
  destruct sides as [[-> ->]|(t & t' & Hr & Hr' & _)]; [right; by rewrite E, E'|left].
  split; [split; [by rewrite Hr|rewrite E; cbn; lia]|]. by rewrite E, Hr.
Qed.

(** What of the last token decides the next one. *)
Definition kind (l : Lexer) : bool * bool :=
  (isBinding (Type_ (LastToken l)), tt_eqb (Type_ (LastToken l)) WHEN).

Lemma slash_nonzero c : (c =c "/") = true -> c <> byte0.
Proof. intros H ->. done. Qed.

Lemma tok2_past t l : wf l -> past 2 l -> past 0 (tok2 t l).2.
Proof. intros Hw H. apply (past_readChar 0 (readChar l)); [auto with txco|]. by apply (past_readChar 1). Qed.

Lemma scanToken_near l l' : near l l' -> ~ past 1 l -> kind l = kind l' -> nearbyT (scanToken l) (scanToken l').
Proof.
  intros H Hp Hk. unfold scanToken. fold (mark l). fold (mark l').
  assert (Hm : near (mark l) (mark l')) by done. assert (Hpm : ~ past 1 (mark l)) by done.
  change (LastToken (mark l)) with (LastToken l). change (LastToken (mark l')) with (LastToken l').
  unfold kind in Hk. injection Hk as Hk1 Hk2. rewrite <- Hk1, <- Hk2.
  rewrite <- (near_ch1 _ _ Hm Hpm).
  pose proof (near_peek (fun c => c =c "=") _ _ eq_refl Hm Hpm) as P1.
  pose proof (near_peek (fun c => c =c "~") _ _ eq_refl Hm Hpm) as P2.
  pose proof (near_peek isDigit _ _ eq_refl Hm Hpm) as P3.
  pose proof (near_peek isLetter _ _ eq_refl Hm Hpm) as P4.
  pose proof (near_peek (fun c => c =c "|") _ _ eq_refl Hm Hpm) as P5. cbn beta in P1, P2, P5.
  rewrite <- P1, <- P2, <- P3, <- P4, <- P5.
  pose proof (near_peek2 _ _ Hm Hpm) as P6. pose proof Hm as (Hw & _).
  set (k := mark l) in *. set (k' := mark l') in *. clearbody k k'.
  repeat match goal with
  | |- nearbyT (if ch k =c ?c then _ else _) _ => destruct (ch k =c c) eqn:?
  end;
  try (destruct P6 as [[P6 E6]|E6]; [rewrite E6 at 1; left; by apply tok2_past|rewrite <- E6]);
  repeat match goal with
  | |- nearbyT (if ?x then _ else _) _ => destruct x eqn:?
  end;
  first [ by apply tok1_near | by apply tok2_near | by apply defaultToken_near
        | by apply numberToken_near | by apply amp_near
        | apply reader_near; [|by apply readBranchString_near]; eauto using readBranchString_progress with txco
        | apply reader_near; [|by apply readAtBranchString_near]; eauto using readAtBranchString_progress with txco
        | apply reader_near; [|by apply readString_near]; eauto using readString_progress with txco
        | apply reader_near; [|apply readRegex_near; eauto using slash_nonzero]; eauto using readRegex_moves with txco
        | apply finish_near; [done|by right] ].
Qed.

(** Skipping keeps whatever [readChar] keeps. *)
Lemma skipTrivia_keeps {A : Type} (f : Lexer -> A) l : (forall k, f (readChar k) = f k) -> f (skipTrivia l) = f l.
Proof.
  intros Hf. assert (Hs : forall p k, f (scan p readChar k) = f k).
  { intros p k. unfold scan. apply (while_inv p readChar (fun l => f l = f k)); [|done].
    intros s E _. by rewrite Hf. }
  unfold skipTrivia, scan. apply (while_inv _ _ (fun k => f k = f l)).
  - intros s E _. unfold skipWhitespace, skipComment, skipWhitespace. by rewrite !Hs.
  - unfold skipWhitespace. by rewrite Hs.
Qed.

Lemma skipTrivia_last l : LastToken (skipTrivia l) = LastToken l.
Proof. by apply skipTrivia_keeps. Qed.
Lemma skipTrivia_errs l : errs (skipTrivia l) = errs l.
Proof. by apply skipTrivia_keeps. Qed.

Lemma scanToken_past l : wf l -> past 1 l -> past 0 (scanToken l).2.
Proof.
  intros Hw [Hr H]. split; [done|]. destruct (scanToken_progress l Hw) as (n & Ha & Hn).
  rewrite (ahead_rest _ _ _ Ha), slen_sdrop. change (rest (mark l)) with (rest l). pose proof (slen_pos r Hr). lia.
Qed.

(** A token read before the boundary is the same on both sides. *)
Lemma NextToken_near l l' : near l l' -> kind l = kind l' -> nearbyT (NextToken l) (NextToken l').
Proof.
  intros H Hk. pose proof H as (Hw & Hw' & _). unfold NextToken.
  assert (Hwt : wf (skipTrivia l)) by (pose proof (skipTrivia_moves l Hw); eauto with txco).
  destruct (past_dec 1 (skipTrivia l)) as [Hp|Hp]; [left; by apply scanToken_past|].
  destruct (skipTrivia_near l l' Hw ltac:(by right)) as [Ht|Ht]; [by destruct Hp; apply past_weaken|].
  apply scanToken_near; [done..|]. unfold kind. by rewrite !skipTrivia_last.
Qed.
End Boundary.

(** ** The lexer reads only what is left of the input *)

Definition same (l l' : Lexer) : Prop := wf l /\ wf l' /\ rest l = rest l'.

Lemma last_byte (s : string) : exists z, ends_in z s.
Proof.
  induction s as [|c s [z [->|[v ->]]]]; [by exists byte0; left|exists c; right; by exists EmptyString|].
  exists z. right. by exists (String c v).
Qed.

(** Two lexers with the same input left are near each other at its end. *)
Lemma same_near l l' : same l l' -> exists z, near EmptyString EmptyString z (errs l) (errs l') l l'.
Proof.
  intros (Hw & Hw' & E). destruct (last_byte (rest l)) as [z Hz]. exists z. split; [done|]. split; [done|]. split.
  - exists (rest l). by rewrite sapp_nil_r.
  - exists []. by rewrite !app_nil_r.
Qed.

Lemma near_same z e e' l l' : near EmptyString EmptyString z e e' l l' -> same l l'.
Proof. intros (Hw & Hw' & (u & E & E' & _) & _). split; [done|]. split; [done|]. congruence. Qed.

Lemma end_sides z : (("" = "" /\ "" = "") \/ (exists t t', "" = String "&" t /\ "" = String DQ t' /\ glue z = false))%string.
Proof. by left. Qed.

Lemma past_end k l : ~ past EmptyString k l.
Proof. by intros []. Qed.

Lemma same_readChar l l' : same l l' -> rest (readChar l) = rest (readChar l').
Proof.
  intros (Hw & Hw' & E).
  rewrite (ahead_rest 1 l (readChar l)), (ahead_rest 1 l' (readChar l')) by auto with txco. by rewrite E.
Qed.

Lemma run_loop_same s l l' :
  same l l' -> glue (ch l) = true ->
  (scanB run_cond run_step (s, l)).1 = (scanB run_cond run_step (s, l')).1 /\
  same (scanB run_cond run_step (s, l)).2 (scanB run_cond run_step (s, l')).2.
Proof.
  intros H Hg. destruct (same_near l l' H) as [z Hn].
  destruct (run_loop_near _ _ z (errs l) (errs l') (end_sides z) (s, l) (s, l')) as [Hp|[E Hr]]; [by split|done|by apply past_end in Hp|].
  split; [done|by apply near_same in Hr].
Qed.

(** What a token is, and where the next one starts, depends only on the bytes
    left and on the last token. *)
Lemma NextToken_same l l' :
  same l l' -> kind l = kind l' ->
  (NextToken l).1 = (NextToken l').1 /\ same (NextToken l).2 (NextToken l').2 /\
  LastToken (NextToken l).2 = LastToken (NextToken l').2.
Proof.
  intros H Hk. destruct (same_near l l' H) as [z Hn].
  destruct (NextToken_near _ _ _ _ _ (end_sides z) l l' Hn Hk) as [Hp|(E & Hr & El)]; [by apply past_end in Hp|].
  split; [done|]. split; [by apply near_same in Hr|done].
Qed.
