(* ===== verification/LexerRoundtrip.v ===== *)
(** * Round trips through the lexer

    Printing a string as a txcl literal and lexing it gives the string back;
    [@x] and [._txc.x] are the same token; the lexer reads only the bytes it has
    not consumed (and the type of the last token). *)

From Stdlib Require Import Ascii String ZArith Lia Bool.
From stdpp Require Import base tactics list strings.
From S2P Require Import Prelude GoStrings GoStrconv Token Lexer LexerFacts LexerLocal.

#[local] Arguments str_loop : simpl never.
#[local] Arguments readChar : simpl never.

Lemma str_loop_S n bl :
  str_loop (S n) bl = match str_turn bl with StrStop r => r | StrMore r => str_loop n r end.
Proof. reflexivity. Qed.

(** ** Stepping *)

Fixpoint adv (n : nat) (l : Lexer) : Lexer :=
  match n with 0 => l | S n => adv n (readChar l) end.

Lemma adv_add n m l : adv (n + m) l = adv m (adv n l).
Proof. revert l; induction n; intros; simpl; auto. Qed.

Lemma adv_ahead n l : wf l -> ahead n l (adv n l).
Proof.
  revert l; induction n as [|n IH]; intros l Hw; simpl; [auto with txco|].
  apply (ahead_trans 1 n l (readChar l)); auto with txco.
Qed.

Lemma adv_errs n l : errs (adv n l) = errs l /\ LastToken (adv n l) = LastToken l.
Proof. revert l; induction n as [|n IH]; intros l; simpl; [done|]. exact (IH (readChar l)). Qed.

Lemma rest_readChar l c s : wf l -> rest l = String c s -> rest (readChar l) = s.
Proof. intros Hw E. rewrite (ahead_rest 1 l) by auto with txco. by rewrite E. Qed.

Lemma ch_readChar l c s : wf l -> rest l = String c s -> ch (readChar l) = byte_at s 0.
Proof. intros Hw E. rewrite ch_rest by auto with txco. by rewrite (rest_readChar l c s). Qed.

(** ** String literals *)

(** A printer for string literals: the five escapes [readString] knows. *)
Definition escape_byte (c : ascii) : string :=
  if c =c DQ then String BSL (str1 DQ)
  else if c =c BSL then String BSL (str1 BSL)
  else if c =c LF then String BSL (str1 "n")
  else if c =c CR then String BSL (str1 "r")
  else if c =c TAB then String BSL (str1 "t")
  else str1 c.

Fixpoint escape_string (s : string) : string :=
  match s with
  | EmptyString => EmptyString
  | String c s => (escape_byte c ++ escape_string s)%string
  end.

Definition Quote (s : string) : string := (str1 DQ ++ escape_string s ++ str1 DQ)%string.

Definition nul_free (s : string) : bool := sall (fun c => negb (c =c byte0)) s.

(** One turn of [readString]'s loop on a printed byte writes that byte. *)
Lemma str_turn_escape acc l c c0 t :
  wf l -> c <> byte0 -> rest l = String c0 (escape_byte c ++ t)%string ->
  exists d s, str_turn (acc, l) = StrMore ((acc ++ str1 c)%string, adv (slen (escape_byte c)) l) /\
              rest (adv (slen (escape_byte c)) l) = String d s /\ s = t.
Proof.
  intros Hw Hc Hr.
  assert (H1 := ch_readChar l _ _ Hw Hr). assert (R1 := rest_readChar l _ _ Hw Hr).
  assert (Hw1 : wf (readChar l)) by auto with txco.
  revert H1 R1. unfold escape_byte.
  repeat case_bool; bool_to_prop; subst; simpl; intros H1 R1; unfold str_turn; simpl; rewrite H1; simpl;
    try (assert (H2 := ch_readChar _ _ _ Hw1 R1); assert (R2 := rest_readChar _ _ _ Hw1 R1);
         simpl in H2; rewrite ?H2; simpl; eauto).
  rewrite !(proj2 (Ascii.eqb_neq _ _)) by done. simpl. rewrite R1. eauto.
Qed.

Lemma readString_loop acc l s c0 t :
  wf l -> nul_free s = true -> rest l = String c0 (escape_string s ++ String DQ t)%string ->
  let n := S (slen (escape_string s)) in
  str_loop (S (S (bytes_left l))) (acc, l) = ((acc ++ s)%string, adv n l) /\
  rest (adv n l) = String DQ t.
Proof.
  revert acc l c0; induction s as [|c s IH]; intros acc l c0 Hw Hs Hr; simpl in *.
  - rewrite str_loop_unfold by done.
    assert (H1 := ch_readChar l _ _ Hw Hr). assert (R1 := rest_readChar l _ _ Hw Hr).
    simpl in *. unfold str_turn. simpl. rewrite H1. simpl. rewrite R1.
    by rewrite sapp_nil_r.
  - unfold nul_free in Hs. simpl in Hs. bool_to_prop. rewrite <- sapp_assoc in Hr.
    destruct (str_turn_escape acc l c c0 _ Hw ltac:(done) Hr) as (d & u & Ht & Hd & ->).
    rewrite str_loop_unfold, Ht by done. cbn [snd].
    set (k := slen (escape_byte c)) in *.
    assert (Hwk : wf (adv k l)) by (eapply ahead_wf; by apply adv_ahead).
    destruct (IH (acc ++ str1 c)%string (adv k l) d Hwk ltac:(done) Hd) as [-> Hr'].
    rewrite slen_app. fold k.
    assert (E : adv (slen (escape_string s)) (readChar (adv k l)) =
                adv (k + slen (escape_string s)) (readChar l)).
    { change (adv (S (slen (escape_string s))) (adv k l) = adv (S (k + slen (escape_string s))) l).
      rewrite <- adv_add. f_equal. lia. }
    rewrite <- sapp_assoc. simpl. rewrite <- E. auto.
Qed.

Lemma readString_quote l s t :
  wf l -> nul_free s = true -> rest l = (Quote s ++ t)%string ->
  readString l = (s, adv (S (slen (escape_string s))) l) /\
  rest (adv (S (slen (escape_string s))) l) = String DQ t.
Proof.
  intros Hw Hs Hr. unfold readString.
  apply (readString_loop "" l s DQ t Hw Hs). rewrite Hr. unfold Quote. simpl.
  by rewrite <- sapp_assoc.
Qed.

Lemma skipWhitespace_none l :
  wf l -> isSpace (ch l) = false -> skipWhitespace l = l.
Proof. intros Hw H. unfold skipWhitespace. rewrite (scan_bytes_unfold isSpace) by done. by rewrite H. Qed.

Lemma skipTrivia_none l :
  wf l -> isSpace (ch l) = false -> (ch l =c "#") = false -> skipTrivia l = l.
Proof.
  intros Hw H1 H2. unfold skipTrivia. rewrite skipWhitespace_none by done.
  rewrite (scan_unfold (fun l => ch l =c "#")); [by rewrite H2|apply hash_left| |done].
  apply comment_body_progress.
Qed.

(** The literal as a token, with the lexer at its opening quote. *)
Lemma scanToken_Quote l s t :
  wf l -> nul_free s = true -> rest l = (Quote s ++ t)%string ->
  (scanToken l).1 = mkToken STRING s /\ rest (scanToken l).2 = t /\ errs (scanToken l).2 = errs l /\
  LastToken (scanToken l).2 = mkToken STRING s /\ wf (scanToken l).2.
Proof.
  intros Hw Hs Hr.
  assert (Hc : ch l = DQ) by (rewrite ch_rest, Hr by done; done).
  unfold scanToken. fold (mark l). change (ch (mark l)) with (ch l). rewrite Hc. simpl.
  assert (Hwm : wf (mark l)) by done.
  destruct (readString_quote (mark l) s t Hwm Hs Hr) as [-> Hr'].
  set (l2 := adv _ _) in *. unfold finish. simpl. split; [done|].
  assert (Hw2 : wf l2) by (eapply ahead_wf; by apply adv_ahead).
  split; [by apply (rest_readChar l2 DQ)|]. split; [apply (proj1 (adv_errs _ (mark l)))|]. split; [done|].
  by apply readChar_wf.
Qed.

Lemma skipTrivia_quote l s t : wf l -> rest l = (Quote s ++ t)%string -> skipTrivia l = l.
Proof.
  intros Hw Hr. assert (Hc : ch l = DQ) by (rewrite ch_rest, Hr by done; done).
  apply skipTrivia_none; [done|by rewrite Hc|by rewrite Hc].
Qed.

(** a printed string literal lexes back to the string: whatever follows it,
    [Quote s] is one STRING token carrying [s], the lexer stops right after the
    closing quote, and no lexical error is recorded.  [s] may hold any byte but
    NUL, which the lexer takes for the end of the input. *)
Theorem string_literal_roundtrip l s t :
  wf l -> nul_free s = true -> rest l = (Quote s ++ t)%string ->
  let '(tok, l') := NextToken l in
  tok = mkToken STRING s /\ rest l' = t /\ errs l' = errs l.
Proof.
  intros Hw Hs Hr. unfold NextToken. rewrite (skipTrivia_quote l s t) by done.
  pose proof (scanToken_Quote l s t Hw Hs Hr) as (H1 & H2 & H3 & _).
  destruct (scanToken l). by repeat split.
Qed.

Lemma string_literal_roundtrip_witness :
  let l := NewLexer (Quote (String LF "a\b") ++ ", 1") in
  NextToken l = (mkToken STRING (String LF "a\b"), (NextToken l).2) /\
  rest (NextToken l).2 = ", 1".
Proof.
  intros l.
  pose proof (string_literal_roundtrip l (String LF "a\b") ", 1" (NewLexer_wf _) eq_refl eq_refl) as H.
  destruct (NextToken l) as [tok l']. destruct H as (-> & Hr & _). split; [reflexivity|exact Hr].
Defined.

(** Bytes a string literal carries as they are. *)
Definition plain_byte (c : ascii) : bool := negb ((c =c byte0) || (c =c DQ) || (c =c BSL)).

Lemma str_loop_plain acc l s c0 t :
  wf l -> sall plain_byte s = true -> rest l = String c0 (s ++ t)%string ->
  exists l' d, wf l' /\ rest l' = String d t /\ errs l' = errs l /\
    str_loop (S (S (bytes_left l))) (acc, l) = str_loop (S (S (bytes_left l'))) ((acc ++ s)%string, l').
Proof.
  revert acc l c0; induction s as [|c s IH]; intros acc l c0 Hw Hs Hr; simpl in *.
  - exists l, c0. rewrite sapp_nil_r. auto.
  - bool_to_prop. unfold plain_byte in H. bool_to_prop.
    assert (H1' := ch_readChar l _ _ Hw Hr). assert (R1 := rest_readChar l _ _ Hw Hr). simpl in *.
    rewrite str_loop_unfold by done. unfold str_turn. simpl. rewrite H1'.
    rewrite !(proj2 (Ascii.eqb_neq _ _)) by done. cbn [snd fst wr].
    destruct (IH (acc ++ str1 c)%string (readChar l) c ltac:(auto with txco) ltac:(done) R1)
      as (l' & d & Hw' & Hr' & He & Heq).
    exists l', d. rewrite <- sapp_assoc in Heq. auto.
Qed.

Lemma readString_lexer_errs s l :
  rest l = String DQ s -> wf l -> errs (NextToken l).2 = errs (readString (mark l)).2.
Proof.
  intros Hr Hw. assert (Hc : ch l = DQ) by (rewrite ch_rest, Hr by done; done).
  unfold NextToken. rewrite skipTrivia_none; [|done|by rewrite Hc|by rewrite Hc].
  unfold scanToken. fold (mark l). change (ch (mark l)) with (ch l). rewrite Hc. simpl.
  by destruct (readString (mark l)).
Qed.

(** an unterminated string that ends in a backslash is not reported.  For
    every byte string [s] without quote, backslash or NUL, a literal cut off
    after [s] records [UnterminatedString], as strict validation expects; the
    same text with one more backslash before the end of the input records
    nothing. *)
Theorem unterminated_backslash_unreported s :
  sall plain_byte s = true ->
  errs (NextToken (NewLexer (String DQ s))).2 = [UnterminatedString] /\
  errs (NextToken (NewLexer (String DQ (s ++ str1 BSL)))).2 = [].
Proof.
  intros Hs. split.
  - rewrite (readString_lexer_errs s) by (auto using NewLexer_rest with txco).
    set (l := mark _). assert (Hw : wf l) by apply NewLexer_wf.
    destruct (str_loop_plain "" l s DQ "" Hw Hs) as (l' & d & Hw' & Hr & He & Heq).
    { rewrite sapp_nil_r. apply NewLexer_rest. }
    unfold readString. rewrite Heq, str_loop_unfold by done.
    unfold str_turn, rd. cbn [fst snd]. rewrite (ch_readChar l' d "" Hw' Hr). simpl. by rewrite He.
  - rewrite (readString_lexer_errs (s ++ str1 BSL)) by (auto using NewLexer_rest with txco).
    set (l := mark _). assert (Hw : wf l) by apply NewLexer_wf.
    destruct (str_loop_plain "" l s DQ (str1 BSL) Hw Hs (NewLexer_rest _))
      as (l' & d & Hw' & Hr & He & Heq).
    unfold readString. rewrite Heq, str_loop_unfold by done.
    unfold str_turn, rd. cbn [fst snd].
    rewrite (ch_readChar l' d (str1 BSL) Hw' Hr). cbn -[readChar ch].
    rewrite (ch_readChar (readChar l') BSL ""); [|auto with txco|by apply (rest_readChar l' d)].
    simpl. by rewrite He.
Qed.

Lemma unterminated_backslash_unreported_witness :
  sall plain_byte "abc" = true /\
  errs (NextToken (NewLexer (String DQ ("abc" ++ str1 BSL)))).2 = [].
Proof.
  split; [reflexivity|]. exact (proj2 (unterminated_backslash_unreported "abc" eq_refl)).
Defined.

(** ** The [@] sugar *)

Lemma run_loop_byte acc l c d s :
  wf l -> rest l = String c (String d s) -> isBranchChar d = true ->
  scanB run_cond run_step (acc, l) = scanB run_cond run_step ((acc ++ str1 d)%string, readChar l).
Proof.
  intros Hw Hr Hd.
  assert (Hp : peekChar l = d) by (by rewrite peekChar_rest, Hr).
  assert (Hq : (d =c DQ) = false).
  { apply Ascii.eqb_neq. intros ->. done. }
  rewrite (scanB_unfold run_cond run_step run_cond_left run_body_progress (acc, l)) by done.
  unfold run_cond at 1. cbn [fst snd]. rewrite Hp, Hq, Hd. cbn [orb]. f_equal.
  unfold run_step. cbn [fst snd]. rewrite Hp, Hq. unfold wr, rd. cbn [fst snd].
  by rewrite (ch_readChar l c (String d s)).
Qed.

Lemma NextToken_at l :
  wf l -> ch l = "@"%char -> isLetter (peekChar l) = true ->
  NextToken l = let '(lit, l2) := readAtBranchString (mark l) in finish (mkToken BRANCH lit, l2).
Proof.
  intros Hw Hc Hp. unfold NextToken. rewrite skipTrivia_none by (by rewrite ?Hc).
  unfold scanToken. fold (mark l). change (ch (mark l)) with (ch l).
  change (peekChar (mark l)) with (peekChar l). by rewrite Hp, Hc.
Qed.

Lemma NextToken_dot l :
  wf l -> ch l = "."%char -> isLetter (peekChar l) = true ->
  NextToken l = let '(lit, l2) := readBranchString (mark l) in finish (mkToken BRANCH lit, l2).
Proof.
  intros Hw Hc Hp. unfold NextToken. rewrite skipTrivia_none by (by rewrite ?Hc).
  unfold scanToken. fold (mark l). change (ch (mark l)) with (ch l).
  change (peekChar (mark l)) with (peekChar l). by rewrite Hp, Hc.
Qed.

(** The [@] side, at the first byte of its body. *)
Lemma at_run l c r :
  wf l -> rest l = String "@" (String c r) ->
  readAtBranchString l = scanB run_cond run_step (("._txc." ++ str1 c)%string, readChar l).
Proof.
  intros Hw Hr. unfold readAtBranchString, scanBranchRun, wr, rd. cbn [fst snd].
  by rewrite (ch_readChar _ "@" (String c r)).
Qed.

(** The dotted side, stepped to the same byte. *)
Lemma dot_run l c r :
  wf l -> isBranchChar c = true -> rest l = ("._txc." ++ String c r)%string ->
  exists k, readBranchString l = scanB run_cond run_step (("._txc." ++ str1 c)%string, k) /\
            wf k /\ rest k = String c r.
Proof.
  intros Hw Hb Hr. assert (Hch : ch l = "."%char) by (by rewrite ch_rest, Hr).
  set (k1 := readChar l).
  assert (R1 : rest k1 = ("_txc." ++ String c r)%string) by (by apply (rest_readChar _ ".")).
  assert (W1 : wf k1) by (unfold k1; auto with txco).
  unfold readBranchString, scanBranchRun, wr, rd. cbn [fst snd]. fold k1. rewrite Hch.
  assert (ch k1 = "_"%char) as -> by (by rewrite ch_rest, R1).
  change (fun l => (peekChar l =c DQ) || isBranchChar (peekChar l)) with run_cond.
  clearbody k1. simpl in R1.
  do 5 (match goal with
        | |- exists k, scanB _ _ (?a, ?q) = _ /\ _ =>
            match goal with Hq : rest q = _, Wq : wf q |- _ =>
              rewrite (run_loop_byte a q _ _ _ Wq Hq) by done;
              pose proof (rest_readChar q _ _ Wq Hq);
              pose proof (readChar_wf q Wq);
              generalize dependent (readChar q); intros; simpl in * end
        end).
  eauto.
Qed.

(** [@path] is exactly [._txc.path].  Two lexers, one at [@] followed by [r],
    the other at [._txc.] followed by the same [r], where [r] starts with a
    letter, return the same BRANCH token and are left with the same input. *)
Theorem at_sugar l l' c r :
  wf l -> wf l' -> isLetter c = true ->
  rest l = String "@" (String c r) -> rest l' = ("._txc." ++ String c r)%string ->
  (NextToken l).1 = (NextToken l').1 /\ Type_ (NextToken l).1 = BRANCH /\
  rest (NextToken l).2 = rest (NextToken l').2.
Proof.
  intros Hw Hw' Hc Hr Hr'.
  assert (Hch : ch l = "@"%char) by (by rewrite ch_rest, Hr).
  assert (Hch' : ch l' = "."%char) by (by rewrite ch_rest, Hr').
  assert (Hb : isBranchChar c = true) by (unfold isBranchChar; by rewrite Hc).
  assert (Hm : wf (mark l)) by done. assert (Hm' : wf (mark l')) by done.
  change (rest l) with (rest (mark l)) in Hr. change (rest l') with (rest (mark l')) in Hr'.
  destruct (dot_run (mark l') c r Hm' Hb Hr') as (k & EB & Wk & Rk).
  assert (Hk : same (readChar (mark l)) k).
  { split; [auto with txco|]. split; [done|]. rewrite Rk. by apply (rest_readChar _ "@"). }
  assert (Hs : (readAtBranchString (mark l)).1 = (readBranchString (mark l')).1 /\
               same (readAtBranchString (mark l)).2 (readBranchString (mark l')).2).
  { rewrite (at_run (mark l) c r Hm Hr), EB. apply run_loop_same; [done|].
    rewrite (ch_readChar _ "@" (String c r)) by done. cbn. unfold glue. by rewrite Hb. }
  destruct (readAtBranchString (mark l)) as [s1 l1] eqn:E1.
  destruct (readBranchString (mark l')) as [s2 l2] eqn:E2. destruct Hs as [Hs1 Hs2]. simpl in Hs1, Hs2.
  rewrite (NextToken_at l), (NextToken_dot l'), E1, E2; auto.
  - subst. split; [done|]. split; [done|]. exact (same_readChar _ _ Hs2).
  - change (peekChar l') with (peekChar (mark l')). by rewrite peekChar_rest, Hr'.
  - change (peekChar l) with (peekChar (mark l)). by rewrite peekChar_rest, Hr.
Qed.

Lemma at_sugar_witness :
  let l := NewLexer "@web.res" in let l' := NewLexer "._txc.web.res" in
  (NextToken l).1 = (NextToken l').1 /\ Literal_ (NextToken l).1 = "._txc.web.res".
Proof.
  intros l l'. split; [|vm_compute; reflexivity].
  exact (proj1 (at_sugar l l' "w" "eb.res" (NewLexer_wf _) (NewLexer_wf _) eq_refl eq_refl eq_refl)).
Defined.
