(* ===== verification/Include.v ===== *)
(** * Includes (chassis/txcl/include/include.go)

    [&include("path")] in a rule text is replaced by the contents of a file,
    written as a string literal.  The expansion works on the text, on the byte
    spans the lexer reports.  The file system is a parameter: what [fs.Lstat] and
    [fs.ReadFile] answer for a path. *)

From Stdlib Require Import Ascii String ZArith Lia Bool.
From stdpp Require Import base tactics list strings.
From S2P Require Import Prelude GoStrings GoPath GoJson Token Lexer LexerFacts LexerLocal LexerRoundtrip.

(** ** Finding the directives *)

Definition MaxBytes : Z := 1048576.
Definition fn : string := "include".

Record Ref := mkRef { ref_Start : nat; ref_End : nat; ref_Path : string; ref_Line : nat }.

Inductive SynMsg := DoesNotLex (e : LexError) | NotOneQuotedPath.
Record SyntaxError := mkSyntax { syn_Line : nat; syn_Msg : SynMsg }.

Record spanTok := mkSpan { st_tok : Token; st_start : nat; st_end : nat }.

(** The tokens up to EOF and the lexer's errors; [None] when [n] is short. *)
Fixpoint lex_loop (n : nat) (l : Lexer) : option (list spanTok * list LexError) :=
  match n with
  | O => None
  | S n =>
      let '(tok, l) := NextToken l in
      if tt_eqb (Type_ tok) EOF then Some ([], errs l)
      else match lex_loop n l with
           | Some (out, er) => Some (mkSpan tok (Span l).1 (Span l).2 :: out, er)
           | None => None
           end
  end.

Definition lex (src : string) : option (list spanTok * list LexError) :=
  lex_loop (slen src + 2) (NewLexer src).

Definition is_directive (t : Token) : bool := tt_eqb (Type_ t) AMP_IDENT && (Literal_ t =s fn).

Fixpoint lines (s : string) : nat :=
  match s with EmptyString => 0 | String c s => (if c =c LF then 1 else 0) + lines s end.

(** [("path")]: the three tokens after the name. *)
Definition argument (src : string) (toks : list spanTok) : option (string * nat) :=
  match toks with
  | lp :: arg :: rp :: _ =>
      if tt_eqb (Type_ (st_tok lp)) LPAREN && tt_eqb (Type_ (st_tok arg)) STRING &&
         (byte_at src (st_start arg) =c DQ) && tt_eqb (Type_ (st_tok rp)) RPAREN
      then Some (Literal_ (st_tok arg), st_end rp) else None
  | _ => None
  end.

Fixpoint find_refs (src : string) (lexErrs : list LexError) (toks : list spanTok) : list Ref + SyntaxError :=
  match toks with
  | [] => inl []
  | t :: toks =>
      if is_directive (st_tok t) then
        let line := S (lines (stake (st_start t) src)) in
        match lexErrs with
        | e :: _ => inr (mkSyntax line (DoesNotLex e))
        | [] =>
            match argument src toks with
            | None => inr (mkSyntax line NotOneQuotedPath)
            | Some (path, stop) =>
                match find_refs src lexErrs toks with
                | inl refs => inl (mkRef (st_start t) stop path line :: refs)
                | inr e => inr e
                end
            end
        end
      else find_refs src lexErrs toks
  end.

Definition mentions (src : string) : bool := Contains src ("&" ++ fn).

Definition Find (src : string) : option (list Ref + SyntaxError) :=
  if negb (mentions src) then Some (inl [])
  else match lex src with
       | Some (toks, lexErrs) => Some (find_refs src lexErrs toks)
       | None => None
       end.

Definition Has (src : string) : option bool :=
  if negb (mentions src) then Some false
  else match lex src with
       | Some (toks, _) => Some (existsb (fun t => is_directive (st_tok t)) toks)
       | None => None
       end.

(** ** Reading a file *)

Inductive FileKind := Regular | Directory | Symlink | OtherKind.
Record FileInfo := mkInfo { fi_Kind : FileKind; fi_Size : Z }.
Inductive FsErr := ErrNotExist | OtherErr (text : string).
Record FS := mkFS { Lstat : string -> FileInfo + FsErr; ReadFile : string -> string + FsErr }.

Inductive ReadErr :=
  | EmptyPath
  | AbsolutePath
  | OutsideStack
  | NoSuchFile (p : string)
  | FsFailed (e : FsErr)
  | IsSymlink (cur : string)
  | NotRegular (p : string)
  | TooLarge (p : string) (n : Z)
  | NotUtf8 (p : string)
  | ContainsNul (p : string).

Definition bom : string := bytes [239; 187; 191].

Section Read.
Variable fsys : FS.

Fixpoint lstat_walk (p cur : string) (fi : FileInfo) (segs : list string) : FileInfo + ReadErr :=
  match segs with
  | [] => inl fi
  | seg :: segs =>
      let cur := Join cur seg in
      match Lstat fsys cur with
      | inr ErrNotExist => inr (NoSuchFile p)
      | inr e => inr (FsFailed e)
      | inl fi => match fi_Kind fi with Symlink => inr (IsSymlink cur) | _ => lstat_walk p cur fi segs end
      end
  end.

Definition check_text (p raw : string) : (string * string) + ReadErr :=
  if (MaxBytes <? Z.of_nat (slen raw))%Z then inr (TooLarge p (Z.of_nat (slen raw)))
  else let raw := TrimPrefix raw bom in
    if negb (utf8_valid raw) then inr (NotUtf8 p)
    else if ContainsByte raw byte0 then inr (ContainsNul p)
    else inl (p, raw).

(** A freshly declared [fi] is nil; [Split] returns at least one segment, so it
    is never the one looked at. *)
Definition nil_info : FileInfo := mkInfo OtherKind 0.

Definition read (stackDir dir rel : string) : (string * string) + ReadErr :=
  if rel =s "" then inr EmptyPath
  else if IsAbs rel then inr AbsolutePath
  else
    let p := Join dir rel in
    if negb (HasPrefix p (stackDir ++ "/")) then inr OutsideStack
    else match lstat_walk p stackDir nil_info (Split (TrimPrefix p (stackDir ++ "/")) "/") with
         | inr e => inr e
         | inl fi =>
             match fi_Kind fi with
             | Regular =>
                 if (MaxBytes <? fi_Size fi)%Z then inr (TooLarge p (fi_Size fi))
                 else match ReadFile fsys p with inr e => inr (FsFailed e) | inl raw => check_text p raw end
             | _ => inr (NotRegular p)
             end
         end.

(** ** Expanding *)

Inductive ExpandErr :=
  | BadSyntax (e : SyntaxError)
  | BadInclude (line : nat) (path : string) (e : ReadErr).

Fixpoint expand_loop (rd : string -> (string * string) + ReadErr) (src : string) (refs : list Ref)
    (out : string) (last : nat) (deps : list string) : (string * list string) + ExpandErr :=
  match refs with
  | [] => inl ((out ++ sdrop last src)%string, deps)
  | r :: refs =>
      match rd (ref_Path r) with
      | inr e => inr (BadInclude (ref_Line r) (ref_Path r) e)
      | inl (p, text) =>
          expand_loop rd src refs (out ++ sslice src last (ref_Start r) ++ Quote text)%string (ref_End r)
            (if bool_decide (p ∈ deps) then deps else deps ++ [p])
      end
  end.

Definition Expand (stackDir txclPath src : string) : option ((string * list string) + ExpandErr) :=
  match Find src with
  | None => None
  | Some (inr e) => Some (inr (BadSyntax e))
  | Some (inl []) => Some (inl (src, []))
  | Some (inl refs) => Some (expand_loop (read stackDir (Dir txclPath)) src refs "" 0 [])
  end.
End Read.
