(* ===== verification/IncludeFacts.v ===== *)
(** * Includes: confinement, and expansion seen as tokens

    [read] stays inside the stack directory and follows no symbolic link; the
    expanded text lexes to the tokens of the source with each directive replaced
    by a string literal holding the file's text. *)

From Stdlib Require Import Ascii String ZArith Lia Bool.
From stdpp Require Import base tactics list strings sets.
From S2P Require Import Prelude GoStrings GoPath GoJson Token Lexer LexerFacts LexerLocal LexerRoundtrip Include.

(** ** Confinement *)

(** [D/s1/.../sn] *)
Definition below (D : string) (segs : list string) : string :=
  foldl (fun cur s => cur ++ String "/" s)%string D segs.

Lemma below_concat D segs : segs <> [] -> below D segs = (D ++ String "/" (String.concat "/" segs))%string.
Proof.
  revert D; induction segs as [|s segs IH]; intros D H; [done|]. cbn [below foldl].
  destruct segs as [|s' segs]; [done|]. change (below (D ++ String "/" s) (s' :: segs) = (D ++ String "/" (s ++ String "/" (String.concat "/" (s' :: segs))))%string).
  rewrite IH by done. by rewrite <- !sapp_assoc.
Qed.

Section Confined.
Variable fsys : FS.

(** Every directory on the way, and the file, was looked at and is no link. *)
Definition no_link (q : string) : Prop := exists fi, Lstat fsys q = inl fi /\ fi_Kind fi <> Symlink.

Lemma lstat_walk_below p D fi segs fi' :
  dir_ok D -> Forall plain segs -> lstat_walk fsys p D fi segs = inl fi' ->
  (forall pre suf, segs = pre ++ suf -> pre <> [] -> no_link (below D pre)) /\
  (segs <> [] -> Lstat fsys (below D segs) = inl fi').
Proof.
  intros HD Hs. revert D fi HD. induction Hs as [|s segs Hs Hss IH]; intros D fi HD; cbn.
  { intros _. split; [|done]. intros [|? ?] suf E; [done|done]. }
  destruct (Join_below D s HD Hs) as [-> HD'].
  destruct (Lstat fsys (D ++ String "/" s)) as [fi1|[|]] eqn:El; [|done..]. intros H.
  assert (Hl : fi_Kind fi1 <> Symlink /\ lstat_walk fsys p (D ++ String "/" s) fi1 segs = inl fi') by (by destruct (fi_Kind fi1)).
  destruct Hl as [Hk Hw]. destruct (IH _ fi1 HD' Hw) as [H1 H2]. split.
  - intros pre suf E Hpre. destruct pre as [|s' pre]; [done|]. cbn in E. injection E as <- E.
    destruct pre as [|s2 pre]; [by exists fi1|]. by apply (H1 (s2 :: pre) suf).
  - intros _. destruct segs as [|s2 segs]; [|by apply H2]. cbn in Hw. by simplify_eq.
Qed.

Lemma ContainsByte_nul raw : ContainsByte raw byte0 = false -> nul_free raw = true.
Proof.
  unfold ContainsByte, nul_free. intros H. apply sany_false_iff in H. revert H. apply sall_impl. intros c.
  by rewrite Ascii.eqb_sym.
Qed.

(** an include stays in its stack.  A read that succeeds names a file
    [stackDir/s1/.../sn] whose components are ordinary names (none empty, [.],
    [..] or with a slash); every directory on the way and the file itself was
    looked at and none is a symbolic link; the file is regular, at most a mebibyte
    long, and what is returned is its contents less a leading byte order mark,
    UTF-8 without NUL.  The stack directory's name does not end in [..]. *)
Theorem read_confined stackDir dir rel p text :
  stackDir <> "" -> last (Split stackDir "/") <> Some ".." ->
  read fsys stackDir dir rel = inl (p, text) ->
  exists segs raw fi,
    segs <> [] /\ Forall plain segs /\ p = (stackDir ++ String "/" (String.concat "/" segs))%string /\
    (forall pre suf, segs = pre ++ suf -> pre <> [] ->
       no_link (stackDir ++ String "/" (String.concat "/" pre))) /\
    Lstat fsys p = inl fi /\ fi_Kind fi = Regular /\
    ReadFile fsys p = inl raw /\ text = TrimPrefix raw bom /\ (Z.of_nat (slen text) <= MaxBytes)%Z /\
    utf8_valid text = true /\ nul_free text = true.
Proof.
  intros Hne Hl. unfold read. destruct (rel =s "") eqn:Erel; [done|].
  destruct (IsAbs rel); [done|]. set (q := Join dir rel).
  destruct (HasPrefix q (stackDir ++ "/")) eqn:Hp; [cbn [negb]|done].
  apply prefix_iff in Hp as [t Hq]. 
  replace (TrimPrefix q (stackDir ++ "/")) with t by (by rewrite Hq, TrimPrefix_app).
  rewrite <- sapp_assoc in Hq. change ("/" ++ t)%string with (String "/" t) in Hq.
  assert (Hc : exists q', Clean q' = q).
  { unfold q, Join. rewrite Erel, andb_false_r. case_bool; eauto. }
  destruct Hc as [q' Hc]. rewrite Hq in Hc.
  destruct (Clean_below _ _ _ Hc Hne Hl) as [HD Hs]. pose proof (Split_not_nil t "/") as Hn.
  destruct (lstat_walk _ _ _ _ _) as [fi|] eqn:Ew; [|done].
  destruct (lstat_walk_below _ _ _ _ _ HD Hs Ew) as [H1 H2]. specialize (H2 Hn).
  rewrite below_concat, concat_Split, <- Hq in H2 by done.
  destruct (fi_Kind fi) eqn:Ek; try done. case_bool; [done|].
  destruct (ReadFile fsys q) as [raw|] eqn:Er; [|done]. unfold check_text.
  destruct (MaxBytes <? Z.of_nat (slen raw))%Z eqn:Esz; [done|].
  destruct (utf8_valid (TrimPrefix raw bom)) eqn:Eu; [|done].
  destruct (ContainsByte (TrimPrefix raw bom) byte0) eqn:Ez; [done|]. cbn [negb]. intros [= <- <-].
  exists (Split t "/"), raw, fi. rewrite concat_Split. repeat split; try done.
  - intros pre suf E Hpre. rewrite <- below_concat by done. by apply (H1 pre suf).
  - apply Z.ltb_ge in Esz. unfold TrimPrefix. case_bool; [rewrite slen_sdrop|]; lia.
  - by apply ContainsByte_nul.
Qed.
End Confined.

(** ** The directive's token *)

#[local] Arguments readIdentifier : simpl never.
#[local] Arguments readChar : simpl never.

Lemma LookupIdent_not_amp s : LookupIdent s <> AMP_IDENT.
Proof.
  unfold LookupIdent. destruct (List.find _ _) as [[k t]|] eqn:E; [|done].
  apply List.find_some in E as [E _]. simpl in *. repeat (destruct E as [E|E]; [by simplify_eq|]). done.
Qed.

Lemma finish_type (x : string * Lexer) ty :
  Type_ (let '(lit, k) := x in finish (mkToken ty lit, k)).1 = ty.
Proof. by destruct x. Qed.

Lemma defaultToken_not_amp l : Type_ (defaultToken l).1 <> AMP_IDENT.
Proof.
  unfold defaultToken. destruct (isLetter (ch l)).
  - destruct (readIdentifier l) as [lit k]. case_bool; [by destruct (readString k)|apply LookupIdent_not_amp].
  - case_bool; [|done]. unfold numberToken. destruct (readNumber l) as [lit k]. cbn. by case_bool.
Qed.

Lemma numberToken_not_amp l : Type_ (numberToken l).1 <> AMP_IDENT.
Proof. unfold numberToken. destruct (readNumber l) as [lit k]. cbn. by case_bool. Qed.

Lemma readIdentifier_rest l : wf l -> ((readIdentifier l).1 ++ rest (readIdentifier l).2)%string = rest l.
Proof.
  intros Hw. pose proof (scan_bytes isIdentByte l eq_refl Hw) as Ha.
  change ((text_from (scan (fun l => isIdentByte (ch l)) readChar l) (position l) ++
           rest (scan (fun l => isIdentByte (ch l)) readChar l))%string = rest l).
  rewrite (text_from_ahead _ _ _ Ha), (ahead_rest _ _ _ Ha). apply stake_sdrop.
Qed.

Lemma rest_cons l c : wf l -> ch l = c -> c <> byte0 -> rest l = String c (rest (readChar l)).
Proof.
  intros Hw <- Hc. rewrite (ahead_rest 1 l (readChar l)) by auto with txco. rewrite ch_rest in * by done.
  destruct (rest l) as [|d s]; [done|]. cbn. by destruct s.
Qed.

Lemma scanToken_amp l :
  wf l -> Type_ (scanToken l).1 = AMP_IDENT ->
  rest l = String "&" (Literal_ (scanToken l).1 ++ rest (scanToken l).2).
Proof.
  intros Hw. unfold scanToken. fold (mark l). change (rest l) with (rest (mark l)).
  assert (Hm : wf (mark l)) by done. set (k := mark l) in *. clearbody k.
  destruct (ch k =c "&") eqn:Ea.
  - apply Ascii.eqb_eq in Ea. rewrite Ea. cbn [Ascii.eqb Bool.eqb andb]. cbn.
    destruct (peekChar k =c "&"); [done|]. destruct (isLetter (peekChar k)); [|done]. intros _.
    rewrite (rest_cons k "&") by done. f_equal.
    pose proof (readIdentifier_rest (readChar k) ltac:(auto with txco)) as Hr.
    destruct (readIdentifier (readChar k)) as [lit m]. cbn in *. by rewrite <- Hr.
  - intros H. exfalso. revert H.
    repeat match goal with
    | |- Type_ (fst (if ?x then _ else _)) = _ -> _ => destruct x
    end;
    first [ done | rewrite finish_type; done | by intros H%numberToken_not_amp | by intros H%defaultToken_not_amp ].
Qed.

(** ** Positions of tokens *)

Lemma NextToken_pos l : wf l ->
  wf (skipTrivia l) /\ wf (NextToken l).2 /\ input (skipTrivia l) = input l /\ input (NextToken l).2 = input l /\
  position l <= position (skipTrivia l) <= position (NextToken l).2 /\
  start (NextToken l).2 = min (position (skipTrivia l)) (slen (input l)).
Proof.
  intros Hw. destruct (skipTrivia_moves l Hw) as (m & Hw1 & Hi1 & Hp1 & _).
  destruct (NextToken_progress l Hw) as (n & (Hw2 & Hi2 & Hp2 & Hs2) & _). unfold mark in *. cbn in *.
  split_and!; try done; try lia; congruence.
Qed.

Lemma NextToken_errs l : wf l -> exists x, errs (NextToken l).2 = errs l ++ x.
Proof.
  intros Hw. destruct (same_near l l) as [z Hn]; [done|].
  destruct (NextToken_near _ _ z (errs l) (errs l) (end_sides z) l l Hn eq_refl) as [H|(_ & (_ & _ & _ & x & E & _) & _)];
    [by apply past_end in H|by exists x].
Qed.

(** One turn of [lex_loop]. *)
Lemma lex_loop_cons n l t toks er :
  lex_loop n l = Some (t :: toks, er) ->
  exists n', n = S n' /\ Type_ (NextToken l).1 <> EOF /\ st_tok t = (NextToken l).1 /\
    st_start t = start (NextToken l).2 /\ st_end t = (Span (NextToken l).2).2 /\
    lex_loop n' (NextToken l).2 = Some (toks, er).
Proof.
  destruct n as [|n]; [done|]. cbn. destruct (NextToken l) as [tok l'] eqn:E. unfold tt_eqb. case_bool_decide; [done|].
  destruct (lex_loop n l') as [[out er']|] eqn:El; [|done]. intros [= <- <- <-]. exists n. cbn. by rewrite El.
Qed.

Lemma lex_loop_nil n l er :
  lex_loop n l = Some ([], er) -> Type_ (NextToken l).1 = EOF /\ er = errs (NextToken l).2.
Proof.
  destruct n as [|n]; [done|]. cbn. destruct (NextToken l) as [tok l'] eqn:E. unfold tt_eqb. case_bool_decide; [by intros [= <-]|].
  by destruct (lex_loop n l') as [[out er']|].
Qed.

Lemma lex_loop_total n l : wf l -> bytes_left l < n -> is_Some (lex_loop n l).
Proof.
  revert l; induction n as [|n IH]; intros l Hw Hn; [lia|]. cbn.
  pose proof (NextToken_not_EOF l Hw) as Hd. pose proof (NextToken_wf l Hw) as Hw'.
  destruct (NextToken l) as [t l']. cbn in *. unfold tt_eqb. case_bool_decide as E; [done|].
  destruct (IH l' Hw') as [[out er] ->]; [specialize (Hd E); lia|done].
Qed.

Lemma lex_loop_errs n l toks er : wf l -> lex_loop n l = Some (toks, er) -> exists x, er = errs l ++ x.
Proof.
  revert n l; induction toks as [|t toks IH]; intros n l Hw H.
  - destruct (lex_loop_nil _ _ _ H) as [_ ->]. by apply NextToken_errs.
  - destruct (lex_loop_cons _ _ _ _ _ H) as (n' & _ & _ & _ & _ & _ & H'). destruct (NextToken_errs l Hw) as [x Hx].
    destruct (IH _ _ (NextToken_wf l Hw) H') as [y ->]. exists (x ++ y). by rewrite Hx, (assoc_L (++)).
Qed.

(** A token starts at or after [p], and a directive's token is its own text. *)
Definition tok_ok (src : string) (p : nat) (t : spanTok) : Prop :=
  min p (slen src) <= st_start t /\
  (is_directive (st_tok t) = true -> exists w, sdrop (st_start t) src = ("&" ++ fn ++ w)%string).

Lemma is_directive_text t : is_directive t = true -> Type_ t = AMP_IDENT /\ Literal_ t = fn.
Proof. unfold is_directive, tt_eqb. intros H. bool_to_prop. case_bool_decide; done. Qed.

Lemma directive_rest l : wf l -> is_directive (NextToken l).1 = true ->
  rest (skipTrivia l) = ("&" ++ fn ++ rest (NextToken l).2)%string.
Proof.
  intros Hw Hd. destruct (is_directive_text _ Hd) as [Ht Hl].
  rewrite (scanToken_amp (skipTrivia l)); [|by apply NextToken_pos|done].
  change (scanToken (skipTrivia l)) with (NextToken l). by rewrite Hl.
Qed.

Lemma directive_position l : wf l -> is_directive (NextToken l).1 = true -> position (skipTrivia l) < slen (input l).
Proof.
  intros Hw Hd. destruct (NextToken_pos l Hw) as (_ & _ & Hi & _).
  pose proof (f_equal slen (directive_rest l Hw Hd)) as H. unfold rest at 1 in H. rewrite slen_sdrop, Hi, slen_app in H.
  change (slen "&") with 1 in H. lia.
Qed.

Lemma lex_loop_ok n l toks er : wf l -> lex_loop n l = Some (toks, er) -> Forall (tok_ok (input l) (position l)) toks.
Proof.
  revert n l; induction toks as [|t toks IH]; intros n l Hw H; [done|].
  destruct (lex_loop_cons _ _ _ _ _ H) as (n' & _ & _ & Ht & Hs & _ & H').
  destruct (NextToken_pos l Hw) as (Hw1 & Hw2 & Hi1 & Hi2 & Hp & Hst).
  constructor.
  - split; [rewrite Hs, Hst; lia|]. rewrite Ht, Hs, Hst. intros Hd. exists (rest (NextToken l).2).
    rewrite Nat.min_l by (pose proof (directive_position l Hw Hd); lia). rewrite <- Hi1. by apply directive_rest.
  - specialize (IH _ _ Hw2 H'). rewrite Hi2 in IH. eapply Forall_impl; [exact IH|].
    intros t' [H1 H2]. split; [lia|done].
Qed.

(** ** The expanded text *)

Fixpoint splice_text (src : string) (p : nat) (items : list (Ref * string)) : string :=
  match items with
  | [] => sdrop p src
  | (r, x) :: items => (sslice src p (ref_Start r) ++ Quote x ++ splice_text src (ref_End r) items)%string
  end.

Lemma expand_loop_spec rd src refs out last deps o ds :
  expand_loop rd src refs out last deps = inl (o, ds) ->
  exists files, Forall2 (fun r f => rd (ref_Path r) = inl f) refs files /\
    o = (out ++ splice_text src last (zip refs files.*2))%string /\
    (NoDup deps -> NoDup ds) /\ (forall p, p ∈ ds <-> p ∈ deps \/ p ∈ files.*1).
Proof.
  revert out last deps; induction refs as [|r refs IH]; intros out last deps; cbn [expand_loop].
  - intros [= <- <-]. exists []. cbn. split_and!; [done..|]. intros p. set_solver.
  - destruct (rd (ref_Path r)) as [[p x]|] eqn:Er; [|done]. intros H.
    destruct (IH _ _ _ H) as (files & HF & -> & Hnd & Hin). exists ((p, x) :: files). split; [by constructor|].
    rewrite !fmap_cons. cbn [zip_with splice_text fst snd]. split; [by rewrite <- !sapp_assoc|]. split.
    + intros Hd. apply Hnd. case_bool_decide; [done|]. apply NoDup_app. split; [done|]. split; [set_solver|apply NoDup_singleton].
    + intros q. rewrite Hin. case_bool_decide; set_solver.
Qed.

(** The byte before a directive is not one a literal would be glued to. *)
Definition before (src : string) (s : nat) : ascii := match s with O => " "%char | S i => byte_at src i end.
Definition unglued (src : string) (s : nat) : bool := negb (glue (before src s)).

Lemma sslice_split src p s : p <= s -> sdrop p src = (sslice src p s ++ sdrop s src)%string.
Proof.
  intros H. unfold sslice. rewrite <- (stake_sdrop (s - p) (sdrop p src)) at 1. rewrite sdrop_sdrop. do 2 f_equal. lia.
Qed.

Lemma sslice_ends src p s : p <= s <= slen src -> ends_in (before src s) (sslice src p s).
Proof.
  intros H. destruct s as [|i]; [left; unfold sslice; by destruct (sdrop p src)|].
  destruct (decide (p = S i)) as [->|Hne]; [left; unfold sslice; by rewrite Nat.sub_diag; destruct (sdrop _ _)|].
  right. exists (sslice src p i). unfold sslice, before. replace (S i - p) with ((i - p) + 1) by lia.
  rewrite stake_add, sdrop_sdrop. f_equal. replace (p + (i - p)) with i by lia.
  rewrite byte_at_sdrop. destruct (sdrop i src) as [|c t] eqn:E; [|by destruct t].
  apply sdrop_nil_iff in E. lia.
Qed.

Section Step.
Context (src : string) (l1 l2 : Lexer) (items : list (Ref * string)).
Hypothesis (W1 : wf l1) (W2 : wf l2) (HI : input l1 = src).
Hypothesis (HE : errs l1 = errs l2) (HR : rest l2 = splice_text src (position l1) items).

(** Where the next directive is. *)
Definition next_directive (r : Ref) (p : nat) : Prop :=
  min p (slen src) <= ref_Start r /\ unglued src (ref_Start r) = true /\
  exists w, sdrop (ref_Start r) src = ("&" ++ fn ++ w)%string.

Lemma next_directive_le r p : next_directive r p -> p <= ref_Start r < slen src.
Proof.
  intros (H & _ & w & Hw). assert (Hs : ref_Start r < slen src); [|lia].
  destruct (decide (ref_Start r < slen src)) as [|Hn]; [done|]. exfalso.
  assert (E : sdrop (ref_Start r) src = "") by (apply sdrop_nil_iff; lia). by rewrite E in Hw.
Qed.

(** The two lexers stand before the next directive, or before the end. *)
Definition tail1 : string := match items with [] => "" | (r, _) :: _ => sdrop (ref_Start r) src end.
Definition tail2 : string :=
  match items with [] => "" | (r, x) :: items => Quote x ++ splice_text src (ref_End r) items end%string.

Lemma step_near :
  match items with [] => True | (r, _) :: _ => next_directive r (position l1) end ->
  exists z,
    ((tail1 = "" /\ tail2 = "") \/ (exists t t', tail1 = String "&" t /\ tail2 = String DQ t' /\ glue z = false)) /\
    near tail1 tail2 z (errs l1) (errs l1) l1 l2.
Proof.
  intros H. assert (H1 : rest l1 = sdrop (position l1) src) by (unfold rest; by rewrite HI).
  assert (Hx : exists x, errs l1 = errs l1 ++ x /\ errs l2 = errs l1 ++ x) by (exists []; by rewrite app_nil_r, HE).
  unfold tail1, tail2. destruct items as [|[r x] its]; cbn in HR.
  - destruct (last_byte (rest l1)) as [z Hz]. exists z. split; [by left|]. split_and!; [done..| |done].
    exists (rest l1). rewrite !sapp_nil_r. split_and!; [done|by rewrite HR, H1|done].
  - pose proof (next_directive_le r _ H) as Hle. destruct H as (_ & Hg & w & Hw).
    exists (before src (ref_Start r)). split.
    + right. unfold unglued in Hg. apply negb_true_iff in Hg. rewrite Hw. cbn. by eauto.
    + split_and!; [done..| |done]. exists (sslice src (position l1) (ref_Start r)).
      rewrite <- sslice_split by lia. split; [done|]. split; [done|]. apply sslice_ends. lia.
Qed.

Lemma near_splice m1 m2 z e :
  input m1 = src -> match items with [] => True | (r, _) :: _ => position m1 <= ref_Start r end ->
  near tail1 tail2 z e e m1 m2 -> rest m2 = splice_text src (position m1) items.
Proof.
  unfold tail1, tail2. intros Hi Hp (_ & _ & (u & E & E' & _) & _).
  assert (H1 : rest m1 = sdrop (position m1) src) by (unfold rest; by rewrite Hi).
  destruct items as [|[r x] its]; cbn; [by rewrite E', <- H1, E|]. rewrite E'. f_equal.
  apply (sapp_inj_r _ _ (sdrop (ref_Start r) src)). by rewrite <- sslice_split, <- H1.
Qed.

(** A token that is not a directive. *)
Lemma step_token :
  kind l1 = kind l2 ->
  match items with
  | [] => True
  | (r, _) :: _ => next_directive r (position l1) /\ position (NextToken l1).2 <= ref_Start r
  end ->
  (NextToken l1).1 = (NextToken l2).1 /\ errs (NextToken l1).2 = errs (NextToken l2).2 /\
  LastToken (NextToken l1).2 = LastToken (NextToken l2).2 /\
  rest (NextToken l2).2 = splice_text src (position (NextToken l1).2) items.
Proof.
  intros Hk H. destruct (NextToken_pos l1 W1) as (_ & _ & _ & Hi & _).
  destruct step_near as (z & Hs & Hn); [destruct items as [|[r x] its]; [done|by apply H]|].
  destruct (NextToken_near _ _ z _ _ Hs l1 l2 Hn Hk) as [[Hne Hp]|(Et & Hr & El)].
  - exfalso. unfold tail1 in *. destruct items as [|[r x] its]; [done|]. destruct H as [Hd Hle].
    unfold rest in Hp. rewrite Hi, HI, !slen_sdrop in Hp. lia.
  - split; [done|]. pose proof Hr as (_ & _ & _ & x & E1 & E2). split; [congruence|]. split; [done|].
    apply (near_splice _ _ z (errs l1)); [congruence| |done]. destruct items as [|[r y] its]; [done|by apply H].
Qed.
End Step.

(** A directive: the other side reads the literal. *)
Lemma step_directive src l1 l2 r x items :
  wf l1 -> wf l2 -> input l1 = src -> errs l1 = errs l2 ->
  rest l2 = splice_text src (position l1) ((r, x) :: items) ->
  next_directive src r (position l1) -> nul_free x = true -> position (skipTrivia l1) = ref_Start r ->
  (NextToken l2).1 = mkToken STRING x /\ LastToken (NextToken l2).2 = mkToken STRING x /\
  errs (NextToken l2).2 = errs l1 /\ rest (NextToken l2).2 = splice_text src (ref_End r) items.
Proof.
  intros W1 W2 HI HE HR Hd Hx Hpos.
  destruct (step_near src l1 l2 ((r, x) :: items) W1 W2 HI HE HR Hd) as (z & Hs & Hn).
  pose proof (next_directive_le _ _ _ Hd) as Hle. destruct (NextToken_pos l1 W1) as (Wt & _ & Hit & _).
  assert (Hr1 : rest (skipTrivia l1) = sdrop (ref_Start r) src) by (unfold rest; by rewrite Hit, HI, Hpos).
  destruct (skipTrivia_near _ _ z _ _ Hs l1 l2 W1 ltac:(by right)) as [[_ Hp]|(_ & Wt2 & (u & E & E' & _) & e & Ee & Ee')].
  { rewrite Hr1 in Hp. unfold tail1 in Hp. lia. }
  unfold tail1, tail2 in E, E'. assert (u = "") as ->.
  { rewrite Hr1 in E. apply (f_equal slen) in E. rewrite slen_app in E. destruct u; [done|cbn in E; lia]. }
  pose proof (skipTrivia_errs l1) as He.
  destruct (scanToken_Quote (skipTrivia l2) x _ Wt2 Hx E') as (H1 & H2 & H3 & H4 & _). unfold NextToken.
  split; [done|]. split; [done|]. split; [|done]. rewrite H3, Ee', <- Ee, He. done.
Qed.

(** ** Expansion as tokens *)

(** Each directive, its name and three more tokens, replaced by a literal. *)
Fixpoint splice_tokens (texts : list string) (toks : list Token) : list Token :=
  match toks with
  | [] => []
  | t :: ts =>
      if is_directive t then
        match texts, ts with
        | x :: texts, _ :: _ :: _ :: ts' => mkToken STRING x :: splice_tokens texts ts'
        | _, _ => t :: ts
        end
      else t :: splice_tokens texts ts
  end.

Lemma NextToken_last l : LastToken (NextToken l).2 = (NextToken l).1.
Proof.
  unfold NextToken. generalize (skipTrivia l) as k. clear l. intros k. unfold scanToken. fold (mark k). generalize (mark k) as m.
  assert (Hn : forall m, LastToken (numberToken m).2 = (numberToken m).1).
  { intros m. unfold numberToken. by destruct (readNumber m). }
  assert (Hr : forall (x : string * Lexer) ty, LastToken (let '(lit, k) := x in finish (mkToken ty lit, k)).2 =
                                      (let '(lit, k) := x in finish (mkToken ty lit, k)).1) by (by intros []).
  intros m. repeat match goal with
  | |- LastToken (snd (if ?x then _ else _)) = _ => destruct x
  end; first [done|apply Hr|apply Hn|by destruct (readIdentifier (readChar m))|idtac].
  unfold defaultToken. destruct (isLetter (ch m)); [|case_bool; [apply Hn|done]].
  destruct (readIdentifier m) as [lit q]. case_bool; [by destruct (readString q)|done].
Qed.

Lemma find_refs_ok src p er toks refs :
  Forall (tok_ok src p) toks -> find_refs src er toks = inl refs ->
  Forall (fun r => unglued src (ref_Start r) = true) refs -> Forall (fun r => next_directive src r p) refs.
Proof.
  intros H. revert refs. induction H as [|t toks [Hp Hd] _ IH]; intros refs; cbn [find_refs]; [by intros [= <-]|].
  destruct (is_directive (st_tok t)); [|by apply IH]. destruct er; [|done].
  destruct (argument src toks) as [[path stop]|]; [|done].
  destruct (find_refs src [] toks) as [refs'|]; [|done]. intros [= <-] Hg. inversion_clear Hg as [|? ? Hg1 Hg2].
  constructor; [split_and!; [done|done|by apply Hd]|by apply IH].
Qed.

Lemma sslice_min src p s : sslice src (min p (slen src)) s = sslice src p s.
Proof.
  destruct (decide (p <= slen src)); [by rewrite Nat.min_l|]. unfold sslice.
  rewrite (proj2 (sdrop_nil_iff src p)), (proj2 (sdrop_nil_iff src (min p (slen src)))) by lia.
  by destruct (s - min p (slen src)), (s - p).
Qed.

Lemma splice_text_min src p items : splice_text src (min p (slen src)) items = splice_text src p items.
Proof.
  destruct items as [|[r x] items]; cbn; [|by rewrite sslice_min].
  destruct (decide (p <= slen src)); [by rewrite Nat.min_l|].
  by rewrite (proj2 (sdrop_nil_iff src p)), (proj2 (sdrop_nil_iff src (min p (slen src)))) by lia.
Qed.

Lemma not_directive t ty : Type_ t = ty -> ty <> AMP_IDENT -> is_directive t = false.
Proof. intros H Hn. unfold is_directive, tt_eqb. rewrite bool_decide_eq_false_2; [done|congruence]. Qed.

(** The three tokens of the argument hold no directive. *)
Lemma argument_inv src toks path stop er refs :
  argument src toks = Some (path, stop) -> find_refs src er toks = inl refs ->
  exists lp arg rp ts, toks = lp :: arg :: rp :: ts /\ stop = st_end rp /\ Type_ (st_tok rp) = RPAREN /\
    find_refs src er ts = inl refs.
Proof.
  unfold argument. destruct toks as [|lp [|arg [|rp ts]]]; try done. intros H.
  destruct (_ && _) eqn:E in H; [|done]. injection H as _ <-. unfold tt_eqb in E. bool_to_prop.
  repeat match goal with H : bool_decide _ = true |- _ => apply bool_decide_eq_true in H end.
  cbn [find_refs]. rewrite (not_directive (st_tok lp) LPAREN), (not_directive (st_tok arg) STRING),
    (not_directive (st_tok rp) RPAREN) by done. intros Hf. by exists lp, arg, rp, ts.
Qed.

Lemma kind_of_type l l' t t' :
  Type_ (LastToken l) = t -> Type_ (LastToken l') = t' ->
  isBinding t = isBinding t' -> tt_eqb t WHEN = tt_eqb t' WHEN -> kind l = kind l'.
Proof. unfold kind. by intros -> -> -> ->. Qed.

(** What a lexer gives, whatever the number of turns. *)
Definition lexes (l : Lexer) (toks : list spanTok) (er : list LexError) : Prop :=
  forall m, bytes_left l < m -> lex_loop m l = Some (toks, er).

Lemma lexes_cons l toks er :
  wf l -> Type_ (NextToken l).1 <> EOF -> lexes (NextToken l).2 toks er ->
  exists t, st_tok t = (NextToken l).1 /\ lexes l (t :: toks) er.
Proof.
  intros Hw Hne H. pose proof (NextToken_not_EOF l Hw Hne) as Hd.
  exists (mkSpan (NextToken l).1 (Span (NextToken l).2).1 (Span (NextToken l).2).2). split; [done|].
  intros [|m] Hm; [lia|]. cbn. destruct (NextToken l) as [t l']. cbn in *. unfold tt_eqb.
  rewrite bool_decide_eq_false_2 by done. by rewrite H by lia.
Qed.

Lemma lexes_nil l : wf l -> Type_ (NextToken l).1 = EOF -> lexes l [] (errs (NextToken l).2).
Proof.
  intros Hw He [|m] Hm; [lia|]. cbn. destruct (NextToken l) as [t l']. cbn in *. unfold tt_eqb.
  by rewrite bool_decide_eq_true_2.
Qed.

Section Simulation.
Context (src : string).
Implicit Types (refs : list Ref) (texts : list string).

(** The lexer of the source and the lexer of the expanded text, in step. *)
Definition in_step (l1 l2 : Lexer) refs texts : Prop :=
  wf l1 /\ wf l2 /\ input l1 = src /\ kind l1 = kind l2 /\ errs l1 = errs l2 /\
  length texts = length refs /\ Forall (fun x => nul_free x = true) texts /\
  Forall (fun r => unglued src (ref_Start r) = true) refs /\
  rest l2 = splice_text src (position l1) (zip refs texts).

Lemma in_step_token l1 l2 refs texts :
  in_step l1 l2 refs texts ->
  Forall (fun r => next_directive src r (position (NextToken l1).2)) refs ->
  (NextToken l1).1 = (NextToken l2).1 /\ in_step (NextToken l1).2 (NextToken l2).2 refs texts.
Proof.
  intros (W1 & W2 & Hi & Hk & He & Hl & Hx & Hg & Hr) Hd.
  destruct (NextToken_pos l1 W1) as (_ & W1' & _ & Hi' & Hp & _).
  destruct (step_token src l1 l2 (zip refs texts) W1 W2 Hi He Hr Hk) as (Ht & He' & Hlt & Hr').
  - destruct refs as [|r refs], texts as [|x texts]; try done. cbn. inversion_clear Hd as [|? ? Hd1 _].
    pose proof (next_directive_le _ _ _ Hd1). split; [|lia]. destruct Hd1 as (? & ? & ?). split_and!; [lia|done..].
  - split; [done|]. split_and!; try done; [by apply NextToken_wf|congruence|]. unfold kind. by rewrite Hlt.
Qed.

Lemma in_step_directive l1 l2 l4 r x refs texts :
  in_step l1 l2 (r :: refs) (x :: texts) -> next_directive src r (position l1) -> position (skipTrivia l1) = ref_Start r ->
  wf l4 -> input l4 = src -> errs l4 = errs l1 -> Type_ (LastToken l4) = RPAREN -> ref_End r = (Span l4).2 ->
  (NextToken l2).1 = mkToken STRING x /\ in_step l4 (NextToken l2).2 refs texts.
Proof.
  intros (W1 & W2 & Hi & Hk & He & Hl & Hx & Hg & Hr) Hd Hp W4 Hi4 He4 Ht4 Hend.
  inversion_clear Hx as [|? ? Hx1 Hx2]. inversion_clear Hg as [|? ? Hg1 Hg2].
  destruct (step_directive src l1 l2 r x (zip refs texts)) as (Ht & Hlt & He2 & Hr2); try done.
  split; [done|]. split_and!; try done.
  - by apply NextToken_wf.
  - apply (kind_of_type _ _ RPAREN STRING); [done|by rewrite Hlt|done|done].
  - congruence.
  - cbn in Hl. lia.
  - rewrite Hr2, Hend. cbn. by rewrite Hi4, splice_text_min.
Qed.

(** Going over the directive's four tokens. *)
Lemma directive_tokens n l t lp arg rp ts er :
  wf l -> lex_loop n l = Some (t :: lp :: arg :: rp :: ts, er) ->
  exists n' l4, lex_loop n' l4 = Some (ts, er) /\ wf l4 /\ input l4 = input l /\
    LastToken l4 = st_tok rp /\ st_end rp = (Span l4).2.
Proof.
  intros Hw H. destruct (lex_loop_cons _ _ _ _ _ H) as (n1 & _ & _ & _ & _ & _ & H1).
  destruct (lex_loop_cons _ _ _ _ _ H1) as (n2 & _ & _ & _ & _ & _ & H2).
  destruct (lex_loop_cons _ _ _ _ _ H2) as (n3 & _ & _ & _ & _ & _ & H3).
  destruct (lex_loop_cons _ _ _ _ _ H3) as (n4 & _ & _ & Ht & _ & He & H4).
  destruct (NextToken_pos l Hw) as (_ & Hw1 & _ & I1 & _). destruct (NextToken_pos _ Hw1) as (_ & Hw2 & _ & I2 & _).
  destruct (NextToken_pos _ Hw2) as (_ & Hw3 & _ & I3 & _). destruct (NextToken_pos _ Hw3) as (_ & Hw4 & _ & I4 & _).
  eexists n4, _. split; [exact H4|]. split; [done|]. split; [congruence|]. split; [|done]. by rewrite NextToken_last.
Qed.

Lemma expand_sim k n l1 l2 toks er refs texts :
  length toks <= k -> in_step l1 l2 refs texts ->
  lex_loop n l1 = Some (toks, er) -> find_refs src er toks = inl refs ->
  exists toks2, lexes l2 toks2 er /\ map st_tok toks2 = splice_tokens texts (map st_tok toks).
Proof.
  revert n l1 l2 toks refs texts; induction k as [|k IH]; intros n l1 l2 toks refs texts Hk Hs Hlex Hf;
    pose proof Hs as (W1 & W2 & Hi & _ & _ & Hl & _ & Hg & _).
  1: destruct toks; [|cbn in Hk; lia]. 2: destruct toks as [|t toks].
  1,2: injection Hf as <-; destruct texts; [|done]; destruct (lex_loop_nil _ _ _ Hlex) as [He ->];
    destruct (in_step_token l1 l2 [] [] Hs) as [Ht (_ & W2' & _ & _ & -> & _)]; [constructor|];
    exists []; split; [apply lexes_nil; [done|congruence]|done].
  pose proof (lex_loop_ok _ _ _ _ W1 Hlex) as Hok. rewrite Hi in Hok.
  destruct (lex_loop_cons _ _ _ _ _ Hlex) as (n' & _ & Hne & Ht & Hst & _ & Hlex').
  destruct (NextToken_pos l1 W1) as (_ & W1' & _ & Hi' & _ & Hst'). cbn in Hk, Hf.
  destruct (is_directive (st_tok t)) eqn:Ed.
  - destruct er as [|]; [|done]. destruct (argument src toks) as [[path stop]|] eqn:Ea; [|done].
    destruct (find_refs src [] toks) as [refs'|] eqn:Ef; [|done]. injection Hf as <-.
    destruct (argument_inv _ _ _ _ _ _ Ea Ef) as (lp & arg & rp & ts & -> & -> & Hrp & Hf').
    destruct (directive_tokens _ _ _ _ _ _ _ _ W1 Hlex) as (n4 & l4 & Hlex4 & W4 & Hi4 & Hl4 & Hend).
    destruct texts as [|x texts]; [done|].
    assert (Herr : forall l n ts, wf l -> lex_loop n l = Some (ts, []) -> errs l = []).
    { intros l m us Hwl Hll. destruct (lex_loop_errs _ _ _ _ Hwl Hll) as [y Hy]. symmetry in Hy. by apply app_eq_nil in Hy as [? _]. }
    assert (Hpos : position (skipTrivia l1) = st_start t).
    { rewrite Hst, Hst'. pose proof (directive_position l1 W1 ltac:(by rewrite <- Ht)). lia. }
    destruct (in_step_directive l1 l2 l4 _ x refs' texts Hs) as [Ht2 Hs'];
      [|done|done|congruence|by rewrite (Herr _ _ _ W1 Hlex), (Herr _ _ _ W4 Hlex4)|by rewrite Hl4|done|].
    { inversion_clear Hg. inversion_clear Hok as [|? ? [H1 H2] _]. split_and!; [done|done|by apply H2]. }
    destruct (IH n4 l4 (NextToken l2).2 ts refs' texts) as (toks2 & Hx2 & Hm2); [cbn in Hk; lia|done..|].
    destruct (lexes_cons l2 toks2 [] W2 ltac:(by rewrite Ht2) Hx2) as (t2 & Et2 & Hx).
    exists (t2 :: toks2). split; [done|]. cbn. by rewrite Ed, Et2, Ht2, Hm2.
  - assert (Hd : Forall (fun r => next_directive src r (position (NextToken l1).2)) refs).
    { apply (find_refs_ok src _ er toks); [|done..]. rewrite <- Hi, <- Hi'. by apply (lex_loop_ok n' _ _ er). }
    destruct (in_step_token l1 l2 refs texts Hs Hd) as [Ht2 Hs'].
    destruct (IH n' (NextToken l1).2 (NextToken l2).2 toks refs texts) as (toks2 & Hx2 & Hm2); [lia|done..|].
    destruct (lexes_cons l2 toks2 er W2 ltac:(congruence) Hx2) as (t2 & Et2 & Hx).
    exists (t2 :: toks2). split; [done|]. cbn. rewrite Ed, Et2, Hm2. congruence.
Qed.
End Simulation.

(** ** The theorem *)

Lemma Contains_sdrop src n sub w : sdrop n src = (sub ++ w)%string -> Contains src sub = true.
Proof.
  revert n; induction src as [|c src IH]; intros n E; cbn [Contains]; apply orb_true_iff.
  - left. apply prefix_iff. exists w. by destruct n.
  - destruct n as [|n]; [left; apply prefix_iff; by exists w|right; by apply (IH n)].
Qed.

Lemma lex_total src : exists toks er, lex src = Some (toks, er).
Proof.
  destruct (lex_loop_total (slen src + 2) (NewLexer src) (NewLexer_wf src)) as [[toks er] H].
  - rewrite bytes_left_rest, NewLexer_rest. lia.
  - by exists toks, er.
Qed.

Lemma lex_ok src toks er : lex src = Some (toks, er) -> Forall (tok_ok src 0) toks.
Proof. intros H. by pose proof (lex_loop_ok _ _ _ _ (NewLexer_wf src) H). Qed.

Lemma no_mention src toks er :
  lex src = Some (toks, er) -> mentions src = false -> Forall (fun t => is_directive (st_tok t) = false) toks.
Proof.
  intros H Hm. eapply Forall_impl; [exact (lex_ok _ _ _ H)|]. intros t [_ Hd]. apply not_true_is_false. intros Ht.
  destruct (Hd Ht) as [w Hw]. unfold mentions in Hm. by rewrite (Contains_sdrop src (st_start t) _ w) in Hm by (by rewrite <- sapp_assoc).
Qed.

Lemma find_refs_none src er toks :
  Forall (fun t => is_directive (st_tok t) = false) toks -> find_refs src er toks = inl [].
Proof. induction 1 as [|t toks Ht _ IH]; cbn; [done|]. by rewrite Ht. Qed.

(** [Find] is [find_refs] on all tokens, whether or not the text is searched first. *)
Lemma Find_lex src toks er : lex src = Some (toks, er) -> Find src = Some (find_refs src er toks).
Proof.
  intros H. unfold Find. destruct (mentions src) eqn:Em; cbn [negb]; [by rewrite H|].
  by rewrite find_refs_none by (by apply (no_mention src toks er)).
Qed.

Lemma Has_lex src toks er : lex src = Some (toks, er) ->
  Has src = Some (existsb is_directive (map st_tok toks)).
Proof.
  intros H. assert (E : existsb is_directive (map st_tok toks) = existsb (fun t => is_directive (st_tok t)) toks).
  { clear. induction toks as [|t toks IH]; [done|]. cbn. by rewrite IH. }
  unfold Has. destruct (mentions src) eqn:Em; cbn [negb]; [by rewrite H, E|]. rewrite E. f_equal. symmetry.
  pose proof (no_mention src toks er H Em) as Hn. clear -Hn. induction Hn as [|t toks Ht _ IH]; [done|]. cbn. by rewrite Ht.
Qed.

Lemma splice_tokens_clean src er k toks refs texts :
  length toks <= k -> find_refs src er toks = inl refs -> length texts = length refs ->
  existsb is_directive (splice_tokens texts (map st_tok toks)) = false.
Proof.
  revert toks refs texts; induction k as [|k IH]; intros [|t toks] refs texts Hk Hf Hl; cbn in Hk, Hf; try done; [lia|].
  cbn [map splice_tokens]. destruct (is_directive (st_tok t)) eqn:Ed.
  - destruct er; [|done]. destruct (argument src toks) as [[path stop]|] eqn:Ea; [|done].
    destruct (find_refs src [] toks) as [refs'|] eqn:Ef; [|done]. injection Hf as <-.
    destruct (argument_inv _ _ _ _ _ _ Ea Ef) as (lp & arg & rp & ts & -> & _ & _ & Hf').
    destruct texts as [|x texts]; [done|]. cbn in Hl, Hk |- *. apply (IH ts refs'); [lia|done|lia].
  - cbn. rewrite Ed. apply (IH toks refs); [lia|done|done].
Qed.

Lemma read_nul_free fsys stackDir dir rel p text : read fsys stackDir dir rel = inl (p, text) -> nul_free text = true.
Proof.
  unfold read. intros H. repeat (case_match; try done). unfold check_text in H. repeat (case_match; try done).
  injection H as _ <-. by apply ContainsByte_nul.
Qed.

(** Every directive is preceded by a byte a string literal is not glued to. *)
Definition all_unglued (src : string) : bool :=
  match Find src with Some (inl refs) => forallb (fun r => unglued src (ref_Start r)) refs | _ => true end.

Lemma expanded_lexes src toks er refs texts :
  lex src = Some (toks, er) -> find_refs src er toks = inl refs -> length texts = length refs ->
  Forall (fun x => nul_free x = true) texts -> Forall (fun r => unglued src (ref_Start r) = true) refs ->
  exists toks2, lex (splice_text src 0 (zip refs texts)) = Some (toks2, er) /\
    map st_tok toks2 = splice_tokens texts (map st_tok toks) /\
    Has (splice_text src 0 (zip refs texts)) = Some false.
Proof.
  intros Hlex Hf Hl Hx Hg. set (out := splice_text src 0 (zip refs texts)).
  destruct (expand_sim src (length toks) (slen src + 2) (NewLexer src) (NewLexer out) toks er refs texts) as (toks2 & H1 & H2);
    [done| |done|done|].
  { split_and!; try done; try apply NewLexer_wf. }
  assert (Hlo : lex out = Some (toks2, er)) by (apply H1; rewrite bytes_left_rest, NewLexer_rest; lia).
  exists toks2. split; [done|]. split; [done|]. rewrite (Has_lex _ _ _ Hlo), H2.
  by rewrite (splice_tokens_clean src er (length toks) toks refs).
Qed.

Lemma Forall2_texts {A} (rd : A -> (string * string) + ReadErr) refs files :
  (forall r p x, rd r = inl (p, x) -> nul_free x = true) ->
  Forall2 (fun r f => rd r = inl f) refs files ->
  length files.*2 = length refs /\ Forall (fun x => nul_free x = true) files.*2.
Proof.
  intros Hn H. rewrite length_fmap. split; [symmetry; by eapply Forall2_length|].
  induction H as [|r [p x] refs files Hr _ IH]; constructor; [by apply (Hn r p)|done].
Qed.

(** A source without directives is the loop over no directives. *)
Lemma Expand_loop fsys stackDir txclPath src refs :
  Find src = Some (inl refs) ->
  Expand fsys stackDir txclPath src = Some (expand_loop (read fsys stackDir (Dir txclPath)) src refs "" 0 []).
Proof. intros H. unfold Expand. rewrite H. destruct refs; [|done]. by destruct src. Qed.

(** C35: including text is including a token.  [Expand] returns on every source,
    and when it succeeds and no directive is glued to what is before it, the
    expanded text has the tokens of the source with each directive's four tokens
    replaced by one string literal that carries the text of the named file, and
    the lexical errors of the source; no directive is left, whatever the files
    say; the dependencies are the files read, each once. *)
Theorem Expand_tokens fsys stackDir txclPath src :
  all_unglued src = true ->
  match Expand fsys stackDir txclPath src with
  | None => False
  | Some (inr _) => True
  | Some (inl (out, deps)) =>
      exists toks er refs files toks2,
        lex src = Some (toks, er) /\ Find src = Some (inl refs) /\
        Forall2 (fun r f => read fsys stackDir (Dir txclPath) (ref_Path r) = inl f) refs files /\
        lex out = Some (toks2, er) /\ map st_tok toks2 = splice_tokens files.*2 (map st_tok toks) /\
        Has out = Some false /\ NoDup deps /\ (forall p, p ∈ deps <-> p ∈ files.*1)
  end.
Proof.
  destruct (lex_total src) as (toks & er & Hlex). pose proof (Find_lex _ _ _ Hlex) as Hfind. unfold all_unglued.
  destruct (find_refs src er toks) as [refs|] eqn:Ef; rewrite Hfind; [|unfold Expand; by rewrite Hfind].
  rewrite (Expand_loop _ _ _ _ _ Hfind). intros Hg.
  assert (Hgf : Forall (fun r => unglued src (ref_Start r) = true) refs)
    by (apply List.Forall_forall; by apply List.forallb_forall).
  destruct (expand_loop _ src refs "" 0 []) as [[out deps]|] eqn:Ex; [|done].
  destruct (expand_loop_spec _ _ _ _ _ _ _ _ Ex) as (files & HF & Eo & Hnd & Hin).
  destruct (Forall2_texts (fun r => read fsys stackDir (Dir txclPath) (ref_Path r)) refs files) as [Hlen Hnul];
    [intros r p x; apply read_nul_free|done|].
  destruct (expanded_lexes src toks er refs files.*2 Hlex Ef Hlen Hnul Hgf) as (toks2 & H1 & H2 & H3).
  change ("" ++ ?x)%string with x in Eo. rewrite <- Eo in H1, H3.
  exists toks, er, refs, files, toks2. split_and!; try done; [by apply Hnd, NoDup_nil_2|].
  intros p. rewrite Hin. set_solver.
Qed.

(** ** Examples *)

(** A file system of a few regular files; any other path does not exist. *)
Definition demo_fs (files : list (string * string)) : FS := mkFS
  (fun p => match List.find (fun f => f.1 =s p) files with
            | Some f => inl (mkInfo Regular (Z.of_nat (slen f.2)))
            | None => inr ErrNotExist
            end)
  (fun p => match List.find (fun f => f.1 =s p) files with Some f => inl f.2 | None => inr ErrNotExist end).

Definition demo_files : FS := demo_fs
  [("OPS/in/a.md", quoted "hi"); ("OPS/in/b.md", String DQ (" &include(" ++ quoted "c" ++ ")")%string)].

Definition demo_src : string := ("EMIT .a = &include(" ++ quoted "a.md" ++ ")")%string.

Lemma Expand_tokens_witness :
  let out := ("EMIT .a = " ++ Quote (quoted "hi"))%string in
  Expand demo_files "OPS/in" "OPS/in/10.txcl" demo_src = Some (inl (out, ["OPS/in/a.md"])) /\ Has out = Some false.
Proof.
  assert (E : Expand demo_files "OPS/in" "OPS/in/10.txcl" demo_src =
              Some (inl (("EMIT .a = " ++ Quote (quoted "hi"))%string, ["OPS/in/a.md"]))) by (vm_compute; reflexivity).
  split; [exact E|].
  pose proof (Expand_tokens demo_files "OPS/in" "OPS/in/10.txcl" demo_src ltac:(vm_compute; reflexivity)) as H.
  rewrite E in H. destruct H as (toks & er & refs & files & toks2 & _ & _ & _ & _ & _ & H & _). exact H.
Defined.

Lemma read_confined_witness :
  read demo_files "OPS/in" "OPS/in/sub" "../a.md" = inl ("OPS/in/a.md", quoted "hi") /\
  exists fi, Lstat demo_files "OPS/in/a.md" = inl fi /\ fi_Kind fi = Regular.
Proof.
  assert (E : read demo_files "OPS/in" "OPS/in/sub" "../a.md" = inl ("OPS/in/a.md", quoted "hi")) by (vm_compute; reflexivity).
  split; [exact E|].
  destruct (read_confined demo_files "OPS/in" "OPS/in/sub" "../a.md" _ _ ltac:(discriminate) ltac:(discriminate) E)
    as (segs & raw & fi & _ & _ & _ & _ & H1 & H2 & _).
  exists fi. split; [exact H1|exact H2].
Defined.

(** A directive glued to a path: the literal becomes a quoted segment of the path,
    which knows no escapes, and the text of the file goes on as rule text. *)
Example glued_include :
  let src := ("EMIT .a&include(" ++ quoted "b.md" ++ ") = 1")%string in
  all_unglued src = false /\
  match Expand demo_files "OPS/in" "OPS/in/10.txcl" src with
  | Some (inl (out, _)) => Has out = Some true
  | _ => False
  end.
Proof. vm_compute. auto. Qed.

(** A directive written over two lines: the expanded text has a line less. *)
Example include_lines :
  let src := ("EMIT .a = &include(" ++ String LF (quoted "a.md") ++ ")")%string in
  lines src = 1 /\
  match Expand demo_files "OPS/in" "OPS/in/10.txcl" src with
  | Some (inl (out, _)) => lines out = 0
  | _ => False
  end.
Proof. vm_compute. auto. Qed.

(** Leaving the stack directory is refused, in any spelling. *)
Example outside_refused :
  read demo_files "OPS/in" "OPS/in/sub" "../../out/a.md" = inr OutsideStack /\
  read demo_files "OPS/in" "OPS/in" "../inner/a.md" = inr OutsideStack /\
  read demo_files "OPS/in" "OPS/in" "/OPS/in/a.md" = inr AbsolutePath.
Proof. repeat split. Qed.
