(* ===== verification/Ast.v ===== *)
(** * Values (chassis/txcl/ast/value.go)

    [any] is Go's [interface{}] restricted to the dynamic types the txcl
    packages produce: what the parser puts in a literal, what gjson's [Value()]
    returns, and the [int] the WHEN evaluator defends against. *)

From Stdlib Require Import Ascii String ZArith Lia Bool.
From stdpp Require Import base tactics list strings.
From S2P Require Import Prelude GoStrings GoStrconv.

Inductive any :=
| ANil
| AInt64 (z : Z)
| AInt (z : Z)
| AFloat64 (f : float64)
| AString (s : string)
| ABool (x : bool)
| ASlice (l : list any)
| AMap (l : list (string * any)).

(** [ast.Value]: the closed sum of the three node types. *)
Inductive Value :=
| Literal (V : any)
| PathRef (Path : string)
| FunctionCall (Name : string) (Args : list Value).

(** [LiteralOrNil]; the argument is [None] for a nil [Value]. *)
Definition LiteralOrNil (v : option Value) : any :=
  match v with Some (Literal V) => V | _ => ANil end.

(** Induction over values, through the argument lists. *)
Lemma Value_ind' (P : Value -> Prop) :
  (forall V, P (Literal V)) -> (forall p, P (PathRef p)) ->
  (forall n args, Forall P args -> P (FunctionCall n args)) -> forall v, P v.
Proof.
  intros HL HP HF. fix IH 1. intros [V|p|n args]; [apply HL|apply HP|].
  apply HF. induction args; constructor; auto.
Qed.

(** ** Path references inside a value *)

(** The first [PathRef] among the arguments, depth first
    (parser.go, [firstPathArg]). *)
Fixpoint firstPathArg (v : Value) : option string :=
  match v with
  | FunctionCall _ args =>
      (fix go (l : list Value) : option string :=
         match l with
         | [] => None
         | a :: l =>
             match a with
             | PathRef p => Some p
             | FunctionCall _ _ => match firstPathArg a with Some p => Some p | None => go l end
             | Literal _ => go l
             end
         end) args
  | _ => None
  end.

(** A value that mentions no envelope path, at any depth. *)
Inductive path_free : Value -> Prop :=
| pf_literal V : path_free (Literal V)
| pf_call n args : Forall path_free args -> path_free (FunctionCall n args).

(** What the loop of [firstPathArg] computes, argument by argument. *)
Fixpoint firstPathArgs (l : list Value) : option string :=
  match l with
  | [] => None
  | PathRef p :: _ => Some p
  | FunctionCall n args :: l =>
      match firstPathArg (FunctionCall n args) with Some p => Some p | None => firstPathArgs l end
  | Literal _ :: l => firstPathArgs l
  end.

Lemma firstPathArg_call n args : firstPathArg (FunctionCall n args) = firstPathArgs args.
Proof.
  simpl. induction args as [|a l IH]; [done|]. destruct a; simpl; [done|done|].
  by rewrite IH.
Qed.

Lemma firstPathArgs_none args :
  Forall (fun a => forall m k, a = FunctionCall m k ->
            firstPathArg a = None <-> path_free a) args ->
  firstPathArgs args = None <-> Forall path_free args.
Proof.
  induction 1 as [|a l Ha _ IH]; [done|]. rewrite Forall_cons.
  destruct a as [V|p|m k]; cbn [firstPathArgs].
  - rewrite IH. split; [intros ?; split; [constructor|done]|by intros [_ ?]].
  - split; [done|]. intros [H _]. inversion H.
  - specialize (Ha m k eq_refl). rewrite <- Ha, <- IH.
    destruct (firstPathArg (FunctionCall m k)); split; try done; [by intros [? ?]|].
    by intros [? ?].
Qed.

Lemma firstPathArg_none n args :
  firstPathArg (FunctionCall n args) = None <-> path_free (FunctionCall n args).
Proof.
  remember (FunctionCall n args) as v eqn:E. revert n args E.
  induction v as [|p|m l IH] using Value_ind'; intros n args E; try done.
  injection E as -> ->. rewrite firstPathArg_call, firstPathArgs_none by done.
  split; [by constructor|]. intros H; by inversion H.
Qed.
