(* ===== verification/Runtime.v ===== *)
(** * Value resolution (chassis/txcl/runtime, chassis/txcl/funcs/funcs.go)

    [Resolve] walks an [ast.Value] against an [Env].  gjson, a third-party
    package, is a parameter: [Gjson] gives, for a document and a path, the
    observations of the [Result] the code makes.  The function registry is a
    parameter too ([Funcs]): the theorems hold for every set of functions. *)

From Stdlib Require Import Ascii String ZArith Lia Bool.
From stdpp Require Import base tactics list strings.
From S2P Require Import Prelude GoStrings GoStrconv Ast.

(** ** gjson *)

(** The observations of a [gjson.Result] the chassis makes. *)
Record Result := mkResult {
  Exists_ : bool;
  Int_ : Z;
  Float_ : float64;
  String_ : string;
  Bool_ : bool;
  Value_ : any }.

Class Gjson := gjson_Get : string -> string -> Result.

(** ** funcs: the registry and Call *)

Inductive FuncErr :=
| UnknownFunction (name : string)
| FunctionFailed (name msg : string).

Definition Func : Type := list any -> any + FuncErr.

Class Funcs := registry : string -> option Func.

Definition Call `{Funcs} (name : string) (args : list any) : any + FuncErr :=
  match registry name with
  | None => inr (UnknownFunction name)
  | Some fn => fn args
  end.

Definition Has `{Funcs} (name : string) : bool :=
  match registry name with Some _ => true | None => false end.

(** ** Env *)

(** [Env.Get]: [Some v] for [(v, true)], [None] for [(nil, false)]. *)
Definition Env : Type := string -> option any.

Definition JSONEnv `{Gjson} (e : string) : Env :=
  fun path => let r := gjson_Get e path in
              if negb (Exists_ r) then None else Some (Value_ r).

(** The first environment that has the path wins; a nil entry is skipped. *)
Fixpoint MultiEnv (m : list (option Env)) : Env :=
  fun path =>
    match m with
    | [] => None
    | None :: m => MultiEnv m path
    | Some e :: m => match e path with Some v => Some v | None => MultiEnv m path end
    end.

(** ** Resolve *)

Fixpoint Resolve_value `{Funcs} (env : Env) (v : Value) : any + FuncErr :=
  match v with
  | Literal V => inl V
  | PathRef p => inl match env p with Some x => x | None => ANil end
  | FunctionCall n args =>
      let go := fix go (l : list Value) : list any + FuncErr :=
        match l with
        | [] => inl []
        | a :: l =>
            match Resolve_value env a with
            | inr e => inr e
            | inl x => match go l with inr e => inr e | inl xs => inl (x :: xs) end
            end
        end in
      match go args with
      | inr e => inr e
      | inl xs => Call n xs
      end
  end.

(** [Resolve(v, env)]; a nil [Value] resolves to nil. *)
Definition Resolve `{Funcs} (v : option Value) (env : Env) : any + FuncErr :=
  match v with None => inl ANil | Some v => Resolve_value env v end.

(** The arguments of a call, resolved left to right; the first error wins. *)
Fixpoint Resolve_args `{Funcs} (env : Env) (l : list Value) : list any + FuncErr :=
  match l with
  | [] => inl []
  | a :: l =>
      match Resolve_value env a with
      | inr e => inr e
      | inl x => match Resolve_args env l with inr e => inr e | inl xs => inl (x :: xs) end
      end
  end.

Lemma Resolve_call `{Funcs} env n args :
  Resolve_value env (FunctionCall n args) =
  match Resolve_args env args with inr e => inr e | inl xs => Call n xs end.
Proof.
  cbn [Resolve_value].
  match goal with |- match ?go args with _ => _ end = _ =>
    assert (E : go args = Resolve_args env args) end.
  { induction args as [|a l IH]; simpl; [done|]. by rewrite IH. }
  by rewrite E.
Qed.

(** A value without path references is a constant: it resolves to the same
    result in every environment, whatever functions it calls. *)
Lemma Resolve_path_free `{Funcs} v env env' :
  path_free v -> Resolve (Some v) env = Resolve (Some v) env'.
Proof.
  intros Hp. unfold Resolve. induction v as [|p|n args IH] using Value_ind'.
  - done.
  - by inversion Hp.
  - inversion Hp as [|? ? Hf]; subst. rewrite !Resolve_call.
    assert (E : Resolve_args env args = Resolve_args env' args) by
      (clear Hp; induction args as [|a l IHl]; simpl; [done|];
       apply Forall_cons in Hf as [? ?]; apply Forall_cons in IH as [Ha Hl];
       rewrite Ha by done; by rewrite IHl).
    by rewrite E.
Qed.

(** MultiEnv answers from the first environment that has the path. *)
Lemma MultiEnv_first m1 (e : Env) m2 path v :
  Forall (fun o : option Env => match o with Some e' => e' path = None | None => True end) m1 ->
  e path = Some v -> MultiEnv (m1 ++ Some e :: m2) path = Some v.
Proof.
  induction 1 as [|o m1 Ho _ IH]; simpl; intros Hv; [by rewrite Hv|].
  destruct o as [e'|]; [rewrite Ho|]; auto.
Qed.
