(* ===== verification/Opname.v ===== *)
(** * Stack and operation names (chassis/opname)

    What a stack name, an operation name and the targets of [goto://] and
    [call://] may contain, and the escaping of a name inside a SQL LIKE
    pattern.  An [error] is a value of [NameErr]; [None] is Go's nil. *)

From Stdlib Require Import Ascii String ZArith Lia Bool.
From stdpp Require Import base tactics list strings.
From S2P Require Import Prelude GoStrings GoStrconv.

(** ** Names (opname.go) *)

Inductive NameErr :=
| OpNameEmpty
| OpNameTooLong (name : string)
| OpNameCharset (name : string)
| StackNameEmpty
| StackNameTooLong (name : string)
| StackNameSegment (name segment : string)
| NotATarget (exec scheme : string)
| NeedsTarget (exec : string)
| BadStack (exec : string) (cause : NameErr).

Definition LikeEscapeChar : string := String (b 92) EmptyString.

Definition EscapeLike (s : string) : string :=
  let s := ReplaceAll s LikeEscapeChar (LikeEscapeChar ++ LikeEscapeChar)%string in
  let s := ReplaceAll s "%" (LikeEscapeChar ++ "%")%string in
  ReplaceAll s "_" (LikeEscapeChar ++ "_")%string.

Definition maxOpNameLen : nat := 64.
Definition maxStackNameLen : nat := 128.

Definition is_seg_char (c : ascii) : bool :=
  is_upper c || is_lower c || is_dec c || (c =c "_") || (c =c "-").

(** [seg.MatchString], the regexp [^[A-Za-z0-9_-]+$]. *)
Definition seg (s : string) : bool := negb (s =s "") && sall is_seg_char s.

Definition Valid (name : string) : option NameErr :=
  if name =s "" then Some OpNameEmpty
  else if maxOpNameLen <? slen name then Some (OpNameTooLong name)
  else if negb (seg name) then Some (OpNameCharset name)
  else None.

Definition ValidStack (name : string) : option NameErr :=
  if name =s "" then Some StackNameEmpty
  else if maxStackNameLen <? slen name then Some (StackNameTooLong name)
  else match List.find (fun s => negb (seg s)) (Split name "/") with
       | Some s => Some (StackNameSegment name s)
       | None => None
       end.

(** ** Stage jumps (goto.go) *)

Definition GotoScheme : string := "goto://".

(** [gotoScope.MatchString], the regexp [^[0-9]{1,9}$]. *)
Definition gotoScope (s : string) : bool :=
  (1 <=? slen s) && (slen s <=? 9) && sall is_dec s.

Definition GotoTarget (exec : string) : string + NameErr :=
  if negb (HasPrefix exec GotoScheme) then inr (NotATarget exec GotoScheme)
  else
    let target := TrimPrefix exec GotoScheme in
    if gotoScope target then inl target
    else match LastIndex target "/" with
         | None | Some 0 => inr (NeedsTarget exec)
         | Some i =>
             if negb (gotoScope (sdrop (S i) target)) then inr (NeedsTarget exec)
             else match ValidStack (stake i target) with
                  | Some err => inr (BadStack exec err)
                  | None => inl target
                  end
         end.

(** ** Stack calls (call.go) *)

Definition CallScheme : string := "call://".

(** [strconv.Atoi] of a run of at most nine digits. *)
Definition Atoi9 (s : string) : Z := dec_value s 0.

Definition CallTarget (exec : string) : (string * Z) + NameErr :=
  if negb (HasPrefix exec CallScheme) then inr (NotATarget exec CallScheme)
  else
    let target := TrimPrefix exec CallScheme in
    if target =s "" then inr (NeedsTarget exec)
    else
      let '(stack, scope) :=
        match LastIndex target "/" with
        | Some (S i) =>
            if gotoScope (sdrop (S (S i)) target)
            then (stake (S i) target, Atoi9 (sdrop (S (S i)) target))
            else (target, 0%Z)
        | _ => (target, 0%Z)
        end in
      match ValidStack stack with
      | Some err => inr (BadStack exec err)
      | None => inl (stack, scope)
      end.

(** ** The names a caller may rely on *)

(** A stack name, by its grammar: segments of the charset joined by slashes. *)
Definition stack_name (name : string) : Prop :=
  slen name <= maxStackNameLen /\ Forall (fun s => seg s = true) (Split name "/").

Lemma ValidStack_iff name : ValidStack name = None <-> stack_name name.
Proof.
  unfold ValidStack, stack_name.
  destruct (name =s "") eqn:E.
  { bool_to_prop. subst. split; [done|]. intros [_ H]. inversion H. done. }
  destruct (maxStackNameLen <? slen name) eqn:El; bool_to_prop.
  { split; [done|]. intros [? _]. lia. }
  destruct (List.find _ _) as [s|] eqn:Ef.
  - apply List.find_some in Ef as [Hi Hs]. split; [done|]. intros [_ H].
    rewrite Forall_forall in H. apply negb_true_iff in Hs.
    rewrite (H s) in Hs; [done|]. by apply list_elem_of_In.
  - split; [|done]. intros _. split; [lia|]. apply Forall_forall. intros s Hs.
    apply negb_false_iff, (List.find_none _ _ Ef). by apply list_elem_of_In.
Qed.

Lemma gotoScope_no_slash s :
  gotoScope s = true -> sall (fun d => negb (d =c "/")) s = true.
Proof.
  unfold gotoScope. intros H. apply andb_true_iff in H as [_ H].
  eapply sall_impl; [|exact H]. intros c Hc. apply negb_true_iff, Ascii.eqb_neq.
  intros ->. done.
Qed.

(** A slash-separated tail without slash is what follows the last slash. *)
Lemma LastIndex_split target i :
  LastIndex target "/" = Some i ->
  exists st sc, target = (st ++ String "/" sc)%string /\ slen st = i /\
    stake i target = st /\ sdrop (S i) target = sc.
Proof.
  intros H. destruct (LastIndex_some _ _ _ H) as [E _].
  exists (stake i target), (sdrop (S i) target). repeat split; [done|].
  pose proof (f_equal slen E) as El. rewrite slen_app in El. cbn [String.length] in El.
  rewrite slen_sdrop, slen_stake in *. lia.
Qed.

Lemma split_tail st sc :
  stake (slen st) (st ++ String "/" sc)%string = st /\
  sdrop (S (slen st)) (st ++ String "/" sc)%string = sc.
Proof.
  split; [apply stake_app|]. replace (S (slen st)) with (slen st + 1) by lia.
  rewrite <- sdrop_sdrop, sdrop_app. done.
Qed.

Lemma stack_name_nonempty st : stack_name st -> st <> "".
Proof. intros [_ H] ->. inversion H. done. Qed.

Lemma scheme_split scheme exec :
  HasPrefix exec scheme = true -> exec = (scheme ++ TrimPrefix exec scheme)%string.
Proof. intros H. apply prefix_iff in H as [t ->]. by rewrite TrimPrefix_app. Qed.

(** [GotoTarget] accepts exactly [goto://<scope>] and
    [goto://<stack>/<scope>], with a valid stack name and a scope of one to
    nine digits, and returns what follows the scheme. *)
Theorem GotoTarget_iff exec t :
  GotoTarget exec = inl t <->
  exec = (GotoScheme ++ t)%string /\
  (gotoScope t = true \/
   exists st sc, t = (st ++ String "/" sc)%string /\ stack_name st /\ gotoScope sc = true).
Proof.
  unfold GotoTarget. destruct (HasPrefix exec GotoScheme) eqn:Hp; cbn [negb]; cycle 1.
  { split; [done|]. intros [-> _]. unfold HasPrefix in Hp. by rewrite prefix_app in Hp. }
  pose proof (scheme_split _ _ Hp) as E. set (target := TrimPrefix exec GotoScheme) in *.
  clearbody target. subst exec. clear Hp.
  assert (Hinj : forall u, (GotoScheme ++ target = GotoScheme ++ u)%string -> target = u)
    by (intros u; apply sapp_inj_l).
  destruct (gotoScope target) eqn:Hs.
  { split; [intros H; injection H as <-; auto|]. by intros [->%Hinj _]. }
  split.
  - destruct (LastIndex target "/") as [[|i]|] eqn:Hi; try done.
    destruct (LastIndex_split _ _ Hi) as (st & sc & -> & _ & -> & ->).
    destruct (gotoScope sc) eqn:Hsc; [|done]. cbn [negb].
    destruct (ValidStack st) eqn:Hv; [done|]. intros H. injection H as <-.
    split; [done|]. right. exists st, sc. by rewrite <- ValidStack_iff.
  - intros [->%Hinj [H|(st & sc & -> & Hst & Hsc)]]; [congruence|].
    rewrite LastIndex_app by (by apply gotoScope_no_slash).
    pose proof (stack_name_nonempty _ Hst) as Hne. destruct (split_tail st sc) as [-> ->].
    rewrite Hsc. apply ValidStack_iff in Hst. rewrite Hst.
    destruct st; [done|]. done.
Qed.

(** [st] at scope [n] is what [target] names after the scheme. *)
Definition call_of (target st : string) (n : Z) : Prop :=
  stack_name st /\
  ((exists sc, target = (st ++ String "/" sc)%string /\ gotoScope sc = true /\ n = dec_value sc 0) \/
   (target = st /\ n = 0%Z /\
    forall x sc, st = (x ++ String "/" sc)%string -> x <> "" -> gotoScope sc = false)).

Lemma scoped_unique x sc y sc' :
  gotoScope sc = true -> gotoScope sc' = true ->
  (x ++ String "/" sc)%string = (y ++ String "/" sc')%string -> x = y /\ sc = sc'.
Proof.
  intros Hsc Hsc' E. destruct (split_tail x sc) as [E1 E2].
  pose proof (f_equal (fun u => LastIndex u "/") E) as El. cbv beta in El.
  rewrite !LastIndex_app in El by (by apply gotoScope_no_slash).
  injection El as El. rewrite El, E in E1, E2.
  destruct (split_tail y sc') as [E3 E4]. by rewrite <- E1, <- E2, E3, E4.
Qed.

(** No scope at the end: the whole target is the stack. *)
Lemma call_whole {E} (err : NameErr -> E) target st n :
  (forall x sc, target = (x ++ String "/" sc)%string -> x <> "" -> gotoScope sc = false) ->
  match ValidStack target with Some e => inr (err e) | None => inl (target, 0%Z) end = inl (st, n) <->
  call_of target st n.
Proof.
  intros Hno. unfold call_of. split.
  - destruct (ValidStack target) eqn:Hv; [done|]. intros H. injection H as <- <-.
    rewrite <- ValidStack_iff. auto.
  - intros [Hst [(sc & E1 & Hsc & _)|(-> & -> & _)]].
    + rewrite (Hno st sc E1) in Hsc; [done|]. by apply stack_name_nonempty.
    + apply ValidStack_iff in Hst. by rewrite Hst.
Qed.

Lemma call_scoped {E} (err : NameErr -> E) x sc st n :
  gotoScope sc = true -> x <> "" ->
  match ValidStack x with Some e => inr (err e) | None => inl (x, dec_value sc 0) end = inl (st, n) <->
  call_of (x ++ String "/" sc) st n.
Proof.
  intros Hsc Hx. unfold call_of. split.
  - destruct (ValidStack x) eqn:Hv; [done|]. intros H. injection H as <- <-.
    rewrite <- ValidStack_iff. split; [done|]. left. by exists sc.
  - intros [Hst [(sc' & E1 & Hsc' & ->)|(E1 & _ & Hno)]].
    + destruct (scoped_unique x sc st sc' Hsc Hsc' E1) as [-> ->].
      apply ValidStack_iff in Hst. by rewrite Hst.
    + rewrite (Hno x sc) in Hsc; congruence.
Qed.

(** [CallTarget] answers stack [st] at scope [n] exactly on
    [call://st/<scope>] with [n] the value of the scope's digits, and, at scope
    0, on [call://st] when the last segment of [st] is not itself a scope. *)
Theorem CallTarget_iff exec st n :
  CallTarget exec = inl (st, n) <->
  stack_name st /\
  ((exists sc, exec = (CallScheme ++ st ++ String "/" sc)%string /\
               gotoScope sc = true /\ n = dec_value sc 0) \/
   (exec = (CallScheme ++ st)%string /\ n = 0%Z /\
    forall x sc, st = (x ++ String "/" sc)%string -> x <> "" -> gotoScope sc = false)).
Proof.
  unfold CallTarget. destruct (HasPrefix exec CallScheme) eqn:Hp; cbn [negb]; cycle 1.
  { split; [done|]. intros [_ [(sc & -> & _)|(-> & _)]]; unfold HasPrefix in Hp;
      by rewrite prefix_app in Hp. }
  pose proof (scheme_split _ _ Hp) as E. set (target := TrimPrefix exec CallScheme) in *.
  clearbody target. subst exec. clear Hp.
  transitivity (call_of target st n); cycle 1.
  { unfold call_of. assert (Hinj := fun u => sapp_inj_l CallScheme target u).
    split; intros [Hst H]; (split; [done|]); destruct H as [(sc & E & H)|(E & H)]; naive_solver congruence. }
  destruct (target =s "") eqn:He; bool_to_prop.
  { subst target. split; [done|]. intros [Hst [(sc & E & _)|(<- & _)]]; [by destruct st|].
    by apply stack_name_nonempty in Hst. }
  destruct (LastIndex target "/") as [[|i]|] eqn:Hi.
  - apply call_whole. intros x sc -> Hx. destruct (gotoScope sc) eqn:Hsc; [|done].
    rewrite LastIndex_app in Hi by (by apply gotoScope_no_slash). by destruct x.
  - destruct (LastIndex_split _ _ Hi) as (x & sc & -> & Hlen & -> & ->).
    destruct (gotoScope sc) eqn:Hsc; [apply call_scoped; [done|by intros ->]|].
    apply call_whole. intros y sc' Ey Hy. destruct (gotoScope sc') eqn:Hsc'; [|done].
    rewrite Ey, LastIndex_app in Hi by (by apply gotoScope_no_slash).
    destruct (split_tail x sc) as [_ E2]. destruct (split_tail y sc') as [_ E4].
    injection Hi as Hi. rewrite <- Hlen in Hi. rewrite Ey, <- Hi, E4 in E2. congruence.
  - apply call_whole. intros x sc -> _. destruct (gotoScope sc) eqn:Hsc; [|done].
    rewrite LastIndex_app in Hi by (by apply gotoScope_no_slash). done.
Qed.

Example targets_ex :
  GotoTarget "goto://billing/100" = inl "billing/100" /\ GotoTarget "goto://7" = inl "7" /\
  GotoTarget "goto:///7" = inr (NeedsTarget "goto:///7") /\
  CallTarget "call://_sys/boot/20" = inl ("_sys/boot", 20%Z) /\
  CallTarget "call://billing" = inl ("billing", 0%Z).
Proof. repeat split; reflexivity. Qed.

(** ** LIKE *)

(** SQLite compares ASCII letters without case. *)
Definition fold_eq (c d : ascii) : bool := to_lower c =c to_lower d.

(** SQL's [t LIKE p ESCAPE '\'], for a database that compares characters with
    [ceq] (SQLite folds ASCII case, others do not). *)
Section Like.
Variable ceq : ascii -> ascii -> bool.

Fixpoint like (p t : string) : bool :=
  match p with
  | EmptyString => t =s ""
  | String c p =>
      if c =c "%" then
        (fix any (t : string) : bool :=
           like p t || match t with EmptyString => false | String _ t => any t end) t
      else if c =c "_" then
        match t with EmptyString => false | String _ t => like p t end
      else if c =c b 92 then
        match p, t with String d p, String e t => ceq d e && like p t | _, _ => false end
      else match t with EmptyString => false | String e t => ceq c e && like p t end
  end.

(** Strip [s] off the front of [t], character by character. *)
Fixpoint strip (s t : string) : option string :=
  match s, t with
  | EmptyString, _ => Some t
  | String c s, String e t => if ceq c e then strip s t else None
  | String _ _, EmptyString => None
  end.

Definition esc (c : ascii) : string :=
  if (c =c b 92) || (c =c "%") || (c =c "_") then String (b 92) (String c EmptyString)
  else String c EmptyString.

Lemma EscapeLike_flat s : EscapeLike s = sflat esc s.
Proof.
  unfold EscapeLike, LikeEscapeChar. rewrite !ReplaceAll_byte, !sflat_sflat.
  apply sflat_ext. intros c. unfold esc.
  destruct (Ascii.eqb_spec c (b 92)) as [->|H1]; [done|].
  destruct (Ascii.eqb_spec c "%") as [->|H2]; [done|]. simpl.
  rewrite (proj2 (Ascii.eqb_neq c "%")) by done. simpl.
  rewrite !sapp_nil_r. by destruct (Ascii.eqb_spec c "_") as [->|].
Qed.

(** An escaped name is literal inside a LIKE pattern: followed by any
    pattern [p], it matches exactly the texts that start with the name and
    continue as [p] demands; no character of the name acts as a wildcard. *)
Theorem EscapeLike_literal s p t :
  like (EscapeLike s ++ p) t = match strip s t with Some t' => like p t' | None => false end.
Proof.
  rewrite EscapeLike_flat. revert t. induction s as [|c s IH]; intros t; [done|].
  cbn [sflat strip]. rewrite <- sapp_assoc. unfold esc.
  destruct ((c =c b 92) || (c =c "%") || (c =c "_")) eqn:Hc.
  - cbn [String.append like Ascii.eqb]. simpl.
    destruct t as [|e t]; [done|]. rewrite IH. by destruct (ceq c e).
  - bool_to_prop. cbn [String.append like].
    rewrite !(proj2 (Ascii.eqb_neq c _)) by done.
    destruct t as [|e t]; [done|]. rewrite IH. by destruct (ceq c e).
Qed.
End Like.

Example like_ex :
  like Ascii.eqb "_mail" "email" = true /\ like Ascii.eqb (EscapeLike "_mail") "email" = false /\
  like Ascii.eqb (EscapeLike "_mail" ++ "/%") "_mail/inbox" = true.
Proof. repeat split; reflexivity. Qed.
