(* ===== verification/Resonator.v ===== *)
(** * Resonators (chassis/resonator/resonator.go)

    The parsed form of one txcl rule, and the evaluation of its WHEN clause.
    The [regexp] package is a parameter ([RegexpEngine]): which patterns
    compile and which subjects a compiled pattern matches.  A
    [*regexp.Regexp] is represented by the source it was compiled from.  The
    package-level pattern cache is explicit state. *)

From Stdlib Require Import Ascii String ZArith Lia Bool.
From stdpp Require Import base tactics list strings gmap.
From S2P Require Import Prelude GoStrings GoStrconv Ast Runtime.

(** ** Data *)

Definition MatchType : Type := string.
Definition Regexp : Type := string.

Record BranchValue := mkBranchValue { bv_Path : string; bv_Value : option Value }.

(** [Branch] is [None] for a nil pointer, [MatchCall] carries the name and the
    arguments of the call. *)
Record Condition := mkCondition {
  c_Star : bool;
  c_Branch : option string;
  c_MatchType : MatchType;
  c_MatchValue : any;
  c_MatchCall : option (string * list Value);
  c_Adds : option BranchValue;
  c_Prunes : option BranchValue;
  c_re : option Regexp }.

Definition Condition_zero : Condition := mkCondition false None "" ANil None None None None.

Inductive WhenExpr := mkWhenExpr
  { And : list WhenExpr; Or : list WhenExpr; Not : option WhenExpr;
    Leaf : Condition; HasLeaf : bool; Star : bool }.

Definition WhenAnd (l : list WhenExpr) := mkWhenExpr l [] None Condition_zero false false.
Definition WhenOr (l : list WhenExpr) := mkWhenExpr [] l None Condition_zero false false.
Definition WhenNot (e : WhenExpr) := mkWhenExpr [] [] (Some e) Condition_zero false false.
Definition WhenLeaf (c : Condition) := mkWhenExpr [] [] None c true false.
Definition WhenStar := mkWhenExpr [] [] None Condition_zero false true.

Record When := mkWhen { w_Expr : option WhenExpr; w_Conditions : list Condition }.

Record Set_ := mkSet { Overrides : list BranchValue }.

Record SelectAssignment := mkSelectAssignment {
  sa_From : string; sa_To : string; sa_Default : option Value; sa_HasDefault : bool }.

Record Select := mkSelect { s_Star : bool; s_Assignments : list SelectAssignment }.

Record Loop := mkLoop {
  Until : option WhenExpr; Max : Z; Every : Z; l_Set : list BranchValue }.

Record Resonator := mkResonator {
  r_When : option When; r_Select : option Select;
  r_SetPre : option Set_; r_SetPost : option Set_;
  r_With : gmap string Value; r_Priority : Z; r_Exec : string;
  r_Emit : option Set_; r_Loop : option Loop }.

Definition Resonator_New : Resonator :=
  mkResonator None None None None ∅ 0 "" None None.

(** Induction over trees through the operand lists. *)
Lemma WhenExpr_ind' (P : WhenExpr -> Prop) :
  (forall a o n c hl st, Forall P a -> Forall P o ->
     (forall x, n = Some x -> P x) -> P (mkWhenExpr a o n c hl st)) -> forall e, P e.
Proof.
  intros HP. fix IH 1. intros [a o n c hl st]. apply HP.
  - induction a; constructor; auto.
  - induction o; constructor; auto.
  - intros x Hx. destruct n as [y|]; [|discriminate]. injection Hx as <-. apply IH.
Qed.

(** ** The regexp engine and the pattern cache *)

Class RegexpEngine := {
  re_ok : string -> bool;
  re_match : string -> string -> bool }.

(** [patterns.m]; a [None] value is a pattern that does not compile. *)
Abbreviation cache := (gmap string (option Regexp)).

Section Eval.
Context `{RegexpEngine}.

(** [regexp.Compile]; [None] is the error. *)
Definition Compile (pattern : string) : option Regexp :=
  if re_ok pattern then Some pattern else None.

Definition MatchString (re : Regexp) (s : string) : bool := re_match re s.

Definition is_regex_op (t : MatchType) : bool := (t =s "=~") || (t =s "!~").

Definition with_re (c : Condition) (re : option Regexp) : Condition :=
  mkCondition (c_Star c) (c_Branch c) (c_MatchType c) (c_MatchValue c)
    (c_MatchCall c) (c_Adds c) (c_Prunes c) re.

Definition CompileMatch (c : Condition) : Condition :=
  if negb (c_MatchType c =s "=~") && negb (c_MatchType c =s "!~") then c
  else match c_MatchValue c with
       | AString s =>
           match Compile s with Some re => with_re c (Some re) | None => c end
       | _ => c
       end.

Definition maxCachedPatterns : nat := 4096.

(** The two critical sections of [compiledPattern]: the lookup under the
    read lock, the bounded insertion under the write lock. *)
Definition patterns_lookup (m : cache) (pattern : string) : option (option Regexp) :=
  m !! pattern.

Definition patterns_store (m : cache) (pattern : string) (re : option Regexp) : cache :=
  if size m <? maxCachedPatterns then <[pattern := re]> m else m.

Definition compiledPattern (pattern : string) (m : cache) : option Regexp * cache :=
  match patterns_lookup m pattern with
  | Some re => (re, m)
  | None =>
      let re := Compile pattern in
      (re, patterns_store m pattern re)
  end.

(** ** Evaluation *)

Definition compareTyped (val : Result) (matchType : MatchType) (mv : any) : bool :=
  if matchType =s "eq" then
    match mv with
    | AInt64 v => Z.eqb (Int_ val) v
    | AFloat64 v => f64_eqb (Float_ val) v
    | AString v => String_ val =s v
    | ABool v => eqb (Bool_ val) v
    | _ => false
    end
  else if matchType =s "ne" then
    match mv with
    | AInt64 v => negb (Z.eqb (Int_ val) v)
    | AFloat64 v => negb (f64_eqb (Float_ val) v)
    | AString v => negb (String_ val =s v)
    | ABool v => negb (eqb (Bool_ val) v)
    | _ => false
    end
  else if matchType =s "lt" then
    match mv with
    | AInt64 v => Z.ltb (Int_ val) v
    | AFloat64 v => f64_ltb (Float_ val) v
    | AString v => String.ltb (String_ val) v
    | _ => false
    end
  else if matchType =s "gt" then
    match mv with
    | AInt64 v => Z.ltb v (Int_ val)
    | AFloat64 v => f64_ltb v (Float_ val)
    | AString v => String.ltb v (String_ val)
    | _ => false
    end
  else if matchType =s "gteq" then
    match mv with
    | AInt64 v => Z.leb v (Int_ val)
    | AFloat64 v => f64_leb v (Float_ val)
    | AString v => String.leb v (String_ val)
    | _ => false
    end
  else if matchType =s "lteq" then
    match mv with
    | AInt64 v => Z.leb (Int_ val) v
    | AFloat64 v => f64_leb (Float_ val) v
    | AString v => String.leb (String_ val) v
    | _ => false
    end
  else false.

Context `{Gjson, Funcs}.

(** The function-call right-hand side of a leaf. *)
Definition eval_call (val : Result) (t : MatchType) (call : string * list Value) : bool :=
  match Resolve (Some (FunctionCall (fst call) (snd call))) (JSONEnv "{}") with
  | inr _ | inl ANil => false
  | inl (AInt n) => compareTyped val t (AInt64 n)
  | inl mv => compareTyped val t mv
  end.

Definition evalLeaf (cond : Condition) (input : string) (m : cache) : bool * cache :=
  if c_Star cond then (true, m)
  else match c_Branch cond with
  | None => (false, m)
  | Some branch =>
      if slen branch =? 0 then (false, m)
      else if slen (c_MatchType cond) =? 0 then (false, m)
      else
        let val := gjson_Get input (TrimPrefix branch ".") in
        match c_MatchCall cond with
        | Some call => (eval_call val (c_MatchType cond) call, m)
        | None =>
            if is_regex_op (c_MatchType cond) then
              let verdict (re : option Regexp) : bool :=
                match re with
                | Some re => eqb (MatchString re (String_ val)) (c_MatchType cond =s "=~")
                | None => false
                end in
              match c_re cond with
              | Some re => (verdict (Some re), m)
              | None =>
                  match c_MatchValue cond with
                  | AString pattern =>
                      let '(re, m) := compiledPattern pattern m in (verdict re, m)
                  | _ => (false, m)
                  end
              end
            else (compareTyped val (c_MatchType cond) (c_MatchValue cond), m)
        end
  end.

(** The And and Or loops of [evalExpr], with their early returns. *)
Section Loops.
Variable ev : WhenExpr -> cache -> bool * cache.
Fixpoint and_loop (l : list WhenExpr) (m : cache) : bool * cache :=
  match l with
  | [] => (true, m)
  | e :: l => let '(r, m) := ev e m in if negb r then (false, m) else and_loop l m
  end.
Fixpoint or_loop (l : list WhenExpr) (m : cache) : bool * cache :=
  match l with
  | [] => (false, m)
  | e :: l => let '(r, m) := ev e m in if r then (true, m) else or_loop l m
  end.
End Loops.

Fixpoint evalExpr (e : WhenExpr) (input : string) (m : cache) {struct e} : bool * cache :=
  let 'mkWhenExpr a o n c hl st := e in
  if st then (true, m)
  else if hl then evalLeaf c input m
  else if 0 <? length a then and_loop (fun x => evalExpr x input) a m
  else if 0 <? length o then or_loop (fun x => evalExpr x input) o m
  else match n with
       | Some x => let '(r, m) := evalExpr x input m in (negb r, m)
       | None => (false, m)
       end.

(** [(e *WhenExpr).Matches]; a nil tree holds. *)
Definition Matches (e : option WhenExpr) (input : string) (m : cache) : bool * cache :=
  match e with None => (true, m) | Some e => evalExpr e input m end.

Definition WhenMatches (res : Resonator) (input : string) (m : cache) : bool * cache :=
  if input =s "" then (false, m)
  else match r_When res with
  | None => (true, m)
  | Some w =>
      match w_Expr w with
      | Some e => evalExpr e input m
      | None =>
          if length (w_Conditions w) =? 0 then (true, m)
          else if existsb c_Star (w_Conditions w) then (true, m)
          else evalExpr (WhenAnd (map WhenLeaf (w_Conditions w))) input m
      end
  end.
End Eval.

(** ** Reference semantics

    What a WHEN tree means, with no cache, no precompiled pattern and no
    early return. *)

Section Reference.
Context `{RegexpEngine, Gjson, Funcs}.

Definition leaf_holds (cond : Condition) (input : string) : bool :=
  c_Star cond ||
  match c_Branch cond with
  | None => false
  | Some branch =>
      negb (branch =s "") && negb (c_MatchType cond =s "") &&
      let val := gjson_Get input (TrimPrefix branch ".") in
      match c_MatchCall cond with
      | Some call => eval_call val (c_MatchType cond) call
      | None =>
          if is_regex_op (c_MatchType cond) then
            match c_MatchValue cond with
            | AString p => re_ok p && eqb (re_match p (String_ val)) (c_MatchType cond =s "=~")
            | _ => false
            end
          else compareTyped val (c_MatchType cond) (c_MatchValue cond)
      end
  end.

Fixpoint holds (e : WhenExpr) (input : string) : bool :=
  let 'mkWhenExpr a o n c hl st := e in
  st ||
  (if hl then leaf_holds c input
   else match a, o, n with
        | _ :: _, _, _ => forallb (fun x => holds x input) a
        | [], _ :: _, _ => existsb (fun x => holds x input) o
        | [], [], Some x => negb (holds x input)
        | [], [], None => false
        end).

Definition when_holds (res : Resonator) (input : string) : bool :=
  negb (input =s "") &&
  match r_When res with
  | None => true
  | Some w =>
      match w_Expr w with
      | Some e => holds e input
      | None => existsb c_Star (w_Conditions w) ||
                forallb (fun c => leaf_holds c input) (w_Conditions w)
      end
  end.

(** A precompiled pattern is the compilation of the condition's own pattern. *)
Definition re_coherent (c : Condition) : Prop :=
  forall re, c_re c = Some re ->
    is_regex_op (c_MatchType c) = true /\
    c_MatchValue c = AString re /\ re_ok re = true.

(** The cache only holds what [regexp.Compile] answers, within its bound. *)
Definition cache_ok (m : cache) : Prop :=
  (forall p r, m !! p = Some r -> r = Compile p) /\ size m <= maxCachedPatterns.
End Reference.

(** Every leaf of a tree satisfies [P]. *)
Inductive all_leaves (P : Condition -> Prop) : WhenExpr -> Prop :=
| all_leaves_intro a o n c hl st :
    Forall (all_leaves P) a -> Forall (all_leaves P) o ->
    (forall x, n = Some x -> all_leaves P x) -> (hl = true -> P c) ->
    all_leaves P (mkWhenExpr a o n c hl st).

(** Rebuild a tree with a function applied to its leaves. *)
Fixpoint map_leaves (f : Condition -> Condition) (e : WhenExpr) : WhenExpr :=
  let 'mkWhenExpr a o n c hl st := e in
  mkWhenExpr (map (map_leaves f) a) (map (map_leaves f) o)
    match n with Some x => Some (map_leaves f x) | None => None end
    (if hl then f c else c) hl st.

(** ** The cached evaluation computes the reference semantics *)

Section Facts.
Context `{RegexpEngine, Gjson, Funcs}.

Lemma Compile_verdict p subj pos :
  match Compile p with Some re => eqb (MatchString re subj) pos | None => false end =
  re_ok p && eqb (re_match p subj) pos.
Proof. unfold Compile, MatchString. by destruct (re_ok p). Qed.

Lemma cache_ok_empty : cache_ok ∅.
Proof. split; [intros p r; by rewrite lookup_empty|]. rewrite map_size_empty. lia. Qed.

Lemma patterns_store_ok m p : cache_ok m -> cache_ok (patterns_store m p (Compile p)).
Proof.
  intros [Hc Hs]. unfold patterns_store. case_bool; [|done]. bool_to_prop. split.
  - intros q r. rewrite lookup_insert_Some. intros [[<- <-]|[_ ?]]; auto.
  - rewrite map_size_insert. destruct (m !! p); simpl; lia.
Qed.

Lemma compiledPattern_spec p m :
  cache_ok m ->
  fst (compiledPattern p m) = Compile p /\ cache_ok (snd (compiledPattern p m)).
Proof.
  intros Hm. unfold compiledPattern, patterns_lookup. destruct (m !! p) as [r|] eqn:E; simpl.
  - split; [|done]. by apply Hm.
  - split; [done|]. by apply patterns_store_ok.
Qed.

Lemma slen_zero s : (slen s =? 0) = (s =s "").
Proof. by destruct s. Qed.

Lemma evalLeaf_spec c input m :
  re_coherent c -> cache_ok m ->
  fst (evalLeaf c input m) = leaf_holds c input /\ cache_ok (snd (evalLeaf c input m)).
Proof.
  intros Hc Hm. unfold evalLeaf, leaf_holds. destruct (c_Star c); [done|]. simpl.
  destruct (c_Branch c) as [br|]; [|done]. rewrite !slen_zero.
  destruct (br =s ""); [done|]. destruct (c_MatchType c =s ""); [done|]. simpl.
  destruct (c_MatchCall c); [done|].
  destruct (is_regex_op (c_MatchType c)) eqn:Er; [|done].
  destruct (c_re c) as [re|] eqn:Ere.
  - destruct (Hc re Ere) as (_ & -> & ->). done.
  - destruct (c_MatchValue c) as [| | | |p| | |]; try done.
    pose proof (compiledPattern_spec p m Hm) as [E ?].
    destruct (compiledPattern p m) as [re m'] eqn:Ep; simpl in *. subst re.
    by rewrite Compile_verdict.
Qed.

Section LoopFacts.
Variables (ev : WhenExpr -> cache -> bool * cache) (h : WhenExpr -> bool).
Definition evaluates (e : WhenExpr) : Prop :=
  forall m, cache_ok m -> fst (ev e m) = h e /\ cache_ok (snd (ev e m)).

Lemma and_loop_spec l m :
  Forall evaluates l -> cache_ok m ->
  fst (and_loop ev l m) = forallb h l /\ cache_ok (snd (and_loop ev l m)).
Proof.
  intros Hl. revert m; induction Hl as [|e l He _ IH]; intros m Hm; [done|]. simpl.
  destruct (He m Hm) as [Ev Hm']. destruct (ev e m) as [r m']; simpl in *. subst r.
  destruct (h e); simpl; auto.
Qed.

Lemma or_loop_spec l m :
  Forall evaluates l -> cache_ok m ->
  fst (or_loop ev l m) = existsb h l /\ cache_ok (snd (or_loop ev l m)).
Proof.
  intros Hl. revert m; induction Hl as [|e l He _ IH]; intros m Hm; [done|]. simpl.
  destruct (He m Hm) as [Ev Hm']. destruct (ev e m) as [r m']; simpl in *. subst r.
  destruct (h e); simpl; auto.
Qed.
End LoopFacts.

Lemma evalExpr_spec e input m :
  all_leaves re_coherent e -> cache_ok m ->
  fst (evalExpr e input m) = holds e input /\ cache_ok (snd (evalExpr e input m)).
Proof.
  intros He. revert m. induction e as [a o n c hl st IHa IHo IHn] using WhenExpr_ind'.
  inversion He as [? ? ? ? ? ? La Lo Ln Lc]; subst. clear He.
  assert (Forall (evaluates (fun x => evalExpr x input) (fun x => holds x input)) a)
    by (clear -IHa La; induction La; inversion IHa; constructor; unfold evaluates; auto).
  assert (Forall (evaluates (fun x => evalExpr x input) (fun x => holds x input)) o)
    by (clear -IHo Lo; induction Lo; inversion IHo; constructor; unfold evaluates; auto).
  intros m Hm. cbn [evalExpr holds].
  destruct st; [done|]. destruct hl; [by apply evalLeaf_spec; auto|]. simpl orb.
  destruct a as [|x a]; [|by apply and_loop_spec].
  destruct o as [|x o]; [|by apply or_loop_spec]. simpl.
  destruct n as [x|]; [|done].
  destruct (IHn x eq_refl (Ln x eq_refl) m Hm) as [Ev ?].
  destruct (evalExpr x input m); simpl in *. by subst.
Qed.

(** Every leaf of a rule's WHEN clause, in either of its two shapes. *)
Definition when_coherent (res : Resonator) : Prop :=
  forall w, r_When res = Some w ->
    (forall e, w_Expr w = Some e -> all_leaves re_coherent e) /\
    Forall re_coherent (w_Conditions w).

Lemma holds_promoted l input :
  l <> [] -> holds (WhenAnd (map WhenLeaf l)) input = forallb (fun c => leaf_holds c input) l.
Proof.
  intros Hl. destruct l as [|c l]; [done|]. cbn [holds WhenAnd map orb].
  change (WhenLeaf c :: map WhenLeaf l) with (map WhenLeaf (c :: l)).
  generalize (c :: l) as k. induction k as [|d k IH]; [done|]. simpl. by rewrite IH.
Qed.

Lemma WhenMatches_spec res input m :
  when_coherent res -> cache_ok m ->
  fst (WhenMatches res input m) = when_holds res input /\
  cache_ok (snd (WhenMatches res input m)).
Proof.
  intros Hr Hm. unfold WhenMatches, when_holds.
  destruct (input =s ""); [done|]. cbn [negb andb]. destruct (r_When res) as [w|] eqn:Ew; [|done].
  destruct (Hr w Ew) as [He Hc]. destruct (w_Expr w) as [e|]; [apply evalExpr_spec; auto|].
  destruct (w_Conditions w) as [|c l] eqn:Ec; [done|]. cbn [length Nat.eqb].
  destruct (existsb c_Star (c :: l)); [done|]. rewrite orb_false_l, <- (holds_promoted (c :: l)) by done.
  apply evalExpr_spec; [|done]. constructor; [|done|done|done].
  apply Forall_map. eapply Forall_impl; [exact Hc|]. intros d Hd. by constructor.
Qed.

(** matching a rule against an envelope with the shared pattern cache,
    precompiled patterns and short-circuit loops answers what the WHEN
    clause means: no input never matches, no clause always does, a legacy
    condition list is a conjunction any Star entry of which satisfies. The
    cache stays truthful and within its 4096 entries. *)
Theorem WhenMatches_refines res input m :
  when_coherent res -> cache_ok m ->
  fst (WhenMatches res input m) = when_holds res input /\
  cache_ok (snd (WhenMatches res input m)).
Proof. apply WhenMatches_spec. Qed.

Lemma CompileMatch_coherent c : re_coherent c -> re_coherent (CompileMatch c).
Proof.
  intros Hc. unfold CompileMatch. case_bool; [done|].
  destruct (c_MatchValue c) as [| | | |p| | |] eqn:Ev; try done.
  unfold Compile. destruct (re_ok p) eqn:Ep; [|done].
  intros re Hre. injection Hre as <-. simpl. rewrite Ev.
  split; [|done]. unfold is_regex_op.
  by destruct (c_MatchType c =s "=~"), (c_MatchType c =s "!~").
Qed.

Lemma CompileMatch_holds c input : leaf_holds (CompileMatch c) input = leaf_holds c input.
Proof.
  unfold CompileMatch. case_bool; [done|].
  destruct (c_MatchValue c) as [| | | |p| | |] eqn:Ev; try done.
  destruct (Compile p); done.
Qed.

Lemma map_leaves_holds f input :
  (forall c, leaf_holds (f c) input = leaf_holds c input) ->
  forall e, holds (map_leaves f e) input = holds e input.
Proof.
  intros Hf e. induction e as [a o n c hl st IHa IHo IHn] using WhenExpr_ind'.
  cbn [map_leaves holds]. destruct hl; [by rewrite Hf|]. f_equal.
  assert (Ea : forallb (fun x => holds x input) (map (map_leaves f) a) =
               forallb (fun x => holds x input) a)
    by (clear -IHa; induction IHa as [|x l Hx _ IH]; [done|]; simpl; by rewrite Hx, IH).
  assert (Eo : existsb (fun x => holds x input) (map (map_leaves f) o) =
               existsb (fun x => holds x input) o)
    by (clear -IHo; induction IHo as [|x l Hx _ IH]; [done|]; simpl; by rewrite Hx, IH).
  destruct a as [|x a]; [|exact Ea]. destruct o as [|x o]; [|exact Eo].
  destruct n as [x|]; [|done]. simpl. by rewrite (IHn x eq_refl).
Qed.

Lemma map_leaves_all (P Q : Condition -> Prop) f :
  (forall c, P c -> Q (f c)) -> forall e, all_leaves P e -> all_leaves Q (map_leaves f e).
Proof.
  intros Hf e. induction e as [a o n c hl st IHa IHo IHn] using WhenExpr_ind'.
  inversion 1 as [? ? ? ? ? ? La Lo Ln Lc]; subst. cbn [map_leaves]. constructor.
  - clear -IHa La. induction La; inversion IHa; subst; simpl; constructor; auto.
  - clear -IHo Lo. induction Lo; inversion IHo; subst; simpl; constructor; auto.
  - intros x Hx. destruct n as [y|]; [|done]. injection Hx as <-.
    by apply (IHn y eq_refl), Ln.
  - destruct hl; [auto|done].
Qed.

(** Compiling the patterns of a tree ahead of time is unobservable: from
    any two truthful caches, the compiled and the uncompiled tree give the
    same answer on every envelope. *)
Theorem CompileMatch_transparent e input m m' :
  all_leaves re_coherent e -> cache_ok m -> cache_ok m' ->
  fst (evalExpr (map_leaves CompileMatch e) input m) = fst (evalExpr e input m').
Proof.
  intros He Hm Hm'.
  destruct (evalExpr_spec e input m' He Hm') as [-> _].
  destruct (evalExpr_spec (map_leaves CompileMatch e) input m) as [-> _]; [|done|].
  - eapply map_leaves_all; [|exact He]. apply CompileMatch_coherent.
  - apply map_leaves_holds. intros c. apply CompileMatch_holds.
Qed.
End Facts.

(** ** Concurrent use of the pattern cache

    A thread of [compiledPattern] looks the pattern up under the read lock and,
    on a miss, stores the compilation under the write lock; the steps of
    several threads interleave between the two critical sections. *)

Inductive thread :=
| TLook (p : string)
| TStore (p : string) (re : option Regexp)
| TDone (p : string) (re : option Regexp).

Section Threads.
Context `{RegexpEngine}.

Definition config : Type := cache * list thread.

Inductive cstep : config -> config -> Prop :=
| cstep_hit m ts us p re :
    patterns_lookup m p = Some re ->
    cstep (m, ts ++ TLook p :: us) (m, ts ++ TDone p re :: us)
| cstep_miss m ts us p :
    patterns_lookup m p = None ->
    cstep (m, ts ++ TLook p :: us) (m, ts ++ TStore p (Compile p) :: us)
| cstep_store m ts us p re :
    cstep (m, ts ++ TStore p re :: us) (patterns_store m p re, ts ++ TDone p re :: us).

Definition thread_ok (t : thread) : Prop :=
  match t with TLook _ => True | TStore p re | TDone p re => re = Compile p end.

Definition config_ok (c : config) : Prop := cache_ok c.1 /\ Forall thread_ok c.2.

Lemma cstep_ok c c' : config_ok c -> cstep c c' -> config_ok c'.
Proof.
  intros [Hm Ht] Hs. destruct Hs as [m ts us p re E|m ts us p E|m ts us p re];
    simpl in Hm, Ht; apply Forall_app in Ht as [Ht1 Ht2];
    apply Forall_cons in Ht2 as [Hp Hu]; split; simpl in *.
  - done.
  - apply Forall_app; split; [done|]. constructor; [|done]. simpl. by apply Hm.
  - done.
  - apply Forall_app; split; [done|]. by constructor.
  - subst re. by apply patterns_store_ok.
  - apply Forall_app; split; [done|]. by constructor.
Qed.

(** however the lookups and the insertions of concurrent callers
    interleave, starting from the empty cache, every caller that returns got
    the compilation of its own pattern, and the cache never exceeds its
    bound. *)
Theorem compiledPattern_concurrent ps m ts p re :
  rtc cstep (∅, map TLook ps) (m, ts) ->
  size m <= maxCachedPatterns /\ (TDone p re ∈ ts -> re = Compile p).
Proof.
  intros Hr. assert (Hok : config_ok (m, ts)).
  { assert (Hi : config_ok (∅, map TLook ps)).
    { split; [apply cache_ok_empty|]. simpl. apply Forall_map, Forall_true. done. }
    revert Hi. generalize (∅ : cache, map TLook ps) (m, ts) Hr.
    induction 1; eauto using cstep_ok. }
  destruct Hok as [[_ Hs] Ht]. split; [done|]. intros Hin.
  by apply (proj1 (Forall_forall _ _) Ht) in Hin.
Qed.
End Threads.

(** ** Witnesses *)

(** A toy engine: a pattern is a literal to be found in the subject, and the
    lone bracket does not compile. *)
Definition toy_engine : RegexpEngine :=
  {| re_ok := fun p => negb (p =s "["); re_match := fun p s => Contains s p |}.
Definition toy_gjson : Gjson := fun doc path =>
  if path =s "color" then mkResult true 0 (f64_of_Z 0) doc false (AString doc)
  else mkResult false 0 (f64_of_Z 0) "" false ANil.
Definition toy_funcs : Funcs := fun n =>
  if n =s "red" then Some (fun _ => inl (AString "red")) else None.

Definition toy_cond (op : string) (v : any) : Condition :=
  mkCondition false (Some ".color") op v None None None None.
Definition toy_rule : Resonator :=
  mkResonator (Some (mkWhen (Some (WhenAnd [WhenLeaf (toy_cond "=~" (AString "re"));
                                            WhenNot (WhenLeaf (toy_cond "eq" (AString "blue")))]))
                            [])) None None None ∅ 0 "" None None.

Lemma WhenMatches_refines_witness :
  let go := @WhenMatches toy_engine toy_gjson toy_funcs toy_rule in
  fst (go "red" ∅) = @when_holds toy_engine toy_gjson toy_funcs toy_rule "red" /\
  fst (go "red" ∅) = true /\ fst (go "blue" ∅) = false.
Proof.
  split; [|split; reflexivity].
  refine (proj1 (@WhenMatches_refines toy_engine toy_gjson toy_funcs toy_rule "red" ∅ _ _)).
  - intros w Hw. injection Hw as <-. split; [|constructor].
    intros e He. injection He as <-. repeat constructor; try discriminate.
    intros x Hx. injection Hx as <-. repeat constructor; discriminate.
  - apply cache_ok_empty.
Defined.

Lemma CompileMatch_transparent_witness :
  let e := WhenNot (WhenLeaf (toy_cond "!~" (AString "re"))) in
  let ev := @evalExpr toy_engine toy_gjson toy_funcs in
  fst (ev (map_leaves (@CompileMatch toy_engine) e) "red" ∅) = fst (ev e "red" ∅) /\
  map_leaves (@CompileMatch toy_engine) e <> e /\ fst (ev e "red" ∅) = true.
Proof.
  intros e ev. split; [|split; [discriminate|reflexivity]].
  apply CompileMatch_transparent; try apply cache_ok_empty.
  constructor; try constructor; try discriminate. intros x Hx. injection Hx as <-.
  constructor; try constructor; discriminate.
Defined.

Lemma compiledPattern_concurrent_witness :
  exists m : cache, size m <= maxCachedPatterns /\
    (TDone "a" (Some "a") ∈ [TDone "a" (Some "a"); TDone "a" (Some "a")] ->
     Some "a" = @Compile toy_engine "a") /\ m !! "a" = Some (Some "a").
Proof.
  exists {["a" := Some "a"]}.
  assert (Hr : rtc (@cstep toy_engine) (∅, map TLook ["a"; "a"])
                 ({["a" := Some "a"]}, [TDone "a" (Some "a"); TDone "a" (Some "a")])).
  { eapply rtc_l; [apply (cstep_miss _ [] [TLook "a"]); reflexivity|].
    eapply rtc_l; [apply (cstep_miss _ [TStore "a" (Some "a")] []); reflexivity|].
    eapply rtc_l; [apply (cstep_store _ [] [TStore "a" (Some "a")] "a" (Some "a"))|].
    eapply rtc_l; [apply (cstep_store _ [TDone "a" (Some "a")] [] "a" (Some "a"))|].
    reflexivity. }
  split; [|split; [|reflexivity]];
    apply (@compiledPattern_concurrent toy_engine ["a"; "a"] _ _ "a" (Some "a") Hr).
Defined.
