(* ===== verification/Parser.v ===== *)
(** * The txcl parser (chassis/txcl/parser/parser.go, errors.go, txcl.go)

    A recursive-descent parser over the token stream, written as the Go code
    is: one definition per method, in a state monad over the [Parser] struct.
    Recursion and loops carry fuel ([None] is "out of fuel"); ParserFacts.v
    shows that the fuel of [ParseEvent] is always enough.  A diagnostic is a
    constructor of [ParseError] with the values its message interpolates. *)

From Stdlib Require Import Ascii String ZArith Lia Bool.
From stdpp Require Import base tactics list strings gmap.
From S2P Require Import Prelude GoStrings GoStrconv Token Lexer Ast Runtime Opname Resonator.

(** ** Diagnostics *)

Inductive ParseError :=
| CurError (want got : TokenType)
| WrongType (expecting received : string)
| BadTarget (cause : NameErr)
| LoopNoExec
| LoopNoop
| LoopStageJump (exec : string)
| LoopMode (mode : string)
| UnexpectedToken (lit : string)
| LoopRepeated (modifier : string)
| LoopUntilPredicate (lit : string)
| LoopMaxExpects (lit : string)
| LoopMaxPositive (lit : string)
| LoopNeedsUntil
| LoopEveryString (lit : string)
| LoopEveryNegative (lit : string)
| LoopEveryInt (lit : string)
| LoopEveryOther (lit : string)
| PriorityNotInt (lit : string)
| ExecMissing
| SelectStarList
| SelectSource
| SelectDest
| ExpectedAfter (keyword op : string)
| ExpectedInside (keyword : string)
| ExpectedClose (keyword : string)
| ExpectedBranch (keyword lit : string)
| ExpectedComparison (keyword : string) (got : TokenType)
| RegexCall (keyword : string)
| PathArgument (keyword name path : string)
| UnknownInWhen (name keyword : string)
| RegexLiteral (keyword lit : string).

(** ** State and monad *)

Record Parser := mkParser {
  p_l : Lexer;
  p_errors : list ParseError;
  p_cur : Token;
  p_peek : Token;
  p_seenSelect : bool;
  p_strict : bool;
  p_inGarbage : bool;
  p_predicateKeyword : string }.

Definition M (A : Type) : Type := Parser -> option (A * Parser).

Definition ret {A} (a : A) : M A := fun p => Some (a, p).
Definition bind {A B} (m : M A) (k : A -> M B) : M B :=
  fun p => match m p with Some (a, p) => k a p | None => None end.
Definition out_of_fuel {A} : M A := fun _ => None.
Definition gets {A} (f : Parser -> A) : M A := fun p => Some (f p, p).
Definition modify (f : Parser -> Parser) : M unit := fun p => Some (tt, f p).

Notation "'let!' x := m 'in' k" := (bind m (fun x => k))
  (at level 10, x binder, m at level 100, k at level 200) : txco_scope.
Notation "'do!' m 'in' k" := (bind m (fun _ : unit => k))
  (at level 10, m at level 100, k at level 200) : txco_scope.

(** [for { body }]: an iteration continues with a new accumulator or leaves
    with the result. *)
Fixpoint loop {S R} (n : nat) (body : S -> M (S + R)) (s : S) : M R :=
  match n with
  | 0 => out_of_fuel
  | Datatypes.S n =>
      let! r := body s in
      match r with inl s => loop n body s | inr r => ret r end
  end.

(** ** Token access *)

Definition nextToken_ (p : Parser) : Parser :=
  let '(t, l) := NextToken (p_l p) in
  mkParser l (p_errors p) (p_peek p) t (p_seenSelect p) (p_strict p) (p_inGarbage p)
    (p_predicateKeyword p).
Definition nextToken : M unit := modify nextToken_.

Definition curTokenIs (t : TokenType) : M bool := gets (fun p => tt_eqb (Type_ (p_cur p)) t).
Definition peekTokenIs (t : TokenType) : M bool := gets (fun p => tt_eqb (Type_ (p_peek p)) t).
Definition curLit : M string := gets (fun p => Literal_ (p_cur p)).
Definition curType : M TokenType := gets (fun p => Type_ (p_cur p)).
Definition peekLit : M string := gets (fun p => Literal_ (p_peek p)).
Definition peekType : M TokenType := gets (fun p => Type_ (p_peek p)).
Definition one_of (ts : list TokenType) (t : TokenType) : bool := existsb (tt_eqb t) ts.

Definition add_error (e : ParseError) (p : Parser) : Parser :=
  mkParser (p_l p) (p_errors p ++ [e]) (p_cur p) (p_peek p) (p_seenSelect p) (p_strict p)
    (p_inGarbage p) (p_predicateKeyword p).
Definition error (e : ParseError) : M unit := modify (add_error e).
(** A diagnostic strict mode alone raises. *)
Definition strictError (e : ParseError) : M unit :=
  modify (fun p => if p_strict p then add_error e p else p).

Definition SeenSelect (hasSeen : bool) : M unit := modify (fun p =>
  mkParser (p_l p) (p_errors p) (p_cur p) (p_peek p) hasSeen (p_strict p) (p_inGarbage p)
    (p_predicateKeyword p)).
Definition set_inGarbage (g : bool) : M unit := modify (fun p =>
  mkParser (p_l p) (p_errors p) (p_cur p) (p_peek p) (p_seenSelect p) (p_strict p) g
    (p_predicateKeyword p)).
Definition set_predicateKeyword (k : string) : M unit := modify (fun p =>
  mkParser (p_l p) (p_errors p) (p_cur p) (p_peek p) (p_seenSelect p) (p_strict p)
    (p_inGarbage p) k).
Definition SetStrict (strict : bool) (p : Parser) : Parser :=
  mkParser (p_l p) (p_errors p) (p_cur p) (p_peek p) (p_seenSelect p) strict (p_inGarbage p)
    (p_predicateKeyword p).

Definition New (l : Lexer) : Parser :=
  nextToken_ (nextToken_ (mkParser l [] zeroToken zeroToken false false false "")).

(** errors.go *)
Definition curError (t : TokenType) : M unit :=
  let! got := curType in error (CurError t got).
Definition wrongTypeParseError (expecting : string) : M unit :=
  let! lit := curLit in error (WrongType expecting lit).

(** Report and give up: the [return nil] after a diagnostic. *)
Definition fail {A} (m : M unit) : M (option A) := do! m in ret None.

(** ** Values *)

Definition parseArrayLiteral (parseLiteralValue : M (option any)) (n : nat) : M (option any) :=
  let! empty := peekTokenIs RBRACKET in
  if empty : bool then do! nextToken in ret (Some (ASlice []))
  else loop n (fun items : list any =>
    do! nextToken in
    let! trailing := curTokenIs RBRACKET in
    if trailing : bool then ret (inr (Some (ASlice items))) else
    let! v := parseLiteralValue in
    match v with
    | None => ret (inr None)
    | Some v =>
        let items := items ++ [v] in
        let! comma := peekTokenIs COMMA in
        if comma : bool then do! nextToken in ret (inl items) else
        let! close := peekTokenIs RBRACKET in
        if close : bool then do! nextToken in ret (inr (Some (ASlice items)))
        else do! nextToken in
             let! r := fail (wrongTypeParseError "',' or ']'") in ret (inr r)
    end) [].

Fixpoint parseLiteralValue (n : nat) : M (option any) :=
  match n with
  | 0 => out_of_fuel
  | S k =>
      let! t := curType in
      let! lit := curLit in
      match t with
      | INT => ret (Some (AInt64 (fst (ParseInt lit))))
      | FLOAT => ret (Some (AFloat64 (fst (ParseFloat lit))))
      | TRUE | FALSE => ret (Some (ABool (fst (ParseBool lit))))
      | STRING => ret (Some (AString lit))
      | LBRACKET => parseArrayLiteral (parseLiteralValue k) n
      | _ => fail (wrongTypeParseError "bool, int, float, string, or array")
      end
  end.

Definition parseFunctionCall (parseValueExpr : M (option Value)) (n : nat) : M (option Value) :=
  let! name := curLit in
  let! open := peekTokenIs LPAREN in
  if negb open then do! nextToken in fail (wrongTypeParseError ("'(' after &" ++ name))
  else
    do! nextToken in
    let! close := peekTokenIs RPAREN in
    if close : bool then do! nextToken in ret (Some (FunctionCall name []))
    else loop n (fun args : list Value =>
      do! nextToken in
      let! v := parseValueExpr in
      match v with
      | None => ret (inr None)
      | Some v =>
          let args := args ++ [v] in
          let! comma := peekTokenIs COMMA in
          if comma : bool then do! nextToken in ret (inl args) else
          let! close := peekTokenIs RPAREN in
          if close : bool then do! nextToken in ret (inr (Some (FunctionCall name args)))
          else do! nextToken in
               let! r := fail (wrongTypeParseError "',' or ')'") in ret (inr r)
      end) [].

Fixpoint parseValueExpr (n : nat) : M (option Value) :=
  match n with
  | 0 => out_of_fuel
  | S k =>
      let! amp := curTokenIs AMP_IDENT in
      if amp : bool then parseFunctionCall (parseValueExpr k) n else
      let! branch := curTokenIs BRANCH in
      if branch : bool then
        let! lit := curLit in ret (Some (PathRef (TrimPrefix lit ".")))
      else
        let! v := parseLiteralValue n in
        ret match v with Some v => Some (Literal v) | None => None end
  end.

(** ** Assignment lists: SET, EMIT, LOOP SET, WITH *)

(** The loop condition of the clause parsers, negated. *)
Definition at_stop (stops : list TokenType) : M bool :=
  gets (fun p => tt_eqb (Type_ (p_cur p)) EOF || one_of stops (Type_ (p_peek p))).
Definition skip_if (c : bool) : M unit := if c then nextToken else ret tt.
(** The tail of an iteration: over a comma, then onto the next item. *)
Definition end_of_item (stops : list TokenType) : M unit :=
  let! comma := peekTokenIs COMMA in
  do! skip_if comma in
  let! t := peekType in
  skip_if (negb (one_of stops t)).

(** [<branch> = <value>] at the current token. *)
Definition parse_assignment (n : nat) (expecting : string) : M (option BranchValue) :=
  let! branch := curTokenIs BRANCH in
  if negb branch then fail (wrongTypeParseError expecting) else
  let! path := curLit in
  do! nextToken in
  let! assign := curTokenIs ASSIGN in
  if negb assign then fail (curError ASSIGN) else
  do! nextToken in
  let! v := parseValueExpr n in
  ret match v with Some v => Some (mkBranchValue path (Some v)) | None => None end.

(** One item of SET or EMIT, from its branch to the start of the next one. *)
Definition override_item (n : nat) (stops : list TokenType) (expecting : string)
    (overrides : list BranchValue) : M (list BranchValue + option (list BranchValue)) :=
  let! bv := parse_assignment n expecting in
  match bv with
  | None => ret (inr None)
  | Some bv => do! end_of_item stops in ret (inl (overrides ++ [bv]))
  end.

(** The loop SET and EMIT share, with their stop tokens and keyword. *)
Definition parse_overrides (n : nat) (stops : list TokenType) (kw : TokenType)
    (expecting : string) : M (option (list BranchValue)) :=
  loop n (fun overrides : list BranchValue =>
    let! stop := at_stop stops in
    if stop : bool then ret (inr (Some overrides)) else
    let! t := curType in
    do! skip_if (one_of [COMMA; kw] t) in
    override_item n stops expecting overrides) [].

Definition parseSetPrePhrase (n : nat) : M (option Set_) :=
  let! o := parse_overrides n [SELECT; WITH; PRIORITY; EXEC; EMIT; LOOP] SET ".branch" in
  ret match o with Some o => Some (mkSet o) | None => None end.

Definition parseSetPostPhrase (n : nat) : M (option Set_) :=
  let! o := parse_overrides n [WITH; PRIORITY; EXEC; EMIT; LOOP] SET ".Branch" in
  ret match o with Some o => Some (mkSet o) | None => None end.

Definition parseEmitPhrase (n : nat) : M (option Set_) :=
  let! o := parse_overrides n [SET; SELECT; WITH; PRIORITY; EXEC; LOOP] EMIT ".branch" in
  ret match o with Some o => Some (mkSet o) | None => None end.

Definition with_stops : list TokenType := [SET; PRIORITY; EXEC; EMIT; LOOP].

(** One item of WITH, from its name to the start of the next one. *)
Definition with_item (n : nat) (withs : gmap string Value)
    : M (gmap string Value + option (gmap string Value)) :=
  let! ident := curTokenIs IDENT in
  if negb ident then
    let! r := fail (wrongTypeParseError "with variable name") in ret (inr r)
  else
  let! name := curLit in
  do! nextToken in
  let! dotted := curTokenIs BRANCH in
  let! lit := curLit in
  let key := if dotted : bool then (name ++ lit)%string else name in
  do! skip_if dotted in
  let! assign := curTokenIs ASSIGN in
  if negb assign then let! r := fail (curError ASSIGN) in ret (inr r) else
  do! nextToken in
  let! v := parseValueExpr n in
  match v with
  | None => ret (inr None)
  | Some v => do! end_of_item with_stops in ret (inl (<[key := v]> withs))
  end.

Definition parseWithPhrase (n : nat) : M (option (gmap string Value)) :=
  loop n (fun withs : gmap string Value =>
    let! stop := at_stop with_stops in
    if stop : bool then ret (inr (Some withs)) else
    let! kw := curTokenIs WITH in
    do! skip_if kw in
    with_item n withs) ∅.

Definition parseLoopSet (n : nat) : M (option (list BranchValue)) :=
  loop n (fun set : list BranchValue =>
    do! nextToken in
    let! bv := parse_assignment n "LOOP SET .branch" in
    match bv with
    | None => ret (inr None)
    | Some bv =>
        let set := set ++ [bv] in
        let! comma := peekTokenIs COMMA in
        if negb comma then ret (inr (Some set)) else do! nextToken in ret (inl set)
    end) [].

(** ** WHEN *)

Definition exprKeyword : M string := gets (fun p =>
  if p_predicateKeyword p =s "" then "WHEN" else p_predicateKeyword p).

Definition isWhenPrimaryStart (t : TokenType) : bool := one_of [BRANCH; LPAREN; BANG] t.
Definition isStopForWhen (t : TokenType) : bool :=
  one_of [EOF; SET; SELECT; WITH; PRIORITY; EXEC; EMIT; LOOP] t.
Definition isComparison (t : TokenType) : bool :=
  one_of [GT; LT; LT_EQ; GT_EQ; EQ; NOT_EQ; MATCH; NO_MATCH] t.

Definition matchTypeOf (lit : string) : MatchType :=
  if lit =s "==" then "eq"
  else if lit =s ">=" then "gteq"
  else if lit =s "=~" then "=~"
  else if lit =s "!~" then "!~"
  else if lit =s "<=" then "lteq"
  else if lit =s "!=" then "ne"
  else if lit =s ">" then "gt"
  else if lit =s "<" then "lt"
  else "".

Definition matchValueOf (t : TokenType) (lit : string) : any :=
  match t with
  | INT => AInt64 (fst (ParseInt lit))
  | FLOAT => AFloat64 (fst (ParseFloat lit))
  | TRUE | FALSE => ABool (fst (ParseBool lit))
  | NULL => AString ""
  | _ => AString lit
  end.

Section When.
Context `{RegexpEngine, Funcs}.

(** The function-call right-hand side of a leaf. *)
Definition parseWhenCall (n : nat) (branch : string) (t : MatchType) : M (option WhenExpr) :=
  let! kw := exprKeyword in
  if is_regex_op t then fail (error (RegexCall kw)) else
  let! call := parseFunctionCall (parseValueExpr n) n in
  match call with
  | Some (FunctionCall name args) =>
      match firstPathArg (FunctionCall name args) with
      | Some path => fail (error (PathArgument kw name ("." ++ path)%string))
      | None =>
          do! (if negb (Has name) then strictError (UnknownInWhen name kw) else ret tt) in
          ret (Some (WhenLeaf
            (mkCondition false (Some branch) t ANil (Some (name, args)) None None None)))
      end
  | _ => ret None
  end.

Definition parseWhenLeaf (n : nat) : M (option WhenExpr) :=
  let! kw := exprKeyword in
  let! is_branch := curTokenIs BRANCH in
  let! branch := curLit in
  if negb is_branch then fail (error (ExpectedBranch kw branch)) else
  do! nextToken in
  let! ct := curType in
  let! op := curLit in
  if negb (isComparison ct) then fail (error (ExpectedComparison kw ct)) else
  let matchtype := matchTypeOf op in
  do! nextToken in
  let! t := curType in
  let! lit := curLit in
  if tt_eqb t AMP_IDENT then parseWhenCall n branch matchtype
  else if negb (one_of [TRUE; FALSE; FLOAT; INT; STRING; NULL; REGEX] t) then
    fail (wrongTypeParseError "bool, int, float, string, null, regex, or &function(...)")
  else if is_regex_op matchtype && one_of [INT; FLOAT; TRUE; FALSE] t then
    fail (error (RegexLiteral kw lit))
  else
    ret (Some (WhenLeaf (CompileMatch
      (mkCondition false (Some branch) matchtype (matchValueOf t lit) None None None None)))).

Definition parseWhenPrimary (n : nat) (parseWhenOr : M (option WhenExpr))
    : M (option WhenExpr) :=
  let! kw := exprKeyword in
  let! open := curTokenIs LPAREN in
  if open : bool then
    let! empty := peekTokenIs RPAREN in
    if empty : bool then fail (error (ExpectedInside kw)) else
    do! nextToken in
    let! inner := parseWhenOr in
    match inner with
    | None => ret None
    | Some inner =>
        let! close := peekTokenIs RPAREN in
        if negb close then fail (error (ExpectedClose kw))
        else do! nextToken in ret (Some inner)
    end
  else parseWhenLeaf n.

Fixpoint parseWhenNot (n : nat) (parseWhenPrimary : M (option WhenExpr))
    : M (option WhenExpr) :=
  match n with
  | 0 => out_of_fuel
  | S n =>
      let! bang := curTokenIs BANG in
      if bang : bool then
        let! kw := exprKeyword in
        let! t := peekType in
        if negb (isWhenPrimaryStart t) then fail (error (ExpectedAfter kw "!")) else
        do! nextToken in
        let! inner := parseWhenNot n parseWhenPrimary in
        ret match inner with Some e => Some (WhenNot e) | None => None end
      else parseWhenPrimary
  end.

(** An operand list: [operand (op operand)*], folded into one node when it
    has several members. *)
Definition parse_operands (n : nat) (operand : M (option WhenExpr)) (ops : list TokenType)
    (node : list WhenExpr -> WhenExpr) : M (option WhenExpr) :=
  let! first := operand in
  match first with
  | None => ret None
  | Some first =>
      loop n (fun parts : list WhenExpr =>
        let! t := peekType in
        if negb (one_of ops t) then
          ret (inr (Some (if length parts =? 1 then first else node parts)))
        else
          let! lit := peekLit in
          let opLit := if tt_eqb t LOR then "||" else lit in
          do! nextToken in
          let! kw := exprKeyword in
          let! start := peekType in
          if negb (isWhenPrimaryStart start) then
            let! r := fail (error (ExpectedAfter kw opLit)) in ret (inr r)
          else
            do! nextToken in
            let! rhs := operand in
            match rhs with
            | None => ret (inr None)
            | Some rhs => ret (inl (parts ++ [rhs]))
            end) [first]
  end.

Definition parseWhenAnd (n : nat) (parseWhenNot : M (option WhenExpr)) : M (option WhenExpr) :=
  parse_operands n parseWhenNot [LAND; COMMA] WhenAnd.

Fixpoint parseWhenOr (n : nat) : M (option WhenExpr) :=
  match n with
  | 0 => out_of_fuel
  | S k =>
      parse_operands n
        (parseWhenAnd n (parseWhenNot n (parseWhenPrimary n (parseWhenOr k))))
        [LOR] WhenOr
  end.

Definition parseWhenPhrase (n : nat) : M (option When) :=
  let! star := peekTokenIs STAR in
  if star : bool then do! nextToken in ret (Some (mkWhen (Some WhenStar) []))
  else
    let! t := peekType in
    if isStopForWhen t then ret (Some (mkWhen (Some WhenStar) []))
    else
      do! nextToken in
      let! expr := parseWhenOr n in
      ret match expr with Some e => Some (mkWhen (Some e) []) | None => None end.

(** ** LOOP *)

Definition peekIsWord (word : string) : M bool :=
  gets (fun p => tt_eqb (Type_ (p_peek p)) IDENT && EqualFold (Literal_ (p_peek p)) word).

Definition parseLoopEvery : M (option Z) :=
  let! t := curType in
  let! lit := curLit in
  match t with
  | STRING =>
      match ParseDuration lit with
      | None => fail (error (LoopEveryString lit))
      | Some d => if (d <? 0)%Z then fail (error (LoopEveryNegative lit)) else ret (Some d)
      end
  | INT =>
      match ParseInt lit with
      | (n, None) =>
          if (n <? 0)%Z then fail (error (LoopEveryInt lit))
          else ret (Some (wrap64 (n * Millisecond)))
      | (_, Some _) => fail (error (LoopEveryInt lit))
      end
  | _ => fail (error (LoopEveryOther lit))
  end.

Definition parseLoopMax : M (option Z) :=
  let! t := curType in
  let! lit := curLit in
  if negb (tt_eqb t INT) then fail (error (LoopMaxExpects lit)) else
  match ParseInt lit with
  | (n, None) => if (n <=? 0)%Z then fail (error (LoopMaxPositive lit)) else ret (Some n)
  | (_, Some _) => fail (error (LoopMaxPositive lit))
  end.

Definition parseLoopUntil (n : nat) : M (option WhenExpr) :=
  let! t := peekType in
  let! lit := peekLit in
  if negb (isWhenPrimaryStart t) then fail (error (LoopUntilPredicate lit)) else
  do! nextToken in
  do! set_predicateKeyword "LOOP UNTIL" in
  let! expr := parseWhenOr n in
  do! set_predicateKeyword "" in
  ret expr.

(** The [note] closure: a repeated modifier is a strict-mode diagnostic. *)
Definition note (seen : list string) (modifier : string) : M (list string) :=
  do! (if existsb (String.eqb modifier) seen then strictError (LoopRepeated modifier) else ret tt) in
  ret (modifier :: seen).

Definition parseLoopPhrase (n : nat) : M (option Loop) :=
  loop n (fun st : Loop * list string =>
    let '(lp, seen) := st in
    let! until := peekTokenIs UNTIL in
    if until : bool then
      do! nextToken in
      let! e := parseLoopUntil n in
      match e with
      | None => ret (inr None)
      | Some e =>
          let! seen := note seen "UNTIL" in
          ret (inl (mkLoop (Some e) (Max lp) (Every lp) (l_Set lp), seen))
      end
    else
    let! set := peekTokenIs SET in
    if set : bool then
      do! nextToken in
      let! bs := parseLoopSet n in
      match bs with
      | None => ret (inr None)
      | Some bs =>
          let! seen := note seen "SET" in
          ret (inl (mkLoop (Until lp) (Max lp) (Every lp) bs, seen))
      end
    else
    let! every := peekIsWord "every" in
    if every : bool then
      do! nextToken in
      do! nextToken in
      let! d := parseLoopEvery in
      match d with
      | None => ret (inr None)
      | Some d =>
          let! seen := note seen "EVERY" in
          ret (inl (mkLoop (Until lp) (Max lp) d (l_Set lp), seen))
      end
    else
    let! max := peekIsWord "max" in
    if max : bool then
      do! nextToken in
      do! nextToken in
      let! m := parseLoopMax in
      match m with
      | None => ret (inr None)
      | Some m =>
          let! seen := note seen "MAX" in
          ret (inl (mkLoop (Until lp) m (Every lp) (l_Set lp), seen))
      end
    else
      match Until lp with
      | None => let! r := fail (error LoopNeedsUntil) in ret (inr r)
      | Some _ => ret (inr (Some lp))
      end) (mkLoop None 0 0 [], []).

(** ** PRIORITY, EXEC, SELECT *)

Definition parsePriorityPhrase : M (option Z) :=
  do! nextToken in
  let! lit := curLit in
  match ParseInt lit with
  | (n, None) => ret (Some n)
  | (_, Some _) => fail (error (PriorityNotInt lit))
  end.

Definition parseExecPhrase : M (option string) :=
  let! str := peekTokenIs STRING in
  if negb str then fail (error ExecMissing) else
  do! nextToken in
  let! lit := curLit in ret (Some lit).

Definition parse_select_to (from : string) : M (option string) :=
  let! as_ := peekTokenIs AS in
  if as_ : bool then
    do! nextToken in
    let! dst := peekTokenIs BRANCH in
    if negb dst then fail (error SelectDest) else
    do! nextToken in
    let! lit := curLit in ret (Some lit)
  else ret (Some from).

Definition parse_select_default (n : nat) : M (option (option Value)) :=
  let! def := peekTokenIs DEFAULT in
  if def : bool then
    do! nextToken in
    do! nextToken in
    let! v := parseValueExpr n in
    ret match v with Some v => Some (Some v) | None => None end
  else ret (Some None).

Definition parseSelectPhrase (n : nat) : M (option Select) :=
  let! star := peekTokenIs ASTERISK in
  if star : bool then
    do! nextToken in
    let! comma := peekTokenIs COMMA in
    if comma : bool then fail (error SelectStarList) else
    do! SeenSelect true in ret (Some (mkSelect true []))
  else
    let! assignments := loop n (fun asns : list SelectAssignment =>
      do! nextToken in
      let! branch := curTokenIs BRANCH in
      if negb branch then let! r := fail (error SelectSource) in ret (inr r) else
      let! from := curLit in
      let! to := parse_select_to from in
      match to with
      | None => ret (inr None)
      | Some to =>
          let! def := parse_select_default n in
          match def with
          | None => ret (inr None)
          | Some def =>
              let asns := asns ++ [mkSelectAssignment from to def (bool_decide (is_Some def))] in
              let! comma := peekTokenIs COMMA in
              if negb comma then ret (inr (Some asns)) else do! nextToken in ret (inl asns)
          end
      end) [] in
    match assignments with
    | None => ret None
    | Some asns => do! SeenSelect true in ret (Some (mkSelect false asns))
    end.

(** ** The event *)

(** [resonator.Phrase]: the clause, tagged by its type. *)
Inductive Phrase :=
| PWhen (w : When)
| PSetPre (s : Set_)
| PSetPost (s : Set_)
| PWith (w : gmap string Value)
| PSelect (s : Select)
| PPriority (n : Z)
| PExec (e : string)
| PEmit (s : Set_)
| PLoop (l : Loop).

(** A clause starts: leave the garbage run, parse, tag. *)
Definition clause {A} (f : A -> Phrase) (m : M (option A)) : M (option Phrase) :=
  do! set_inGarbage false in
  let! r := m in
  ret match r with Some a => Some (f a) | None => None end.

Definition garbage : M (option Phrase) := fun p =>
  if p_strict p && negb (p_inGarbage p)
  then (do! error (UnexpectedToken (Literal_ (p_cur p))) in
        do! set_inGarbage true in ret None) p
  else Some (None, p).

Definition parseEventPhrase (n : nat) : M (option Phrase) :=
  let! t := curType in
  let! seen := gets p_seenSelect in
  match t with
  | WHEN => clause PWhen (parseWhenPhrase n)
  | SET => if negb seen then clause PSetPre (parseSetPrePhrase n)
           else clause PSetPost (parseSetPostPhrase n)
  | WITH => clause PWith (parseWithPhrase n)
  | SELECT => clause PSelect (parseSelectPhrase n)
  | PRIORITY => clause PPriority parsePriorityPhrase
  | EXEC => clause PExec parseExecPhrase
  | EMIT => clause PEmit (parseEmitPhrase n)
  | LOOP => clause PLoop (parseLoopPhrase n)
  | _ => garbage
  end.

(** The switch of [ParseEvent]: a phrase replaces its clause. *)
Definition apply_phrase (r : Resonator) (ph : option Phrase) : Resonator :=
  let 'mkResonator w sel pre post wi pri ex em lo := r in
  match ph with
  | None => r
  | Some (PWhen w) => mkResonator (Some w) sel pre post wi pri ex em lo
  | Some (PPriority n) => mkResonator w sel pre post wi n ex em lo
  | Some (PSelect s) => mkResonator w (Some s) pre post wi pri ex em lo
  | Some (PWith m) => mkResonator w sel pre post m pri ex em lo
  | Some (PLoop l) => mkResonator w sel pre post wi pri ex em (Some l)
  | Some (PSetPre s) => mkResonator w sel (Some s) post wi pri ex em lo
  | Some (PSetPost s) => mkResonator w sel pre (Some s) wi pri ex em lo
  | Some (PExec e) => mkResonator w sel pre post wi pri e em lo
  | Some (PEmit s) => mkResonator w sel pre post wi pri ex (Some s) lo
  end.

(** [stageJumpRE.MatchString], whose pattern asks for any text without a
    newline, one or more slashes, and digits up to the end. *)
Definition stageJumpRE (s : string) : bool :=
  match LastIndex s "/" with
  | None => false
  | Some i =>
      negb (sdrop (S i) s =s "") && sall is_dec (sdrop (S i) s) &&
      sall (fun c => negb (c =c LF)) (stake i s)
  end.

Definition checkLoop_exec (exec : string) : M unit :=
  if exec =s "" then error LoopNoExec
  else if exec =s "txco://noop" then error LoopNoop
  else if HasPrefix exec "txco://route" || HasPrefix exec GotoScheme ||
          (negb (Contains exec "://") && stageJumpRE exec)
  then error (LoopStageJump exec)
  else ret tt.

Definition checkLoop_mode (r : Resonator) : M unit :=
  match r_With r !! "mode" with
  | Some (Literal (AString mode)) =>
      if (mode =s "async") || (mode =s "continuable") then error (LoopMode mode) else ret tt
  | _ => ret tt
  end.

Definition checkLoop (r : Resonator) : M unit :=
  match r_Loop r with
  | None => ret tt
  | Some _ => do! checkLoop_exec (TrimSpace (r_Exec r)) in checkLoop_mode r
  end.

Definition checkGoto (r : Resonator) : M unit :=
  if negb (HasPrefix (r_Exec r) GotoScheme) then ret tt
  else match GotoTarget (r_Exec r) with inr e => error (BadTarget e) | inl _ => ret tt end.

Definition checkCall (r : Resonator) : M unit :=
  if negb (HasPrefix (r_Exec r) CallScheme) then ret tt
  else match CallTarget (r_Exec r) with inr e => error (BadTarget e) | inl _ => ret tt end.

Definition ParseEvent (n : nat) : M Resonator :=
  do! SeenSelect false in
  let! r := loop n (fun r : Resonator =>
    let! eof := curTokenIs EOF in
    if eof : bool then ret (inr r) else
    let! ph := parseEventPhrase n in
    do! nextToken in
    ret (inl (apply_phrase r ph))) Resonator_New in
  do! checkLoop r in
  do! checkGoto r in
  do! checkCall r in
  ret r.

(** ** txcl.go *)

(** One more than the token budget of a definition: each token takes a byte,
    and the parser holds two. *)
Definition parse_fuel (def : string) : nat := slen def + 3.

(** The lexer's and the parser's diagnostics, and the rule. *)
Definition parse (strict : bool) (def : string)
    : option (Resonator * list LexError * list ParseError) :=
  match ParseEvent (parse_fuel def) (SetStrict strict (New (NewLexer def))) with
  | Some (r, p) => Some (r, errs (p_l p), p_errors p)
  | None => None
  end.

(** [txcl.Resonator]: the rule, and the parser's diagnostics as the error. *)
Definition txcl_Resonator (def : string) : option (Resonator * list ParseError) :=
  match parse false def with Some (r, _, es) => Some (r, es) | None => None end.

(** [txcl.Validate]: lexer diagnostics, then parser diagnostics. *)
Definition Validate (def : string) : option (list (LexError + ParseError)) :=
  match parse true def with
  | Some (_, ls, es) => Some (map inl ls ++ map inr es)
  | None => None
  end.
End When.
