(* ===== verification/ParserFacts.v ===== *)
(** * The parser terminates and builds well-formed rules

    A total-correctness calculus for the parser monad ([wp]), the measure that
    every loop and recursive call decreases, and for each parsing function the
    fact that it returns, together with what the tree it returns looks like. *)

From Stdlib Require Import Ascii String ZArith Lia Bool.
From stdpp Require Import base tactics list strings gmap.
From S2P Require Import Prelude GoStrings GoStrconv Token Lexer LexerFacts Ast Runtime Opname Resonator Parser.

(** ** Weakest preconditions *)

Definition wp {A} (m : M A) (Q : A -> Parser -> Prop) (p : Parser) : Prop :=
  match m p with Some (a, p') => Q a p' | None => False end.

Lemma wp_mono {A} (m : M A) (Q Q' : A -> Parser -> Prop) p :
  wp m Q p -> (forall a p', Q a p' -> Q' a p') -> wp m Q' p.
Proof. unfold wp. destruct (m p) as [[a p']|]; auto. Qed.

Lemma wp_ret {A} (a : A) Q p : Q a p -> wp (ret a) Q p.
Proof. done. Qed.

Lemma wp_bind {A B} (m : M A) (k : A -> M B) Q p :
  wp m (fun a p' => wp (k a) Q p') p -> wp (bind m k) Q p.
Proof. unfold wp, bind. by destruct (m p) as [[a p']|]. Qed.

Lemma wp_seq {A B} (m : M A) (k : A -> M B) R Q p :
  wp m R p -> (forall a p', R a p' -> wp (k a) Q p') -> wp (bind m k) Q p.
Proof. intros Hm Hk. apply wp_bind. eapply wp_mono; eauto. Qed.

Lemma wp_gets {A} (f : Parser -> A) Q p : Q (f p) p -> wp (gets f) Q p.
Proof. done. Qed.

Lemma wp_modify f Q p : Q tt (f p) -> wp (modify f) Q p.
Proof. done. Qed.

(** ** Operator tokens *)

(** The comparison an operator token stands for. *)
Definition op_of_type (t : TokenType) : option MatchType :=
  match t with
  | EQ => Some "eq" | NOT_EQ => Some "ne"
  | LT => Some "lt" | LT_EQ => Some "lteq" | GT => Some "gt" | GT_EQ => Some "gteq"
  | MATCH => Some "=~" | NO_MATCH => Some "!~"
  | _ => None
  end.

(** The literal of an operator token spells its operator. *)
Definition tok_ok (t : Token) : Prop :=
  forall op, op_of_type (Type_ t) = Some op -> matchTypeOf (Literal_ t) = op.

Lemma tok_ok_other t lit : op_of_type t = None -> tok_ok (mkToken t lit).
Proof. intros H op. simpl. by rewrite H. Qed.

Lemma finish_tok tl : (finish tl).1 = tl.1.
Proof. done. Qed.

Lemma LookupIdent_op s : op_of_type (LookupIdent s) = None.
Proof.
  unfold LookupIdent. destruct (List.find _ _) as [[k t]|] eqn:E; [|done].
  apply List.find_some in E as [E _]. simpl in *.
  repeat (destruct E as [E|E]; [by simplify_eq|]). done.
Qed.

Lemma tok2_ok t l c d :
  (ch l =c c) = true -> (peekChar l =c d) = true ->
  tok_ok (mkToken t (string_of_byte c ++ string_of_byte d)) -> tok_ok (tok2 t l).1.
Proof.
  intros Hc Hd H. bool_to_prop. subst c d. exact H.
Qed.

Lemma tok1_ok t l c : (ch l =c c) = true -> tok_ok (newToken t c) -> tok_ok (tok1 t l).1.
Proof. intros Hc H. bool_to_prop. subst c. exact H. Qed.

Lemma numberToken_ok l : tok_ok (numberToken l).1.
Proof.
  unfold numberToken. destruct (readNumber l). apply tok_ok_other. by destruct (Contains _ _).
Qed.

Lemma defaultToken_ok l : tok_ok (defaultToken l).1.
Proof.
  unfold defaultToken. destruct (isLetter (ch l)).
  - destruct (readIdentifier l) as [lit l1]. destruct (_ && _).
    + destruct (readString l1). by apply tok_ok_other.
    + apply tok_ok_other, LookupIdent_op.
  - destruct (isDigit (ch l)); [apply numberToken_ok|by apply tok_ok_other].
Qed.

Lemma NextToken_ok l : tok_ok (NextToken l).1.
Proof.
  unfold NextToken, scanToken. set (k := set_start _ _). clearbody k. cbv zeta.
  repeat match goal with
  | |- tok_ok (if ?b then _ else _).1 => destruct b eqn:?
  | |- tok_ok (let '(_, _) := ?r in _).1 => destruct r
  | |- tok_ok (tok2 _ _).1 =>
      eapply tok2_ok; [eassumption|eassumption|intros ? H; vm_compute in H; by injection H as <-]
  | |- tok_ok (numberToken _).1 => apply numberToken_ok
  | |- tok_ok (defaultToken _).1 => apply defaultToken_ok
  end; try (by apply tok_ok_other).
  all: eapply tok1_ok; [eassumption|]; intros ? H; vm_compute in H; by injection H as <-.
Qed.

(** ** The measure *)

Definition pwf (p : Parser) : Prop := wf (p_l p) /\ tok_ok (p_cur p) /\ tok_ok (p_peek p).

Definition live (t : Token) : nat := if tt_eqb (Type_ t) EOF then 0 else 1.

(** Tokens still to come: at most one per byte, and the two in hand. *)
Definition mu (p : Parser) : nat := bytes_left (p_l p) + live (p_peek p) + live (p_cur p).

(** Between two states of one parser: no token is unread. *)
Definition le (p q : Parser) : Prop := pwf q /\ mu q <= mu p.
Definition lt (p q : Parser) : Prop := pwf q /\ mu q < mu p.
(** Progress, or the current token is still the same. *)
Definition le' (p q : Parser) : Prop := pwf q /\ (mu q < mu p \/ mu q <= mu p /\ p_cur q = p_cur p).

Lemma live_EOF t : live t = 0 <-> Type_ t = EOF.
Proof. unfold live, tt_eqb. case_bool_decide; naive_solver. Qed.
Lemma live_pos t : Type_ t <> EOF -> live t = 1.
Proof. unfold live, tt_eqb. by case_bool_decide. Qed.
Lemma live_le t : live t <= 1.
Proof. unfold live. case_bool; lia. Qed.

Lemma nextToken_mu p : pwf p -> pwf (nextToken_ p) /\ mu (nextToken_ p) + live (p_cur p) <= mu p.
Proof.
  intros (Hw & Hc & Hp). unfold nextToken_, mu, pwf in *.
  pose proof (NextToken_ok (p_l p)) as Ht. pose proof (NextToken_wf _ Hw) as Hw'. pose proof (NextToken_left _ Hw) as Hl.
  pose proof (NextToken_not_EOF _ Hw) as Hn.
  destruct (NextToken (p_l p)) as [t l]. simpl in *. split; [done|].
  destruct (decide (Type_ t = EOF)) as [E|E].
  - apply live_EOF in E. rewrite E. lia.
  - rewrite (live_pos t) by done. specialize (Hn E). lia.
Qed.

Lemma nextToken_cur p : p_cur (nextToken_ p) = p_peek p.
Proof. unfold nextToken_. by destruct (NextToken (p_l p)). Qed.

Lemma tt_eqb_true a b : tt_eqb a b = true <-> a = b.
Proof. unfold tt_eqb. apply bool_decide_eq_true. Qed.
Lemma tt_eqb_false a b : tt_eqb a b = false <-> a <> b.
Proof. unfold tt_eqb. apply bool_decide_eq_false. Qed.

(** The rule for [nextToken]: the successor state is characterised by what the
    parser can observe of it. *)
Lemma wp_next Q p :
  pwf p ->
  (forall q, pwf q -> mu q <= mu p -> (Type_ (p_cur p) <> EOF -> mu q < mu p) ->
             p_cur q = p_peek p -> Q tt q) ->
  wp nextToken Q p.
Proof.
  intros Hw HQ. destruct (nextToken_mu p Hw) as [Hw' Hm]. apply wp_modify, HQ.
  - done.
  - lia.
  - intros Ht. rewrite (live_pos _ Ht) in Hm. lia.
  - apply nextToken_cur.
Qed.

(** The rule for loops: an iteration that continues restores the invariant and
    decreases the measure, so [n] larger than the measure is enough. *)
Lemma wp_loop {S R} (Inv : S -> Parser -> Prop) (body : S -> M (S + R)) Q n s p :
  (forall s p, Inv s p ->
     wp (body s) (fun r p' => match r with
                              | inl s' => Inv s' p' /\ mu p' < mu p
                              | inr r => Q r p'
                              end) p) ->
  Inv s p -> mu p < n -> wp (loop n body s) Q p.
Proof.
  intros Hb. revert s p. induction n as [|n IH]; intros s p HI Hn; [lia|].
  simpl. apply wp_bind. eapply wp_mono; [exact (Hb s p HI)|].
  intros [s'|r] p'; [|done]. intros [HI' Hm]. apply IH; [done|lia].
Qed.

(** A state that only differs in its diagnostics and flags. *)
Definition same_tokens (p q : Parser) : Prop :=
  p_l q = p_l p /\ p_cur q = p_cur p /\ p_peek q = p_peek p.

Lemma same_tokens_pwf p q : same_tokens p q -> pwf p -> pwf q /\ mu q = mu p.
Proof. intros (Hl & Hc & Hp). unfold pwf, mu. by rewrite Hl, Hc, Hp. Qed.

Lemma SetStrict_same b p : same_tokens p (SetStrict b p).
Proof. done. Qed.

(** [modify] with a function that leaves the tokens alone. *)
Lemma wp_flag f Q p :
  pwf p -> (forall p, same_tokens p (f p)) ->
  (forall q, pwf q -> mu q = mu p -> p_cur q = p_cur p -> p_peek q = p_peek p -> Q tt q) ->
  wp (modify f) Q p.
Proof.
  intros Hw Hf HQ. destruct (same_tokens_pwf p (f p) (Hf p) Hw). destruct (Hf p) as (?&?&?).
  by apply wp_modify, HQ.
Qed.

Lemma strictError_same e p : same_tokens p (if p_strict p then add_error e p else p).
Proof. by destruct (p_strict p). Qed.

(** One step of symbolic execution. *)
Ltac wp_step :=
  match goal with
  | |- wp (bind _ _) _ _ => apply wp_bind
  | |- wp (ret _) _ _ => apply wp_ret
  | |- wp (gets _) _ _ => apply wp_gets
  | |- wp (curTokenIs _) _ _ => apply wp_gets
  | |- wp (peekTokenIs _) _ _ => apply wp_gets
  | |- wp (peekIsWord _) _ _ => apply wp_gets
  | |- wp (at_stop _) _ _ => apply wp_gets
  | |- wp curLit _ _ => apply wp_gets
  | |- wp curType _ _ => apply wp_gets
  | |- wp peekLit _ _ => apply wp_gets
  | |- wp peekType _ _ => apply wp_gets
  | |- wp exprKeyword _ _ => apply wp_gets
  | |- wp nextToken _ _ =>
      apply wp_next; [assumption|]; let q := fresh "q" in
      intros q ? ? ? ?
  | |- wp (error _) _ _ =>
      apply wp_flag; [assumption|by intros ?|]; let q := fresh "q" in intros q ? ? ? ?
  | |- wp (strictError _) _ _ =>
      apply wp_flag; [assumption|intros ?; apply strictError_same|];
      let q := fresh "q" in intros q ? ? ? ?
  | |- wp (set_inGarbage _) _ _ =>
      apply wp_flag; [assumption|by intros ?|]; let q := fresh "q" in intros q ? ? ? ?
  | |- wp (SeenSelect _) _ _ =>
      apply wp_flag; [assumption|by intros ?|]; let q := fresh "q" in intros q ? ? ? ?
  | |- wp (set_predicateKeyword _) _ _ =>
      apply wp_flag; [assumption|by intros ?|]; let q := fresh "q" in intros q ? ? ? ?
  | |- wp (fail _) _ _ => unfold fail
  | |- wp (wrongTypeParseError _) _ _ => unfold wrongTypeParseError
  | |- wp (curError _) _ _ => unfold curError
  | |- wp (skip_if _) _ _ => unfold skip_if
  | |- wp (if ?b then _ else _) _ _ => destruct b eqn:?
  end.
Ltac wp_run := repeat (cbv beta iota in *; wp_step).

(** Facts of boolean token tests. *)
Ltac tok_facts :=
  repeat match goal with
  | H : tt_eqb _ _ = true |- _ => apply tt_eqb_true in H
  | H : tt_eqb _ _ = false |- _ => apply tt_eqb_false in H
  | H : negb _ = true |- _ => apply negb_true_iff in H
  | H : negb _ = false |- _ => apply negb_false_iff in H
  | H : _ || _ = false |- _ => apply orb_false_iff in H as [? ?]
  | H : tt_eqb _ _ && _ = true |- _ => apply andb_true_iff in H as [? ?]
  | H : p_cur _ = p_peek _ |- _ => apply (f_equal Type_) in H
  | H : p_cur _ = p_cur _ |- _ => apply (f_equal Type_) in H
  end.

(** Chain the measure facts: a live current token makes [nextToken] progress. *)
Ltac chain :=
  repeat match goal with
  | H : Type_ (p_cur ?p) <> EOF -> mu _ < mu _ |- _ =>
      first [ specialize (H ltac:(congruence)) | clear H ]
  end; lia.

(** ** Values *)

Definition returns {A} (P : A -> Prop) (p : Parser) : option A -> Parser -> Prop :=
  fun r p' => le p p' /\ (forall a, r = Some a -> P a).

Ltac done_le := split; [split; [assumption|tok_facts; chain]|]; try done.

Section Values.
Lemma parseArrayLiteral_wp lv n p :
  (forall q, lt p q -> wp lv (returns (fun _ => True) q) q) ->
  pwf p -> Type_ (p_cur p) <> EOF -> mu p < n ->
  wp (parseArrayLiteral lv n) (returns (fun _ => True) p) p.
Proof.
  intros Hlv Hw Hc Hn. unfold parseArrayLiteral. wp_run; [done_le|].
  eapply (wp_loop (fun _ q => le p q /\ Type_ (p_cur q) <> EOF)); [|by split; [split|]|done].
  intros items q [[Hwq Hle] Hq]. wp_run; [done_le|].
  assert (lt p q0) by (split; [done|chain]).
  eapply wp_mono; [by apply Hlv|]. intros [v|] r [[Hr ?] _]; wp_run; try done_le.
  split; [split; [split; [done|chain]|]|chain]. tok_facts. congruence.
Qed.

Lemma parseLiteralValue_wp n : forall p,
  pwf p -> mu p < n -> wp (parseLiteralValue n) (returns (fun _ => True) p) p.
Proof.
  induction n as [|n IH]; intros p Hw Hn; [lia|]. cbn [parseLiteralValue]. wp_run.
  destruct (Type_ (p_cur p)) eqn:Et; wp_run; try done_le.
  apply parseArrayLiteral_wp; [|done|congruence|lia].
  intros q [? ?]. apply IH; [done|lia].
Qed.

Lemma parseFunctionCall_wp ve n p :
  (forall q, lt p q -> wp ve (returns (fun _ => True) q) q) ->
  pwf p -> Type_ (p_cur p) <> EOF -> mu p < n ->
  wp (parseFunctionCall ve n)
     (returns (fun v => exists m args, v = FunctionCall m args) p) p.
Proof.
  intros Hve Hw Hc Hn. unfold parseFunctionCall. wp_run; [done_le|done_le|].
  { intros a Ha. injection Ha as <-. eauto. }
  eapply (wp_loop (fun _ r => lt p r /\ Type_ (p_cur r) <> EOF)); [| |chain].
  - intros args r [[Hwr Hlt] Hr]. wp_run. assert (lt p q0) by (split; [done|chain]).
    eapply wp_mono; [by apply Hve|]. intros [v|] s [[Hs ?] _]; wp_run; try done_le.
    + split; [split; [split; [done|chain]|]|chain]. tok_facts. congruence.
    + intros a Ha. injection Ha as <-. eauto.
  - split; [split; [done|chain]|]. tok_facts. congruence.
Qed.

Lemma parseValueExpr_wp n : forall p,
  pwf p -> mu p < n -> wp (parseValueExpr n) (returns (fun _ => True) p) p.
Proof.
  induction n as [|n IH]; intros p Hw Hn; [lia|]. cbn [parseValueExpr]. wp_run.
  - eapply wp_mono; [apply parseFunctionCall_wp|].
    + intros q [? ?]. apply IH; [done|lia].
    + done.
    + tok_facts. congruence.
    + lia.
    + intros r q [? _]. by split.
  - done_le.
  - eapply wp_mono; [by apply parseLiteralValue_wp|].
    intros r q [Hq _]. wp_run. by split.
Qed.
End Values.

(** ** Assignment lists *)

Lemma le'_refl p : pwf p -> le' p p.
Proof. intros Hw. split; [done|]. right. split; [lia|done]. Qed.
Lemma lt_le' p q : lt p q -> le' p q.
Proof. intros [? ?]. split; auto. Qed.
Lemma lt_le_trans p q r : lt p q -> le q r -> lt p r.
Proof. intros [? ?] [? ?]. split; [done|lia]. Qed.
Lemma le'_trans p q r : le' p q -> le' q r -> le' p r.
Proof.
  intros [? [?|[? E1]]] [? [?|[? E2]]]; (split; [done|]); try (left; lia).
  right. split; [lia|congruence].
Qed.
Lemma le'_lt p q r : le' p q -> lt q r -> lt p r.
Proof. intros [? [?|[? _]]] [? ?]; (split; [done|lia]). Qed.
Lemma le'_same p q : pwf q -> mu q = mu p -> p_cur q = p_cur p -> le' p q.
Proof. intros ? ? ?. split; [done|]. right. split; [lia|done]. Qed.
#[export] Hint Resolve le'_refl lt_le' lt_le_trans le'_trans le'_lt le'_same : txco.

(** What [end_of_item] needs and gives. *)
Lemma end_of_item_wp stops p : pwf p -> wp (end_of_item stops) (fun _ => le p) p.
Proof. intros Hw. unfold end_of_item. wp_run; (split; [done|chain]). Qed.

Ltac done_lt := split; [assumption|tok_facts; chain].
Ltac done_le' := first [assumption | apply le'_same; [assumption|congruence|congruence]
                       | apply lt_le'; done_lt].

Lemma parse_assignment_wp n what p :
  pwf p -> mu p < n ->
  wp (parse_assignment n what) (fun r q => le' p q /\ (is_Some r -> lt p q)) p.
Proof.
  intros Hw Hn. unfold parse_assignment. wp_run.
  1,2: split; [done_le'|by intros [? ?]].
  eapply wp_mono; [apply parseValueExpr_wp; [done|tok_facts; chain]|].
  intros r q' [[Hq' ?] _]. wp_run. split; [done_le'|intros _; done_lt].
Qed.

(** The outcome of one item of a clause that started in [p]: the loop goes on
    after progress, or leaves. *)
Definition item_post {S R} (p q : Parser) (r : S + R) (q' : Parser) : Prop :=
  match r with inl _ => le' p q' /\ mu q' < mu q | inr _ => le' p q' end.

Lemma item_post_progress {S R} p q (s : S) q' :
  le' p q -> lt q q' -> @item_post S R p q (inl s) q'.
Proof. intros Hq Hq'. split; [eauto with txco|by destruct Hq']. Qed.

Lemma override_item_wp n stops what os p q q' :
  le' p q -> le' q q' -> mu p < n ->
  wp (override_item n stops what os) (item_post p q) q'.
Proof.
  intros Hq Hq' Hn. unfold override_item. assert (le' p q') by eauto with txco.
  assert (Hw' : pwf q') by apply Hq'. wp_run.
  eapply wp_mono; [apply parse_assignment_wp; [done|destruct H as [_ [?|[? _]]]; lia]|].
  intros [bv|] r [Hr Hs]; wp_run; [|simpl; eauto with txco].
  specialize (Hs ltac:(by eexists)). destruct Hs as [Hwr Hmr].
  eapply wp_mono; [by apply end_of_item_wp|]. intros _ s [? ?]. wp_run.
  apply item_post_progress; [done|]. eapply le'_lt; [exact Hq'|]. split; [done|lia].
Qed.

Lemma with_item_wp n ws p q q' :
  le' p q -> le' q q' -> mu p < n -> wp (with_item n ws) (item_post p q) q'.
Proof.
  intros Hq Hq' Hn. unfold with_item. assert (Hp : le' p q') by eauto with txco.
  assert (Hw' : pwf q') by apply Hq'.
  assert (mu q' < n) by (destruct Hp as [_ [?|[? _]]]; lia).
  assert (Hstop : forall r, lt q' r -> le' p r) by eauto with txco.
  wp_run; try (apply Hstop; done_lt).
  { eapply le'_trans; [exact Hp|]. apply le'_same; congruence. }
  all: eapply wp_mono; [apply parseValueExpr_wp; [done|tok_facts; chain]|].
  all: intros [v|] r [[Hr ?] _]; wp_run; [|apply Hstop; done_lt].
  all: eapply wp_mono; [by apply end_of_item_wp|]; intros _ s [? ?]; wp_run.
  all: apply item_post_progress; [done|]; eapply le'_lt; [exact Hq'|]; done_lt.
Qed.

(** The clause loops return, and consume tokens unless a stop token follows
    the keyword. *)
Lemma parse_overrides_wp n stops kw what p :
  pwf p -> mu p < n -> wp (parse_overrides n stops kw what) (fun _ => le' p) p.
Proof.
  intros Hw Hn. unfold parse_overrides.
  eapply (wp_loop (fun _ => le' p)); [|by apply le'_refl|done].
  intros os q Hq. assert (Hwq : pwf q) by apply Hq. wp_run; [done| |].
  - eapply wp_mono; [apply (override_item_wp n stops what os p q); [done|done_le'|done]|].
    by intros [?|?].
  - eapply wp_mono; [apply (override_item_wp n stops what os p q); [done|by apply le'_refl|done]|].
    by intros [?|?].
Qed.

Lemma parseWithPhrase_wp n p :
  pwf p -> mu p < n -> wp (parseWithPhrase n) (fun _ => le' p) p.
Proof.
  intros Hw Hn. unfold parseWithPhrase.
  eapply (wp_loop (fun _ => le' p)); [|by apply le'_refl|done].
  intros ws q Hq. assert (Hwq : pwf q) by apply Hq. wp_run; [done| |].
  - eapply wp_mono; [apply (with_item_wp n ws p q); [done|done_le'|done]|]. by intros [?|?].
  - eapply wp_mono; [apply (with_item_wp n ws p q); [done|by apply le'_refl|done]|].
    by intros [?|?].
Qed.

Lemma parseLoopSet_wp n p :
  pwf p -> Type_ (p_cur p) <> EOF -> mu p < n -> wp (parseLoopSet n) (fun _ => lt p) p.
Proof.
  intros Hw Hc Hn. unfold parseLoopSet.
  eapply (wp_loop (fun _ q => le p q /\ Type_ (p_cur q) <> EOF)); [|by split; [split|]|done].
  intros bs q [[Hwq ?] Hcq]. wp_run.
  eapply wp_mono; [apply parse_assignment_wp; [done|chain]|].
  intros r0 r [[Hwr Hm] _]. assert (mu r <= mu q0) by (destruct Hm as [?|[? _]]; lia).
  destruct r0 as [bv|]; wp_run.
  - done_lt.
  - split; [split; [split; [done|chain]|]|chain]. tok_facts. congruence.
  - done_lt.
Qed.

(** ** WHEN *)

(** The scalars a comparison takes, integers within their width. *)
Definition scalar (v : any) : Prop :=
  match v with
  | AInt64 z => int64_ok z
  | AFloat64 _ | AString _ | ABool _ => True
  | _ => False
  end.

Section When.
Context `{RegexpEngine, Funcs}.

(** A leaf as the parser builds it: one path against one constant. *)
Record leaf_ok (c : Condition) : Prop := {
  lo_star : c_Star c = false;
  lo_branch : is_Some (c_Branch c);
  lo_op : exists t, op_of_type t = Some (c_MatchType c);
  lo_re : re_coherent c;
  lo_call : forall name args, c_MatchCall c = Some (name, args) ->
    path_free (FunctionCall name args) /\ is_regex_op (c_MatchType c) = false /\
    c_MatchValue c = ANil;
  lo_value : c_MatchCall c = None ->
    scalar (c_MatchValue c) /\
    (is_regex_op (c_MatchType c) = true -> exists s, c_MatchValue c = AString s) }.

(** Exactly one of leaf, conjunction, disjunction and negation at each node,
    and no operand list shorter than two. *)
Inductive when_wf : WhenExpr -> Prop :=
| ww_leaf c : leaf_ok c -> when_wf (WhenLeaf c)
| ww_and l : 2 <= length l -> Forall when_wf l -> when_wf (WhenAnd l)
| ww_or l : 2 <= length l -> Forall when_wf l -> when_wf (WhenOr l)
| ww_not e : when_wf e -> when_wf (WhenNot e).

Lemma isComparison_op t : isComparison t = true -> exists op, op_of_type t = Some op.
Proof. destruct t; intros Ht; try discriminate Ht; simpl; eauto. Qed.

Lemma matchTypeOf_known t :
  tok_ok t -> isComparison (Type_ t) = true ->
  exists t', op_of_type t' = Some (matchTypeOf (Literal_ t)).
Proof.
  intros Ht [op Hop]%isComparison_op. exists (Type_ t). by rewrite (Ht op Hop).
Qed.

Lemma matchValueOf_scalar t lit :
  one_of [TRUE; FALSE; FLOAT; INT; STRING; NULL; REGEX] t = true ->
  scalar (matchValueOf t lit).
Proof. destruct t; intros Ht; try discriminate Ht; try done. apply ParseInt_int64. Qed.

Lemma matchValueOf_pattern t lit :
  one_of [TRUE; FALSE; FLOAT; INT; STRING; NULL; REGEX] t = true ->
  one_of [INT; FLOAT; TRUE; FALSE] t = false -> exists s, matchValueOf t lit = AString s.
Proof. destruct t; intros Ht Ht'; try discriminate Ht; try discriminate Ht'; simpl; eauto. Qed.

Lemma CompileMatch_fields c :
  c_Star (CompileMatch c) = c_Star c /\ c_Branch (CompileMatch c) = c_Branch c /\
  c_MatchType (CompileMatch c) = c_MatchType c /\
  c_MatchValue (CompileMatch c) = c_MatchValue c /\
  c_MatchCall (CompileMatch c) = c_MatchCall c.
Proof.
  unfold CompileMatch. case_bool; [done|]. destruct (c_MatchValue c) eqn:E; try done.
  destruct (Compile s); simpl; auto.
Qed.

Lemma leaf_ok_CompileMatch c : leaf_ok c -> leaf_ok (CompileMatch c).
Proof.
  intros []. destruct (CompileMatch_fields c) as (E1 & E2 & E3 & E4 & E5).
  split; rewrite ?E1, ?E2, ?E3, ?E4, ?E5; auto. by apply CompileMatch_coherent.
Qed.

Definition returns_when (p : Parser) : option WhenExpr -> Parser -> Prop := returns when_wf p.

Lemma parseWhenCall_wp n branch t p :
  pwf p -> mu p < n -> Type_ (p_cur p) <> EOF ->
  (exists t', op_of_type t' = Some t) ->
  wp (parseWhenCall n branch t) (returns_when p) p.
Proof.
  intros Hw Hn Hc Ht. unfold parseWhenCall. wp_run; [done_le|].
  eapply wp_mono; [apply parseFunctionCall_wp; try done|].
  { intros q [? ?]. apply parseValueExpr_wp; [done|lia]. }
  intros [v|] q [[Hq ?] Hv]; wp_run; [|done_le].
  destruct (Hv v eq_refl) as (m & args & ->).
  destruct (firstPathArg (FunctionCall m args)) eqn:Ef; wp_run; [done_le| |].
  all: done_le; intros e He; injection He as <-; constructor; split; try done; simpl; eauto.
  all: intros name args' E; injection E as -> ->; by rewrite <- firstPathArg_none.
Qed.

Lemma parseWhenLeaf_wp n p :
  pwf p -> mu p < n -> wp (parseWhenLeaf n) (returns_when p) p.
Proof.
  intros Hw Hn. unfold parseWhenLeaf. wp_run; try done_le.
  - eapply wp_mono; [apply parseWhenCall_wp|].
    + done.
    + tok_facts; chain.
    + tok_facts; congruence.
    + apply matchTypeOf_known; [|by tok_facts]. by match goal with H : pwf ?q |- tok_ok (p_cur ?q) => destruct H as (_ & ? & _) end.
    + intros r s [[? ?] ?]. split; [split; [done|tok_facts; chain]|done].
  - intros e He. injection He as <-. constructor. apply leaf_ok_CompileMatch.
    tok_facts. split; simpl; try done; eauto.
    + apply matchTypeOf_known; [|done]. by match goal with H : pwf ?q |- tok_ok (p_cur ?q) => destruct H as (_ & ? & _) end.
    + intros _. split; [by apply matchValueOf_scalar|]. intros Hr.
      apply matchValueOf_pattern; [done|].
      match goal with H : _ && _ = false |- _ => rewrite Hr in H end. done.
Qed.

Lemma parseWhenPrimary_wp n por p :
  (forall q, lt p q -> wp por (returns_when q) q) ->
  pwf p -> mu p < n -> wp (parseWhenPrimary n por) (returns_when p) p.
Proof.
  intros Hor Hw Hn. unfold parseWhenPrimary. wp_run; [done_le| |by apply parseWhenLeaf_wp].
  assert (lt p q) by done_lt. eapply wp_mono; [by apply Hor|].
  intros [e|] r [[? ?] He]; wp_run; done_le.
Qed.

Lemma parseWhenNot_wp n prim : forall p,
  (forall q, le p q -> wp prim (returns_when q) q) ->
  pwf p -> mu p < n -> wp (parseWhenNot n prim) (returns_when p) p.
Proof.
  induction n as [|n IH]; intros p Hprim Hw Hn; [lia|]. cbn [parseWhenNot].
  wp_run; [done_le| |by apply Hprim; split].
  assert (lt p q) by done_lt. eapply wp_mono; [apply IH|].
  - intros r [? ?]. apply Hprim. split; [done|lia].
  - done.
  - tok_facts; chain.
  - intros [e|] r [[? ?] He]; wp_run; done_le. intros e' E. injection E as <-.
    constructor. auto.
Qed.

Lemma parse_operands_wp n operand ops node p :
  (forall l, 2 <= length l -> Forall when_wf l -> when_wf (node l)) ->
  (one_of ops EOF = false) ->
  (forall q, le p q -> wp operand (returns_when q) q) ->
  pwf p -> mu p < n -> wp (parse_operands n operand ops node) (returns_when p) p.
Proof.
  intros Hnode Heof Hop Hw Hn. unfold parse_operands. wp_run.
  eapply wp_mono; [by apply Hop; split|]. intros [f|] q [[Hq ?] Hf]; wp_run; [|done_le].
  specialize (Hf f eq_refl).
  eapply (wp_loop (fun parts q => le p q /\ Forall when_wf parts /\ 1 <= length parts));
    [|by split; [split|split; [constructor|simpl]]|lia].
  intros parts s ([Hs ?] & Hparts & Hlen). wp_run; [|done_le|].
  - done_le. intros e He. injection He as <-.
    destruct (Nat.eqb_spec (length parts) 1); [done|]. apply Hnode; [lia|done].
  - eapply wp_mono; [apply Hop; split; [done|chain]|].
    intros [e|] u [[? ?] He]; wp_run; [|done_le].
    split; [split; [split; [done|chain]|split]|].
    + apply Forall_app. split; [done|]. constructor; auto.
    + rewrite length_app. lia.
    + tok_facts. match goal with H : Type_ (p_cur ?q0) = Type_ (p_peek s) |- _ =>
        assert (Type_ (p_cur q0) <> EOF) by (intros E; rewrite <- H, E in *; congruence) end.
      chain.
Qed.

Lemma parseWhenOr_wp n : forall p,
  pwf p -> mu p < n -> wp (parseWhenOr n) (returns_when p) p.
Proof.
  induction n as [|n IH]; intros p Hw Hn; [lia|]. cbn [parseWhenOr].
  apply parse_operands_wp; try done; [by constructor|]. intros q [? ?].
  apply parse_operands_wp; try done; [by constructor| |lia]. intros r [? ?].
  apply parseWhenNot_wp; [|done|lia]. intros s [? ?].
  apply parseWhenPrimary_wp; [|done|lia]. intros u [? ?]. apply IH; [done|lia].
Qed.
End When.

(** ** Clauses and the event loop *)

Section Event.
Context `{RegexpEngine, Funcs}.

Definition when_ok (w : When) : Prop :=
  w_Conditions w = [] /\ exists e, w_Expr w = Some e /\ (e = WhenStar \/ when_wf e).

Definition loop_ok (l : Loop) : Prop :=
  (exists e, Until l = Some e /\ when_wf e) /\ (0 <= Max l <= MaxInt64)%Z.

Definition rule_ok (r : Resonator) : Prop :=
  (forall w, r_When r = Some w -> when_ok w) /\
  (forall l, r_Loop r = Some l -> loop_ok l) /\ int64_ok (r_Priority r).

Definition phrase_ok (ph : Phrase) : Prop :=
  match ph with
  | PWhen w => when_ok w
  | PLoop l => loop_ok l
  | PPriority n => int64_ok n
  | _ => True
  end.

(** The contract of a clause that starts at a live token in [p]. *)
Definition clause_post {A} (P : A -> Prop) (p : Parser) (r : option A) (q : Parser) : Prop :=
  le' p q /\ (forall a, r = Some a -> P a).

Lemma parseWhenPhrase_wp n p :
  pwf p -> mu p < n -> Type_ (p_cur p) <> EOF ->
  wp (parseWhenPhrase n) (clause_post when_ok p) p.
Proof.
  intros Hw Hn Hc. unfold parseWhenPhrase. wp_run.
  - split; [done_le'|]. intros a Ha. injection Ha as <-. split; [done|]. eauto.
  - split; [by apply le'_refl|]. intros a Ha. injection Ha as <-. split; [done|]. eauto.
  - eapply wp_mono; [apply parseWhenOr_wp; [done|chain]|].
    intros r s [[? ?] Hr]. wp_run. split; [done_le'|].
    intros a Ha. destruct r as [e|]; [|done]. injection Ha as <-. split; [done|]. eauto.
Qed.

Lemma parseLoopEvery_wp p : pwf p -> wp parseLoopEvery (fun _ q => le p q) p.
Proof.
  intros Hw. unfold parseLoopEvery. wp_run. destruct (Type_ (p_cur p)); wp_run;
    try (split; [done|lia]).
  - destruct (ParseInt _) as [z [e|]]; wp_run; (split; [done|lia]).
  - destruct (ParseDuration _) as [d|]; wp_run; (split; [done|lia]).
Qed.

Lemma parseLoopMax_wp p :
  pwf p -> wp parseLoopMax (returns (fun m => 0 <= m <= MaxInt64)%Z p) p.
Proof.
  intros Hw. unfold parseLoopMax. wp_run; [done_le|].
  pose proof (ParseInt_int64 (Literal_ (p_cur p))) as Hi.
  destruct (ParseInt _) as [z [e|]]; wp_run; done_le.
  intros a Ha. injection Ha as <-. bool_to_prop. unfold int64_ok in Hi. simpl in Hi. lia.
Qed.

Lemma parseLoopUntil_wp n p :
  pwf p -> mu p < n -> Type_ (p_cur p) <> EOF ->
  wp (parseLoopUntil n)
     (fun r q => le p q /\ forall e, r = Some e -> lt p q /\ when_wf e) p.
Proof.
  intros Hw Hn Hc. unfold parseLoopUntil. wp_run; [done_le|].
  eapply wp_mono; [apply parseWhenOr_wp; [done|chain]|].
  intros r s [[? ?] Hr]. wp_run. done_le. intros e He. split; [done_lt|auto].
Qed.

Lemma note_wp seen m p : pwf p -> wp (note seen m) (fun _ => le p) p.
Proof. intros Hw. unfold note. wp_run; (split; [done|lia]). Qed.

(** The loop under construction: a predicate read so far is well-formed. *)
Definition loop_so_far (l : Loop) : Prop :=
  (forall e, Until l = Some e -> when_wf e) /\ (0 <= Max l <= MaxInt64)%Z.

Lemma live_next p q r :
  Type_ (p_cur p) <> EOF -> le' p q -> pwf r -> mu r <= mu q ->
  (Type_ (p_cur q) <> EOF -> mu r < mu q) -> lt p r.
Proof.
  intros Hc [_ [?|[? E]]] ? ? Hd; (split; [done|]); [lia|].
  rewrite E in Hd. specialize (Hd Hc). lia.
Qed.

(** The end of an iteration of LOOP's modifier loop, after progress from [s]. *)
Lemma modifier_done seen m lp p s r :
  lt p r -> mu r < mu s -> loop_so_far lp ->
  wp (let! seen := note seen m in ret (inl (lp, seen)))
     (fun (x : (Loop * list string) + option Loop) q =>
        match x with
        | inl st => (le' p q /\ loop_so_far st.1) /\ mu q < mu s
        | inr r => clause_post loop_ok p r q
        end) r.
Proof.
  intros Hp Hs Hl. apply wp_bind. eapply wp_mono; [apply note_wp, Hp|].
  intros seen' q [? ?]. wp_run. destruct Hp. split; [|lia].
  split; [apply lt_le'; split; [done|lia]|done].
Qed.

(** A modifier whose argument does not parse ends the clause. *)
Lemma modifier_fail p q r : lt p q -> le q r -> clause_post loop_ok p None r.
Proof. intros [? ?] [? ?]. split; [apply lt_le'; split; [done|lia]|done]. Qed.

Lemma parseLoopPhrase_wp n p :
  pwf p -> mu p < n -> Type_ (p_cur p) <> EOF ->
  wp (parseLoopPhrase n) (clause_post loop_ok p) p.
Proof.
  intros Hw Hn Hc. unfold parseLoopPhrase.
  eapply (wp_loop (fun st q => le' p q /\ loop_so_far st.1)); cycle 1.
  { split; [by apply le'_refl|]. split; [done|]. unfold MaxInt64, two63. simpl. lia. }
  { done. }
  intros [lp seen] s [Hs [Hu Hm]]. assert (Hws : pwf s) by apply Hs. simpl in Hu, Hm.
  wp_run; try (assert (Hp : lt p q) by (eapply live_next; eassumption)).
  - eapply wp_mono; [apply parseLoopUntil_wp; [done|destruct Hp; lia|tok_facts; congruence]|].
    intros [e|] r [Hr He]; [|by eapply modifier_fail].
    destruct (He e eq_refl) as [[? ?] ?]. cbv beta iota.
    apply modifier_done; [destruct Hp; split; [done|lia]|lia|]. split; [|done].
    intros e' E. by injection E as <-.
  - eapply wp_mono; [apply parseLoopSet_wp; [done|tok_facts; congruence|destruct Hp; lia]|].
    intros [bs|] r [? ?]; [|eapply modifier_fail; [exact Hp|split; [done|lia]]].
    cbv beta iota. apply modifier_done; [destruct Hp; split; [done|lia]|lia|by split].
  - eapply wp_mono; [by apply parseLoopEvery_wp|]. intros [d|] r [? ?].
    + cbv beta iota. apply modifier_done; [destruct Hp; split; [done|lia]|tok_facts; chain|by split].
    + eapply modifier_fail; [exact Hp|]. split; [done|lia].
  - eapply wp_mono; [by apply parseLoopMax_wp|]. intros [m|] r [[? ?] Hr].
    + cbv beta iota. apply modifier_done; [destruct Hp; split; [done|lia]|tok_facts; chain|].
      split; [done|]. simpl. auto.
    + eapply modifier_fail; [exact Hp|]. split; [done|lia].
  - split; [done|]. intros l E. injection E as <-. split; [|done]. eauto.
  - split; [|done]. eapply le'_trans; [exact Hs|]. apply le'_same; congruence.
Qed.

Lemma parseSelectPhrase_wp n p :
  pwf p -> mu p < n -> Type_ (p_cur p) <> EOF -> wp (parseSelectPhrase n) (fun _ => le' p) p.
Proof.
  intros Hw Hn Hc. unfold parseSelectPhrase. wp_run; [done_le'|done_le'|].
  eapply (wp_loop (fun _ q => le p q /\ Type_ (p_cur q) <> EOF)); [|by split; [split|]|done].
  intros asns q [[Hq ?] Hcq].
  assert (Hto : forall f r, lt q r -> wp (parse_select_to f) (fun _ => lt q) r).
  { intros f r [? ?]. unfold parse_select_to. wp_run; (split; [done|lia]). }
  assert (Hdef : forall r, lt q r -> wp (parse_select_default n) (fun _ => lt q) r).
  { intros r [? ?]. unfold parse_select_default. wp_run; [|by split].
    eapply wp_mono; [apply parseValueExpr_wp; [done|chain]|].
    intros v s [[? ?] _]. wp_run. split; [done|lia]. }
  wp_run; [done_le'|]. eapply wp_mono; [apply Hto; done_lt|].
  intros [to|] r Hr; wp_run; [|destruct Hr; apply lt_le'; split; [done|lia]].
  eapply wp_mono; [by apply Hdef|].
  intros [d|] s [? ?]; wp_run; try (apply lt_le'; split; [done|lia]).
  split; [split; [split; [done|lia]|]|lia]. tok_facts. congruence.
Qed.

Lemma clause_wp {A} (P : A -> Prop) (f : A -> Phrase) m p :
  (forall a, P a -> phrase_ok (f a)) -> pwf p ->
  (forall q, pwf q -> mu q = mu p -> p_cur q = p_cur p -> wp m (clause_post P q) q) ->
  wp (clause f m) (clause_post phrase_ok p) p.
Proof.
  intros Hf Hw Hm. unfold clause. wp_run. eapply wp_mono; [by apply Hm|].
  intros r s [Hs Hr]. wp_run. split.
  - eapply le'_trans; [|exact Hs]. by apply le'_same.
  - intros a Ha. destruct r as [x|]; [|done]. injection Ha as <-. auto.
Qed.

Lemma parseEventPhrase_wp n p :
  pwf p -> mu p < n -> Type_ (p_cur p) <> EOF ->
  wp (parseEventPhrase n) (clause_post phrase_ok p) p.
Proof.
  intros Hw Hn Hc. unfold parseEventPhrase. wp_run.
  assert (Hany : forall {A} (m : M (option A)) q, wp m (fun _ => le' q) q ->
                   wp m (clause_post (fun _ => True) q) q)
    by (intros A m q Hq; eapply wp_mono; [exact Hq|]; by split).
  assert (Hset : forall stops kw what q, pwf q -> mu q < n ->
    wp (let! o := parse_overrides n stops kw what in
        ret match o with Some o => Some (mkSet o) | None => None end) (fun _ => le' q) q)
    by (intros; wp_run; eapply wp_mono; [by apply parse_overrides_wp|]; intros; by wp_run).
  assert (Hgarbage : wp garbage (clause_post phrase_ok p) p).
  { unfold garbage, wp. destruct (_ && _).
    - simpl. split; [|done]. by apply le'_same.
    - split; [by apply le'_refl|done]. }
  destruct (Type_ (p_cur p)) eqn:Et; try exact Hgarbage.
  all: repeat match goal with |- context [if ?b then _ else _] => destruct b end.
  - apply (clause_wp (fun _ => True)); [done|done|]. intros q ? E ?. apply Hany, Hset; [done|lia].
  - apply (clause_wp (fun _ => True)); [done|done|]. intros q ? E ?. apply Hany, Hset; [done|lia].
  - apply (clause_wp when_ok); [done|done|]. intros q ? E ?.
    apply parseWhenPhrase_wp; [done|lia|congruence].
  - apply (clause_wp (fun _ => True)); [done|done|]. intros q ? E ?.
    apply Hany, parseSelectPhrase_wp; [done|lia|congruence].
  - apply (clause_wp (fun _ => True)); [done|done|]. intros q ? E ?.
    apply Hany, parseWithPhrase_wp; [done|lia].
  - apply (clause_wp int64_ok); [done|done|]. intros q ? E ?. unfold parsePriorityPhrase. wp_run.
    pose proof (ParseInt_int64 (Literal_ (p_cur q0))).
    destruct (ParseInt _) as [z [e|]]; wp_run; (split; [done_le'|]); [done|].
    intros a Ha. by injection Ha as <-.
  - apply (clause_wp (fun _ => True)); [done|done|]. intros q ? E ?. unfold parseExecPhrase.
    wp_run; (split; [done_le'|done]).
  - apply (clause_wp (fun _ => True)); [done|done|]. intros q ? E ?. apply Hany, Hset; [done|lia].
  - apply (clause_wp loop_ok); [done|done|]. intros q ? E ?.
    apply parseLoopPhrase_wp; [done|lia|congruence].
Qed.

Lemma apply_phrase_ok r ph :
  rule_ok r -> (forall x, ph = Some x -> phrase_ok x) -> rule_ok (apply_phrase r ph).
Proof.
  intros (Hw & Hl & Hp) Hph. destruct r. simpl in Hw, Hl, Hp. destruct ph as [ph|]; [|done].
  specialize (Hph ph eq_refl).
  destruct ph; simpl in *; (split; [|split]); simpl; auto.
  - intros w' E. by injection E as <-.
  - intros l' E. by injection E as <-.
Qed.

(** The event loop, up to the checks. *)
Definition event_loop (n : nat) : M Resonator :=
  loop n (fun r : Resonator =>
    let! eof := curTokenIs EOF in
    if eof : bool then ret (inr r) else
    let! ph := parseEventPhrase n in
    do! nextToken in
    ret (inl (apply_phrase r ph))) Resonator_New.

Lemma event_loop_wp n p :
  pwf p -> mu p < n ->
  wp (event_loop n) (fun r q => le p q /\ rule_ok r /\ Type_ (p_cur q) = EOF) p.
Proof.
  intros Hw Hn. unfold event_loop.
  eapply (wp_loop (fun r q => le p q /\ rule_ok r)); [| |done]; cycle 1.
  { split; [by split|]. repeat split; try done. }
  intros r q [[Hq ?] Hr]. wp_run; [by tok_facts|]. tok_facts.
  eapply wp_mono; [apply parseEventPhrase_wp; [done|lia|done]|].
  intros ph s [Hs Hph]. assert (Hws : pwf s) by apply Hs. wp_run.
  assert (Hlt : lt q q0) by (eapply live_next; eassumption). destruct Hlt.
  split; [split; [split; [done|lia]|by apply apply_phrase_ok]|lia].
Qed.

Lemma checkLoop_wp r p : pwf p -> wp (checkLoop r) (fun _ => le p) p.
Proof.
  intros Hw. unfold checkLoop. destruct (r_Loop r); [|by wp_run; split].
  unfold checkLoop_exec, checkLoop_mode. wp_run.
  all: repeat case_match; wp_run; (split; [done|lia]).
Qed.

Lemma checkGoto_wp r p : pwf p -> wp (checkGoto r) (fun _ => le p) p.
Proof.
  intros Hw. unfold checkGoto. wp_run; [by split|].
  destruct (GotoTarget _); wp_run; (split; [done|lia]).
Qed.

Lemma checkCall_wp r p : pwf p -> wp (checkCall r) (fun _ => le p) p.
Proof.
  intros Hw. unfold checkCall. wp_run; [by split|].
  destruct (CallTarget _); wp_run; (split; [done|lia]).
Qed.

Lemma ParseEvent_wp n p :
  pwf p -> mu p < n -> wp (ParseEvent n) (fun r q => le p q /\ rule_ok r) p.
Proof.
  intros Hw Hn. unfold ParseEvent. wp_run.
  eapply wp_mono; [apply (event_loop_wp n q); [done|lia]|].
  intros r s ([? ?] & Hr & _). wp_run.
  eapply wp_mono; [by apply checkLoop_wp|]. intros _ s1 [? ?]. wp_run.
  eapply wp_mono; [by apply checkGoto_wp|]. intros _ s2 [? ?]. wp_run.
  eapply wp_mono; [by apply checkCall_wp|]. intros _ s3 [? ?]. wp_run.
  split; [split; [done|lia]|done].
Qed.

Lemma New_ok def : pwf (New (NewLexer def)) /\ mu (New (NewLexer def)) <= slen def + 2.
Proof.
  unfold New. set (p0 := mkParser _ _ _ _ _ _ _ _).
  assert (W0 : pwf p0) by (split; [apply NewLexer_wf|split; intros op Hop; discriminate Hop]).
  destruct (nextToken_mu p0 W0) as [W1 E1]. destruct (nextToken_mu _ W1) as [W2 E2].
  split; [done|]. pose proof (live_le (p_cur (nextToken_ p0))).
  assert (mu p0 <= slen def + 2) by
    (unfold mu, p0; cbn [p_l p_peek p_cur]; rewrite bytes_left_rest, NewLexer_rest; change (live zeroToken) with 1; lia).
  lia.
Qed.

Lemma parse_returns strict def :
  exists r ls es, parse strict def = Some (r, ls, es) /\ rule_ok r.
Proof.
  destruct (New_ok def) as [Hw Hm]. unfold parse.
  destruct (same_tokens_pwf _ _ (SetStrict_same strict (New (NewLexer def))) Hw) as [Hw' Hm'].
  pose proof (ParseEvent_wp (parse_fuel def) _ Hw') as Hwp.
  specialize (Hwp ltac:(rewrite Hm'; unfold parse_fuel; lia)).
  unfold wp in Hwp. clear Hw Hm Hw' Hm'.
  destruct (ParseEvent _ _) as [[r p]|]; [|destruct Hwp].
  destruct Hwp as [_ Hr]. exists r, (errs (p_l p)), (p_errors p). split; [reflexivity|exact Hr].
Qed.

(** C30: parsing returns on every text, strict or lenient, with fuel linear in
    the text.  What it returns is well-formed whatever the diagnostics: a WHEN
    tree is a star or is built from leaves, negations and operand lists of at
    least two, each leaf comparing one path with one constant by a known
    operator; a LOOP has such a predicate and a MAX within range; the
    priority fits its width. *)
Theorem parse_total strict def :
  exists r ls es, parse strict def = Some (r, ls, es) /\ rule_ok r.
Proof. apply parse_returns. Qed.
End Event.
