(* ===== verification/ParserModes.v ===== *)
(** * Strict and lenient parsing

    A simulation between the two modes of the parser: run on the same text, the
    strict parser builds the same rule and raises the lenient diagnostics in
    the same order, with the strict-only ones interleaved. *)

From Stdlib Require Import Ascii String ZArith Lia Bool.
From stdpp Require Import base tactics list strings gmap.
From S2P Require Import Prelude GoStrings GoStrconv Token Lexer LexerFacts Ast Runtime Opname Resonator Parser ParserFacts.

(** The diagnostics only strict mode raises. *)
Definition strict_only (e : ParseError) : bool :=
  match e with
  | UnexpectedToken _ | LoopRepeated _ | UnknownInWhen _ _ => true
  | _ => false
  end.

Definition lenient_part (es : list ParseError) : list ParseError :=
  List.filter (fun e => negb (strict_only e)) es.

(** A lenient state and the strict state that shadows it. *)
Record shadows (p q : Parser) : Prop := {
  sh_l : p_l p = p_l q;
  sh_cur : p_cur p = p_cur q;
  sh_peek : p_peek p = p_peek q;
  sh_seen : p_seenSelect p = p_seenSelect q;
  sh_kw : p_predicateKeyword p = p_predicateKeyword q;
  sh_lenient : p_strict p = false;
  sh_strict : p_strict q = true;
  sh_errors : p_errors p = lenient_part (p_errors q) }.

(** The two runs end alike: both out of fuel, or in shadowing states with the
    same result. *)
Definition sim {A} (m : M A) : Prop :=
  forall p q, shadows p q ->
    match m p, m q with
    | Some (a, p'), Some (b, q') => a = b /\ shadows p' q'
    | None, None => True
    | _, _ => False
    end.

Lemma sim_ret {A} (a : A) : sim (ret a).
Proof. intros p q HR. by split. Qed.

Lemma sim_out_of_fuel {A} : sim (@out_of_fuel A).
Proof. done. Qed.

Lemma sim_bind {A B} (m : M A) (k : A -> M B) : sim m -> (forall a, sim (k a)) -> sim (bind m k).
Proof.
  intros Hm Hk p q HR. unfold bind. specialize (Hm p q HR).
  destruct (m p) as [[a p']|], (m q) as [[b q']|]; try done.
  destruct Hm as [-> HR']. by apply Hk.
Qed.

Lemma sim_gets {A} (f : Parser -> A) : (forall p q, shadows p q -> f p = f q) -> sim (gets f).
Proof. intros Hf p q HR. simpl. auto. Qed.

Lemma sim_modify f : (forall p q, shadows p q -> shadows (f p) (f q)) -> sim (modify f).
Proof. intros Hf p q HR. simpl. auto. Qed.

Lemma sim_loop {S R} n (body : S -> M (S + R)) s : (forall s, sim (body s)) -> sim (loop n body s).
Proof.
  intros Hb. revert s. induction n as [|n IH]; intros s; [done|].
  simpl. apply sim_bind; [auto|]. intros [s'|r]; [auto|apply sim_ret].
Qed.

Lemma lenient_part_app es fs : lenient_part (es ++ fs) = lenient_part es ++ lenient_part fs.
Proof. apply List.filter_app. Qed.

Create HintDb sim discriminated.

Lemma sim_nextToken : sim nextToken.
Proof.
  apply sim_modify. intros p q []. unfold nextToken_. rewrite sh_l0.
  destruct (NextToken (p_l q)). by split.
Qed.

Lemma sim_error e : strict_only e = false -> sim (error e).
Proof.
  intros He. apply sim_modify. intros p q []. split; try done. simpl.
  rewrite lenient_part_app, sh_errors0. unfold lenient_part at 3. simpl. by rewrite He.
Qed.

Lemma sim_strictError e : strict_only e = true -> sim (strictError e).
Proof.
  intros He. apply sim_modify. intros p q []. rewrite sh_lenient0, sh_strict0.
  split; try done. simpl. rewrite lenient_part_app. unfold lenient_part at 2. simpl.
  by rewrite He, app_nil_r.
Qed.

Lemma sim_flag f :
  (forall p, p_l (f p) = p_l p /\ p_cur (f p) = p_cur p /\ p_peek (f p) = p_peek p /\
             p_strict (f p) = p_strict p /\ p_errors (f p) = p_errors p) ->
  (forall p q, p_seenSelect p = p_seenSelect q -> p_seenSelect (f p) = p_seenSelect (f q)) ->
  (forall p q, p_predicateKeyword p = p_predicateKeyword q ->
               p_predicateKeyword (f p) = p_predicateKeyword (f q)) ->
  sim (modify f).
Proof.
  intros Hf Hs Hk. apply sim_modify. intros p q [].
  destruct (Hf p) as (? & ? & ? & ? & ?), (Hf q) as (? & ? & ? & ? & ?).
  split; auto; congruence.
Qed.

Lemma sim_SeenSelect b : sim (SeenSelect b).
Proof. by apply sim_flag. Qed.
Lemma sim_set_inGarbage b : sim (set_inGarbage b).
Proof. by apply sim_flag. Qed.
Lemma sim_set_predicateKeyword k : sim (set_predicateKeyword k).
Proof. by apply sim_flag. Qed.

#[export] Hint Resolve sim_ret sim_out_of_fuel sim_nextToken sim_SeenSelect sim_set_inGarbage
  sim_set_predicateKeyword : sim.
#[export] Hint Resolve sim_error sim_strictError : sim.
#[export] Hint Extern 1 (strict_only _ = _) => reflexivity : sim.

(** Walk a parsing function and close every primitive with the lemmas above. *)
Ltac sim_step :=
  match goal with
  | |- sim (bind _ _) => apply sim_bind; [|intro]
  | |- sim (gets _) => apply sim_gets; intros ? ? []; congruence
  | |- sim (loop _ _ _) => apply sim_loop; intro
  | |- sim (if ?b then _ else _) => destruct b
  | |- sim (match ?x with _ => _ end) => destruct x
  | |- sim (let x := _ in _) => cbv zeta
  | |- _ => solve [eauto with sim]
  end.
Ltac sim_solve := repeat sim_step.

Lemma sim_curTokenIs t : sim (curTokenIs t).
Proof. apply sim_gets. intros p q []. by rewrite sh_cur0. Qed.
Lemma sim_peekTokenIs t : sim (peekTokenIs t).
Proof. apply sim_gets. intros p q []. by rewrite sh_peek0. Qed.
Lemma sim_curLit : sim curLit.
Proof. apply sim_gets. intros p q []. by rewrite sh_cur0. Qed.
Lemma sim_curType : sim curType.
Proof. apply sim_gets. intros p q []. by rewrite sh_cur0. Qed.
Lemma sim_peekLit : sim peekLit.
Proof. apply sim_gets. intros p q []. by rewrite sh_peek0. Qed.
Lemma sim_peekType : sim peekType.
Proof. apply sim_gets. intros p q []. by rewrite sh_peek0. Qed.
Lemma sim_at_stop ts : sim (at_stop ts).
Proof. apply sim_gets. intros p q []. by rewrite sh_cur0, sh_peek0. Qed.
Lemma sim_exprKeyword : sim exprKeyword.
Proof. apply sim_gets. intros p q []. by rewrite sh_kw0. Qed.
Lemma sim_peekIsWord w : sim (peekIsWord w).
Proof. apply sim_gets. intros p q []. by rewrite sh_peek0. Qed.
#[export] Hint Resolve sim_curTokenIs sim_peekTokenIs sim_curLit sim_curType sim_peekLit
  sim_peekType sim_at_stop sim_exprKeyword sim_peekIsWord : sim.

Lemma sim_fail {A} m : sim m -> sim (@fail A m).
Proof. intros. unfold fail. sim_solve. Qed.
Lemma sim_curError t : sim (curError t).
Proof. unfold curError. sim_solve. Qed.
Lemma sim_wrongType w : sim (wrongTypeParseError w).
Proof. unfold wrongTypeParseError. sim_solve. Qed.
Lemma sim_skip_if b : sim (skip_if b).
Proof. unfold skip_if. sim_solve. Qed.
#[export] Hint Resolve sim_fail sim_curError sim_wrongType sim_skip_if : sim.

Lemma sim_parseArrayLiteral lv n : sim lv -> sim (parseArrayLiteral lv n).
Proof. intros. unfold parseArrayLiteral. sim_solve. Qed.
#[export] Hint Resolve sim_parseArrayLiteral : sim.
Lemma sim_parseLiteralValue n : sim (parseLiteralValue n).
Proof. induction n as [|n IH]; cbn [parseLiteralValue]; sim_solve. Qed.
#[export] Hint Resolve sim_parseLiteralValue : sim.
Lemma sim_parseFunctionCall ve n : sim ve -> sim (parseFunctionCall ve n).
Proof. intros. unfold parseFunctionCall. sim_solve. Qed.
#[export] Hint Resolve sim_parseFunctionCall : sim.
Lemma sim_parseValueExpr n : sim (parseValueExpr n).
Proof. induction n as [|n IH]; cbn [parseValueExpr]; sim_solve. Qed.
#[export] Hint Resolve sim_parseValueExpr : sim.
Lemma sim_end_of_item stops : sim (end_of_item stops).
Proof. unfold end_of_item. sim_solve. Qed.
Lemma sim_parse_assignment n w : sim (parse_assignment n w).
Proof. unfold parse_assignment. sim_solve. Qed.
#[export] Hint Resolve sim_end_of_item sim_parse_assignment : sim.
Lemma sim_override_item n stops w os : sim (override_item n stops w os).
Proof. unfold override_item. sim_solve. Qed.
Lemma sim_with_item n ws : sim (with_item n ws).
Proof. unfold with_item. sim_solve. Qed.
#[export] Hint Resolve sim_override_item sim_with_item : sim.
Lemma sim_parse_overrides n stops kw w : sim (parse_overrides n stops kw w).
Proof. unfold parse_overrides. sim_solve. Qed.
Lemma sim_parseWithPhrase n : sim (parseWithPhrase n).
Proof. unfold parseWithPhrase. sim_solve. Qed.
Lemma sim_parseLoopSet n : sim (parseLoopSet n).
Proof. unfold parseLoopSet. sim_solve. Qed.
#[export] Hint Resolve sim_parse_overrides sim_parseWithPhrase sim_parseLoopSet : sim.

Section Modes.
Context `{RegexpEngine, Funcs}.

Lemma sim_parseWhenCall n b t : sim (parseWhenCall n b t).
Proof. unfold parseWhenCall. sim_solve. Qed.
Hint Resolve sim_parseWhenCall : sim.
Lemma sim_parseWhenLeaf n : sim (parseWhenLeaf n).
Proof. unfold parseWhenLeaf. sim_solve. Qed.
Hint Resolve sim_parseWhenLeaf : sim.
Lemma sim_parseWhenPrimary n por : sim por -> sim (parseWhenPrimary n por).
Proof. intros. unfold parseWhenPrimary. sim_solve. Qed.
Lemma sim_parseWhenNot n prim : sim prim -> sim (parseWhenNot n prim).
Proof. intros. induction n as [|n IH]; cbn [parseWhenNot]; sim_solve. Qed.
Lemma sim_parse_operands n operand ops node :
  sim operand -> sim (parse_operands n operand ops node).
Proof. intros. unfold parse_operands. sim_solve. Qed.
Hint Resolve sim_parseWhenPrimary sim_parseWhenNot sim_parse_operands : sim.
Lemma sim_parseWhenOr n : sim (parseWhenOr n).
Proof.
  induction n as [|n IH]; cbn [parseWhenOr]; [auto with sim|].
  unfold parseWhenAnd. auto 10 with sim.
Qed.
Hint Resolve sim_parseWhenOr : sim.
Lemma sim_parseWhenPhrase n : sim (parseWhenPhrase n).
Proof. unfold parseWhenPhrase. sim_solve. Qed.
Lemma sim_parseLoopEvery : sim parseLoopEvery.
Proof. unfold parseLoopEvery. sim_solve. Qed.
Lemma sim_parseLoopMax : sim parseLoopMax.
Proof. unfold parseLoopMax. sim_solve. Qed.
Lemma sim_parseLoopUntil n : sim (parseLoopUntil n).
Proof. unfold parseLoopUntil. sim_solve. Qed.
Lemma sim_note seen m : sim (note seen m).
Proof. unfold note. sim_solve. Qed.
Hint Resolve sim_parseWhenPhrase sim_parseLoopEvery sim_parseLoopMax sim_parseLoopUntil
  sim_note : sim.
Lemma sim_parseLoopPhrase n : sim (parseLoopPhrase n).
Proof. unfold parseLoopPhrase. sim_solve. Qed.
Lemma sim_parse_select_to f : sim (parse_select_to f).
Proof. unfold parse_select_to. sim_solve. Qed.
Lemma sim_parse_select_default n : sim (parse_select_default n).
Proof. unfold parse_select_default. sim_solve. Qed.
Hint Resolve sim_parseLoopPhrase sim_parse_select_to sim_parse_select_default : sim.
Lemma sim_parseSelectPhrase n : sim (parseSelectPhrase n).
Proof. unfold parseSelectPhrase. sim_solve. Qed.
Lemma sim_parsePriorityPhrase : sim parsePriorityPhrase.
Proof. unfold parsePriorityPhrase. sim_solve. Qed.
Lemma sim_parseExecPhrase : sim parseExecPhrase.
Proof. unfold parseExecPhrase. sim_solve. Qed.
Lemma sim_clause {A} (f : A -> Phrase) m : sim m -> sim (clause f m).
Proof. intros. unfold clause. sim_solve. Qed.

Lemma sim_garbage : sim garbage.
Proof.
  intros p q HR. unfold garbage. destruct (sh_lenient _ _ HR), (sh_strict _ _ HR).
  destruct HR. rewrite sh_lenient0, sh_strict0. simpl.
  destruct (p_inGarbage q); simpl; (split; [done|]); split; try done. simpl.
  rewrite lenient_part_app. unfold lenient_part at 2. simpl. by rewrite app_nil_r.
Qed.

Lemma sim_set_phrases n :
  sim (parseSetPrePhrase n) /\ sim (parseSetPostPhrase n) /\ sim (parseEmitPhrase n).
Proof.
  unfold parseSetPrePhrase, parseSetPostPhrase, parseEmitPhrase. repeat split; sim_solve.
Qed.
Hint Resolve sim_parseSelectPhrase sim_parsePriorityPhrase sim_parseExecPhrase sim_clause
  sim_garbage : sim.

Lemma sim_parseEventPhrase n : sim (parseEventPhrase n).
Proof.
  destruct (sim_set_phrases n) as (? & ? & ?). unfold parseEventPhrase. sim_solve.
Qed.
Hint Resolve sim_parseEventPhrase : sim.

Lemma sim_checks r : sim (checkLoop r) /\ sim (checkGoto r) /\ sim (checkCall r).
Proof.
  unfold checkLoop, checkGoto, checkCall, checkLoop_exec, checkLoop_mode.
  repeat split; sim_solve.
Qed.

Lemma sim_ParseEvent n : sim (ParseEvent n).
Proof.
  unfold ParseEvent. sim_solve.
  all: match goal with |- sim (_ ?r) => destruct (sim_checks r) as (? & ? & ?) end; auto.
Qed.

Lemma modes_agree def :
  exists r ls es, parse true def = Some (r, ls, es) /\
                  parse false def = Some (r, ls, lenient_part es).
Proof.
  destruct (parse_returns true def) as (r & ls & es & Ht & _).
  exists r, ls, es. split; [exact Ht|]. unfold parse in *. revert Ht.
  assert (HR : shadows (SetStrict false (New (NewLexer def))) (SetStrict true (New (NewLexer def)))).
  { assert (He : p_errors (New (NewLexer def)) = []).
    { unfold New, nextToken_. by do 2 destruct (NextToken _). }
    generalize dependent (New (NewLexer def)). intros p0 He. split; try done. simpl. by rewrite He. }
  pose proof (sim_ParseEvent (parse_fuel def) _ _ HR) as Hs. clear HR.
  destruct (ParseEvent _ (SetStrict false _)) as [[a p]|],
    (ParseEvent _ (SetStrict true _)) as [[c q]|]; try done.
  destruct Hs as [-> []]. intros Ht. injection Ht as <- <- <-. by rewrite sh_l0, sh_errors0.
Qed.

(** C31: strict validation parses exactly what the runtime parses.  On every
    text both modes build the same rule and see the same lexical errors, and
    the runtime's diagnostics are the strict ones without the unexpected
    tokens, repeated LOOP modifiers and unknown functions. *)
Theorem strict_refines_lenient def :
  exists r ls es, parse true def = Some (r, ls, es) /\
                  parse false def = Some (r, ls, lenient_part es).
Proof. apply modes_agree. Qed.

(** A rule that validates loads: when [Validate] has nothing to report,
    the runtime parser accepts the text without a diagnostic. *)
Theorem Validate_sound def :
  Validate def = Some [] -> exists r, txcl_Resonator def = Some (r, []).
Proof.
  destruct (modes_agree def) as (r & ls & es & Ht & Hf).
  unfold Validate, txcl_Resonator. rewrite Ht, Hf. intros Hv. injection Hv as Hv.
  apply app_eq_nil in Hv as [_ Hv]. apply map_eq_nil in Hv. subst. eauto.
Qed.
End Modes.

Lemma Validate_sound_witness :
  let def := ("WHEN .a == 1 EXEC " ++ quoted "x")%string in
  @Validate toy_engine toy_funcs def = Some [] /\
  exists r, @txcl_Resonator toy_engine toy_funcs def = Some (r, []).
Proof.
  intros def. assert (Hv : @Validate toy_engine toy_funcs def = Some []) by reflexivity.
  split; [exact Hv|]. exact (@Validate_sound toy_engine toy_funcs def Hv).
Defined.
