(* ===== verification/ParserRules.v ===== *)
(** * What an accepted rule guarantees

    Consequences of the parser's shape theorem for the code that consumes a
    rule: evaluation of its WHEN clause, the checks on LOOP, goto and call. *)

From Stdlib Require Import Ascii String ZArith Lia Bool.
From stdpp Require Import base tactics list strings gmap.
From S2P Require Import Prelude GoStrings GoStrconv Token Lexer LexerFacts Ast Runtime Opname Resonator Parser ParserFacts ParserModes.

(** Evaluate a parse, offer its rule as the witness and check it. *)
Ltac rule_of t :=
  let x := eval vm_compute in t in
  match x with
  | Some (?r, ?l, ?e) => exists r, l, e
  | Some (?r, _) => exists r
  end.
Ltac loop_of :=
  match goal with |- exists l, _ = Some (?r, _) /\ _ =>
    let l := eval vm_compute in (r_Loop r) in
    match l with Some ?l => exists l end
  end.
Ltac by_vm := vm_compute; reflexivity.

(** ** The stage-jump pattern *)

Fixpoint slashes (k : nat) : string :=
  match k with 0 => "" | S k => String "/" (slashes k) end.

Lemma slashes_snoc k : slashes (S k) = (slashes k ++ "/")%string.
Proof. induction k as [|k IH]; [done|]. simpl in *. by rewrite <- IH. Qed.

Lemma digits_no_slash d : sall is_dec d = true -> sall (fun c => negb (c =c "/")) d = true.
Proof.
  apply sall_impl. intros c Hc. apply negb_true_iff, Ascii.eqb_neq. by intros ->.
Qed.

(** [stageJumpRE] decides its regular expression: any text without newline,
    then at least one slash, then at least one digit up to the end. *)
Lemma stageJumpRE_iff s :
  stageJumpRE s = true <->
  exists a k d, s = (a ++ slashes (S k) ++ d)%string /\
    sall (fun c => negb (c =c LF)) a = true /\ d <> "" /\ sall is_dec d = true.
Proof.
  unfold stageJumpRE. split.
  - destruct (LastIndex s "/") as [i|] eqn:E; [|done]. intros Hs. bool_to_prop.
    destruct (LastIndex_some _ _ _ E) as [Es _].
    exists (stake i s), 0, (sdrop (S i) s). repeat split; auto.
  - intros (a & k & d & -> & Ha & Hd & Hdd).
    rewrite slashes_snoc. rewrite <- sapp_assoc, sapp_assoc. simpl ("/" ++ d)%string.
    rewrite LastIndex_app by (by apply digits_no_slash).
    destruct (split_tail (a ++ slashes k) d) as [-> ->]. rewrite Hdd, sall_app, Ha.
    apply String.eqb_neq in Hd. rewrite Hd. simpl. by induction k.
Qed.

Section Rules.
Context `{RegexpEngine, Funcs}.

(** ** The checks as a function of the rule *)

Definition loop_exec_errors (exec : string) : list ParseError :=
  if exec =s "" then [LoopNoExec]
  else if exec =s "txco://noop" then [LoopNoop]
  else if HasPrefix exec "txco://route" || HasPrefix exec GotoScheme ||
          (negb (Contains exec "://") && stageJumpRE exec)
  then [LoopStageJump exec] else [].

Definition loop_mode_errors (r : Resonator) : list ParseError :=
  match r_With r !! "mode" with
  | Some (Literal (AString mode)) =>
      if (mode =s "async") || (mode =s "continuable") then [LoopMode mode] else []
  | _ => []
  end.

Definition check_errors (r : Resonator) : list ParseError :=
  match r_Loop r with
  | None => []
  | Some _ => loop_exec_errors (TrimSpace (r_Exec r)) ++ loop_mode_errors r
  end ++
  (if HasPrefix (r_Exec r) GotoScheme
   then match GotoTarget (r_Exec r) with inr e => [BadTarget e] | inl _ => [] end else []) ++
  (if HasPrefix (r_Exec r) CallScheme
   then match CallTarget (r_Exec r) with inr e => [BadTarget e] | inl _ => [] end else []).

(** [m] reports [es] and nothing else. *)
Definition reports (m : M unit) (es : list ParseError) : Prop :=
  forall p, exists p', m p = Some (tt, p') /\ p_errors p' = p_errors p ++ es.

Lemma reports_none : reports (ret tt) [].
Proof. intros p. exists p. by rewrite app_nil_r. Qed.
Lemma reports_one e : reports (error e) [e].
Proof. intros p. by eexists. Qed.
Lemma reports_seq m k es fs : reports m es -> reports k fs -> reports (do! m in k) (es ++ fs).
Proof.
  intros Hm Hk p. destruct (Hm p) as (p1 & E1 & F1). destruct (Hk p1) as (p2 & E2 & F2).
  exists p2. unfold bind. rewrite E1. split; [done|]. by rewrite F2, F1, app_assoc.
Qed.
Hint Resolve reports_none reports_one reports_seq : txco.

Lemma checkLoop_reports r :
  reports (checkLoop r)
    match r_Loop r with
    | None => []
    | Some _ => loop_exec_errors (TrimSpace (r_Exec r)) ++ loop_mode_errors r
    end.
Proof.
  unfold checkLoop. destruct (r_Loop r); [|auto with txco]. apply reports_seq.
  - unfold checkLoop_exec, loop_exec_errors. repeat case_bool; auto with txco.
  - unfold checkLoop_mode, loop_mode_errors. repeat case_match; auto with txco.
Qed.

Lemma checkGoto_reports r :
  reports (checkGoto r)
    (if HasPrefix (r_Exec r) GotoScheme
     then match GotoTarget (r_Exec r) with inr e => [BadTarget e] | inl _ => [] end else []).
Proof. unfold checkGoto. repeat case_match; simpl in *; simplify_eq; auto with txco. Qed.

Lemma checkCall_reports r :
  reports (checkCall r)
    (if HasPrefix (r_Exec r) CallScheme
     then match CallTarget (r_Exec r) with inr e => [BadTarget e] | inl _ => [] end else []).
Proof. unfold checkCall. repeat case_match; simpl in *; simplify_eq; auto with txco. Qed.

Lemma checks_report r :
  reports (do! checkLoop r in do! checkGoto r in checkCall r) (check_errors r).
Proof.
  apply reports_seq; [apply checkLoop_reports|].
  apply reports_seq; [apply checkGoto_reports|apply checkCall_reports].
Qed.

(** The diagnostics of a parse end with those of the checks on its result. *)
Lemma ParseEvent_errors n p r p' :
  ParseEvent n p = Some (r, p') -> exists es, p_errors p' = es ++ check_errors r.
Proof.
  unfold ParseEvent. fold (event_loop n). unfold bind at 1. cbn [SeenSelect modify].
  unfold bind at 1. destruct (event_loop n _) as [[r0 s]|]; [|done].
  destruct (checks_report r0 s) as (s' & E & F). unfold bind in *.
  destruct (checkLoop r0 s) as [[[] s1]|]; [|done].
  destruct (checkGoto r0 s1) as [[[] s2]|]; [|done].
  destruct (checkCall r0 s2) as [[[] s3]|]; [|done].
  injection E as <-. intros Hr. injection Hr as <- <-. eauto.
Qed.

Lemma accepted_checks def r : txcl_Resonator def = Some (r, []) -> check_errors r = [].
Proof.
  unfold txcl_Resonator, parse. destruct (ParseEvent _ _) as [[r0 p]|] eqn:E; [|done].
  intros Hr. injection Hr as <- He. destruct (ParseEvent_errors _ _ _ _ E) as [es F].
  rewrite He in F. by destruct (app_eq_nil es (check_errors r0) (eq_sym F)).
Qed.

Lemma accepted_ok def r es : txcl_Resonator def = Some (r, es) -> rule_ok r.
Proof.
  unfold txcl_Resonator. destruct (parse_returns false def) as (r0 & ls & es0 & E & Hr).
  rewrite E. intros Hx. by injection Hx as <- _.
Qed.

(** ** Accepted rules *)

(** a rule the runtime accepts with a LOOP can run it: the loop has a
    well-formed exit predicate and a pass ceiling in range, its EXEC is
    present and is neither the no-op nor a stage jump in any of its three
    spellings, and no literal WITH mode takes it out of the request. *)
Theorem accepted_loop def r l :
  txcl_Resonator def = Some (r, []) -> r_Loop r = Some l ->
  (exists e, Until l = Some e /\ when_wf e) /\ (0 <= Max l <= MaxInt64)%Z /\
  let exec := TrimSpace (r_Exec r) in
  exec <> "" /\ exec <> "txco://noop" /\
  HasPrefix exec "txco://route" = false /\ HasPrefix exec GotoScheme = false /\
  (Contains exec "://" = true \/ stageJumpRE exec = false) /\
  forall mode, r_With r !! "mode" = Some (Literal (AString mode)) ->
    mode <> "async" /\ mode <> "continuable".
Proof.
  intros Hd Hl. destruct (accepted_ok _ _ _ Hd) as (_ & Hlo & _).
  destruct (Hlo l Hl) as [Hu Hm]. pose proof (accepted_checks _ _ Hd) as Hc.
  unfold check_errors in Hc. rewrite Hl in Hc.
  apply app_eq_nil in Hc as [Hc _]. apply app_eq_nil in Hc as [He Hmode].
  unfold loop_exec_errors in He.
  destruct (TrimSpace (r_Exec r) =s "") eqn:E1; [done|].
  destruct (TrimSpace (r_Exec r) =s "txco://noop") eqn:E2; [done|].
  destruct (_ || _) eqn:E3 in He; [done|]. bool_to_prop.
  repeat (split; [assumption|]). split.
  - destruct (Contains _ _); [by left|]. by right.
  - intros mode Em. unfold loop_mode_errors in Hmode. rewrite Em in Hmode.
    destruct (_ || _) eqn:E4 in Hmode; [done|]. by bool_to_prop.
Qed.

(** A [goto://] or [call://] the runtime accepts names a target its
    executor accepts: dispatch never meets a malformed one. *)
Theorem accepted_target def r :
  txcl_Resonator def = Some (r, []) ->
  (HasPrefix (r_Exec r) GotoScheme = true -> exists t, GotoTarget (r_Exec r) = inl t) /\
  (HasPrefix (r_Exec r) CallScheme = true -> exists st sc, CallTarget (r_Exec r) = inl (st, sc)).
Proof.
  intros Hd. pose proof (accepted_checks _ _ Hd) as Hc. unfold check_errors in Hc.
  apply app_eq_nil in Hc as [_ Hc]. apply app_eq_nil in Hc as [Hg Hcall]. split; intros Hp.
  - rewrite Hp in Hg. destruct (GotoTarget _); [eauto|done].
  - rewrite Hp in Hcall. destruct (CallTarget _) as [[st sc]|]; [eauto|done].
Qed.

(** ** Evaluation of a parsed WHEN *)

Lemma when_wf_coherent e : when_wf e -> all_leaves re_coherent e.
Proof.
  induction e as [a o n c hl st IHa IHo IHn] using WhenExpr_ind'.
  intros Hw. inversion Hw as [c' Hc|l ? Hf|l ? Hf|x Hx]; subst; constructor; try done.
  - intros _. by destruct Hc.
  - rewrite Forall_forall in *. eauto.
  - rewrite Forall_forall in *. eauto.
  - intros y Hy. injection Hy as <-. auto.
Qed.

Lemma rule_ok_coherent r : rule_ok r -> when_coherent r.
Proof.
  intros (Hw & _) w Ew. destruct (Hw w Ew) as (Hc & e & He & Hwf).
  rewrite Hc. split; [|constructor]. intros e' E. rewrite He in E. injection E as <-.
  destruct Hwf as [->|Hwf]; [|by apply when_wf_coherent]. by constructor.
Qed.

(** C32: whatever the text and its diagnostics, the WHEN clause of the parsed
    rule evaluates, with the shared pattern cache and the patterns the parser
    compiled, to what the clause means. *)
Theorem parsed_when_refines `{Gjson} strict def r ls es input m :
  parse strict def = Some (r, ls, es) -> cache_ok m ->
  fst (WhenMatches r input m) = when_holds r input /\
  cache_ok (snd (WhenMatches r input m)).
Proof.
  intros Hd Hm. apply WhenMatches_spec; [|done]. apply rule_ok_coherent.
  destruct (parse_returns strict def) as (r0 & ls0 & es0 & E & Hr).
  rewrite E in Hd. by injection Hd as <- _ _.
Qed.

Lemma when_wf_leaves e : when_wf e -> all_leaves leaf_ok e.
Proof.
  induction e as [a o n c hl st IHa IHo IHn] using WhenExpr_ind'.
  intros Hw. inversion Hw as [c' Hc|l ? Hf|l ? Hf|x Hx]; subst; constructor; try done.
  - rewrite Forall_forall in *. eauto.
  - rewrite Forall_forall in *. eauto.
  - intros y Hy. injection Hy as <-. auto.
Qed.

Lemma all_leaves_impl (P Q : Condition -> Prop) e :
  (forall c, P c -> Q c) -> all_leaves P e -> all_leaves Q e.
Proof.
  intros HPQ. induction e as [a o n c hl st IHa IHo IHn] using WhenExpr_ind'.
  inversion 1; subst. constructor; auto; rewrite Forall_forall in *; eauto.
Qed.

(** The right-hand side of a leaf is the same in every environment. *)
Definition constant_rhs (c : Condition) : Prop :=
  forall n args env env', c_MatchCall c = Some (n, args) ->
    Resolve (Some (FunctionCall n args)) env = Resolve (Some (FunctionCall n args)) env'.

Lemma leaf_ok_constant c : leaf_ok c -> constant_rhs c.
Proof. intros Hc n args env env' E. by apply Resolve_path_free, (lo_call c Hc). Qed.

(** no parsed predicate compares two envelope paths.  In the WHEN and
    UNTIL clauses of every text, each comparison's right-hand side is a
    literal or a call whose value does not depend on the environment. *)
Theorem parsed_rhs_constant strict def r ls es :
  parse strict def = Some (r, ls, es) ->
  (forall w e, r_When r = Some w -> w_Expr w = Some e -> all_leaves constant_rhs e) /\
  (forall l e, r_Loop r = Some l -> Until l = Some e -> all_leaves constant_rhs e).
Proof.
  intros Hd. destruct (parse_returns strict def) as (r0 & ls0 & es0 & E & Hw & Hl & _).
  rewrite E in Hd. injection Hd as -> _ _. split.
  - intros w e Ew Ee. destruct (Hw w Ew) as (_ & e' & Ee' & Hwf).
    rewrite Ee in Ee'. injection Ee' as <-. destruct Hwf as [->|Hwf]; [by constructor|].
    eapply all_leaves_impl; [apply leaf_ok_constant|by apply when_wf_leaves].
  - intros l e El Ee. destruct (Hl l El) as ((e' & Ee' & Hwf) & _).
    rewrite Ee in Ee'. injection Ee' as <-.
    eapply all_leaves_impl; [apply leaf_ok_constant|by apply when_wf_leaves].
Qed.

(** [LOOP EVERY] takes milliseconds without an overflow check: a pause
    of 9223372036855 ms is accepted without a diagnostic although its
    duration has wrapped around to a negative one. *)
Lemma loop_every_overflow :
  exists r l, txcl_Resonator ("LOOP EVERY 9223372036855 UNTIL .a == 1 EXEC " ++ quoted "x")
              = Some (r, []) /\ r_Loop r = Some l /\ (Every l < 0)%Z.
Proof.
  rule_of (txcl_Resonator ("LOOP EVERY 9223372036855 UNTIL .a == 1 EXEC " ++ quoted "x")).
  loop_of. split; [by_vm|]. split; [by_vm|]. by_vm.
Qed.
End Rules.

(** ** Witnesses *)

Definition loop_def : string :=
  ("WHEN .color =~ /re/ EXEC " ++ quoted "https://w" ++ " LOOP UNTIL .color == &red() MAX 3")%string.

Lemma accepted_loop_witness :
  exists r l, @txcl_Resonator toy_engine toy_funcs loop_def = Some (r, []) /\
    r_Loop r = Some l /\ (0 <= Max l <= MaxInt64)%Z /\ Max l = 3%Z.
Proof.
  rule_of (@txcl_Resonator toy_engine toy_funcs loop_def). loop_of.
  split; [by_vm|]. split; [by_vm|]. split; [|by_vm].
  refine (proj1 (proj2 (@accepted_loop toy_engine toy_funcs loop_def _ _ _ _))); by_vm.
Defined.

Lemma accepted_target_witness :
  let def := ("EXEC " ++ quoted "call://billing/20")%string in
  exists r, @txcl_Resonator toy_engine toy_funcs def = Some (r, []) /\
    exists st sc, CallTarget (r_Exec r) = inl (st, sc).
Proof.
  intros def. rule_of (@txcl_Resonator toy_engine toy_funcs def). split; [by_vm|].
  refine (proj2 (@accepted_target toy_engine toy_funcs def _ _) _); by_vm.
Defined.

Lemma parsed_when_refines_witness :
  exists r ls es, @parse toy_engine toy_funcs false loop_def = Some (r, ls, es) /\
    fst (@WhenMatches toy_engine toy_gjson toy_funcs r "red" ∅) =
    @when_holds toy_engine toy_gjson toy_funcs r "red" /\
    @when_holds toy_engine toy_gjson toy_funcs r "red" = true.
Proof.
  rule_of (@parse toy_engine toy_funcs false loop_def). split; [by_vm|]. split; [|by_vm].
  refine (proj1 (@parsed_when_refines toy_engine toy_funcs toy_gjson false loop_def _ [] [] _ _ _ _));
    [by_vm|apply cache_ok_empty].
Defined.

Lemma parsed_rhs_constant_witness :
  exists r ls es, @parse toy_engine toy_funcs false loop_def = Some (r, ls, es) /\
    forall l e, r_Loop r = Some l -> Until l = Some e ->
                @all_leaves (@constant_rhs toy_funcs) e.
Proof.
  rule_of (@parse toy_engine toy_funcs false loop_def). split; [by_vm|].
  refine (proj2 (@parsed_rhs_constant toy_engine toy_funcs false loop_def _ [] [] _)). by_vm.
Defined.
