(* ===== verification/JsonxPath.v ===== *)
(** * sjson paths (chassis/jsonx/builder.go)

    How a path is split into object keys: escapes, force prefixes, the raw
    text of a segment and the array index a key stands for. *)

From Stdlib Require Import Ascii String ZArith Lia Bool.
From stdpp Require Import base tactics list strings.
From S2P Require Import Prelude GoStrings GoStrconv.

Definition BS : ascii := b 92.

Record pathSeg := mkSeg { name : string; force : bool }.

(** ** splitPath *)

Definition is_wild (c : ascii) : bool := (c =c "*") || (c =c "?") || (c =c "#").

(** The loop over the bytes of the path; [cur] and [segs] are what it has
    gathered. *)
Fixpoint split_loop (s cur : string) (frc segStart : bool) (segs : list pathSeg)
    : option (list pathSeg) :=
  match s with
  | EmptyString => Some (segs ++ [mkSeg cur frc])
  | String c s' =>
      if segStart && (c =c ":") then split_loop s' cur true false segs
      else if c =c BS then
        match s' with
        | EmptyString => Some (segs ++ [mkSeg cur frc])
        | String d s'' => split_loop s'' (cur ++ String d EmptyString) frc false segs
        end
      else if c =c "." then split_loop s' EmptyString false true (segs ++ [mkSeg cur frc])
      else if is_wild c then None
      else split_loop s' (cur ++ String c EmptyString) frc false segs
  end.

Definition splitPath (path : string) : option (list pathSeg) :=
  if path =s "" then None else split_loop path EmptyString false true [].

(** ** joinSegs *)

Definition needs_escape (c : ascii) : bool :=
  (c =c BS) || (c =c ".") || is_wild c || (c =c ":").
Definition escape_byte (c : ascii) : string :=
  if needs_escape c then String BS (String c EmptyString) else String c EmptyString.
Definition join_seg (s : pathSeg) : string :=
  ((if force s then ":" else "") ++ sflat escape_byte (name s))%string.
Fixpoint joinSegs (segs : list pathSeg) : string :=
  match segs with
  | [] => EmptyString
  | [s] => join_seg s
  | s :: segs => (join_seg s ++ String "." (joinSegs segs))%string
  end.

(** ** PathKey *)

Record PathKey := mkPathKey { Name : string; Force : bool; Raw : string }.

Definition MaxInt : Z := MaxInt64.

(** The digit loop of [Index]: [None] for a byte that is no digit. *)
Fixpoint index_loop (s : string) (n : Z) (huge : bool) : option (Z * bool) :=
  match s with
  | EmptyString => Some (n, huge)
  | String c s =>
      if negb (is_dec c) then None
      else if huge then index_loop s n huge
      else if ((MaxInt - digit_val c) / 10 <? n)%Z then index_loop s n true
      else index_loop s (n * 10 + digit_val c)%Z false
  end.

(** [(n, isIndex, huge)]. *)
Definition Index (k : PathKey) : Z * bool * bool :=
  if Force k then (0%Z, false, false)
  else match index_loop (Name k) 0 false with
       | None => (0%Z, false, false)
       | Some (n, huge) => (n, true, huge)
       end.

(** The raw text of a segment runs to the next unescaped dot; the second
    component is what follows that dot. *)
Fixpoint raw_split (s : string) : string * string :=
  match s with
  | EmptyString => (EmptyString, EmptyString)
  | String c s' =>
      if c =c "." then (EmptyString, s')
      else if c =c BS then
        match s' with
        | EmptyString => (String c EmptyString, EmptyString)
        | String d s'' => let '(r, t) := raw_split s'' in (String c (String d r), t)
        end
      else let '(r, t) := raw_split s' in (String c r, t)
  end.

Fixpoint raw_keys (segs : list pathSeg) (path : string) : list PathKey :=
  match segs with
  | [] => []
  | s :: segs =>
      let '(raw, rest) := raw_split path in
      mkPathKey (name s) (force s) (if force s then sdrop 1 raw else raw) :: raw_keys segs rest
  end.

Definition PathSegments (path : string) : option (list PathKey) :=
  match splitPath path with None => None | Some segs => Some (raw_keys segs path) end.

Definition PathKeys (path : string) : option (list string) :=
  match splitPath path with None => None | Some segs => Some (map name segs) end.

(** ** Splitting one segment at a time *)

(** A specification of [split_loop] without accumulators: read one segment's
    body, then the rest. *)
Fixpoint split_spec (s cur : string) (frc segStart : bool) : option (list pathSeg) :=
  match s with
  | EmptyString => Some [mkSeg cur frc]
  | String c s' =>
      if segStart && (c =c ":") then split_spec s' cur true false
      else if c =c BS then
        match s' with
        | EmptyString => Some [mkSeg cur frc]
        | String d s'' => split_spec s'' (cur ++ String d EmptyString) frc false
        end
      else if c =c "." then
        match split_spec s' EmptyString false true with
        | Some l => Some (mkSeg cur frc :: l)
        | None => None
        end
      else if is_wild c then None
      else split_spec s' (cur ++ String c EmptyString) frc false
  end.

(** Induction two bytes at a time, for the escapes. *)
Lemma string_ind2 (P : string -> Prop) :
  P EmptyString -> (forall c, P (String c EmptyString)) ->
  (forall c d s, P s -> P (String d s) -> P (String c (String d s))) -> forall s, P s.
Proof.
  intros H0 H1 H2 s. enough (P s /\ forall c, P (String c s)) by tauto.
  induction s as [|d s [IH1 IH2]]; split; auto.
Qed.

Lemma split_loop_spec s cur frc st segs :
  split_loop s cur frc st segs =
  match split_spec s cur frc st with Some l => Some (segs ++ l) | None => None end.
Proof.
  revert cur frc st segs. induction s as [|c|c d s IH1 IH2] using string_ind2; intros cur frc st segs.
  - done.
  - simpl. repeat case_bool; try done. by rewrite <- app_assoc.
  - remember (String d s) as s' eqn:Es. cbn [split_loop split_spec].
    destruct (st && (c =c ":")); [apply IH2|].
    destruct (c =c BS); [rewrite Es; apply IH1|]. destruct (c =c ".").
    + rewrite IH2. destruct (split_spec s' "" false true); [|done]. by rewrite <- app_assoc.
    + destruct (is_wild c); [done|apply IH2].
Qed.

Lemma splitPath_spec path :
  splitPath path = if path =s "" then None else split_spec path EmptyString false true.
Proof.
  unfold splitPath. destruct (path =s ""); [done|]. rewrite split_loop_spec.
  by destruct (split_spec _ _ _ _).
Qed.

Lemma split_spec_not_nil s cur frc st : split_spec s cur frc st <> Some [].
Proof.
  revert cur frc st. induction s as [|c|c d s IH1 IH2] using string_ind2; intros cur frc st.
  - done.
  - simpl. repeat case_bool; done.
  - remember (String d s) as s' eqn:Es. cbn [split_spec].
    destruct (st && (c =c ":")); [apply IH2|]. destruct (c =c BS); [rewrite Es; apply IH1|].
    destruct (c =c "."); [by destruct (split_spec s' _ _ _)|].
    destruct (is_wild c); [done|apply IH2].
Qed.

(** ** Round trip *)

Lemma split_escaped nm s cur frc :
  split_spec (sflat escape_byte nm ++ s) cur frc false =
  split_spec s (cur ++ nm) frc false.
Proof.
  revert cur. induction nm as [|c nm IH]; intros cur; [by rewrite sapp_nil_r|].
  cbn [sflat]. rewrite <- sapp_assoc. unfold escape_byte at 1. destruct (needs_escape c) eqn:E.
  - cbn [String.append split_spec andb]. rewrite (proj2 (Ascii.eqb_eq BS BS) eq_refl).
    rewrite IH, <- sapp_assoc. done.
  - unfold needs_escape in E. bool_to_prop. cbn [String.append split_spec andb].
    rewrite !(proj2 (Ascii.eqb_neq c _)) by done.
    match goal with H : is_wild c = false |- _ => rewrite H end.
    rewrite IH, <- sapp_assoc. done.
Qed.

(** At the start of a segment the escapes keep a colon from being read as the
    force prefix. *)
Lemma split_escaped_start nm s :
  nm <> "" ->
  split_spec (sflat escape_byte nm ++ s) "" false true = split_spec s nm false false.
Proof.
  destruct nm as [|c nm]; [done|]. intros _. cbn [sflat]. rewrite <- sapp_assoc.
  unfold escape_byte at 1. destruct (needs_escape c) eqn:E.
  - cbn [String.append split_spec andb]. rewrite (proj2 (Ascii.eqb_eq BS BS) eq_refl).
    rewrite (proj2 (Ascii.eqb_neq BS ":")) by done. by rewrite split_escaped.
  - unfold needs_escape in E. bool_to_prop. cbn [String.append split_spec andb].
    rewrite !(proj2 (Ascii.eqb_neq c _)) by done.
    match goal with H : is_wild c = false |- _ => rewrite H end. by rewrite split_escaped.
Qed.

(** A segment as [joinSegs] writes it, followed by the end or by a dot. *)
Lemma split_join_seg sg s :
  s = "" \/ (exists t, s = String "." t) ->
  split_spec (join_seg sg ++ s) "" false true = split_spec s (name sg) (force sg) false.
Proof.
  intros Hs. destruct sg as [nm [|]]; unfold join_seg; cbn [force name].
  - cbn [String.append split_spec andb]. rewrite Ascii.eqb_refl. by rewrite split_escaped.
  - destruct nm as [|c nm]; [|by rewrite <- split_escaped_start].
    simpl. destruct Hs as [->|[t ->]]; done.
Qed.

Lemma split_joinSegs segs :
  segs <> [] -> split_spec (joinSegs segs) "" false true = Some segs.
Proof.
  induction segs as [|s segs IH]; [done|]. intros _. destruct segs as [|s' segs].
  - cbn [joinSegs]. rewrite <- (sapp_nil_r (join_seg s)), split_join_seg by auto.
    simpl. by destruct s.
  - change (joinSegs (s :: s' :: segs)) with (join_seg s ++ String "." (joinSegs (s' :: segs)))%string.
    rewrite split_join_seg by eauto. remember (joinSegs (s' :: segs)) as t.
    cbn [split_spec andb]. change ("." =c BS) with false. cbv iota. rewrite Ascii.eqb_refl.
    rewrite IH by done. by destruct s.
Qed.

Lemma sflat_escape_nil nm : sflat escape_byte nm = "" -> nm = "".
Proof. destruct nm as [|c nm]; [done|]. simpl. unfold escape_byte. by destruct (needs_escape c). Qed.

Lemma joinSegs_nil segs : joinSegs segs = "" -> segs = [] \/ segs = [mkSeg "" false].
Proof.
  destruct segs as [|[nm fr] [|s' segs]]; [auto| |].
  - cbn [joinSegs]. unfold join_seg. simpl. destruct fr; [done|]. intros E. right.
    by rewrite (sflat_escape_nil nm E).
  - cbn [joinSegs]. intros E. exfalso. by destruct (join_seg _).
Qed.

(** Re-encoding keys as a path and splitting it again gives the keys back,
    force flags included, whatever bytes the keys hold; the one exception is
    the lone empty key, whose path is the empty path sjson rejects. *)
Theorem split_join_roundtrip segs :
  segs <> [] -> segs <> [mkSeg "" false] -> splitPath (joinSegs segs) = Some segs.
Proof.
  intros H1 H2. rewrite splitPath_spec.
  destruct (String.eqb_spec (joinSegs segs) "") as [E|E]; [|by apply split_joinSegs].
  apply joinSegs_nil in E as [?|?]; done.
Qed.

Lemma split_join_roundtrip_witness :
  let segs := [mkSeg "a.b" false; mkSeg ":c*" false; mkSeg "" false; mkSeg "12" true] in
  splitPath (joinSegs segs) = Some segs.
Proof. intros segs. apply split_join_roundtrip; discriminate. Defined.

(** ** Raw segments *)

(** How the rest of the path relates to the first segment's raw text. *)
Definition raw_tail (s : string) (l : list pathSeg) : Prop :=
  let '(r, t) := raw_split s in
  (l = [] /\ s = r) \/ (s = (r ++ String "." t)%string /\ split_spec t "" false true = Some l).

Lemma raw_tail_cons c s l :
  (c =c ".") = false -> (c =c BS) = false -> raw_tail s l -> raw_tail (String c s) l.
Proof.
  unfold raw_tail. intros H1 H2. cbn [raw_split]. rewrite H1, H2.
  destruct (raw_split s) as [r t]. intros [[-> E]|[E ?]]; [left|right]; simpl; by rewrite <- E.
Qed.

Lemma split_raw s : forall cur frc sg l,
  split_spec s cur frc false = Some (sg :: l) -> force sg = frc /\ raw_tail s l.
Proof.
  induction s as [|c|c d s IH1 IH2] using string_ind2; intros cur frc sg l.
  - intros H. injection H as <- <-. split; [done|]. by left.
  - cbn [split_spec andb]. destruct (c =c BS) eqn:E1; [|destruct (c =c ".") eqn:E2].
    + intros H. injection H as <- <-. split; [done|]. unfold raw_tail. cbn [raw_split].
      bool_to_prop. subst c. by left.
    + intros H. injection H as <- <-. split; [done|]. unfold raw_tail. cbn [raw_split].
      rewrite E2. bool_to_prop. subst c. by right.
    + destruct (is_wild c); [done|]. intros H. injection H as <- <-. split; [done|].
      apply raw_tail_cons; [done|done|]. by left.
  - remember (String d s) as s' eqn:Es. cbn [split_spec andb].
    destruct (c =c BS) eqn:E1; [|destruct (c =c ".") eqn:E2].
    + rewrite Es. intros H. destruct (IH1 _ _ _ _ H) as [? Ht]. split; [done|].
      unfold raw_tail in *. cbn [raw_split]. bool_to_prop. subst c. simpl.
      destruct (raw_split s) as [r t].
      destruct Ht as [[-> E]|[E ?]]; [left|right]; simpl; by rewrite <- E.
    + destruct (split_spec s' "" false true) as [l'|] eqn:El; [|done].
      intros H. injection H as <- <-. split; [done|]. unfold raw_tail. cbn [raw_split].
      rewrite E2. bool_to_prop. subst c. by right.
    + destruct (is_wild c); [done|]. intros H. destruct (IH2 _ _ _ _ H) as [? Ht].
      split; [done|]. by apply raw_tail_cons.
Qed.

(** At the start of a segment: a force flag is a colon that opens the raw
    text, so dropping the first byte of that text is in range. *)
Lemma split_raw_start s sg l :
  split_spec s "" false true = Some (sg :: l) ->
  raw_tail s l /\ (force sg = true -> exists r, (raw_split s).1 = String ":" r).
Proof.
  destruct s as [|c s]; [intros H; injection H as <- <-; split; [by left|done]|].
  cbn [split_spec andb]. destruct (c =c ":") eqn:E.
  - intros H. destruct (split_raw _ _ _ _ _ H) as [_ Ht]. apply Ascii.eqb_eq in E. subst c.
    split; [by apply raw_tail_cons|]. intros _. cbn [raw_split]. simpl.
    destruct (raw_split s) as [r t]. by exists r.
  - intros H. assert (Hs : split_spec (String c s) "" false false = Some (sg :: l)) by exact H.
    destruct (split_raw _ _ _ _ _ Hs) as [-> Ht]. done.
Qed.

Definition key_text (k : PathKey) : string := ((if Force k then ":" else "") ++ Raw k)%string.
Fixpoint join_keys (ks : list PathKey) : string :=
  match ks with
  | [] => EmptyString
  | [k] => key_text k
  | k :: ks => (key_text k ++ String "." (join_keys ks))%string
  end.

Lemma raw_keys_join segs s :
  split_spec s "" false true = Some segs -> join_keys (raw_keys segs s) = s.
Proof.
  revert s. induction segs as [|sg l IH]; intros s H; [by apply split_spec_not_nil in H|].
  destruct (split_raw_start _ _ _ H) as [Ht Hf]. unfold raw_tail in Ht. cbn [raw_keys].
  destruct (raw_split s) as [r t]. simpl in Hf.
  assert (Hk : key_text (mkPathKey (name sg) (force sg) (if force sg then sdrop 1 r else r)) = r).
  { unfold key_text. simpl. destruct (force sg); [|done]. by destruct (Hf eq_refl) as [r' ->]. }
  destruct Ht as [[-> ->]|[Es Hl]]; [exact Hk|].
  destruct l as [|sg' l]; [by apply split_spec_not_nil in Hl|].
  specialize (IH t Hl). cbn [raw_keys] in *. destruct (raw_split t) as [r' t'].
  cbn [join_keys]. rewrite Hk, Es. do 2 f_equal. exact IH.
Qed.

(** [PathSegments] keeps the author's spelling: the raw segments, with
    their force colons, joined by dots are the path itself, and the keys are
    those [splitPath] resolves. *)
Theorem PathSegments_raw path ks :
  PathSegments path = Some ks ->
  join_keys ks = path /\
  splitPath path = Some (map (fun k => mkSeg (Name k) (Force k)) ks).
Proof.
  unfold PathSegments. destruct (splitPath path) as [segs|] eqn:E; [|done].
  intros H. injection H as <-. pose proof E as E'. rewrite splitPath_spec in E'.
  destruct (path =s ""); [done|]. split; [by apply raw_keys_join|]. f_equal.
  clear. revert path. induction segs as [|[nm fr] l IH]; intros path; [done|].
  cbn [raw_keys]. destruct (raw_split path). simpl. by rewrite <- IH.
Qed.

Lemma PathSegments_raw_witness :
  let path := ("a" ++ String BS ".b.:12.c")%string in
  exists ks, PathSegments path = Some ks /\ join_keys ks = path /\
             map Name ks = ["a.b"; "12"; "c"].
Proof.
  intros path. eexists. split; [reflexivity|]. split; [|reflexivity].
  refine (proj1 (PathSegments_raw path _ _)). reflexivity.
Defined.

(** ** Plain paths *)

Definition plain_byte (c : ascii) : bool :=
  negb ((c =c BS) || (c =c ":") || is_wild c).

Lemma split_spec_plain s cur :
  sall plain_byte s = true ->
  forall st, split_spec s cur false st =
  Some match Split s "." with
       | w :: ws => mkSeg (cur ++ w) false :: map (fun w => mkSeg w false) ws
       | [] => []
       end.
Proof.
  revert cur. induction s as [|c s IH]; intros cur Hs st; [simpl; by rewrite sapp_nil_r|].
  cbn [sall] in Hs. apply andb_true_iff in Hs as [Hc Hs]. unfold plain_byte in Hc.
  bool_to_prop. cbn [split_spec Split]. rewrite !(proj2 (Ascii.eqb_neq c _)) by done.
  match goal with H : is_wild c = false |- _ => rewrite H end. rewrite andb_false_r.
  destruct (c =c ".") eqn:Ed.
  - rewrite (IH "" Hs true), sapp_nil_r. pose proof (Split_not_nil s ".").
    by destruct (Split s ".").
  - rewrite (IH _ Hs false). pose proof (Split_not_nil s ".").
    destruct (Split s "."); [done|]. by rewrite <- sapp_assoc.
Qed.

Lemma PathKeys_plain path :
  path <> "" -> sall plain_byte path = true -> PathKeys path = Some (Split path ".").
Proof.
  intros Hn Hp. unfold PathKeys. rewrite splitPath_spec.
  apply String.eqb_neq in Hn. rewrite Hn, split_spec_plain by done.
  pose proof (Split_not_nil path "."). destruct (Split path ".") as [|w ws]; [done|].
  simpl. f_equal. f_equal. rewrite map_map. apply map_id.
Qed.

(** ** Extending a path *)

(** Whether an escape is still open at the end of the text. *)
Fixpoint pending (s : string) (e : bool) : bool :=
  match s with
  | EmptyString => e
  | String c s => pending s (if e then false else c =c BS)
  end.

Definition lift_app (o o' : option (list pathSeg)) : option (list pathSeg) :=
  match o, o' with Some l, Some l' => Some (l ++ l') | _, _ => None end.

(** A path with no open escape, a dot and another path: the keys are those of
    the two paths. *)
Lemma split_spec_app s : forall cur frc st t,
  pending s false = false ->
  split_spec (s ++ String "." t) cur frc st =
  lift_app (split_spec s cur frc st) (split_spec t "" false true).
Proof.
  induction s as [|c|c d s IH1 IH2] using string_ind2; intros cur frc st t Hp.
  - simpl. rewrite andb_false_r. by destruct (split_spec t "" false true).
  - simpl in Hp. cbn [String.append]. remember (String "." t) as u eqn:Eu. cbn [split_spec].
    rewrite Hp. destruct (st && (c =c ":")); [|destruct (c =c "."); [|destruct (is_wild c)]];
      subst u; try done; cbn [split_spec andb]; simpl;
      by destruct (split_spec t "" false true).
  - remember (String d s) as s' eqn:Es. cbn [pending] in Hp. cbn [String.append].
    remember (s' ++ String "." t)%string as u eqn:Eu. cbn [split_spec].
    destruct (c =c BS) eqn:Eb.
    + destruct (st && (c =c ":")) eqn:Ec; [bool_to_prop; subst; done|].
      subst u s'. cbn [String.append]. by apply IH1.
    + rename Hp into Hp'. destruct (st && (c =c ":")); [subst u; by apply IH2|].
      destruct (c =c "."); [|destruct (is_wild c); [done|subst u; by apply IH2]].
      subst u. rewrite IH2 by done.
      by destruct (split_spec s' "" false true), (split_spec t "" false true).
Qed.

Lemma splitPath_app s t segs segs' :
  pending s false = false -> splitPath s = Some segs -> splitPath t = Some segs' ->
  splitPath (s ++ String "." t) = Some (segs ++ segs').
Proof.
  intros Hp Hs Ht. rewrite splitPath_spec in *.
  destruct (s =s ""); [done|]. destruct (t =s ""); [done|].
  destruct (String.eqb_spec (s ++ String "." t) "") as [E|_]; [by destruct s|].
  by rewrite split_spec_app, Hs, Ht.
Qed.

(** ** Array indexes *)

Lemma index_loop_exact s n m :
  (0 <= n)%Z -> index_loop s n false = Some (m, false) -> m = dec_value s n /\ (0 <= m)%Z.
Proof.
  revert n. induction s as [|c s IH]; intros n Hn; simpl; [intros H; by injection H as <-|].
  destruct (is_dec c) eqn:Ed; [|done]. simpl. pose proof (digit_val_bounds c Ed).
  destruct (_ <? n)%Z; [|apply IH; lia].
  intros H'. exfalso. revert H'. clear. revert n. induction s as [|c s IH]; intros n; simpl; [done|].
  destruct (is_dec c); simpl; [apply IH|done].
Qed.
