(* ===== verification/Builder.v ===== *)
(** * The JSON document builder (chassis/jsonx/builder.go)

    A document under construction is a tree whose leaves are verbatim JSON
    bytes.  [Set] and [SetRaw] splice a value at a path the way sjson does and
    [String] writes the tree once.  The sjson call that descends into a raw
    leaf, [strconv.FormatFloat] and the [json.Marshal] of other types are
    parameters. *)

From Stdlib Require Import Ascii String ZArith Lia Bool.
From stdpp Require Import base tactics list strings.
From S2P Require Import Prelude GoStrings GoStrconv GoJson JsonxPath.

(** ** The tree *)

Record entry (A : Type) := mkE { key : string; qkey : string; val : A }.
Arguments mkE {A}. Arguments key {A}. Arguments qkey {A}. Arguments val {A}.

Inductive node :=
  | NRaw (raw : string)
  | NObj (obj : list (entry node))
  | NArr (arr : list node).

Definition leaf (raw : string) : node := NRaw raw.

(** A builder is its root; [None] is the empty (or poisoned) document. *)
Definition Builder : Type := option node.
Definition New : Builder := None.
Definition NewObject : Builder := Some (NObj []).
Definition NewArray : Builder := Some (NArr []).

(** ** Strings *)

Definition must_marshal_byte (c : ascii) : bool :=
  (bval c <? 32) || (127 <? bval c) || (c =c json_DQ) || (c =c json_BS).
Definition MustMarshalString (s : string) : bool := sany must_marshal_byte s.

Definition AppendStringify (buf s : string) : string :=
  (buf ++ if MustMarshalString s then json_marshal_string s
          else String json_DQ (s ++ String json_DQ EmptyString))%string.

Definition mkEntry (key : string) (v : node) : entry node := mkE key (AppendStringify "" key) v.

(** ** Array indices

    The accumulator is an [int] and wraps. *)
Fixpoint digits_int (s : string) (n : Z) : option Z :=
  match s with
  | EmptyString => Some n
  | String c s => if is_dec c then digits_int s (wrap64 (n * 10 + digit_val c)) else None
  end.

Definition gjsonArrayIndex (nm : string) : option Z :=
  if nm =s "" then None else digits_int nm 0.
Definition atouiSeg (s : pathSeg) : option Z :=
  if force s then None else digits_int (name s) 0.

Definition is_append (s : pathSeg) : bool := negb (force s) && (name s =s "-1").

(** ** Writing at a path *)

Section Write.
Variable sjson_SetRaw : string -> string -> string -> option string.
Variable raw : string.

Fixpoint createValue (segs : list pathSeg) : node :=
  match segs with
  | [] => leaf raw
  | s :: segs' =>
      match atouiSeg s with
      | Some n => NArr (replicate (Z.to_nat n) (leaf "null") ++ [createValue segs'])
      | None => if is_append s then NArr [createValue segs']
                else NObj [mkEntry (name s) (createValue segs')]
      end
  end.

(** [splitPath] never returns the empty list, on which the code would panic. *)
Definition createRoot (segs : list pathSeg) : option node :=
  match segs with
  | [] => None
  | s :: segs' =>
      match atouiSeg s with
      | Some _ => Some (createValue segs)
      | None => Some (NObj [mkEntry (name s) (createValue segs')])
      end
  end.

Definition set_val (e : entry node) (v : node) : entry node := mkE (key e) (qkey e) v.

(** The element of the array that the segment hits. *)
Definition hit {A : Type} (s : pathSeg) (arr : list A) : option (nat * A) :=
  match gjsonArrayIndex (name s) with
  | Some i => if (0 <=? i)%Z then (fun v => (Z.to_nat i, v)) <$> arr !! Z.to_nat i else None
  | None => None
  end.

Fixpoint set_node (n : node) (segs : list pathSeg) : option node :=
  match segs with
  | [] => Some (leaf raw)
  | s :: segs' =>
      match n with
      | NObj obj =>
          match list_find (fun e => key e = name s) obj with
          | Some (i, e) =>
              match set_node (val e) segs' with
              | Some v => Some (NObj (<[i := set_val e v]> obj))
              | None => None
              end
          | None => Some (NObj (mkEntry (name s) (createValue segs') :: obj))
          end
      | NArr arr =>
          match hit s arr with
          | Some (i, e) =>
              match set_node e segs' with
              | Some v => Some (NArr (<[i := v]> arr))
              | None => None
              end
          | None =>
              match atouiSeg s with
              | Some i =>
                  Some (NArr (arr ++ replicate (Z.to_nat i - length arr) (leaf "null") ++ [createValue segs']))
              | None => if is_append s then Some (NArr (arr ++ [createValue segs'])) else None
              end
          end
      | NRaw r =>
          match sjson_SetRaw r (joinSegs segs) raw with
          | Some sub => Some (leaf sub)
          | None => None
          end
      end
  end.

Definition setNode (n : option node) (segs : list pathSeg) : option node :=
  match n with
  | None => createRoot segs
  | Some n => set_node n segs
  end.

Definition apply (b : Builder) (path : string) : Builder :=
  match splitPath path with
  | None => None
  | Some segs => setNode b segs
  end.
End Write.

Definition SetRaw (sjson : string -> string -> string -> option string) (b : Builder)
    (path raw : string) : Builder := apply sjson raw b path.

(** ** Values

    Sized and unsized integers are formatted alike; a [float32] is widened
    first, so it is carried as its [float64].  [GOther] is a value of any other
    type. *)

Inductive GoVal (T : Type) :=
  | GNil
  | GString (s : string)
  | GBytes (s : string)
  | GBool (x : bool)
  | GInt (z : Z)
  | GUint (z : Z)
  | GFloat (f : float64)
  | GOther (v : T).
Arguments GNil {T}. Arguments GString {T}. Arguments GBytes {T}. Arguments GBool {T}.
Arguments GInt {T}. Arguments GUint {T}. Arguments GFloat {T}. Arguments GOther {T}.

Section Values.
Context {T : Type}.
Variable format_float : float64 -> string.
Variable json_Marshal : T -> option string.
Variable sjson_SetRaw : string -> string -> string -> option string.

Definition encodeValue (v : GoVal T) : option string :=
  match v with
  | GNil => Some "null"
  | GString s | GBytes s => Some (AppendStringify "" s)
  | GBool x => Some (if x then "true" else "false")
  | GInt z | GUint z => Some (Itoa z)
  | GFloat f => Some (format_float f)
  | GOther v => json_Marshal v
  end.

Definition BSet (b : Builder) (path : string) (v : GoVal T) : Builder :=
  match encodeValue v with
  | None => None
  | Some raw => apply sjson_SetRaw raw b path
  end.
End Values.

(** ** Serialisation *)

Fixpoint sizeNode (n : node) : nat :=
  match n with
  | NObj obj =>
      (fix go (l : list (entry node)) (first : bool) : nat :=
         match l with
         | [] => 2
         | e :: l => (if first then 0 else 1) + (slen (qkey e) + 1 + sizeNode (val e)) + go l false
         end) obj true
  | NArr arr =>
      (fix go (l : list node) (first : bool) : nat :=
         match l with
         | [] => 2
         | e :: l => (if first then 0 else 1) + sizeNode e + go l false
         end) arr true
  | NRaw r => slen r
  end.

Fixpoint writeNode (buf : string) (n : node) : string :=
  match n with
  | NObj obj =>
      let buf := (buf ++ "{")%string in
      ((fix go (buf : string) (l : list (entry node)) (first : bool) : string :=
          match l with
          | [] => buf
          | e :: l =>
              let buf := if first then buf else (buf ++ ",")%string in
              go (writeNode ((buf ++ qkey e) ++ ":") (val e)) l false
          end) buf obj true ++ "}")%string
  | NArr arr =>
      let buf := (buf ++ "[")%string in
      ((fix go (buf : string) (l : list node) (first : bool) : string :=
          match l with
          | [] => buf
          | e :: l =>
              let buf := if first then buf else (buf ++ ",")%string in
              go (writeNode buf e) l false
          end) buf arr true ++ "]")%string
  | NRaw r => (buf ++ r)%string
  end.

Definition String_ (b : Builder) : string :=
  match b with
  | None => EmptyString
  | Some n => writeNode EmptyString n
  end.

(** The document of the package comment: sequential inserts land in reverse. *)
Example builder_ex :
  let set b p r := SetRaw (fun _ _ _ => None) b p r in
  String_ (set (set (set NewObject "a" "1") "b.c" "true") "d.2" "null") =
  bytes [123;34;100;34;58;91;110;117;108;108;44;110;117;108;108;44;110;117;108;108;93;44;34;98;34;58;123;34;99;34;58;116;114;117;101;125;44;34;97;34;58;49;125].
Proof. reflexivity. Qed.
