(* ===== verification/BuilderFacts.v ===== *)
(** * Correctness of the JSON document builder

    Induction over the tree, the value read back after a write, the values a
    write leaves alone, uniqueness of keys, the exact size of the buffer, and
    that what is written is JSON. *)

From Stdlib Require Import Ascii String ZArith Lia Bool.
From stdpp Require Import base tactics list strings.
From S2P Require Import Prelude GoStrings GoStrconv GoJson JsonxPath Builder.

Section NodeInd.
Variable P : node -> Prop.
Hypothesis HRaw : forall r, P (NRaw r).
Hypothesis HObj : forall l, Forall (fun e => P (val e)) l -> P (NObj l).
Hypothesis HArr : forall l, Forall P l -> P (NArr l).

Fixpoint node_rect' (n : node) : P n :=
  match n with
  | NRaw r => HRaw r
  | NObj l => HObj l ((fix go l : Forall (fun e => P (val e)) l :=
      match l with [] => List.Forall_nil _ | e :: l => List.Forall_cons _ _ _ (node_rect' (val e)) (go l) end) l)
  | NArr l => HArr l ((fix go l : Forall P l :=
      match l with [] => List.Forall_nil _ | e :: l => List.Forall_cons _ _ _ (node_rect' e) (go l) end) l)
  end.
End NodeInd.

(** ** Reading at a path *)

Definition child (n : node) (s : pathSeg) : option node :=
  match n with
  | NObj obj => val ∘ snd <$> list_find (fun e => key e = name s) obj
  | NArr arr => snd <$> hit s arr
  | NRaw _ => None
  end.

Fixpoint get (n : node) (segs : list pathSeg) : option node :=
  match segs with
  | [] => Some n
  | s :: segs => match child n s with Some v => get v segs | None => None end
  end.

Definition Get (b : Builder) (segs : list pathSeg) : option node :=
  match b with Some n => get n segs | None => None end.

(** A segment that names a child: the empty segment and the append marker name
    none, and an index must not have wrapped below zero. *)
Definition addressable (s : pathSeg) : bool :=
  negb (name s =s "") && negb (is_append s) &&
  match digits_int (name s) 0 with Some i => (0 <=? i)%Z | None => true end.

(** The walk stops at a raw leaf before the path ends. *)
Fixpoint through_raw (n : node) (segs : list pathSeg) : bool :=
  match segs with
  | [] => false
  | s :: segs =>
      match n with
      | NRaw _ => true
      | _ => match child n s with Some v => through_raw v segs | None => false end
      end
  end.

Lemma hit_lookup {A} s (arr : list A) i v : hit s arr = Some (i, v) ->
  arr !! i = Some v /\ exists k, gjsonArrayIndex (name s) = Some k /\ (0 <= k)%Z /\ i = Z.to_nat k.
Proof.
  unfold hit. intros H. destruct (gjsonArrayIndex (name s)) as [k|] eqn:E; [|done].
  destruct (Z.leb_spec 0 k); [|done]. apply fmap_Some in H as (w & Hw & [= -> ->]). eauto.
Qed.

Lemma lookup_hit {A} s (arr : list A) k v :
  gjsonArrayIndex (name s) = Some k -> (0 <= k)%Z -> arr !! Z.to_nat k = Some v ->
  hit s arr = Some (Z.to_nat k, v).
Proof. unfold hit. intros -> Hk Hv. apply Z.leb_le in Hk as ->. by rewrite Hv. Qed.

Lemma addressable_index s k :
  addressable s = true -> digits_int (name s) 0 = Some k -> gjsonArrayIndex (name s) = Some k /\ (0 <= k)%Z.
Proof.
  unfold addressable, gjsonArrayIndex. intros H E. rewrite E in H. bool_to_prop.
  destruct (String.eqb_spec (name s) ""); [done|]. done.
Qed.

Lemma child_padded s arr pad v k :
  gjsonArrayIndex (name s) = Some k -> (0 <= k)%Z -> Z.to_nat k = length arr + length pad ->
  child (NArr (arr ++ pad ++ [v])) s = Some v.
Proof.
  intros E Hk Hl. cbn. rewrite (lookup_hit s _ k v E Hk); [done|].
  rewrite Hl, app_assoc, <- length_app, lookup_app_r by lia. by rewrite Nat.sub_diag.
Qed.

(** Replacing the child a segment names. *)
Lemma child_obj_update s obj i e v :
  list_find (fun e => key e = name s) obj = Some (i, e) ->
  child (NObj (<[i := set_val e v]> obj)) s = Some v.
Proof.
  intros (Hi & Hk & Hj)%list_find_Some. cbn [child].
  rewrite (proj2 (list_find_Some _ _ i (set_val e v))); [done|].
  rewrite list_lookup_insert_eq by (eapply lookup_lt_Some; eauto). split; [done|]. split; [done|].
  intros j y Hy Hlt. rewrite list_lookup_insert_ne in Hy by lia. eauto.
Qed.

Lemma child_arr_update s arr i e v : hit s arr = Some (i, e) -> child (NArr (<[i := v]> arr)) s = Some v.
Proof.
  intros (Hi & k & Ek & Hk & ->)%hit_lookup. cbn [child]. rewrite (lookup_hit s _ k v Ek Hk); [done|].
  rewrite list_lookup_insert_eq; [done|]. eapply lookup_lt_Some; eauto.
Qed.

Lemma child_created s v : child (NObj [mkEntry (name s) v]) s = Some v.
Proof. cbn. by rewrite decide_True. Qed.

(** A created value holds the bytes at its path. *)
Lemma get_createValue raw segs :
  forallb addressable segs = true -> get (createValue raw segs) segs = Some (NRaw raw).
Proof.
  induction segs as [|s segs IH]; intros H; [done|]. cbn in H. apply andb_true_iff in H as [Hs H].
  cbn [createValue]. unfold atouiSeg. destruct (force s) eqn:Ef.
  - unfold is_append. rewrite Ef. cbn [negb andb get]. rewrite child_created. auto.
  - destruct (digits_int (name s) 0) as [k|] eqn:Ed.
    + destruct (addressable_index s k Hs Ed) as [Ei Hk].
      pose proof (child_padded s [] (replicate (Z.to_nat k) (leaf "null")) (createValue raw segs) k Ei Hk) as Hc.
      cbn [app length] in Hc. cbn [get]. rewrite Hc by (by rewrite length_replicate). auto.
    + unfold addressable in Hs. bool_to_prop. destruct (is_append s); [done|].
      cbn [get]. rewrite child_created. auto.
Qed.

Section Set_.
Variable sjson : string -> string -> string -> option string.
Variable raw : string.

(** *** The value just written is the one read *)
Lemma set_node_get n segs n' :
  set_node sjson raw n segs = Some n' -> forallb addressable segs = true ->
  through_raw n segs = false -> get n' segs = Some (NRaw raw).
Proof.
  revert n n'; induction segs as [|s segs IH]; intros n n' H Ha Ht; [by simplify_eq/=|].
  cbn in Ha. apply andb_true_iff in Ha as [Hs Ha]. cbn [set_node] in H. cbn [through_raw] in Ht.
  destruct n as [r|obj|arr]; [done|..].
  - cbn [child] in Ht. destruct (list_find _ obj) as [[i e]|] eqn:Ef.
    + cbn in Ht. destruct (set_node _ _ (val e) segs) as [v|] eqn:Ev; simplify_eq.
      cbn [get]. rewrite (child_obj_update _ _ _ _ v Ef). eauto.
    + simplify_eq. cbn [get child list_find]. rewrite decide_True by done. cbn. by apply get_createValue.
  - cbn [child] in Ht. destruct (hit s arr) as [[i e]|] eqn:Eh.
    + cbn in Ht. destruct (set_node _ _ e segs) as [v|] eqn:Ev; simplify_eq.
      cbn [get]. rewrite (child_arr_update _ _ _ _ v Eh). eauto.
    + unfold atouiSeg in H. destruct (force s) eqn:Ef.
      { unfold is_append in H. by rewrite Ef in H. }
      destruct (digits_int (name s) 0) as [k|] eqn:Ed; simplify_eq.
      * destruct (addressable_index s k Hs Ed) as [Ei Hk].
        assert (length arr <= Z.to_nat k).
        { apply Nat.nlt_ge. intros [v Hv]%lookup_lt_is_Some. by rewrite (lookup_hit s arr k v Ei Hk Hv) in Eh. }
        cbn [get]. rewrite (child_padded s arr _ _ k Ei Hk) by (rewrite length_replicate; lia).
        by apply get_createValue.
      * unfold addressable in Hs. bool_to_prop. by destruct (is_append s).
Qed.

(** *** Other paths *)

(** Two segments that never name the same child. *)
Definition seg_apart (s t : pathSeg) : Prop :=
  name s <> name t /\
  forall k, gjsonArrayIndex (name s) = Some k -> gjsonArrayIndex (name t) <> Some k.

Lemma hit_app {A} t (arr arr' : list A) i v : hit t arr = Some (i, v) -> hit t (arr ++ arr') = Some (i, v).
Proof.
  intros H. apply hit_lookup in H as (Hi & k & Ek & Hk & ->). eapply lookup_hit; eauto.
  by apply lookup_app_l_Some.
Qed.

(** Where two paths part, the child the second one names survives the write. *)
Lemma child_apart n s t segs n' v :
  seg_apart s t -> set_node sjson raw n (s :: segs) = Some n' -> child n t = Some v -> child n' t = Some v.
Proof.
  intros [Hn Hg] H Hc. cbn [set_node] in H. destruct n as [r|obj|arr]; [done|..].
  - cbn [child] in *. apply fmap_Some in Hc as ([j e'] & Ht & ->).
    destruct (list_find (fun e => key e = name s) obj) as [[i e]|] eqn:Ef.
    + destruct (set_node _ _ (val e) segs) as [w|] eqn:Ev; simplify_eq.
      apply list_find_Some in Ef as (Hi & Hk & _), Ht as (Hj & Hk' & Hbefore).
      assert (i <> j) by congruence. cbn [child].
      rewrite (proj2 (list_find_Some _ _ j e')); [done|].
      rewrite list_lookup_insert_ne by done. split; [done|]. split; [done|].
      intros l y Hy Hlt. destruct (decide (i = l)) as [->|].
      * rewrite list_lookup_insert_eq in Hy by (eapply lookup_lt_Some; eauto). simplify_eq. cbn. congruence.
      * rewrite list_lookup_insert_ne in Hy by done. eauto.
    + simplify_eq. cbn. rewrite decide_False by done. by rewrite Ht.
  - cbn [child] in *. apply fmap_Some in Hc as ([j w] & Ht & ->).
    destruct (hit s arr) as [[i e]|] eqn:Eh.
    + destruct (set_node _ _ e segs) as [w'|] eqn:Ev; simplify_eq.
      apply hit_lookup in Eh as (Hi & k & Ek & Hk & ->), Ht as (Hj & k' & Ek' & Hk' & ->).
      cbn [child]. rewrite (lookup_hit t _ k' w Ek' Hk'); [done|].
      rewrite list_lookup_insert_ne; [done|]. intros Heq. apply (Hg k); [done|].
      rewrite Ek'. f_equal. lia.
    + destruct (atouiSeg s); [|destruct (is_append s); [|done]]; simplify_eq;
        cbn [child]; by rewrite (hit_app _ _ _ _ _ Ht).
Qed.

Lemma set_node_apart pre s t p q n n' v :
  seg_apart s t -> set_node sjson raw n (pre ++ s :: p) = Some n' ->
  get n (pre ++ t :: q) = Some v -> get n' (pre ++ t :: q) = Some v.
Proof.
  intros Hst. revert n n'; induction pre as [|c pre IH]; intros n n' H Hg.
  - cbn [app get] in *. destruct (child n t) as [w|] eqn:Ec; [|done].
    by rewrite (child_apart _ _ _ _ _ _ Hst H Ec).
  - cbn [app get set_node] in *. destruct n as [r|obj|arr]; [done|..]; cbn [child] in Hg.
    + destruct (list_find _ obj) as [[i e]|] eqn:Ef; [|done]. cbn in Hg.
      destruct (set_node _ _ (val e) _) as [w|] eqn:Ev; simplify_eq.
      rewrite (child_obj_update _ _ _ _ w Ef). eauto.
    + destruct (hit c arr) as [[i e]|] eqn:Eh; [|done]. cbn in Hg.
      destruct (set_node _ _ e _) as [w|] eqn:Ev; simplify_eq.
      rewrite (child_arr_update _ _ _ _ w Eh). eauto.
Qed.
End Set_.

(** ** JSON texts and their values *)

Inductive jval :=
  | JNull
  | JBool (x : bool)
  | JNum (s : string)
  | JStr (s : string)
  | JArr (l : list jval)
  | JObj (l : list (string * jval)).

Definition is_ws (c : ascii) : bool := (c =c " ") || (c =c b 9) || (c =c b 10) || (c =c b 13).

(** Drop the digits of [s]; whether there was one. *)
Fixpoint digit_run (s : string) : bool * string :=
  match s with
  | String c s' => if is_dec c then (true, snd (digit_run s')) else (false, s)
  | EmptyString => (false, s)
  end.

Definition exp_part (s : string) : bool :=
  match s with
  | EmptyString => true
  | String c s =>
      ((c =c "e") || (c =c "E")) &&
      let s := match s with String d s' => if (d =c "+") || (d =c "-") then s' else s | _ => s end in
      let '(some, s) := digit_run s in some && (s =s "")
  end.

(** The number grammar of RFC 8259. *)
Definition json_number (s : string) : bool :=
  let s := match s with String c s' => if c =c "-" then s' else s | _ => s end in
  let '(int, s) := match s with
                   | String c s' => if c =c "0" then (true, s') else digit_run s
                   | _ => (false, s)
                   end in
  int &&
  match s with
  | String c s' => if c =c "." then let '(some, s) := digit_run s' in some && exp_part s else exp_part s
  | EmptyString => true
  end.

(** Texts separated by commas; [commas_more] is the loop after the first one. *)
Fixpoint commas_more (l : list string) : string :=
  match l with
  | [] => EmptyString
  | t :: l => ("," ++ t ++ commas_more l)%string
  end.
Definition commas (l : list string) : string :=
  match l with
  | [] => EmptyString
  | t :: l => (t ++ commas_more l)%string
  end.

(** [json t v]: the text [t] is JSON for the value [v]. *)
Inductive json : string -> jval -> Prop :=
  | json_null : json "null" JNull
  | json_true : json "true" (JBool true)
  | json_false : json "false" (JBool false)
  | json_num s : json_number s = true -> json s (JNum s)
  | json_str s x : unquote s = Some (x, EmptyString) -> json s (JStr x)
  | json_arr ts vs : Forall2 json ts vs -> json ("[" ++ commas ts ++ "]") (JArr vs)
  | json_obj ms vs : Forall2 member ms vs -> json ("{" ++ commas ms ++ "}") (JObj vs)
  | json_space u t w v : sall is_ws u = true -> sall is_ws w = true -> json t v -> json (u ++ t ++ w) v
with member : string -> string * jval -> Prop :=
  | member_intro k x t v : json k (JStr x) -> json t v -> member (k ++ ":" ++ t) (x, v).

(** ** The text of a tree *)

Fixpoint text (n : node) : string :=
  match n with
  | NRaw r => r
  | NObj obj => ("{" ++ commas (List.map (fun e => qkey e ++ ":" ++ text (val e)) obj) ++ "}")%string
  | NArr arr => ("[" ++ commas (List.map text arr) ++ "]")%string
  end.

Lemma writeNode_text n : forall buf, writeNode buf n = (buf ++ text n)%string.
Proof.
  induction n as [r|obj IH|arr IH] using node_rect'; intros buf; [done|..]; cbn [writeNode text].
  - match goal with |- context [?f _ obj true] => set (go := f) end.
    enough (E : forall l, Forall (fun e => forall buf, writeNode buf (val e) = (buf ++ text (val e))%string) l ->
      forall buf, go buf l false =
        (buf ++ commas_more (List.map (fun e => qkey e ++ ":" ++ text (val e)) l))%string).
    { destruct IH as [|e obj He Ho]; [change (go ?x [] true) with x; by rewrite <- !sapp_assoc|].
      cbn [List.map commas]. change (go ?x (e :: obj) true) with (go (writeNode ((x ++ qkey e) ++ ":") (val e)) obj false).
      rewrite (E _ Ho), He. by rewrite <- !sapp_assoc. }
    induction 1 as [|e l He Hl IHl]; intros buf'; [by rewrite sapp_nil_r|].
    change (go buf' (e :: l) false) with (go (writeNode (((buf' ++ ",") ++ qkey e) ++ ":") (val e)) l false).
    rewrite IHl, He. cbn [List.map commas_more]. by rewrite <- !sapp_assoc.
  - match goal with |- context [?f _ arr true] => set (go := f) end.
    enough (E : forall l, Forall (fun e => forall buf, writeNode buf e = (buf ++ text e)%string) l ->
      forall buf, go buf l false = (buf ++ commas_more (List.map text l))%string).
    { destruct IH as [|e arr He Ho]; [change (go ?x [] true) with x; by rewrite <- !sapp_assoc|].
      cbn [List.map commas]. change (go ?x (e :: arr) true) with (go (writeNode x e) arr false).
      rewrite (E _ Ho), He. by rewrite <- !sapp_assoc. }
    induction 1 as [|e l He Hl IHl]; intros buf'; [by rewrite sapp_nil_r|].
    change (go buf' (e :: l) false) with (go (writeNode (buf' ++ ",") e) l false).
    rewrite IHl, He. cbn [List.map commas_more]. by rewrite <- !sapp_assoc.
Qed.

(** Arithmetic on the lengths of concatenations. *)
Ltac slen_lia := repeat progress (rewrite ?slen_app; cbn [String.append String.length]); lia.

(** The buffer is allocated at its final size. *)
Lemma sizeNode_text n : sizeNode n = slen (text n).
Proof.
  induction n as [r|obj IH|arr IH] using node_rect'; [done|..]; cbn [sizeNode text].
  - match goal with |- context [?f obj true] => set (go := f) end.
    enough (E : forall l, Forall (fun e => sizeNode (val e) = slen (text (val e))) l ->
      go l false = 2 + slen (commas_more (List.map (fun e => qkey e ++ ":" ++ text (val e)) l))%string).
    { destruct IH as [|e obj He Ho]; [done|]. cbn [List.map commas].
      change (go (e :: obj) true) with (0 + (slen (qkey e) + 1 + sizeNode (val e)) + go obj false).
      rewrite (E _ Ho), He. slen_lia. }
    induction 1 as [|e l He Hl IHl]; [done|].
    change (go (e :: l) false) with (1 + (slen (qkey e) + 1 + sizeNode (val e)) + go l false).
    rewrite IHl, He. cbn [List.map commas_more]. slen_lia.
  - match goal with |- context [?f arr true] => set (go := f) end.
    enough (E : forall l, Forall (fun e => sizeNode e = slen (text e)) l ->
      go l false = 2 + slen (commas_more (List.map text l))).
    { destruct IH as [|e arr He Ho]; [done|]. cbn [List.map commas].
      change (go (e :: arr) true) with (0 + sizeNode e + go arr false).
      rewrite (E _ Ho), He. slen_lia. }
    induction 1 as [|e l He Hl IHl]; [done|].
    change (go (e :: l) false) with (1 + sizeNode e + go l false).
    rewrite IHl, He. cbn [List.map commas_more]. slen_lia.
Qed.

(** ** The value of a tree *)

Definition entry_ok (e : entry node) : Prop :=
  qkey e = AppendStringify "" (key e) /\ utf8_valid (key e) = true.

Inductive denotes : node -> jval -> Prop :=
  | den_raw r v : json r v -> denotes (NRaw r) v
  | den_obj obj vs :
      Forall2 (fun e kv => entry_ok e /\ key e = fst kv /\ denotes (val e) (snd kv)) obj vs ->
      NoDup (List.map key obj) -> denotes (NObj obj) (JObj vs)
  | den_arr arr vs : Forall2 denotes arr vs -> denotes (NArr arr) (JArr vs).

Definition jchild (v : jval) (s : pathSeg) : option jval :=
  match v with
  | JObj l => snd ∘ snd <$> list_find (fun kv => fst kv = name s) l
  | JArr l => snd <$> hit s l
  | _ => None
  end.
Fixpoint jget (v : jval) (segs : list pathSeg) : option jval :=
  match segs with
  | [] => Some v
  | s :: segs => match jchild v s with Some w => jget w segs | None => None end
  end.

(** A stringified key decodes to the key. *)
Lemma unquote_plain_all s t :
  sall (fun c => negb (must_marshal_byte c)) s = true ->
  unquote_body 0 (s ++ String json_DQ t) = Some (s, t).
Proof.
  induction s as [|c s IH]; intros H; [done|]. cbn [sall] in H. unfold must_marshal_byte in H. bool_to_prop.
  cbn [String.append]. rewrite unquote_plain, IH by done. done.
Qed.

Lemma AppendStringify_unquote s t : unquote (AppendStringify "" s ++ t) = Some (coerce_utf8 s, t).
Proof.
  unfold AppendStringify, MustMarshalString. change ("" ++ ?x)%string with x.
  destruct (sany must_marshal_byte s) eqn:E; [by rewrite marshal_unquote|].
  apply sany_false_iff in E. rewrite coerce_valid.
  - cbn [String.append]. rewrite <- sapp_assoc. cbn [String.append]. by apply unquote_plain_all.
  - apply ascii_valid. eapply sall_impl; [|exact E]. intros c Hc. unfold must_marshal_byte in Hc.
    bool_to_prop. apply Nat.ltb_lt. lia.
Qed.

Lemma stringify_json s : json (AppendStringify "" s) (JStr (coerce_utf8 s)).
Proof. apply json_str. rewrite <- (sapp_nil_r (AppendStringify "" s)). apply AppendStringify_unquote. Qed.

Lemma denotes_json n : forall v, denotes n v -> json (text n) v.
Proof.
  induction n as [r|obj IH|arr IH] using node_rect'; intros v Hd; inversion Hd as [|? vs Hf|? vs Hf]; subst; clear Hd.
  - done.
  - apply (json_obj (List.map _ obj)). induction Hf as [|e [x w] obj vs ([Hq Hu] & Hk & Hw) Hf IHf]; constructor.
    + rewrite Hq. cbn in Hk, Hw. subst x. apply member_intro; [rewrite <- (coerce_valid (key e)) at 2 by done; apply stringify_json|].
      by apply (Forall_inv IH).
    + apply IHf; [by apply (Forall_inv_tail IH)|]. by apply NoDup_cons in H as [_ ?].
  - apply (json_arr (List.map text arr)). induction Hf as [|e w arr vs Hw Hf IHf]; constructor.
    + by apply (Forall_inv IH).
    + apply IHf. by apply (Forall_inv_tail IH).
Qed.

Lemma denotes_child n v s m :
  denotes n v -> child n s = Some m -> exists w, jchild v s = Some w /\ denotes m w.
Proof.
  intros Hd Hc. inversion Hd as [|obj vs Hf Hnd|arr vs Hf]; subst; clear Hd; cbn [child jchild] in *; [done|..].
  - clear Hnd. apply fmap_Some in Hc as ([i e] & Hfi & ->). cbn.
    revert i Hfi; induction Hf as [|e' [k w] obj vs (_ & Hk & Hw) Hf IHf]; intros i Hfi; [done|].
    cbn in *. subst k. case_decide as Hd.
    + simplify_eq. eauto.
    + apply fmap_Some in Hfi as ([j e2] & Hfi & [= -> ->]). destruct (IHf _ Hfi) as (w2 & Hw2 & Hd2).
      apply fmap_Some in Hw2 as ([l y] & Hl & ->). rewrite Hl. eauto.
  - apply fmap_Some in Hc as ([i e] & Hh & ->). apply hit_lookup in Hh as (Hi & k & Ek & Hk & ->).
    destruct (Forall2_lookup_l _ _ _ _ _ Hf Hi) as (w & Hw & Hd). exists w. split; [|done].
    by rewrite (lookup_hit s vs k w Ek Hk Hw).
Qed.

Lemma denotes_get n v segs m :
  denotes n v -> get n segs = Some m -> exists w, jget v segs = Some w /\ denotes m w.
Proof.
  revert n v; induction segs as [|s segs IH]; intros n v Hd Hg; [simplify_eq/=; eauto|].
  cbn [get jget] in *. destruct (child n s) as [c|] eqn:Ec; [|done].
  destruct (denotes_child _ _ _ _ Hd Ec) as (w & -> & Hw). eauto.
Qed.

(** ** Integers are JSON numbers *)

Lemma digit_run_all s : sall is_dec s = true -> snd (digit_run s) = EmptyString.
Proof. induction s as [|c s IH]; intros H; [done|]. cbn in *. bool_to_prop. by destruct (is_dec c); auto. Qed.

Lemma json_number_itoa n : (0 <= n < 10 ^ 20)%Z ->
  json_number (itoa_aux 20 n EmptyString) = true /\ json_number (String "-" (itoa_aux 20 n EmptyString)) = true.
Proof.
  intros Hn. destruct (Z.eq_dec n 0%Z) as [->|]; [done|].
  destruct (itoa_aux_digits 20 n EmptyString) as (c & s & -> & Hc & Hz & Hs); [lia|done|].
  assert (Hm : (c =c "-") = false) by (apply Ascii.eqb_neq; by intros ->).
  assert (E : digit_run (String c s) = (true, EmptyString)).
  { cbn. rewrite Hc. by rewrite digit_run_all. }
  unfold json_number. split; [by rewrite Hm, Hz, E|].
  change ("-" =c "-") with true. cbv iota. by rewrite Hz, E.
Qed.

Lemma Itoa_json z : (- 10 ^ 20 < z < 10 ^ 20)%Z -> json (Itoa z) (JNum (Itoa z)).
Proof.
  intros Hz. apply json_num. unfold Itoa.
  destruct (Z.ltb_spec z 0); apply json_number_itoa; lia.
Qed.

(** ** Every operation keeps a document JSON *)

Section Json.
Context {T : Type}.
Variable format_float : float64 -> string.
Variable json_Marshal : T -> option string.
Variable sjson : string -> string -> string -> option string.

(** What is relied on of sjson: writing JSON into JSON gives JSON. *)
Hypothesis sjson_json : forall r p w r' v u,
  json r v -> json w u -> sjson r p w = Some r' -> exists v', json r' v'.

Definition keys_ok (segs : list pathSeg) : Prop := Forall (fun s => utf8_valid (name s) = true) segs.

Lemma created_object_denotes s n v :
  utf8_valid (name s) = true -> denotes n v -> denotes (NObj [mkEntry (name s) n]) (JObj [(name s, v)]).
Proof. intros Hu Hd. apply den_obj; [repeat constructor; done|]. apply NoDup_singleton. Qed.

Lemma replicate_denotes k : Forall2 denotes (replicate k (leaf "null")) (replicate k JNull).
Proof. induction k; constructor; [|done]. apply den_raw, json_null. Qed.

Lemma createValue_denotes raw u segs :
  json raw u -> keys_ok segs -> exists v, denotes (createValue raw segs) v.
Proof.
  intros Hr. induction 1 as [|s segs Hs Hk [v IH]]; [exists u; by apply den_raw|].
  cbn [createValue]. destruct (atouiSeg s) as [k|].
  - eexists. apply den_arr, Forall2_app; [apply replicate_denotes|]. by repeat constructor.
  - destruct (is_append s); [eexists; apply den_arr; by repeat constructor|].
    eexists. by apply created_object_denotes.
Qed.

Lemma set_node_denotes raw u segs : json raw u -> keys_ok segs -> forall n v n',
  denotes n v -> set_node sjson raw n segs = Some n' -> exists v', denotes n' v'.
Proof.
  intros Hr Hk. induction Hk as [|s segs Hs Hk IH]; intros n v n' Hd H.
  { simplify_eq/=. exists u. by apply den_raw. }
  destruct (createValue_denotes raw u segs Hr Hk) as [c Hc]. cbn [set_node] in H.
  inversion Hd as [r w Hw|obj vs Hf Hnd|arr vs Hf]; subst; clear Hd.
  - destruct (sjson r _ raw) as [sub|] eqn:E; simplify_eq.
    destruct (sjson_json _ _ _ _ _ _ Hw Hr E) as [v' ?]. exists v'. by apply den_raw.
  - destruct (list_find _ obj) as [[i e]|] eqn:Ef.
    + destruct (set_node _ _ (val e) segs) as [x|] eqn:Ex; simplify_eq.
      apply list_find_Some in Ef as (Hi & He & _).
      destruct (Forall2_lookup_l _ _ _ _ _ Hf Hi) as ([k w] & Hw & Hok & Hke & Hdw).
      destruct (IH _ _ _ Hdw Ex) as [w' Hw'].
      exists (JObj (<[i := (k, w')]> vs)). apply den_obj.
      * by apply Forall2_insert.
      * assert (Hm : List.map key (<[i := set_val e x]> obj) = List.map key obj); [|by rewrite Hm].
        change (key <$> <[i := set_val e x]> obj = key <$> obj). rewrite list_fmap_insert. cbn.
        apply list_insert_id. by rewrite list_lookup_fmap, Hi.
    + simplify_eq. exists (JObj ((name s, c) :: vs)). apply den_obj; [by repeat constructor|].
      cbn. apply NoDup_cons. split; [|done]. intros (e & He & Hin)%list_elem_of_fmap.
      apply list_find_None in Ef. by apply (proj1 (Forall_forall _ _) Ef e Hin).
  - destruct (hit s arr) as [[i e]|] eqn:Eh.
    + destruct (set_node _ _ e segs) as [x|] eqn:Ex; simplify_eq.
      apply hit_lookup in Eh as (Hi & _). destruct (Forall2_lookup_l _ _ _ _ _ Hf Hi) as (w & _ & Hw).
      destruct (IH _ _ _ Hw Ex) as [w' Hw']. exists (JArr (<[i := w']> vs)). apply den_arr. by apply Forall2_insert.
    + destruct (atouiSeg s); [|destruct (is_append s); [|done]]; simplify_eq; eexists; apply den_arr;
        repeat (apply Forall2_app; [first [exact Hf|apply replicate_denotes]|]); by repeat constructor.
Qed.

Definition doc_ok (b : Builder) : Prop :=
  match b with None => True | Some n => exists v, denotes n v end.

Lemma apply_doc_ok raw u b path :
  json raw u -> (forall segs, splitPath path = Some segs -> keys_ok segs) -> doc_ok b ->
  doc_ok (apply sjson raw b path).
Proof.
  intros Hr Hp Hb. unfold apply. destruct (splitPath path) as [segs|]; [|done].
  specialize (Hp segs eq_refl). destruct b as [n|]; cbn [setNode].
  - destruct Hb as [v Hv]. destruct (set_node sjson raw n segs) as [n'|] eqn:E; [|done].
    by apply (set_node_denotes raw u segs Hr Hp n v).
  - destruct (createValue_denotes raw u segs Hr Hp) as [v Hv].
    destruct segs as [|s segs]; [done|]. cbn [createRoot].
    destruct (atouiSeg s); cbn [doc_ok]; [eauto|]. inversion Hp; subst.
    destruct (createValue_denotes raw u segs Hr) as [w Hw]; [done|]. eexists. by apply created_object_denotes.
Qed.

(** ** Sequences of operations *)

Inductive bop := OpSet (path : string) (v : GoVal T) | OpSetRaw (path raw : string).

Definition bstep (b : Builder) (o : bop) : Builder :=
  match o with
  | OpSet path v => BSet format_float json_Marshal sjson b path v
  | OpSetRaw path raw => SetRaw sjson b path raw
  end.

(** Integers in their range; a float that prints as a JSON number, as the finite
    ones do; other values marshal to JSON or not at all. *)
Definition value_ok (v : GoVal T) : Prop :=
  match v with
  | GInt z => int64_ok z
  | GUint z => (0 <= z < two64)%Z
  | GFloat f => json_number (format_float f) = true
  | GOther v => forall t, json_Marshal v = Some t -> exists u, json t u
  | _ => True
  end.

Definition path_ok (path : string) : Prop := forall segs, splitPath path = Some segs -> keys_ok segs.
Definition op_ok (o : bop) : Prop :=
  match o with
  | OpSet path v => path_ok path /\ value_ok v
  | OpSetRaw path raw => path_ok path /\ exists u, json raw u
  end.

Lemma encodeValue_json v t :
  value_ok v -> encodeValue format_float json_Marshal v = Some t -> exists u, json t u.
Proof.
  destruct v as [|s|s|x|z|z|f|v]; intros Hv H; cbn in Hv, H; simplify_eq.
  - eauto using json.
  - eexists. apply stringify_json.
  - eexists. apply stringify_json.
  - destruct x; eauto using json.
  - eexists. apply Itoa_json. unfold int64_ok, MinInt64, MaxInt64, two63 in Hv. lia.
  - eexists. apply Itoa_json. unfold two64 in Hv. lia.
  - eauto using json.
  - eauto.
Qed.

Lemma bstep_doc_ok b o : op_ok o -> doc_ok b -> doc_ok (bstep b o).
Proof.
  destruct o as [path v|path raw]; intros [Hp Hv] Hb; cbn [bstep].
  - unfold BSet. destruct (encodeValue _ _ v) as [t|] eqn:E; [|done].
    destruct (encodeValue_json v t Hv E) as [u Hu]. by apply (apply_doc_ok t u).
  - destruct Hv as [u Hu]. by apply (apply_doc_ok raw u).
Qed.
End Json.

(** ** Theorems *)

(** C33: a builder writes JSON.  From the empty builder, the empty object or the
    empty array, through any sequence of [Set] and [SetRaw], refused ones
    included, whose keys are valid UTF-8, whose [SetRaw] bytes are JSON, whose
    floats print as JSON numbers (an infinity or a NaN would be written
    verbatim) and whose other values marshal to JSON or not at all, and with an
    sjson that writes JSON into JSON, [String] returns the empty string or a
    JSON text; the text is that of the tree, in which no object has two entries
    of one key and each key decodes to the one it was set under. *)
Theorem builder_writes_json {T} format_float (json_Marshal : T -> option string) sjson start ops :
  (forall r p w r' v u, json r v -> json w u -> sjson r p w = Some r' -> exists v', json r' v') ->
  start ∈ [New; NewObject; NewArray] ->
  Forall (op_ok format_float json_Marshal) ops ->
  let b := foldl (bstep format_float json_Marshal sjson) start ops in
  match b with
  | None => String_ b = EmptyString
  | Some n => exists v, denotes n v /\ json (String_ b) v
  end.
Proof.
  intros Hs Hst Hops b.
  assert (Hb : doc_ok b).
  { assert (H0 : doc_ok start).
    { repeat (apply elem_of_cons in Hst as [->|Hst]); [done|..|by apply not_elem_of_nil in Hst];
        eexists; [apply (den_obj [] [])|apply (den_arr [] [])]; constructor. }
    subst b. clear Hst. revert start H0. induction Hops as [|o ops Ho Hops IH]; intros start H0; [done|].
    cbn. apply IH. by apply bstep_doc_ok. }
  destruct b as [n|]; [|done]. destruct Hb as [v Hv]. exists v. split; [done|].
  unfold String_. rewrite writeNode_text. by apply denotes_json.
Qed.

(** sjson on the empty object. *)
Definition demo_sjson (r p w : string) : option string :=
  if r =s "{}" then Some ("{" ++ commas [AppendStringify "" p ++ ":" ++ w] ++ "}")%string else None.

Lemma demo_sjson_json r p w r' v u :
  json r v -> json w u -> demo_sjson r p w = Some r' -> exists v', json r' v'.
Proof.
  unfold demo_sjson. intros _ Hw H. destruct (r =s "{}"); simplify_eq. eexists.
  apply json_obj. constructor; [|constructor]. apply member_intro; [apply stringify_json|exact Hw].
Qed.

Lemma builder_writes_json_witness :
  let ops : list (@bop unit) := [OpSet "n" (GInt 7); OpSetRaw "a" "{}"; OpSetRaw "a.b" "true"] in
  let b := foldl (bstep (fun _ => "0") (fun _ => None) demo_sjson) NewObject ops in
  match b with
  | None => String_ b = EmptyString
  | Some n => exists v, denotes n v /\ json (String_ b) v
  end.
Proof.
  intros ops. apply (builder_writes_json (fun _ => "0") (fun _ => None) demo_sjson NewObject ops).
  - exact demo_sjson_json.
  - apply elem_of_cons; right; apply elem_of_cons; left; reflexivity.
  - assert (Hp : path_ok "n" /\ path_ok "a" /\ path_ok "a.b").
    { repeat split; intros segs [= <-]; repeat constructor. }
    destruct Hp as (Hn & Ha & Hab). apply List.Forall_cons; [|apply List.Forall_cons; [|apply List.Forall_cons; [|constructor]]].
    + split; [exact Hn|]. vm_compute. split; discriminate.
    + split; [exact Ha|]. exists (JObj []). exact (json_obj [] [] (List.Forall2_nil _)).
    + split; [exact Hab|]. exists (JBool true). exact json_true.
Defined.

(** A write that does not run through a leaf never calls sjson. *)
Lemma set_node_no_raw sjson sjson' raw segs : forall n,
  through_raw n segs = false -> set_node sjson raw n segs = set_node sjson' raw n segs.
Proof.
  induction segs as [|s segs IH]; intros n H; [done|]. cbn [set_node through_raw] in *.
  destruct n as [r|obj|arr]; [done|..]; cbn [child] in H.
  - destruct (list_find _ obj) as [[i e]|]; [|done]. cbn in H. by rewrite IH.
  - destruct (hit s arr) as [[i e]|]; [|done]. cbn in H. by rewrite IH.
Qed.

Lemma get_createRoot raw segs n :
  forallb addressable segs = true -> createRoot raw segs = Some n -> get n segs = Some (NRaw raw).
Proof.
  intros Ha. pose proof (get_createValue raw segs Ha) as Hv. destruct segs as [|s segs]; [done|].
  cbn [createRoot]. destruct (atouiSeg s); intros [= <-]; [done|].
  cbn [get]. rewrite child_created. apply get_createValue. cbn in Ha. by apply andb_true_iff in Ha as [_ ?].
Qed.

(** The path meets an array at a segment that is neither one of its elements
    nor an unforced index at which it could grow. *)
Definition no_such_element (n : node) (segs : list pathSeg) : Prop :=
  exists pre s post arr, segs = pre ++ s :: post /\ get n pre = Some (NArr arr) /\
    child (NArr arr) s = None /\ atouiSeg s = None.

Lemma no_such_element_below n s v segs :
  child n s = Some v -> no_such_element n (s :: segs) <-> no_such_element v segs.
Proof.
  intros Hc. split.
  - intros ([|s' pre] & t & post & arr & E & Hg & Ht & Hi); simplify_eq/=.
    rewrite Hc in Hg. by exists pre, t, post, arr.
  - intros (pre & t & post & arr & -> & Hg & Ht & Hi). exists (s :: pre), t, post, arr.
    cbn [get]. by rewrite Hc.
Qed.

(** Off verbatim leaves, that is the one reason to refuse a write. *)
Lemma set_node_refuses sjson raw segs : forall n,
  forallb addressable segs = true -> through_raw n segs = false ->
  set_node sjson raw n segs = None <-> no_such_element n segs.
Proof.
  induction segs as [|s segs IH]; intros n Ha Ht.
  { split; [done|]. by intros ([|? ?] & ? & ? & ? & ? & _). }
  cbn in Ha. apply andb_true_iff in Ha as [Hs Ha]. cbn [set_node]. cbn [through_raw] in Ht.
  assert (Hmiss : child n s = None -> no_such_element n (s :: segs) ->
    exists arr, n = NArr arr /\ atouiSeg s = None).
  { intros Hc ([|s' pre] & t & post & arr & E & Hg & _ & Hi); simplify_eq/=; [by exists arr|by rewrite Hc in Hg]. }
  destruct n as [r|obj|arr]; [done|..]; cbn [child] in *.
  - destruct (list_find _ obj) as [[i e]|] eqn:Ef; cbn in Ht, Hmiss.
    + rewrite (no_such_element_below (NObj obj) s (val e)) by (cbn; by rewrite Ef).
      rewrite <- IH by done. by destruct (set_node _ _ _ _).
    + split; [done|]. intros H. by destruct (Hmiss eq_refl H) as (? & ? & _).
  - destruct (hit s arr) as [[i e]|] eqn:Eh; cbn in Ht, Hmiss.
    + rewrite (no_such_element_below (NArr arr) s e) by (cbn; by rewrite Eh).
      rewrite <- IH by done. by destruct (set_node _ _ _ _).
    + destruct (atouiSeg s) as [k|] eqn:Ek.
      * split; [done|]. intros H. by destruct (Hmiss eq_refl H) as (? & _ & ?).
      * unfold addressable in Hs. bool_to_prop. destruct (is_append s); [done|]. split; [|done]. intros _.
        exists [], s, segs, arr. cbn. by rewrite Eh.
Qed.

Lemma setNode_refuses sjson raw b path segs :
  splitPath path = Some segs -> forallb addressable segs = true ->
  match b with Some n => through_raw n segs = false | None => True end ->
  setNode sjson raw b segs = None <-> exists n, b = Some n /\ no_such_element n segs.
Proof.
  intros Hp Ha Ht. destruct b as [n|]; cbn [setNode].
  - rewrite set_node_refuses by done. split; [by exists n|]. by intros (? & [= <-] & ?).
  - split; [|by intros (? & ? & _)]. destruct segs as [|s segs].
    + rewrite splitPath_spec in Hp. destruct (path =s ""); [done|]. by apply split_spec_not_nil in Hp.
    + unfold createRoot. by destruct (atouiSeg s).
Qed.

(** C29: what is set is what is read.  JSON bytes are written at a path whose
    keys are valid UTF-8 and each name their place (no append marker, no empty
    segment, no index that wraps below zero), into the empty builder or a tree
    that denotes a JSON value, along a path that does not run through a
    verbatim leaf.  The write is refused, and the builder emptied, exactly when
    the path meets an array at a segment that is neither one of its elements nor
    an index without the force mark; otherwise the document is JSON for a value
    that has, at that path, a value of those bytes. *)
Theorem set_then_read sjson b path raw segs r :
  doc_ok b -> json raw r -> splitPath path = Some segs -> keys_ok segs ->
  forallb addressable segs = true ->
  match b with Some n => through_raw n segs = false | None => True end ->
  (SetRaw sjson b path raw = None <-> exists n, b = Some n /\ no_such_element n segs) /\
  forall n, SetRaw sjson b path raw = Some n ->
    exists v w, json (String_ (Some n)) v /\ jget v segs = Some w /\ json raw w.
Proof.
  intros Hb Hr Hp Hk Ha Ht. unfold SetRaw, apply. rewrite Hp.
  split; [by apply (setNode_refuses sjson raw b path)|]. intros n' Es.
  assert (Hd : doc_ok (setNode (fun _ _ _ => None) raw b segs)).
  { pose proof (apply_doc_ok (fun _ _ _ => None) ltac:(done) raw r b path Hr) as H. unfold apply in H.
    rewrite Hp in H. apply H; [by intros ? [= <-]|done]. }
  assert (E : setNode sjson raw b segs = setNode (fun _ _ _ => None) raw b segs).
  { destruct b as [n|]; [by apply set_node_no_raw|done]. }
  rewrite <- E, Es in Hd.
  assert (Hg : get n' segs = Some (NRaw raw)).
  { destruct b as [n|]; [by apply (set_node_get sjson raw n)|by apply get_createRoot]. }
  destruct Hd as [v Hv]. destruct (denotes_get _ _ _ _ Hv Hg) as (w & Hw & Hdw).
  exists v, w. unfold String_. rewrite writeNode_text. split; [by apply denotes_json|]. split; [done|].
  by inversion Hdw.
Qed.

(** One write that lands and one that is refused. *)
Lemma set_then_read_witness :
  let b := SetRaw demo_sjson NewObject "a.b" "1" in
  let b' := Some (NArr [NRaw "1"]) in
  (exists n v w, SetRaw demo_sjson b "a.c.1" "true" = Some n /\ json (String_ (Some n)) v /\
     jget v [mkSeg "a" false; mkSeg "c" false; mkSeg "1" false] = Some w /\ json "true" w) /\
  SetRaw demo_sjson b' "x" "true" = None.
Proof.
  intros b b'. split.
  - destruct (set_then_read demo_sjson b "a.c.1" "true"
                [mkSeg "a" false; mkSeg "c" false; mkSeg "1" false] (JBool true)) as [_ H]; try reflexivity.
    + apply (apply_doc_ok demo_sjson demo_sjson_json "1" (JNum "1")).
      * apply json_num. reflexivity.
      * intros segs [= <-]. repeat constructor.
      * exists (JObj []). apply (den_obj [] []); constructor.
    + exact json_true.
    + repeat constructor.
    + eexists. destruct (H _ eq_refl) as (v & w & Hvw). exists v, w. split; [reflexivity|exact Hvw].
  - apply (set_then_read demo_sjson b' "x" "true" [mkSeg "x" false] (JBool true)); try reflexivity.
    + exists (JArr [JNum "1"]). apply den_arr. constructor; [|constructor].
      apply den_raw, json_num. reflexivity.
    + exact json_true.
    + repeat constructor.
    + exists (NArr [NRaw "1"]). split; [reflexivity|]. exists [], (mkSeg "x" false), [], [NRaw "1"]. repeat split.
Defined.

(** a write touches only its own path.  When the written path and another
    one part at segments that never name the same child (different names, not
    two spellings of one index), whatever was at the other path before a
    successful write is there after it, whatever sjson does below verbatim
    leaves; the append marker and null padding included. *)
Theorem set_keeps_others sjson n path raw n' pre s t p q v :
  splitPath path = Some (pre ++ s :: p) -> seg_apart s t ->
  SetRaw sjson (Some n) path raw = Some n' ->
  get n (pre ++ t :: q) = Some v -> get n' (pre ++ t :: q) = Some v.
Proof.
  intros Hp Hst H Hg. unfold SetRaw, apply in H. rewrite Hp in H. cbn [setNode] in H.
  by apply (set_node_apart sjson raw pre s t p q n).
Qed.

Lemma set_keeps_others_witness :
  let n := NArr [NRaw "1"; NRaw "2"] in
  get (NArr [NRaw "1"; NRaw "2"; NRaw "null"; NObj [mkEntry "x" (NRaw "3")]]) [mkSeg "01" false] = Some (NRaw "2").
Proof.
  intros n.
  apply (set_keeps_others demo_sjson n "3.x" "3" _ [] (mkSeg "3" false) (mkSeg "01" false) [mkSeg "x" false] []).
  - reflexivity.
  - split; [discriminate|]. intros k [= <-]. discriminate.
  - reflexivity.
  - reflexivity.
Defined.

(** The buffer [String] allocates is exactly as long as what it writes,
    for every tree. *)
Theorem String_size n : sizeNode n = slen (String_ (Some n)).
Proof. unfold String_. rewrite writeNode_text. apply sizeNode_text. Qed.
