(* ===== verification/Merge.v ===== *)
(** * Merging op outputs (chassis/processor/merge.go)

    [MergeJSON] folds the top-level keys of an op's output into the envelope.
    [mergeJSONSlow] writes one key at a time with sjson and is the reference;
    [mergeJSONFast] builds the same text in one buffer.

    A document is a text as gjson reads it: when it is an object, its members in
    order, each with the bytes before its value ([m_lead]), the value's bytes and
    the value gjson materialises for it.  gjson and sjson are the class
    [MergeDocs]; how a float is printed is a parameter. *)

From Stdlib Require Import Ascii String ZArith Lia Bool.
From stdpp Require Import base tactics list strings gmap sorting.
From S2P Require Import Prelude GoStrings GoStrconv GoJson Builder.

(** ** Values *)

(** What [gjson.Result.Value] returns. *)
Inductive GVal :=
  | VNull
  | VBool (x : bool)
  | VNum (f : float64)
  | VStr (s : string)
  | VArr (l : list GVal)
  | VMap (m : gmap string GVal).

(** The switch on the type of [x1], the value of the output, with the value of
    the envelope in [x2].  In the array case the [x2] returned is the variable of
    the failed type assertion, a nil slice, which encodes as null. *)
Fixpoint deepMergeValues (x1 x2 : GVal) : GVal :=
  match x1 with
  | VMap m1 =>
      match x2 with
      | VMap m2 =>
          VMap (merge (fun o1 o2 =>
                         match o1, o2 with
                         | Some v1, Some v2 => Some (deepMergeValues v1 v2)
                         | Some v1, None => Some v1
                         | None, o2 => o2
                         end) m1 m2)
      | _ => x1
      end
  | VNull => match x2 with VMap _ => x2 | _ => x1 end
  | VArr l1 => match x2 with VArr l2 => VArr (l2 ++ l1) | _ => VNull end
  | _ => x1
  end.

Section Encode.
(** [strconv.FormatFloat(f, 'f', -1, 64)] and the float printer of encoding/json. *)
Variables format_float json_float : float64 -> string.

Definition finite (f : float64) : bool :=
  match f with SpecFloat.S754_infinity _ | SpecFloat.S754_nan => false | _ => true end.

Definition join_members (l : list (string * option string)) : option string :=
  match mapM (fun '(k, o) => match o with Some v => Some (json_marshal_string k ++ ":" ++ v)%string | None => None end) l with
  | Some ps => Some ("{" ++ String.concat "," ps ++ "}")%string
  | None => None
  end.

Definition key_le (x y : string * option string) : Prop := string_le x.1 y.1.
#[export] Instance key_le_dec x y : Decision (key_le x y) := decide (string_le x.1 y.1).

(** [json.Marshal]: map keys in order, no infinity and no NaN. *)
Fixpoint json_Marshal (v : GVal) : option string :=
  match v with
  | VNull => Some "null"
  | VBool x => Some (if x then "true" else "false")
  | VNum f => if finite f then Some (json_float f) else None
  | VStr s => Some (json_marshal_string s)
  | VArr l =>
      match mapM id (map json_Marshal l) with
      | Some ps => Some ("[" ++ String.concat "," ps ++ "]")%string
      | None => None
      end
  | VMap m => join_members (merge_sort key_le (map_to_list (json_Marshal <$> m)))
  end.

(** [mergeEncodeScalar]; [None] for an object or array. *)
Definition mergeEncodeScalar (v : GVal) : option string :=
  match v with
  | VStr s => Some (AppendStringify "" s)
  | VBool true => Some "true"
  | VBool false => Some "false"
  | VNum f => Some (format_float f)
  | VNull => Some "null"
  | _ => None
  end.

(** How sjson writes a value: scalars itself, the rest through encoding/json. *)
Definition encode (v : GVal) : option string :=
  match mergeEncodeScalar v with Some raw => Some raw | None => json_Marshal v end.
End Encode.

(** ** Documents *)

Record Member := mkMember { m_lead : string; m_key : string; m_raw : string; m_val : GVal }.
Record Obj := mkObj { o_members : list Member; o_tail : string }.

Definition members_text (ms : list Member) (tail : string) : string :=
  foldr (fun m s => (m_lead m ++ m_raw m ++ s)%string) tail ms.
Definition text (o : Obj) : string := members_text (o_members o) (o_tail o).

Definition keys (o : Obj) : list string := m_key <$> o_members o.

(** [gjson.Result] of a member: its value's bytes and where they are. *)
Record Result := mkResult { r_Raw : string; r_Index : nat; r_Value : GVal }.

Fixpoint results_from (pos : nat) (ms : list Member) : list (string * Result) :=
  match ms with
  | [] => []
  | m :: ms =>
      let i := (pos + slen (m_lead m))%nat in
      (m_key m, mkResult (m_raw m) i (m_val m)) :: results_from (i + slen (m_raw m)) ms
  end.

Class MergeDocs (D : Type) := {
  d_text : D -> string;
  d_none : D;                               (** the empty string *)
  d_Valid : D -> bool;                      (** [gjson.Valid] *)
  d_object : D -> option Obj;               (** [gjson.Parse], when it [IsObject] *)
  d_Get : D -> string -> option GVal;       (** [gjson.Get(...).Value()], when it [Exists] *)
  d_Set : D -> string -> GVal -> D          (** [doc, _ = sjson.Set(doc, ...)] *) }.

Definition ForEach {D} `{!MergeDocs D} (d : D) : option (list (string * Result)) :=
  match d_object d with Some o => Some (results_from 0 (o_members o)) | None => None end.

(** ** The reference *)

Definition escapeDot (key : string) : string := ReplaceAll (ReplaceAll key "." "\.") ":" "\:".

Inductive MergeErr := NotObjects | DeepMergeObj.

Section Slow.
Context {D : Type} `{!MergeDocs D}.

(** One turn of [d.ForEach]. *)
Definition merge_key (src : D) (key : string) (value : GVal) : D + MergeErr :=
  let path := escapeDot key in
  match value with
  | VMap _ =>
      match d_Get src path with
      | None => inl (d_Set src path value)
      | Some (VMap s1) => inl (d_Set src path (deepMergeValues value (VMap s1)))
      | Some _ => inr DeepMergeObj
      end
  | VArr d1 =>
      match d_Get src path with
      | Some (VArr s1) => inl (d_Set src path (VArr (s1 ++ d1)))
      | _ => inl (d_Set src path value)
      end
  | _ => inl (d_Set src path value)
  end.

Fixpoint merge_keys (src : D) (dst : list (string * Result)) : D * option MergeErr :=
  match dst with
  | [] => (src, None)
  | (key, r) :: dst =>
      match merge_key src key (r_Value r) with
      | inl src => merge_keys src dst
      | inr e => (src, Some e)
      end
  end.

Definition mergeJSONSlow (src dst : D) : D * option MergeErr :=
  if d_text dst =s "" then (src, None)
  else if d_text src =s "" then (dst, None)
  else match ForEach dst, ForEach src with
       | Some d, Some _ => merge_keys src d
       | _, _ => (d_none, Some NotObjects)
       end.
End Slow.

(** ** The single buffer *)

Definition plain_byte (c : ascii) : bool :=
  is_lower c || is_upper c || is_dec c ||
  ((c =c "_") || (c =c "-") || (c =c ".") || (c =c ":") || (c =c "/") || (c =c "$") || (c =c " ")).
Definition plainMergeKey (k : string) : bool := negb (k =s "") && sall plain_byte k.

Record mergeReplace := mkReplace { rp_start : nat; rp_end : nat; rp_raw : string }.

Section Fast.
Context {D : Type} `{!MergeDocs D}.
Variables format_float json_float : float64 -> string.

(** [srcVals], or [None] on a key or span the fast path does not handle. *)
Fixpoint src_vals (src : string) (rs : list (string * Result)) (vals : gmap string Result) : option (gmap string Result) :=
  match rs with
  | [] => Some vals
  | (k, v) :: rs =>
      if negb (plainMergeKey k) then None
      else match vals !! k with
           | Some _ => None
           | None =>
               if (r_Index v =? 0)%nat || (slen src <? r_Index v + slen (r_Raw v))%nat ||
                  negb (sslice src (r_Index v) (r_Index v + slen (r_Raw v)) =s r_Raw v)
               then None
               else src_vals src rs (<[k := v]> vals)
           end
  end.

(** The bytes to write for one member of the output. *)
Definition merged_raw (sv : option Result) (value : GVal) : option string :=
  match value with
  | VMap _ =>
      match sv with
      | Some r => match r_Value r with
                  | VMap s1 => json_Marshal json_float (deepMergeValues value (VMap s1))
                  | _ => None
                  end
      | None => json_Marshal json_float value
      end
  | VArr d1 =>
      match sv with
      | Some r => match r_Value r with
                  | VArr s1 => json_Marshal json_float (VArr (s1 ++ d1))
                  | _ => json_Marshal json_float value
                  end
      | None => json_Marshal json_float value
      end
  | _ => mergeEncodeScalar format_float value
  end.

Fixpoint dst_edits (vals : gmap string Result) (rs : list (string * Result)) (seen : list string)
    (replaces : list mergeReplace) (prepends : list string) : option (list mergeReplace * list string) :=
  match rs with
  | [] => Some (replaces, prepends)
  | (k, v) :: rs =>
      if negb (plainMergeKey k) then None
      else if bool_decide (k ∈ seen) then None
      else match merged_raw (vals !! k) (r_Value v) with
           | None => None
           | Some raw =>
               match vals !! k with
               | Some sv =>
                   dst_edits vals rs (k :: seen)
                     (replaces ++ [mkReplace (r_Index sv) (r_Index sv + slen (r_Raw sv)) raw]) prepends
               | None =>
                   dst_edits vals rs (k :: seen) replaces
                     (prepends ++ [(AppendStringify "" k ++ ":" ++ raw)%string])
               end
           end
  end.

(** The first byte above a space, from [s] on, is not a closing brace. *)
Fixpoint srcNonEmpty (s : string) : bool :=
  match s with
  | EmptyString => false
  | String c s => if (bval c <=? 32)%nat then srcNonEmpty s else negb (c =c "}")
  end.

Definition start_le (x y : mergeReplace) : Prop := (rp_start x <= rp_start y)%nat.
#[export] Instance start_le_dec x y : Decision (start_le x y) := decide (rp_start x <= rp_start y)%nat.

(** [for _, r := range replaces]: copy up to the span, write the new bytes. *)
Fixpoint splice (src : string) (pos : nat) (replaces : list mergeReplace) : string :=
  match replaces with
  | [] => sdrop pos src
  | r :: replaces => (sslice src pos (rp_start r) ++ rp_raw r ++ splice src (rp_end r) replaces)%string
  end.

Definition mergeJSONFast (src dst : D) : option string :=
  let st := d_text src in let dt := d_text dst in
  if (st =s "") || (dt =s "") then None
  else if negb (byte_at st 0 =c "{") || negb (byte_at dt 0 =c "{") then None
  else if negb (d_Valid src) then None
  else match ForEach src, ForEach dst with
       | Some s, Some d =>
           match src_vals st s ∅ with
           | None => None
           | Some vals =>
               match dst_edits vals d [] [] [] with
               | None => None
               | Some ([], []) => Some st
               | Some (replaces, prepends) =>
                   Some ("{" ++ String.concat "," (rev prepends) ++
                         (match prepends with [] => "" | _ => if srcNonEmpty (sdrop 1 st) then "," else "" end) ++
                         splice st 1 (merge_sort start_le replaces))%string
               end
           end
       | _, _ => None
       end.

(** The text [MergeJSON] returns, and its error. *)
Definition MergeJSON (src dst : D) : string * option MergeErr :=
  match mergeJSONFast src dst with
  | Some out => (out, None)
  | None => let '(out, e) := mergeJSONSlow src dst in (d_text out, e)
  end.
End Fast.

(** ** The merge of a scope *)

Section Scope.
Context {D : Type} `{!MergeDocs D}.

(** [case op := <-responses]: an output that is not [{}] is merged and a merge
    error only logged.  The document is [mergeJSONSlow]'s, whose text
    [MergeJSON] returns. *)
Definition merge_response (resp output : D) : D :=
  if d_text output =s "{}" then resp else (mergeJSONSlow resp output).1.

(** The outputs in the order they arrive. *)
Definition merge_scope (raw : D) (outputs : list D) : D := foldl merge_response raw outputs.
End Scope.
