(* ===== verification/MergeFacts.v ===== *)
(** * The fast merge is the slow merge

    What gjson and sjson do at a plain top-level key ([MergeLaws]), the text of a
    document after a sequence of such writes, and that [mergeJSONFast] builds that
    text. *)

From Stdlib Require Import Ascii String ZArith Lia Bool.
From stdpp Require Import base tactics list strings gmap sorting.
From S2P Require Import Prelude GoStrings GoStrconv GoJson Builder Merge.

Open Scope nat_scope.

(** ** Writing a key *)

(** An object text: the opening brace, and before every value at least a byte. *)
Definition obj_ok (o : Obj) : Prop :=
  match o_members o with
  | [] => exists t, o_tail o = String "{" t /\ srcNonEmpty t = false
  | m :: _ => exists t, m_lead m = String "{" t /\ srcNonEmpty t = true
  end /\ Forall (fun m => m_lead m <> "") (o_members o).

Definition value_at (o : Obj) (k : string) : option GVal :=
  m_val ∘ snd <$> list_find (fun m => m_key m = k) (o_members o).

Definition replace_member (k raw : string) (v : GVal) (m : Member) : Member :=
  if m_key m =s k then mkMember (m_lead m) k raw v else m.

(** A new pair goes first; the object's opening brace becomes a comma, or goes
    when it was empty. *)
Definition insert_member (o : Obj) (k raw : string) (v : GVal) : Obj :=
  let m := mkMember ("{" ++ AppendStringify "" k ++ ":") k raw v in
  match o_members o with
  | [] => mkObj [m] (sdrop 1 (o_tail o))
  | m0 :: ms => mkObj (m :: mkMember ("," ++ sdrop 1 (m_lead m0)) (m_key m0) (m_raw m0) (m_val m0) :: ms) (o_tail o)
  end.

Definition put (o : Obj) (k raw : string) (v : GVal) : Obj :=
  if bool_decide (k ∈ keys o) then mkObj (replace_member k raw v <$> o_members o) (o_tail o)
  else insert_member o k raw v.

(** A valid document, read as [o], whose top-level keys are plain and distinct. *)
Definition ok {D} `{!MergeDocs D} (d : D) (o : Obj) : Prop :=
  d_Valid d = true /\ byte_at (d_text d) 0 = "{"%char /\ d_object d = Some o /\
  Forall (fun k => plainMergeKey k = true) (keys o) /\ NoDup (keys o).

(** What sjson writes as JSON.  gjson reads a number beyond the float64 range
    ([1e999]) as an infinity, which [FormatFloat] prints as [+Inf]. *)
Definition writable (v : GVal) : Prop := match v with VNum f => finite f = true | _ => True end.

(** What is documented of gjson and sjson, at plain keys: a get finds the value of
    the key, a set writes the encoded value over the old one or puts the pair
    first, and gjson reads the result back. *)
Class MergeLaws (D : Type) `{!MergeDocs D} (format_float json_float : float64 -> string) := {
  none_text : d_text (d_none : D) = "";
  object_text d o : d_Valid d = true -> byte_at (d_text d) 0 = "{"%char -> d_object d = Some o ->
    d_text d = text o /\ obj_ok o;
  get_plain d o k : ok d o -> plainMergeKey k = true -> d_Get d (escapeDot k) = value_at o k;
  set_plain d o k v raw : ok d o -> plainMergeKey k = true -> writable v ->
    encode format_float json_float v = Some raw ->
    exists v', ok (d_Set d (escapeDot k) v) (put o k raw v') }.

(** ** Layouts *)

Lemma AppendStringify_head k : exists t, AppendStringify "" k = String json_DQ t.
Proof. unfold AppendStringify. cbn. case_bool; [|by eexists]. unfold json_marshal_string. by eexists. Qed.

Lemma insert_text o k raw v :
  obj_ok o ->
  text (insert_member o k raw v) =
  ("{" ++ AppendStringify "" k ++ ":" ++ raw ++ (match o_members o with [] => "" | _ => "," end) ++ sdrop 1 (text o))%string.
Proof.
  intros [H _]. unfold insert_member, text, members_text. destruct (o_members o) as [|m ms]; cbn [foldr o_members o_tail m_lead m_raw].
  - rewrite <- !sapp_assoc. done.
  - destruct H as (t & -> & _). rewrite <- !sapp_assoc. cbn. done.
Qed.

Lemma insert_ok o k raw v : obj_ok o -> obj_ok (insert_member o k raw v).
Proof.
  intros [H HF]. destruct (AppendStringify_head k) as [t Et].
  assert (Hl : exists u, ("{" ++ AppendStringify "" k ++ ":")%string = String "{" u /\ srcNonEmpty u = true)
    by (rewrite Et; cbn; by eexists).
  unfold insert_member, obj_ok. destruct (o_members o) as [|m ms]; cbn; (split; [done|]).
  - by repeat constructor.
  - inversion_clear HF. by repeat constructor.
Qed.

(** Pairs added in front, the last one first. *)
Definition build (base : Obj) (pres : list (string * string * GVal)) : Obj :=
  foldl (fun o p => insert_member o p.1.1 p.1.2 p.2) base pres.
Definition pair_text (p : string * string * GVal) : string := (AppendStringify "" p.1.1 ++ ":" ++ p.1.2)%string.

Lemma build_snoc base pres p : build base (pres ++ [p]) = insert_member (build base pres) p.1.1 p.1.2 p.2.
Proof. unfold build. by rewrite foldl_app. Qed.

Lemma build_ok base pres : obj_ok base -> obj_ok (build base pres).
Proof. intros H. induction pres as [|p pres IH] using rev_ind; [done|]. rewrite build_snoc. by apply insert_ok. Qed.

Lemma insert_members o k raw v : o_members (insert_member o k raw v) <> [].
Proof. unfold insert_member. by destruct (o_members o). Qed.

Lemma build_members base pres : o_members (build base pres) = [] <-> pres = [] /\ o_members base = [].
Proof.
  destruct pres as [|p pres _] using rev_ind; [naive_solver|]. rewrite build_snoc. split.
  - intros H. by apply insert_members in H.
  - intros [H _]. by destruct pres.
Qed.

Lemma concat_cons_ne sep x l : l <> [] -> String.concat sep (x :: l) = (x ++ sep ++ String.concat sep l)%string.
Proof. by destruct l. Qed.

Lemma build_text base pres : obj_ok base -> pres <> [] ->
  text (build base pres) =
  ("{" ++ String.concat "," (rev (pair_text <$> pres)) ++ (match o_members base with [] => "" | _ => "," end) ++
   sdrop 1 (text base))%string.
Proof.
  intros H Hne. induction pres as [|p pres IH] using rev_ind; [done|]. clear Hne.
  rewrite build_snoc, insert_text by (by apply build_ok). rewrite fmap_app, rev_app_distr. cbn [fmap list_fmap rev app].
  destruct pres as [|p' pres _] using rev_ind.
  { cbn [build foldl]. unfold pair_text. cbn [String.concat fmap list_fmap rev app]. rewrite <- !sapp_assoc. done. }
  rewrite IH by (by destruct pres). clear IH. rewrite concat_cons_ne.
  2: { rewrite fmap_app, rev_app_distr. done. }
  destruct (o_members (build base (pres ++ [p']))) as [|m ms] eqn:E.
  { apply build_members in E as [E _]. by destruct pres. }
  unfold pair_text at 2. rewrite <- !sapp_assoc. cbn [sdrop]. done.
Qed.

Lemma build_keys base pres : keys (build base pres) = rev (fst ∘ fst <$> pres) ++ keys base.
Proof.
  induction pres as [|p pres IH] using rev_ind; [done|]. rewrite build_snoc, fmap_app, rev_app_distr. cbn.
  rewrite <- IH. unfold insert_member, keys. by destruct (o_members (build base pres)).
Qed.

(** ** Replacing values *)

Definition rep (f : gmap string (string * GVal)) (m : Member) : Member :=
  match f !! m_key m with Some (raw, v) => mkMember (m_lead m) (m_key m) raw v | None => m end.
Definition rep_obj (f : gmap string (string * GVal)) (o : Obj) : Obj := mkObj (rep f <$> o_members o) (o_tail o).

Lemma rep_key f m : m_key (rep f m) = m_key m.
Proof. unfold rep. by destruct (f !! m_key m) as [[]|]. Qed.
Lemma rep_lead f m : m_lead (rep f m) = m_lead m.
Proof. unfold rep. by destruct (f !! m_key m) as [[]|]. Qed.

Lemma rep_obj_keys f o : keys (rep_obj f o) = keys o.
Proof. unfold keys, rep_obj. cbn. rewrite <- list_fmap_compose. apply list_fmap_ext. intros _ m _. apply rep_key. Qed.

Lemma rep_obj_ok f o : obj_ok o -> obj_ok (rep_obj f o).
Proof.
  intros [H HF]. unfold obj_ok, rep_obj in *. cbn. split.
  - destruct (o_members o) as [|m ms]; [done|]. cbn. by rewrite rep_lead.
  - apply Forall_fmap. eapply Forall_impl; [exact HF|]. intros m Hm. cbn. by rewrite rep_lead.
Qed.

Lemma rep_obj_empty o : rep_obj ∅ o = o.
Proof.
  destruct o as [ms tl]. unfold rep_obj. cbn. f_equal. rewrite <- (list_fmap_id ms) at 2. apply list_fmap_ext.
  intros _ m _. unfold rep. by rewrite lookup_empty.
Qed.

Lemma rep_insert f o k raw v :
  f !! k = None -> mkObj (replace_member k raw v <$> o_members (rep_obj f o)) (o_tail o) = rep_obj (<[k := (raw, v)]> f) o.
Proof.
  intros Hk. unfold rep_obj. cbn. f_equal. rewrite <- list_fmap_compose. apply list_fmap_ext. intros _ m _. cbn.
  unfold replace_member. rewrite rep_key, rep_lead. unfold rep. destruct (String.eqb_spec (m_key m) k) as [E|E].
  - subst k. by rewrite lookup_insert_eq.
  - by rewrite lookup_insert_ne by congruence.
Qed.

Lemma replace_build base pres k raw v :
  k ∉ (fst ∘ fst <$> pres) ->
  mkObj (replace_member k raw v <$> o_members (build base pres)) (o_tail (build base pres)) =
  build (mkObj (replace_member k raw v <$> o_members base) (o_tail base)) pres.
Proof.
  induction pres as [|p pres IH] using rev_ind; intros Hk; [done|].
  rewrite fmap_app in Hk. rewrite !build_snoc, <- IH by set_solver.
  assert (Hp : replace_member k raw v (mkMember ("{" ++ AppendStringify "" p.1.1 ++ ":") p.1.1 p.1.2 p.2) =
               mkMember ("{" ++ AppendStringify "" p.1.1 ++ ":") p.1.1 p.1.2 p.2).
  { unfold replace_member. cbn. destruct (String.eqb_spec p.1.1 k) as [E|]; [|done]. exfalso. apply Hk. subst k. set_solver. }
  unfold insert_member. destruct (o_members (build base pres)) as [|m ms]; cbn -[replace_member] in *.
  - f_equal. by rewrite Hp.
  - f_equal. rewrite Hp. f_equal. f_equal. unfold replace_member. cbn. by destruct (m_key m =s k).
Qed.

(** ** Splicing *)

(** The edits for the keys of [f], in the order of the document. *)
Definition edit (f : gmap string (string * GVal)) (kr : string * Result) : list mergeReplace :=
  match f !! kr.1 with
  | Some (raw, _) => [mkReplace (r_Index kr.2) (r_Index kr.2 + slen (r_Raw kr.2)) raw]
  | None => []
  end.
Definition edits (f : gmap string (string * GVal)) (rs : list (string * Result)) : list mergeReplace := rs ≫= edit f.

Lemma sslice_join st i j k : i <= j <= k -> (sslice st i j ++ sslice st j k)%string = sslice st i k.
Proof.
  intros H. unfold sslice. replace (k - i) with ((j - i) + (k - j)) by lia. rewrite stake_add, sdrop_sdrop.
  by replace (i + (j - i)) with j by lia.
Qed.

Lemma sslice_at st pos u w : sdrop pos st = (u ++ w)%string -> sslice st pos (pos + slen u) = u.
Proof. intros E. unfold sslice. rewrite E. replace (pos + slen u - pos) with (slen u) by lia. apply stake_app. Qed.

Lemma sdrop_at st pos u w : sdrop pos st = (u ++ w)%string -> sdrop (pos + slen u) st = w.
Proof. intros E. by rewrite <- sdrop_sdrop, E, sdrop_app. Qed.

Lemma splice_members f st ms tl pos p :
  p <= pos -> sdrop pos st = members_text ms tl ->
  splice st p (edits f (results_from pos ms)) = (sslice st p pos ++ members_text (rep f <$> ms) tl)%string.
Proof.
  revert pos p; induction ms as [|m ms IH]; intros pos p Hp E.
  - cbn in *. rewrite <- E. unfold sslice. rewrite <- (stake_sdrop (pos - p) (sdrop p st)) at 1. rewrite sdrop_sdrop.
    by replace (p + (pos - p)) with pos by lia.
  - cbn [members_text foldr] in E.
    assert (E1 : sdrop (pos + slen (m_lead m)) st = (m_raw m ++ members_text ms tl)%string) by (by eapply sdrop_at).
    assert (E2 : sdrop (pos + slen (m_lead m) + slen (m_raw m)) st = members_text ms tl) by (by eapply sdrop_at).
    cbn [results_from edits mbind list_bind]. unfold edit at 1. cbn [fst snd r_Index r_Raw fmap list_fmap members_text foldr].
    rewrite rep_lead. unfold rep at 1. destruct (f !! m_key m) as [[raw v]|] eqn:Ef; cbn [app splice rp_start rp_end rp_raw m_raw].
    + change (results_from ?x ms ≫= edit f) with (edits f (results_from x ms)). rewrite IH by (done || lia).
      unfold sslice at 2. rewrite Nat.sub_diag.
      assert (Hz : forall s, stake 0 s = "") by (by intros []). rewrite Hz. change ("" ++ ?x)%string with x.
      rewrite <- (sslice_join st p pos (pos + slen (m_lead m))), (sslice_at _ _ _ _ E) by lia. by rewrite <- !sapp_assoc.
    + change (results_from ?x ms ≫= edit f) with (edits f (results_from x ms)). rewrite IH by (done || lia).
      rewrite <- (sslice_join st p pos), <- (sslice_join st pos (pos + slen (m_lead m))) by lia.
      rewrite (sslice_at _ _ _ _ E), (sslice_at _ _ _ _ E1). by rewrite <- !sapp_assoc.
Qed.

Lemma splice_tail st es : byte_at st 0 = "{"%char -> Forall (fun r => 1 <= rp_start r) es ->
  splice st 0 es = String "{" (splice st 1 es).
Proof.
  intros Hb H. destruct st as [|c st]; [done|]. cbn in Hb. subst c. destruct H as [|r es Hr _]; [by destruct st|].
  cbn [splice]. destruct (rp_start r) as [|s]; [lia|]. unfold sslice. replace (S s - 0) with (S s) by lia.
  replace (S s - 1) with s by lia. cbn. by destruct st.
Qed.

(** *** Sorting the edits *)

Lemma results_index pos ms k r : Forall (fun m => m_lead m <> "") ms -> (k, r) ∈ results_from pos ms -> pos < r_Index r.
Proof.
  intros H. revert pos. induction H as [|m ms Hm _ IH]; intros pos; cbn; [by intros ?%elem_of_nil|].
  assert (0 < slen (m_lead m)) by (destruct (m_lead m); [done|cbn; lia]).
  intros [E|E]%elem_of_cons; [injection E as _ ->; cbn; lia|]. specialize (IH _ E). lia.
Qed.

Lemma edits_elem f rs x : x ∈ edits f rs -> exists k r, (k, r) ∈ rs /\ rp_start x = r_Index r.
Proof.
  unfold edits. intros H. apply list_elem_of_bind in H as ([k r] & Hx & Hr). exists k, r. split; [done|].
  unfold edit in Hx. destruct (f !! _) as [[raw v]|]; [|by apply elem_of_nil in Hx].
  by apply list_elem_of_singleton in Hx as ->.
Qed.

Lemma edits_sorted f ms pos : Forall (fun m => m_lead m <> "") ms ->
  StronglySorted (fun x y => rp_start x < rp_start y) (edits f (results_from pos ms)).
Proof.
  intros H. revert pos. induction H as [|m ms Hm Hms IH]; intros pos; cbn [results_from edits mbind list_bind]; [constructor|].
  unfold edit at 1. cbn [fst snd r_Index r_Raw]. destruct (f !! m_key m) as [[raw v]|]; [|apply IH].
  cbn [app]. constructor; [apply IH|]. apply Forall_forall. intros x Hx.
  destruct (edits_elem _ _ _ Hx) as (k & r & Hr & ->). apply results_index in Hr; [|done]. cbn. lia.
Qed.

Lemma strict_sort_unique l1 l2 :
  StronglySorted (fun x y => rp_start x < rp_start y) l1 -> StronglySorted start_le l2 -> l1 ≡ₚ l2 -> l2 = l1.
Proof.
  intros H1. revert l2. induction H1 as [|x l1 Hs IH Hx]; intros l2 H2 Hp; [by apply Permutation_nil in Hp|].
  assert (Hin : x ∈ l2) by (rewrite <- Hp; set_solver).
  destruct l2 as [|y l2]; [by apply elem_of_nil in Hin|]. inversion_clear H2 as [|? ? Hs2 Hy].
  assert (E : y = x).
  { assert (Hyx : y ∈ x :: l1) by (rewrite Hp; set_solver). apply elem_of_cons in Hyx as [->|Hy1]; [done|].
    rewrite Forall_forall in Hx. specialize (Hx y Hy1). apply elem_of_cons in Hin as [->|Hin]; [done|].
    rewrite Forall_forall in Hy. specialize (Hy x Hin). unfold start_le in Hy. lia. }
  subst y. f_equal. apply IH; [done|]. by apply Permutation_cons_inv in Hp.
Qed.

Lemma sort_edits f ms es : Forall (fun m => m_lead m <> "") ms ->
  es ≡ₚ edits f (results_from 0 ms) -> merge_sort start_le es = edits f (results_from 0 ms).
Proof.
  intros H Hp. apply strict_sort_unique; [by apply edits_sorted| |].
  - apply StronglySorted_merge_sort; [intros x y z; unfold start_le; lia|intros x y; unfold start_le; lia].
  - rewrite merge_sort_Permutation. by symmetry.
Qed.

Lemma edits_insert f rs k r raw v :
  NoDup rs.*1 -> (k, r) ∈ rs -> f !! k = None ->
  edits (<[k := (raw, v)]> f) rs ≡ₚ edits f rs ++ [mkReplace (r_Index r) (r_Index r + slen (r_Raw r)) raw].
Proof.
  intros Hnd Hin Hk. induction rs as [|[k' r'] rs IH]; [by apply elem_of_nil in Hin|].
  rewrite fmap_cons in Hnd. apply NoDup_cons in Hnd as [Hni Hnd]. cbn [edits mbind list_bind].
  change (rs ≫= edit ?g) with (edits g rs).
  apply elem_of_cons in Hin as [[= <- <-]|Hin].
  - assert (E : edits (<[k := (raw, v)]> f) rs = edits f rs).
    { clear -Hni. unfold edits. induction rs as [|[k2 r2] rs IH]; [done|]. cbn in *. f_equal; [|apply IH; set_solver].
      unfold edit. cbn. by rewrite lookup_insert_ne by set_solver. }
    rewrite E. unfold edit. cbn. rewrite lookup_insert_eq, Hk. cbn. apply Permutation_cons_append.
  - assert (Hne : k <> k') by (intros ->; apply Hni, list_elem_of_fmap; by exists (k', r)).
    assert (E : edit (<[k := (raw, v)]> f) (k', r') = edit f (k', r')) by (unfold edit; cbn; by rewrite lookup_insert_ne).
    rewrite E, IH by done. by rewrite (assoc_L (++)).
Qed.

(** ** The maps of the fast path *)

Lemma results_keys pos ms : (results_from pos ms).*1 = m_key <$> ms.
Proof. revert pos; induction ms as [|m ms IH]; intros pos; cbn; [done|]. by rewrite IH. Qed.

Lemma results_value o k r pos :
  NoDup (keys o) -> (k, r) ∈ results_from pos (o_members o) -> value_at o k = Some (r_Value r).
Proof.
  unfold value_at, keys. generalize (o_members o) as ms. intros ms. revert pos.
  induction ms as [|m ms IH]; intros pos Hnd Hin; cbn in Hin; [by apply elem_of_nil in Hin|].
  cbn in Hnd. apply NoDup_cons in Hnd as [Hni Hnd]. cbn.
  apply elem_of_cons in Hin as [[= -> ->]|Hin]; [by rewrite decide_True|].
  assert (Hk : k ∈ m_key <$> ms) by (rewrite <- (results_keys (pos + slen (m_lead m) + slen (m_raw m))); apply list_elem_of_fmap; by exists (k, r)).
  rewrite decide_False by (intros E; by rewrite E in Hni). specialize (IH _ Hnd Hin). by destruct (list_find _ ms) as [[]|].
Qed.

Lemma value_at_none o k : k ∉ keys o -> value_at o k = None.
Proof.
  unfold value_at, keys. generalize (o_members o) as ms. induction ms as [|m ms IH]; intros Hn; [done|]. cbn in *.
  rewrite decide_False by set_solver. specialize (IH ltac:(set_solver)). by destruct (list_find _ ms) as [[]|].
Qed.

Lemma src_vals_spec st rs vals0 vals :
  src_vals st rs vals0 = Some vals ->
  Forall (fun k => plainMergeKey k = true) rs.*1 /\ NoDup rs.*1 /\ (forall k, k ∈ rs.*1 -> vals0 !! k = None) /\
  forall k r, vals !! k = Some r <-> vals0 !! k = Some r \/ (k, r) ∈ rs.
Proof.
  revert vals0; induction rs as [|[k v] rs IH]; intros vals0; cbn [src_vals].
  - intros [= <-]. split_and!; [constructor..| |]; set_solver.
  - destruct (plainMergeKey k) eqn:Ek; [cbn [negb]|done]. destruct (vals0 !! k) eqn:Ev; [done|].
    destruct (_ || _); [done|]. intros H. destruct (IH _ H) as (H1 & H2 & H3 & H4). rewrite fmap_cons. cbn.
    split; [by constructor|]. split; [constructor; [|done]|split].
    + intros Hin. specialize (H3 k Hin). by rewrite lookup_insert_eq in H3.
    + intros k' [->|Hin]%elem_of_cons; [done|]. specialize (H3 k' Hin).
      apply lookup_insert_None in H3 as [? _]. done.
    + intros k' r. rewrite H4. destruct (decide (k = k')) as [<-|Hne].
      * rewrite lookup_insert_eq, Ev, elem_of_cons. naive_solver.
      * rewrite lookup_insert_ne, elem_of_cons by done. naive_solver.
Qed.

Lemma value_at_rep f o k : f !! k = None -> value_at (rep_obj f o) k = value_at o k.
Proof.
  intros Hk. unfold value_at, rep_obj. cbn. induction (o_members o) as [|m ms IH]; [done|]. cbn. rewrite rep_key.
  destruct (decide (m_key m = k)) as [E|E]; cbn; [unfold rep; by rewrite E, Hk|].
  unfold compose in *. destruct (list_find _ (rep f <$> ms)) as [[]|], (list_find _ ms) as [[]|]; done.
Qed.

Lemma value_at_build base pres k : k ∉ (fst ∘ fst <$> pres) -> value_at (build base pres) k = value_at base k.
Proof.
  induction pres as [|p pres IH] using rev_ind; intros Hk; [done|]. rewrite fmap_app in Hk.
  rewrite build_snoc, <- IH by set_solver. unfold value_at, insert_member.
  destruct (o_members (build base pres)) as [|m ms]; cbn; rewrite decide_False by set_solver; [done|].
  destruct (decide (m_key m = k)); [done|]. by destruct (list_find _ ms) as [[]|].
Qed.

Section FastIsSlow.
Context {D : Type} `{!MergeDocs D} (format_float json_float : float64 -> string) `{!MergeLaws D format_float json_float}.
Implicit Types (d : D) (f : gmap string (string * GVal)) (pres : list (string * string * GVal)).

(** What one output member writes is the same on both paths. *)
Lemma merge_key_raw d o k v sv raw :
  ok d o -> plainMergeKey k = true -> writable v -> value_at o k = r_Value <$> sv ->
  merged_raw format_float json_float sv v = Some raw ->
  exists w v', merge_key d k v = inl (d_Set d (escapeDot k) w) /\ ok (d_Set d (escapeDot k) w) (put o k raw v').
Proof.
  intros Hok Hk Hfin Hv Hraw.
  assert (H : exists w, merge_key d k v = inl (d_Set d (escapeDot k) w) /\ writable w /\
                encode format_float json_float w = Some raw).
  { unfold merge_key. rewrite (get_plain d o k Hok Hk), Hv. unfold merged_raw in Hraw. unfold encode.
    destruct v as [|[|]| | | |];
      try (eexists; split; [reflexivity|]; split; [exact Hfin|]; cbn; by rewrite Hraw);
      destruct sv as [r|]; cbn in *; try (destruct (r_Value r)); try done;
      eexists; (split; [reflexivity|]; split; [first [exact I|exact Hfin]|exact Hraw]). }
  destruct H as (w & E & Hw & He). destruct (set_plain d o k w raw Hok Hk Hw He) as [v' H']. by exists w, v'.
Qed.

Context (o0 : Obj) (vals : gmap string Result).
Let rs0 := results_from 0 (o_members o0).
Hypothesis o0_keys : NoDup (keys o0).
Hypothesis vals_spec : forall k r, vals !! k = Some r <-> (k, r) ∈ rs0.

Lemma vals_none k : vals !! k = None -> k ∉ keys o0.
Proof.
  intros H Hin. unfold keys in Hin. rewrite <- (results_keys 0) in Hin.
  apply list_elem_of_fmap in Hin as ([k' r] & -> & Hin). cbn in H. apply vals_spec in Hin. congruence.
Qed.
Lemma vals_some k r : vals !! k = Some r -> k ∈ keys o0.
Proof. intros H. apply vals_spec in H. unfold keys. rewrite <- (results_keys 0). apply list_elem_of_fmap. by exists (k, r). Qed.

Lemma vals_value k : value_at o0 k = r_Value <$> vals !! k.
Proof.
  destruct (vals !! k) as [r|] eqn:E; cbn; [by apply (results_value o0 k r 0), vals_spec|].
  by apply value_at_none, vals_none.
Qed.

(** The document after the edits so far. *)
Definition current f pres : Obj := build (rep_obj f o0) pres.

Lemma put_current f pres k raw v :
  f !! k = None -> k ∉ (fst ∘ fst <$> pres) ->
  put (current f pres) k raw v =
  match vals !! k with Some _ => current (<[k := (raw, v)]> f) pres | None => current f (pres ++ [(k, raw, v)]) end.
Proof.
  intros Hf Hp. unfold put, current. rewrite build_keys, rep_obj_keys. destruct (vals !! k) as [r|] eqn:Ev.
  - rewrite bool_decide_eq_true_2 by (apply elem_of_app; right; by apply (vals_some k r)).
    rewrite replace_build by done. f_equal. exact (rep_insert f o0 k raw v Hf).
  - rewrite bool_decide_eq_false_2; [by rewrite build_snoc|]. intros [Hin|Hin]%elem_of_app.
    + apply Hp. rewrite rev_alt in Hin. by apply (elem_of_reverse k (fst ∘ fst <$> pres)).
    + by apply (vals_none k Ev).
Qed.

Lemma merge_keys_fast rs d f pres seen replaces prepends R P :
  ok d (current f pres) ->
  (forall k, k ∉ seen -> f !! k = None /\ k ∉ (fst ∘ fst <$> pres)) ->
  replaces ≡ₚ edits f rs0 -> prepends = pair_text <$> pres ->
  Forall (fun kr => writable (r_Value kr.2)) rs ->
  dst_edits format_float json_float vals rs seen replaces prepends = Some (R, P) ->
  exists d' f' pres', merge_keys d rs = (d', None) /\ ok d' (current f' pres') /\
    R ≡ₚ edits f' rs0 /\ P = pair_text <$> pres'.
Proof.
  revert d f pres seen replaces prepends. induction rs as [|[k r] rs IH]; intros d f pres seen replaces prepends Hok Hseen HR HP Hfin; cbn.
  { intros [= <- <-]. by exists d, f, pres. }
  inversion_clear Hfin as [|? ? Hr Hfin']. cbn in Hr.
  destruct (plainMergeKey k) eqn:Ek; [cbn [negb]|done]. case_bool_decide as Es; [done|]. destruct (Hseen k Es) as [Hf Hp].
  destruct (merged_raw _ _ (vals !! k) (r_Value r)) as [raw|] eqn:Er; [|done].
  destruct (merge_key_raw d (current f pres) k (r_Value r) (vals !! k) raw Hok Ek Hr) as (w & v' & -> & Hok').
  { unfold current. by rewrite value_at_build, value_at_rep, vals_value. }
  { done. }
  rewrite put_current in Hok' by done. destruct (vals !! k) as [sv|] eqn:Ev.
  - apply IH with (f := <[k := (raw, v')]> f) (pres := pres); [done| | |done..].
    + intros k' Hk'. destruct (Hseen k' ltac:(set_solver)) as [? ?]. split; [|done]. rewrite lookup_insert_ne; [done|set_solver].
    + rewrite HR. symmetry. apply edits_insert; [unfold rs0; by rewrite results_keys|by apply vals_spec|done].
  - apply IH with (f := f) (pres := pres ++ [(k, raw, v')]); [done| |done| |done].
    + intros k' Hk'. destruct (Hseen k' ltac:(set_solver)) as [? ?]. split; [done|]. rewrite fmap_app. set_solver.
    + by rewrite HP, fmap_app.
Qed.

Lemma base_text f es :
  obj_ok o0 -> byte_at (text o0) 0 = "{"%char -> es ≡ₚ edits f rs0 ->
  text (rep_obj f o0) = String "{" (splice (text o0) 1 (merge_sort start_le es)).
Proof.
  intros [_ HF] Hb He. unfold rs0 in He. rewrite (sort_edits f _ _ HF He).
  rewrite <- splice_tail; [|done|].
  - rewrite (splice_members f (text o0) (o_members o0) (o_tail o0) 0 0); [|lia|change (sdrop 0 (text o0) = text o0); by destruct (text o0)].
    unfold sslice. assert (Hz : forall s, stake (0 - 0) s = "") by (by intros []). by rewrite Hz.
  - apply Forall_forall. intros x Hx. destruct (edits_elem _ _ _ Hx) as (k & r & Hr & ->).
    apply results_index in Hr; [lia|done].
Qed.

Lemma srcNonEmpty_app t u : srcNonEmpty t = true -> srcNonEmpty (t ++ u) = true.
Proof. induction t as [|c t IH]; [done|]. cbn. by destruct (bval c <=? 32). Qed.

Lemma nonempty_members f : obj_ok o0 ->
  (match o_members (rep_obj f o0) with [] => "" | _ => "," end) = (if srcNonEmpty (sdrop 1 (text o0)) then "," else "")%string.
Proof.
  intros [H _]. unfold text, members_text, rep_obj. cbn [o_members]. destruct (o_members o0) as [|m ms]; cbn [fmap list_fmap foldr].
  - destruct H as (t & -> & Ht). cbn. assert (E : sdrop 0 t = t) by (by destruct t). by rewrite ?E, Ht.
  - destruct H as (t & -> & Ht). cbn. rewrite srcNonEmpty_app; [done|]. exact Ht.
Qed.

Lemma current_text f pres es :
  obj_ok o0 -> byte_at (text o0) 0 = "{"%char -> es ≡ₚ edits f rs0 ->
  text (current f pres) =
  ("{" ++ String.concat "," (rev (pair_text <$> pres)) ++
   (match pres with [] => "" | _ => if srcNonEmpty (sdrop 1 (text o0)) then "," else "" end) ++
   splice (text o0) 1 (merge_sort start_le es))%string.
Proof.
  intros Ho Hb He. unfold current. destruct pres as [|p pres]; [by apply base_text|].
  rewrite build_text by (done || by apply rep_obj_ok). rewrite nonempty_members by done.
  by rewrite (base_text f es).
Qed.
End FastIsSlow.

(** No top-level number of the document is beyond the float64 range. *)
Definition finite_numbers {D} `{!MergeDocs D} (d : D) : Prop :=
  forall o, d_object d = Some o -> Forall (fun m => writable (m_val m)) (o_members o).

Lemma results_values pos (P : GVal -> Prop) ms :
  Forall (fun m => P (m_val m)) ms -> Forall (fun kr => P (r_Value kr.2)) (results_from pos ms).
Proof. intros H. revert pos. induction H as [|m ms Hm _ IH]; intros pos; cbn; by constructor. Qed.

(** C34: the single-buffer merge is the sjson merge, byte for byte.  Whenever the
    fast path produces a text, the key-by-key path accepts the same documents and
    ends, without an error, with exactly that text; so [MergeJSON] is the reference
    on every pair of documents of which the second has no top-level number beyond
    the float64 range (such a number both paths print as [+Inf], and what gjson
    finds in a text that is not JSON is not documented). *)
Theorem MergeJSON_is_slow {D} `{!MergeDocs D} format_float json_float `{!MergeLaws D format_float json_float} (src dst : D) :
  finite_numbers dst ->
  MergeJSON format_float json_float src dst =
  (d_text (mergeJSONSlow src dst).1, (mergeJSONSlow src dst).2).
Proof.
  intros Hfin. unfold MergeJSON. destruct (mergeJSONFast format_float json_float src dst) as [out|] eqn:E;
    [|by destruct (mergeJSONSlow src dst)].
  revert E. unfold mergeJSONFast, mergeJSONSlow. set (st := d_text src). set (dt := d_text dst).
  destruct (st =s "") eqn:Est; [done|]. destruct (dt =s "") eqn:Edt; [by rewrite orb_true_r|]. cbn [orb].
  destruct (byte_at st 0 =c "{") eqn:Eb; [cbn [negb orb]|done]. destruct (byte_at dt 0 =c "{"); [cbn [negb]|done].
  destruct (d_Valid src) eqn:Ev; [cbn [negb]|done]. unfold ForEach.
  destruct (d_object src) as [o|] eqn:Eo; [|done]. destruct (d_object dst) as [od|] eqn:Eod; [|done].
  destruct (src_vals st _ ∅) as [vals|] eqn:Evals; [|done].
  destruct (src_vals_spec _ _ _ _ Evals) as (Hplain & Hnd & _ & Hvals). rewrite results_keys in Hplain, Hnd.
  apply Ascii.eqb_eq in Eb. destruct (object_text src o Ev Eb Eo) as [Htext Hobj].
  destruct (dst_edits _ _ vals _ [] [] []) as [[R P]|] eqn:Ed; [|done].
  destruct (merge_keys_fast format_float json_float o vals Hnd ltac:(set_solver) (results_from 0 (o_members od)) src ∅ [] [] [] [] R P)
    as (d' & f' & pres' & Hm & Hok & HR & HP); [|done| |done|by apply results_values, Hfin|done|].
  { unfold current, build. cbn. rewrite rep_obj_empty. split_and!; done. }
  { clear. unfold edits. induction (results_from 0 (o_members o)) as [|[k r] rs IH]; [done|]. cbn. unfold edit at 1. by rewrite lookup_empty. }
  rewrite Hm. cbn [fst snd]. pose proof Hok as (Ev' & Eb' & Eo' & _).
  destruct (object_text d' _ Ev' Eb' Eo') as [-> _].
  rewrite (current_text o vals ltac:(set_solver) f' pres' R Hobj) by (done || by rewrite <- Htext). rewrite <- Htext. fold st. rewrite HP.
  intros H. f_equal. destruct R as [|x R], pres' as [|p pres']; cbn in H |- *; injection H as <-; try done.
  fold st in Htext. destruct st as [|c t]; [done|]. cbn in Eb. subst c. by destruct t.
Qed.
