(* ===== verification/MergeValues.v ===== *)
(** * What a merge does to values

    [deepMergeValues] against reading at a path, the merge of one output as a
    function on the envelope's values, and that outputs which write different
    fields can arrive in any order. *)

From Stdlib Require Import Ascii String ZArith Lia Bool.
From stdpp Require Import base tactics list strings gmap sorting fin_maps.
From S2P Require Import Prelude GoStrings GoStrconv GoJson JsonxPath Builder Merge MergeFacts.

Open Scope nat_scope.

(** ** Induction over values *)

Fixpoint gsize (v : GVal) : nat :=
  match v with
  | VArr l => S (sum_list (map gsize l))
  | VMap m => S (map_fold (fun _ n acc => n + acc) 0 (gsize <$> m))
  | _ => 1
  end.

Lemma map_fold_lookup (m : gmap string nat) k n : m !! k = Some n -> n <= map_fold (fun _ n acc => n + acc) 0 m.
Proof.
  intros H. rewrite <- (insert_delete_id m k n H), map_fold_insert_L; [lia| |by rewrite lookup_delete_eq].
  intros; lia.
Qed.

Lemma gsize_map m k v : m !! k = Some v -> gsize v < gsize (VMap m).
Proof.
  intros H. cbn. pose proof (map_fold_lookup (gsize <$> m) k (gsize v)) as Hf.
  rewrite lookup_fmap, H in Hf. specialize (Hf eq_refl). lia.
Qed.

(** ** Apart *)

(** Two outputs that write no common field: where both have a key, both have an
    object there, and the objects are apart. *)
Inductive apart : GVal -> GVal -> Prop :=
  | apart_map m1 m2 :
      (forall k v1 v2, m1 !! k = Some v1 -> m2 !! k = Some v2 -> apart v1 v2) -> apart (VMap m1) (VMap m2).

Lemma deep_map m1 m2 k :
  (match deepMergeValues (VMap m1) (VMap m2) with VMap m => m | _ => ∅ end) !! k =
  match m1 !! k, m2 !! k with
  | Some v1, Some v2 => Some (deepMergeValues v1 v2)
  | Some v1, None => Some v1
  | None, o => o
  end.
Proof. cbn. rewrite lookup_merge. by destruct (m1 !! k), (m2 !! k). Qed.

Lemma deep_comm a b : apart a b -> deepMergeValues a b = deepMergeValues b a.
Proof.
  remember (gsize a) as n eqn:Hn. revert a b Hn. induction n as [n IH] using lt_wf_ind. intros a b -> H.
  destruct H as [m1 m2 H]. cbn. f_equal. apply map_eq. intros k. rewrite !lookup_merge. 
  destruct (m1 !! k) as [v1|] eqn:E1, (m2 !! k) as [v2|] eqn:E2; cbn; try done. f_equal.
  by apply (IH (gsize v1)); [apply (gsize_map m1 k)|..|eapply H].
Qed.

(** Outputs that are apart merge into an envelope in either order. *)
Lemma deep_order a b e : apart a b -> deepMergeValues b (deepMergeValues a e) = deepMergeValues a (deepMergeValues b e).
Proof.
  remember (gsize a) as n eqn:Hn. revert a b e Hn. induction n as [n IH] using lt_wf_ind. intros a b e -> H.
  destruct H as [m1 m2 H].
  assert (Hb : deepMergeValues (VMap m2) (VMap m1) = deepMergeValues (VMap m1) (VMap m2))
    by (symmetry; apply deep_comm; by constructor).
  destruct e as [| | | | |m3]; [exact Hb..|].
  cbn. f_equal. apply map_eq. intros k. rewrite !lookup_merge.
  destruct (m1 !! k) as [v1|] eqn:E1, (m2 !! k) as [v2|] eqn:E2, (m3 !! k) as [v3|] eqn:E3; cbn; try done; f_equal.
  - by apply (IH (gsize v1)); [apply (gsize_map m1 k)|..|eapply H].
  - symmetry. apply deep_comm. by eapply H.
Qed.

(** ** One output into the envelope's values *)

(** The value a key gets, with the envelope's value in [so]. *)
Definition top_value (so : option GVal) (v : GVal) : GVal :=
  match v, so with
  | VMap _, Some (VMap s1) => deepMergeValues v (VMap s1)
  | VArr d1, Some (VArr s1) => VArr (s1 ++ d1)
  | _, _ => v
  end.

(** An object meets something that is not one. *)
Definition conflict (so : option GVal) (v : GVal) : Prop :=
  match v, so with VMap _, Some (VMap _) => False | VMap _, Some _ => True | _, _ => False end.

Definition merge_vals (env out : gmap string GVal) : gmap string GVal :=
  merge (fun o so => match o with Some v => Some (top_value so v) | None => so end) out env.

Lemma lookup_merge_vals env out k :
  merge_vals env out !! k = match out !! k with Some v => Some (top_value (env !! k) v) | None => env !! k end.
Proof. unfold merge_vals. rewrite lookup_merge. by destruct (out !! k), (env !! k). Qed.

Lemma top_value_twice so v1 v2 : apart v1 v2 -> top_value (Some (top_value so v1)) v2 = top_value (Some (top_value so v2)) v1.
Proof.
  intros H. pose proof (deep_comm _ _ H) as Hc. pose proof (fun e => deep_order v1 v2 e H) as Ho.
  destruct H as [m1 m2 H]. destruct so as [[| | | | |m3]|]; cbn [top_value]; try done. exact (Ho (VMap m3)).
Qed.

Lemma merge_vals_comm env a b : apart (VMap a) (VMap b) -> merge_vals (merge_vals env a) b = merge_vals (merge_vals env b) a.
Proof.
  intros H. inversion H as [m1 m2 Hk E1 E2]. subst m1 m2. apply map_eq. intros k. rewrite !lookup_merge_vals.
  destruct (a !! k) as [v1|] eqn:Ea, (b !! k) as [v2|] eqn:Eb; try done. f_equal. apply top_value_twice. by eapply Hk.
Qed.

(** Adding a key to the output adds it last. *)
Lemma merge_vals_insert env out k v :
  out !! k = None -> merge_vals env (<[k := v]> out) = merge_vals (<[k := top_value (env !! k) v]> env) out.
Proof.
  intros Hk. apply map_eq. intros k'. rewrite !lookup_merge_vals. destruct (decide (k = k')) as [<-|Hne].
  - by rewrite lookup_insert_eq, Hk, lookup_insert_eq.
  - by rewrite !lookup_insert_ne.
Qed.

(** ** Values that survive a round trip *)

Inductive clean : GVal -> Prop :=
  | clean_null : clean VNull
  | clean_bool x : clean (VBool x)
  | clean_num f : finite f = true -> clean (VNum f)
  | clean_str s : utf8_valid s = true -> clean (VStr s)
  | clean_arr l : Forall clean l -> clean (VArr l)
  | clean_map m : (forall k v, m !! k = Some v -> utf8_valid k = true /\ clean v) -> clean (VMap m).

Lemma gsize_elem l v : v ∈ l -> gsize v < gsize (VArr l).
Proof.
  intros H. cbn. induction H as [v l|v w l _ IH]; cbn; [lia|]. cbn in IH. lia.
Qed.

Lemma clean_deep a b : clean a -> clean b -> clean (deepMergeValues a b).
Proof.
  remember (gsize a) as n eqn:Hn. revert a b Hn. induction n as [n IH] using lt_wf_ind. intros a b -> Ha Hb.
  destruct Ha as [| | | |l Hl|m1 H1]; cbn; try (by constructor).
  - destruct Hb; by constructor.
  - destruct Hb as [| | | |l2 Hl2|]; try (by constructor). constructor. by apply Forall_app.
  - destruct Hb as [| | | | |m2 H2]; try (by constructor). constructor. intros k v. rewrite lookup_merge.
    destruct (m1 !! k) as [v1|] eqn:E1, (m2 !! k) as [v2|] eqn:E2; cbn; intros [= <-]; [|by apply (H1 k)|by apply (H2 k)].
    destruct (H1 k v1 E1), (H2 k v2 E2). split; [done|]. by apply (IH (gsize v1)); [apply (gsize_map m1 k)|..].
Qed.

Lemma clean_top so v : clean v -> (forall s, so = Some s -> clean s) -> clean (top_value so v).
Proof.
  intros Hv Hs. unfold top_value. destruct v as [| | | |l|m]; try done; destruct so as [[| | | |l2|m2]|]; try done.
  - specialize (Hs _ eq_refl). inversion_clear Hs. inversion_clear Hv. constructor. by apply Forall_app.
  - apply clean_deep; [done|by apply Hs].
Qed.

Lemma clean_marshal json_float v : clean v -> is_Some (json_Marshal json_float v).
Proof.
  remember (gsize v) as n eqn:Hn. revert v Hn. induction n as [n IH] using lt_wf_ind. intros v -> Hv.
  destruct Hv as [| |f Hf| |l Hl|m Hm]; cbn; try done.
  - by rewrite Hf.
  - assert (H : is_Some (mapM id (map (json_Marshal json_float) l))).
    { apply mapM_is_Some, Forall_fmap, Forall_forall. intros v Hv. cbn.
      apply (IH (gsize v)); [by apply gsize_elem|done|]. by apply (proj1 (Forall_forall _ _) Hl). }
    destruct H as [ps ->]. done.
  - unfold join_members. set (l := merge_sort key_le _).
    assert (H : is_Some (mapM (fun '(k, o) => match o with Some v => Some (json_marshal_string k ++ ":" ++ v)%string | None => None end) l)).
    { apply mapM_is_Some, Forall_forall. intros [k o] Hk. unfold l in Hk. rewrite merge_sort_Permutation in Hk.
      apply elem_of_map_to_list in Hk. rewrite lookup_fmap in Hk. destruct (m !! k) as [v|] eqn:Ek; [|done].
      cbn in Hk. injection Hk as <-. destruct (IH (gsize v) (gsize_map m k v Ek) v eq_refl) as [s ->]; [by destruct (Hm k v Ek)|]. by eexists. }
    destruct H as [ps ->]. done.
Qed.

Lemma clean_encode format_float json_float v : clean v -> is_Some (encode format_float json_float v).
Proof.
  intros H. unfold encode. pose proof (clean_marshal json_float v H). by destruct H as [|[|]| | | |].
Qed.

(** gjson reads a written value back when it is one that survives the trip. *)
Class MergeReads (D : Type) `{!MergeDocs D} (format_float json_float : float64 -> string) := {
  set_reads d o k v raw : ok d o -> plainMergeKey k = true -> encode format_float json_float v = Some raw -> clean v ->
    ok (d_Set d (escapeDot k) v) (put o k raw v) }.

(** ** Documents as values *)

Definition vals_of (o : Obj) : gmap string GVal := list_to_map ((fun m => (m_key m, m_val m)) <$> o_members o).

Lemma vals_of_lookup o k : vals_of o !! k = value_at o k.
Proof.
  unfold vals_of, value_at. induction (o_members o) as [|m ms IH]; [done|]. cbn. destruct (decide (m_key m = k)) as [->|Hne].
  - by rewrite lookup_insert_eq.
  - rewrite lookup_insert_ne, IH by done. by destruct (list_find _ ms) as [[]|].
Qed.

Lemma vals_of_put o k raw v : vals_of (put o k raw v) = <[k := v]> (vals_of o).
Proof.
  unfold put. case_bool_decide as Hk.
  - unfold vals_of, keys in *. cbn. revert Hk. induction (o_members o) as [|m ms IH]; cbn; [by intros ?%elem_of_nil|].
    intros Hk. unfold replace_member at 1 2. destruct (String.eqb_spec (m_key m) k) as [E|E]; cbn.
    + subst k. rewrite insert_insert_eq. destruct (decide (m_key m ∈ m_key <$> ms)) as [Hin|Hni].
      * rewrite IH by done. by rewrite insert_insert_eq.
      * f_equal. f_equal. rewrite <- list_fmap_compose. apply list_fmap_ext. intros i m' Hm'. cbn. unfold replace_member.
        destruct (String.eqb_spec (m_key m') (m_key m)) as [E|]; [|done]. exfalso. apply Hni, list_elem_of_fmap.
        exists m'. split; [done|]. by eapply list_elem_of_lookup_2.
    + apply elem_of_cons in Hk as [->|Hk]; [done|]. rewrite IH by done. by rewrite insert_insert_ne.
  - unfold vals_of, insert_member. by destruct (o_members o).
Qed.

Section Values.
Context {D : Type} `{!MergeDocs D} (format_float json_float : float64 -> string)
  `{!MergeLaws D format_float json_float} `{!MergeReads D format_float json_float}.
Implicit Types (d : D) (env out : gmap string GVal).

Definition clean_vals env : Prop := forall k v, env !! k = Some v -> clean v.
Definition no_conflict env out : Prop := forall k v, out !! k = Some v -> ~ conflict (env !! k) v.

(** A document whose values are [env]. *)
Definition holds d env : Prop := exists o, ok d o /\ vals_of o = env /\ clean_vals env.

Lemma merge_key_vals d env k v :
  holds d env -> plainMergeKey k = true -> clean v -> ~ conflict (env !! k) v ->
  exists d', merge_key d k v = inl d' /\ holds d' (<[k := top_value (env !! k) v]> env).
Proof.
  intros (o & Hok & Ho & Hc) Hk Hv Hn.
  assert (Hg : d_Get d (escapeDot k) = env !! k) by (by rewrite (get_plain d o k Hok Hk), <- vals_of_lookup, Ho).
  assert (Hw : clean (top_value (env !! k) v)) by (apply clean_top; [done|intros s Hs; by apply (Hc k)]).
  exists (d_Set d (escapeDot k) (top_value (env !! k) v)). split.
  - unfold merge_key. rewrite Hg. destruct v; try done; destruct (env !! k) as [[]|]; try done; by destruct Hn.
  - destruct (clean_encode format_float json_float _ Hw) as [raw Hraw].
    exists (put o k raw (top_value (env !! k) v)). split; [by apply set_reads|]. rewrite vals_of_put, Ho. split; [done|].
    intros k' v'. destruct (decide (k = k')) as [<-|Hne]; [rewrite lookup_insert_eq; by intros [= <-]|].
    rewrite lookup_insert_ne by done. apply Hc.
Qed.

(** The members of an output, as values. *)
Definition out_vals (rs : list (string * Result)) : gmap string GVal := list_to_map ((fun kr => (kr.1, r_Value kr.2)) <$> rs).

Lemma merge_keys_vals rs d env :
  holds d env -> Forall (fun k => plainMergeKey k = true) rs.*1 -> NoDup rs.*1 ->
  clean_vals (out_vals rs) -> no_conflict env (out_vals rs) ->
  exists d', merge_keys d rs = (d', None) /\ holds d' (merge_vals env (out_vals rs)).
Proof.
  revert d env; induction rs as [|[k r] rs IH]; intros d env Hd Hp Hnd Hc Hn.
  { exists d. split; [done|]. change (out_vals []) with (∅ : gmap string GVal).
    assert (E : merge_vals env ∅ = env) by (apply map_eq; intros k; rewrite lookup_merge_vals; by rewrite lookup_empty).
    by rewrite E. }
  rewrite fmap_cons in Hp, Hnd. inversion_clear Hp as [|? ? Hk Hp']. apply NoDup_cons in Hnd as [Hni Hnd]. cbn in Hk, Hni.
  assert (Eo : out_vals ((k, r) :: rs) = <[k := r_Value r]> (out_vals rs)) by done. rewrite Eo in Hc, Hn |- *.
  assert (Hnone : out_vals rs !! k = None).
  { unfold out_vals. apply not_elem_of_list_to_map_1. rewrite <- list_fmap_compose. exact Hni. }
  assert (Hv : clean (r_Value r)) by (apply (Hc k); by rewrite lookup_insert_eq).
  destruct (merge_key_vals d env k (r_Value r) Hd Hk Hv) as (d1 & E1 & Hd1).
  { apply Hn. by rewrite lookup_insert_eq. }
  assert (Hother : forall k' v, out_vals rs !! k' = Some v -> k <> k') by (intros k' v H <-; congruence).
  rewrite merge_vals_insert by done. cbn. rewrite E1. apply IH; [done..| |].
  - intros k' v H. apply (Hc k'). rewrite lookup_insert_ne; [done|by eapply Hother].
  - intros k' v H. rewrite lookup_insert_ne by (by eapply Hother). apply Hn. rewrite lookup_insert_ne; [done|by eapply Hother].
Qed.

(** ** A scope *)

Lemma holds_text d env : holds d env -> d_text d <> "".
Proof. intros (o & (_ & Hb & _) & _) E. by rewrite E in Hb. Qed.

Lemma out_vals_of o pos : out_vals (results_from pos (o_members o)) = vals_of o.
Proof.
  unfold out_vals, vals_of. f_equal. revert pos. induction (o_members o) as [|m ms IH]; intros pos; cbn; [done|].
  by rewrite IH.
Qed.

(** The text [{}] has no members. *)
Lemma empty_object d o : ok d o -> d_text d = "{}" -> o_members o = [].
Proof.
  intros (Hv & Hb & Ho & _) E. destruct (object_text d o Hv Hb Ho) as [Ht [Hobj _]]. rewrite E in Ht.
  destruct (o_members o) as [|m ms] eqn:Em; [done|]. destruct Hobj as (t & Hl & Hn). exfalso.
  unfold text in Ht. rewrite Em in Ht. cbn in Ht. rewrite Hl in Ht. cbn in Ht. injection Ht as Ht.
  destruct t as [|c [|c2 t]]; [done| |done]. cbn in Ht. injection Ht as <- _. done.
Qed.

Lemma merge_response_vals resp env d out :
  holds resp env -> holds d out -> no_conflict env out -> holds (merge_response resp d) (merge_vals env out).
Proof.
  intros Hr Hd Hn. pose proof (holds_text _ _ Hr) as Tr. pose proof (holds_text _ _ Hd) as Td.
  pose proof Hd as (o & Hok & Ho & Hc). unfold merge_response. destruct (String.eqb_spec (d_text d) "{}") as [E|_].
  - pose proof (empty_object d o Hok E) as Hm. unfold vals_of in Ho. rewrite Hm in Ho. cbn in Ho. subst out.
    assert (Ee : merge_vals env ∅ = env) by (apply map_eq; intros k; rewrite lookup_merge_vals; by rewrite lookup_empty).
    by rewrite Ee.
  - unfold mergeJSONSlow. rewrite (proj2 (String.eqb_neq _ _) Td), (proj2 (String.eqb_neq _ _) Tr).
    pose proof Hok as (_ & _ & Eo & Hp & Hnd). pose proof Hr as (or & (_ & _ & Eor & _) & _).
    unfold ForEach. rewrite Eo, Eor.
    destruct (merge_keys_vals (results_from 0 (o_members o)) resp env Hr) as (d' & -> & Hd'); [by rewrite results_keys..| | |].
    + by rewrite out_vals_of, Ho.
    + by rewrite out_vals_of, Ho.
    + by rewrite out_vals_of, Ho in Hd'.
Qed.

Lemma no_conflict_after env a b : no_conflict env b -> apart (VMap a) (VMap b) -> no_conflict (merge_vals env a) b.
Proof.
  intros Hn H k v2 Hb. inversion H as [m1 m2 Hk E1 E2]. subst m1 m2. rewrite lookup_merge_vals.
  destruct (a !! k) as [v1|] eqn:Ea; [|by apply Hn]. specialize (Hk k v1 v2 Ea Hb). destruct Hk as [m1 m2 Hk].
  destruct (env !! k) as [[]|]; cbn; tauto.
Qed.

Definition apart_outputs (p q : D * gmap string GVal) : Prop := apart (VMap p.2) (VMap q.2).

Lemma merge_scope_vals ps raw env :
  holds raw env -> Forall (fun p => holds p.1 p.2 /\ no_conflict env p.2) ps -> List.ForallOrdPairs apart_outputs ps ->
  holds (merge_scope raw ps.*1) (foldl merge_vals env ps.*2).
Proof.
  revert raw env; induction ps as [|[d out] ps IH]; intros raw env Hr Hps Ha; [done|]. cbn.
  inversion_clear Hps as [|? ? [Hd Hn] Hps']. inversion_clear Ha as [|? ? Hap Ha']. cbn in Hd, Hn.
  apply IH; [by apply merge_response_vals| |done].
  apply Forall_forall. intros q Hq. rewrite Forall_forall in Hps'. destruct (Hps' q Hq) as [Hq1 Hq2]. split; [done|].
  apply no_conflict_after; [done|]. rewrite List.Forall_forall in Hap. apply (Hap q). by apply list_elem_of_In.
Qed.
End Values.

Lemma apart_sym a b : apart a b -> apart b a.
Proof.
  remember (gsize a) as n eqn:Hn. revert a b Hn. induction n as [n IH] using lt_wf_ind. intros a b -> H.
  destruct H as [m1 m2 H]. constructor. intros k v2 v1 E2 E1.
  by apply (IH (gsize v1)); [apply (gsize_map m1 k)|..|eapply H].
Qed.

Lemma ForallOrdPairs_perm {A} (R : A -> A -> Prop) (l l' : list A) :
  (forall x y, R x y -> R y x) -> l ≡ₚ l' -> List.ForallOrdPairs R l -> List.ForallOrdPairs R l'.
Proof.
  intros HR Hp. induction Hp as [|x l l' Hp IH|x y l|l1 l2 l3 _ IH1 _ IH2]; intros H; [done| | |by apply IH2, IH1].
  - inversion_clear H as [|? ? Hx Hl]. constructor; [|by apply IH]. by rewrite <- Hp.
  - inversion_clear H as [|? ? Hy Hl]. inversion_clear Hl as [|? ? Hx Hl']. inversion_clear Hy as [|? ? Hyx Hy'].
    constructor; [constructor; [by apply HR|done]|]. by constructor.
Qed.

Lemma merge_vals_perm {D} (ps ps' : list (D * gmap string GVal)) env :
  ps ≡ₚ ps' -> List.ForallOrdPairs apart_outputs ps -> foldl merge_vals env ps.*2 = foldl merge_vals env ps'.*2.
Proof.
  intros Hp. revert env. induction Hp as [|p ps ps' _ IH|p q ps|l1 l2 l3 H1 IH1 _ IH2]; intros env H; cbn; [done| | |].
  - inversion_clear H. by apply IH.
  - inversion_clear H as [|? ? Hq _]. inversion_clear Hq as [|? ? Hpq _]. f_equal. by apply merge_vals_comm.
  - rewrite IH1 by done. apply IH2. apply (ForallOrdPairs_perm _ l1); [|done..]. intros x y. apply apart_sym.
Qed.

Definition is_arr (v : GVal) : bool := match v with VArr _ => true | _ => false end.

(** below the top level an array over something else leaves neither.  When an
    output has an array at [k.x] and the envelope has there a value that is not
    one, the envelope after the merge has null at [k.x]: the array of the output
    and the value of the envelope are both gone. *)
Theorem nested_array_lost {D} `{!MergeDocs D} format_float json_float
    `{!MergeLaws D format_float json_float} `{!MergeReads D format_float json_float}
    (resp d : D) env out k m1 m2 x l v :
  holds resp env -> holds d out -> no_conflict env out ->
  out !! k = Some (VMap m1) -> m1 !! x = Some (VArr l) ->
  env !! k = Some (VMap m2) -> m2 !! x = Some v -> is_arr v = false ->
  exists env' m, holds (merge_response resp d) env' /\ env' !! k = Some (VMap m) /\ m !! x = Some VNull.
Proof.
  intros Hr Hd Hn Ho H1 He H2 Hv. exists (merge_vals env out). eexists.
  split; [by eapply merge_response_vals|]. rewrite lookup_merge_vals, Ho, He. split; [reflexivity|].
  rewrite lookup_merge, H1, H2. cbn. by destruct v.
Qed.

(** C36: the order in which the ops of a scope answer does not matter when their
    outputs write different fields.  The envelope and the outputs are JSON objects
    whose top-level keys are plain and distinct and whose values have finite
    numbers and valid UTF-8 ([holds]).  For outputs that are pairwise apart, at any
    depth, and put no object over something else, the envelope after the scope
    has the same value at every key whatever order the outputs arrived in.  Keys
    that are not plain are really excepted: see [bad_key_wipes]. *)
Theorem scope_order {D} `{!MergeDocs D} format_float json_float
    `{!MergeLaws D format_float json_float} `{!MergeReads D format_float json_float}
    (raw : D) env (ps ps' : list (D * gmap string GVal)) :
  holds raw env -> Forall (fun p => holds p.1 p.2 /\ no_conflict env p.2) ps -> List.ForallOrdPairs apart_outputs ps ->
  ps ≡ₚ ps' ->
  exists env', holds (merge_scope raw ps.*1) env' /\ holds (merge_scope raw ps'.*1) env'.
Proof.
  intros Hr Hps Ha Hp. exists (foldl merge_vals env ps.*2).
  split; [by apply (merge_scope_vals format_float json_float)|].
  rewrite (merge_vals_perm ps ps' env Hp Ha). apply (merge_scope_vals format_float json_float); [done|by rewrite <- Hp|].
  apply (ForallOrdPairs_perm _ ps); [|done..]. intros x y. apply apart_sym.
Qed.

(** What sjson does with a path it does not split: an error, which the merge drops,
    and the empty text. *)
Class MergeRejects (D : Type) `{!MergeDocs D} := {
  set_rejected d p v : splitPath p = None -> d_Set d p v = d_none }.

(** An output with one key that sjson takes for a wildcard, or the empty key,
    empties the envelope: [escapeDot] escapes neither.  What answers after it is
    then the whole envelope, what answered before it is lost, so arrival order
    decides what a scope leaves. *)
Lemma bad_key_wipes {D} `{!MergeDocs D} format_float json_float `{!MergeLaws D format_float json_float} `{!MergeRejects D}
    (raw bad next : D) k r :
  d_text raw <> "" -> d_object raw <> None -> d_text bad <> "" -> d_text bad <> "{}" ->
  ForEach bad = Some [(k, r)] -> splitPath (escapeDot k) = None -> (forall m, r_Value r <> VMap m) ->
  d_text next <> "" -> d_text next <> "{}" ->
  merge_scope raw [bad; next] = next /\
  (d_text (merge_response raw next) <> "" -> d_object (merge_response raw next) <> None ->
   merge_scope raw [next; bad] = d_none).
Proof.
  intros Hr Hro Hb Hbb Hf Hk Hv Hn Hnb.
  assert (Hwipe : forall d, d_text d <> "" -> d_object d <> None -> merge_response d bad = d_none).
  { intros d Hd Hdo. unfold merge_response. rewrite (proj2 (String.eqb_neq _ _) Hbb). unfold mergeJSONSlow.
    rewrite (proj2 (String.eqb_neq _ _) Hb), (proj2 (String.eqb_neq _ _) Hd), Hf. unfold ForEach.
    destruct (d_object d) as [o|]; [|done]. cbn [merge_keys].
    assert (E : merge_key d k (r_Value r) = inl d_none).
    { assert (Hs : forall w, d_Set d (escapeDot k) w = d_none) by (intros w; by apply set_rejected).
      unfold merge_key. destruct (r_Value r) as [| | | |l|m]; [by rewrite Hs..| |by destruct (Hv m)].
      destruct (d_Get d (escapeDot k)) as [[]|]; by rewrite Hs. }
    by rewrite E. }
  assert (Hnext : merge_response d_none next = next).
  { unfold merge_response. rewrite (proj2 (String.eqb_neq _ _) Hnb). unfold mergeJSONSlow.
    by rewrite (proj2 (String.eqb_neq _ _) Hn), none_text. }
  cbn. split; [by rewrite Hwipe|]. apply Hwipe.
Qed.

(** one answer that is not an object empties the envelope.  Whatever the
    envelope holds, merging an answer gjson does not read as an object leaves the
    empty text (the error is only logged), and the next output of the scope is
    then the whole envelope. *)
Theorem non_object_wipes {D} `{!MergeDocs D} format_float json_float `{!MergeLaws D format_float json_float}
    (raw answer next : D) :
  d_text raw <> "" -> d_text answer <> "" -> d_text answer <> "{}" -> d_object answer = None ->
  d_text next <> "" -> d_text next <> "{}" ->
  d_text (merge_scope raw [answer]) = "" /\ merge_scope raw [answer; next] = next.
Proof.
  intros Hr Ha Hab Ho Hn Hnb.
  assert (E : merge_response raw answer = d_none).
  { unfold merge_response. rewrite (proj2 (String.eqb_neq _ _) Hab). unfold mergeJSONSlow.
    rewrite (proj2 (String.eqb_neq _ _) Ha), (proj2 (String.eqb_neq _ _) Hr). unfold ForEach. by rewrite Ho. }
  cbn. rewrite E. split; [apply none_text|]. unfold merge_response. rewrite (proj2 (String.eqb_neq _ _) Hnb).
  unfold mergeJSONSlow. by rewrite (proj2 (String.eqb_neq _ _) Hn), none_text.
Qed.

(** ** Documents as layouts *)

(** An instance of the laws: a text is empty, an object's layout, or something
    else. *)
Inductive Layout := LNone | LObj (o : Obj) | LText (s : string).

Definition obj_okb (o : Obj) : bool :=
  match o_members o with
  | [] => match o_tail o with String "{" t => negb (srcNonEmpty t) | _ => false end
  | m :: _ => match m_lead m with String "{" t => srcNonEmpty t | _ => false end
  end && forallb (fun m => negb (m_lead m =s "")) (o_members o).

Definition unesc (s : string) : string := sflat (fun c => if c =c "\" then "" else String c "") s.

(** Paths with a wildcard anywhere are refused, and so is the empty one. *)
Definition rejected (p : string) : bool := (p =s "") || sany is_wild p.

Lemma split_rejects s : forall cur frc st, split_spec s cur frc st = None -> sany is_wild s = true.
Proof.
  induction s as [|c|c d s IH1 IH2] using string_ind2; intros cur frc st; [done|..].
  - cbn [split_spec sany]. destruct (is_wild c); [done|]. by repeat case_bool.
  - remember (String d s) as s' eqn:Es. cbn [split_spec sany].
    destruct (st && (c =c ":")); [intros H; rewrite (IH2 _ _ _ H); by rewrite orb_true_r|].
    destruct (c =c BS); [rewrite Es; intros H; cbn [sany]; rewrite (IH1 _ _ _ H); by rewrite !orb_true_r|].
    destruct (c =c "."); [|destruct (is_wild c); [done|intros H; rewrite (IH2 _ _ _ H); by rewrite orb_true_r]].
    destruct (split_spec s' "" false true) eqn:E; [done|]. intros _. rewrite (IH2 _ _ _ E). by rewrite orb_true_r.
Qed.

Section Layouts.
Variables format_float json_float : float64 -> string.

#[export] Instance layout_docs : MergeDocs Layout := {
  d_text d := match d with LNone => "" | LObj o => text o | LText s => s end;
  d_none := LNone;
  d_Valid d := match d with LObj o => obj_okb o | _ => false end;
  d_object d := match d with LObj o => Some o | _ => None end;
  d_Get d p := match d with LObj o => value_at o (unesc p) | _ => None end;
  d_Set d p v :=
    match d, encode format_float json_float v with
    | LObj o, Some raw => if rejected p then LNone else LObj (put o (unesc p) raw v)
    | _, _ => LNone
    end }.

Lemma obj_okb_ok o : obj_okb o = true <-> obj_ok o.
Proof.
  unfold obj_okb, obj_ok. rewrite andb_true_iff, forallb_forall, List.Forall_forall.
  assert (Hl : (forall m, In m (o_members o) -> negb (m_lead m =s "") = true) <-> (forall m, In m (o_members o) -> m_lead m <> "")).
  { split; intros H m Hm; specialize (H m Hm).
    - apply negb_true_iff in H. by apply String.eqb_neq in H.
    - apply negb_true_iff. by apply String.eqb_neq. }
  rewrite Hl. apply and_iff_compat_r. destruct (o_members o) as [|m ms].
  - destruct (o_tail o) as [|c t]; [split; [done|by intros (t & ? & _)]|].
    destruct (Ascii.eqb_spec c "{") as [->|Hc].
    + rewrite negb_true_iff. split; [by exists t|]. by intros (t' & [= <-] & H).
    + split; [|intros (t' & [= ? ?] & _); done]. destruct c as [[] [] [] [] [] [] [] []]; done.
  - destruct (m_lead m) as [|c t]; [split; [done|by intros (t & ? & _)]|].
    destruct (Ascii.eqb_spec c "{") as [->|Hc].
    + split; [by exists t|]. by intros (t' & [= <-] & H).
    + split; [|intros (t' & [= ? ?] & _); done]. destruct c as [[] [] [] [] [] [] [] []]; done.
Qed.

Lemma unesc_escape k : plainMergeKey k = true -> unesc (escapeDot k) = k.
Proof.
  unfold plainMergeKey. intros H. apply andb_true_iff in H as [_ H]. unfold escapeDot, unesc.
  change "." with (String "." ""). change ":" with (String ":" "").
  rewrite !ReplaceAll_byte, !sflat_sflat.
  induction k as [|c k IH]; [done|]. cbn in H. apply andb_true_iff in H as [Hc Hk]. cbn [sflat]. rewrite IH by done.
  destruct (Ascii.eqb_spec c ".") as [->|H1]; [done|]. destruct (Ascii.eqb_spec c ":") as [->|H2]; [done|].
  cbn. destruct (Ascii.eqb_spec c "\") as [->|]; [done|]. rewrite (proj2 (Ascii.eqb_neq _ _) H2). cbn.
  rewrite (proj2 (Ascii.eqb_neq c "\")) by done. done.
Qed.

Lemma obj_ok_brace o : obj_ok o -> byte_at (text o) 0 = "{"%char.
Proof.
  intros [H _]. unfold text, members_text. destruct (o_members o) as [|m ms]; cbn; by destruct H as (t & -> & _).
Qed.

Lemma replace_keys k raw v (ms : list Member) : m_key <$> (replace_member k raw v <$> ms) = m_key <$> ms.
Proof.
  rewrite <- list_fmap_compose. apply list_fmap_ext. intros _ m _. cbn. unfold replace_member.
  by destruct (String.eqb_spec (m_key m) k) as [<-|].
Qed.

Lemma put_obj_ok o k raw v : obj_ok o -> obj_ok (put o k raw v).
Proof.
  intros Ho. unfold put. case_bool_decide; [|by apply insert_ok]. destruct Ho as [H1 H2]. unfold obj_ok. cbn. split.
  - destruct (o_members o) as [|m ms]; [done|]. cbn. unfold replace_member. by destruct (m_key m =s k).
  - apply Forall_fmap. eapply Forall_impl; [exact H2|]. intros m Hm. cbn. unfold replace_member. by destruct (m_key m =s k).
Qed.

Lemma put_keys o k raw v :
  plainMergeKey k = true -> Forall (fun k => plainMergeKey k = true) (keys o) -> NoDup (keys o) ->
  Forall (fun k => plainMergeKey k = true) (keys (put o k raw v)) /\ NoDup (keys (put o k raw v)).
Proof.
  intros Hk Hp Hnd. unfold put. case_bool_decide as Hin.
  - unfold keys. cbn [o_members]. by rewrite replace_keys.
  - assert (E : keys (insert_member o k raw v) = k :: keys o) by (unfold keys, insert_member; by destruct (o_members o)).
    rewrite E. split; by constructor.
Qed.

Lemma plain_accepted k : plainMergeKey k = true -> rejected (escapeDot k) = false.
Proof.
  unfold plainMergeKey, rejected. intros [Hne H]%andb_true_iff. apply orb_false_iff. unfold escapeDot.
  change "." with (String "." ""). change ":" with (String ":" "").
  rewrite !ReplaceAll_byte, !sflat_sflat. split.
  - destruct k as [|c k]; [done|]. cbn. destruct (c =c "."); [done|]. cbn. by destruct (c =c ":").
  - clear Hne. induction k as [|c k IH]; [done|]. cbn in H. apply andb_true_iff in H as [Hc Hk].
    cbn [sflat]. rewrite sany_app, IH, orb_false_r by done.
    destruct (Ascii.eqb_spec c ".") as [->|H1]; [done|]. destruct (Ascii.eqb_spec c ":") as [->|H2]; [done|].
    cbn. rewrite (proj2 (Ascii.eqb_neq _ _) H2). cbn. rewrite orb_false_r. unfold plain_byte in Hc. unfold is_wild.
    by destruct c as [[] [] [] [] [] [] [] []].
Qed.

Lemma layout_set d o k v raw :
  ok d o -> plainMergeKey k = true -> encode format_float json_float v = Some raw ->
  ok (d_Set d (escapeDot k) v) (put o k raw v).
Proof.
  intros (Hv & Hb & Ho & Hp & Hnd) Hk He. destruct d as [|o'|]; try done. cbn in Ho. injection Ho as ->.
  unfold ok. cbn. rewrite He, plain_accepted, unesc_escape by done. apply obj_okb_ok, (put_obj_ok _ k raw v) in Hv as Hok.
  destruct (put_keys o k raw v Hk Hp Hnd). split_and!; [by apply obj_okb_ok|by apply obj_ok_brace|done..].
Qed.

#[export] Instance layout_laws : MergeLaws Layout format_float json_float.
Proof.
  split; [done| | |].
  - intros [|o'|] o Hv _ [= ->]. split; [done|]. by apply obj_okb_ok.
  - intros [|o'|] o k (_ & _ & Ho & _) Hk; try done. cbn in *. injection Ho as ->. by rewrite unesc_escape.
  - intros d o k v raw Hok Hk He. exists v. by apply layout_set.
Qed.

#[export] Instance layout_reads : MergeReads Layout format_float json_float.
Proof. split. intros d o k v raw Hok Hk He _. by apply layout_set. Qed.

#[export] Instance layout_rejects : MergeRejects Layout.
Proof.
  split. intros d p v H. cbn. enough (E : rejected p = true) by (rewrite E; by destruct d, (encode format_float json_float v)).
  rewrite splitPath_spec in H. unfold rejected. destruct (p =s "") eqn:E; [done|]. by apply (split_rejects p "" false true).
Qed.
End Layouts.

(** ** Examples *)

Definition zero_float (_ : float64) : string := "0".
#[local] Existing Instance layout_docs.
#[local] Instance demo_docs : MergeDocs Layout := layout_docs zero_float zero_float.

Definition str (s : string) : string := AppendStringify "" s.
Definition obj1 (k raw : string) (v : GVal) : Layout := LObj (build (mkObj [] "{}") [(k, raw, v)]).
Definition nested (k x s : string) : Layout := obj1 k ("{" ++ str x ++ ":" ++ str s ++ "}") (VMap {[ x := VStr s ]}).

Example merge_demo :
  let src := LObj (build (mkObj [] "{ }") [("t", str "u", VStr "u"); ("p", ("{" ++ str "x" ++ ":" ++ str "1" ++ "}")%string, VMap {[ "x" := VStr "1" ]})]) in
  mergeJSONFast zero_float zero_float src (nested "p" "y" "2") =
  Some ("{" ++ str "p" ++ ":{" ++ str "x" ++ ":" ++ str "1" ++ "," ++ str "y" ++ ":" ++ str "2" ++ "}," ++ str "t" ++ ":" ++ str "u" ++ " }")%string.
Proof. vm_compute. reflexivity. Qed.

Lemma MergeJSON_is_slow_witness :
  MergeJSON zero_float zero_float (nested "p" "x" "1") (nested "q" "y" "2") =
  (("{" ++ str "q" ++ ":{" ++ str "y" ++ ":" ++ str "2" ++ "}," ++ str "p" ++ ":{" ++ str "x" ++ ":" ++ str "1" ++ "}}")%string, None).
Proof.
  rewrite (MergeJSON_is_slow zero_float zero_float); [vm_compute; reflexivity|].
  intros o [= <-]. by repeat constructor.
Defined.

Lemma holds_obj1 k raw v : plainMergeKey k = true -> clean v -> holds (obj1 k raw v) {[ k := v ]}.
Proof.
  intros Hk Hv. eexists. split; [|split].
  - unfold ok, obj1. cbn [d_object]. split_and!; [..|reflexivity| |].
    + apply obj_okb_ok, build_ok. split; [|constructor]. by exists "}".
    + apply obj_ok_brace, build_ok. split; [|constructor]. by exists "}".
    + by repeat constructor.
    + by apply NoDup_singleton.
  - reflexivity.
  - by intros k' v' [<- <-]%lookup_singleton_Some.
Qed.

Lemma clean_singleton x v : utf8_valid x = true -> clean v -> clean (VMap {[ x := v ]}).
Proof. intros Hx Hv. constructor. by intros x' v' [<- <-]%lookup_singleton_Some. Qed.

Lemma holds_nested k x s :
  plainMergeKey k = true -> utf8_valid x = true -> utf8_valid s = true ->
  holds (nested k x s) {[ k := VMap {[ x := VStr s ]} ]}.
Proof. intros Hk Hx Hs. apply holds_obj1; [done|]. apply clean_singleton; [done|by constructor]. Qed.

Lemma scope_order_witness :
  let raw := nested "e" "n" "0" in let a := nested "p" "x" "1" in let c := nested "p" "y" "2" in
  exists env, holds (merge_scope raw [a; c]) env /\ holds (merge_scope raw [c; a]) env.
Proof.
  intros raw a c.
  assert (Hr : holds raw {[ "e" := VMap {[ "n" := VStr "0" ]} ]}) by (by apply holds_nested).
  assert (Ha : holds a {[ "p" := VMap {[ "x" := VStr "1" ]} ]}) by (by apply holds_nested).
  assert (Hc : holds c {[ "p" := VMap {[ "y" := VStr "2" ]} ]}) by (by apply holds_nested).
  assert (Hn : forall v, no_conflict {[ "e" := VMap {[ "n" := VStr "0" ]} ]} {[ "p" := VMap v ]}).
  { intros v k w [<- <-]%lookup_singleton_Some. intros Hc'. rewrite lookup_singleton_ne in Hc' by done. by destruct Hc'. }
  apply (scope_order zero_float zero_float raw _
    [(a, {[ "p" := VMap {[ "x" := VStr "1" ]} ]}); (c, {[ "p" := VMap {[ "y" := VStr "2" ]} ]})]
    [(c, {[ "p" := VMap {[ "y" := VStr "2" ]} ]}); (a, {[ "p" := VMap {[ "x" := VStr "1" ]} ]})] Hr).
  - constructor; [split; [exact Ha|apply Hn]|]. constructor; [split; [exact Hc|apply Hn]|constructor].
  - constructor; [|constructor; constructor]. constructor; [|constructor]. constructor.
    cbn [snd]. intros k v1 v2 [<- <-]%lookup_singleton_Some [_ <-]%lookup_singleton_Some. constructor.
    by intros k v1 v2 [<- <-]%lookup_singleton_Some [? _]%lookup_singleton_Some.
  - apply Permutation_swap.
Defined.

Lemma non_object_wipes_witness :
  let raw := nested "tenant" "id" "acme" in let next := nested "q" "y" "2" in
  d_text (merge_scope raw [LText "[1]"]) = "" /\ merge_scope raw [LText "[1]"; next] = next.
Proof.
  intros raw next.
  apply (non_object_wipes zero_float zero_float raw (LText "[1]") next); try reflexivity; vm_compute; discriminate.
Defined.

(** The key [a*]. *)
Example bad_key_demo :
  let bad := obj1 "a*" "1" (VStr "1") in let next := nested "q" "y" "2" in
  merge_scope (nested "e" "n" "0") [bad; next] = next /\ merge_scope (nested "e" "n" "0") [next; bad] = LNone.
Proof. split; reflexivity. Qed.

Definition listed (k x s : string) : Layout :=
  obj1 k ("{" ++ str x ++ ":[" ++ str s ++ "]}") (VMap {[ x := VArr [VStr s] ]}).

Example nested_array_demo :
  MergeJSON zero_float zero_float (nested "p" "x" "1") (listed "p" "x" "2") =
  (("{" ++ str "p" ++ ":{" ++ str "x" ++ ":null}}")%string, None).
Proof. vm_compute. reflexivity. Qed.

Lemma nested_array_lost_witness :
  exists env' m, holds (merge_response (nested "p" "x" "1") (listed "p" "x" "2")) env' /\
    env' !! "p" = Some (VMap m) /\ m !! "x" = Some VNull.
Proof.
  apply (nested_array_lost zero_float zero_float (nested "p" "x" "1") (listed "p" "x" "2")
    {[ "p" := VMap {[ "x" := VStr "1" ]} ]} {[ "p" := VMap {[ "x" := VArr [VStr "2"] ]} ]}
    "p" {[ "x" := VArr [VStr "2"] ]} {[ "x" := VStr "1" ]} "x" [VStr "2"] (VStr "1")); try reflexivity.
  - by apply holds_nested.
  - apply holds_obj1; [done|]. apply clean_singleton; [done|]. by repeat constructor.
  - intros k w [<- <-]%lookup_singleton_Some. cbn. tauto.
Defined.
