(* ===== verification/ContStore.v ===== *)
(** * The continuation store (chassis/continuation/store.go)

    Documents are immutable and the only coordination is create-if-absent.  An
    operation is a [Prog], a tree of store calls, clock reads and random names
    with what the code does next; it runs against a store that other goroutines
    use too, one call at a time ([step], [pstep]). *)

From Stdlib Require Import Ascii String ZArith Lia Bool.
From stdpp Require Import base tactics list strings gmap sorting relations.
From S2P Require Import Prelude GoStrings GoStrconv.

(** ** Documents *)

(** A time is a number of nanoseconds since Go's zero time. *)
Definition Time : Type := Z.

Record RunCreated := mkRunCreated {
  rc_RunID : string; rc_RunContinuationID : string; rc_TenantID : string; rc_Stack : string;
  rc_StackVersionID : string; rc_FirstStage : string; rc_OriginRID : string;
  rc_CreatedAt : Time; rc_ExpiresAt : Time }.

Record requestContinuationLookup := mkRequestLookup { rl_RunID : string; rl_RunContinuationID : string }.
Record runContinuationLookup := mkRunLookup { rcl_RunID : string }.

Record OpContinuationLookup := mkOpLookup {
  ol_RunID : string; ol_Stage : string; ol_Op : string; ol_Ordinal : Z; ol_TokenHash : string;
  ol_ExpiresAt : Time; ol_Deferred : bool }.

Record OpManifestEntry := mkEntry { me_Ordinal : Z; me_Op : string; me_Async : bool; me_OpContinuationID : string }.

Record StageSuspended := mkSuspended {
  ss_Stage : string; ss_ScopeEnvelope : string; ss_Manifest : list OpManifestEntry;
  ss_StackVersion : string; ss_SuspendedAt : Time }.

Record opCreated := mkOpCreated {
  oc_Ordinal : Z; oc_Op : string; oc_Async : bool; oc_OpContinuationID : string; oc_InputKey : string;
  oc_CreatedAt : Time }.

(** The model facts of a step ([trace.ModelFacts]) are kept as their JSON. *)
Record TerminalMeta := mkMeta {
  tm_Transport : string; tm_FuelUsed : Z; tm_StartedAt : Time; tm_FinishedAt : Time;
  tm_Operation : string; tm_Model : option string; tm_StackVersion : Z }.

Record OpTerminal := mkTerminal {
  ot_Status : string; ot_OutputKey : string; ot_ErrorKey : string; ot_RecordedAt : Time; ot_Meta : TerminalMeta }.

Record DeferredOpCreated := mkDeferred {
  dc_OpContinuationID : string; dc_Op : string; dc_Ordinal : Z; dc_JoinAtScope : Z; dc_Dest : string;
  dc_DispatchStage : string; dc_InputKey : string; dc_ExpiresAt : Time; dc_CreatedAt : Time }.

Record PendingJoin := mkJoin {
  pj_OpContinuationID : string; pj_Op : string; pj_Ordinal : Z; pj_JoinAtScope : Z; pj_Dest : string;
  pj_DispatchStack : string }.

(** What is stored at a key: a payload, or the JSON of one of the records.  A
    document read as another kind than it was written as does not decode. *)
Inductive Doc :=
  | DBytes (bytes : string)
  | DRunCreated (d : RunCreated)
  | DRunLookup (d : runContinuationLookup)
  | DRequestLookup (d : requestContinuationLookup)
  | DOpLookup (d : OpContinuationLookup)
  | DSuspended (d : StageSuspended)
  | DOpCreated (d : opCreated)
  | DTerminal (d : OpTerminal)
  | DDeferred (d : DeferredOpCreated)
  | DJoin (d : PendingJoin)
  | DAccepted (worker_job_id : string) (accepted_at : Time)
  | DClaim (claimed_at : Time)
  | DFailed (reason : string) (failed_at : Time)
  | DJoined (joined_at : Time)
  | DSuspendedAt (stage : string) (at_ : Time)
  | DEvent (ts : Time) (kind : string) (fields : list (string * string)).

Inductive StoreErr := ErrExists | ErrNotFound | ErrIO (text : string).

(** ** Programs over the store *)

Inductive Prog (A : Type) :=
  | Ret (x : A)
  | SCreate (key : string) (d : Doc) (k : option StoreErr -> Prog A)
  | SGet (key : string) (k : Doc + StoreErr -> Prog A)
  | SExists (key : string) (k : bool + StoreErr -> Prog A)
  | SList (pre : string) (k : list string + StoreErr -> Prog A)
  | SDelete (key : string) (k : option StoreErr -> Prog A)
  | Now (k : Time -> Prog A)
  | Fresh (k : string -> Prog A)                   (** [hxid.New] *)
  | Rand (k : string + StoreErr -> Prog A).        (** [crypto/rand] *)
Arguments Ret {A} x.
Arguments SCreate {A} key d k.
Arguments SGet {A} key k.
Arguments SExists {A} key k.
Arguments SList {A} pre k.
Arguments SDelete {A} key k.
Arguments Now {A} k.
Arguments Fresh {A} k.
Arguments Rand {A} k.

Fixpoint bind {A B} (p : Prog A) (f : A -> Prog B) : Prog B :=
  match p with
  | Ret x => f x
  | SCreate key d k => SCreate key d (fun r => bind (k r) f)
  | SGet key k => SGet key (fun r => bind (k r) f)
  | SExists key k => SExists key (fun r => bind (k r) f)
  | SList pre k => SList pre (fun r => bind (k r) f)
  | SDelete key k => SDelete key (fun r => bind (k r) f)
  | Now k => Now (fun t => bind (k t) f)
  | Fresh k => Fresh (fun x => bind (k x) f)
  | Rand k => Rand (fun r => bind (k r) f)
  end.

Declare Scope prog_scope.
Delimit Scope prog_scope with prog.
Notation "'do!' x <- p ; q" := (bind p (fun x => q)) (at level 10, x name, p at level 100, q at level 200) : prog_scope.
Open Scope prog_scope.

Definition Create (key : string) (d : Doc) : Prog (option StoreErr) := SCreate key d Ret.
Definition Get (key : string) : Prog (Doc + StoreErr) := SGet key Ret.
Definition Exists_ (key : string) : Prog (bool + StoreErr) := SExists key Ret.
Definition List_ (pre : string) : Prog (list string + StoreErr) := SList pre Ret.
Definition Delete (key : string) : Prog (option StoreErr) := SDelete key Ret.
Definition now_ : Prog Time := Now Ret.
Definition hxid_New : Prog string := Fresh Ret.
Definition rand : Prog (string + StoreErr) := Rand Ret.

(** ** What a call does *)

Abbreviation Store := (gmap string Doc).

(** The keys under a prefix: the prefix itself or below it. *)
Definition under_key (pre key : string) : bool := (key =s pre) || HasPrefix key (pre ++ "/").
Definition listing (pre : string) (s : Store) : list string :=
  merge_sort string_le (filter (fun key => under_key (TrimSlashes pre) key = true) (map_to_list s).*1).

Section Steps.
Context {A : Type}.

(** One call of one goroutine; [faults] says whether a call may fail. *)
Inductive step (faults : bool) : Prog A -> Store -> Prog A -> Store -> Prop :=
  | step_create key d k s : s !! key = None -> step faults (SCreate key d k) s (k None) (<[key := d]> s)
  | step_refuse key d k s : is_Some (s !! key) -> step faults (SCreate key d k) s (k (Some ErrExists)) s
  | step_create_fail key d k s e : faults = true -> step faults (SCreate key d k) s (k (Some (ErrIO e))) s
  | step_get key k s :
      step faults (SGet key k) s (k (match s !! key with Some d => inl d | None => inr ErrNotFound end)) s
  | step_get_fail key k s e : faults = true -> step faults (SGet key k) s (k (inr (ErrIO e))) s
  | step_exists key k s : step faults (SExists key k) s (k (inl (bool_decide (is_Some (s !! key))))) s
  | step_exists_fail key k s e : faults = true -> step faults (SExists key k) s (k (inr (ErrIO e))) s
  | step_list pre k s keys : keys ≡ₚ listing pre s -> step faults (SList pre k) s (k (inl keys)) s
  | step_list_fail pre k s e : faults = true -> step faults (SList pre k) s (k (inr (ErrIO e))) s
  | step_delete key k s : step faults (SDelete key k) s (k None) (delete key s)
  | step_delete_fail key k s e : faults = true -> step faults (SDelete key k) s (k (Some (ErrIO e))) s
  | step_now t k s : step faults (Now k) s (k t) s
  | step_fresh x k s : step faults (Fresh k) s (k x) s
  | step_rand x k s : step faults (Rand k) s (k (inl x)) s
  | step_rand_fail k s e : faults = true -> step faults (Rand k) s (k (inr (ErrIO e))) s.

(** Goroutines and the store they share. *)
Definition Sys : Type := list (Prog A) * Store.

Inductive pstep (faults : bool) : Sys -> Sys -> Prop :=
  | pstep_at i ps p p' s s' :
      ps !! i = Some p -> step faults p s p' s' -> pstep faults (ps, s) (<[i := p']> ps, s').

(** ** A scheduler *)

(** One call without a fault, with the clock and the random name of turn [t]. *)
Definition exec (t : nat) (p : Prog A) (s : Store) : option (Prog A * Store) :=
  match p with
  | Ret _ => None
  | SCreate key d k => Some (match s !! key with None => (k None, <[key := d]> s) | Some _ => (k (Some ErrExists), s) end)
  | SGet key k => Some (k (match s !! key with Some d => inl d | None => inr ErrNotFound end), s)
  | SExists key k => Some (k (inl (bool_decide (is_Some (s !! key)))), s)
  | SList pre k => Some (k (inl (listing pre s)), s)
  | SDelete key k => Some (k None, delete key s)
  | Now k => Some (k (Z.of_nat t), s)
  | Fresh k => Some (k (Itoa (Z.of_nat t)), s)
  | Rand k => Some (k (inl (Itoa (Z.of_nat t))), s)
  end.

(** The goroutines take turns as the schedule says; a turn of a finished one is
    lost. *)
Fixpoint sched (t : nat) (turns : list nat) (c : Sys) : Sys :=
  match turns with
  | [] => c
  | i :: turns =>
      sched (S t) turns
        (match c.1 !! i with
         | Some p => match exec t p c.2 with Some (p', s') => (<[i := p']> c.1, s') | None => c end
         | None => c
         end)
  end.

(** One goroutine alone, to its end, with a clock that stands still. *)
Fixpoint alone (t : nat) (p : Prog A) (s : Store) : A * Store :=
  match p with
  | Ret x => (x, s)
  | SCreate key d k => match s !! key with None => alone t (k None) (<[key := d]> s) | Some _ => alone t (k (Some ErrExists)) s end
  | SGet key k => alone t (k (match s !! key with Some d => inl d | None => inr ErrNotFound end)) s
  | SExists key k => alone t (k (inl (bool_decide (is_Some (s !! key))))) s
  | SList pre k => alone t (k (inl (listing pre s))) s
  | SDelete key k => alone t (k None) (delete key s)
  | Now k => alone t (k (Z.of_nat t)) s
  | Fresh k => alone t (k (Itoa (Z.of_nat t))) s
  | Rand k => alone t (k (inl (Itoa (Z.of_nat t)))) s
  end.
End Steps.
Arguments Sys : clear implicits.

(** ** Lemmas *)

Lemma exec_step {A} faults t (p : Prog A) s p' s' : exec t p s = Some (p', s') -> step faults p s p' s'.
Proof.
  destruct p as [x|key d k|key k|key k|pre k|key k|k|k|k]; cbn; try done.
  - destruct (s !! key) as [d'|] eqn:E; intros [= <- <-]; [by apply step_refuse; rewrite E|by apply step_create].
  - intros [= <- <-]. apply step_get.
  - intros [= <- <-]. apply step_exists.
  - intros [= <- <-]. by apply step_list.
  - intros [= <- <-]. apply step_delete.
  - intros [= <- <-]. apply step_now.
  - intros [= <- <-]. apply step_fresh.
  - intros [= <- <-]. apply step_rand.
Qed.

(** A schedule is one of the interleavings. *)
Lemma sched_steps {A} faults t turns (c : Sys A) : rtc (pstep faults) c (sched t turns c).
Proof.
  revert t c; induction turns as [|i turns IH]; intros t [ps s]; [done|]. cbn [sched fst snd].
  destruct (ps !! i) as [p|] eqn:Ei; [|apply IH]. destruct (exec t p s) as [[p' s']|] eqn:Ee; [|apply IH].
  eapply rtc_l; [|apply IH]. by eapply pstep_at, exec_step.
Qed.

(** The program deletes nothing and creates only keys with [P]. *)
Fixpoint only {A} (P : string -> Prop) (p : Prog A) : Prop :=
  match p with
  | Ret _ => True
  | SCreate key _ k => P key /\ forall r, only P (k r)
  | SGet _ k => forall r, only P (k r)
  | SExists _ k => forall r, only P (k r)
  | SList _ k => forall r, only P (k r)
  | SDelete _ _ => False
  | Now k => forall t, only P (k t)
  | Fresh k => forall x, only P (k x)
  | Rand k => forall r, only P (k r)
  end.

Lemma only_bind {A B} P (p : Prog A) (f : A -> Prog B) : only P p -> (forall x, only P (f x)) -> only P (bind p f).
Proof. intros Hp Hf. induction p; cbn in *; auto. destruct Hp. auto. Qed.

(** Without a [Delete] the store only grows. *)
Lemma step_keeps {A} P faults (p : Prog A) s p' s' : only P p -> step faults p s p' s' -> only P p' /\ s ⊆ s'.
Proof.
  intros Hp H. destruct H; cbn in Hp; split; try done; try by apply Hp. by apply insert_subseteq.
Qed.

Lemma pstep_keeps {A} P faults (c c' : Sys A) :
  Forall (only P) c.1 -> pstep faults c c' -> Forall (only P) c'.1 /\ c.2 ⊆ c'.2.
Proof.
  intros Hd H. destruct H as [i ps p p' s s' Hi H]. cbn in *.
  destruct (step_keeps _ _ _ _ _ _ (Forall_lookup_1 _ _ _ _ Hd Hi) H) as [Hp Hs]. split; [|done]. by apply Forall_insert.
Qed.

Lemma psteps_keeps {A} P faults (c c' : Sys A) :
  Forall (only P) c.1 -> rtc (pstep faults) c c' -> Forall (only P) c'.1 /\ c.2 ⊆ c'.2.
Proof.
  intros Hd H. induction H as [c|c1 c2 c3 H1 _ IH]; [done|]. destruct (pstep_keeps _ _ _ _ Hd H1) as [Hd2 Hs].
  destruct (IH Hd2) as [Hd3 Hs2]. split; [done|by etrans].
Qed.

Lemma alone_bind {A B} t (p : Prog A) (f : A -> Prog B) s :
  alone t (bind p f) s = alone t (f (alone t p s).1) (alone t p s).2.
Proof.
  revert s; induction p as [x|key d k IH|key k IH|key k IH|pre k IH|key k IH|k IH|k IH|k IH]; intros s; cbn; auto.
  destruct (s !! key); auto.
Qed.
