(* ===== verification/Runs.v ===== *)
(** * Suspended runs (chassis/continuation/runs.go, deferred.go)

    The operations on suspended runs, each a [Prog] over the continuation store:
    creating a run, suspending a stage, recording the result of an op, claiming
    the resume, deferred joins, purging, and the state derived from which
    documents exist. *)

From Stdlib Require Import Ascii String ZArith Lia Bool.
From stdpp Require Import base tactics list strings gmap sorting.
From S2P Require Import Prelude GoStrings GoStrconv GoJson ContStore.

#[local] Open Scope string_scope.

Inductive Err := EStore (e : StoreErr) | EDecode | EBadStatus (status : string).

(** ** Keys *)

Definition runContinuationKey (rcid : string) : string := "run-continuations/" ++ rcid ++ ".json".
Definition opContinuationKey (opc : string) : string := "op-continuations/" ++ opc ++ ".json".
Definition runDir (runID : string) : string := "runs/" ++ runID.
Definition runCreatedKey (runID : string) : string := runDir runID ++ "/run-created.json".
Definition requestContinuationKey (rid : string) : string := "request-continuations/" ++ rid ++ ".json".
Definition opstackSnapshotKey (runID : string) : string := runDir runID ++ "/opstack-snapshot.json".
Definition resultKey (runID : string) : string := runDir runID ++ "/result.json".
Definition runFailedKey (runID : string) : string := runDir runID ++ "/failed.json".
Definition stageDir (runID stage : string) : string := runDir runID ++ "/stages/" ++ stage.
Definition stageSuspendedKey (runID stage : string) : string := stageDir runID stage ++ "/stage-suspended.json".
Definition stageFailedKey (runID stage : string) : string := stageDir runID stage ++ "/stage-failed.json".
Definition resumeClaimKey (runID stage : string) : string := stageDir runID stage ++ "/resume-claim.json".

(** [%0wd] *)
Definition zeros (n : nat) : string := foldr (fun _ s => String "0" s) "" (List.seq 0 n).
Definition pad (w : nat) (n : Z) : string :=
  if (n <? 0)%Z then "-" ++ zeros (w - 1 - slen (Itoa (- n))) ++ Itoa (- n)
  else zeros (w - slen (Itoa n)) ++ Itoa n.

Definition opDir (runID stage : string) (ordinal : Z) (op : string) : string :=
  stageDir runID stage ++ "/ops/" ++ pad 4 ordinal ++ "-" ++ op.
Definition opCreatedKey runID stage ordinal op : string := opDir runID stage ordinal op ++ "/op-created.json".
Definition opAcceptedKey runID stage ordinal op : string := opDir runID stage ordinal op ++ "/op-accepted.json".
Definition opTerminalKey runID stage ordinal op : string := opDir runID stage ordinal op ++ "/op-terminal.json".
Definition opInputKey runID stage ordinal op : string := opDir runID stage ordinal op ++ "/input.json".
Definition opOutputKey runID stage ordinal op : string := opDir runID stage ordinal op ++ "/output.json".
Definition opErrorKey runID stage ordinal op : string := opDir runID stage ordinal op ++ "/error.json".

Definition deferredDir (runID opc : string) : string := runDir runID ++ "/deferred/" ++ opc.
Definition deferredCreatedKey runID opc : string := deferredDir runID opc ++ "/deferred-created.json".
Definition deferredInputKey runID opc : string := deferredDir runID opc ++ "/input.json".
Definition deferredTerminalKey runID opc : string := deferredDir runID opc ++ "/terminal.json".
Definition deferredOutputKey runID opc : string := deferredDir runID opc ++ "/output.json".
Definition deferredErrorKey runID opc : string := deferredDir runID opc ++ "/error.json".
Definition pendingJoinsDir (runID : string) : string := runDir runID ++ "/pending-joins/".
Definition pendingJoinKey runID opc : string := pendingJoinsDir runID ++ opc ++ ".json".
Definition deferredJoinedKey runID opc : string := deferredDir runID opc ++ "/joined.json".
Definition deferredSuspendedAtKey runID opc : string := deferredDir runID opc ++ "/suspended-at.json".

Arguments runContinuationKey : simpl never.
Arguments opContinuationKey : simpl never.
Arguments runDir : simpl never.
Arguments runCreatedKey : simpl never.
Arguments requestContinuationKey : simpl never.
Arguments opstackSnapshotKey : simpl never.
Arguments resultKey : simpl never.
Arguments runFailedKey : simpl never.
Arguments stageDir : simpl never.
Arguments stageSuspendedKey : simpl never.
Arguments stageFailedKey : simpl never.
Arguments resumeClaimKey : simpl never.
Arguments opDir : simpl never.
Arguments opCreatedKey : simpl never.
Arguments opAcceptedKey : simpl never.
Arguments opTerminalKey : simpl never.
Arguments opInputKey : simpl never.
Arguments opOutputKey : simpl never.
Arguments opErrorKey : simpl never.
Arguments deferredDir : simpl never.
Arguments deferredCreatedKey : simpl never.
Arguments deferredInputKey : simpl never.
Arguments deferredTerminalKey : simpl never.
Arguments deferredOutputKey : simpl never.
Arguments deferredErrorKey : simpl never.
Arguments pendingJoinsDir : simpl never.
Arguments pendingJoinKey : simpl never.
Arguments deferredJoinedKey : simpl never.
Arguments deferredSuspendedAtKey : simpl never.

(** ** Trace identities *)

Definition rid_byte (c : ascii) : bool := is_upper c || is_lower c || is_dec c || (c =c "_") || (c =c "-").
(** [strings.Map] over runes: every rune that is not a permitted byte becomes
    one underscore. *)
Definition sanitizeStageForRID (s : string) : string :=
  runes_from (fun r => match r with String c "" => if rid_byte c then r else "_" | _ => "_" end) "_" 0 s.

Definition ResumeTraceRID (runID stage : string) : string :=
  "resume-" ++ runID ++ "-" ++ sanitizeStageForRID stage.


Definition ParseResumeTraceRID (rid : string) : option string :=
  if HasPrefix rid "resume-" then
    let rest := TrimPrefix rid "resume-" in
    match IndexByte rest "-" with
    | Some (S i) => Some (stake (S i) rest)
    | _ => None
    end
  else None.

(** ** Helpers *)

Definition ignoreExists (e : option StoreErr) : option StoreErr :=
  match e with Some ErrExists => None | e => e end.

(** [ignoreExists(r.createJSON(...))], as an error. *)
Definition create_ignoring (key : string) (d : Doc) : Prog (option Err) :=
  do! e <- Create key d; Ret (EStore <$> ignoreExists e).

(** The outcome of a create that only one caller can win. *)
Definition create_won (key : string) (d : Doc) : Prog (bool + Err) :=
  do! e <- Create key d;
  Ret (match e with None => inl true | Some ErrExists => inl false | Some e => inr (EStore e) end).

(** [Get] and [json.Unmarshal]. *)
Definition get_as {A} (dec : Doc -> option A) (key : string) : Prog (A + Err) :=
  do! r <- Get key;
  Ret (match r with
       | inr e => inr (EStore e)
       | inl d => match dec d with Some x => inl x | None => inr EDecode end
       end).

Definition as_run d := match d with DRunCreated x => Some x | _ => None end.
Definition as_suspended d := match d with DSuspended x => Some x | _ => None end.
Definition as_terminal d := match d with DTerminal x => Some x | _ => None end.
Definition as_op_created d := match d with DOpCreated x => Some x | _ => None end.
Definition as_op_lookup d := match d with DOpLookup x => Some x | _ => None end.
Definition as_run_lookup d := match d with DRunLookup x => Some x | _ => None end.
Definition as_request_lookup d := match d with DRequestLookup x => Some x | _ => None end.
Definition as_join d := match d with DJoin x => Some x | _ => None end.
Definition as_claim d := match d with DClaim x => Some x | _ => None end.
Definition as_suspended_at d := match d with DSuspendedAt st _ => Some st | _ => None end.

(** ** Run, stage and op lifecycle *)

Definition newRunID : Prog string := do! x <- hxid_New; Ret ("run_" ++ x).
Definition randID (prefix : string) : Prog (string + StoreErr) :=
  do! r <- rand; Ret (match r with inl x => inl (prefix ++ x) | inr e => inr e end).
Definition NewOpContinuationID : Prog (string + StoreErr) := randID "opc_".

Definition CreateRun (tenantID stack stackVersionID firstStage originRID : string) (expires : Time) : Prog ((string * string) + Err) :=
  do! runID <- newRunID;
  do! r <- randID "rc_";
  match r with
  | inr e => Ret (inr (EStore e))
  | inl rcid =>
      do! t <- now_;
      do! e <- Create (runCreatedKey runID) (DRunCreated (mkRunCreated runID rcid tenantID stack stackVersionID firstStage originRID t expires));
      match e with
      | Some e => Ret (inr (EStore e))
      | None =>
          do! e <- Create (runContinuationKey rcid) (DRunLookup (mkRunLookup runID));
          match e with
          | Some e => Ret (inr (EStore e))
          | None =>
              if originRID =s "" then Ret (inl (runID, rcid))
              else
                do! e <- create_ignoring (requestContinuationKey originRID) (DRequestLookup (mkRequestLookup runID rcid));
                Ret (match e with Some e => inr e | None => inl (runID, rcid) end)
          end
      end
  end.

Definition SuspendStage (runID stage scopeEnvelope stackVersionID : string) (manifest : list OpManifestEntry) : Prog (option Err) :=
  do! t <- now_;
  create_ignoring (stageSuspendedKey runID stage) (DSuspended (mkSuspended stage scopeEnvelope manifest stackVersionID t)).

Record OpRecordSpec := mkSpec {
  sp_Ordinal : Z; sp_Op : string; sp_Async : bool; sp_OpContinuationID : string; sp_TokenHash : string;
  sp_Input : string; sp_ExpiresAt : Time }.

Fixpoint CreateOpRecords (runID stage : string) (specs : list OpRecordSpec) : Prog (option Err) :=
  match specs with
  | [] => Ret None
  | sp :: specs =>
      let ik := opInputKey runID stage (sp_Ordinal sp) (sp_Op sp) in
      do! e <- create_ignoring ik (DBytes (sp_Input sp));
      match e with
      | Some e => Ret (Some e)
      | None =>
          do! t <- now_;
          do! e <- create_ignoring (opCreatedKey runID stage (sp_Ordinal sp) (sp_Op sp))
                     (DOpCreated (mkOpCreated (sp_Ordinal sp) (sp_Op sp) (sp_Async sp) (sp_OpContinuationID sp) ik t));
          match e with
          | Some e => Ret (Some e)
          | None =>
              if sp_Async sp then
                do! e <- create_ignoring (opContinuationKey (sp_OpContinuationID sp))
                           (DOpLookup (mkOpLookup runID stage (sp_Op sp) (sp_Ordinal sp) (sp_TokenHash sp) (sp_ExpiresAt sp) false));
                match e with Some e => Ret (Some e) | None => CreateOpRecords runID stage specs end
              else CreateOpRecords runID stage specs
          end
      end
  end.

Definition RecordAccepted (runID stage : string) (ordinal : Z) (op workerJobID : string) : Prog (option Err) :=
  do! t <- now_; create_ignoring (opAcceptedKey runID stage ordinal op) (DAccepted workerJobID t).

(** [meta.terminal(status)] *)
Definition terminal (m : TerminalMeta) (status : string) (t : Time) : OpTerminal := mkTerminal status "" "" t m.

(** The shared body of [RecordTerminal] and [RecordDeferredTerminal]: the payload
    first, then the document that names it. *)
Definition record_terminal (outputKey errorKey terminalKey status : string) (meta : TerminalMeta) (payload : string) : Prog (bool + Err) :=
  do! t <- now_;
  if status =s "completed" then
    do! e <- create_ignoring outputKey (DBytes payload);
    match e with
    | Some e => Ret (inr e)
    | None => create_won terminalKey (DTerminal (mkTerminal status outputKey "" t meta))
    end
  else if status =s "failed" then
    do! e <- create_ignoring errorKey (DBytes payload);
    match e with
    | Some e => Ret (inr e)
    | None => create_won terminalKey (DTerminal (mkTerminal status "" errorKey t meta))
    end
  else Ret (inr (EBadStatus status)).

Definition RecordTerminal (runID stage : string) (ordinal : Z) (op status : string) (meta : TerminalMeta) (payload : string) : Prog (bool + Err) :=
  record_terminal (opOutputKey runID stage ordinal op) (opErrorKey runID stage ordinal op) (opTerminalKey runID stage ordinal op)
    status meta payload.

Definition ReadStageSuspended (runID stage : string) : Prog (StageSuspended + Err) := get_as as_suspended (stageSuspendedKey runID stage).
Definition ReadOpTerminal (runID stage : string) (ordinal : Z) (op : string) : Prog (OpTerminal + Err) :=
  get_as as_terminal (opTerminalKey runID stage ordinal op).

Definition WriteOpstackSnapshot (runID snapshot : string) : Prog (option Err) := create_ignoring (opstackSnapshotKey runID) (DBytes snapshot).
Definition ReadOpstackSnapshot (runID : string) : Prog (Doc + StoreErr) := Get (opstackSnapshotKey runID).

Definition ClaimResume (runID stage : string) : Prog (bool + Err) :=
  do! t <- now_; create_won (resumeClaimKey runID stage) (DClaim t).

Definition WriteResult (runID finalEnvelope : string) : Prog (option Err) := create_ignoring (resultKey runID) (DBytes finalEnvelope).
Definition FailStage (runID stage reason : string) : Prog (option Err) :=
  do! t <- now_; create_ignoring (stageFailedKey runID stage) (DFailed reason t).
Definition FailRun (runID reason : string) : Prog (option Err) :=
  do! t <- now_; create_ignoring (runFailedKey runID) (DFailed reason t).

(** [None] when the run has no result yet. *)
Definition ReadResult (runID : string) : Prog (option Doc + Err) :=
  do! r <- Get (resultKey runID);
  Ret (match r with inl d => inl (Some d) | inr ErrNotFound => inl None | inr e => inr (EStore e) end).

Definition ReadResumeClaim (runID stage : string) : Prog (option Time + Err) :=
  do! r <- Get (resumeClaimKey runID stage);
  Ret (match r with
       | inr ErrNotFound => inl None
       | inr e => inr (EStore e)
       | inl d => match as_claim d with Some t => inl (Some t) | None => inr EDecode end
       end).

Definition ReadRunCreated (runID : string) : Prog (RunCreated + Err) := get_as as_run (runCreatedKey runID).
Definition ResolveOpContinuation (opc : string) : Prog (OpContinuationLookup + Err) := get_as as_op_lookup (opContinuationKey opc).
Definition ResolveRunContinuation (rcid : string) : Prog (string + Err) :=
  do! r <- get_as as_run_lookup (runContinuationKey rcid); Ret (match r with inl d => inl (rcl_RunID d) | inr e => inr e end).
Definition ResolveRequestContinuation (rid : string) : Prog (string + Err) :=
  do! r <- get_as as_request_lookup (requestContinuationKey rid); Ret (match r with inl d => inl (rl_RunID d) | inr e => inr e end).

(** ** Deferred joins *)

Record DeferredOpSpec := mkDeferredSpec {
  ds_OpContinuationID : string; ds_Op : string; ds_Ordinal : Z; ds_JoinAtScope : Z; ds_Dest : string;
  ds_DispatchStage : string; ds_DispatchStack : string; ds_TokenHash : string; ds_Input : string; ds_ExpiresAt : Time }.

Definition CreateDeferredOp (runID : string) (sp : DeferredOpSpec) : Prog (option Err) :=
  let opc := ds_OpContinuationID sp in
  let input := if ds_Input sp =s "" then "{}" else ds_Input sp in
  let ik := deferredInputKey runID opc in
  do! e <- create_ignoring ik (DBytes input);
  match e with
  | Some e => Ret (Some e)
  | None =>
      do! t <- now_;
      do! e <- create_ignoring (deferredCreatedKey runID opc)
                 (DDeferred (mkDeferred opc (ds_Op sp) (ds_Ordinal sp) (ds_JoinAtScope sp) (ds_Dest sp) (ds_DispatchStage sp) ik (ds_ExpiresAt sp) t));
      match e with
      | Some e => Ret (Some e)
      | None =>
          do! e <- create_ignoring (opContinuationKey opc)
                     (DOpLookup (mkOpLookup runID "" (ds_Op sp) (ds_Ordinal sp) (ds_TokenHash sp) (ds_ExpiresAt sp) true));
          match e with
          | Some e => Ret (Some e)
          | None =>
              create_ignoring (pendingJoinKey runID opc)
                (DJoin (mkJoin opc (ds_Op sp) (ds_Ordinal sp) (ds_JoinAtScope sp) (ds_Dest sp) (ds_DispatchStack sp)))
          end
      end
  end.

Definition RecordDeferredTerminal (runID opc status : string) (meta : TerminalMeta) (payload : string) : Prog (bool + Err) :=
  record_terminal (deferredOutputKey runID opc) (deferredErrorKey runID opc) (deferredTerminalKey runID opc) status meta payload.
Definition ReadDeferredTerminal (runID opc : string) : Prog (OpTerminal + Err) := get_as as_terminal (deferredTerminalKey runID opc).

Definition MarkJoined (runID opc : string) : Prog (bool + Err) :=
  do! t <- now_; create_won (deferredJoinedKey runID opc) (DJoined t).
Definition IsJoined (runID opc : string) : Prog (bool + StoreErr) := Exists_ (deferredJoinedKey runID opc).

Definition SetDeferredSuspendedAt (runID opc stage : string) : Prog (option Err) :=
  do! t <- now_; create_ignoring (deferredSuspendedAtKey runID opc) (DSuspendedAt stage t).
Definition ReadDeferredSuspendedAt (runID opc : string) : Prog (option string + Err) :=
  do! r <- Get (deferredSuspendedAtKey runID opc);
  Ret (match r with
       | inr ErrNotFound => inl None
       | inr e => inr (EStore e)
       | inl d => match as_suspended_at d with Some st => inl (Some st) | None => inr EDecode end
       end).

Definition HasSuffix (s suf : string) : bool := HasPrefix (srev s) (srev suf).

(** [for _, k := range keys]: the documents at the keys with the suffix, in the
    order of the listing; the first error ends the loop. *)
Fixpoint get_all {A} (dec : Doc -> option A) (suf : string) (keys : list string) : Prog (list A + Err) :=
  match keys with
  | [] => Ret (inl [])
  | k :: keys =>
      if HasSuffix k suf then
        do! r <- get_as dec k;
        match r with
        | inr e => Ret (inr e)
        | inl x => do! r <- get_all dec suf keys; Ret (match r with inl l => inl (x :: l) | inr e => inr e end)
        end
      else get_all dec suf keys
  end.

Definition ListPendingJoins (runID : string) : Prog (list PendingJoin + Err) :=
  do! r <- List_ (pendingJoinsDir runID);
  match r with inr e => Ret (inr (EStore e)) | inl keys => get_all as_join ".json" keys end.

(** ** Derived state *)

Inductive State := StateWaiting | StateResumable | StateCompleted | StateFailed.

(** The document whose existence says that an entry of a manifest is done. *)
Definition entry_key (runID stage : string) (m : OpManifestEntry) : string :=
  if me_OpContinuationID m =s "" then opTerminalKey runID stage (me_Ordinal m) (me_Op m)
  else deferredTerminalKey runID (me_OpContinuationID m).

Fixpoint entries_state (runID stage : string) (manifest : list OpManifestEntry) : Prog (State + Err) :=
  match manifest with
  | [] => Ret (inl StateResumable)
  | m :: manifest =>
      do! r <- Exists_ (entry_key runID stage m);
      match r with
      | inr e => Ret (inr (EStore e))
      | inl false => Ret (inl StateWaiting)
      | inl true => entries_state runID stage manifest
      end
  end.

(** [if ok, err := r.s.Exists(ctx, key); err != nil { ... } else if ok { return st }] *)
Definition if_exists (key : string) (st : State) (rest : Prog (State + Err)) : Prog (State + Err) :=
  do! r <- Exists_ key;
  match r with
  | inr e => Ret (inr (EStore e))
  | inl true => Ret (inl st)
  | inl false => rest
  end.

Definition StageState (runID stage : string) (manifest : list OpManifestEntry) : Prog (State + Err) :=
  if_exists (resultKey runID) StateCompleted
    (if_exists (runFailedKey runID) StateFailed
       (if_exists (stageFailedKey runID stage) StateFailed
          (entries_state runID stage manifest))).

(** The first of the documents with the greatest [SuspendedAt]. *)
Definition latest (l : list StageSuspended) : option StageSuspended :=
  foldl (fun cur d => match cur with
                      | None => Some d
                      | Some c => if (ss_SuspendedAt c <? ss_SuspendedAt d)%Z then Some d else Some c
                      end) None l.

Definition CurrentStage (runID : string) : Prog (option StageSuspended + Err) :=
  do! r <- List_ (runDir runID ++ "/stages");
  match r with
  | inr e => Ret (inr (EStore e))
  | inl keys =>
      do! r <- get_all as_suspended "/stage-suspended.json" keys;
      Ret (match r with inl l => inl (latest l) | inr e => inr e end)
  end.

Definition RunState (runID : string) : Prog (State + Err) :=
  if_exists (resultKey runID) StateCompleted
    (if_exists (runFailedKey runID) StateFailed
       (do! r <- CurrentStage runID;
        match r with
        | inr e => Ret (inr e)
        | inl (Some cur) => StageState runID (ss_Stage cur) (ss_Manifest cur)
        | inl None => if_exists (runCreatedKey runID) StateWaiting (Ret (inr (EStore ErrNotFound)))
        end)).

(** ** Audit events and trace links *)

(** The civil date of a number of days since 0001-01-01. *)
Definition leap (y : Z) : bool := ((y mod 4 =? 0) && (negb (y mod 100 =? 0) || (y mod 400 =? 0)))%Z.
Fixpoint month_day (ls : list Z) (m d : Z) : Z * Z :=
  match ls with
  | [] => (m, d + 1)%Z
  | l :: ls => if (d <? l)%Z then (m, d + 1)%Z else month_day ls (m + 1) (d - l)
  end.
Definition civil (days : Z) : Z * (Z * Z) :=
  let d1 := (days mod 146097)%Z in
  let n100 := Z.min 3 (d1 / 36524) in
  let d2 := (d1 - n100 * 36524)%Z in
  let d3 := (d2 mod 1461)%Z in
  let n1 := Z.min 3 (d3 / 365) in
  let y := (400 * (days / 146097) + 100 * n100 + 4 * (d2 / 1461) + n1 + 1)%Z in
  (y, month_day [31; if leap y then 29 else 28; 31; 30; 31; 30; 31; 31; 30; 31; 30; 31]%Z 1 (d3 - n1 * 365)).

(** [t.Format("20060102T150405.000000000Z")] *)
Definition stamp (t : Time) : string :=
  let sec := (t / Second)%Z in let tod := (sec mod 86400)%Z in
  let '(y, (m, d)) := civil (sec / 86400) in
  pad 4 y ++ pad 2 m ++ pad 2 d ++ "T" ++ pad 2 (tod / 3600) ++ pad 2 (tod / 60 mod 60) ++ pad 2 (tod mod 60) ++
  "." ++ pad 9 (t mod Second) ++ "Z".

Example stamp_ex : stamp (63843552000 * Second + 42)%Z = "20240215T000000.000000042Z".
Proof. vm_compute. reflexivity. Qed.

Definition AppendEvent (runID kind : string) (fields : list (string * string)) : Prog (option Err) :=
  do! r <- randID "";
  match r with
  | inr e => Ret (Some (EStore e))
  | inl suf =>
      do! ts <- now_;
      create_ignoring (runDir runID ++ "/events/" ++ stamp ts ++ "-" ++ suf ++ "-" ++ kind ++ ".json") (DEvent ts kind fields)
  end.

Record ResumeRef := mkRef { rr_RID : string; rr_Stage : string }.
Record TraceLinks := mkLinks {
  tl_RunID : string; tl_RunContinuationID : string; tl_OriginRID : string; tl_Resumes : list ResumeRef }.

(** The suspended stages that read; the others are skipped. *)
Fixpoint suspended_stages (keys : list string) : Prog (list string) :=
  match keys with
  | [] => Ret []
  | k :: keys =>
      if HasSuffix k "/stage-suspended.json" then
        do! r <- get_as as_suspended k;
        do! l <- suspended_stages keys;
        Ret (match r with inl d => ss_Stage d :: l | inr _ => l end)
      else suspended_stages keys
  end.

Definition ReadTraceLinks (runID : string) : Prog (TraceLinks + Err) :=
  do! r <- ReadRunCreated runID;
  match r with
  | inr e => Ret (inr e)
  | inl rc =>
      do! r <- List_ (runDir runID ++ "/stages");
      match r with
      | inr _ => Ret (inl (mkLinks runID (rc_RunContinuationID rc) (rc_OriginRID rc) []))
      | inl keys =>
          do! stages <- suspended_stages keys;
          Ret (inl (mkLinks runID (rc_RunContinuationID rc) (rc_OriginRID rc)
                      (map (fun st => mkRef (ResumeTraceRID runID st) st) (SortStrings stages))))
      end
  end.

(** ** Sweeper support *)

Definition run_id_of (key : string) : option string :=
  match Split key "/" with
  | d :: id :: _ => if (d =s "runs") && negb (id =s "") then Some id else None
  | _ => None
  end.

Fixpoint distinct_ids (seen : list string) (keys : list string) : list string :=
  match keys with
  | [] => []
  | k :: keys =>
      match run_id_of k with
      | Some id => if bool_decide (id ∈ seen) then distinct_ids seen keys else id :: distinct_ids (id :: seen) keys
      | None => distinct_ids seen keys
      end
  end.

Definition ListRunIDs : Prog (list string + Err) :=
  do! r <- List_ "runs";
  Ret (match r with inl keys => inl (distinct_ids [] keys) | inr e => inr (EStore e) end).

(** The handles of the run's op-created documents; one that does not read is
    skipped. *)
Fixpoint collect_opcs (keys : list string) : Prog (list string) :=
  match keys with
  | [] => Ret []
  | k :: keys =>
      if HasSuffix k "/op-created.json" then
        do! r <- get_as as_op_created k;
        do! opcs <- collect_opcs keys;
        Ret (match r with
             | inl oc => if oc_OpContinuationID oc =s "" then opcs else oc_OpContinuationID oc :: opcs
             | inr _ => opcs
             end)
      else collect_opcs keys
  end.

Fixpoint delete_all (keys : list string) (k : Prog (option Err)) : Prog (option Err) :=
  match keys with
  | [] => k
  | key :: keys =>
      do! e <- Delete key;
      match e with Some e => Ret (Some (EStore e)) | None => delete_all keys k end
  end.

(** The lookups of the run-created document. *)
Definition run_lookups (r : RunCreated + Err) : list string :=
  match r with
  | inr _ => []
  | inl rc =>
      (if rc_RunContinuationID rc =s "" then [] else [runContinuationKey (rc_RunContinuationID rc)]) ++
      (if rc_OriginRID rc =s "" then [] else [requestContinuationKey (rc_OriginRID rc)])
  end.

Definition PurgeRun (runID : string) : Prog (option Err) :=
  do! rc <- ReadRunCreated runID;
  do! r <- List_ (runDir runID);
  match r with
  | inr e => Ret (Some (EStore e))
  | inl runKeys =>
      do! opcs <- collect_opcs runKeys;
      delete_all (map opContinuationKey opcs) (delete_all (run_lookups rc) (delete_all runKeys (Ret None)))
  end.
