(* ===== verification/Callbacks.v ===== *)
(** * Completing and resuming a suspended stage

    What the goroutines around a suspended stage do with the store: a worker's
    callback (server/personality/web/continuation.go), the tail of an op the
    chassis runs itself after the request has gone (dispatchLocalAsync,
    finishContinuableDetached, dispatchLocalAsyncDeferred), the siblings of a
    barrier scope, the suspend of a deferred join and its race guard, and the
    reading of the terminals when the stage is resumed.  Each ends in an
    [Outcome]; [Resuming] is the call of [pu.Resume]. *)

From Stdlib Require Import Ascii String ZArith Lia Bool.
From stdpp Require Import base tactics list strings gmap sorting.
From S2P Require Import Prelude GoStrings GoStrconv ContStore Runs.

#[local] Open Scope string_scope.

Inductive Outcome :=
  | Resuming (runID stage : string)
  | Recorded                            (** 200, [recorded] *)
  | NotFound                            (** 404 *)
  | BadToken                            (** 401 *)
  | Failed (why : string)               (** 500, or an error logged *)
  | Finished.                           (** nothing left to do *)

Definition zero_meta : TerminalMeta := (mkMeta "" 0 0 0 "" None 0)%Z.

(** ** Trying to resume *)

(** Read the manifest, derive the state, claim. *)
Definition try_resume (runID stage : string) : Prog Outcome :=
  do! r <- ReadStageSuspended runID stage;
  match r with
  | inr _ => Ret (Failed "stage read failed")
  | inl ss =>
      do! st <- StageState runID stage (ss_Manifest ss);
      match st with
      | inr _ => Ret (Failed "state failed")
      | inl StateResumable =>
          do! w <- ClaimResume runID stage;
          Ret (match w with
               | inr _ => Failed "claim failed"
               | inl false => Recorded
               | inl true => Resuming runID stage
               end)
      | inl _ => Ret Recorded
      end
  end.

(** ** A worker's callback *)

(** The terminal of a worker's body: its [status], [output] and [error] fields. *)
Definition worker_terminal (status output error : string) : string * string :=
  if (status =s "failed") || (status =s "fail") then
    ("failed", if error =s "" then "{" ++ String "034" "error" ++ String "034" ":{" ++ String "034" "message" ++
               String "034" ":" ++ String "034" "worker reported failure" ++ String "034" "}}" else error)
  else ("completed", if output =s "" then "{}" else output).

Definition DriveDeferredResume (runID stage : string) : Prog Outcome := try_resume runID stage.

Definition handleDeferredComplete (opc : string) (lk : OpContinuationLookup) (status payload : string) : Prog Outcome :=
  do! r <- RecordDeferredTerminal (ol_RunID lk) opc status zero_meta payload;
  match r with
  | inr _ => Ret (Failed "record failed")
  | inl false => Ret Recorded
  | inl true =>
      do! r <- ReadDeferredSuspendedAt (ol_RunID lk) opc;
      match r with
      | inr _ => Ret (Failed "suspend lookup failed")
      | inl None => Ret Recorded
      | inl (Some stage) => DriveDeferredResume (ol_RunID lk) stage
      end
  end.

(** A barrier op's callback, after the lookup and the token. *)
Definition complete_op (lk : OpContinuationLookup) (status payload : string) : Prog Outcome :=
  do! r <- RecordTerminal (ol_RunID lk) (ol_Stage lk) (ol_Ordinal lk) (ol_Op lk) status zero_meta payload;
  match r with
  | inr _ => Ret (Failed "record failed")
  | inl false => Ret Recorded
  | inl true => try_resume (ol_RunID lk) (ol_Stage lk)
  end.

Section Callback.
(** [HashToken]: sha256 in hex. *)
Variable HashToken : string -> string.

Definition handleContinuationComplete (opc tok status output error : string) : Prog Outcome :=
  do! r <- ResolveOpContinuation opc;
  match r with
  | inr (EStore ErrNotFound) => Ret NotFound
  | inr _ => Ret (Failed "lookup failed")
  | inl lk =>
      if (tok =s "") || negb (HashToken tok =s ol_TokenHash lk) then Ret BadToken
      else
        let '(termStatus, payload) := worker_terminal status output error in
        if ol_Deferred lk then handleDeferredComplete opc lk termStatus payload
        else complete_op lk termStatus payload
  end.
End Callback.

(** ** Ops the chassis runs itself *)

(** The tail of [dispatchLocalAsync] and [finishContinuableDetached]: whether the
    terminal was the first is not looked at. *)
Definition finish_local (runID stage : string) (ordinal : Z) (name status : string) (meta : TerminalMeta) (payload : string) : Prog Outcome :=
  do! r <- RecordTerminal runID stage ordinal name status meta payload;
  match r with
  | inr _ => Ret (Failed "RecordTerminal failed")
  | inl _ => try_resume runID stage
  end.

(** The tail of [dispatchLocalAsyncDeferred]. *)
Definition finish_deferred (runID opc status : string) (meta : TerminalMeta) (payload : string) : Prog Outcome :=
  do! r <- RecordDeferredTerminal runID opc status meta payload;
  match r with
  | inr _ => Ret (Failed "RecordDeferredTerminal failed")
  | inl _ =>
      do! r <- ReadDeferredSuspendedAt runID opc;
      match r with
      | inl (Some stage) => DriveDeferredResume runID stage
      | _ => Ret Finished
      end
  end.

(** An op of a barrier scope that is not async, and a dispatch that failed: the
    terminal is recorded and that is all. *)
Definition record_sibling (runID stage : string) (ordinal : Z) (name status : string) (meta : TerminalMeta) (payload : string) : Prog Outcome :=
  do! _ <- RecordTerminal runID stage ordinal name status meta payload; Ret Finished.

(** ** The suspend of a barrier *)

(** The durable part of [suspendBarrierScope]: the stage and the records of its
    ops, before any of them is dispatched. *)
Definition suspend_barrier (runID cstage raw snapHash : string) (manifest : list OpManifestEntry) (specs : list OpRecordSpec) : Prog Outcome :=
  do! e <- SuspendStage runID cstage raw snapHash manifest;
  match e with
  | Some _ => Ret (Failed "suspend failed")
  | None =>
      do! e <- CreateOpRecords runID cstage specs;
      match e with
      | Some _ => Ret (Failed "suspend failed")
      | None =>
          do! _ <- AppendEvent runID "stage.suspended" [("stage", cstage); ("ops", Itoa (Z.of_nat (length manifest)))];
          Ret Finished
      end
  end.

(** ** The suspend of a deferred join *)

Definition ordinal_le (x y : OpManifestEntry) : Prop := (me_Ordinal x <= me_Ordinal y)%Z.
#[export] Instance ordinal_le_dec x y : Decision (ordinal_le x y) := decide (me_Ordinal x <= me_Ordinal y)%Z.

Definition join_manifest (waiting : list PendingJoin) : list OpManifestEntry :=
  merge_sort ordinal_le (map (fun pj => mkEntry (pj_Ordinal pj) (pj_Op pj) true (pj_OpContinuationID pj)) waiting).

Fixpoint note_suspended (runID joinStage : string) (waiting : list PendingJoin) (k : Prog Outcome) : Prog Outcome :=
  match waiting with
  | [] => k
  | pj :: waiting =>
      do! e <- SetDeferredSuspendedAt runID (pj_OpContinuationID pj) joinStage;
      match e with
      | Some _ => Ret (Failed "suspend failed")
      | None => note_suspended runID joinStage waiting k
      end
  end.

(** The goroutine the guard starts is what is left of this one. *)
Definition suspendForDeferredJoins (runID joinStage merged : string) (waiting : list PendingJoin) : Prog Outcome :=
  let manifest := join_manifest waiting in
  do! e <- SuspendStage runID joinStage merged "" manifest;
  match e with
  | Some _ => Ret (Failed "suspend failed")
  | None =>
      note_suspended runID joinStage waiting
        (do! _ <- AppendEvent runID "stage.suspended.deferred" [("stage", joinStage); ("ops", Itoa (Z.of_nat (length manifest)))];
         do! st <- StageState runID joinStage manifest;
         match st with
         | inl StateResumable => DriveDeferredResume runID joinStage
         | _ => Ret Finished
         end)
  end.

(** ** Reading the terminals *)

Section Merge.
(** [sanitizeTerminalOutput], [MergeJSON] ([None] on an error), the fuel meter of
    an envelope and the write of it. *)
Variables (sanitizeTerminalOutput : string -> string -> string) (MergeJSON : string -> string -> option string)
  (FuelUsedFromEnvelope : string -> Z) (set_fuel : string -> Z -> string).

Inductive Merged := MergedTo (envelope : string) | StageFailed (op : string) | MergeStopped (e : Err).

Definition payload_of (d : Doc) : string := match d with DBytes b => b | _ => "" end.

(** The body of an op's terminal: nothing when it names no output. *)
Definition terminal_output (term : OpTerminal) : Prog (string + Err) :=
  if ot_OutputKey term =s "" then Ret (inl "")
  else do! r <- Get (ot_OutputKey term);
       Ret (match r with inl d => inl (payload_of d) | inr e => inr (EStore e) end).

Definition merge_output (merged transport output : string) : string :=
  if (output =s "") || (output =s "{}") then merged
  else match MergeJSON merged (sanitizeTerminalOutput transport output) with Some m => m | None => merged end.

(** The loop of [Resume] over the manifest. *)
Fixpoint merge_terminals (runID stage : string) (entries : list OpManifestEntry) (merged : string) (detachedFuel : Z) : Prog Merged :=
  match entries with
  | [] => Ret (MergedTo (if (0 <? detachedFuel)%Z then set_fuel merged (FuelUsedFromEnvelope merged + detachedFuel) else merged))
  | e :: entries =>
      do! r <- ReadOpTerminal runID stage (me_Ordinal e) (me_Op e);
      match r with
      | inr er => Ret (MergeStopped er)
      | inl term =>
          if ot_Status term =s "failed" then
            do! _ <- (if ot_ErrorKey term =s "" then Ret None else do! r <- Get (ot_ErrorKey term); Ret (Some r));
            do! _ <- FailStage runID stage ("op-failed:" ++ me_Op e);
            do! _ <- AppendEvent runID "stage.failed" [("stage", stage); ("op", me_Op e)];
            Ret (StageFailed (me_Op e))
          else
            do! r <- terminal_output term;
            match r with
            | inr er => Ret (MergeStopped er)
            | inl output =>
                merge_terminals runID stage entries (merge_output merged (tm_Transport (ot_Meta term)) output)
                  (detachedFuel + tm_FuelUsed (ot_Meta term))
            end
      end
  end.

Definition resume_merge (runID stage : string) (ss : StageSuspended) : Prog Merged :=
  merge_terminals runID stage (merge_sort ordinal_le (ss_Manifest ss))
    (if ss_ScopeEnvelope ss =s "" then "{}" else ss_ScopeEnvelope ss) 0.
End Merge.
