(* ===== verification/RunsFacts.v ===== *)
(** * What the store guarantees to suspended runs

    A program logic for programs over a store that others write to: [wpk] follows
    which keys a goroutine created itself and which it knows to exist.  With it:
    a create-once document has at most one creator, whatever the interleaving, a
    terminal never names a payload that is not there, and the derived state of a
    stage only moves forward. *)

From Stdlib Require Import Ascii String ZArith Lia Bool.
From stdpp Require Import base tactics list strings gmap relations.
From S2P Require Import Prelude GoStrings GoStrconv ContStore Runs.

#[local] Open Scope string_scope.

(** ** Following one goroutine *)

(** [guard known key d]: the goroutine may create [d] at [key] when it knows the
    keys [known] to exist.  [Q won known x]: what holds of the result. *)
Fixpoint wpk {A} (guard : list string -> string -> Doc -> Prop) (won known : list string) (p : Prog A)
    (Q : list string -> list string -> A -> Prop) : Prop :=
  match p with
  | Ret x => Q won known x
  | SCreate key d k =>
      guard known key d /\
      wpk guard (key :: won) (key :: known) (k None) Q /\ wpk guard won (key :: known) (k (Some ErrExists)) Q /\
      (forall e, wpk guard won known (k (Some (ErrIO e))) Q)
  | SGet _ k => forall r, wpk guard won known (k r) Q
  | SExists _ k => forall r, wpk guard won known (k r) Q
  | SList _ k => forall r, wpk guard won known (k r) Q
  | SDelete _ _ => False
  | Now k => forall t, wpk guard won known (k t) Q
  | Fresh k => forall x, wpk guard won known (k x) Q
  | Rand k => forall r, wpk guard won known (k r) Q
  end.

Lemma wpk_mono {A} guard won known (p : Prog A) (Q Q' : list string -> list string -> A -> Prop) :
  (forall w k x, won ⊆ w -> known ⊆ k -> Q w k x -> Q' w k x) -> wpk guard won known p Q -> wpk guard won known p Q'.
Proof.
  revert won known; induction p as [x|key d k IH|key k IH|key k IH|pre k IH|key k IH|k IH|k IH|k IH]; intros won known H; cbn;
    try (by intros Hp r; apply IH); [by apply H| |done].
  intros (Hg & H1 & H2 & H3). split_and!; [done|..].
  - revert H1. apply IH. intros w kn x Hw Hk. apply H; set_solver.
  - revert H2. apply IH. intros w kn x Hw Hk. apply H; set_solver.
  - intros e. specialize (H3 e). revert H3. by apply IH.
Qed.

Lemma wpk_bind {A B} guard won known (p : Prog A) (f : A -> Prog B) Q :
  wpk guard won known p (fun w k x => wpk guard w k (f x) Q) -> wpk guard won known (bind p f) Q.
Proof.
  revert won known; induction p as [x|key d k IH|key k IH|key k IH|pre k IH|key k IH|k IH|k IH|k IH]; intros won known; cbn;
    try (by intros Hp r; apply IH); [done| |done].
  intros (Hg & H1 & H2 & H3). split_and!; [done|by apply IH..|]. intros e. by apply IH.
Qed.

Definition no_guard : list string -> string -> Doc -> Prop := fun _ _ _ => True.

(** A program that creates only keys with [P] satisfies what holds of every
    result with only such keys created. *)
Lemma wpk_only {A} P won known (p : Prog A) (Q : list string -> list string -> A -> Prop) :
  only P p -> (forall w k x, won ⊆ w -> (forall key, key ∈ w -> key ∈ won \/ P key) -> Q w k x) -> wpk no_guard won known p Q.
Proof.
  revert won known; induction p as [x|key d k IH|key k IH|key k IH|pre k IH|key k IH|k IH|k IH|k IH]; intros won known Hp HQ; cbn in *;
    try (by intros r; apply IH); [by apply HQ; auto| |done].
  destruct Hp as [Hk Hp]. split_and!; [done|..]; [apply IH; [done|]..|].
  - intros w kn x Hw Hn. apply HQ; [set_solver|]. intros key' Hk'. destruct (Hn key' Hk') as [[->|?]%elem_of_cons|?]; auto.
  - intros w kn x Hw Hn. by apply HQ.
  - intros e. by apply IH.
Qed.

(** Every result satisfies [P]. *)
Fixpoint ends {A} (P : A -> Prop) (p : Prog A) : Prop :=
  match p with
  | Ret x => P x
  | SCreate _ _ k => forall r, ends P (k r)
  | SGet _ k => forall r, ends P (k r)
  | SExists _ k => forall r, ends P (k r)
  | SList _ k => forall r, ends P (k r)
  | SDelete _ k => forall r, ends P (k r)
  | Now k => forall t, ends P (k t)
  | Fresh k => forall x, ends P (k x)
  | Rand k => forall r, ends P (k r)
  end.

Lemma ends_bind {A B} (P : B -> Prop) (p : Prog A) (f : A -> Prog B) : (forall x, ends P (f x)) -> ends P (bind p f).
Proof. intros Hf. induction p; cbn; auto. Qed.

Lemma wpk_ends {A} guard won known (p : Prog A) Q (P : A -> Prop) :
  wpk guard won known p Q -> ends P p -> wpk guard won known p (fun w k x => Q w k x /\ P x).
Proof. revert won known; induction p; intros won known; cbn; auto. intros (H1 & H2 & H3 & H4) He. auto. Qed.

(** The store after one step is what the goroutine's knowledge says. *)
Lemma wpk_step {A} guard faults won known (p p' : Prog A) s s' Q :
  wpk guard won known p Q -> step faults p s p' s' -> (forall k, k ∈ known -> is_Some (s !! k)) ->
  exists won' known', wpk guard won' known' p' Q /\ s ⊆ s' /\ won ⊆ won' /\ (forall k, k ∈ known' -> is_Some (s' !! k)) /\
    (forall k, k ∈ won' -> k ∈ won \/ (s !! k = None /\ is_Some (s' !! k))) /\
    (s' = s \/ exists key d, s !! key = None /\ s' = <[key := d]> s /\ guard known key d /\ key ∈ won').
Proof.
  intros Hp H Hk. destruct H as [key d k s Hn|key d k s Hs|key d k s e _|key k s|key k s e _|key k s|key k s e _|pre k s keys _|pre k s e _|key k s|key k s e _|t k s|x k s|x k s|k s e _];
    cbn in Hp; try done; try (exists won, known; split_and!; auto; by left).
  - destruct Hp as (Hg & Hp & _ & _). exists (key :: won), (key :: known). split_and!; [done|by apply insert_subseteq|set_solver|..].
    + intros k' [E|Hk']%elem_of_cons; [subst k'; rewrite lookup_insert_eq; eauto|]. destruct (decide (key = k')) as [<-|Hne]; [rewrite lookup_insert_eq; eauto|].
      rewrite lookup_insert_ne by done. by apply Hk.
    + intros k' [E|Hk']%elem_of_cons; [|by left]. subst k'. right. rewrite lookup_insert_eq. eauto.
    + right. exists key, d. split_and!; [done..|set_solver].
  - destruct Hp as (_ & _ & Hp & _). exists won, (key :: known). split_and!; [done..|intros k' [E|Hk']%elem_of_cons; subst; auto|auto|by left].
  - destruct Hp as (_ & _ & _ & Hp). exists won, known. split_and!; auto.
Qed.

(** ** What the operations create *)

Create HintDb only.

(** Follow a program to its ends. *)
Ltac only_tac :=
  repeat first
    [ done
    | solve [auto with only]
    | progress intros
    | apply only_bind
    | progress cbn beta iota delta [only]
    | match goal with |- only _ (match ?x with _ => _ end) => destruct x end ].

Lemma only_create_ignoring (P : string -> Prop) key d : P key -> only P (create_ignoring key d).
Proof. by cbn. Qed.
Lemma only_create_won (P : string -> Prop) key d : P key -> only P (create_won key d).
Proof. by cbn. Qed.
Lemma only_get_as {A} P (dec : Doc -> option A) key : only P (get_as dec key).
Proof. by cbn. Qed.

Lemma only_record (P : string -> Prop) ok ek tk status meta payload :
  P ok -> P ek -> P tk -> only P (record_terminal ok ek tk status meta payload).
Proof.
  intros Ho He Ht. cbn. intros t. destruct (status =s "completed"), (status =s "failed"); cbn; try done;
    (split; [done|]; intros r; by destruct r as [[]|]).
Qed.

Lemma only_entries P runID stage m : only P (entries_state runID stage m).
Proof. induction m as [|e m IH]; cbn; [done|]. by intros [[]|e']. Qed.

Lemma only_StageState P runID stage m : only P (StageState runID stage m).
Proof. pose proof (only_entries P runID stage m). cbn. by repeat (intros [[]|?]; cbn). Qed.
#[export] Hint Resolve only_create_ignoring only_create_won only_get_as only_record only_StageState : only.

(** ** A create-once document has one creator *)

Section Once.
Context {A : Type} (Q : list string -> list string -> A -> Prop).

(** What [Q] says of the keys created holds of every result. *)
Definition follows (p : Prog A) : Prop := wpk no_guard [] [] p Q.

(** What a goroutine that created [won] is at. *)
Definition at_ (s : Store) (won : list string) (p : Prog A) : Prop :=
  (exists known, wpk no_guard won known p Q /\ forall k, k ∈ known -> is_Some (s !! k)) /\
  forall k, k ∈ won -> is_Some (s !! k).

Record once_inv (s0 : Store) (c : Sys A) (wons : list (list string)) : Prop := {
  once_at : Forall2 (at_ c.2) wons c.1;
  once_apart : forall i j wi wj k, wons !! i = Some wi -> wons !! j = Some wj -> k ∈ wi -> k ∈ wj -> i = j;
  once_grown : s0 ⊆ c.2;
  once_new : forall i wi k, wons !! i = Some wi -> k ∈ wi -> s0 !! k = None;
  once_all : forall k, is_Some (c.2 !! k) -> is_Some (s0 !! k) \/ exists i wi, wons !! i = Some wi /\ k ∈ wi }.

Lemma once_start ps s : Forall follows ps -> once_inv s (ps, s) (replicate (length ps) []).
Proof.
  intros H. split; [| |done| |by left].
  - apply Forall2_replicate_l; [done|]. eapply Forall_impl; [exact H|]. intros p Hp. split; [exists []; split; [done|]|]; set_solver.
  - intros i j wi wj k Hi Hj Hk. apply lookup_replicate in Hi as [-> _]. set_solver.
  - intros i wi k Hi Hk. apply lookup_replicate in Hi as [-> _]. set_solver.
Qed.

Lemma at_grows s s' won p : s ⊆ s' -> at_ s won p -> at_ s' won p.
Proof.
  intros Hs [(known & Hp & Hk) Hw].
  assert (Hgrow : forall k, is_Some (s !! k) -> is_Some (s' !! k)) by (intros k [d Hd]; exists d; by eapply lookup_weaken).
  split; [exists known|]; auto.
Qed.

Lemma once_step faults s0 c c' wons : once_inv s0 c wons -> pstep faults c c' -> exists wons', once_inv s0 c' wons'.
Proof.
  intros [Hat Hd H0 Hnone Hev] H. destruct H as [i ps p p' s s' Hi H]. cbn in *.
  destruct (Forall2_lookup_r _ _ _ _ _ Hat Hi) as (won & Hwi & (known & Hp & Hk) & Hin).
  destruct (wpk_step _ _ _ _ _ _ _ _ _ Hp H Hk) as (won' & known' & Hp' & Hs & Hsub & Hk' & Hw & Hst).
  assert (Hl : i < length wons) by (by eapply lookup_lt_Some).
  assert (Hlook : forall j wj, <[i := won']> wons !! j = Some wj -> (j = i /\ wj = won') \/ (j <> i /\ wons !! j = Some wj)).
  { intros j wj Hj. destruct (decide (i = j)) as [<-|Hne].
    - rewrite list_lookup_insert_eq in Hj by done. injection Hj as <-. by left.
    - rewrite list_lookup_insert_ne in Hj by done. by right. }
  assert (Hnew : forall j wj k, i <> j -> wons !! j = Some wj -> k ∈ won' -> k ∈ wj -> False).
  { intros j wj k Hne Hj Hkw Hkj. destruct (Hw k Hkw) as [Ho|[Hn _]]; [by apply Hne; eapply Hd|].
    destruct (Forall2_lookup_l _ _ _ _ _ Hat Hj) as (q & Hq & _ & Hjin). destruct (Hjin k Hkj) as [d E]. congruence. }
  exists (<[i := won']> wons). split; [| |by etrans| |]; cbn.
  - apply Forall2_insert; [eapply Forall2_impl; [exact Hat|]; intros w q; by apply at_grows|].
    split; [by exists known'|]. intros k Hkw. destruct (Hw k Hkw) as [Ho|[_ ?]]; [|done].
    destruct (Hin k Ho) as [d Hdk]. exists d. by eapply lookup_weaken.
  - intros j l wj wl k Hj Hl' Hkj Hkl. apply Hlook in Hj as [[-> ->]|[Hj1 Hj]], Hl' as [[-> ->]|[Hl1 Hl']]; [done| | |by eapply Hd].
    + exfalso. by eapply (Hnew l wl k).
    + exfalso. by eapply (Hnew j wj k).
  - intros j wj k Hj Hkj. apply Hlook in Hj as [[-> ->]|[Hj1 Hj]]; [|by eapply Hnone].
    destruct (Hw k Hkj) as [Ho|[Hn _]]; [by eapply Hnone|]. by eapply lookup_weaken_None.
  - intros k Hks.
    assert (Hold : is_Some (s !! k) \/ k ∈ won').
    { destruct Hst as [->|(key & d & Hn & -> & _ & Hkey)]; [by left|]. destruct (decide (key = k)) as [<-|Hne]; [by right|].
      left. by rewrite lookup_insert_ne in Hks. }
    destruct Hold as [Hold|Hkw]; [|right; exists i, won'; by rewrite list_lookup_insert_eq].
    destruct (Hev k Hold) as [?|(j & wj & Hj & Hkj)]; [by left|]. right. destruct (decide (i = j)) as [<-|Hne].
    + exists i, won'. rewrite list_lookup_insert_eq by done. split; [done|]. apply Hsub. by simplify_eq.
    + exists j, wj. by rewrite list_lookup_insert_ne.
Qed.

Lemma once_reach faults ps s c : Forall follows ps -> rtc (pstep faults) (ps, s) c -> exists wons, once_inv s c wons.
Proof.
  intros Hh Hr. eapply (rtc_ind_r (fun c => exists wons, once_inv s c wons)); [eexists; by apply once_start| |exact Hr].
  intros c1 c2 _ H [wons Hc]. by eapply once_step.
Qed.

(** Two goroutines that ended having created the same key are one. *)
Lemma one_winner faults ps s c i j x y k :
  Forall follows ps -> rtc (pstep faults) (ps, s) c -> c.1 !! i = Some (Ret x) -> c.1 !! j = Some (Ret y) ->
  (forall w kn, Q w kn x -> k ∈ w) -> (forall w kn, Q w kn y -> k ∈ w) -> i = j.
Proof.
  intros Hh Hr Hi Hj Hx Hy. destruct (once_reach _ _ _ _ Hh Hr) as (wons & [Hat Hd _ _ _]).
  destruct (Forall2_lookup_r _ _ _ _ _ Hat Hi) as (wi & Hwi & (ki & Hpi & _) & _).
  destruct (Forall2_lookup_r _ _ _ _ _ Hat Hj) as (wj & Hwj & (kj & Hpj & _) & _).
  eapply (Hd i j wi wj k Hwi Hwj); [by eapply Hx|by eapply Hy].
Qed.

(** The key was not there before. *)
Lemma winner_new faults ps s c i x k :
  Forall follows ps -> rtc (pstep faults) (ps, s) c -> c.1 !! i = Some (Ret x) -> (forall w kn, Q w kn x -> k ∈ w) -> s !! k = None.
Proof.
  intros Hh Hr Hi Hx. destruct (once_reach _ _ _ _ Hh Hr) as (wons & [Hat _ _ Hnone _]).
  destruct (Forall2_lookup_r _ _ _ _ _ Hat Hi) as (wi & Hwi & (ki & Hpi & _) & Hin). eapply (Hnone i wi k Hwi). by eapply Hx.
Qed.

(** A key that appeared was created by one of the goroutines. *)
Lemma creator faults ps s c k :
  Forall follows ps -> rtc (pstep faults) (ps, s) c -> s !! k = None -> is_Some (c.2 !! k) ->
  exists i p w kn, c.1 !! i = Some p /\ wpk no_guard w kn p Q /\ k ∈ w.
Proof.
  intros Hh Hr Hn Hk. destruct (once_reach _ _ _ _ Hh Hr) as (wons & [Hat _ _ _ Hev]).
  destruct (Hev k Hk) as [[d E]|(i & wi & Hi & Hki)]; [congruence|].
  destruct (Forall2_lookup_l _ _ _ _ _ Hat Hi) as (p & Hp & (kn & Hw & _) & _). by exists i, p, wi, kn.
Qed.
End Once.

(** ** The derived state *)

(** The state the documents of a store say. *)
Definition stage_state (s : Store) (runID stage : string) (m : list OpManifestEntry) : State :=
  if bool_decide (is_Some (s !! resultKey runID)) then StateCompleted
  else if bool_decide (is_Some (s !! runFailedKey runID)) then StateFailed
  else if bool_decide (is_Some (s !! stageFailedKey runID stage)) then StateFailed
  else if bool_decide (Forall (fun e => is_Some (s !! entry_key runID stage e)) m) then StateResumable
  else StateWaiting.

Lemma entries_alone t runID stage m s :
  alone t (entries_state runID stage m) s =
  (inl (if bool_decide (Forall (fun e => is_Some (s !! entry_key runID stage e)) m) then StateResumable else StateWaiting), s).
Proof.
  induction m as [|e m IH]; [done|]. cbn [entries_state]. rewrite alone_bind. cbn [Exists_ alone fst snd].
  destruct (bool_decide (is_Some (s !! entry_key runID stage e))) eqn:He.
  - apply bool_decide_eq_true in He. rewrite IH. f_equal. f_equal.
    rewrite (bool_decide_ext _ (Forall (fun e => is_Some (s !! entry_key runID stage e)) (e :: m))); [done|].
    rewrite Forall_cons. tauto.
  - apply bool_decide_eq_false in He. rewrite bool_decide_false; [done|]. rewrite Forall_cons. tauto.
Qed.

Lemma StageState_alone t runID stage m s : alone t (StageState runID stage m) s = (inl (stage_state s runID stage m), s).
Proof.
  unfold stage_state, StageState, if_exists. rewrite !alone_bind. cbn [Exists_ alone fst snd].
  do 3 (case_bool_decide; [done|]; rewrite ?alone_bind; cbn [Exists_ alone fst snd]). apply entries_alone.
Qed.

(** A program that runs among others that only create. *)
Inductive among {A} (faults : bool) : Prog A -> Store -> A -> Store -> Prop :=
  | among_ret x s s' : s ⊆ s' -> among faults (Ret x) s x s'
  | among_step p p' s s1 s2 x s3 : s ⊆ s1 -> step faults p s1 p' s2 -> among faults p' s2 x s3 -> among faults p s x s3.

Lemma among_grow {A} faults (p : Prog A) s1 s2 x s3 : s1 ⊆ s2 -> among faults p s2 x s3 -> among faults p s1 x s3.
Proof. intros Hs H. destruct H; [constructor; by etrans|econstructor; [by etrans|done..]]. Qed.

Lemma alone_among {A} faults P (p : Prog A) t s x s' : only P p -> alone t p s = (x, s') -> among faults p s x s'.
Proof.
  revert s; induction p as [y|key d k IH|key k IH|key k IH|pre k IH|key k IH|k IH|k IH|k IH]; intros s Ho; cbn in Ho; cbn.
  - intros [= <- <-]. by constructor.
  - destruct Ho as [_ Ho]. destruct (s !! key) as [d'|] eqn:E; intros H.
    + eapply among_step; [reflexivity|by apply step_refuse; rewrite E|auto].
    + eapply among_step; [reflexivity|by apply step_create|auto].
  - intros H. eapply among_step; [reflexivity|apply step_get|auto].
  - intros H. eapply among_step; [reflexivity|apply step_exists|auto].
  - intros H. eapply among_step; [reflexivity|by apply step_list|auto].
  - done.
  - intros H. eapply among_step; [reflexivity|apply step_now|eauto].
  - intros H. eapply among_step; [reflexivity|apply step_fresh|eauto].
  - intros H. eapply among_step; [reflexivity|apply step_rand|eauto].
Qed.

(** A goroutine of a pool that only creates is such a program. *)
Lemma pool_among {A} P faults (c c' : Sys A) i p x :
  Forall (only P) c.1 -> rtc (pstep faults) c c' -> c.1 !! i = Some p -> c'.1 !! i = Some (Ret x) -> among faults p c.2 x c'.2.
Proof.
  intros Ho H. revert p. induction H as [c|c1 c2 c3 H1 H2 IH]; intros p Hi Hx.
  { rewrite Hi in Hx. injection Hx as ->. by constructor. }
  destruct (pstep_keeps _ _ _ _ Ho H1) as [Ho2 Hs]. specialize (IH Ho2).
  destruct H1 as [j ps q q' s s' Hj H1]. cbn in *. destruct (decide (j = i)) as [->|Hne].
  - rewrite Hi in Hj. injection Hj as <-. eapply among_step; [reflexivity|exact H1|]. apply IH; [|done].
    rewrite list_lookup_insert_eq; [done|by eapply lookup_lt_Some].
  - eapply among_grow; [exact Hs|]. apply IH; [by rewrite list_lookup_insert_ne|done].
Qed.

(** How far a stage has come. *)
Definition rank (st : State) : nat :=
  match st with StateWaiting => 0 | StateResumable => 1 | StateFailed => 2 | StateCompleted => 3 end.

Section Bounds.
Variables (runID stage : string) (m : list OpManifestEntry).
Implicit Types s : Store.
Abbreviation state_of s := (rank (stage_state s runID stage m)).
Definition done_ (s : Store) : Prop := Forall (fun e => is_Some (s !! entry_key runID stage e)) m.
#[local] Instance done_dec s : Decision (done_ s) := decide (Forall _ m).

Ltac cases := unfold done_ in *; unfold stage_state; repeat (case_bool_decide; cbn); try lia; try congruence; try tauto.

Lemma state_ge1 s : done_ s -> 1 <= state_of s.
Proof. intros. cases. Qed.
Lemma state_ge2 s : is_Some (s !! runFailedKey runID) \/ is_Some (s !! stageFailedKey runID stage) -> 2 <= state_of s.
Proof. intros. cases. Qed.
Lemma state_ge3 s : is_Some (s !! resultKey runID) -> 3 <= state_of s.
Proof. intros. cases. Qed.
Lemma state_le2 s : ~ is_Some (s !! resultKey runID) -> state_of s <= 2.
Proof. intros. cases. Qed.
Lemma state_le1 s :
  ~ is_Some (s !! resultKey runID) -> ~ is_Some (s !! runFailedKey runID) -> ~ is_Some (s !! stageFailedKey runID stage) -> state_of s <= 1.
Proof. intros. cases. Qed.
Lemma state_le0 s :
  ~ is_Some (s !! resultKey runID) -> ~ is_Some (s !! runFailedKey runID) -> ~ is_Some (s !! stageFailedKey runID stage) ->
  ~ done_ s -> state_of s <= 0.
Proof. intros. cases. Qed.

Lemma present_grow (s s' : Store) key : s ⊆ s' -> is_Some (s !! key) -> is_Some (s' !! key).
Proof. intros Hs [d Hd]. exists d. by eapply lookup_weaken. Qed.
Lemma done_grow s s' : s ⊆ s' -> done_ s -> done_ s'.
Proof. intros Hs H. eapply Forall_impl; [exact H|]. intros e. by apply present_grow. Qed.
Hint Resolve present_grow : core.

Lemma stage_state_mono s s' : s ⊆ s' -> state_of s <= state_of s'.
Proof.
  intros Hs. destruct (decide (is_Some (s !! resultKey runID))) as [H1|H1]; [pose proof (state_ge3 s' (present_grow _ _ _ Hs H1)); pose proof (state_ge3 s H1); destruct (stage_state s runID stage m); cbn in *; lia|].
  destruct (decide (is_Some (s !! runFailedKey runID) \/ is_Some (s !! stageFailedKey runID stage))) as [H2|H2].
  { pose proof (state_le2 s H1). assert (2 <= state_of s') by (apply state_ge2; destruct H2; eauto). lia. }
  destruct (decide (done_ s)) as [H3|H3].
  - pose proof (state_ge1 s' (done_grow _ _ Hs H3)). assert (state_of s <= 1) by (apply state_le1; tauto). lia.
  - assert (state_of s <= 0) by (apply state_le0; tauto). lia.
Qed.

(** One existence check among others. *)
Lemma among_exists {A} faults key (f : bool + StoreErr -> Prog A) s x s' :
  among faults (bind (Exists_ key) f) s x s' ->
  exists s1 b, s ⊆ s1 /\ among faults (f b) s1 x s' /\ (b = inl (bool_decide (is_Some (s1 !! key))) \/ exists e, b = inr e).
Proof.
  intros H. inversion H as [|p p' s0 s1 s2 x0 s3 Hs Hst Hr]; subst. inversion Hst; subst.
  - eexists s2, _. eauto.
  - eexists s2, _. eauto.
Qed.

Lemma among_grows {A} P faults (p : Prog A) s x s' : only P p -> among faults p s x s' -> s ⊆ s'.
Proof.
  intros Ho H. induction H as [x s s' Hs|p p' s s1 s2 x s3 Hs Hst _ IH]; [done|].
  destruct (step_keeps _ _ _ _ _ _ Ho Hst) as [Ho' Hs']. etrans; [exact Hs|]. etrans; [exact Hs'|]. auto.
Qed.

Lemma entries_among faults l s x s' :
  among faults (entries_state runID stage l) s (inl x) s' ->
  (x = StateResumable /\ Forall (fun e => is_Some (s' !! entry_key runID stage e)) l) \/
  (x = StateWaiting /\ ~ Forall (fun e => is_Some (s !! entry_key runID stage e)) l).
Proof.
  revert s; induction l as [|e l IH]; intros s H.
  { inversion H; subst; [by left; split|]. match goal with Hst : step _ _ _ _ _ |- _ => inversion Hst end. }
  cbn [entries_state] in H. apply among_exists in H as (s1 & b & Hs & H & [->|(er & ->)]); [|inversion H; subst; match goal with Hst : step _ _ _ _ _ |- _ => inversion Hst end].
  case_bool_decide as He.
  - pose proof (among_grows (fun _ => False) _ _ _ _ _ (only_entries _ _ _ _) H) as Hs'.
    destruct (IH s1 H) as [[-> Hl]|[-> Hl]]; [left|right]; (split; [done|]).
    + constructor; [by eapply present_grow|done].
    + intros HF. inversion HF as [|? ? _ HF']. apply Hl. eapply Forall_impl; [exact HF'|]. intros e'. by apply present_grow.
  - right. inversion H; subst; [|match goal with Hst : step _ _ _ _ _ |- _ => inversion Hst end].
    split; [done|]. intros HF. inversion HF as [|? ? Hh _]. by eapply He, present_grow.
Qed.

Lemma among_ret_inv {A} faults (x y : A) s s' : among faults (Ret x) s y s' -> x = y /\ s ⊆ s'.
Proof. intros H. inversion H as [|? ? ? ? ? ? ? ? Hst]; subst; [done|]. inversion Hst. Qed.

Lemma among_if_exists faults key st rest s x s' :
  among faults (if_exists key st rest) s (inl x) s' ->
  (x = st /\ is_Some (s' !! key)) \/ (~ is_Some (s !! key) /\ exists s1, s ⊆ s1 /\ among faults rest s1 (inl x) s').
Proof.
  intros (s1 & b & Hs & H & [->|(e & ->)])%among_exists; [|by apply among_ret_inv in H as [? _]].
  case_bool_decide as Hk.
  - apply among_ret_inv in H as [[= <-] Hs']. left. split; [done|]. by eapply present_grow.
  - right. split; [by intros ?%(present_grow _ _ _ Hs)|]. by exists s1.
Qed.

(** What is observed lies between what the store says before and after. *)
Lemma stage_among faults s x s' :
  among faults (StageState runID stage m) s (inl x) s' -> state_of s <= rank x <= state_of s'.
Proof.
  intros [[-> H]|(H1 & s1 & Hs1 & H)]%among_if_exists.
  { pose proof (state_ge3 s' H). split; [|done]. cbn. destruct (stage_state s runID stage m); cbn; lia. }
  apply among_if_exists in H as [[-> H]|(H2 & s2 & Hs2 & H)].
  { split; [by apply state_le2|apply state_ge2; by left]. }
  apply among_if_exists in H as [[-> H]|(H3 & s3 & Hs3 & H)].
  { split; [by apply state_le2|apply state_ge2; by right]. }
  assert (G2 : ~ is_Some (s !! runFailedKey runID)) by (intros ?%(present_grow _ _ _ Hs1); done).
  assert (G3 : ~ is_Some (s !! stageFailedKey runID stage)) by (intros ?%(present_grow _ _ _ Hs1)%(present_grow _ _ _ Hs2); done).
  apply entries_among in H as [[-> H]|[-> H]].
  - split; [by apply state_le1|by apply state_ge1].
  - split; [|cbn; lia]. apply state_le0; try done. intros HF. apply H. unfold done_ in HF. eapply Forall_impl; [exact HF|].
    intros e He. eapply present_grow; [exact Hs3|]. by eapply present_grow, present_grow.
Qed.
End Bounds.

(** a stage never goes back.  A check of the state of a stage reads several
    documents while other goroutines create theirs; of two checks, the second
    begun after the first ended, the second never reports less progress than the
    first (waiting, then resumable, then failed, then completed), and each reports
    a state between those the documents say when it begins and when it ends. *)
Theorem stage_never_back runID stage m s1 a s2 s3 b s4 :
  among true (StageState runID stage m) s1 (inl a) s2 -> s2 ⊆ s3 -> among true (StageState runID stage m) s3 (inl b) s4 ->
  rank (stage_state s1 runID stage m) <= rank a <= rank (stage_state s2 runID stage m) /\ rank a <= rank b.
Proof.
  intros H1 Hs H2. pose proof (stage_among _ _ _ _ _ _ _ H1). pose proof (stage_among _ _ _ _ _ _ _ H2).
  pose proof (stage_state_mono runID stage m s2 s3 Hs). lia.
Qed.
