(* ===== verification/CallbackFacts.v ===== *)
(** * Exactly one resume

    The goroutines of [Callbacks] against one another, in every interleaving and
    with store failures: at most one resumes a stage, and no terminal names a
    payload that is not there. *)

From Stdlib Require Import Ascii String ZArith Lia Bool.
From stdpp Require Import base tactics list strings gmap relations sorting.
From S2P Require Import Prelude GoStrings GoStrconv ContStore Runs Callbacks RunsFacts.

#[local] Open Scope string_scope.

(** Everything that can complete, suspend or resume a stage. *)
Inductive handler (HashToken : string -> string) : Prog Outcome -> Prop :=
  | h_callback opc tok status output error : handler HashToken (handleContinuationComplete HashToken opc tok status output error)
  | h_local runID stage ordinal name status meta payload : handler HashToken (finish_local runID stage ordinal name status meta payload)
  | h_deferred runID opc status meta payload : handler HashToken (finish_deferred runID opc status meta payload)
  | h_sibling runID stage ordinal name status meta payload : handler HashToken (record_sibling runID stage ordinal name status meta payload)
  | h_barrier runID stage raw snapHash manifest specs : handler HashToken (suspend_barrier runID stage raw snapHash manifest specs)
  | h_suspend runID stage merged waiting : handler HashToken (suspendForDeferredJoins runID stage merged waiting)
  | h_drive runID stage : handler HashToken (DriveDeferredResume runID stage).

(** ** Keys that differ by their last segment *)

Ltac keys_differ :=
  let H := fresh in
  intros H; apply (f_equal srev) in H; revert H;
  unfold resultKey, runFailedKey, stageFailedKey, resumeClaimKey, stageSuspendedKey, opTerminalKey, opOutputKey, opErrorKey,
    deferredTerminalKey, deferredOutputKey, deferredErrorKey, deferredSuspendedAtKey, opContinuationKey, opInputKey, opCreatedKey;
  rewrite !srev_app; cbn; congruence.

(** ** One resumer *)

Definition claim_of (o : Outcome) : list string :=
  match o with Resuming runID stage => [resumeClaimKey runID stage] | _ => [] end.

(** The claims created are those the outcome says. *)
Definition claims_exactly (w _ : list string) (o : Outcome) : Prop :=
  forall runID stage, resumeClaimKey runID stage ∈ w <-> resumeClaimKey runID stage ∈ claim_of o.

Definition not_claim (key : string) : Prop := forall runID stage, key <> resumeClaimKey runID stage.
Definition no_claims (won : list string) : Prop := forall key, key ∈ won -> not_claim key.

Definition honest (p : Prog Outcome) : Prop := forall won known, no_claims won -> wpk no_guard won known p claims_exactly.

Lemma honest_ret o : claim_of o = [] -> honest (Ret o).
Proof. intros E won known Hw runID stage. rewrite E. split; [|set_solver]. intros H. by destruct (Hw _ H runID stage). Qed.

(** A prefix that claims nothing is followed whatever it returns. *)
Lemma honest_bind {B} (p : Prog B) f : only not_claim p -> (forall x, honest (f x)) -> honest (bind p f).
Proof.
  intros Hp Hf won known Hw. apply wpk_bind. eapply wpk_only; [exact Hp|]. intros w k x _ Hn. apply Hf.
  intros key Hk. destruct (Hn key Hk); auto.
Qed.

Lemma nc_opTerminal r st o op : not_claim (opTerminalKey r st o op).
Proof. intros r' st'. keys_differ. Qed.
Lemma nc_opOutput r st o op : not_claim (opOutputKey r st o op).
Proof. intros r' st'. keys_differ. Qed.
Lemma nc_opError r st o op : not_claim (opErrorKey r st o op).
Proof. intros r' st'. keys_differ. Qed.
Lemma nc_deferredTerminal r opc : not_claim (deferredTerminalKey r opc).
Proof. intros r' st'. keys_differ. Qed.
Lemma nc_deferredOutput r opc : not_claim (deferredOutputKey r opc).
Proof. intros r' st'. keys_differ. Qed.
Lemma nc_deferredError r opc : not_claim (deferredErrorKey r opc).
Proof. intros r' st'. keys_differ. Qed.
Lemma nc_stageSuspended r st : not_claim (stageSuspendedKey r st).
Proof. intros r' st'. keys_differ. Qed.
Lemma nc_suspendedAt r opc : not_claim (deferredSuspendedAtKey r opc).
Proof. intros r' st'. keys_differ. Qed.
Lemma nc_opInput r st o op : not_claim (opInputKey r st o op).
Proof. intros r' st'. keys_differ. Qed.
Lemma nc_opCreated r st o op : not_claim (opCreatedKey r st o op).
Proof. intros r' st'. keys_differ. Qed.
Lemma nc_opContinuation opc : not_claim (opContinuationKey opc).
Proof. intros r' st'. discriminate. Qed.
#[export] Hint Resolve nc_opInput nc_opCreated nc_opContinuation : only.
#[export] Hint Resolve nc_opTerminal nc_opOutput nc_opError nc_deferredTerminal nc_deferredOutput nc_deferredError nc_stageSuspended nc_suspendedAt : only.

Lemma only_RecordTerminal r st o op status meta payload : only not_claim (RecordTerminal r st o op status meta payload).
Proof. unfold RecordTerminal. auto with only. Qed.
Lemma only_RecordDeferred r opc status meta payload : only not_claim (RecordDeferredTerminal r opc status meta payload).
Proof. unfold RecordDeferredTerminal. auto with only. Qed.
Lemma only_SuspendStage r st env v m : only not_claim (SuspendStage r st env v m).
Proof. unfold SuspendStage. only_tac. Qed.
Lemma only_SetSuspendedAt r opc st : only not_claim (SetDeferredSuspendedAt r opc st).
Proof. unfold SetDeferredSuspendedAt. only_tac. Qed.
Lemma only_event r kind fields : (forall x, not_claim (runDir r ++ "/events/" ++ x ++ kind ++ ".json")) -> only not_claim (AppendEvent r kind fields).
Proof.
  intros H. unfold AppendEvent. apply only_bind; [by cbn|]. intros [x|e]; [|done]. apply only_bind; [by cbn|]. intros ts.
  apply only_create_ignoring. specialize (H (stamp ts ++ "-" ++ x ++ "-")). rewrite <- !sapp_assoc in H. exact H.
Qed.
Lemma only_event_barrier r fields : only not_claim (AppendEvent r "stage.suspended" fields).
Proof. apply only_event. intros x r' st'. keys_differ. Qed.
Lemma only_event_deferred r fields : only not_claim (AppendEvent r "stage.suspended.deferred" fields).
Proof. apply only_event. intros x r' st'. keys_differ. Qed.
Lemma only_CreateOpRecords r st specs : only not_claim (CreateOpRecords r st specs).
Proof.
  induction specs as [|sp specs IH]; [done|]. cbn [CreateOpRecords]. apply only_bind; [apply only_create_ignoring; auto with only|].
  intros [e|]; [done|]. apply only_bind; [by cbn|]. intros t. apply only_bind; [apply only_create_ignoring; auto with only|].
  intros [e|]; [done|]. destruct (sp_Async sp); [|done]. apply only_bind; [apply only_create_ignoring; auto with only|]. by intros [e|].
Qed.
#[export] Hint Resolve only_RecordTerminal only_RecordDeferred only_SuspendStage only_SetSuspendedAt only_event_barrier only_event_deferred only_CreateOpRecords : only.

Lemma honest_try_resume runID stage : honest (try_resume runID stage).
Proof.
  apply honest_bind; [unfold ReadStageSuspended; only_tac|]. intros [ss|e]; [|by apply honest_ret].
  apply honest_bind; [only_tac|]. intros [[]|e]; try by apply honest_ret.
  intros won known Hw. cbn. intros t. split_and!; [done|..].
  - intros r st. cbn [claim_of]. rewrite list_elem_of_singleton. split; [|intros ->; apply elem_of_cons; by left].
    intros [E|H]%elem_of_cons; [done|]. by destruct (Hw _ H r st).
  - by apply honest_ret.
  - intros e. by apply honest_ret.
Qed.

Lemma honest_note_suspended runID stage waiting p : honest p -> honest (note_suspended runID stage waiting p).
Proof.
  intros Hp. induction waiting as [|pj waiting IH]; [apply Hp|]. cbn [note_suspended].
  apply honest_bind; [only_tac|]. intros [e|]; [by apply honest_ret|apply IH].
Qed.

Lemma handler_honest HashToken p : handler HashToken p -> honest p.
Proof.
  intros [opc tok status output error|runID stage ordinal name status meta payload|runID opc status meta payload
    |runID stage ordinal name status meta payload|runID stage raw snapHash manifest specs|runID stage merged waiting|runID stage].
  - apply honest_bind; [unfold ResolveOpContinuation; only_tac|]. intros [lk|[[]| |]]; try by apply honest_ret.
    destruct ((tok =s "") || negb (HashToken tok =s ol_TokenHash lk)); [by apply honest_ret|].
    destruct (worker_terminal status output error) as [st payload]. destruct (ol_Deferred lk).
    + apply honest_bind; [only_tac|]. intros [[]|e]; try by apply honest_ret.
      apply honest_bind; [by cbn|]. intros [[stage|]|e]; try by apply honest_ret. apply honest_try_resume.
    + apply honest_bind; [only_tac|]. intros [[]|e]; try by apply honest_ret. apply honest_try_resume.
  - apply honest_bind; [only_tac|]. intros [b|e]; [apply honest_try_resume|by apply honest_ret].
  - apply honest_bind; [only_tac|]. intros [b|e]; [|by apply honest_ret].
    apply honest_bind; [by cbn|]. intros [[st|]|e]; try by apply honest_ret. apply honest_try_resume.
  - apply honest_bind; [only_tac|]. intros r. by apply honest_ret.
  - apply honest_bind; [only_tac|]. intros [e|]; [by apply honest_ret|]. apply honest_bind; [only_tac|].
    intros [e|]; [by apply honest_ret|]. apply honest_bind; [only_tac|]. intros r. by apply honest_ret.
  - apply honest_bind; [only_tac|]. intros [e|]; [by apply honest_ret|]. apply honest_note_suspended.
    apply honest_bind; [only_tac|]. intros _. apply honest_bind; [only_tac|].
    intros [[]|e]; try by apply honest_ret. apply honest_try_resume.
  - apply honest_try_resume.
Qed.

Lemma handlers_follow HashToken ps : Forall (handler HashToken) ps -> Forall (follows claims_exactly) ps.
Proof. intros H. eapply Forall_impl; [exact H|]. intros p Hp. apply (handler_honest HashToken p Hp). intros key. set_solver. Qed.

Lemma claims_resuming runID stage w kn : claims_exactly w kn (Resuming runID stage) -> resumeClaimKey runID stage ∈ w.
Proof. intros H. apply H. cbn [claim_of]. by apply list_elem_of_singleton. Qed.

(** C3: a stage is resumed at most once.  However the callbacks of its workers,
    duplicates included, the tails of the ops the chassis runs, the suspends and
    the race guards interleave, call by call and with any call failing, at most
    one of them resumes a given stage of a given run; and only when the stage had
    not been claimed before they started. *)
Theorem resumed_once HashToken ps s c runID stage i j :
  Forall (handler HashToken) ps -> rtc (pstep true) (ps, s) c ->
  c.1 !! i = Some (Ret (Resuming runID stage)) ->
  s !! resumeClaimKey runID stage = None /\
  (c.1 !! j = Some (Ret (Resuming runID stage)) -> i = j).
Proof.
  intros Hh%handlers_follow Hr Hi.
  pose proof (claims_resuming runID stage) as Hk. split; [by eapply winner_new|]. intros Hj. by eapply one_winner.
Qed.

(** a stage a run comes back to is never resumed again.  When a run is back at a
    stage it was resumed from (a goto to an earlier scope), suspending there again
    succeeds and changes nothing, and whatever completes or suspends the stage
    from then on, in every interleaving, nobody resumes it: the claim of the
    first visit still stands. *)
Theorem second_visit_lost HashToken ps s c runID stage raw snapHash manifest ss t :
  s !! stageSuspendedKey runID stage = Some (DSuspended ss) -> is_Some (s !! resumeClaimKey runID stage) ->
  Forall (handler HashToken) ps -> rtc (pstep true) (ps, s) c ->
  alone t (SuspendStage runID stage raw snapHash manifest) s = (None, s) /\
  forall i, c.1 !! i <> Some (Ret (Resuming runID stage)).
Proof.
  intros Hs [d Hc] Hh%handlers_follow Hr. split; [cbn; by rewrite Hs|]. intros i Hi.
  pose proof (winner_new _ _ _ _ _ _ _ _ Hh Hr Hi (claims_resuming runID stage)) as Hn. congruence.
Qed.

(** ** Terminals and their payloads *)

Definition names_payload (known : list string) (d : Doc) : Prop :=
  match d with
  | DTerminal t => (ot_OutputKey t <> "" -> ot_OutputKey t ∈ known) /\ (ot_ErrorKey t <> "" -> ot_ErrorKey t ∈ known)
  | _ => True
  end.
Definition term_guard (known : list string) (key : string) (d : Doc) : Prop := names_payload known d.

(** Whoever reads a terminal finds the payload it names. *)
Definition payload_there (s : Store) : Prop :=
  forall key t, s !! key = Some (DTerminal t) ->
    (ot_OutputKey t <> "" -> is_Some (s !! ot_OutputKey t)) /\ (ot_ErrorKey t <> "" -> is_Some (s !! ot_ErrorKey t)).

Definition anyQ {A} : list string -> list string -> A -> Prop := fun _ _ _ => True.
Definition careful {A} (p : Prog A) : Prop := forall won known, wpk term_guard won known p anyQ.

Lemma careful_bind {A B} (p : Prog A) (f : A -> Prog B) : careful p -> (forall x, careful (f x)) -> careful (bind p f).
Proof. intros Hp Hf won known. apply wpk_bind. eapply wpk_mono; [|apply Hp]. intros w k x _ _ _. apply Hf. Qed.

Lemma careful_ret {A} (x : A) : careful (Ret x).
Proof. done. Qed.

Create HintDb careful.
#[export] Hint Resolve careful_ret : careful.
Ltac careful :=
  repeat first
    [ done
    | solve [auto with careful]
    | progress intros
    | apply careful_bind
    | match goal with |- careful (match ?x with _ => _ end) => destruct x end ].

Lemma careful_get_as {A} (dec : Doc -> option A) key : careful (get_as dec key).
Proof. intros won known. cbn. done. Qed.
Lemma careful_now : careful now_.
Proof. intros won known. cbn. done. Qed.

Lemma careful_record ok ek tk status meta payload : careful (record_terminal ok ek tk status meta payload).
Proof.
  intros won known. cbn. intros t. destruct (status =s "completed"); [|destruct (status =s "failed"); [|done]]; cbn;
    (split_and!; [done|..]; try (intros e; done); unfold term_guard; cbn; set_solver).
Qed.

Lemma careful_entries runID stage m : careful (entries_state runID stage m).
Proof. induction m as [|e m IH]; [done|]. intros won known. cbn. intros [[]|e']; [apply IH|done..]. Qed.
Lemma careful_StageState runID stage m : careful (StageState runID stage m).
Proof. pose proof (careful_entries runID stage m) as H. intros won known. cbn. repeat (intros [[]|?]; cbn; try done). Qed.
Lemma careful_AppendEvent runID kind fields : careful (AppendEvent runID kind fields).
Proof. intros won known. cbn. intros [x|e]; cbn; [|done]. intros t. by split_and!. Qed.
#[export] Hint Resolve careful_get_as careful_now careful_record careful_StageState careful_AppendEvent : careful.

Lemma careful_try_resume runID stage : careful (try_resume runID stage).
Proof. unfold try_resume, ReadStageSuspended, ClaimResume. careful. Qed.
Lemma careful_suspended_at runID opc : careful (ReadDeferredSuspendedAt runID opc).
Proof. intros won known. cbn. done. Qed.
#[export] Hint Resolve careful_try_resume careful_suspended_at : careful.

Lemma careful_note runID stage waiting p : careful p -> careful (note_suspended runID stage waiting p).
Proof.
  intros Hp. induction waiting as [|pj waiting IH]; [done|]. cbn [note_suspended]. unfold SetDeferredSuspendedAt.
  careful.
Qed.

Lemma careful_CreateOpRecords r st specs : careful (CreateOpRecords r st specs).
Proof. induction specs as [|sp specs IH]; [done|]. cbn [CreateOpRecords]. careful. Qed.
#[export] Hint Resolve careful_CreateOpRecords : careful.

Lemma handler_careful HashToken p : handler HashToken p -> careful p.
Proof.
  intros [opc tok status output error|runID stage ordinal name status meta payload|runID opc status meta payload
    |runID stage ordinal name status meta payload|runID stage raw snapHash manifest specs|runID stage merged waiting|runID stage].
  - unfold handleContinuationComplete, ResolveOpContinuation, handleDeferredComplete, complete_op, RecordTerminal, RecordDeferredTerminal, DriveDeferredResume.
    careful.
  - unfold finish_local, RecordTerminal. careful.
  - unfold finish_deferred, RecordDeferredTerminal, DriveDeferredResume. careful.
  - unfold record_sibling, RecordTerminal. careful.
  - unfold suspend_barrier, SuspendStage. careful.
  - unfold suspendForDeferredJoins, SuspendStage, DriveDeferredResume. careful. apply careful_note. careful.
  - apply careful_try_resume.
Qed.

Definition careful_inv (c : Sys Outcome) : Prop :=
  payload_there c.2 /\
  Forall (fun p => exists won known, wpk term_guard won known p anyQ /\ forall k, k ∈ known -> is_Some (c.2 !! k)) c.1.

Lemma careful_step faults c c' : careful_inv c -> pstep faults c c' -> careful_inv c'.
Proof.
  intros [Hpay Hall] H. destruct H as [i ps p p' s s' Hi H]. cbn in *.
  destruct (Forall_lookup_1 _ _ _ _ Hall Hi) as (won & known & Hp & Hk).
  destruct (wpk_step _ _ _ _ _ _ _ _ _ Hp H Hk) as (won' & known' & Hp' & Hs & _ & Hk' & _ & Hstore).
  assert (Hgrow : forall k, is_Some (s !! k) -> is_Some (s' !! k)) by (intros k [d Hd]; exists d; by eapply lookup_weaken).
  split.
  - destruct Hstore as [->|(key & d & Hn & -> & Hg & _)]; [done|]. intros key' t Ht. cbn in Ht.
    destruct (decide (key = key')) as [<-|Hne].
    + rewrite lookup_insert_eq in Ht. injection Ht as ->. destruct Hg as [Ho He]. split; intros Hne; apply Hgrow, Hk; auto.
    + rewrite lookup_insert_ne in Ht by done. destruct (Hpay key' t Ht) as [Ho He]. split; intros; apply Hgrow; auto.
  - apply Forall_insert; [|by exists won', known'].
    eapply Forall_impl; [exact Hall|]. intros q (w & k & Hq & Hqk). exists w, k. auto.
Qed.

(** a terminal never names a payload that is not there.  In every reachable
    state of the goroutines around suspended stages, also when store calls fail
    or a goroutine stops half way, the payload a stored terminal names is stored,
    so a reader of the terminal finds it. *)
Theorem terminal_has_payload HashToken ps s c :
  Forall (handler HashToken) ps -> payload_there s -> rtc (pstep true) (ps, s) c -> payload_there c.2.
Proof.
  intros Hh Hs Hr. enough (careful_inv c) as [H _]; [done|].
  eapply (rtc_ind_r careful_inv); [|intros c1 c2 _ H Hc; by eapply careful_step|exact Hr].
  split; [done|]. cbn. eapply Forall_impl; [exact Hh|]. intros p Hp. exists [], []. split; [by eapply handler_careful|set_solver].
Qed.
