(* ===== verification/Wakeup.v ===== *)
(** * No wake-up is lost, and where one is

    When the last result of a suspended stage is recorded by a goroutine that
    then looks at the state of the stage, the stage is claimed.  The argument: a
    goroutine is [sure] to claim when whatever the others create, as long as
    nothing fails, it ends with the claim in the store; the one that creates the
    last terminal is. *)

From Stdlib Require Import Ascii String ZArith Lia Bool.
From stdpp Require Import base tactics list strings gmap relations sorting.
From S2P Require Import Prelude GoStrings GoStrconv ContStore Runs Callbacks RunsFacts CallbackFacts.

#[local] Open Scope string_scope.

(** ** Being sure *)

Section Sure.
Context {A : Type} (goal : string) (quiet : string -> Prop).

(** The keys [quiet] are never created.  Whatever is created else, and with no
    call failing, the program ends with [goal] in the store. *)
Fixpoint sure (s : Store) (p : Prog A) : Prop :=
  match p with
  | Ret _ => is_Some (s !! goal)
  | SCreate key d k => key = goal \/ (sure s (k None) /\ sure s (k (Some ErrExists)))
  | SGet key k =>
      match s !! key with
      | Some d => sure s (k (inl d))
      | None => sure s (k (inr ErrNotFound)) /\ (quiet key \/ forall d, sure s (k (inl d)))
      end
  | SExists key k =>
      match s !! key with
      | Some _ => sure s (k (inl true))
      | None => sure s (k (inl false)) /\ (quiet key \/ sure s (k (inl true)))
      end
  | SList _ k => forall l, sure s (k (inl l))
  | SDelete _ _ => False
  | Now k => forall t, sure s (k t)
  | Fresh k => forall x, sure s (k x)
  | Rand k => forall x, sure s (k (inl x))
  end.

Definition calm (s : Store) : Prop := forall key, quiet key -> s !! key = None.

Lemma sure_grow s s' p : s ⊆ s' -> calm s' -> sure s p -> sure s' p.
Proof.
  intros Hs Hq. induction p as [x|key d k IH|key k IH|key k IH|pre k IH|key k IH|k IH|k IH|k IH]; cbn; auto.
  - intros [d Hd]. exists d. by eapply lookup_weaken.
  - intros [->|[H1 H2]]; auto.
  - destruct (s !! key) as [d|] eqn:E; [rewrite (lookup_weaken _ _ _ _ E Hs); auto|].
    intros [H1 H2]. destruct (s' !! key) as [d|] eqn:E'.
    + destruct H2 as [H2|H2]; [by rewrite (Hq _ H2) in E'|auto].
    + split; [auto|]. destruct H2; auto.
  - destruct (s !! key) as [d|] eqn:E; [rewrite (lookup_weaken _ _ _ _ E Hs); auto|].
    intros [H1 H2]. destruct (s' !! key) as [d|] eqn:E'.
    + destruct H2 as [H2|H2]; [by rewrite (Hq _ H2) in E'|auto].
    + split; [auto|]. destruct H2; auto.
Qed.

Lemma sure_step s p p' s' : sure s p -> step false p s p' s' -> calm s' -> is_Some (s' !! goal) \/ sure s' p'.
Proof.
  intros Hp H Hq. destruct H as [key d k s Hn|key d k s Hs|? ? ? ? ? [=]|key k s|? ? ? ? [=]|key k s|? ? ? ? [=]|pre k s keys _|? ? ? ? [=]|key k s|? ? ? ? [=]|t k s|x k s|x k s|? ? ? [=]];
    cbn in Hp; try (by right); try done.
  - destruct (decide (key = goal)) as [->|Hne]; [left; rewrite lookup_insert_eq; eauto|]. destruct Hp as [?|[Hp _]]; [done|].
    right. eapply sure_grow; [|done..]. by apply insert_subseteq.
  - destruct Hp as [<-|[_ Hp]]; [by left|by right].
  - right. destruct (s !! key) as [d|]; [done|by destruct Hp].
  - right. destruct (s !! key) as [d|] eqn:E; cbn; [done|by destruct Hp].
Qed.

(** ** A pool in which the last terminal wakes the stage *)

(** [terms]: the terminals of the stage; [s0]: the documents that are there from
    the start; [ready]: when the last terminal wakes the stage; [fine]: what the
    results satisfy. *)
Variables (terms : list string) (s0 : Store) (ready : Store -> Prop) (fine : A -> Prop).

Definition all_terms (s : Store) : Prop := forall key, key ∈ terms -> is_Some (s !! key).
Definition base (s : Store) : Prop := s0 ⊆ s /\ calm s.

(** The program creates no quiet key, and when it creates the last terminal it is
    sure from there on. *)
Fixpoint wakes (p : Prog A) : Prop :=
  match p with
  | Ret x => fine x
  | SCreate key d k =>
      ~ quiet key /\ wakes (k None) /\ wakes (k (Some ErrExists)) /\
      (key ∈ terms -> forall s, base s -> ready s -> all_terms s -> sure s (k None))
  | SGet key k => match s0 !! key with Some d => wakes (k (inl d)) | None => forall r, wakes (k r) end
  | SExists key k => forall b, wakes (k (inl b))
  | SList _ k => forall l, wakes (k (inl l))
  | SDelete _ _ => False
  | Now k => forall t, wakes (k t)
  | Fresh k => forall x, wakes (k x)
  | Rand k => forall x, wakes (k (inl x))
  end.

Lemma wakes_step s p p' s' :
  base s -> wakes p -> step false p s p' s' -> wakes p' /\ base s' /\ s ⊆ s' /\ (all_terms s' -> all_terms s \/ (ready s' -> sure s' p')).
Proof.
  intros [Hs Hq] Hp H. destruct H as [key d k s Hn|key d k s Hd|? ? ? ? ? [=]|key k s|? ? ? ? [=]|key k s|? ? ? ? [=]|pre k s keys _|? ? ? ? [=]|key k s|? ? ? ? [=]|t k s|x k s|x k s|? ? ? [=]];
    cbn in Hp; try done; try (split_and!; auto; done).
  - destruct Hp as (Hk & H1 & _ & H2). assert (Hsub : s ⊆ <[key := d]> s) by (by apply insert_subseteq).
    assert (Hb : base (<[key := d]> s)).
    { split; [by etrans|]. intros key' Hk'. rewrite lookup_insert_ne; [by apply Hq|]. by intros ->. }
    split_and!; [done..|]. intros Hall. destruct (decide (key ∈ terms)) as [Hin|Hni]; [right; intros Hrd; by apply H2|left].
    intros key' Hk'. specialize (Hall key' Hk'). rewrite lookup_insert_ne in Hall; [done|]. by intros ->.
  - destruct Hp as (_ & _ & H1 & _). split_and!; auto; done.
  - destruct (s0 !! key) as [d|] eqn:E; [rewrite (lookup_weaken _ _ _ _ E Hs)|]; split_and!; auto; done.
Qed.

Lemma wakes_only p : only (fun key => ~ quiet key /\ key ∉ terms) p -> ends fine p -> wakes p.
Proof.
  induction p as [x|key d k IH|key k IH|key k IH|pre k IH|key k IH|k IH|k IH|k IH]; cbn; auto.
  - intros [[H1 H2] H] He. by split_and!; auto.
  - intros H He. destruct (s0 !! key); auto.
Qed.

Definition wake_inv (c : Sys A) : Prop :=
  base c.2 /\ Forall wakes c.1 /\ (all_terms c.2 -> is_Some (c.2 !! goal) \/ exists p, p ∈ c.1 /\ sure c.2 p).

Lemma wake_step c c' : wake_inv c -> pstep false c c' -> c.2 ⊆ c'.2 /\ (ready c'.2 -> wake_inv c').
Proof.
  intros (Hb & Hw & Hall) H. destruct H as [i ps p p' s s' Hi H]. cbn in *.
  destruct (wakes_step s p p' s' Hb (Forall_lookup_1 _ _ _ _ Hw Hi) H) as (Hw' & Hb' & Hs & Hlast).
  assert (Hp' : p' ∈ <[i := p']> ps) by (apply list_elem_of_lookup_2 with i, list_lookup_insert_eq; by eapply lookup_lt_Some).
  split; [done|]. intros Hrd. split_and!; [done|by apply Forall_insert|]. intros Hall'. destruct (Hlast Hall') as [Ha|Hsure]; [|right; exists p'; split; [done|by apply Hsure]].
  destruct (Hall Ha) as [[d Hg]|(q & Hq & Hqs)]; [left; exists d; by eapply lookup_weaken|].
  apply list_elem_of_lookup in Hq as [j Hj]. destruct (decide (i = j)) as [<-|Hne].
  - rewrite Hi in Hj. injection Hj as <-. destruct (sure_step _ _ _ _ Hqs H (proj2 Hb')) as [?|?]; [by left|right; by exists p'].
  - right. exists q. split; [apply (list_elem_of_lookup_2 (<[i := p']> ps) j q); by rewrite list_lookup_insert_ne|].
    eapply sure_grow; [done|apply Hb'|done].
Qed.

Definition all_ended (c : Sys A) : Prop := Forall (fun p => exists x, p = Ret x) c.1.

(** Once all have ended and all terminals are there, so is the goal. *)
Lemma wake_end c : wake_inv c -> all_ended c -> all_terms c.2 -> is_Some (c.2 !! goal) /\ Forall wakes c.1.
Proof.
  intros (_ & Hw & H) Hend Hall. split; [|done]. destruct (H Hall) as [Hg|(p & Hp & Hs)]; [done|].
  unfold all_ended in Hend. rewrite Forall_forall in Hend. by destruct (Hend p Hp) as [x ->].
Qed.

Lemma woken ps c :
  (forall s, ready s) -> calm s0 -> Forall wakes ps -> ~ all_terms s0 -> rtc (pstep false) (ps, s0) c ->
  all_ended c -> all_terms c.2 -> is_Some (c.2 !! goal) /\ Forall wakes c.1.
Proof.
  intros Hrd Hc Hw Hn Hr. apply wake_end.
  eapply (rtc_ind_r wake_inv); [|intros c1 c2 _ H Hc1; by destruct (wake_step c1 c2 Hc1 H) as [_ Hs]; apply Hs|exact Hr].
  split_and!; [by split|done|]. by intros ?.
Qed.
End Sure.

Lemma wakes_bind {A B} goal quiet terms s0 ready fine (p : Prog B) (f : B -> Prog A) :
  only (fun key => ~ quiet key /\ key ∉ terms) p -> (forall x, wakes goal quiet terms s0 ready fine (f x)) -> wakes goal quiet terms s0 ready fine (bind p f).
Proof.
  intros Hp Hf. induction p as [x|key d k IH|key k IH|key k IH|pre k IH|key k IH|k IH|k IH|k IH]; cbn in *; auto.
  - destruct Hp as [[H1 H2] H]. split_and!; [done|by apply IH..|done].
  - destruct (s0 !! key); auto.
Qed.

(** Reading a document that is there from the start. *)
Lemma wakes_get {A B} goal quiet terms s0 ready fine (dec : Doc -> option B) key d x (f : B + Err -> Prog A) :
  s0 !! key = Some d -> dec d = Some x -> wakes goal quiet terms s0 ready fine (f (inl x)) ->
  wakes goal quiet terms s0 ready fine (bind (get_as dec key) f).
Proof. intros Hd Hx Hf. cbn. by rewrite Hd, Hx. Qed.

(** Recording a terminal and going on. *)
Lemma wakes_record {A} goal quiet terms s0 ready fine okey ekey tkey status meta payload (f : bool + Err -> Prog A) :
  ~ quiet okey /\ okey ∉ terms -> ~ quiet ekey /\ ekey ∉ terms -> ~ quiet tkey ->
  (forall r, wakes goal quiet terms s0 ready fine (f r)) ->
  (tkey ∈ terms -> forall s, base quiet s0 s -> ready s -> all_terms terms s -> sure goal quiet s (f (inl true))) ->
  wakes goal quiet terms s0 ready fine (bind (record_terminal okey ekey tkey status meta payload) f).
Proof.
  intros Ho He Ht Hf Hs. unfold record_terminal. cbn. intros t.
  destruct (status =s "completed"); [|destruct (status =s "failed")]; cbn; [| |apply Hf].
  - split; [apply Ho|]. split; [|split; [|intros Hin; by destruct Ho]]; (split_and!; auto).
  - split; [apply He|]. split; [|split; [|intros Hin; by destruct He]]; (split_and!; auto).
Qed.

(** ** A barrier scope *)

Section Barrier.
Variables (HashToken : string -> string) (s0 : Store) (runID stage : string) (ss : StageSuspended).

(** What ends a run or a stage without a resume. *)
Definition ended (key : string) : Prop := key ∈ [resultKey runID; runFailedKey runID; stageFailedKey runID stage].
Definition stage_terms : list string := map (entry_key runID stage) (ss_Manifest ss).

Hypothesis suspended : s0 !! stageSuspendedKey runID stage = Some (DSuspended ss).

Lemma sure_entries {A} goal quiet s m (f : State + Err -> Prog A) :
  (forall key, key ∈ map (entry_key runID stage) m -> is_Some (s !! key)) ->
  sure goal quiet s (f (inl StateResumable)) -> sure goal quiet s (bind (entries_state runID stage m) f).
Proof.
  intros Hm Hf. induction m as [|e m IH]; [done|]. cbn.
  destruct (Hm (entry_key runID stage e)) as [d ->]; [by apply list_elem_of_here|]. apply IH. intros key Hk. apply Hm. by apply list_elem_of_further.
Qed.

(** With every terminal there, trying to resume ends with the claim. *)
Lemma sure_try_resume s :
  base ended s0 s -> all_terms stage_terms s -> sure (resumeClaimKey runID stage) ended s (try_resume runID stage).
Proof.
  intros [Hs Hq] Hall. cbn. rewrite (lookup_weaken _ _ _ _ suspended Hs). cbn.
  assert (E1 : ended (resultKey runID)) by (unfold ended; set_solver).
  assert (E2 : ended (runFailedKey runID)) by (unfold ended; set_solver).
  assert (E3 : ended (stageFailedKey runID stage)) by (unfold ended; set_solver).
  rewrite (Hq _ E1), (Hq _ E2), (Hq _ E3). do 3 (split; [|by left]). apply sure_entries; [apply Hall|].
  cbn. intros t. by left.
Qed.

Definition harmless (key : string) : Prop := ~ ended key /\ key ∉ stage_terms.

Lemma harmless_suffix key :
  (forall r, key <> resultKey r) -> (forall r, key <> runFailedKey r) -> (forall r st, key <> stageFailedKey r st) ->
  (forall r st o op, key <> opTerminalKey r st o op) -> (forall r opc, key <> deferredTerminalKey r opc) -> harmless key.
Proof.
  intros H1 H2 H3 H4 H5. split.
  - unfold ended. rewrite !elem_of_cons. intros [E|[E|[E|E]]]; [by eapply H1|by eapply H2|by eapply H3|by apply elem_of_nil in E].
  - unfold stage_terms. intros (m & E & _)%list_elem_of_fmap. revert E. unfold entry_key. case_match; intros E; [by eapply H4|by eapply H5].
Qed.

Lemma not_ended_term r st o op : ~ ended (opTerminalKey r st o op).
Proof. unfold ended. rewrite !elem_of_cons. intros [E|[E|[E|E]]]; [revert E; keys_differ..|by apply elem_of_nil in E]. Qed.
Lemma not_ended_deferred r opc : ~ ended (deferredTerminalKey r opc).
Proof. unfold ended. rewrite !elem_of_cons. intros [E|[E|[E|E]]]; [revert E; keys_differ..|by apply elem_of_nil in E]. Qed.

Lemma harmless_output r st o op : harmless (opOutputKey r st o op).
Proof. apply harmless_suffix; intros; keys_differ. Qed.
Lemma harmless_error r st o op : harmless (opErrorKey r st o op).
Proof. apply harmless_suffix; intros; keys_differ. Qed.
Lemma harmless_doutput r opc : harmless (deferredOutputKey r opc).
Proof. apply harmless_suffix; intros; keys_differ. Qed.
Lemma harmless_derror r opc : harmless (deferredErrorKey r opc).
Proof. apply harmless_suffix; intros; keys_differ. Qed.
Lemma harmless_claim r st : harmless (resumeClaimKey r st).
Proof. apply harmless_suffix; intros; keys_differ. Qed.

Definition this_stage (o : Outcome) : Prop := match o with Resuming r st => r = runID /\ st = stage | _ => True end.

Lemma ends_try_resume : ends this_stage (try_resume runID stage).
Proof.
  apply ends_bind. intros [x|e]; [|done]. apply ends_bind. intros [[]|e]; try done. cbn. intros _ [[]|]; done.
Qed.

Abbreviation wakes_ p := (wakes (resumeClaimKey runID stage) ended stage_terms s0 (fun _ => True) this_stage p).

Lemma wakes_try_resume : wakes_ (try_resume runID stage).
Proof.
  apply wakes_only; [|apply ends_try_resume]. unfold try_resume, ReadStageSuspended, ClaimResume. only_tac. split; [apply harmless_claim|done].
Qed.

(** The goroutines that complete ops of the stage: callbacks whose lookup is for
    it, duplicates included, and ops the chassis ran. *)
Inductive completer : Prog Outcome -> Prop :=
  | c_callback opc tok status output error lk :
      s0 !! opContinuationKey opc = Some (DOpLookup lk) ->
      ol_RunID lk = runID -> ol_Stage lk = stage -> ol_Deferred lk = false ->
      completer (handleContinuationComplete HashToken opc tok status output error)
  | c_local ordinal name status meta payload : completer (finish_local runID stage ordinal name status meta payload).

Lemma wakes_completer p : completer p -> wakes_ p.
Proof.
  intros [opc tok status output error lk Hlk Hr Hst Hd|ordinal name status meta payload].
  - cbn. rewrite Hlk. cbn. destruct ((tok =s "") || negb (HashToken tok =s ol_TokenHash lk)); [done|].
    destruct (worker_terminal status output error) as [st payload]. rewrite Hd. unfold complete_op, RecordTerminal. rewrite Hr, Hst.
    apply wakes_record; [apply harmless_output|apply harmless_error|apply not_ended_term| |].
    + intros [[]|e]; [apply wakes_try_resume|done..].
    + intros _ s Hb _. by apply sure_try_resume.
  - unfold finish_local, RecordTerminal.
    apply wakes_record; [apply harmless_output|apply harmless_error|apply not_ended_term| |].
    + intros [b|e]; [apply wakes_try_resume|done].
    + intros _ s Hb _. by apply sure_try_resume.
Qed.

(** An op the suspending scope itself records: one of its ops that are not async,
    or a dispatch that failed. *)
Definition of_scope (p : Prog Outcome) : Prop :=
  exists ordinal name status meta payload, p = record_sibling runID stage ordinal name status meta payload.

Definition participant (p : Prog Outcome) : Prop := completer p \/ of_scope p.

Lemma participant_handler p : participant p -> handler HashToken p.
Proof. intros [[]|(ordinal & name & status & meta & payload & ->)]; constructor. Qed.

(** The scope's own goroutines wake nobody; they do no harm either. *)
Lemma wakes_of_scope p : of_scope p -> wakes (resumeClaimKey runID stage) ended [] s0 (fun _ => True) this_stage p.
Proof.
  intros (ordinal & name & status & meta & payload & ->). unfold record_sibling, RecordTerminal.
  apply wakes_record; try (split; [|by intros ?%elem_of_nil]); [apply harmless_output|apply harmless_error|apply not_ended_term|done|].
  by intros ?%elem_of_nil.
Qed.

(** ** Who recorded last *)

Variable ps : list (Prog Outcome).
Hypothesis parts : Forall participant ps.

(** On the way to [c], the last result was recorded by one of the scope's own. *)
Definition scope_last (c : Sys Outcome) : Prop :=
  exists qs s i p0 p p' s',
    rtc (pstep false) (ps, s0) (qs, s) /\ qs !! i = Some p /\ step false p s p' s' /\ rtc (pstep false) (<[i := p']> qs, s') c /\
    ps !! i = Some p0 /\ of_scope p0 /\ ~ all_terms stage_terms s /\ all_terms stage_terms s'.

(** Where a participant that started as [p0] may be. *)
Definition along (p0 p : Prog Outcome) : Prop :=
  wakes_ p \/ (of_scope p0 /\ wakes (resumeClaimKey runID stage) ended [] s0 (fun _ => True) this_stage p).

Definition part_inv (c : Sys Outcome) : Prop :=
  rtc (pstep false) (ps, s0) c /\ base ended s0 c.2 /\ Forall2 along ps c.1 /\
  (all_terms stage_terms c.2 -> scope_last c \/ is_Some (c.2 !! resumeClaimKey runID stage) \/
     exists p, p ∈ c.1 /\ sure (resumeClaimKey runID stage) ended c.2 p).

Lemma scope_last_step c c' : scope_last c -> pstep false c c' -> scope_last c'.
Proof. intros (qs & s & i & p0 & p & p' & s' & H1 & H2 & H3 & H4 & H5) Hs. exists qs, s, i, p0, p, p', s'. repeat (split; [done|]). split; [by eapply rtc_r|done]. Qed.

Lemma all_terms_dec s : {all_terms stage_terms s} + {~ all_terms stage_terms s}.
Proof.
  destruct (decide (Forall (fun key => is_Some (s !! key)) stage_terms)) as [H|H]; [left|right];
    unfold all_terms; rewrite Forall_forall in H; auto.
Qed.

Lemma part_step c c' : part_inv c -> pstep false c c' -> part_inv c'.
Proof.
  intros (Hr & Hb & Hw & Hall) Hst. assert (Hr' : rtc (pstep false) (ps, s0) c') by (by eapply rtc_r).
  assert (Hlast' := fun H => scope_last_step c c' H Hst). destruct Hst as [i qs p p' s s' Hi H]. cbn in *.
  destruct (Forall2_lookup_r _ _ _ _ _ Hw Hi) as (p0 & Hp0 & Hp).
  assert (Hmono : base ended s0 s' /\ s ⊆ s' /\ along p0 p' /\
    (all_terms stage_terms s' -> all_terms stage_terms s \/ of_scope p0 \/ sure (resumeClaimKey runID stage) ended s' p')).
  { destruct Hp as [Hp|[Ho Hp]].
    - destruct (wakes_step _ _ _ _ _ _ s p p' s' Hb Hp H) as (H1 & H2 & H3 & H4). split_and!; [done|done|by left|].
      intros Ha. destruct (H4 Ha) as [?|Hsure]; [by left|right; right; by apply Hsure].
    - destruct (wakes_step _ _ _ _ _ _ s p p' s' Hb Hp H) as (H1 & H2 & H3 & _). split_and!; [done|done|by right|]. intros _. auto. }
  destruct Hmono as (Hb' & Hs & Ha' & Hnew).
  assert (Hp' : p' ∈ <[i := p']> qs) by (apply list_elem_of_lookup_2 with i, list_lookup_insert_eq; by eapply lookup_lt_Some).
  split_and!; [done|done| |].
  - cbn. apply Forall2_same_length_lookup. split; [rewrite length_insert; by eapply Forall2_length|]. intros j x y Hx Hy.
    destruct (decide (i = j)) as [<-|Hne].
    + rewrite list_lookup_insert_eq in Hy by (by eapply lookup_lt_Some). by simplify_eq.
    + rewrite list_lookup_insert_ne in Hy by done. by eapply Forall2_lookup_lr.
  - intros Hall'. destruct (all_terms_dec s) as [Ha|Hna].
    + destruct (Hall Ha) as [Hl|[[d Hg]|(q & Hq & Hqs)]]; [left; auto|right; left; exists d; by eapply lookup_weaken|right].
      apply list_elem_of_lookup in Hq as [j Hj]. destruct (decide (i = j)) as [<-|Hne].
      * rewrite Hi in Hj. injection Hj as <-. destruct (sure_step _ _ _ _ _ _ Hqs H (proj2 Hb')) as [?|?]; [by left|right; by exists p'].
      * right. exists q. split; [apply (list_elem_of_lookup_2 (<[i := p']> qs) j q); by rewrite list_lookup_insert_ne|].
        eapply sure_grow; [done|apply Hb'|done].
    + destruct (Hnew Hall') as [?|[Ho|Hsure]]; [done| |right; right; by exists p'].
      left. exists qs, s, i, p0, p, p', s'. by split_and!.
Qed.

Lemma part_all c : calm ended s0 -> ~ all_terms stage_terms s0 -> rtc (pstep false) (ps, s0) c -> part_inv c.
Proof.
  intros Hq Hn Hr. eapply (rtc_ind_r part_inv); [|intros c1 c2 _ H Hc1; by eapply part_step|exact Hr].
  split_and!; [done|by split| |by intros ?].
  apply Forall_Forall2_diag. eapply Forall_impl; [exact parts|]. intros p [Hp|Hp]; [left; by apply wakes_completer|right; split; [done|by apply wakes_of_scope]].
Qed.
End Barrier.

(** C4: a barrier is woken unless the scope itself records the last result.  Take
    a suspended stage that has not ended and of which some op is still to be
    recorded, and let everything that records its ops run in any interleaving with
    no store call failing: callbacks of workers, ops the chassis runs in the
    background, and the suspending scope's own goroutines (ops that are not async,
    dispatches that failed).  Nobody resumes it twice; and when all are done and
    every op of the manifest has its terminal, one has resumed the stage, or the
    terminal that was recorded last was recorded by one of the scope's own, which
    do not look. *)
Theorem barrier_wakes HashToken s0 runID stage ss ps c :
  s0 !! stageSuspendedKey runID stage = Some (DSuspended ss) ->
  (forall key, ended runID stage key -> s0 !! key = None) -> s0 !! resumeClaimKey runID stage = None ->
  ~ all_terms (stage_terms runID stage ss) s0 ->
  Forall (participant HashToken s0 runID stage) ps ->
  rtc (pstep false) (ps, s0) c -> all_ended c -> all_terms (stage_terms runID stage ss) c.2 ->
  (forall i j, c.1 !! i = Some (Ret (Resuming runID stage)) -> c.1 !! j = Some (Ret (Resuming runID stage)) -> j = i) /\
  ((exists i, c.1 !! i = Some (Ret (Resuming runID stage))) \/ scope_last s0 runID stage ss ps c).
Proof.
  intros Hsus Hq Hnc Hn Hps Hr Hend Hall.
  assert (Hh : Forall (follows claims_exactly) ps).
  { apply (handlers_follow HashToken). eapply Forall_impl; [exact Hps|]. intros p. apply participant_handler. }
  split; [intros i j Hi Hj; eapply (one_winner claims_exactly); [exact Hh|exact Hr|exact Hj|exact Hi|apply claims_resuming..]|].
  destruct (part_all HashToken s0 runID stage ss Hsus ps Hps c Hq Hn Hr) as (_ & _ & Hw & H).
  destruct (H Hall) as [Hl|Hc]; [by right|left].
  assert (Hclaim : is_Some (c.2 !! resumeClaimKey runID stage)).
  { destruct Hc as [?|(p & Hp & Hs)]; [done|]. unfold all_ended in Hend. rewrite Forall_forall in Hend. by destruct (Hend p Hp) as [x ->]. }
  destruct (creator _ _ _ _ _ _ Hh Hr Hnc Hclaim) as (i & p & w & kn & Hi & Hp & Hk).
  destruct (Forall_lookup_1 _ _ _ _ Hend Hi) as [o ->]. cbn in Hp. apply Hp in Hk.
  destruct (Forall2_lookup_r _ _ _ _ _ Hw Hi) as (p0 & _ & Hf).
  assert (Hthis : this_stage runID stage o) by (destruct Hf as [Hf|[_ Hf]]; exact Hf).
  destruct o as [r st| | | | |]; cbn in Hk; try by apply elem_of_nil in Hk.
  destruct Hthis as [-> ->]. by exists i.
Qed.

(** ** Where a wake-up is lost *)

Section Lost.
Variables (HashToken : string -> string) (s0 : Store) (runID stage : string).

(** The program neither claims nor ends the stage, given the documents of [s0]. *)
Fixpoint tame (p : Prog Outcome) : Prop :=
  match p with
  | Ret x => claim_of x = []
  | SCreate key d k =>
      not_claim key /\ ~ ended runID stage key /\
      (s0 !! key = None -> tame (k None)) /\ tame (k (Some ErrExists)) /\ forall e, tame (k (Some (ErrIO e)))
  | SGet key k => match s0 !! key with Some d => tame (k (inl d)) /\ forall e, tame (k (inr (ErrIO e))) | None => forall r, tame (k r) end
  | SExists key k => forall r, tame (k r)
  | SList _ k => forall r, tame (k r)
  | SDelete _ _ => False
  | Now k => forall t, tame (k t)
  | Fresh k => forall x, tame (k x)
  | Rand k => forall r, tame (k r)
  end.

Definition tame_inv (c : Sys Outcome) : Prop :=
  s0 ⊆ c.2 /\ Forall tame c.1 /\ c.2 !! resumeClaimKey runID stage = None /\ calm (ended runID stage) c.2.

Lemma tame_step faults c c' : tame_inv c -> pstep faults c c' -> tame_inv c'.
Proof.
  intros (Hs & Ht & Hc & Hq) H. destruct H as [i ps p p' s s' Hi H]. unfold tame_inv. cbn in *.
  pose proof (Forall_lookup_1 _ _ _ _ Ht Hi) as Hp.
  enough (tame p' /\ (s' = s \/ exists key d, s' = <[key := d]> s /\ s !! key = None /\ not_claim key /\ ~ ended runID stage key)) as [Hp' Hst].
  { destruct Hst as [->|(key & d & -> & Hn & Hk & He)]; split_and!; try done; try by apply Forall_insert.
    - etrans; [exact Hs|]. by apply insert_subseteq.
    - rewrite lookup_insert_ne; [done|]. apply Hk.
    - intros key' Hk'. rewrite lookup_insert_ne; [by apply Hq|]. by intros ->. }
  clear Hi Ht. destruct H as [key d k s Hn|key d k s Hd|key d k s e _|key k s|key k s e _|key k s|key k s e _|pre k s keys _|pre k s e _|key k s|key k s e _|t k s|x k s|x k s|k s e _];
    cbn in Hp; try done; try (split; [apply Hp|by left]).
  - destruct Hp as (H1 & H2 & H3 & _). split; [by eapply H3, lookup_weaken_None|]. right. by exists key, d.
  - split; [|by left]. destruct (s0 !! key) as [d|] eqn:E; [|auto]. rewrite (lookup_weaken _ _ _ _ E Hs). apply Hp.
  - split; [|by left]. destruct (s0 !! key) as [d|] eqn:E; [by apply Hp|auto].
Qed.

Lemma tame_bind {B} (p : Prog B) f :
  only (fun key => not_claim key /\ ~ ended runID stage key) p -> (forall x, tame (f x)) -> tame (bind p f).
Proof.
  intros Hp Hf. induction p as [x|key d k IH|key k IH|key k IH|pre k IH|key k IH|k IH|k IH|k IH]; cbn in *; auto.
  - destruct Hp as [[H1 H2] H]. by split_and!; auto.
  - destruct (s0 !! key); auto.
Qed.

Lemma tame_record_only r st o op status meta payload :
  only (fun key => not_claim key /\ ~ ended runID stage key) (RecordTerminal r st o op status meta payload).
Proof.
  apply only_record; (split; [auto with only|]).
  - apply (harmless_output runID stage (mkSuspended "" "" [] "" 0%Z)).
  - apply (harmless_error runID stage (mkSuspended "" "" [] "" 0%Z)).
  - apply not_ended_term.
Qed.

Lemma tame_record okey ekey tkey status meta payload f :
  not_claim okey /\ ~ ended runID stage okey -> not_claim ekey /\ ~ ended runID stage ekey -> (forall e, tame (f (inr e))) ->
  (forall d, tame (bind (create_won tkey d) f)) -> tame (bind (record_terminal okey ekey tkey status meta payload) f).
Proof.
  intros [H1 H2] [H3 H4] Hf Hw. unfold record_terminal. cbn. intros t.
  destruct (status =s "completed"); [|destruct (status =s "failed"); [|apply Hf]]; cbn;
    (split; [done|]; split; [done|]; split; [intros _; apply (Hw (DBytes ""))|]; split; [apply (Hw (DBytes ""))|intros e; apply Hf]).
Qed.

(** An op of the scope itself, and a worker's callback for an op whose terminal is
    recorded: a duplicate, or a retry after an error. *)
Inductive bystander : Prog Outcome -> Prop :=
  | b_sibling ordinal name status meta payload : bystander (record_sibling runID stage ordinal name status meta payload)
  | b_late opc tok status output error lk :
      s0 !! opContinuationKey opc = Some (DOpLookup lk) -> ol_Deferred lk = false ->
      is_Some (s0 !! opTerminalKey (ol_RunID lk) (ol_Stage lk) (ol_Ordinal lk) (ol_Op lk)) ->
      bystander (handleContinuationComplete HashToken opc tok status output error).

Lemma bystander_tame p : bystander p -> tame p.
Proof.
  intros [ordinal name status meta payload|opc tok status output error lk Hlk Hd [d0 Ht]].
  - apply tame_bind; [apply tame_record_only|done].
  - cbn. rewrite Hlk. split; [|done]. cbn. destruct ((tok =s "") || negb (HashToken tok =s ol_TokenHash lk)); [done|].
    destruct (worker_terminal status output error) as [st payload]. rewrite Hd. unfold complete_op.
    apply tame_record; [split; [auto with only|]..|done|].
    + apply (harmless_output runID stage (mkSuspended "" "" [] "" 0%Z)).
    + apply (harmless_error runID stage (mkSuspended "" "" [] "" 0%Z)).
    + intros d. cbn. split; [auto with only|]. split; [apply not_ended_term|]. split; [intros E; congruence|]. done.
Qed.
End Lost.

(** a barrier whose last result is recorded by the scope itself is not woken.
    Let the ops of a suspended stage that are not recorded yet be recorded by the
    scope (its ops that are not async, and dispatches that failed), with callbacks
    of the others coming again.  Then in every interleaving nobody resumes the
    stage and it stays unclaimed, although once every op has its terminal its
    state is resumable. *)
Theorem barrier_lost_wakeup HashToken s0 runID stage ss ps c :
  s0 !! resumeClaimKey runID stage = None -> (forall key, ended runID stage key -> s0 !! key = None) ->
  Forall (bystander HashToken s0 runID stage) ps -> rtc (pstep true) (ps, s0) c ->
  c.2 !! resumeClaimKey runID stage = None /\
  (forall i r st, c.1 !! i <> Some (Ret (Resuming r st))) /\
  (all_terms (stage_terms runID stage ss) c.2 ->
   alone 0 (StageState runID stage (ss_Manifest ss)) c.2 = (inl StateResumable, c.2)).
Proof.
  intros Hn Hq Hps Hr.
  assert (Hinv : tame_inv s0 runID stage c).
  { eapply (rtc_ind_r (tame_inv s0 runID stage)); [|intros c1 c2 _ H Hc1; by eapply tame_step|exact Hr].
    split_and!; [done| |done|done]. eapply Forall_impl; [exact Hps|]. intros p. by apply bystander_tame. }
  destruct Hinv as (_ & Ht & Hc & He). split_and!; [done| |].
  - intros i r st Hi. by pose proof (Forall_lookup_1 _ _ _ _ Ht Hi) as H.
  - intros Hall. rewrite StageState_alone. f_equal. f_equal. unfold stage_state.
    rewrite !(bool_decide_false (is_Some _)) by (rewrite He by (unfold ended; set_solver); by intros [? ?]).
    rewrite bool_decide_true; [done|]. apply Forall_forall. intros e Hin. apply Hall. unfold stage_terms.
    apply list_elem_of_fmap. by exists e.
Qed.
