(* ===== verification/Joins.v ===== *)
(** * A deferred join is always woken

    A deferred op is dispatched at one scope and joins at a later one: the run may
    suspend for it while its result is being recorded.  The suspend notes, for
    each op it waits for, the stage the run suspended at, and then looks whether
    the results have arrived; a result is recorded first and then looks for the
    note.  Whichever comes second wakes the stage. *)

From Stdlib Require Import Ascii String ZArith Lia Bool.
From stdpp Require Import base tactics list strings gmap relations sorting.
From S2P Require Import Prelude GoStrings GoStrconv ContStore Runs Callbacks RunsFacts CallbackFacts Wakeup.

#[local] Open Scope string_scope.

Section Join.
Variables (HashToken : string -> string) (s0 : Store) (runID joinStage merged : string) (waiting : list PendingJoin).
Implicit Types s : Store.

Definition manifest : list OpManifestEntry := join_manifest waiting.
Definition join_terms : list string := map (entry_key runID joinStage) manifest.
Abbreviation goal := (resumeClaimKey runID joinStage).
Abbreviation over := (ended runID joinStage).

Hypothesis named : Forall (fun pj => pj_OpContinuationID pj <> "") waiting.
Hypothesis distinct : NoDup (map pj_OpContinuationID waiting).

(** The suspend is noted for the ops of [l]. *)
Definition noted s (l : list PendingJoin) : Prop :=
  (exists env v t, s !! stageSuspendedKey runID joinStage = Some (DSuspended (mkSuspended joinStage env manifest v t))) /\
  forall pj, pj ∈ l -> exists t, s !! deferredSuspendedAtKey runID (pj_OpContinuationID pj) = Some (DSuspendedAt joinStage t).
Definition ready s : Prop := noted s waiting.

(** What the suspend does last. *)
Definition look : Prog Outcome :=
  do! _ <- AppendEvent runID "stage.suspended.deferred" [("stage", joinStage); ("ops", Itoa (Z.of_nat (length manifest)))];
  do! st <- StageState runID joinStage manifest;
  match st with
  | inl StateResumable => DriveDeferredResume runID joinStage
  | _ => Ret Finished
  end.

Definition note_next pj l (t : Time) : Prog Outcome :=
  do! e <- create_ignoring (deferredSuspendedAtKey runID (pj_OpContinuationID pj)) (DSuspendedAt joinStage t);
  match e with Some _ => Ret (Failed "suspend failed") | None => note_suspended runID joinStage l look end.

Definition suspend_next (t : Time) : Prog Outcome :=
  do! e <- create_ignoring (stageSuspendedKey runID joinStage) (DSuspended (mkSuspended joinStage merged manifest "" t));
  match e with Some _ => Ret (Failed "suspend failed") | None => note_suspended runID joinStage waiting look end.

(** The suspend before its last note. *)
Definition unnoted s (l : list PendingJoin) : Prop :=
  forall pj, pj ∈ l -> s !! deferredSuspendedAtKey runID (pj_OpContinuationID pj) = None.

Inductive early s : Prog Outcome -> Prop :=
  | early_start : s !! stageSuspendedKey runID joinStage = None -> unnoted s waiting ->
      early s (suspendForDeferredJoins runID joinStage merged waiting)
  | early_suspend t : s !! stageSuspendedKey runID joinStage = None -> unnoted s waiting -> early s (suspend_next t)
  | early_note l pj l' : waiting = (l ++ pj :: l')%list -> noted s l -> unnoted s (pj :: l') ->
      early s (note_suspended runID joinStage (pj :: l') look)
  | early_next l pj l' t : waiting = (l ++ pj :: l')%list -> noted s l -> unnoted s (pj :: l') -> early s (note_next pj l' t).

(** ** Keys *)

Lemma over_cases key : over key -> key = resultKey runID \/ key = runFailedKey runID \/ key = stageFailedKey runID joinStage.
Proof. unfold ended. rewrite !elem_of_cons, elem_of_nil. tauto. Qed.

Lemma join_terms_elem key : key ∈ join_terms -> exists pj, pj ∈ waiting /\ key = deferredTerminalKey runID (pj_OpContinuationID pj).
Proof.
  unfold join_terms, manifest, join_manifest. intros (m & -> & Hm)%list_elem_of_fmap.
  rewrite merge_sort_Permutation in Hm. apply list_elem_of_fmap in Hm as (pj & -> & Hpj). exists pj. split; [done|].
  unfold entry_key. cbn. rewrite (proj2 (String.eqb_neq _ _)); [done|]. rewrite Forall_forall in named. by apply named.
Qed.

Definition aside (key : string) : Prop := ~ over key /\ key ∉ join_terms.
Lemma aside_harmless key : harmless runID joinStage (mkSuspended "" "" manifest "" 0%Z) key -> aside key.
Proof. done. Qed.

Lemma aside_suspended r st : aside (stageSuspendedKey r st).
Proof. apply aside_harmless, harmless_suffix; intros; keys_differ. Qed.
Lemma aside_note r opc : aside (deferredSuspendedAtKey r opc).
Proof. apply aside_harmless, harmless_suffix; intros; keys_differ. Qed.

(** Only the suspend writes its documents. *)
Definition foreign (key : string) : Prop :=
  key <> stageSuspendedKey runID joinStage /\ forall opc, key <> deferredSuspendedAtKey runID opc.

Lemma noted_grow s s' l : s ⊆ s' -> noted s l -> noted s' l.
Proof.
  intros Hs [(env & v & t & Hd) Hl]. split; [exists env, v, t; by eapply lookup_weaken|].
  intros pj Hpj. destruct (Hl pj Hpj) as [t' Ht']. exists t'. by eapply lookup_weaken.
Qed.

(** ** When everything is there *)

Lemma sure_drive s : base over s0 s -> ready s -> all_terms join_terms s -> sure goal over s (DriveDeferredResume runID joinStage).
Proof.
  intros [Hs Hq] [(env & v & t & Hd) _] Hall.
  apply (sure_try_resume HashToken s runID joinStage (mkSuspended joinStage env manifest v t) Hd); [by split|done].
Qed.

Lemma sure_look s : base over s0 s -> ready s -> all_terms join_terms s -> sure goal over s look.
Proof.
  intros Hb Hr Hall. pose proof (sure_drive s Hb Hr Hall) as Hd. destruct Hb as [_ Hq].
  assert (E1 : over (resultKey runID)) by (unfold ended; set_solver).
  assert (E2 : over (runFailedKey runID)) by (unfold ended; set_solver).
  assert (E3 : over (stageFailedKey runID joinStage)) by (unfold ended; set_solver).
  unfold look, AppendEvent, randID. cbn. intros x t. 
  assert (G : sure goal over s (do! st <- StageState runID joinStage manifest;
    match st with inl StateResumable => DriveDeferredResume runID joinStage | _ => Ret Finished end)).
  { cbn. rewrite (Hq _ E1), (Hq _ E2), (Hq _ E3). do 3 (split; [|by left]). by apply sure_entries. }
  right. by split.
Qed.

(** ** The goroutines *)

Definition own_run (o : Outcome) : Prop := match o with Resuming r _ => r = runID | _ => True end.
Abbreviation wakes_ p := (wakes goal over join_terms s0 ready own_run p).

Lemma own_try_resume st : ends own_run (try_resume runID st).
Proof. apply ends_bind. intros [x|e]; [|done]. apply ends_bind. intros [[]|e]; try done. cbn. intros _ [[]|]; done. Qed.

Lemma wakes_try st : wakes_ (try_resume runID st).
Proof.
  apply wakes_only; [|apply own_try_resume]. unfold try_resume, ReadStageSuspended, ClaimResume. only_tac.
  split; [|done]. apply aside_harmless, harmless_claim.
Qed.

Lemma aside_event x t kind :
  aside (runDir runID ++ "/events/" ++ stamp t ++ "-" ++ x ++ "-" ++ kind ++ "ed.deferred.json").
Proof. apply aside_harmless, harmless_suffix; intros; keys_differ. Qed.

Lemma wakes_look : wakes_ look.
Proof.
  apply wakes_bind.
  - unfold AppendEvent. apply only_bind; [by cbn|]. intros [x|e]; [|done]. apply only_bind; [by cbn|]. intros ts.
    apply only_create_ignoring. apply (aside_event x ts "stage.suspend").
  - intros _. apply wakes_bind; [only_tac|]. intros [[]|e]; try done. apply wakes_try.
Qed.

(** What completes a deferred op of the run: a callback, or an op the chassis
    ran. *)
Inductive finisher : Prog Outcome -> Prop :=
  | f_callback opc tok status output error lk :
      s0 !! opContinuationKey opc = Some (DOpLookup lk) -> ol_RunID lk = runID -> ol_Deferred lk = true ->
      finisher (handleContinuationComplete HashToken opc tok status output error)
  | f_local opc status meta payload : finisher (finish_deferred runID opc status meta payload).

Lemma terminal_inj opc opc' : deferredTerminalKey runID opc = deferredTerminalKey runID opc' -> opc = opc'.
Proof. unfold deferredTerminalKey, deferredDir. intros H%sapp_inj_r%sapp_inj_l%(sapp_inj_l "/deferred/"). done. Qed.
Lemma note_inj opc opc' : deferredSuspendedAtKey runID opc = deferredSuspendedAtKey runID opc' -> opc = opc'.
Proof. unfold deferredSuspendedAtKey, deferredDir. intros H%sapp_inj_r%sapp_inj_l%(sapp_inj_l "/deferred/"). done. Qed.

(** After the last terminal, the note leads to the stage. *)
Lemma sure_after opc (f : option string + Err -> Prog Outcome) s :
  f (inl (Some joinStage)) = DriveDeferredResume runID joinStage ->
  deferredTerminalKey runID opc ∈ join_terms -> base over s0 s -> ready s -> all_terms join_terms s ->
  sure goal over s (bind (ReadDeferredSuspendedAt runID opc) f).
Proof.
  intros Hf (pj & Hpj & ->%terminal_inj)%join_terms_elem Hb Hr Hall. destruct (proj2 Hr pj Hpj) as [t Ht].
  cbn. rewrite Ht. cbn. rewrite Hf. by apply sure_drive.
Qed.

Lemma wakes_finisher p : finisher p -> wakes_ p.
Proof.
  intros [opc tok status output error lk Hlk Hr Hd|opc status meta payload].
  - eapply wakes_get; [exact Hlk|reflexivity|]. destruct ((tok =s "") || negb (HashToken tok =s ol_TokenHash lk)); [done|].
    destruct (worker_terminal status output error) as [st payload]. rewrite Hd. unfold handleDeferredComplete, RecordDeferredTerminal. rewrite Hr.
    apply wakes_record; [apply aside_harmless, harmless_doutput|apply aside_harmless, harmless_derror|apply not_ended_deferred| |].
    + intros [[]|e]; try done. apply wakes_bind; [by cbn|]. intros [[st'|]|e]; try done. apply wakes_try.
    + intros Hin s. by apply sure_after.
  - unfold finish_deferred, RecordDeferredTerminal.
    apply wakes_record; [apply aside_harmless, harmless_doutput|apply aside_harmless, harmless_derror|apply not_ended_deferred| |].
    + intros [b|e]; try done. apply wakes_bind; [by cbn|]. intros [[st'|]|e]; try done. apply wakes_try.
    + intros Hin s. by apply sure_after.
Qed.

Lemma foreign_keys : (forall r st o op, foreign (opTerminalKey r st o op)) /\ (forall r st o op, foreign (opOutputKey r st o op)) /\
  (forall r st o op, foreign (opErrorKey r st o op)) /\ (forall r opc, foreign (deferredTerminalKey r opc)) /\
  (forall r opc, foreign (deferredOutputKey r opc)) /\ (forall r opc, foreign (deferredErrorKey r opc)) /\
  (forall r st, foreign (resumeClaimKey r st)).
Proof. split_and!; intros; (split; [|intros]); keys_differ. Qed.

Lemma foreign_try r st : only foreign (try_resume r st).
Proof. destruct foreign_keys as (_ & _ & _ & _ & _ & _ & H). unfold try_resume, ReadStageSuspended, ClaimResume. only_tac. Qed.

Lemma finisher_foreign p : finisher p -> only foreign p.
Proof.
  pose proof foreign_try as Ht. destruct foreign_keys as (H1 & H2 & H3 & H4 & H5 & H6 & _).
  intros [opc tok status output error lk _ _ _|opc status meta payload].
  - apply only_bind; [by cbn|]. intros [lk'|[[]| |]]; try done.
    destruct ((tok =s "") || negb (HashToken tok =s ol_TokenHash lk')); [done|].
    destruct (worker_terminal status output error) as [st payload]. destruct (ol_Deferred lk').
    + apply only_bind; [by apply only_record|]. intros [[]|e]; try done. apply only_bind; [by cbn|]. by intros [[st'|]|e].
    + apply only_bind; [by apply only_record|]. by intros [[]|e].
  - apply only_bind; [by apply only_record|]. intros [b|e]; [|done]. apply only_bind; [by cbn|]. by intros [[st'|]|e].
Qed.

(** What others do leaves the suspend's documents alone. *)
Lemma foreign_step (p : Prog Outcome) s p' s' key : only foreign p -> step false p s p' s' -> ~ foreign key -> s' !! key = s !! key.
Proof.
  intros Ho H Hk. destruct H; cbn in Ho; try done. destruct Ho as [Hf _]. rewrite lookup_insert_ne; [done|]. by intros ->.
Qed.

Lemma early_foreign (p : Prog Outcome) s p' s' q : only foreign p -> step false p s p' s' -> s ⊆ s' -> early s q -> early s' q.
Proof.
  intros Ho H Hs.
  assert (E1 : s' !! stageSuspendedKey runID joinStage = s !! stageSuspendedKey runID joinStage) by (eapply foreign_step; [done..|by intros []]).
  assert (E2 : forall l, unnoted s l -> unnoted s' l).
  { intros l Hl pj Hpj. rewrite <- (Hl pj Hpj). eapply foreign_step; [done..|]. intros [_ Hf]. by eapply Hf. }
  intros [? ?|t ? ?|l pj l' ? ? ?|l pj l' t ? ? ?]; econstructor; try (rewrite E1); eauto using noted_grow.
Qed.

(** ** The suspend's own steps *)

(** After the last note the suspend looks. *)
Definition looking s (p : Prog Outcome) : Prop :=
  early s p \/ (ready s /\ wakes_ p /\ (base over s0 s -> all_terms join_terms s -> sure goal over s p)).

Lemma looking_notes s l l' :
  waiting = (l ++ l')%list -> noted s l -> unnoted s l' -> looking s (note_suspended runID joinStage l' look).
Proof.
  intros E Hn Hu. destruct l' as [|pj l']; [|left; by eapply early_note].
  right. rewrite app_nil_r in E. assert (ready s) by (unfold ready; by rewrite E). split_and!; [done|apply wakes_look|by intros; apply sure_look].
Qed.

Lemma base_insert s key d : base over s0 s -> s !! key = None -> aside key -> base over s0 (<[key := d]> s).
Proof.
  intros [Hs Hq] Hn [Ha _]. split; [etrans; [exact Hs|by apply insert_subseteq]|].
  intros key' Hk'. rewrite lookup_insert_ne; [by apply Hq|]. by intros ->.
Qed.

Lemma create_step {A} key d (k : option StoreErr -> Prog A) s p' s' :
  s !! key = None -> step false (SCreate key d k) s p' s' -> p' = k None /\ s' = <[key := d]> s.
Proof. intros Hn H. inversion H as [| ? ? ? ? [x E]| | | | | | | | | | | | |]; subst; [done|congruence|done]. Qed.

Lemma now_step {A} (k : Time -> Prog A) s p' s' : step false (Now k) s p' s' -> exists t, p' = k t /\ s' = s.
Proof. intros H. inversion H; subst. eauto. Qed.

Lemma early_step (p : Prog Outcome) s p' s' :
  early s p -> base over s0 s -> step false p s p' s' -> base over s0 s' /\ s ⊆ s' /\ looking s' p'.
Proof.
  intros [Hs Hu|t Hs Hu|l pj l' E Hn Hu|l pj l' t E Hn Hu] Hb H.
  - change (suspendForDeferredJoins runID joinStage merged waiting) with (Now suspend_next) in H. apply now_step in H as (t & -> & ->).
    split_and!; [done..|]. left. by constructor.
  - apply (create_step _ _ _ _ _ _ Hs) in H as [-> ->].
    split_and!; [apply base_insert; [done..|apply aside_suspended]|by apply insert_subseteq|].
    apply (looking_notes _ [] waiting); [done| |].
    + split; [|by intros pj ?%elem_of_nil]. rewrite lookup_insert_eq. eauto.
    + intros pj Hpj. rewrite lookup_insert_ne; [by apply Hu|]. keys_differ.
  - change (note_suspended runID joinStage (pj :: l') look) with (Now (note_next pj l')) in H. apply now_step in H as (t & -> & ->).
    split_and!; [done..|]. left. by eapply early_next.
  - assert (Hpj : s !! deferredSuspendedAtKey runID (pj_OpContinuationID pj) = None) by (apply Hu, list_elem_of_here).
    apply (create_step _ _ _ _ _ _ Hpj) in H as [-> ->].
    split_and!; [apply base_insert; [done..|apply aside_note]|by apply insert_subseteq|].
    apply (looking_notes _ (l ++ [pj])%list l'); [by rewrite <- app_assoc| |].
    + destruct (noted_grow s (<[deferredSuspendedAtKey runID (pj_OpContinuationID pj) := DSuspendedAt joinStage t]> s) l) as [H1 H2];
        [by apply insert_subseteq|done|]. split; [done|]. intros pj' [Hin|Heq%list_elem_of_singleton]%elem_of_app; [by apply H2|subst pj'].
      exists t. by rewrite lookup_insert_eq.
    + intros pj' Hin. rewrite lookup_insert_ne; [apply Hu; by apply list_elem_of_further|]. intros Heq%note_inj.
      rewrite E, map_app in distinct. apply NoDup_app in distinct as (_ & _ & Hd). cbn in Hd. apply NoDup_cons in Hd as [Hd _].
      apply Hd. rewrite Heq. by apply list_elem_of_fmap_2.
Qed.

(** ** The pool *)

Definition good (p : Prog Outcome) : Prop := wakes_ p /\ only foreign p.

Definition waked (c : Sys Outcome) : Prop := ready c.2 /\ wake_inv goal over join_terms s0 ready own_run c.
Definition join_inv (c : Sys Outcome) : Prop :=
  (base over s0 c.2 /\ exists p0 ps, c.1 = p0 :: ps /\ Forall good ps /\ early c.2 p0) \/ waked c.

Lemma join_step c c' : join_inv c -> pstep false c c' -> join_inv c'.
Proof.
  intros [(Hb & p0 & ps & E & Hps & He)|[Hr Hw]] H; [|right].
  - destruct H as [i qs p p' s s' Hi H]. cbn in *. subst qs. destruct i as [|i]; cbn in Hi.
    + injection Hi as ->. destruct (early_step p s p' s' He Hb H) as (Hb' & Hs & [He'|(Hr & Hw & Hsure)]).
      * left. split; [done|]. by exists p', ps.
      * right. split; [done|]. split_and!; [done| |intros Ha; right; exists p'; split; [by apply list_elem_of_here|by apply Hsure]].
        apply Forall_cons. split; [done|]. eapply Forall_impl; [exact Hps|]. by intros q [? _].
    + pose proof (Forall_lookup_1 _ _ _ _ Hps Hi) as [Hpw Hpf].
      destruct (wakes_step _ _ _ _ _ _ _ _ _ _ Hb Hpw H) as (Hw' & Hb' & Hs & _). left. split; [done|].
      exists p0, (<[i := p']> ps). split_and!; [done| |by eapply early_foreign].
      apply Forall_insert; [done|]. split; [done|]. by eapply step_keeps.
  - destruct (wake_step _ _ _ _ _ _ _ _ Hw H) as [Hs Hw']. assert (Hr' : ready c'.2) by (by eapply noted_grow). split; [done|by apply Hw'].
Qed.

Lemma early_not_ended s o : ~ early s (Ret o).
Proof. intros H. inversion H. Qed.

Lemma join_woken ps c :
  calm over s0 -> s0 !! stageSuspendedKey runID joinStage = None -> unnoted s0 waiting -> Forall finisher ps ->
  rtc (pstep false) (suspendForDeferredJoins runID joinStage merged waiting :: ps, s0) c -> all_ended c -> all_terms join_terms c.2 ->
  is_Some (c.2 !! goal) /\ Forall (fun p => wakes_ p) c.1.
Proof.
  intros Hc Hs Hu Hps Hr Hend Hall.
  assert (Hinv : join_inv c).
  { eapply (rtc_ind_r join_inv); [|intros c1 c2 _ H Hc1; by eapply join_step|exact Hr]. left. split; [by split|].
    eexists _, ps. split_and!; [done| |by constructor]. eapply Forall_impl; [exact Hps|].
    intros p Hp. split; [by apply wakes_finisher|by apply finisher_foreign]. }
  destruct Hinv as [(_ & p0 & qs & E & _ & He)|[_ Hw]]; [|by eapply wake_end].
  exfalso. unfold all_ended in Hend. rewrite E in Hend. apply Forall_cons in Hend as [[o ->] _]. by eapply early_not_ended.
Qed.

Lemma claim_inj st : resumeClaimKey runID joinStage = resumeClaimKey runID st -> joinStage = st.
Proof. unfold resumeClaimKey, stageDir. intros H%sapp_inj_r%sapp_inj_l%(sapp_inj_l "/stages/"). done. Qed.

Lemma finisher_handler p : finisher p -> handler HashToken p.
Proof. intros []; [apply h_callback|apply h_deferred]. Qed.
End Join.

(** C5: a deferred join is always woken.  Let a run suspend for the deferred ops it
    waits for while any number of callbacks and of ops the chassis runs record
    results of the run's deferred ops, in any interleaving, with no store call
    failing.  Neither the run, the stage nor the suspend may have been recorded
    before, and the ops have distinct names.  When all are done and every op
    waited for has its terminal, exactly one goroutine resumes the stage:
    whichever of the suspend and the last result comes second sees the other. *)
Theorem deferred_wakes HashToken s0 runID joinStage merged waiting ps c :
  Forall (fun pj => pj_OpContinuationID pj <> "") waiting -> NoDup (map pj_OpContinuationID waiting) ->
  (forall key, ended runID joinStage key -> s0 !! key = None) -> s0 !! resumeClaimKey runID joinStage = None ->
  s0 !! stageSuspendedKey runID joinStage = None -> unnoted runID s0 waiting ->
  Forall (finisher HashToken s0 runID) ps ->
  rtc (pstep false) (suspendForDeferredJoins runID joinStage merged waiting :: ps, s0) c ->
  all_ended c -> all_terms (join_terms runID joinStage waiting) c.2 ->
  exists i, c.1 !! i = Some (Ret (Resuming runID joinStage)) /\
    forall j, c.1 !! j = Some (Ret (Resuming runID joinStage)) -> j = i.
Proof.
  intros Hnm Hnd Hq Hnc Hs Hu Hps Hr Hend Hall.
  destruct (join_woken HashToken s0 runID joinStage merged waiting Hnm Hnd ps c Hq Hs Hu Hps Hr Hend Hall) as [Hclaim Hw].
  assert (Hh : Forall (follows claims_exactly) (suspendForDeferredJoins runID joinStage merged waiting :: ps)).
  { apply (handlers_follow HashToken). apply Forall_cons. split; [apply h_suspend|]. eapply Forall_impl; [exact Hps|]. intros p. apply finisher_handler. }
  destruct (creator _ _ _ _ _ _ Hh Hr Hnc Hclaim) as (i & p & w & kn & Hi & Hp & Hk).
  destruct (Forall_lookup_1 _ _ _ _ Hend Hi) as [o ->]. cbn in Hp. apply Hp in Hk.
  pose proof (Forall_lookup_1 _ _ _ _ Hw Hi) as Hf. cbn in Hf. destruct o as [r st| | | | |]; cbn in Hk; try by apply elem_of_nil in Hk.
  cbn in Hf. subst r. apply list_elem_of_singleton in Hk. apply claim_inj in Hk. subst st. exists i. split; [done|]. intros j Hj.
  eapply (one_winner claims_exactly); [exact Hh|exact Hr|exact Hj|exact Hi|apply claims_resuming..].
Qed.
