(* ===== verification/FileStore.v ===== *)
(** * The file backend of the continuation store (chassis/continuation/filestore/filestore.go)

    Keys become sanitized paths below a root.  Create-if-absent is a temp file, a
    hard link and a removal, below directories made on the way; here each
    file-system call is a step of its own, with writes in pieces and any call
    failing, and [FileStoreFacts] shows the whole to be the store that [ContStore] describes, one atomic call at a time. *)

From Stdlib Require Import Ascii String ZArith Lia Bool.
From stdpp Require Import base tactics list strings gmap relations.
From S2P Require Import Prelude GoStrings GoStrconv GoJson GoPath ContStore.

#[local] Open Scope string_scope.

(** ** Paths *)

(** [A-Za-z0-9._-] *)
Definition seg_byte (c : ascii) : bool :=
  let n := nat_of_ascii c in
  ((65 <=? n)%nat && (n <=? 90)%nat) || ((97 <=? n)%nat && (n <=? 122)%nat) || ((48 <=? n)%nat && (n <=? 57)%nat) || (c =c ".") || (c =c "_") || (c =c "-").
Definition safe_rune (r : string) : string :=
  match r with String c EmptyString => if seg_byte c then r else "_" | _ => "_" end.

Definition sanitizeSeg (s : string) : string :=
  if s =s "" then "_"
  else let s := runes_from safe_rune "_" 0 s in
       if sall (fun c => c =c ".") s then "_" ++ s else s.

(** [filepath.Join] of a list: the elements that are not empty, cleaned. *)
Definition JoinAll (l : list string) : string :=
  match filter (fun e => e <> "") l with [] => "" | l => Clean (String.concat "/" l) end.

Definition keyPath (root key : string) : string := JoinAll (root :: map sanitizeSeg (Split (TrimSlashes key) "/")).

Example keyPath_ex :
  map (keyPath "data") ["runs/r/stages/web/100"; "/../../etc/passwd"; "a b//."; ""] =
  ["data/runs/r/stages/web/100"; "data/_../_../etc/passwd"; "data/a_b/_/_."; "data/_"].
Proof. reflexivity. Qed.

(** A segment the sanitizer leaves as it is. *)
Definition safe_seg (s : string) : Prop := s <> "" /\ sall seg_byte s = true /\ sall (fun c => c =c ".") s = false.

Lemma safe_runes k s : sall seg_byte (runes_from safe_rune "_" k s) = true.
Proof.
  revert k; induction s as [|c s IH]; intros k; [done|]. cbn [runes_from]. destruct k as [|k]; [|apply IH].
  assert (Hs : forall r, sall seg_byte (safe_rune r) = true).
  { intros [|a [|b r]]; [done| |done]. cbn. destruct (seg_byte a) eqn:E; cbn; [by rewrite E|done]. }
  destruct (rune_size (String c s)); rewrite sall_app, ?Hs, IH; done.
Qed.

Lemma sanitizeSeg_safe s : safe_seg (sanitizeSeg s).
Proof.
  unfold sanitizeSeg. destruct (s =s "") eqn:Es; [done|]. apply String.eqb_neq in Es.
  pose proof (safe_runes 0 s) as Hs. destruct (sall (fun c => c =c ".") (runes_from safe_rune "_" 0 s)) eqn:Ed.
  - split; [done|]. rewrite sall_app, Hs. done.
  - split; [|done]. intros E. by rewrite E in Ed.
Qed.

Lemma safe_plain s : safe_seg s -> plain s.
Proof.
  intros (Hn & Hs & Hd). split_and!; [|done|intros ->; discriminate..].
  eapply sall_impl; [|exact Hs]. intros c. unfold seg_byte. destruct (c =c "/") eqn:E; [apply Ascii.eqb_eq in E as ->|]; done.
Qed.

(** ** Confinement *)

Lemma normal_app rooted ds ps : normal rooted ds -> Forall plain ps -> normal rooted (ds ++ ps).
Proof.
  intros (k & qs & -> & Hq & Hk) Hp. exists k, (qs ++ ps)%list. split; [by rewrite (assoc_L (++))|]. split; [by apply Forall_app|done].
Qed.

Lemma render_app rooted ds ps : ds <> [] -> ps <> [] -> render rooted (ds ++ ps) = render rooted ds ++ String "/" (String.concat "/" ps).
Proof.
  intros Hd Hp. induction ps as [|x ps IH] using rev_ind; [done|]. destruct ps as [|y ps].
  - by apply render_snoc.
  - rewrite (assoc_L (++)). rewrite render_snoc by (by destruct ds). rewrite IH by done. rewrite concat_snoc by done.
    by rewrite <- sapp_assoc.
Qed.

Lemma JoinAll_below D ps : dir_ok D -> ps <> [] -> Forall plain ps ->
  JoinAll (D :: ps) = D ++ String "/" (String.concat "/" ps) /\ dir_ok (D ++ String "/" (String.concat "/" ps)).
Proof.
  intros (rooted & ds & -> & Hd & Hn & Hl) Hp Hps.
  assert (Hn' := normal_app rooted ds ps Hn Hps). rewrite <- render_app by done.
  assert (Hne : render rooted ds <> "") by (by apply render_abs).
  assert (Hf : filter (fun e => e <> "") (render rooted ds :: ps) = render rooted ds :: ps).
  { rewrite filter_cons_True by done. f_equal. clear -Hps. induction Hps as [|x l Hx _ IH]; [done|].
    rewrite filter_cons_True by apply Hx. by rewrite IH. }
  split.
  - unfold JoinAll. rewrite Hf. destruct ps as [|p ps]; [done|].
    change (String.concat "/" (render rooted ds :: p :: ps)) with (render rooted ds ++ "/" ++ String.concat "/" (p :: ps)).
    change ("/" ++ String.concat "/" (p :: ps)) with (String "/" (String.concat "/" (p :: ps))).
    rewrite <- render_app by done. by apply Clean_render.
  - exists rooted, (ds ++ ps)%list. split; [done|]. split; [by destruct ds|]. split; [done|].
    rewrite last_app. destruct (last ps) as [x|] eqn:E; [|done]. intros [= ->].
    apply last_Some_elem_of in E. rewrite Forall_forall in Hps. by destruct (Hps _ E) as (_ & _ & _ & ?).
Qed.

(** every key stays below the root.  Whatever the key, dot-dot segments, empty
    segments and unsafe bytes included, its file is the root followed by plain
    path segments made of safe bytes: nothing outside the root is read, written or
    removed. *)
Theorem keyPath_confined root key :
  dir_ok root -> exists segs, segs <> [] /\ Forall safe_seg segs /\ keyPath root key = root ++ String "/" (String.concat "/" segs) /\
    Split (String.concat "/" segs) "/" = segs.
Proof.
  intros Hr. exists (map sanitizeSeg (Split (TrimSlashes key) "/")).
  assert (Hs : Forall safe_seg (map sanitizeSeg (Split (TrimSlashes key) "/"))) by (apply Forall_fmap, Forall_true; intros x; apply sanitizeSeg_safe).
  assert (Hp : Forall plain (map sanitizeSeg (Split (TrimSlashes key) "/"))) by (eapply Forall_impl; [exact Hs|]; apply safe_plain).
  assert (Hn : map sanitizeSeg (Split (TrimSlashes key) "/") <> []) by (intros E%map_eq_nil; by apply Split_not_nil in E).
  split_and!; [done|done|by apply JoinAll_below|]. apply Split_concat; [done|]. eapply Forall_impl; [exact Hp|]. by intros x [? _].
Qed.

(** ** Keys the sanitizer leaves alone *)

(** The keys of the chassis: safe segments, and no name of a temp file. *)
Definition canonical (key : string) : Prop :=
  exists segs, segs <> [] /\ Forall safe_seg segs /\ key = String.concat "/" segs /\
    forall base, last segs = Some base -> HasPrefix base ".tmp-" = false.

Lemma safe_ascii c : seg_byte c = true -> (bval c <? 128)%nat = true /\ (c =c "/") = false.
Proof. destruct c as [[] [] [] [] [] [] [] []]; (discriminate || by vm_compute). Qed.

Lemma safe_rune_id s : sall seg_byte s = true -> runes_from safe_rune "_" 0 s = s.
Proof.
  induction s as [|c s IH]; [done|]. cbn [sall]. intros [Hc Hs]%andb_true_iff. cbn [runes_from rune_size].
  destruct (safe_ascii c Hc) as [-> _]. cbn [stake safe_rune Nat.sub]. rewrite Hc. cbn. by rewrite IH.
Qed.

Lemma sanitizeSeg_id s : safe_seg s -> sanitizeSeg s = s.
Proof.
  intros (Hn & Hs & Hd). unfold sanitizeSeg. rewrite (proj2 (String.eqb_neq s "") Hn), (safe_rune_id s Hs). cbn zeta. by rewrite Hd.
Qed.

Lemma canonical_trim segs : segs <> [] -> Forall safe_seg segs -> TrimSlashes (String.concat "/" segs) = String.concat "/" segs.
Proof.
  intros Hn Hs. apply TrimSlashes_id.
  - destruct segs as [|s segs]; [done|]. apply Forall_cons in Hs as [(Hne & Hs & _) _]. destruct s as [|c s]; [done|].
    cbn [sall] in Hs. apply andb_true_iff in Hs as [[_ Hc]%safe_ascii _]. destruct segs; cbn; by rewrite Hc.
  - destruct segs as [|s segs _] using rev_ind; [done|]. apply Forall_app in Hs as [_ Hs]. apply Forall_singleton in Hs as (Hne & Hs & _).
    assert (E : exists t, String.concat "/" (segs ++ [s]) = t ++ s).
    { destruct segs as [|x segs]; [by exists ""|]. rewrite concat_snoc by done. exists (String.concat "/" (x :: segs) ++ "/"). by rewrite <- sapp_assoc. }
    destruct E as [t ->]. rewrite srev_app. destruct (srev s) as [|c r] eqn:Er.
    + apply (f_equal srev) in Er. by rewrite srev_srev in Er.
    + apply (f_equal srev) in Er. rewrite srev_srev, srev_cons in Er. rewrite Er, sall_app in Hs. apply andb_true_iff in Hs as [_ Hs].
      cbn [sall] in Hs. rewrite andb_true_r in Hs. apply safe_ascii in Hs as [_ Hc]. cbn. by rewrite Hc.
Qed.

Lemma keyPath_canonical root key : dir_ok root -> canonical key -> keyPath root key = root ++ String "/" key.
Proof.
  intros Hr (segs & Hn & Hs & -> & _). unfold keyPath. rewrite canonical_trim by done.
  assert (Hp : Forall plain segs) by (eapply Forall_impl; [exact Hs|]; apply safe_plain).
  rewrite Split_concat by (done || (eapply Forall_impl; [exact Hp|]; by intros x [? _])).
  replace (map sanitizeSeg segs) with segs; [by apply JoinAll_below|].
  clear -Hs. induction Hs as [|x l Hx _ IH]; [done|]. cbn. by rewrite sanitizeSeg_id, <- IH.
Qed.

(** ** The file system *)

(** What a name leads to: a regular file, by its inode, or a directory.  A name is
    a full path; what lies above the root of the store is left out. *)
Inductive Entry := EFile (ino : nat) | EDir.
#[global] Instance Entry_eq_dec : EqDecision Entry.
Proof. solve_decision. Defined.

(** Names and the contents of inodes. *)
Record FS := mkFS { fs_names : gmap string Entry; fs_data : gmap nat string }.

(** The directories on the way to the file of a key, from the root down: what
    [os.MkdirAll] of the file's directory walks, and what the kernel resolves. *)
Fixpoint dirs_from (pre segs : list string) : list string :=
  match segs with [] => [] | x :: segs => JoinAll pre :: dirs_from (pre ++ [x]) segs end.
Definition key_dirs (root key : string) : list string := dirs_from [root] (map sanitizeSeg (Split (TrimSlashes key) "/")).

Example key_dirs_ex : key_dirs "data" "runs/r/stages" = ["data"; "data/runs"; "data/runs/r"].
Proof. reflexivity. Qed.

Inductive Found := Here (e : Entry) | NoEntry | NotDirectory.

(** Path resolution: every element on the way must be a directory.  A missing one
    is [ENOENT] ([os.ErrNotExist]), a file in its place is [ENOTDIR]. *)
Fixpoint resolve (names : gmap string Entry) (dirs : list string) (path : string) : Found :=
  match dirs with
  | [] => match names !! path with Some e => Here e | None => NoEntry end
  | d :: dirs =>
      match names !! d with
      | Some EDir => resolve names dirs path
      | Some (EFile _) => NotDirectory
      | None => NoEntry
      end
  end.
Definition lookup_key (root : string) (fs : FS) (key : string) : Found := resolve (fs_names fs) (key_dirs root key) (keyPath root key).

Definition is_dir (names : gmap string Entry) (d : string) : bool := bool_decide (names !! d = Some EDir).
Definition empty_dir (names : gmap string Entry) (d : string) : Prop :=
  map_Forall (fun path (_ : Entry) => HasPrefix path (d ++ "/") = false) names.

Section Machine.
Context {A : Type}.
(** A document is written as bytes and read back from them. *)
Variables (root : string) (bytes_of : Doc -> string) (doc_of : string -> Doc).

(** A goroutine over the file store: between calls, or inside one. *)
Inductive Thread :=
  | Idle (p : Prog A)
  | Making (key : string) (d : Doc) (k : option StoreErr -> Prog A) (dirs : list string)  (** [os.MkdirAll] *)
  | Writing (key : string) (d : Doc) (k : option StoreErr -> Prog A) (tmp : string) (ino : nat) (rest : string)
  | Linking (key : string) (d : Doc) (k : option StoreErr -> Prog A) (tmp : string)
  | Removing (p : Prog A) (tmp : string)                     (** the deferred [os.Remove] *)
  | Reading (k : Doc + StoreErr -> Prog A) (ino : nat).      (** the file is open *)

(** One system call.  Any of them may fail; a read that fails is one that fails
    when the file is opened, as it does on a directory or below a file.  [os.Stat]
    and [os.Link] take a directory for something that exists, and [os.Remove]
    removes one that is empty. *)
Inductive fstep : Thread -> FS -> Thread -> FS -> Prop :=
  | f_mkdir key d k fs : fstep (Idle (SCreate key d k)) fs (Making key d k (key_dirs root key)) fs
  | f_mkdir_there key d k dir dirs fs : fs_names fs !! dir = Some EDir -> fstep (Making key d k (dir :: dirs)) fs (Making key d k dirs) fs
  | f_mkdir_new key d k dir dirs fs :
      fs_names fs !! dir = None -> fstep (Making key d k (dir :: dirs)) fs (Making key d k dirs) (mkFS (<[dir := EDir]> (fs_names fs)) (fs_data fs))
  | f_mkdir_fail key d k dirs fs e : fstep (Making key d k dirs) fs (Idle (k (Some (ErrIO e)))) fs
  | f_temp key d k fs x tmp ino :
      tmp = Dir (keyPath root key) ++ "/.tmp-" ++ x -> no_slash x -> forallb (is_dir (fs_names fs)) (key_dirs root key) = true ->
      fs_names fs !! tmp = None -> fs_data fs !! ino = None ->
      fstep (Making key d k []) fs (Writing key d k tmp ino (bytes_of d)) (mkFS (<[tmp := EFile ino]> (fs_names fs)) (<[ino := ""]> (fs_data fs)))
  | f_write key d k tmp ino b piece rest fs :
      fs_data fs !! ino = Some b ->
      fstep (Writing key d k tmp ino (piece ++ rest)) fs (Writing key d k tmp ino rest) (mkFS (fs_names fs) (<[ino := b ++ piece]> (fs_data fs)))
  | f_write_fail key d k tmp ino rest fs e :
      fstep (Writing key d k tmp ino rest) fs (Removing (k (Some (ErrIO e))) tmp) fs
  | f_close key d k tmp ino fs : fstep (Writing key d k tmp ino "") fs (Linking key d k tmp) fs
  | f_link key d k tmp ino fs :
      fs_names fs !! tmp = Some (EFile ino) -> forallb (is_dir (fs_names fs)) (key_dirs root key) = true -> lookup_key root fs key = NoEntry ->
      fstep (Linking key d k tmp) fs (Removing (k None) tmp) (mkFS (<[keyPath root key := EFile ino]> (fs_names fs)) (fs_data fs))
  | f_link_exists key d k tmp fs e :
      lookup_key root fs key = Here e -> fstep (Linking key d k tmp) fs (Removing (k (Some ErrExists)) tmp) fs
  | f_link_fail key d k tmp fs e : fstep (Linking key d k tmp) fs (Removing (k (Some (ErrIO e))) tmp) fs
  | f_remove p tmp fs : fs_names fs !! tmp <> Some EDir -> fstep (Removing p tmp) fs (Idle p) (mkFS (delete tmp (fs_names fs)) (fs_data fs))
  | f_remove_fail p tmp fs : fstep (Removing p tmp) fs (Idle p) fs
  | f_open key k fs ino : lookup_key root fs key = Here (EFile ino) -> fstep (Idle (SGet key k)) fs (Reading k ino) fs
  | f_open_absent key k fs : lookup_key root fs key = NoEntry -> fstep (Idle (SGet key k)) fs (Idle (k (inr ErrNotFound))) fs
  | f_open_fail key k fs e : fstep (Idle (SGet key k)) fs (Idle (k (inr (ErrIO e)))) fs
  | f_read k ino b fs : fs_data fs !! ino = Some b -> fstep (Reading k ino) fs (Idle (k (inl (doc_of b)))) fs
  | f_stat key k fs e : lookup_key root fs key = Here e -> fstep (Idle (SExists key k)) fs (Idle (k (inl true))) fs
  | f_stat_absent key k fs : lookup_key root fs key = NoEntry -> fstep (Idle (SExists key k)) fs (Idle (k (inl false))) fs
  | f_stat_fail key k fs e : fstep (Idle (SExists key k)) fs (Idle (k (inr (ErrIO e)))) fs
  | f_unlink key k fs e :
      lookup_key root fs key = Here e -> (e = EDir -> empty_dir (fs_names fs) (keyPath root key)) ->
      fstep (Idle (SDelete key k)) fs (Idle (k None)) (mkFS (delete (keyPath root key) (fs_names fs)) (fs_data fs))
  | f_unlink_absent key k fs : lookup_key root fs key = NoEntry -> fstep (Idle (SDelete key k)) fs (Idle (k None)) fs
  | f_unlink_fail key k fs e : fstep (Idle (SDelete key k)) fs (Idle (k (Some (ErrIO e)))) fs
  | f_now t k fs : fstep (Idle (Now k)) fs (Idle (k t)) fs
  | f_fresh x k fs : fstep (Idle (Fresh k)) fs (Idle (k x)) fs
  | f_rand r k fs : (forall e, r = inr e -> exists m, e = ErrIO m) -> fstep (Idle (Rand k)) fs (Idle (k r)) fs.

Definition FSys : Type := list Thread * FS.

Inductive fpstep : FSys -> FSys -> Prop :=
  | fpstep_at i ths th th' fs fs' :
      ths !! i = Some th -> fstep th fs th' fs' -> fpstep (ths, fs) (<[i := th']> ths, fs').

(** ** What the files say *)

(** The document at a key. *)
Definition file_doc (fs : FS) (key : string) : option Doc :=
  match fs_names fs !! keyPath root key with Some (EFile ino) => doc_of <$> fs_data fs !! ino | _ => None end.

(** The keys in use: ones the sanitizer leaves alone, none of them the directory
    of another. *)
Variable K : string -> Prop.
Definition keys_apart : Prop :=
  (forall key, K key -> canonical key) /\ (forall key key', K key -> K key' -> HasPrefix key' (key ++ "/") = false).

(** The files hold the documents of a store: no directory stands in the place of a
    key's file, every file of a key has its directories, and every name of a file
    leads to an inode. *)
Definition rep (fs : FS) (s : Store) : Prop := forall key, K key -> s !! key = file_doc fs key.
Definition well_placed (fs : FS) : Prop :=
  (forall path ino, fs_names fs !! path = Some (EFile ino) -> is_Some (fs_data fs !! ino)) /\
  forall key, K key ->
    match fs_names fs !! keyPath root key with
    | Some (EFile _) => forallb (is_dir (fs_names fs)) (key_dirs root key) = true
    | Some EDir => False
    | None => True
    end.

(** The program lists nothing, uses keys of [K], and the documents it creates read
    back as they were written. *)
Fixpoint keyed (p : Prog A) : Prop :=
  match p with
  | Ret _ => True
  | SCreate key d k => (K key /\ doc_of (bytes_of d) = d) /\ forall r, keyed (k r)
  | SGet key k => K key /\ forall r, keyed (k r)
  | SExists key k => K key /\ forall r, keyed (k r)
  | SList _ _ => False
  | SDelete key k => K key /\ forall r, keyed (k r)
  | Now k => forall t, keyed (k t)
  | Fresh k => forall x, keyed (k x)
  | Rand k => forall r, keyed (k r)
  end.
End Machine.
