(* ===== verification/FileStoreFacts.v ===== *)
(** * The file backend is an atomic store

    Every interleaving of system calls of goroutines over the file backend is an
    interleaving of whole store calls: a document appears at its link, complete,
    and at most one creator of a key is told it created it.  Listings, which walk
    the tree call by call, are left out. *)

From Stdlib Require Import Ascii String ZArith Lia Bool.
From stdpp Require Import base tactics list strings gmap relations.
From S2P Require Import Prelude GoStrings GoStrconv GoPath ContStore FileStore.

#[local] Open Scope string_scope.

Section Refine.
Context {A : Type}.
Variables (root : string) (bytes_of : Doc -> string) (doc_of : string -> Doc).
Variable K : string -> Prop.
Hypothesis root_ok : dir_ok root.
Hypothesis keys_ok : keys_apart K.
Abbreviation thread := (@Thread A).
Abbreviation keyed_ p := (keyed bytes_of doc_of K p).
Implicit Types (fs : FS) (s : Store).

Lemma K_canonical key : K key -> canonical key.
Proof. apply keys_ok. Qed.

(** A name no key has. *)
Definition temp_name (tmp : string) : Prop := forall key, K key -> tmp <> keyPath root key.

Lemma temp_name_of D x : no_slash x -> temp_name (D ++ "/.tmp-" ++ x).
Proof.
  intros Hx key Hk%K_canonical. rewrite keyPath_canonical by done. destruct Hk as (segs & Hn & Hs & -> & Hl). intros E.
  apply (f_equal (fun p => last (Split p "/"))) in E. change ("/.tmp-" ++ x) with (String "/" (".tmp-" ++ x)) in E.
  rewrite !Split_app_sep, !last_app in E. rewrite (Split_no_sep (".tmp-" ++ x)) in E by exact Hx. cbn [last] in E.
  rewrite Split_concat in E; [|done|].
  - destruct (last segs) as [base|] eqn:El; [|by apply last_None in El]. injection E as <-. specialize (Hl _ eq_refl).
    change (String.prefix ".tmp-" (".tmp-" ++ x) = false) in Hl. by rewrite prefix_app in Hl.
  - eapply Forall_impl; [exact Hs|]. intros w Hw. by destruct (safe_plain w Hw).
Qed.

Lemma keyPath_inj key key' : K key -> K key' -> keyPath root key = keyPath root key' -> key = key'.
Proof. intros Hk%K_canonical Hk'%K_canonical. rewrite !keyPath_canonical by done. intros E%sapp_inj_l. by injection E. Qed.

(** *** The directories of keys *)

Lemma dirs_from_elem pre segs dir :
  dir ∈ dirs_from pre segs -> exists l r, segs = (l ++ r)%list /\ r <> [] /\ dir = JoinAll (pre ++ l).
Proof.
  revert pre; induction segs as [|x segs IH]; intros pre; cbn; [by intros ?%elem_of_nil|].
  intros [->|H]%elem_of_cons; [exists [], (x :: segs); by rewrite app_nil_r|].
  destruct (IH _ H) as (l & r & -> & Hr & ->). exists (x :: l), r. split_and!; [done..|]. by rewrite <- (assoc_L (++)).
Qed.

(** A directory of one key is not the file of another. *)
Lemma dir_no_key key key' dir : K key -> K key' -> dir ∈ key_dirs root key -> dir <> keyPath root key'.
Proof.
  intros Hk Hk' (l & r & E & Hr & ->)%dirs_from_elem. pose proof (proj2 keys_ok key' key Hk' Hk) as Hp.
  rewrite keyPath_canonical by (done || by apply K_canonical).
  destruct (K_canonical _ Hk) as (segs & Hn & Hs & -> & _). revert Hp E. rewrite canonical_trim by done.
  assert (Hps : Forall plain segs) by (eapply Forall_impl; [exact Hs|]; apply safe_plain).
  rewrite Split_concat by (done || (eapply Forall_impl; [exact Hps|]; by intros x [? _])).
  replace (map sanitizeSeg segs) with segs by (clear -Hs; induction Hs as [|x t Hx _ IH]; [done|]; cbn; by rewrite sanitizeSeg_id, <- IH).
  intros Hp ->. apply Forall_app in Hps as [Hl _]. destruct l as [|x l].
  - intros E. destruct root_ok as (rooted & ds & Er & Hd & Hnm & _). change (JoinAll [root] = root ++ String "/" key') in E.
    assert (E0 : JoinAll [root] = root).
    { unfold JoinAll. rewrite filter_cons_True by (rewrite Er; by apply render_abs). cbn. rewrite Er. by apply Clean_render. }
    rewrite E0 in E. apply (f_equal String.length) in E. rewrite slen_app in E. cbn in E. lia.
  - change ([root] ++ x :: l)%list with (root :: x :: l). intros E.
    rewrite (proj1 (JoinAll_below root (x :: l) root_ok ltac:(done) Hl)) in E. apply sapp_inj_l in E. injection E as <-.
    revert Hp. rewrite <- not_true_iff_false. intros H. apply H.
    assert (Ec : String.concat "/" ((x :: l) ++ r) = (String.concat "/" (x :: l) ++ "/") ++ String.concat "/" r).
    { clear -Hr. revert x; induction l as [|y l IH]; intros x.
      { destruct r as [|y r]; [done|]. change (x ++ "/" ++ String.concat "/" (y :: r) = (x ++ "/") ++ String.concat "/" (y :: r)). by rewrite sapp_assoc. }
      change (x ++ "/" ++ String.concat "/" ((y :: l) ++ r) = ((x ++ "/" ++ String.concat "/" (y :: l)) ++ "/") ++ String.concat "/" r).
      by rewrite IH, <- !sapp_assoc. }
    rewrite Ec. apply prefix_app.
Qed.

(** Resolution, when nothing stands where it should not. *)
Lemma resolve_here names dirs path e : resolve names dirs path = Here e -> names !! path = Some e.
Proof.
  induction dirs as [|d dirs IH]; cbn; [destruct (names !! path); by intros [= ->]|]. by destruct (names !! d) as [[]|]; [|apply IH|].
Qed.
Lemma resolve_there names dirs path e : forallb (is_dir names) dirs = true -> names !! path = Some e -> resolve names dirs path = Here e.
Proof.
  intros H Hp. induction dirs as [|d dirs IH]; cbn in *; [by rewrite Hp|]. apply andb_true_iff in H as [->%bool_decide_eq_true Hd]. auto.
Qed.

Lemma found_file fs key e : well_placed root K fs -> K key -> lookup_key root fs key = Here e ->
  exists ino, e = EFile ino /\ fs_names fs !! keyPath root key = Some (EFile ino).
Proof.
  intros [_ Hw] Hk Hf%resolve_here. specialize (Hw key Hk). rewrite Hf in Hw. destruct e as [ino|]; [eauto|done].
Qed.
Lemma found_nothing fs key : well_placed root K fs -> K key -> lookup_key root fs key = NoEntry -> fs_names fs !! keyPath root key = None.
Proof.
  intros [_ Hw] Hk Hf. specialize (Hw key Hk). destruct (fs_names fs !! keyPath root key) as [[ino|]|] eqn:E; [|done..].
  unfold lookup_key in Hf. by rewrite (resolve_there _ _ _ _ Hw E) in Hf.
Qed.

(** ** The invariant *)

Definition holds (th : thread) : option string :=
  match th with Writing _ _ _ tmp _ _ | Linking _ _ _ tmp | Removing _ tmp => Some tmp | _ => None end.

(** What a goroutine is at, in files and in store calls. *)
Definition rel (fs : FS) (th : thread) (q : Prog A) : Prop :=
  keyed_ q /\
  match th with
  | Idle p => q = p
  | Making key d k dirs => q = SCreate key d k /\ forall dir, dir ∈ dirs -> dir ∈ key_dirs root key
  | Writing key d k tmp ino rest =>
      q = SCreate key d k /\ temp_name tmp /\ fs_names fs !! tmp = Some (EFile ino) /\
      (exists b, fs_data fs !! ino = Some b /\ b ++ rest = bytes_of d) /\
      (forall path, path <> tmp -> fs_names fs !! path <> Some (EFile ino))
  | Linking key d k tmp =>
      q = SCreate key d k /\ temp_name tmp /\ exists ino, fs_names fs !! tmp = Some (EFile ino) /\ fs_data fs !! ino = Some (bytes_of d)
  | Removing p tmp => q = p /\ temp_name tmp /\ exists ino, fs_names fs !! tmp = Some (EFile ino)
  | Reading k ino => exists b, fs_data fs !! ino = Some b /\ q = k (inl (doc_of b))
  end.

Lemma held_there fs th q tmp : rel fs th q -> holds th = Some tmp -> (exists ino, fs_names fs !! tmp = Some (EFile ino)) /\ temp_name tmp.
Proof.
  intros [_ H] Ht. destruct th; cbn in Ht; try done; injection Ht as ->.
  - destruct H as (_ & ? & -> & _). eauto.
  - destruct H as (_ & ? & ino & -> & _). eauto.
  - by destruct H as (_ & ? & ?).
Qed.

Record finv (ths : list thread) (fs : FS) (qs : list (Prog A)) (s : Store) : Prop := {
  fi_rel : Forall2 (rel fs) ths qs;
  fi_rep : rep root doc_of K fs s;
  fi_data : well_placed root K fs;
  fi_held : forall i j th th' tmp, ths !! i = Some th -> ths !! j = Some th' -> holds th = Some tmp -> holds th' = Some tmp -> i = j;
  fi_read : forall i j key d k tmp ino rest k', ths !! i = Some (Writing key d k tmp ino rest) -> ths !! j = Some (Reading k' ino) -> False }.

(** Another goroutine's call does not disturb: it changes no held name and gives
    no second name to a file being written. *)
Lemma rel_frame fs fs' th q :
  rel fs th q -> fs_data fs ⊆ fs_data fs' ->
  (forall tmp, holds th = Some tmp -> fs_names fs' !! tmp = fs_names fs !! tmp) ->
  (forall path ino, fs_names fs' !! path = Some (EFile ino) -> fs_names fs !! path = Some (EFile ino) \/
     forall key d k tmp rest, th <> Writing key d k tmp ino rest) ->
  rel fs' th q.
Proof.
  intros [Hk H] Hd Hh Hn. split; [done|]. destruct th as [p|key d k dirs|key d k tmp ino rest|key d k tmp|p tmp|k ino]; try done.
  - destruct H as (-> & Ht & Hi & (b & Hb & Hr) & Hx). split_and!; [done|done|by rewrite Hh|exists b; split; [by eapply lookup_weaken|done]|].
    intros path Hp Hpi. destruct (Hn path ino Hpi) as [Ho|Ho]; [by eapply Hx|by eapply Ho].
  - destruct H as (-> & Ht & ino & Hi & Hb). split_and!; [done|done|]. exists ino. rewrite Hh by done. split; [done|by eapply lookup_weaken].
  - destruct H as (-> & Ht & Hi). by rewrite Hh.
  - destruct H as (b & Hb & ->). exists b. split; [by eapply lookup_weaken|done].
Qed.

(** One goroutine moves and the files change by [fs']; the others keep theirs. *)
Lemma finv_update ths fs qs s i th th' fs' q' s' :
  finv ths fs qs s -> ths !! i = Some th -> rel fs' th' q' ->
  (forall j th q, j <> i -> ths !! j = Some th -> rel fs th q -> rel fs' th q) ->
  rep root doc_of K fs' s' -> well_placed root K fs' ->
  (forall tmp, holds th' = Some tmp -> holds th = Some tmp \/ forall j th, j <> i -> ths !! j = Some th -> holds th <> Some tmp) ->
  (forall key d k tmp ino rest, th' = Writing key d k tmp ino rest ->
     (exists rest', th = Writing key d k tmp ino rest') \/ forall j k', ths !! j <> Some (Reading k' ino)) ->
  (forall k ino, th' = Reading k ino -> forall j key d k tmp rest, ths !! j <> Some (Writing key d k tmp ino rest)) ->
  finv (<[i := th']> ths) fs' (<[i := q']> qs) s'.
Proof.
  intros [Hrel Hrep Hdata Hheld Hread] Hi Hr Hframe Hrep' Hdata' Hh Hw Hrd.
  assert (Hl : i < length ths) by (by eapply lookup_lt_Some).
  assert (Hcase : forall j x, <[i := th']> ths !! j = Some x -> (j = i /\ x = th') \/ (j <> i /\ ths !! j = Some x)).
  { intros j x Hj. destruct (decide (i = j)) as [<-|Hne].
    - rewrite list_lookup_insert_eq in Hj by done. injection Hj as <-. by left.
    - rewrite list_lookup_insert_ne in Hj by done. by right. }
  split; [|done|done| |].
  - apply Forall2_same_length_lookup. split; [rewrite !length_insert; by eapply Forall2_length|].
    intros j x y Hx Hy. destruct (Hcase j x Hx) as [[-> ->]|[Hne Hx']].
    + rewrite list_lookup_insert_eq in Hy by (rewrite <- (Forall2_length _ _ _ Hrel); done). by injection Hy as <-.
    + rewrite list_lookup_insert_ne in Hy by done. eapply Hframe; [done..|]. by eapply Forall2_lookup_lr.
  - intros j l x y tmp Hx Hy Htx Hty. destruct (Hcase _ _ Hx) as [[-> ->]|[Hne Hx']], (Hcase _ _ Hy) as [[-> ->]|[Hne' Hy']]; [done|..].
    + destruct (Hh tmp Htx) as [Ho|Ho]; [by eapply (Hheld i l)|by destruct (Ho l y)].
    + destruct (Hh tmp Hty) as [Ho|Ho]; [by eapply (Hheld j i)|by destruct (Ho j x)].
    + by eapply (Hheld j l).
  - intros j l key d k tmp ino rest k' Hx Hy. destruct (Hcase _ _ Hx) as [[-> E]|[Hne Hx']], (Hcase _ _ Hy) as [[-> E']|[Hne' Hy']].
    + by rewrite <- E in E'.
    + destruct (Hw key d k tmp ino rest (eq_sym E)) as [[rest' ->]|Ho]; [by eapply Hread|by eapply Ho].
    + by eapply (Hrd k' ino (eq_sym E')).
    + by eapply Hread.
Qed.

(** ** One system call *)

(** The store's side of a call: nothing yet, or a whole store call. *)
Definition follow (q : Prog A) (s : Store) (q' : Prog A) (s' : Store) : Prop := (q' = q /\ s' = s) \/ step true q s q' s'.

Lemma follow_stay q s : follow q s q s.
Proof. by left. Qed.

Lemma follow_pool qs s i q q' s' : qs !! i = Some q -> follow q s q' s' -> rtc (pstep true) (qs, s) (<[i := q']> qs, s').
Proof.
  intros Hq [[-> ->]|H]; [rewrite list_insert_id by done; done|]. apply rtc_once. by eapply pstep_at.
Qed.

Abbreviation moves ths qs s i th' fs' :=
  (exists q q' s', qs !! i = Some q /\ follow q s q' s' /\ finv (<[i := th']> ths) fs' (<[i := q']> qs) s').

(** A call that leaves the files alone and holds no new name. *)
Lemma moves_quiet ths fs qs s i th th' q q' :
  finv ths fs qs s -> ths !! i = Some th -> qs !! i = Some q -> follow q s q' s -> rel fs th' q' ->
  (forall tmp, holds th' = Some tmp -> holds th = Some tmp) ->
  (forall key d k tmp ino rest, th' <> Writing key d k tmp ino rest) ->
  (forall k ino, th' = Reading k ino -> forall j key d k tmp rest, ths !! j <> Some (Writing key d k tmp ino rest)) ->
  moves ths qs s i th' fs.
Proof.
  intros Hf Hi Hq Hst Hr Hh Hw Hrd. exists q, q', s. split_and!; [done..|]. eapply finv_update; try done; try apply Hf.
  - intros tmp Ht. left. auto.
  - intros key d k tmp ino rest E. by destruct (Hw key d k tmp ino rest).
Qed.

Lemma present fs s key : well_placed root K fs -> rep root doc_of K fs s -> K key ->
  is_Some (s !! key) <-> exists ino, fs_names fs !! keyPath root key = Some (EFile ino).
Proof.
  intros [Hd Hw] Hr Hk. rewrite (Hr key Hk). unfold file_doc. specialize (Hw key Hk).
  destruct (fs_names fs !! keyPath root key) as [[ino|]|] eqn:E; cbn; [|done|split; [by intros [? ?]|by intros [? ?]]].
  destruct (Hd _ _ E) as [b ->]. cbn. split; eauto.
Qed.

Lemma absent fs s key : rep root doc_of K fs s -> K key -> fs_names fs !! keyPath root key = None -> s !! key = None.
Proof. intros Hr Hk Hn. rewrite (Hr key Hk). unfold file_doc. by rewrite Hn. Qed.

(** Names change, but no directory goes and the files of keys stay. *)
Lemma placed_frame fs fs' :
  well_placed root K fs ->
  (forall path ino, fs_names fs' !! path = Some (EFile ino) -> is_Some (fs_data fs' !! ino)) ->
  (forall dir, fs_names fs !! dir = Some EDir -> fs_names fs' !! dir = Some EDir) ->
  (forall key, K key -> fs_names fs' !! keyPath root key = fs_names fs !! keyPath root key \/ fs_names fs' !! keyPath root key = None \/
     (exists ino, fs_names fs' !! keyPath root key = Some (EFile ino)) /\ forallb (is_dir (fs_names fs)) (key_dirs root key) = true) ->
  well_placed root K fs'.
Proof.
  intros [_ Hw] Hd Hdirs Hkeys. split; [done|]. intros key Hk.
  assert (Hup : forall dirs, forallb (is_dir (fs_names fs)) dirs = true -> forallb (is_dir (fs_names fs')) dirs = true).
  { intros dirs. rewrite !forallb_forall. intros H x Hx. specialize (H x Hx). unfold is_dir in *. rewrite bool_decide_eq_true in H |- *. by apply Hdirs. }
  specialize (Hw key Hk). destruct (Hkeys key Hk) as [->|[->|[[ino ->] H]]]; [|done|auto].
  destruct (fs_names fs !! keyPath root key) as [[]|]; auto.
Qed.

(** A directory is made: it is the file of no key. *)
Lemma moves_mkdir ths fs qs s i key d k dir dirs :
  finv ths fs qs s -> ths !! i = Some (Making key d k (dir :: dirs)) -> fs_names fs !! dir = None ->
  moves ths qs s i (Making key d k dirs) (mkFS (<[dir := EDir]> (fs_names fs)) (fs_data fs)).
Proof.
  intros Hf Hi Hn. destruct Hf as [Hrel Hrep Hdata Hheld Hread] eqn:EF.
  destruct (Forall2_lookup_l _ _ _ _ _ Hrel Hi) as (q & Hq & Hk & -> & Hds).
  assert (Hdir : forall key', K key' -> dir <> keyPath root key').
  { intros key' Hk'. apply (dir_no_key key key'); [apply Hk|done|]. apply Hds, list_elem_of_here. }
  exists (SCreate key d k), (SCreate key d k), s. split_and!; [done|by left|].
  eapply finv_update; try exact Hf; try exact Hi; try done.
  - split; [done|]. cbn. split; [done|]. intros x Hx. apply Hds. by apply list_elem_of_further.
  - intros j th q _ Hj Hr. eapply rel_frame; [exact Hr|done| |]; cbn.
    + intros tmp Ht. rewrite lookup_insert_ne; [done|]. intros <-. destruct (held_there _ _ _ _ Hr Ht) as [[? ?] _]. congruence.
    + intros path ino Hp. left. destruct (decide (dir = path)) as [<-|Hne]; [by rewrite lookup_insert_eq in Hp|by rewrite lookup_insert_ne in Hp].
  - intros key' Hk'. rewrite (Hrep key' Hk'). unfold file_doc. cbn. by rewrite lookup_insert_ne by by apply Hdir.
  - eapply placed_frame; [exact Hdata|..]; cbn.
    + intros path ino Hp. destruct (decide (dir = path)) as [<-|Hne]; [by rewrite lookup_insert_eq in Hp|]. rewrite lookup_insert_ne in Hp by done. by eapply (proj1 Hdata).
    + intros x Hx. rewrite lookup_insert_ne; [done|]. congruence.
    + intros key' Hk'. left. by rewrite lookup_insert_ne by by apply Hdir.
Qed.

(** A new temp file. *)
Lemma moves_temp ths fs qs s i key d k x ino :
  finv ths fs qs s -> ths !! i = Some (Making key d k []) -> no_slash x ->
  let tmp := Dir (keyPath root key) ++ "/.tmp-" ++ x in
  fs_names fs !! tmp = None -> fs_data fs !! ino = None ->
  moves ths qs s i (Writing key d k tmp ino (bytes_of d)) (mkFS (<[tmp := EFile ino]> (fs_names fs)) (<[ino := ""]> (fs_data fs))).
Proof.
  intros Hf Hi Hx tmp Hn Hd. destruct Hf as [Hrel Hrep Hdata Hheld Hread] eqn:EF.
  destruct (Forall2_lookup_l _ _ _ _ _ Hrel Hi) as (q & Hq & Hk & -> & _).
  assert (Ht : temp_name tmp) by (by apply temp_name_of).
  assert (Hin : forall path, fs_names fs !! path <> Some (EFile ino)) by (intros path Hp; destruct (proj1 Hdata _ _ Hp); congruence).
  exists (SCreate key d k), (SCreate key d k), s. split_and!; [done|by left|].
  eapply finv_update; try exact Hf; try exact Hi.
  - split; [done|]. cbn. split_and!; [done|done|by rewrite lookup_insert_eq|exists ""; by rewrite lookup_insert_eq|].
    intros path Hp. by rewrite lookup_insert_ne.
  - intros j th q _ Hj Hr. eapply rel_frame; [exact Hr|by apply insert_subseteq| |]; cbn.
    + intros tmp' Ht'. rewrite lookup_insert_ne; [done|]. intros <-. destruct (held_there _ _ _ _ Hr Ht') as [[? ?] _]. congruence.
    + intros path ino' Hp. destruct (decide (tmp = path)) as [<-|Hne]; [|left; by rewrite lookup_insert_ne in Hp].
      rewrite lookup_insert_eq in Hp. injection Hp as <-. right. intros ? ? ? ? ? ->. destruct Hr as [_ (_ & _ & Hp & _)]. by eapply Hin.
  - intros key' Hk'. rewrite (Hrep key' Hk'). unfold file_doc. cbn. rewrite lookup_insert_ne by by apply Ht.
    destruct (fs_names fs !! keyPath root key') as [[ino'|]|] eqn:E; cbn; [|done..]. rewrite lookup_insert_ne; [done|]. intros <-. by eapply Hin.
  - eapply placed_frame; [exact Hdata|..]; cbn.
    + intros path ino' Hp. destruct (decide (ino = ino')) as [<-|Hne]; [rewrite lookup_insert_eq; eauto|]. rewrite lookup_insert_ne by done.
      destruct (decide (tmp = path)) as [<-|Hne']; [rewrite lookup_insert_eq in Hp; congruence|]. rewrite lookup_insert_ne in Hp by done. by eapply (proj1 Hdata).
    + intros dir Hdir. rewrite lookup_insert_ne; [done|]. congruence.
    + intros key' Hk'. left. by rewrite lookup_insert_ne by by apply Ht.
  - intros tmp' [= <-]. right. intros j th Hji Hj Hth.
    destruct (Forall2_lookup_l _ _ _ _ _ Hrel Hj) as (q & _ & Hr). destruct (held_there _ _ _ _ Hr Hth) as [[? ?] _]. congruence.
  - intros ? ? ? ? ? ? [= <- <- <- <- <- <-]. right. intros j k' Hj. destruct (Forall2_lookup_l _ _ _ _ _ Hrel Hj) as (q & _ & _ & b & Hb & _). congruence.
  - done.
Qed.

(** A piece is written: the file has no other name and nobody reads it. *)
Lemma moves_write ths fs qs s i key d k tmp ino b piece rest :
  finv ths fs qs s -> ths !! i = Some (Writing key d k tmp ino (piece ++ rest)) -> fs_data fs !! ino = Some b ->
  moves ths qs s i (Writing key d k tmp ino rest) (mkFS (fs_names fs) (<[ino := b ++ piece]> (fs_data fs))).
Proof.
  intros Hf Hi Hb. destruct Hf as [Hrel Hrep Hdata Hheld Hread] eqn:EF.
  destruct (Forall2_lookup_l _ _ _ _ _ Hrel Hi) as (q & Hq & Hk & -> & Ht & Hn & (b' & Hb' & Hw) & Hx).
  exists (SCreate key d k), (SCreate key d k), s. split_and!; [done|by left|].
  assert (Hno : forall j th q, j <> i -> ths !! j = Some th -> rel fs th q -> forall path, holds th = Some path -> fs_names fs !! path <> Some (EFile ino)).
  { intros j th q Hji Hj Hr path Hp Hpi. destruct (decide (path = tmp)) as [->|Hne]; [|by eapply Hx]. by apply Hji, (Hheld j i th _ tmp Hj Hi). }
  eapply finv_update; try exact Hf; try exact Hi.
  - split; [done|]. cbn. split_and!; [done..| |done]. exists (b ++ piece). rewrite lookup_insert_eq. split; [done|]. rewrite <- Hw, <- sapp_assoc. congruence.
  - intros j th q Hji Hj Hr. pose proof (Hno j th q Hji Hj Hr) as Hn'. destruct Hr as [Hkq Hr]. split; [done|].
    destruct th as [p|? ? ? ?|key' d' k' tmp' ino' rest'|key' d' k' tmp'|p tmp'|k' ino']; try done; cbn.
    + destruct Hr as (-> & ? & Hi' & (b0 & Hb0 & Hr) & ?). split_and!; [done..| |done]. exists b0. rewrite lookup_insert_ne; [done|]. intros <-. by eapply Hn'.
    + destruct Hr as (-> & ? & ino' & Hi' & Hb0). split_and!; [done..|]. exists ino'. split; [done|]. rewrite lookup_insert_ne; [done|]. intros <-. by eapply Hn'.
    + destruct Hr as (b0 & Hb0 & ->). exists b0. rewrite lookup_insert_ne; [done|]. intros <-. by eapply Hread.
  - intros key' Hk'. rewrite (Hrep key' Hk'). unfold file_doc. cbn. destruct (fs_names fs !! keyPath root key') as [[ino'|]|] eqn:E; cbn; [|done..].
    rewrite lookup_insert_ne; [done|]. intros <-. eapply Hx; [|exact E]. intros E'. by apply (Ht key').
  - eapply placed_frame; [exact Hdata|..|by left]; cbn; [|done].
    intros path ino' Hp. destruct (decide (ino = ino')) as [<-|Hne]; [rewrite lookup_insert_eq; eauto|]. rewrite lookup_insert_ne by done. by eapply (proj1 Hdata).
  - intros tmp' [= <-]. by left.
  - intros ? ? ? ? ? ? [= <- <- <- <- <- <-]. left. eauto.
  - done.
Qed.

(** The link: the document appears, complete. *)
Lemma moves_link ths fs qs s i key d k tmp ino :
  finv ths fs qs s -> ths !! i = Some (Linking key d k tmp) -> fs_names fs !! tmp = Some (EFile ino) ->
  forallb (is_dir (fs_names fs)) (key_dirs root key) = true -> fs_names fs !! keyPath root key = None ->
  moves ths qs s i (Removing (k None) tmp) (mkFS (<[keyPath root key := EFile ino]> (fs_names fs)) (fs_data fs)).
Proof.
  intros Hf Hi Hn Hup Ha. destruct Hf as [Hrel Hrep Hdata Hheld Hread] eqn:EF.
  destruct (Forall2_lookup_l _ _ _ _ _ Hrel Hi) as (q & Hq & Hkk & -> & Ht & ino' & Hi' & Hb). destruct Hkk as [[Hkey Hback] Hk]. assert (ino' = ino) as -> by congruence.
  assert (Hs : s !! key = None) by (by apply (absent fs)).
  exists (SCreate key d k), (k None), (<[key := d]> s). split_and!; [done|right; by constructor|].
  eapply finv_update; try exact Hf; try exact Hi.
  - split; [apply Hk|]. cbn. split_and!; [done..|]. rewrite lookup_insert_ne; [eauto|]. intros E. by apply (Ht key).
  - intros j th q Hji Hj Hr. eapply rel_frame; [exact Hr|done| |]; cbn.
    + intros tmp' Ht'. rewrite lookup_insert_ne; [done|]. intros E. destruct (held_there _ _ _ _ Hr Ht') as [_ Hn']. by apply (Hn' key).
    + intros path ino' Hp. destruct (decide (keyPath root key = path)) as [<-|Hne]; [|left; by rewrite lookup_insert_ne in Hp].
      rewrite lookup_insert_eq in Hp. injection Hp as <-. right. intros key' d' k' tmp' rest' ->. destruct Hr as [_ (_ & _ & Hp & _ & Hx)].
      destruct (decide (tmp = tmp')) as [<-|Hne]; [|by eapply Hx]. by apply Hji, (Hheld j i _ _ tmp Hj Hi).
  - intros key' Hk'. unfold file_doc. cbn. destruct (decide (key = key')) as [<-|Hne].
    + rewrite !lookup_insert_eq. cbn. rewrite Hb. cbn. by rewrite Hback.
    + rewrite !lookup_insert_ne by (done || (intros E; by apply Hne, keyPath_inj)). by apply Hrep.
  - eapply placed_frame; [exact Hdata|..]; cbn.
    + intros path ino' Hp. destruct (decide (keyPath root key = path)) as [<-|Hne]; [rewrite lookup_insert_eq in Hp; injection Hp as <-; eauto|].
      rewrite lookup_insert_ne in Hp by done. by eapply (proj1 Hdata).
    + intros dir Hdir. rewrite lookup_insert_ne; [done|]. congruence.
    + intros key' Hk'. destruct (decide (key = key')) as [<-|Hne]; [right; right; rewrite lookup_insert_eq; eauto|].
      left. rewrite lookup_insert_ne; [done|]. intros E. by apply Hne, keyPath_inj.
  - intros tmp' [= <-]. by left.
  - done.
  - done.
Qed.

(** A name goes: a temp file of one's own, or the file of a key. *)
Lemma finv_unname ths fs qs s i th p q path s' :
  finv ths fs qs s -> ths !! i = Some th -> keyed_ p -> (forall j th' , j <> i -> ths !! j = Some th' -> holds th' <> Some path) ->
  fs_names fs !! path <> Some EDir -> rep root doc_of K (mkFS (delete path (fs_names fs)) (fs_data fs)) s' ->
  follow q s p s' -> qs !! i = Some q -> moves ths qs s i (Idle p) (mkFS (delete path (fs_names fs)) (fs_data fs)).
Proof.
  intros Hf Hi Hk Hh Hnd Hrep' Hst Hq. exists q, p, s'. split_and!; [done..|]. eapply finv_update; try exact Hf; try exact Hi; try done.
  - intros j th' q' Hji Hj Hr. eapply rel_frame; [exact Hr|done| |]; cbn.
    + intros tmp Ht. rewrite lookup_delete_ne; [done|]. intros <-. by eapply Hh.
    + intros path' ino Hp. left. by apply lookup_delete_Some in Hp as [_ ?].
  - eapply placed_frame; [apply Hf|..]; cbn.
    + intros path' ino [_ Hp]%lookup_delete_Some. by eapply (proj1 (fi_data _ _ _ _ Hf)).
    + intros dir Hdir. rewrite lookup_delete_ne; [done|]. congruence.
    + intros key _. destruct (decide (path = keyPath root key)) as [<-|Hne]; [right; left; by rewrite lookup_delete_eq|left; by rewrite lookup_delete_ne].
Qed.

Ltac quiet Hf Hi Hq :=
  eapply moves_quiet; [exact Hf|exact Hi|exact Hq| | |done|done|done].

(** Every system call is nothing or a whole call of the store. *)
Lemma fstep_moves ths fs qs s i th th' fs' :
  finv ths fs qs s -> ths !! i = Some th -> fstep root bytes_of doc_of th fs th' fs' -> moves ths qs s i th' fs'.
Proof.
  intros Hf Hi H. destruct (Forall2_lookup_l _ _ _ _ _ (fi_rel _ _ _ _ Hf) Hi) as (q & Hq & Hk & Hr).
  pose proof (fi_rep _ _ _ _ Hf) as Hrep. pose proof (fi_data _ _ _ _ Hf) as Hdata.
  destruct H as [key d k fs|key d k dir dirs fs Hn|key d k dir dirs fs Hn|key d k dirs fs e|key d k fs x tmp ino -> Hx Hup Hn Hd|key d k tmp ino b piece rest fs Hb
    |key d k tmp ino rest fs e|key d k tmp ino fs|key d k tmp ino fs Hn Hup Ha|key d k tmp fs e He|key d k tmp fs e|p tmp fs Hnd|p tmp fs
    |key k fs ino Hn|key k fs Hn|key k fs e|k ino b fs Hb|key k fs e Hn|key k fs Hn|key k fs e|key k fs e Hn He|key k fs Hn|key k fs e|t k fs|x k fs|r k fs Hre].
  - cbn in Hr. subst q. quiet Hf Hi Hq; [apply follow_stay|]. by split.
  - destruct Hr as [-> Hds]. quiet Hf Hi Hq; [apply follow_stay|]. split; [done|]. cbn. split; [done|]. intros y Hy. apply Hds. by apply list_elem_of_further.
  - by eapply moves_mkdir.
  - destruct Hr as [-> Hds]. quiet Hf Hi Hq; [right; by constructor|]. split; [apply Hk|done].
  - by eapply moves_temp.
  - by eapply moves_write.
  - destruct Hr as (-> & Ht & Hn & _). quiet Hf Hi Hq; [right; by apply (step_create_fail true)|]. split; [apply Hk|]. cbn. eauto.
  - destruct Hr as (-> & Ht & Hn & (b & Hb & Hw) & _). rewrite sapp_nil_r in Hw. subst b. quiet Hf Hi Hq; [apply follow_stay|]. split; [done|]. cbn. eauto.
  - assert (K key) by (destruct Hr as [-> _]; apply Hk). eapply moves_link; [done..|]. by apply found_nothing.
  - destruct Hr as (-> & Ht & ino & Hn & _). apply found_file in He as (ino' & -> & He); [|done|apply Hk]. quiet Hf Hi Hq.
    + right. constructor. apply (present fs s key Hdata Hrep); [apply Hk|eauto].
    + split; [apply Hk|]. cbn. eauto.
  - destruct Hr as (-> & Ht & ino & Hn & _). quiet Hf Hi Hq; [right; by apply (step_create_fail true)|]. split; [apply Hk|]. cbn. eauto.
  - destruct Hr as (-> & Ht & _). eapply finv_unname; [exact Hf|exact Hi|done| |done| |apply follow_stay|exact Hq].
    + intros j th' Hji Hj Hh. by apply Hji, (fi_held _ _ _ _ Hf j i th' (Removing p tmp) tmp).
    + intros key Hkey. rewrite (Hrep key Hkey). unfold file_doc. cbn. by rewrite lookup_delete_ne by by apply Ht.
  - destruct Hr as (-> & Ht & Hn). quiet Hf Hi Hq; [apply follow_stay|]. by split.
  - cbn in Hr. subst q. destruct Hk as [Hkey Hk]. apply resolve_here in Hn. destruct (proj1 Hdata _ _ Hn) as [b Hb].
    assert (Hs : s !! key = Some (doc_of b)) by (rewrite (Hrep key Hkey); unfold file_doc; rewrite Hn; cbn; by rewrite Hb).
    eapply moves_quiet; [exact Hf|exact Hi|exact Hq| | |done|done|].
    + right. pose proof (step_get true key k s) as Hst. rewrite Hs in Hst. exact Hst.
    + split; [apply Hk|]. eauto.
    + intros k' ino' [= <- <-] j key' d' k'' tmp' rest' Hj.
      destruct (Forall2_lookup_l _ _ _ _ _ (fi_rel _ _ _ _ Hf) Hj) as (q' & _ & _ & _ & Ht & _ & _ & Hx). eapply Hx; [|exact Hn].
      intros E. by apply (Ht key).
  - cbn in Hr. subst q. destruct Hk as [Hkey Hk]. apply found_nothing, (absent fs s key Hrep Hkey) in Hn; [|done..].
    quiet Hf Hi Hq; [right; pose proof (step_get true key k s) as Hst; rewrite Hn in Hst; exact Hst|]. split; [apply Hk|done].
  - cbn in Hr. subst q. quiet Hf Hi Hq; [right; by apply (step_get_fail true)|]. split; [apply Hk|done].
  - destruct Hr as (b' & Hb' & ->). assert (b' = b) as -> by congruence. quiet Hf Hi Hq; [apply follow_stay|]. by split.
  - cbn in Hr. subst q. destruct Hk as [Hkey Hk]. apply found_file in Hn as (ino & -> & Hn); [|done..].
    assert (Hst := step_exists true key k s). rewrite bool_decide_true in Hst by (apply (present fs s key Hdata Hrep Hkey); eauto).
    quiet Hf Hi Hq; [right; exact Hst|]. split; [apply Hk|done].
  - cbn in Hr. subst q. destruct Hk as [Hkey Hk]. apply found_nothing, (absent fs s key Hrep Hkey) in Hn; [|done..].
    assert (Hst := step_exists true key k s). rewrite bool_decide_false in Hst by (rewrite Hn; by intros [? ?]).
    quiet Hf Hi Hq; [right; exact Hst|]. split; [apply Hk|done].
  - cbn in Hr. subst q. quiet Hf Hi Hq; [right; by apply (step_exists_fail true)|]. split; [apply Hk|done].
  - cbn in Hr. subst q. destruct Hk as [Hkey Hk]. apply found_file in Hn as (ino & -> & Hn); [|done..].
    eapply (finv_unname _ _ _ _ _ _ _ _ _ (delete key s)); [exact Hf|exact Hi|apply Hk| |by rewrite Hn| |right; by constructor|exact Hq].
    + intros j th' Hji Hj Hh. destruct (Forall2_lookup_l _ _ _ _ _ (fi_rel _ _ _ _ Hf) Hj) as (q' & _ & Hr').
      destruct (held_there _ _ _ _ Hr' Hh) as [_ Ht]. by apply (Ht key).
    + intros key' Hkey'. unfold file_doc. cbn. destruct (decide (key = key')) as [<-|Hne]; [by rewrite !lookup_delete_eq|].
      rewrite !lookup_delete_ne by (done || (intros E; by apply Hne, keyPath_inj)). by apply Hrep.
  - cbn in Hr. subst q. destruct Hk as [Hkey Hk]. apply found_nothing, (absent fs s key Hrep Hkey) in Hn; [|done..].
    pose proof (step_delete true key k s) as Hst. rewrite delete_id in Hst by done.
    quiet Hf Hi Hq; [right; exact Hst|]. split; [apply Hk|done].
  - cbn in Hr. subst q. quiet Hf Hi Hq; [right; by apply (step_delete_fail true)|]. split; [apply Hk|done].
  - cbn in Hr. subst q. quiet Hf Hi Hq; [right; by constructor|]. split; [apply Hk|done].
  - cbn in Hr. subst q. quiet Hf Hi Hq; [right; by constructor|]. split; [apply Hk|done].
  - cbn in Hr. subst q. assert (Hst : step true (Rand k) s (k r) s).
    { destruct r as [x|e]; [constructor|]. destruct (Hre e eq_refl) as [m ->]. by apply (step_rand_fail true). }
    quiet Hf Hi Hq; [right; exact Hst|]. split; [apply Hk|done].
Qed.

Lemma finv_start ps fs s : Forall (fun p => keyed_ p) ps -> rep root doc_of K fs s -> well_placed root K fs -> finv (map Idle ps) fs ps s.
Proof.
  intros Hk Hr Hd. assert (Hidle : forall i th, map Idle ps !! i = Some th -> exists p, th = Idle p).
  { intros i th Hi. change (map Idle ps) with (Idle <$> ps) in Hi. rewrite list_lookup_fmap in Hi. destruct (ps !! i); [|done]. injection Hi as <-. eauto. }
  split; [|done|done| |].
  - apply Forall2_fmap_l, Forall_Forall2_diag. eapply Forall_impl; [exact Hk|]. intros p Hp. by split.
  - intros i j th th' tmp Hi _ Hh. by destruct (Hidle i th Hi) as [p ->].
  - intros i j key d k tmp ino rest k' Hi _. by destruct (Hidle i _ Hi) as [p ?].
Qed.
End Refine.

(** C6: the file backend is the store.  Take any goroutines that write documents
    that read back and list nothing, using keys the sanitizer leaves alone of which
    none is the directory of another, over a directory tree that holds the
    documents of a store.  However their system calls interleave, directories made
    on the way, temp files written in pieces and any call failing, there is an
    interleaving of whole store calls, each atomic, in which every goroutine has
    got the same answers and after which the files say of those keys exactly what
    the store says. *)
Theorem filestore_refines {A} root bytes_of doc_of (K : string -> Prop) (ps : list (Prog A)) fs s ths fs' :
  dir_ok root -> keys_apart K -> Forall (keyed bytes_of doc_of K) ps ->
  rep root doc_of K fs s -> well_placed root K fs ->
  rtc (fpstep root bytes_of doc_of) (map Idle ps, fs) (ths, fs') ->
  exists qs s', rtc (pstep true) (ps, s) (qs, s') /\ rep root doc_of K fs' s' /\ well_placed root K fs' /\
    forall i p, ths !! i = Some (Idle p) -> qs !! i = Some p.
Proof.
  intros Hroot HK Hk Hr Hd Hsteps.
  enough (exists qs s', rtc (pstep true) (ps, s) (qs, s') /\ finv root bytes_of doc_of K ths fs' qs s') as (qs & s' & Hst & Hf).
  { exists qs, s'. split_and!; [done|apply Hf|apply Hf|]. intros i p Hi.
    destruct (Forall2_lookup_l _ _ _ _ _ (fi_rel _ _ _ _ _ _ _ _ Hf) Hi) as (q & Hq & _ & Hr'). cbn in Hr'. by subst q. }
  remember (ths, fs') as c eqn:Ec. change ths with ((ths, fs').1). change fs' with ((ths, fs').2) at 2. rewrite <- Ec. clear Ec.
  revert c Hsteps. apply (rtc_ind_r (fun c => exists qs s', rtc (pstep true) (ps, s) (qs, s') /\ finv root bytes_of doc_of K c.1 c.2 qs s')).
  - exists ps, s. split; [done|]. by apply finv_start.
  - intros c c' _ H (qs & s1 & Hst & Hf). destruct H as [i ths1 th th' fs1 fs2 Hi H].
    destruct (fstep_moves root bytes_of doc_of K Hroot HK _ _ _ _ _ _ _ _ Hf Hi H) as (q & q' & s2 & Hq & Hfol & Hf').
    exists (<[i := q']> qs), s2. split; [|done]. etrans; [exact Hst|]. by eapply follow_pool.
Qed.

(** Two creators of one key, in turns: the first to link wins, the other is told
    so. *)
Definition file_bytes (d : Doc) : string := match d with DBytes b => b | _ => "" end.
Definition race : list (Prog (option StoreErr)) := [Create "a/b" (DBytes "xy"); Create "a/b" (DBytes "z")].
Definition no_files : FS := mkFS {["data" := EDir]} ∅.
Definition race_key (key : string) : Prop := key = "a/b".

Lemma data_ok : dir_ok "data".
Proof. exists false, ["data"]. split_and!; [done|done| |done]. exists 0, ["data"]. split_and!; [done| |done]. by repeat constructor. Qed.
Lemma ab_canonical : canonical "a/b".
Proof. exists ["a"; "b"]. split_and!; [done| |done|by intros base [= <-]]. by repeat constructor. Qed.

Ltac call i :=
  eapply rtc_l; [eapply (fpstep_at _ _ _ i); [reflexivity|]|cbn [insert list_insert]].

Lemma race_keys : keys_apart race_key.
Proof. split; [intros key ->; exact ab_canonical|by intros ? ? -> ->]. Qed.

Lemma race_steps : exists fs, rtc (fpstep "data" file_bytes DBytes) (map Idle race, no_files) ([Idle (Ret None); Idle (Ret (Some ErrExists))], fs).
Proof.
  eexists. call 0; [apply f_mkdir|]. call 1; [apply f_mkdir|].
  call 0; [apply f_mkdir_there; vm_compute; reflexivity|]. call 1; [apply f_mkdir_there; vm_compute; reflexivity|].
  call 0; [apply f_mkdir_new; vm_compute; reflexivity|]. call 1; [apply f_mkdir_there; vm_compute; reflexivity|].
  call 0; [eapply (f_temp _ _ _ _ _ _ _ "1" _ 1); [reflexivity|reflexivity|vm_compute; reflexivity..]|].
  call 1; [eapply (f_temp _ _ _ _ _ _ _ "2" _ 2); [reflexivity|reflexivity|vm_compute; reflexivity..]|].
  call 0; [apply (f_write _ _ _ _ _ _ _ _ "" "x" "y"); vm_compute; reflexivity|].
  call 1; [apply (f_write _ _ _ _ _ _ _ _ "" "z" ""); vm_compute; reflexivity|].
  call 0; [apply (f_write _ _ _ _ _ _ _ _ "x" "y" ""); vm_compute; reflexivity|].
  call 1; [apply f_close|]. call 0; [apply f_close|].
  call 0; [apply (f_link _ _ _ _ _ _ _ 1); vm_compute; reflexivity|].
  call 1; [apply (f_link_exists _ _ _ _ _ _ _ _ (EFile 1)); vm_compute; reflexivity|].
  call 1; [apply f_remove; vm_compute; discriminate|]. call 0; [apply f_remove_fail|]. apply rtc_refl.
Qed.

Lemma filestore_refines_witness :
  exists qs (s' : Store), rtc (pstep true) (race, ∅) (qs, s') /\ qs !! 0 = Some (Ret None) /\ qs !! 1 = Some (Ret (Some ErrExists)).
Proof.
  destruct race_steps as [fs Hrace].
  assert (H1 : Forall (keyed file_bytes DBytes race_key) race) by (repeat constructor).
  assert (H2 : rep "data" DBytes race_key no_files ∅) by (intros key ->; vm_compute; reflexivity).
  assert (H3 : well_placed "data" race_key no_files).
  { split; [|intros key ->; vm_compute; exact I]. intros path ino H. cbn in H. apply lookup_singleton_Some in H as [_ H]. discriminate H. }
  destruct (filestore_refines "data" file_bytes DBytes race_key race no_files ∅ _ fs data_ok race_keys H1 H2 H3 Hrace) as (qs & s' & Hst & _ & _ & Hq).
  exists qs, s'. exact (conj Hst (conj (Hq 0 _ eq_refl) (Hq 1 _ eq_refl))).
Defined.

(** Why no key may be the directory of another: once [a/b] is there, the file
    backend says that [a] exists, although the store has no document at [a], and
    refuses to create it; reading below the file [a/b] fails, where the store
    says that nothing is there. *)
Definition two_files : FS := mkFS {["data" := EDir; "data/a" := EDir; "data/a/b" := EFile 1]} {[1 := "xy"]}.
Lemma directory_counts_as_key :
  fstep "data" file_bytes DBytes (Idle (Exists_ "a")) two_files (Idle (Ret (inl true))) two_files /\
  fstep "data" file_bytes DBytes (Linking "a" (DBytes "z") Ret "data/.tmp-1") two_files (Removing (Ret (Some ErrExists)) "data/.tmp-1") two_files /\
  file_doc "data" DBytes two_files "a" = None /\ lookup_key "data" two_files "a/b/c" = NotDirectory.
Proof.
  split_and!; [apply (f_stat _ _ _ _ _ _ EDir)|apply (f_link_exists _ _ _ _ _ _ _ _ EDir)|..]; vm_compute; reflexivity.
Qed.

Lemma keyPath_confined_witness :
  exists segs, segs <> [] /\ Forall safe_seg segs /\ keyPath "data" "../../etc/passwd" = "data" ++ String "/" (String.concat "/" segs) /\
    Split (String.concat "/" segs) "/" = segs.
Proof. exact (keyPath_confined "data" "../../etc/passwd" data_ok). Defined.
