(* ===== verification/Sweep.v ===== *)
(** * The janitor of suspended runs (chassis/server/personality/sweep/sweep.go)

    One pass over the continuation store: it fails the runs nobody will come back
    to and those whose resumer died, and deletes the runs that ended long ago.
    Each run gets the [verdict] its own documents say, and no other run's
    documents change; but a read that fails is taken for a run that is gone. *)

From Stdlib Require Import Ascii String ZArith Lia Bool.
From stdpp Require Import base tactics list strings gmap relations sorting.
From S2P Require Import Prelude GoStrings GoStrconv GoPath ContStore Runs Callbacks RunsFacts CallbackFacts.

#[local] Open Scope string_scope.

(** ** The pass *)

(** The JSON of a UTC time. *)
Fixpoint trim_zeros (s : string) : string := match s with String "0" s' => trim_zeros s' | _ => s end.
Definition frac (ns : Z) : string :=
  if (ns =? 0)%Z then "" else "." ++ srev (trim_zeros (srev (pad 9 ns))).
Definition json_time (t : Time) : string :=
  let sec := (t / Second)%Z in let tod := (sec mod 86400)%Z in
  let '(y, (m, d)) := civil (sec / 86400) in
  pad 4 y ++ "-" ++ pad 2 m ++ "-" ++ pad 2 d ++ "T" ++ pad 2 (tod / 3600) ++ ":" ++ pad 2 (tod / 60 mod 60) ++ ":" ++
  pad 2 (tod mod 60) ++ frac (t mod Second) ++ "Z".

Example json_time_ex : json_time (63843552000 * Second + 420)%Z = "2024-02-15T00:00:00.00000042Z".
Proof. vm_compute. reflexivity. Qed.

(** [t.Sub(u)], which stays in an int64. *)
Definition Sub (t u : Time) : Z := (Z.max (- 2 ^ 63) (Z.min (2 ^ 63 - 1) (t - u)))%Z.
Definition past (limit now : Time) : bool := negb (limit =? 0)%Z && (limit <? now)%Z.
Definition past_retention (limit : Time) (retention : Z) (now : Time) : bool := negb (limit =? 0)%Z && (limit + retention <? now)%Z.

Definition terminal_state (st : State) : bool := match st with StateCompleted | StateFailed => true | _ => false end.

Inductive Swept := Passed | Expired | Staled | Purged.

Section Pass.
(** The two settings, as durations. *)
Variables (retention staleAfter : Z).

(** The body of the loop for one run. *)
Definition sweep_run (now : Time) (id : string) : Prog Swept :=
  do! r <- ReadRunCreated id;
  match r with
  | inr _ => do! _ <- PurgeRun id; Ret Passed
  | inl rc =>
      do! r <- RunState id;
      match r with
      | inr _ => Ret Passed
      | inl state =>
          if terminal_state state then
            if past_retention (rc_ExpiresAt rc) retention now then
              do! e <- PurgeRun id; Ret (match e with None => Purged | Some _ => Passed end)
            else Ret Passed
          else if past (rc_ExpiresAt rc) now then
            do! _ <- FailRun id "expired";
            do! _ <- AppendEvent id "run.expired" [("expires_at", json_time (rc_ExpiresAt rc))];
            Ret Expired
          else
            do! c <- CurrentStage id;
            match c with
            | inl (Some cur) =>
                do! st <- StageState id (ss_Stage cur) (ss_Manifest cur);
                match st with
                | inl StateResumable =>
                    do! c <- ReadResumeClaim id (ss_Stage cur);
                    match c with
                    | inl (Some claimedAt) =>
                        if (staleAfter <? Sub now claimedAt)%Z then
                          do! _ <- FailRun id "resumer-stale";
                          do! _ <- AppendEvent id "run.resumer_stale" [("stage", ss_Stage cur)];
                          Ret Staled
                        else Ret Passed
                    | _ => Ret Passed
                    end
                | _ => Ret Passed
                end
            | _ => Ret Passed
            end
      end
  end.

(** The loop; the context ends before the run number [alive]. *)
Fixpoint sweep_runs (alive : nat) (now : Time) (ids : list string) : Prog (list Swept) :=
  match ids, alive with
  | id :: ids, S alive =>
      do! x <- sweep_run now id; do! xs <- sweep_runs alive now ids; Ret (x :: xs)
  | _, _ => Ret []
  end.

Definition sweep (alive : nat) : Prog (list Swept + Err) :=
  do! r <- ListRunIDs;
  match r with
  | inr e => Ret (inr e)
  | inl ids => do! now <- now_; do! xs <- sweep_runs alive now ids; Ret (inl xs)
  end.
End Pass.

(** ** Whose document it is *)

Abbreviation of_run id key := (run_id_of key = Some id).
Definition run_id (id : string) : Prop := id <> "" /\ no_slash id.

Lemma run_key id t : run_id id -> of_run id (runDir id ++ String "/" t).
Proof.
  intros [Hn Hs]. unfold run_id_of, runDir. rewrite <- sapp_assoc. change ("runs/" ++ id ++ String "/" t) with ("runs" ++ String "/" (id ++ String "/" t)).
  rewrite Split_cons_sep by done. rewrite Split_cons_sep by done. cbn. by rewrite (proj2 (String.eqb_neq _ _)).
Qed.

Lemma trim_run_dir id : run_id id -> TrimSlashes (runDir id) = runDir id.
Proof.
  intros [Hn Hs]. apply TrimSlashes_id; [done|]. unfold runDir. rewrite srev_app. destruct (srev id) as [|c r] eqn:E.
  { apply (f_equal srev) in E. by rewrite srev_srev in E. }
  cbn. assert ((c =c "/") = false) as ->; [|done]. apply (f_equal srev) in E. rewrite srev_srev, srev_cons in E. unfold no_slash in Hs.
  rewrite E, sall_app in Hs. apply andb_true_iff in Hs as [_ Hs]. cbn in Hs. rewrite andb_true_r in Hs. by apply negb_true_iff.
Qed.

Lemma run_id_of_inv id key : of_run id key -> run_id id /\ (key = runDir id \/ exists t, key = runDir id ++ String "/" t).
Proof.
  unfold run_id_of. intros H. pose proof (concat_Split key) as Hk. pose proof (Split_no_slash key) as Hs.
  destruct (Split key "/") as [|d [|i rest]]; [done..|]. destruct ((d =s "runs") && negb (i =s "")) eqn:E; [|done].
  injection H as ->. apply andb_true_iff in E as [->%String.eqb_eq Hi%negb_true_iff%String.eqb_neq].
  apply Forall_cons in Hs as [_ Hs]. apply Forall_cons in Hs as [Hs _]. split; [by split|]. destruct rest as [|w rest].
  - left. by rewrite <- Hk.
  - right. exists (String.concat "/" (w :: rest)). rewrite <- Hk. unfold runDir. rewrite <- sapp_assoc. done.
Qed.

(** The listing of a run's directory holds the run's documents. *)
Lemma under_run id key : run_id id -> under_key (TrimSlashes (runDir id)) key = true <-> of_run id key.
Proof.
  intros Hid. rewrite (trim_run_dir id Hid). unfold under_key, HasPrefix. rewrite orb_true_iff, String.eqb_eq, prefix_iff. split.
  - intros [->|[t ->]].
    + destruct Hid as [Hn Hs]. unfold run_id_of, runDir. change ("runs/" ++ id) with ("runs" ++ String "/" id).
      rewrite Split_cons_sep by done. rewrite Split_no_sep by done. cbn. by rewrite (proj2 (String.eqb_neq _ _)).
    + rewrite <- sapp_assoc. by apply run_key.
  - intros [_ [->|[t ->]]]%run_id_of_inv; [by left|right]. exists t. by rewrite <- sapp_assoc.
Qed.

Lemma run_id_no_slash id key : of_run id key -> run_id id.
Proof. intros H. by apply run_id_of_inv in H as [? _]. Qed.

(** ** Staying with one run *)

(** [R]: the keys the program looks at; [W]: those it writes or deletes.  A
    listing holds keys of [R]. *)
Fixpoint stays {A} (R W : string -> Prop) (p : Prog A) : Prop :=
  match p with
  | Ret _ => True
  | SCreate key _ k => R key /\ W key /\ forall r, stays R W (k r)
  | SGet key k => R key /\ forall r, stays R W (k r)
  | SExists key k => R key /\ forall r, stays R W (k r)
  | SList pre k =>
      (forall key, under_key (TrimSlashes pre) key = true -> R key) /\
      (forall keys, Forall R keys -> stays R W (k (inl keys))) /\ forall e, stays R W (k (inr e))
  | SDelete key k => W key /\ forall r, stays R W (k r)
  | Now k => forall t, stays R W (k t)
  | Fresh k => forall x, stays R W (k x)
  | Rand k => forall r, stays R W (k r)
  end.

Lemma stays_bind {A B} R W (p : Prog A) (f : A -> Prog B) : stays R W p -> (forall x, stays R W (f x)) -> stays R W (bind p f).
Proof.
  intros Hp Hf. induction p as [x|key d k IH|key k IH|key k IH|pre k IH|key k IH|k IH|k IH|k IH]; cbn in *; auto.
  - destruct Hp as (? & ? & ?). auto.
  - destruct Hp as (? & ?). auto.
  - destruct Hp as (? & ?). auto.
  - destruct Hp as (? & ? & ?). auto.
  - destruct Hp as (? & ?). auto.
Qed.

#[export] Instance string_le_trans : Transitive string_le.
Proof. intros s t u H1 H2. apply Is_true_true. eapply (transitivity (R := String.le)); by apply Is_true_true. Qed.
#[export] Instance string_le_total : Total string_le.
Proof. intros s t. apply String.leb_total. Qed.
#[export] Instance string_le_antisymm : AntiSymm (=) string_le.
Proof. intros s t. apply String.leb_antisym. Qed.

Lemma listing_elem pre (s : Store) key : key ∈ listing pre s <-> is_Some (s !! key) /\ under_key (TrimSlashes pre) key = true.
Proof.
  unfold listing. rewrite merge_sort_Permutation, list_elem_of_filter, list_elem_of_fmap. split.
  - intros [Hu ([k d] & -> & Hin%elem_of_map_to_list)]. cbn in *. eauto.
  - intros [[d Hd] Hu]. split; [done|]. exists (key, d). split; [done|]. by apply elem_of_map_to_list.
Qed.

(** What is listed depends on what is there below the prefix. *)
Lemma listing_agree pre (s1 s2 : Store) :
  (forall key, under_key (TrimSlashes pre) key = true -> s1 !! key = s2 !! key) -> listing pre s1 = listing pre s2.
Proof.
  intros H. apply (StronglySorted_unique string_le); [apply (StronglySorted_merge_sort string_le)..|].
  apply NoDup_Permutation; [unfold listing; rewrite merge_sort_Permutation; apply NoDup_filter, NoDup_fst_map_to_list..|].
  intros key. rewrite !listing_elem.
  split; intros [[d Hd] Hu]; (split; [|done]); exists d; [rewrite <- H|rewrite H]; done.
Qed.

Lemma stays_alone {A} R W t (p : Prog A) (s1 s2 : Store) :
  stays R W p -> (forall key, R key -> s1 !! key = s2 !! key) ->
  (alone t p s1).1 = (alone t p s2).1 /\
  (forall key, R key -> (alone t p s1).2 !! key = (alone t p s2).2 !! key) /\
  (forall key, ~ W key -> (alone t p s1).2 !! key = s1 !! key).
Proof.
  revert s1 s2; induction p as [x|key d k IH|key k IH|key k IH|pre k IH|key k IH|k IH|k IH|k IH]; intros s1 s2; cbn; try done.
  - intros (Hr & Hw & Hp) Hs. rewrite <- (Hs key Hr). destruct (s1 !! key) as [d'|] eqn:E; [by apply IH|].
    destruct (IH None (<[key := d]> s1) (<[key := d]> s2)) as (H1 & H2 & H3); [done| |].
    { intros key' Hk. destruct (decide (key = key')) as [<-|Hne]; [by rewrite !lookup_insert_eq|]. rewrite !lookup_insert_ne by done. by apply Hs. }
    split_and!; [done..|]. intros key' Hk. rewrite H3 by done. apply lookup_insert_ne. by intros ->.
  - intros [Hr Hp] Hs. rewrite <- (Hs key Hr). by apply IH.
  - intros [Hr Hp] Hs. rewrite <- (Hs key Hr). by apply IH.
  - intros (Hu & Hp & _) Hs. rewrite <- (listing_agree pre s1 s2) by auto. apply IH; [|done]. apply Hp.
    apply Forall_forall. intros key Hk. apply Hu. by apply listing_elem in Hk as [_ ?].
  - intros [Hw Hp] Hs. destruct (IH None (delete key s1) (delete key s2)) as (H1 & H2 & H3); [done| |].
    { intros key' Hk. destruct (decide (key = key')) as [<-|Hne]; [by rewrite !lookup_delete_eq|]. rewrite !lookup_delete_ne by done. by apply Hs. }
    split_and!; [done..|]. intros key' Hk. rewrite H3 by done. apply lookup_delete_ne. by intros ->.
  - intros Hp Hs. by apply IH.
  - intros Hp Hs. by apply IH.
  - intros Hp Hs. by apply IH.
Qed.

(** A program that creates and deletes nothing leaves the store. *)
Lemma reads_alone {A} t (p : Prog A) s : only (fun _ => False) p -> (alone t p s).2 = s.
Proof.
  revert s; induction p as [x|key d k IH|key k IH|key k IH|pre k IH|key k IH|k IH|k IH|k IH]; intros s; cbn; try done; auto. by intros [[] _].
Qed.

(** ** Purging *)

Lemma delete_all_alone t keys k (s : Store) :
  alone t (delete_all keys k) s = alone t k (foldl (fun s key => delete key s) s keys).
Proof. revert s; induction keys as [|key keys IH]; intros s; [done|]. cbn. apply IH. Qed.

Lemma deleted_lookup keys (s : Store) key :
  foldl (fun s key => delete key s) s keys !! key = if bool_decide (key ∈ keys) then None else s !! key.
Proof.
  revert s; induction keys as [|k keys IH]; intros s; [done|]. cbn. rewrite IH.
  destruct (decide (key ∈ keys)); [by rewrite !bool_decide_true by set_solver|]. rewrite bool_decide_false by done.
  destruct (decide (key = k)) as [->|Hne].
  - rewrite bool_decide_true by set_solver. by rewrite lookup_delete_eq.
  - rewrite bool_decide_false by set_solver. by rewrite lookup_delete_ne.
Qed.

Lemma only_collect P keys : only P (collect_opcs keys).
Proof.
  induction keys as [|k keys IH]; [done|]. cbn [collect_opcs]. destruct (HasSuffix k "/op-created.json"); [|done].
  apply only_bind; [by cbn|]. intros r. by apply only_bind.
Qed.

Lemma collect_alone t keys s : (alone t (collect_opcs keys) s).2 = s.
Proof. apply reads_alone, only_collect. Qed.

(** The handles of the run's ops that wait for a callback. *)
Definition run_opcs (s : Store) (id : string) : list string := (alone 0 (collect_opcs (listing (runDir id) s)) s).1.
Definition run_created (s : Store) (id : string) : option RunCreated := s !! runCreatedKey id ≫= as_run.

Lemma collect_any t t' keys s : (alone t (collect_opcs keys) s).1 = (alone t' (collect_opcs keys) s).1.
Proof.
  induction keys as [|k keys IH]; [done|]. cbn [collect_opcs]. destruct (HasSuffix k "/op-created.json"); [|done].
  cbn [get_as Get bind alone]. rewrite !alone_bind. cbn [alone fst]. by rewrite IH.
Qed.

Definition lookups_of (s : Store) (id : string) : list string :=
  map opContinuationKey (run_opcs s id) ++
  match run_created s id with Some rc => run_lookups (inl rc) | None => [] end.

(** What is left after a purge. *)
Lemma purge_alone t id (s : Store) :
  run_id id -> (alone t (PurgeRun id) s).1 = None /\
  forall key, (alone t (PurgeRun id) s).2 !! key =
    if bool_decide (of_run id key \/ key ∈ lookups_of s id) then None else s !! key.
Proof.
  intros Hid. unfold PurgeRun. rewrite alone_bind. unfold ReadRunCreated, get_as. rewrite alone_bind. cbn [Get alone fst snd bind List_].
  rewrite alone_bind, collect_alone, !delete_all_alone. split; [done|]. intros key. cbn [alone snd]. rewrite !deleted_lookup.
  rewrite (collect_any t 0). fold (run_opcs s id). unfold lookups_of, run_created.
  assert (Hl : key ∈ listing (runDir id) s <-> is_Some (s !! key) /\ of_run id key) by (rewrite listing_elem, under_run by done; done).
  assert (E : run_lookups (match match s !! runCreatedKey id with Some d => inl d | None => inr ErrNotFound end with
                           | inl d => match as_run d with Some x => inl x | None => inr EDecode end
                           | inr e => inr (EStore e) end) =
              match s !! runCreatedKey id ≫= as_run with Some rc => run_lookups (inl rc) | None => [] end).
  { destruct (s !! runCreatedKey id) as [d|]; cbn; [|done]. by destruct (as_run d). }
  rewrite E. clear E. case_bool_decide as H1.
  - rewrite bool_decide_true; [done|]. left. by apply Hl.
  - rewrite (bool_decide_ext (_ \/ _) ((of_run id key \/ key ∈ map opContinuationKey (run_opcs s id)) \/
      key ∈ match s !! runCreatedKey id ≫= as_run with Some rc => run_lookups (inl rc) | None => [] end)) by (rewrite elem_of_app; tauto).
    case_bool_decide as H2; [by rewrite bool_decide_true by by right|]. case_bool_decide as H3; [by rewrite bool_decide_true by (left; by right)|].
    case_bool_decide as H4; [|done]. destruct (s !! key) as [d|] eqn:Ed; [|done]. destruct H4 as [[H4|H4]|H4]; [|done..]. destruct H1. apply Hl. eauto.
Qed.

(** ** A pass over one run stays with it *)

Definition own (id key : string) : Prop := of_run id key \/ run_id_of key = None.

Section Stays.
Variables (id : string) (Hid : run_id id).
Abbreviation stays_ p := (stays (fun key => of_run id key) (own id) p).

(** Every document of a run is below its directory. *)
Lemma created_of_run : of_run id (runCreatedKey id).
Proof. apply (run_key id "run-created.json" Hid). Qed.
Lemma result_of_run : of_run id (resultKey id).
Proof. apply (run_key id "result.json" Hid). Qed.
Lemma failed_of_run : of_run id (runFailedKey id).
Proof. apply (run_key id "failed.json" Hid). Qed.
Lemma in_stage stage x : of_run id (stageDir id stage ++ x).
Proof. unfold stageDir. rewrite <- !sapp_assoc. apply (run_key id ("stages/" ++ stage ++ x) Hid). Qed.
Lemma claim_of_run stage : of_run id (resumeClaimKey id stage).
Proof. apply in_stage. Qed.
Lemma sfailed_of_run stage : of_run id (stageFailedKey id stage).
Proof. apply in_stage. Qed.
Lemma entry_of_run stage m : of_run id (entry_key id stage m).
Proof.
  unfold entry_key. case_match.
  - unfold opTerminalKey, opDir. rewrite <- !sapp_assoc. apply in_stage.
  - unfold deferredTerminalKey, deferredDir. rewrite <- !sapp_assoc. apply (run_key id ("deferred/" ++ _) Hid).
Qed.
Lemma event_of_run x : of_run id (runDir id ++ "/events/" ++ x).
Proof. apply (run_key id ("events/" ++ x) Hid). Qed.
Hint Resolve created_of_run result_of_run failed_of_run claim_of_run sfailed_of_run entry_of_run event_of_run : core.

Lemma stays_created : stays_ (ReadRunCreated id).
Proof. by cbn. Qed.

Lemma stays_collect keys : Forall (fun key => of_run id key) keys -> stays_ (collect_opcs keys).
Proof.
  induction 1 as [|k keys Hk _ IH]; [done|]. cbn [collect_opcs]. destruct (HasSuffix k "/op-created.json"); [|done].
  apply stays_bind; [by cbn|]. intros r. by apply stays_bind.
Qed.

Lemma stays_delete keys k : Forall (own id) keys -> stays_ k -> stays_ (delete_all keys k).
Proof. intros H Hk. induction H as [|key keys Hkey _ IH]; [done|]. cbn. split; [done|]. by intros [e|]. Qed.

(** The lookups are outside the run's directories. *)
Lemma lookup_outside d x : no_slash d -> d <> "runs" -> run_id_of (d ++ String "/" x) = None.
Proof.
  intros Hs Hd. unfold run_id_of. rewrite Split_cons_sep by done. destruct (Split x "/") as [|i r]; [done|].
  by rewrite (proj2 (String.eqb_neq _ _) Hd).
Qed.
Lemma own_opc opc : own id (opContinuationKey opc).
Proof. right. by apply (lookup_outside "op-continuations"). Qed.
Lemma own_lookups r : Forall (own id) (run_lookups r).
Proof.
  destruct r as [rc|e]; [|constructor]. cbn. apply Forall_app.
  split; case_match; try apply Forall_nil_2; apply Forall_singleton; right.
  - by apply (lookup_outside "run-continuations").
  - by apply (lookup_outside "request-continuations").
Qed.

Lemma stays_purge : stays_ (PurgeRun id).
Proof.
  apply stays_bind; [apply stays_created|]. intros rc. cbn. split; [intros key; by apply under_run|]. split; [|done].
  intros keys Hk. apply stays_bind; [by apply stays_collect|]. intros opcs. apply stays_delete.
  - apply Forall_fmap, Forall_true. intros opc. apply own_opc.
  - apply stays_delete; [apply own_lookups|]. apply stays_delete; [|done]. eapply Forall_impl; [exact Hk|]. intros key. by left.
Qed.

Lemma stays_entries stage m : stays_ (entries_state id stage m).
Proof. induction m as [|e m IH]; cbn; [done|]. split; [auto|]. by intros [[]|?]. Qed.
Lemma stays_if key st rest : of_run id key -> stays_ rest -> stays_ (if_exists key st rest).
Proof. intros Hk Hr. apply stays_bind; [by cbn|]. by intros [[]|e]. Qed.
Lemma stays_StageState stage m : stays_ (StageState id stage m).
Proof. repeat (apply stays_if; [auto|]). apply stays_entries. Qed.

Lemma stays_get_all {A} (dec : Doc -> option A) suf keys : Forall (fun key => of_run id key) keys -> stays_ (get_all dec suf keys).
Proof.
  induction 1 as [|k keys Hk _ IH]; [done|]. cbn [get_all]. destruct (HasSuffix k suf); [|done].
  apply stays_bind; [by cbn|]. intros [x|e]; [|done]. by apply stays_bind.
Qed.

Lemma stays_CurrentStage : stays_ (CurrentStage id).
Proof.
  cbn. split; [|split; [|done]].
  - intros key Hk. apply (under_run id key Hid). rewrite trim_run_dir by done. revert Hk. unfold under_key, HasPrefix.
    replace (TrimSlashes (runDir id ++ "/stages")) with (runDir id ++ "/stages").
    + rewrite !orb_true_iff, !String.eqb_eq, !prefix_iff. intros [->|[t ->]]; right.
      * exists "stages". by rewrite <- sapp_assoc.
      * exists ("stages/" ++ t). by rewrite <- !sapp_assoc.
    + symmetry. apply TrimSlashes_id; [done|]. by rewrite srev_app.
  - intros keys Hk. apply stays_bind; [by apply stays_get_all|]. intros r. by destruct r.
Qed.

Lemma stays_RunState : stays_ (RunState id).
Proof.
  repeat (apply stays_if; [auto|]). apply stays_bind; [apply stays_CurrentStage|].
  intros [[cur|]|?]; [apply stays_StageState|by apply stays_if; auto|done].
Qed.

Lemma stays_fail reason kind fields {A} (x : A) : stays_ (do! _ <- FailRun id reason; do! _ <- AppendEvent id kind fields; Ret x).
Proof.
  cbn. intros t. split; [auto|]. split; [by left; auto|]. intros _ [r|e]; cbn; [|done]. intros t'. split; [apply event_of_run|].
  split; [left; apply event_of_run|done].
Qed.

Lemma stays_claim stage : stays_ (ReadResumeClaim id stage).
Proof. cbn. split; [auto|done]. Qed.

Lemma stays_sweep retention staleAfter now : stays_ (sweep_run retention staleAfter now id).
Proof.
  apply stays_bind; [apply stays_created|]. intros [rc|e]; [|by apply stays_bind; [apply stays_purge|]].
  apply stays_bind; [apply stays_RunState|]. intros [st|e]; [|done].
  destruct (terminal_state st); [case_match; [|done]; apply stays_bind; [apply stays_purge|]; by intros [|]|].
  destruct (past (rc_ExpiresAt rc) now); [apply stays_fail|].
  apply stays_bind; [apply stays_CurrentStage|]. intros [[cur|]|e]; [|done..].
  apply stays_bind; [apply stays_StageState|]. intros [[]|e]; try done.
  apply stays_bind; [apply stays_claim|]. intros [[at_|]|e]; try done. destruct (staleAfter <? Sub now at_)%Z; [apply stays_fail|done].
Qed.
End Stays.

(** ** Verdicts *)

Inductive Verdict := Keep | Fail_ (reason : string) | Remove.

Definition reported (t : nat) (s : Store) (id : string) : State + Err := (alone t (RunState id) s).1.

Section Verdicts.
Variables (retention staleAfter : Z) (t : nat).
Abbreviation now := (Z.of_nat t).

(** The current stage could go on and its resumer has been at it for too long. *)
Definition stale (s : Store) (id : string) : bool :=
  match (alone t (CurrentStage id) s).1 with
  | inl (Some cur) =>
      match (alone t (StageState id (ss_Stage cur) (ss_Manifest cur)) s).1, (alone t (ReadResumeClaim id (ss_Stage cur)) s).1 with
      | inl StateResumable, inl (Some claimedAt) => (staleAfter <? Sub now claimedAt)%Z
      | _, _ => false
      end
  | _ => false
  end.

(** What the documents of a run say shall become of it. *)
Definition verdict (s : Store) (id : string) : Verdict :=
  match run_created s id, reported t s id with
  | None, _ => Remove
  | Some _, inr _ => Keep
  | Some rc, inl state =>
      if terminal_state state then if past_retention (rc_ExpiresAt rc) retention now then Remove else Keep
      else if past (rc_ExpiresAt rc) now then Fail_ "expired"
      else if stale s id then Fail_ "resumer-stale" else Keep
  end.

Definition agree (id : string) (s s' : Store) : Prop := forall key, of_run id key -> s' !! key = s !! key.

Definition event_key (id kind : string) : string := runDir id ++ "/events/" ++ stamp now ++ "-" ++ Itoa now ++ "-" ++ kind ++ ".json".

(** [s'] is what becomes of the run's documents in [s]: a run that fails gets its
    failure and an event, and nothing else changes. *)
Definition carried_out (v : Verdict) (id : string) (s s' : Store) : Prop :=
  match v with
  | Keep => agree id s s'
  | Remove => forall key, of_run id key -> s' !! key = None
  | Fail_ reason =>
      s' !! runFailedKey id = Some (DFailed reason now) /\ reported t s' id = inl StateFailed /\
      (forall key d, of_run id key -> s !! key = Some d -> s' !! key = Some d) /\
      exists kind, forall key, of_run id key -> key <> runFailedKey id -> key <> event_key id kind -> s' !! key = s !! key
  end.

Lemma only_get_all P {A} (dec : Doc -> option A) suf keys : only P (get_all dec suf keys).
Proof.
  induction keys as [|k keys IH]; [done|]. cbn [get_all]. destruct (HasSuffix k suf); [|done].
  apply only_bind; [by cbn|]. intros [x|e]; [|done]. by apply only_bind.
Qed.
Lemma only_CurrentStage P id : only P (CurrentStage id).
Proof. apply only_bind; [by cbn|]. intros [keys|e]; [|done]. apply only_bind; [apply only_get_all|]. done. Qed.
Lemma only_if P key st rest : only P rest -> only P (if_exists key st rest).
Proof. intros H. apply only_bind; [by cbn|]. by intros [[]|e]. Qed.
Lemma only_RunState P id : only P (RunState id).
Proof.
  do 2 apply only_if. apply only_bind; [apply only_CurrentStage|]. intros [[cur|]|e]; [apply only_StageState|by apply only_if|done].
Qed.

Lemma alone_if key st rest s :
  alone t (if_exists key st rest) s = if bool_decide (is_Some (s !! key)) then (inl st, s) else alone t rest s.
Proof. cbn. by case_bool_decide. Qed.

(** A run that has not ended has neither a result nor a failure. *)
Lemma reported_open id s st :
  reported t s id = inl st -> terminal_state st = false -> s !! resultKey id = None /\ s !! runFailedKey id = None.
Proof.
  unfold reported, RunState. rewrite !alone_if. case_bool_decide as H1; [by intros [= <-]|]. case_bool_decide as H2; [by intros [= <-]|].
  intros _ _. by rewrite !eq_None_not_Some.
Qed.

Lemma reported_failed id s d : s !! resultKey id = None -> s !! runFailedKey id = Some d -> reported t s id = inl StateFailed.
Proof.
  intros H1 H2. unfold reported, RunState. rewrite !alone_if, H1, H2. rewrite bool_decide_false by (by intros []). by rewrite bool_decide_true.
Qed.

Lemma event_alone id kind fields s :
  (alone t (AppendEvent id kind fields) s).2 =
  match s !! event_key id kind with None => <[event_key id kind := DEvent now kind fields]> s | Some _ => s end.
Proof. cbn -[event_key String.append]. change (runDir id ++ _) with (event_key id kind). by destruct (s !! event_key id kind). Qed.

Lemma FailRun_alone id reason s : s !! runFailedKey id = None -> (alone t (FailRun id reason) s).2 = <[runFailedKey id := DFailed reason now]> s.
Proof. intros H. cbn. by rewrite H. Qed.

Definition failing (id reason kind : string) (fields : list (string * string)) : Prog (option Err) :=
  do! _ <- FailRun id reason; AppendEvent id kind fields.

Lemma failing_frame id reason kind fields s key :
  s !! runFailedKey id = None -> key <> runFailedKey id -> key <> event_key id kind ->
  (alone t (failing id reason kind fields) s).2 !! key = s !! key.
Proof.
  intros Hf H1 H2. unfold failing. rewrite alone_bind, event_alone, FailRun_alone by done.
  case_match; rewrite ?lookup_insert_ne by done; done.
Qed.

Lemma fail_carried id s reason kind fields :
  s !! resultKey id = None -> s !! runFailedKey id = None ->
  carried_out (Fail_ reason) id s (alone t (failing id reason kind fields) s).2.
Proof.
  intros Hr Hf. set (s' := (alone t (failing id reason kind fields) s).2).
  assert (Hk : event_key id kind <> resultKey id) by (intros E; apply (sapp_inj_l (runDir id)) in E; discriminate).
  assert (Hrf : resultKey id <> runFailedKey id) by (intros E; apply sapp_inj_l in E; discriminate).
  assert (H5 : s' !! runFailedKey id = Some (DFailed reason now) /\ s ⊆ s').
  { unfold s', failing. rewrite alone_bind, event_alone, FailRun_alone by done.
    set (s1 := <[runFailedKey id := DFailed reason now]> s).
    assert (H2 : s1 !! runFailedKey id = Some (DFailed reason now)) by (unfold s1; by rewrite lookup_insert_eq).
    assert (H3 : s ⊆ s1) by (by apply insert_subseteq).
    destruct (s1 !! event_key id kind) as [d|] eqn:E; [done|].
    split; [by eapply lookup_weaken, insert_subseteq|]. etrans; [exact H3|by apply insert_subseteq]. }
  destruct H5 as [H5 Hs]. cbn. split_and!; [done| | |].
  - eapply reported_failed; [|exact H5]. unfold s'. by rewrite failing_frame.
  - intros key d _ Hd. by eapply lookup_weaken.
  - exists kind. intros key _. by apply failing_frame.
Qed.

(** What the pass over one run does, by its verdict. *)
Lemma sweep_run_does id s :
  let s' := (alone t (sweep_run retention staleAfter now id) s).2 in
  match verdict s id with
  | Keep => s' = s
  | Remove => s' = (alone t (PurgeRun id) s).2
  | Fail_ reason => s !! resultKey id = None /\ s !! runFailedKey id = None /\ exists kind fields, s' = (alone t (failing id reason kind fields) s).2
  end.
Proof.
  unfold sweep_run, verdict, run_created. rewrite alone_bind. cbn [ReadRunCreated get_as Get bind alone fst snd].
  assert (Hfail : forall reason kind fields (x : Swept), exists kind' fields',
    (alone t (do! _ <- FailRun id reason; do! _ <- AppendEvent id kind fields; Ret x) s).2 = (alone t (failing id reason kind' fields') s).2).
  { intros. exists kind, fields. unfold failing. by rewrite !alone_bind. }
  destruct (s !! runCreatedKey id ≫= as_run) as [rc|] eqn:Erc.
  - destruct (s !! runCreatedKey id) as [d|]; [|done]. cbn in Erc. rewrite Erc. rewrite alone_bind, (reads_alone t (RunState id)) by apply only_RunState.
    fold (reported t s id). destruct (reported t s id) as [st|e] eqn:Est; [|done].
    destruct (terminal_state st) eqn:Et.
    + destruct (past_retention (rc_ExpiresAt rc) retention now); [|done]. by rewrite alone_bind.
    + destruct (reported_open _ _ _ Est Et) as [Hr Hf].
      destruct (past (rc_ExpiresAt rc) now); [by split_and!|].
      unfold stale. rewrite alone_bind, (reads_alone t (CurrentStage id)) by apply only_CurrentStage.
      destruct (alone t (CurrentStage id) s).1 as [[cur|]|e]; [|done..].
      rewrite alone_bind, (reads_alone t (StageState _ _ _)) by apply only_StageState.
      destruct (alone t (StageState id (ss_Stage cur) (ss_Manifest cur)) s).1 as [[]|e]; try done.
      rewrite alone_bind, (reads_alone t (ReadResumeClaim _ _)) by (by cbn).
      destruct (alone t (ReadResumeClaim id (ss_Stage cur)) s).1 as [[at_|]|e]; try done.
      destruct (staleAfter <? Sub now at_)%Z; [by split_and!|done].
  - destruct (s !! runCreatedKey id) as [d|]; cbn in Erc; [rewrite Erc|]; by rewrite alone_bind.
Qed.

Lemma sweep_run_carried id s : run_id id -> carried_out (verdict s id) id s (alone t (sweep_run retention staleAfter now id) s).2.
Proof.
  intros Hid. pose proof (sweep_run_does id s) as H. cbv zeta in H. destruct (verdict s id).
  - rewrite H. done.
  - destruct H as (Hr & Hf & kind & fields & ->). by apply fail_carried.
  - rewrite H. intros key Hk. destruct (purge_alone t id s Hid) as [_ ->]. rewrite bool_decide_true; [done|by left].
Qed.

(** Outside the runs' directories only lookups of a run that is removed go. *)
Lemma sweep_run_outside id s key : run_id id -> run_id_of key = None ->
  (alone t (sweep_run retention staleAfter now id) s).2 !! key = s !! key \/ (verdict s id = Remove /\ key ∈ lookups_of s id).
Proof.
  intros Hid Hk. pose proof (sweep_run_does id s) as H. cbv zeta in H. destruct (verdict s id).
  - left. by rewrite H.
  - left. destruct H as (_ & Hf & kind & fields & ->). apply failing_frame; [done|..]; intros ->.
    + by rewrite failed_of_run in Hk.
    + unfold event_key in Hk. by rewrite event_of_run in Hk.
  - rewrite H. destruct (purge_alone t id s Hid) as [_ ->]. case_bool_decide as Hd; [|by left].
    right. split; [done|]. destruct Hd as [Hd|Hd]; [congruence|done].
Qed.

(** ** The whole pass *)

Lemma agree_reported id s s' : run_id id -> agree id s s' -> reported t s' id = reported t s id.
Proof. intros Hid Ha. unfold reported. eapply stays_alone; [by apply stays_RunState|exact Ha]. Qed.

Lemma agree_verdict id s s' : run_id id -> agree id s s' -> verdict s' id = verdict s id.
Proof.
  intros Hid Ha. unfold verdict, run_created, stale. rewrite (agree_reported id s s' Hid Ha), (Ha (runCreatedKey id)) by by apply created_of_run.
  destruct (stays_alone _ _ t _ s' s (stays_CurrentStage id Hid) Ha) as (-> & _).
  destruct (s !! runCreatedKey id ≫= as_run); [|done]. destruct (reported t s id); [|done].
  destruct (alone t (CurrentStage id) s).1 as [[cur|]|]; [|done..].
  destruct (stays_alone _ _ t _ s' s (stays_StageState id Hid (ss_Stage cur) (ss_Manifest cur)) Ha) as (-> & _).
  by destruct (stays_alone _ _ t _ s' s (stays_claim id Hid (ss_Stage cur)) Ha) as (-> & _).
Qed.

Lemma carried_before v id s0 s s' : agree id s0 s -> carried_out v id s s' -> carried_out v id s0 s'.
Proof.
  intros Ha. destruct v; cbn.
  - intros H key Hk. by rewrite H, Ha.
  - intros (H1 & H2 & H3 & kind & H4). split_and!; [done..| |].
    + intros key d Hk. rewrite <- (Ha key Hk). by apply H3.
    + exists kind. intros key Hk Hn Hn'. by rewrite H4, Ha.
  - done.
Qed.

Lemma carried_after v id s s' s'' : run_id id -> carried_out v id s s' -> agree id s' s'' -> carried_out v id s s''.
Proof.
  intros Hid Hc Ha. destruct v; cbn in *.
  - intros key Hk. by rewrite Ha, Hc.
  - destruct Hc as (H1 & H2 & H3 & kind & H4). split_and!.
    + by rewrite Ha by by apply failed_of_run.
    + by rewrite (agree_reported _ _ _ Hid Ha).
    + intros key d Hk Hd. rewrite Ha by done. auto.
    + exists kind. intros key Hk Hn Hn'. rewrite Ha by done. auto.
  - intros key Hk. rewrite Ha by done. auto.
Qed.

Lemma sweep_other id id' s : run_id id -> id' <> id -> agree id' s (alone t (sweep_run retention staleAfter now id) s).2.
Proof.
  intros Hid Hne key Hk. destruct (stays_alone _ _ t _ s s (stays_sweep id Hid retention staleAfter now)) as (_ & _ & H); [done|].
  apply H. unfold own. rewrite Hk. intros [[= E]|E]; [by apply Hne|done].
Qed.

Lemma agree_lookups id s s' : run_id id -> agree id s s' -> lookups_of s' id = lookups_of s id.
Proof.
  intros Hid Ha. unfold lookups_of, run_created. rewrite (Ha (runCreatedKey id)) by by apply created_of_run. do 2 f_equal. unfold run_opcs.
  rewrite (listing_agree (runDir id) s' s) by (intros key Hk; apply Ha; by apply under_run).
  destruct (stays_alone (fun key => of_run id key) (own id) 0 (collect_opcs (listing (runDir id) s)) s' s) as (H & _); [|exact Ha|exact H].
  apply stays_collect. apply Forall_forall. intros key [_ Hk]%listing_elem. by apply under_run.
Qed.

Lemma sweep_runs_outside ids : forall alive s key,
  NoDup ids -> Forall run_id ids -> run_id_of key = None ->
  (alone t (sweep_runs retention staleAfter alive now ids) s).2 !! key = s !! key \/
  exists id, id ∈ ids /\ verdict s id = Remove /\ key ∈ lookups_of s id.
Proof.
  induction ids as [|x ids IH]; intros alive s key Hnd Hid Hk; [left; by destruct alive|].
  apply NoDup_cons in Hnd as [Hx Hnd]. apply Forall_cons in Hid as [Hxi Hid].
  destruct alive as [|alive]; [by left|]. cbn [sweep_runs]. rewrite !alone_bind. cbn [alone snd].
  set (s1 := (alone t (sweep_run retention staleAfter now x) s).2).
  destruct (IH alive s1 key Hnd Hid Hk) as [->|(id & Hin & Hv & Hl)].
  - destruct (sweep_run_outside x s key Hxi Hk) as [H|[Hv Hl]]; [by left|right; exists x; set_solver].
  - assert (Hidr : run_id id) by (rewrite Forall_forall in Hid; auto).
    assert (Ha : agree id s s1) by (apply sweep_other; [done|]; by intros ->).
    rewrite (agree_verdict id s s1 Hidr Ha) in Hv. rewrite (agree_lookups id s s1 Hidr Ha) in Hl. right. exists id. set_solver.
Qed.

Lemma sweep_runs_carried ids : forall alive s,
  NoDup ids -> Forall run_id ids ->
  forall id, run_id id ->
  (id ∉ ids -> agree id s (alone t (sweep_runs retention staleAfter alive now ids) s).2) /\
  (id ∈ ids -> length ids <= alive -> carried_out (verdict s id) id s (alone t (sweep_runs retention staleAfter alive now ids) s).2).
Proof.
  induction ids as [|x ids IH]; intros alive s Hnd Hid id Hi; [split; [by intros _ key _; destruct alive|by intros ?%elem_of_nil]|].
  apply NoDup_cons in Hnd as [Hx Hnd]. apply Forall_cons in Hid as [Hxi Hid].
  destruct alive as [|alive]; [split; [by intros _ key _|cbn; lia]|]. cbn [sweep_runs]. rewrite !alone_bind. cbn [alone snd].
  set (s1 := (alone t (sweep_run retention staleAfter now x) s).2). destruct (IH alive s1 Hnd Hid id Hi) as [H1 H2]. split.
  - intros [Hne Hni]%not_elem_of_cons key Hk. rewrite (H1 Hni key Hk). by apply (sweep_other x id).
  - intros Hin Hl. cbn in Hl. destruct (decide (id = x)) as [->|Hne].
    + eapply carried_after; [done| |by apply H1]. by apply sweep_run_carried.
    + assert (Ha : agree id s s1) by (by apply sweep_other). rewrite <- (agree_verdict id s s1 Hi Ha).
      eapply carried_before; [exact Ha|]. apply H2; [|lia]. by apply elem_of_cons in Hin as [?|?].
Qed.
End Verdicts.

(** The runs a store has documents of. *)
Definition run_ids (s : Store) : list string := distinct_ids [] (listing "runs" s).

Lemma distinct_ids_spec seen keys :
  NoDup (distinct_ids seen keys) /\ (forall id, (id ∈ distinct_ids seen keys) <-> (id ∉ seen) /\ exists key, key ∈ keys /\ of_run id key).
Proof.
  revert seen; induction keys as [|k keys IH]; intros seen; cbn.
  - split; [constructor|]. intros id. split; [by intros ?%elem_of_nil|]. by intros [_ (key & ?%elem_of_nil & _)].
  - destruct (run_id_of k) as [x|] eqn:Ek; [case_bool_decide as Hx|].
    + destruct (IH seen) as [H1 H2]. split; [done|]. intros id. rewrite H2. setoid_rewrite elem_of_cons. naive_solver.
    + destruct (IH (x :: seen)) as [H1 H2]. split; [apply NoDup_cons; split; [|done]; rewrite H2, elem_of_cons; naive_solver|].
      intros id. rewrite elem_of_cons, H2. setoid_rewrite elem_of_cons. destruct (decide (id = x)) as [->|Hne]; naive_solver.
    + destruct (IH seen) as [H1 H2]. split; [done|]. intros id. rewrite H2. setoid_rewrite elem_of_cons. naive_solver.
Qed.

Lemma run_ids_elem (s : Store) id : id ∈ run_ids s <-> exists key, is_Some (s !! key) /\ of_run id key.
Proof.
  unfold run_ids. destruct (distinct_ids_spec [] (listing "runs" s)) as [_ ->]. split.
  - intros [_ (key & Hk & Hi)]. exists key. by apply listing_elem in Hk as [? _].
  - intros (key & Hk & Hi). split; [apply not_elem_of_nil|]. exists key. split; [|done]. apply listing_elem. split; [done|].
    apply run_id_of_inv in Hi as [_ [->|[u ->]]]; [apply (prefix_app "runs/" id)|]. unfold runDir. rewrite <- sapp_assoc. apply (prefix_app "runs/").
Qed.

(** C7: the janitor gives every run its verdict and touches nothing else.  Take a
    pass that runs by itself, with no store call failing, that reads one time and
    is not cut short.  The documents of a run are as they were when it is alive
    (not ended, not past its expiry, no resumer gone stale) or ended within the
    retention; the run has failed, reports so, has kept every document and got
    only its failure and an event when it was past its expiry or its resumer was
    stale; and none of its documents are left when it ended and the retention is
    over, or when it has no run-created document.  Outside the directories of the
    runs only lookups go, each one of a run that is removed.  (Where a read fails,
    see [failed_read_purges].) *)
Theorem sweep_verdicts retention staleAfter t alive s :
  length (run_ids s) <= alive ->
  let s' := (alone t (sweep retention staleAfter alive) s).2 in
  (forall id, run_id id -> carried_out t (verdict retention staleAfter t s id) id s s') /\
  forall key, run_id_of key = None ->
    s' !! key = s !! key \/ exists id, id ∈ run_ids s /\ verdict retention staleAfter t s id = Remove /\ key ∈ lookups_of s id.
Proof.
  intros Hl s'. unfold s', sweep, ListRunIDs. rewrite alone_bind. cbn [List_ bind alone fst snd]. fold (run_ids s).
  rewrite alone_bind. cbn [now_ alone fst snd]. rewrite alone_bind. cbn [alone snd].
  assert (Hnd : NoDup (run_ids s)) by apply distinct_ids_spec.
  assert (Hids : Forall run_id (run_ids s)).
  { apply Forall_forall. intros x (key & _ & Hx)%run_ids_elem. by eapply run_id_no_slash. }
  split; [|intros key; by apply sweep_runs_outside]. intros id Hid.
  destruct (sweep_runs_carried retention staleAfter t (run_ids s) alive s Hnd Hids id Hid) as [H1 H2].
  destruct (decide (id ∈ run_ids s)) as [Hin|Hni]; [by apply H2|].
  assert (Hnone : forall key, of_run id key -> s !! key = None).
  { intros key Hk. apply eq_None_not_Some. intros Hs. apply Hni, run_ids_elem. eauto. }
  unfold verdict, run_created. rewrite (Hnone (runCreatedKey id)) by by apply created_of_run. cbn.
  intros key Hk. rewrite (H1 Hni key Hk). auto.
Qed.

(** ** What goes wrong *)

Lemma single_step {A} faults (p p' : Prog A) s s' : step faults p s p' s' -> pstep faults ([p], s) ([p'], s').
Proof. intros H. exact (pstep_at faults 0 [p] p p' s s' eq_refl H). Qed.

Lemma alone_steps {A} faults t (p : Prog A) s : rtc (pstep faults) ([p], s) ([Ret (alone t p s).1], (alone t p s).2).
Proof.
  revert s; induction p as [x|key d k IH|key k IH|key k IH|pre k IH|key k IH|k IH|k IH|k IH]; intros s; cbn; [done|..];
    try (eapply rtc_l; [|apply IH]; by apply single_step; constructor).
  destruct (s !! key) as [d'|] eqn:E; (eapply rtc_l; [|apply IH]); apply single_step; [apply step_refuse; by rewrite E|by apply step_create].
Qed.

(** one failed read deletes a run.  Whatever its documents say, when the
    janitor's read of the run-created document of a run fails, be it for a moment,
    the run is taken for the rest of an unfinished purge: every document it has is
    deleted, in a pass in which no other call fails.  So also of a run the verdict
    keeps, one that is suspended and waits for its callbacks. *)
Theorem failed_read_purges retention staleAfter now id s :
  run_id id -> exists s', rtc (pstep true) ([sweep_run retention staleAfter now id], s) ([Ret Passed], s') /\
    forall key, of_run id key -> s' !! key = None.
Proof.
  intros Hid. set (rest := do! _ <- PurgeRun id; Ret Passed). exists (alone 0 rest s).2. split.
  - assert (E : Passed = (alone 0 rest s).1) by (unfold rest; by rewrite alone_bind).
    eapply rtc_l; [apply single_step, (step_get_fail true _ _ s "timeout"); done|].
    pose proof (alone_steps true 0 rest s) as H. rewrite <- E in H. exact H.
  - intros key Hk. unfold rest. rewrite alone_bind. cbn [alone snd]. destruct (purge_alone 0 id s Hid) as [_ ->].
    rewrite bool_decide_true; [done|by left].
Qed.

Lemma deferred_of_run id opc x : run_id id -> of_run id (deferredDir id opc ++ x).
Proof. intros Hid. unfold deferredDir. rewrite <- !sapp_assoc. apply (run_key id ("deferred/" ++ opc ++ x) Hid). Qed.
Ltac in_deferred := by apply deferred_of_run.

(** The first result of a deferred op, alone. *)
Lemma recorded_alone t id opc payload (s : Store) :
  s !! deferredOutputKey id opc = None -> s !! deferredTerminalKey id opc = None ->
  alone t (RecordDeferredTerminal id opc "completed" zero_meta payload) s =
  (inl true, <[deferredTerminalKey id opc := DTerminal (mkTerminal "completed" (deferredOutputKey id opc) "" (Z.of_nat t) zero_meta)]>
               (<[deferredOutputKey id opc := DBytes payload]> s)).
Proof. intros H1 H2. cbn. rewrite H1. cbn. rewrite lookup_insert_ne by keys_differ. by rewrite H2. Qed.

Lemma opc_outside opc : run_id_of (opContinuationKey opc) = None.
Proof. by apply (lookup_outside "op-continuations"). Qed.

Lemma opc_lookups s id opc : opContinuationKey opc ∈ lookups_of s id -> opc ∈ run_opcs s id.
Proof.
  unfold lookups_of. rewrite elem_of_app, list_elem_of_fmap. intros [(opc' & E & Hin)|H].
  - by apply (sapp_inj_l "op-continuations/"), sapp_inj_r in E as ->.
  - exfalso. destruct (run_created s id) as [rc|]; [|by apply elem_of_nil in H]. cbn in H.
    destruct (rc_RunContinuationID rc =s ""), (rc_OriginRID rc =s ""); cbn in H; repeat (apply elem_of_cons in H as [H|H]; [done|]);
      by apply elem_of_nil in H.
Qed.

(** a purge leaves the handles of deferred ops behind, and they bring the run
    back.  After the purge of a run, the lookup of a deferred op of it is still
    there, for the purge looks for op-created documents only and a deferred op has
    none; a worker's callback with its token is still accepted, and its result is
    stored as a document of the run that was purged. *)
Theorem purge_leaves_deferred HashToken t id s opc lk tok output :
  run_id id -> s !! opContinuationKey opc = Some (DOpLookup lk) -> ol_RunID lk = id -> ol_Deferred lk = true ->
  opc ∉ run_opcs s id -> tok <> "" -> HashToken tok = ol_TokenHash lk ->
  let s1 := (alone t (PurgeRun id) s).2 in
  let s2 := (alone t (handleContinuationComplete HashToken opc tok "completed" output "") s1).2 in
  (forall key, of_run id key -> s1 !! key = None) /\ s1 !! opContinuationKey opc = Some (DOpLookup lk) /\
  (alone t (handleContinuationComplete HashToken opc tok "completed" output "") s1).1 = Recorded /\
  is_Some (s2 !! deferredTerminalKey id opc) /\ id ∈ run_ids s2.
Proof.
  intros Hid Hlk Hr Hd Ho Ht Hh s1 s2. destruct (purge_alone t id s Hid) as [_ Hp].
  assert (H1 : forall key, of_run id key -> s1 !! key = None).
  { intros key Hk. unfold s1. rewrite Hp, bool_decide_true; [done|by left]. }
  assert (H2 : s1 !! opContinuationKey opc = Some (DOpLookup lk)).
  { unfold s1. rewrite Hp, bool_decide_false; [done|]. intros [E|E]; [by rewrite opc_outside in E|]. by apply opc_lookups in E. }
  assert (E : alone t (handleContinuationComplete HashToken opc tok "completed" output "") s1 =
    (Recorded, (alone t (RecordDeferredTerminal id opc "completed" zero_meta (if output =s "" then "{}" else output)) s1).2)).
  { unfold handleContinuationComplete. rewrite alone_bind. cbn [ResolveOpContinuation get_as Get bind alone fst snd]. rewrite H2. cbn [as_op_lookup].
    rewrite Hh, String.eqb_refl, (proj2 (String.eqb_neq tok "")) by done. cbn [orb negb worker_terminal String.eqb Ascii.eqb Bool.eqb].
    rewrite Hd. unfold handleDeferredComplete. rewrite Hr, alone_bind, recorded_alone by (apply H1; in_deferred).
    cbn [fst snd ReadDeferredSuspendedAt Get bind alone]. rewrite !lookup_insert_ne by keys_differ. rewrite H1 by in_deferred. done. }
  rewrite recorded_alone in E by (apply H1; in_deferred). unfold s2. rewrite E. split_and!; [done..| |].
  - cbn. rewrite lookup_insert_eq. eauto.
  - apply run_ids_elem. exists (deferredTerminalKey id opc). split; [cbn; rewrite lookup_insert_eq; eauto|in_deferred].
Qed.
