(* ===== verification/ContExamples.v ===== *)
(** * Continuations on concrete runs

    A barrier stage with two async ops, its callbacks under a schedule, and the
    theorems on them. *)

From Stdlib Require Import Ascii String ZArith Lia Bool.
From stdpp Require Import base tactics list strings gmap relations.
From S2P Require Import Prelude GoStrings GoStrconv ContStore Runs Callbacks RunsFacts CallbackFacts Wakeup Joins Sweep.

#[local] Open Scope string_scope.

Definition demo_hash (tok : string) : string := tok ++ "#".
Definition demo_manifest : list OpManifestEntry := [mkEntry 0 "a" true ""; mkEntry 1 "b" true ""].
Definition demo_suspended : StageSuspended := mkSuspended "web/100" "{}" demo_manifest "" 0%Z.

(** What the suspend writes. *)
Definition demo_setup : Prog (option Err) :=
  do! _ <- SuspendStage "r" "web/100" "{}" "" demo_manifest;
  CreateOpRecords "r" "web/100"
    [mkSpec 0 "a" true "opc_a" "ta#" "{}" 0%Z; mkSpec 1 "b" true "opc_b" "tb#" "{}" 0%Z].
Definition demo_store : Store := (alone 0 demo_setup ∅).2.

Definition cb (opc tok payload : string) : Prog Outcome := handleContinuationComplete demo_hash opc tok "completed" payload "".
Definition demo_pool : list (Prog Outcome) := [cb "opc_a" "ta" "[1]"; cb "opc_b" "tb" "[2]"; cb "opc_a" "ta" "[3]"].

Definition round : list nat := [0; 1; 2; 1; 0].
Definition turns : list nat := concat (replicate 20 round).
Definition demo_end : Sys Outcome := sched 1 turns (demo_pool, demo_store).

Lemma demo_ends : demo_end.1 = [Ret Recorded; Ret (Resuming "r" "web/100"); Ret Recorded].
Proof. vm_compute. reflexivity. Qed.

Lemma demo_handlers : Forall (handler demo_hash) demo_pool.
Proof. repeat constructor. Qed.

Lemma resumed_once_witness :
  demo_store !! resumeClaimKey "r" "web/100" = None /\
  (demo_end.1 !! 1 = Some (Ret (Resuming "r" "web/100")) -> 1 = 1).
Proof.
  apply (resumed_once demo_hash demo_pool demo_store demo_end "r" "web/100" 1 1).
  - exact demo_handlers.
  - apply sched_steps.
  - by rewrite demo_ends.
Defined.

Lemma no_terminals_yet (s : Store) :
  map_Forall (fun _ d => match d with DTerminal _ => False | _ => True end) s -> payload_there s.
Proof. intros H key t Ht. by apply H in Ht. Qed.

Lemma demo_no_terminals : map_Forall (fun _ d => match d with DTerminal _ => False | _ => True end) demo_store.
Proof. apply map_Forall_to_list. vm_compute. repeat constructor. Qed.

Lemma terminal_has_payload_witness : payload_there demo_end.2.
Proof.
  apply (terminal_has_payload demo_hash demo_pool demo_store demo_end).
  - exact demo_handlers.
  - apply no_terminals_yet, demo_no_terminals.
  - apply sched_steps.
Defined.

Lemma demo_not_ended : forall key, ended "r" "web/100" key -> demo_store !! key = None.
Proof.
  intros key. unfold ended. rewrite !elem_of_cons, elem_of_nil. intros [->|[->|[->|[]]]]; vm_compute; reflexivity.
Qed.

(** Op [b] is one the scope runs itself, and it is recorded before the worker of
    [a] calls back, twice. *)
Definition mixed_pool : list (Prog Outcome) :=
  [record_sibling "r" "web/100" 1 "b" "completed" zero_meta "[2]"; cb "opc_a" "ta" "[1]"; cb "opc_a" "ta" "[3]"].
Definition mixed_end : Sys Outcome := sched 1 turns (mixed_pool, demo_store).
Lemma mixed_ends : mixed_end.1 = [Ret Finished; Ret (Resuming "r" "web/100"); Ret Recorded].
Proof. vm_compute. reflexivity. Qed.

Lemma barrier_wakes_witness :
  (forall i j, mixed_end.1 !! i = Some (Ret (Resuming "r" "web/100")) -> mixed_end.1 !! j = Some (Ret (Resuming "r" "web/100")) -> j = i) /\
  ((exists i, mixed_end.1 !! i = Some (Ret (Resuming "r" "web/100"))) \/ scope_last demo_store "r" "web/100" demo_suspended mixed_pool mixed_end).
Proof.
  apply (barrier_wakes demo_hash demo_store "r" "web/100" demo_suspended mixed_pool mixed_end).
  - vm_compute. reflexivity.
  - exact demo_not_ended.
  - vm_compute. reflexivity.
  - intros H. destruct (H (opTerminalKey "r" "web/100" 0 "a")) as [d Hd]; [by apply list_elem_of_here|]. vm_compute in Hd. discriminate.
  - repeat apply Forall_cons_2; [right; repeat eexists|left; eapply c_callback; [vm_compute; reflexivity|reflexivity..]..|apply Forall_nil_2].
  - apply sched_steps.
  - unfold all_ended. rewrite mixed_ends. repeat constructor; eexists; reflexivity.
  - intros key. unfold stage_terms. cbn [map demo_suspended ss_Manifest demo_manifest]. rewrite !elem_of_cons, elem_of_nil.
    intros [->|[->|[]]]; vm_compute; eexists; reflexivity.
Defined.

(** The worker of op [a] has called back; op [b] turns out to be one the scope
    runs itself. *)
Definition lost_store : Store := (alone 0 (cb "opc_a" "ta" "[1]") demo_store).2.
Definition lost_pool : list (Prog Outcome) :=
  [record_sibling "r" "web/100" 1 "b" "completed" zero_meta "[2]"; cb "opc_a" "ta" "[1]"].
Definition lost_end : Sys Outcome := sched 1 turns (lost_pool, lost_store).

Lemma barrier_lost_wakeup_witness :
  lost_end.2 !! resumeClaimKey "r" "web/100" = None /\
  (forall i r st, lost_end.1 !! i <> Some (Ret (Resuming r st))) /\
  (all_terms (stage_terms "r" "web/100" demo_suspended) lost_end.2 ->
   alone 0 (StageState "r" "web/100" (ss_Manifest demo_suspended)) lost_end.2 = (inl StateResumable, lost_end.2)).
Proof.
  apply (barrier_lost_wakeup demo_hash lost_store "r" "web/100" demo_suspended lost_pool lost_end).
  - vm_compute. reflexivity.
  - intros key. unfold ended. rewrite !elem_of_cons, elem_of_nil. intros [->|[->|[->|[]]]]; vm_compute; reflexivity.
  - apply Forall_cons_2; [apply b_sibling|]. apply Forall_cons_2; [|constructor].
    eapply b_late; [vm_compute; reflexivity|reflexivity|]. vm_compute. eexists. reflexivity.
  - apply sched_steps.
Defined.

Example lost_resumable : alone 0 (StageState "r" "web/100" demo_manifest) lost_end.2 = (inl StateResumable, lost_end.2).
Proof. rewrite StageState_alone. f_equal. Qed.

Lemma stage_never_back_witness :
  rank (stage_state demo_store "r" "web/100" demo_manifest) <= rank StateWaiting <= rank (stage_state demo_store "r" "web/100" demo_manifest) /\
  rank StateWaiting <= rank StateResumable.
Proof.
  apply (stage_never_back "r" "web/100" demo_manifest demo_store StateWaiting demo_store lost_end.2 StateResumable lost_end.2).
  - apply (alone_among true (fun _ => True) _ 0); [apply only_StageState|]. rewrite StageState_alone. reflexivity.
  - apply map_subseteq_spec. apply map_Forall_to_list. vm_compute. repeat constructor.
  - apply (alone_among true (fun _ => True) _ 0); [apply only_StageState|]. rewrite StageState_alone. reflexivity.
Defined.

(** A run suspends at [web/200] for two deferred ops while their workers call
    back. *)
Definition join_waiting : list PendingJoin := [mkJoin "opc_x" "x" 0 200 "" "web"; mkJoin "opc_y" "y" 1 200 "" "web"].
Definition join_setup : Prog (option Err) :=
  do! _ <- CreateDeferredOp "r" (mkDeferredSpec "opc_x" "x" 0 200 "" "web/100" "web" "tx#" "{}" 0%Z);
  CreateDeferredOp "r" (mkDeferredSpec "opc_y" "y" 1 200 "" "web/100" "web" "ty#" "{}" 0%Z).
Definition join_store : Store := (alone 0 join_setup ∅).2.
Definition join_pool : list (Prog Outcome) := [cb "opc_x" "tx" "[1]"; cb "opc_y" "ty" "[2]"].
Definition join_end : Sys Outcome :=
  sched 1 (concat (replicate 24 [1; 0; 2])) (suspendForDeferredJoins "r" "web/200" "{}" join_waiting :: join_pool, join_store).

Lemma join_ends : join_end.1 = [Ret Recorded; Ret (Resuming "r" "web/200"); Ret Recorded].
Proof. vm_compute. reflexivity. Qed.

Lemma deferred_wakes_witness :
  exists i, join_end.1 !! i = Some (Ret (Resuming "r" "web/200")) /\
    forall j, join_end.1 !! j = Some (Ret (Resuming "r" "web/200")) -> j = i.
Proof.
  apply (deferred_wakes demo_hash join_store "r" "web/200" "{}" join_waiting join_pool join_end).
  - repeat constructor; discriminate.
  - apply (bool_decide_unpack _). vm_compute. exact I.
  - intros key. unfold ended. rewrite !elem_of_cons, elem_of_nil. intros [->|[->|[->|[]]]]; vm_compute; reflexivity.
  - vm_compute. reflexivity.
  - vm_compute. reflexivity.
  - intros pj. unfold join_waiting. rewrite !elem_of_cons, elem_of_nil. intros [->|[->|[]]]; vm_compute; reflexivity.
  - repeat constructor; (eapply f_callback; [vm_compute; reflexivity|reflexivity..]).
  - apply sched_steps.
  - unfold all_ended. rewrite join_ends. repeat constructor; eexists; reflexivity.
  - intros key. replace (join_terms "r" "web/200" join_waiting) with [deferredTerminalKey "r" "opc_x"; deferredTerminalKey "r" "opc_y"] by (vm_compute; reflexivity).
    rewrite !elem_of_cons, elem_of_nil. intros [->|[->|[]]]; vm_compute; eexists; reflexivity.
Defined.

(** A run that expires at 5, seen by the janitor at 10. *)
Definition sweep_store : Store := (alone 0 (CreateRun "acme" "web" "1" "web/100" "rid" 5%Z) ∅).2.
Lemma sweep_store_ids : run_ids sweep_store = ["run_0"].
Proof. vm_compute. reflexivity. Qed.

Lemma run_0 : run_id "run_0".
Proof. by split. Qed.

Lemma sweep_verdicts_witness :
  verdict 100 100 10 sweep_store "run_0" = Fail_ "expired" /\
  carried_out 10 (verdict 100 100 10 sweep_store "run_0") "run_0" sweep_store (alone 10 (sweep 100 100 1) sweep_store).2.
Proof.
  split; [vm_compute; reflexivity|]. refine (proj1 (sweep_verdicts 100 100 10 1 sweep_store _) "run_0" run_0).
  rewrite sweep_store_ids. cbn. lia.
Defined.

(** The same run at 3 is alive. *)
Lemma failed_read_purges_witness :
  verdict 100 100 3 sweep_store "run_0" = Keep /\
  exists s', rtc (pstep true) ([sweep_run 100 100 3%Z "run_0"], sweep_store) ([Ret Passed], s') /\
    forall key, run_id_of key = Some "run_0" -> s' !! key = None.
Proof. split; [vm_compute; reflexivity|]. apply (failed_read_purges 100 100 3%Z "run_0" sweep_store run_0). Defined.

Definition purged : Store := (alone 0 (PurgeRun "r") join_store).2.
Lemma purge_leaves_deferred_witness :
  purged !! opContinuationKey "opc_x" = Some (DOpLookup (mkOpLookup "r" "" "x" 0 "tx#" 0%Z true)) /\
  (alone 0 (cb "opc_x" "tx" "[1]") purged).1 = Recorded /\ "r" ∈ run_ids (alone 0 (cb "opc_x" "tx" "[1]") purged).2.
Proof.
  destruct (purge_leaves_deferred demo_hash 0 "r" join_store "opc_x" (mkOpLookup "r" "" "x" 0 "tx#" 0%Z true) "tx" "[1]") as (_ & H1 & H2 & _ & H3).
  - by split.
  - vm_compute. reflexivity.
  - reflexivity.
  - reflexivity.
  - apply (bool_decide_unpack _). vm_compute. exact I.
  - discriminate.
  - reflexivity.
  - exact (conj H1 (conj H2 H3)).
Defined.

(** The run is back at [web/100]: op [a] is dispatched under a new handle and its
    worker calls back. *)
Definition again_pool : list (Prog Outcome) :=
  [suspend_barrier "r" "web/100" "[2]" "" demo_manifest [mkSpec 0 "a" true "opc_c" "tc#" "{}" 0%Z]; cb "opc_c" "tc" "[4]"].
Definition again_end : Sys Outcome := sched 200 (replicate 12 0 ++ replicate 12 1) (again_pool, demo_end.2).
Lemma again_ends : again_end.1 = [Ret Finished; Ret Recorded].
Proof. vm_compute. reflexivity. Qed.

Lemma second_visit_lost_witness :
  alone 200 (SuspendStage "r" "web/100" "[2]" "" demo_manifest) demo_end.2 = (None, demo_end.2) /\
  forall i, again_end.1 !! i <> Some (Ret (Resuming "r" "web/100")).
Proof.
  apply (second_visit_lost demo_hash again_pool demo_end.2 again_end "r" "web/100" "[2]" "" demo_manifest demo_suspended 200).
  - vm_compute. reflexivity.
  - vm_compute. eexists. reflexivity.
  - repeat constructor.
  - apply sched_steps.
Defined.
