(* ===== verification/Txcguard.v ===== *)
(** * The control-plane guard (chassis/txcguard)

    Which [_txc] paths an author-controlled producer may write or delete
    (txcguard.go), and which writes would pad an array past the limit (pad.go).
    The decision is made on the keys sjson resolves, through JsonxPath. *)

From Stdlib Require Import Ascii String ZArith Lia Bool.
From stdpp Require Import base tactics list strings.
From S2P Require Import Prelude GoStrings GoStrconv JsonxPath.

(** ** Allowlists *)

Definition authorWritable : list string :=
  ["web.res"; "lmtp.res"; "dns.res"; "imap.res"; "source.res"; "calendar.res"; "contacts.res";
   "git.res"; "tcp.res"; "goto"; "halt"; "delete"; "telemetry"; "llm.reject"; "llm.upstream";
   "llm.headers"; "llm.context"; "grant.res"].

Definition authorDeletable : list string :=
  ["web.req.body"; "imap.msg.text"; "imap.msg.html"; "imap.msg.headers"; "calendar.ical";
   "calendar.event"; "calendar.prior"; "contacts.vcard"; "contacts.card"; "contacts.prior";
   "git.commands"; "git.changes"; "git.commits"; "websocket.msg.text"; "websocket.msg.data"].

Definition systemWritable : list string := ["route"].
Definition computedWritable : list string := ["computed"].

Definition AuthorWritablePaths : list string := authorWritable.

Definition splitAll (l : list string) : list (list string) := map (fun e => Split e ".") l.
Definition authorKeys : list (list string) := splitAll authorWritable.
Definition deleteKeys : list (list string) := splitAll authorDeletable.
Definition systemKeys : list (list string) := splitAll systemWritable.
Definition computedKeys : list (list string) := splitAll computedWritable.

(** ** The policy *)

Definition NormalizePath (p : string) : string :=
  let p := TrimSpace p in
  if p =s "" then ""
  else
    let p := if HasPrefix p "@" then ("_txc." ++ TrimPrefix (sdrop 1 p) ".")%string else p in
    TrimPrefix p ".".

(** [(sub, reserved, ok)]. *)
Definition txcSubKeys (path : string) : list string * bool * bool :=
  match PathKeys path with
  | None => ([], false, false)
  | Some [] => ([], false, false)
  | Some (k :: ks) => if negb (k =s "_txc") then ([], false, true) else (ks, true, true)
  end.

(** The keys [want] open [sub], compared one by one. *)
Fixpoint keys_prefix (want sub : list string) : bool :=
  match want, sub with
  | [], _ => true
  | k :: want, s :: sub => (s =s k) && keys_prefix want sub
  | _ :: _, [] => false
  end.

Definition under (sub : list string) (lists : list (list (list string))) : bool :=
  existsb (existsb (fun want => keys_prefix want sub)) lists.

Definition special_bytes : string := String (b 92) ":*?#".

Definition mayTouch (path : string) (lists : list (list (list string))) : bool :=
  if negb (path =s "") && negb (ContainsAny path special_bytes) &&
     negb (path =s "_txc") && negb (HasPrefix path "_txc.")
  then true
  else
    let '(sub, reserved, ok) := txcSubKeys path in
    if negb ok then false
    else if negb reserved then true
    else under sub lists.

Definition AuthorMayWrite (path : string) : bool := mayTouch path [authorKeys].
Definition AuthorMayDelete (path : string) : bool := mayTouch path [authorKeys; deleteKeys].

Definition IsGotoPath (raw : string) : bool :=
  let '(sub, reserved, ok) := txcSubKeys (NormalizePath raw) in
  ok && reserved && match sub with k :: _ => k =s "goto" | [] => false end.

Definition SystemMayWrite (path : string) : bool :=
  let '(sub, reserved, ok) := txcSubKeys path in ok && reserved && under sub [systemKeys].

(** ** Array padding (pad.go) *)

(** What [padsArray] asks of gjson about a document: the raw value at a raw
    segment (when [Result.Index > 0]), its kind, and its length as an array. *)
Class GjsonDoc := {
  g_lookup : string -> string -> option string;
  g_IsArray : string -> bool;
  g_IsObject : string -> bool;
  g_arrayLen : string -> nat }.

Definition MaxArrayPad : Z := 65535.

Fixpoint digits_loop (path : string) (most max : Z) : bool :=
  match path with
  | EmptyString => false
  | String c path =>
      if is_dec c then
        let most := wrap64 (most * 10 + 9) in
        if (max <? most)%Z then true else digits_loop path most max
      else digits_loop path most max
  end.
Definition digitsCanExceed (path : string) (max : Z) : bool := digits_loop path 0 max.

Section Pad.
Context `{GjsonDoc}.

(** The walk down the existing part of the document: [None] when the write
    replaces a value in place, else where sjson starts building. *)
Fixpoint walk (doc : string) (segs : list PathKey) : option (string * list PathKey) :=
  match segs with
  | [] => None
  | k :: rest =>
      match g_lookup doc (Raw k) with
      | Some raw => match rest with [] => None | _ => walk raw rest end
      | None => Some (doc, segs)
      end
  end.

(** The [add] closure: the new total, or [None] when it goes over. *)
Definition add (max pad : Z) (k : PathKey) : option Z :=
  let '(n, isIndex, huge) := Index k in
  if negb isIndex then Some pad
  else if huge || (max - pad <? n)%Z then None else Some (pad + n)%Z.

Fixpoint add_all (max pad : Z) (ks : list PathKey) : bool :=
  match ks with
  | [] => false
  | k :: ks => match add max pad k with None => true | Some pad => add_all max pad ks end
  end.

(** The first key sjson builds, in the place it builds it. *)
Definition first_pad (max : Z) (doc : string) (k : PathKey) : option Z :=
  let '(n, isIndex, huge) := Index k in
  if isIndex && g_IsArray doc then
    if huge then None
    else
      let grow := (n - Z.of_nat (g_arrayLen doc))%Z in
      if (0 <? grow)%Z then if (max <? grow)%Z then None else Some grow else Some 0%Z
  else if isIndex && negb (g_IsObject doc) then add max 0 k
  else Some 0%Z.

(** [padsArray] past its fast path. *)
Definition pads_slow (doc path : string) (max : Z) : bool :=
  match PathSegments path with
  | None => false
  | Some segs =>
      match walk doc segs with
      | None | Some (_, []) => false
      | Some (doc, k :: rest) =>
          match first_pad max doc k with None => true | Some pad => add_all max pad rest end
      end
  end.

Definition padsArray (doc path : string) (max : Z) : bool :=
  if negb (digitsCanExceed path max) then false else pads_slow doc path max.

Definition PadsArray (doc path : string) : bool := padsArray doc path MaxArrayPad.

(** ** Output targets *)

(** The loop from the end of the path: the backslashes it ends with. *)
Fixpoint trailing (s : string) : nat :=
  match s with
  | EmptyString => 0
  | String c s => if (trailing s =? slen s) && (c =c BS) then S (trailing s) else trailing s
  end.
Definition danglingEscape (path : string) : bool := Nat.odd (trailing path).

Definition targetShapeOK (path : string) : bool :=
  negb (danglingEscape path) && negb (PadsArray "{}" path).

Definition AuthorTarget (raw : string) : string * bool :=
  let path := NormalizePath raw in
  if path =s "" then ("", true) else (path, targetShapeOK path && AuthorMayWrite path).

Definition ComputedTarget (raw : string) : string * bool :=
  let path := NormalizePath raw in
  if path =s "" then ("", true)
  else (path, targetShapeOK path && mayTouch path [authorKeys; computedKeys]).

(** sjson's writers, an error leaving the document as it was. *)
Definition BoundedSet {E} (sjson_Set : string -> string -> string -> string + E)
    (ErrArrayPad : E) (doc path value : string) : string + (string * E) :=
  if PadsArray doc path then inr (doc, ErrArrayPad)
  else match sjson_Set doc path value with inl d => inl d | inr e => inr (""%string, e) end.
End Pad.

(** ** What the policy decides *)

(** The decision on the resolved keys alone. *)
Definition touch_spec (path : string) (lists : list (list (list string))) : bool :=
  match PathKeys path with
  | None => false
  | Some ks =>
      match ks with
      | k :: sub => if k =s "_txc" then under sub lists else true
      | [] => false
      end
  end.

Lemma special_plain c : ContainsByte special_bytes c = negb (plain_byte c).
Proof.
  unfold ContainsByte, special_bytes, plain_byte, is_wild, BS. simpl.
  destruct (c =c b 92), (c =c ":"), (c =c "*"), (c =c "?"), (c =c "#"); done.
Qed.

Lemma plain_of_special path :
  ContainsAny path special_bytes = false -> sall plain_byte path = true.
Proof.
  unfold ContainsAny. intros H. apply sany_false_iff in H.
  eapply sall_impl; [|exact H]. intros c Hc. cbv beta in Hc.
  by rewrite special_plain, negb_involutive in Hc.
Qed.

(** The first piece of a split is [w] only if the text is [w] or goes on with
    the separator. *)
Lemma Split_head s sep w ws :
  Split s sep = w :: ws -> s = w \/ exists t, s = (w ++ String sep t)%string.
Proof.
  revert w ws. induction s as [|c s IH]; intros w ws; simpl.
  - intros H. injection H as <- <-. by left.
  - destruct (Ascii.eqb_spec c sep) as [->|Hc].
    + intros H. injection H as <- <-. right. by exists s.
    + destruct (Split s sep) as [|w' ws'] eqn:E; [by apply Split_not_nil in E|].
      intros H. injection H as <- <-. destruct (IH _ _ eq_refl) as [->|[t ->]]; [by left|].
      right. by exists t.
Qed.

(** The allocation-free fast path decides what the resolved keys decide. *)
Lemma mayTouch_spec path lists : mayTouch path lists = touch_spec path lists.
Proof.
  unfold mayTouch, touch_spec, txcSubKeys. destruct (_ && _) eqn:E; cycle 1.
  { destruct (PathKeys path) as [[|k ks]|]; [done| |done].
    by destruct (k =s "_txc"). }
  bool_to_prop. rewrite PathKeys_plain by (done || by apply plain_of_special).
  destruct (Split path ".") as [|k ks] eqn:Es; [by apply Split_not_nil in Es|].
  destruct (String.eqb_spec k "_txc") as [->|]; [|done]. exfalso.
  destruct (Split_head _ _ _ _ Es) as [->|[t ->]]; [done|].
  match goal with H : HasPrefix _ _ = false |- _ => revert H end.
  change ("_txc" ++ String "." t)%string with ("_txc." ++ t)%string.
  unfold HasPrefix. by rewrite prefix_app.
Qed.

Lemma keys_prefix_iff want sub : keys_prefix want sub = true <-> exists rest, sub = want ++ rest.
Proof.
  revert sub. induction want as [|k want IH]; intros sub; simpl; [naive_solver|].
  destruct sub as [|s sub]; [split; [done|by intros [? ?]]|].
  rewrite andb_true_iff, IH. split.
  - intros [->%String.eqb_eq [r ->]]. by exists r.
  - intros [r E]. injection E as -> ->. by rewrite String.eqb_refl; eauto.
Qed.

Lemma under_iff sub lists :
  under sub lists = true <->
  exists l want rest, In l lists /\ In want l /\ sub = want ++ rest.
Proof.
  unfold under. rewrite existsb_exists. split.
  - intros (l & Hl & (want & Hw & Hp)%existsb_exists). apply keys_prefix_iff in Hp as [r ->].
    by exists l, want, r.
  - intros (l & want & r & Hl & Hw & ->). exists l. split; [done|].
    apply existsb_exists. exists want. split; [done|]. apply keys_prefix_iff. eauto.
Qed.

(** C37: an author may write a path exactly when sjson accepts it and the keys
    it resolves to lie outside [_txc] or inside one of the allowlisted
    subtrees, key by key, however the path is spelled. *)
Theorem AuthorMayWrite_iff path :
  AuthorMayWrite path = true <->
  exists k sub, PathKeys path = Some (k :: sub) /\
    (k <> "_txc" \/
     exists entry rest, In entry authorWritable /\ sub = Split entry "." ++ rest).
Proof.
  unfold AuthorMayWrite. rewrite mayTouch_spec. unfold touch_spec.
  destruct (PathKeys path) as [[|k sub]|]; cycle 2.
  { split; [done|by intros (? & ? & ? & _)]. }
  { split; [done|by intros (? & ? & ? & _)]. }
  destruct (String.eqb_spec k "_txc") as [->|Hk].
  - rewrite under_iff. split.
    + intros (l & want & r & [<-|[]] & Hw & ->). apply in_map_iff in Hw as (e & <- & He).
      eexists _, _. split; [done|]. right. by exists e, r.
    + intros (k & s & E & [Hk|(e & r & He & ->)]); [naive_solver|]. injection E as <- ->.
      exists authorKeys, (Split e "."), r. split; [by left|]. split; [|done].
      by apply (in_map (fun e => Split e ".")).
  - split; [|done]. intros _. eauto 6.
Qed.

(** Whatever an author may write it may delete. *)
Lemma write_implies_delete path : AuthorMayWrite path = true -> AuthorMayDelete path = true.
Proof.
  unfold AuthorMayWrite, AuthorMayDelete. rewrite !mayTouch_spec. unfold touch_spec.
  destruct (PathKeys path) as [[|k sub]|]; try done. destruct (k =s "_txc"); [|done].
  rewrite !under_iff. intros (l & w & r & Hl & ?). exists l, w, r. split; [|done].
  destruct Hl as [<-|[]]. by left.
Qed.

Example spellings :
  map AuthorMayWrite [(String BS "_txc.tenant"); ("_tx" ++ String BS "c.tenant")%string; ":_txc.tenant";
                      "_txc.webx"; "_txc.web.resx"; "_txc"; "a._txc.tenant"; ""; "a*"]
  = [false; false; false; false; false; false; true; false; false].
Proof. reflexivity. Qed.

(** ** Targets stay inside their subtree *)

Lemma trailing_le s : trailing s <= slen s.
Proof.
  induction s as [|c s IH]; simpl; [lia|]. destruct (trailing s =? slen s), (c =c BS); simpl; lia.
Qed.

Lemma pending_trailing s e :
  pending s e = if trailing s =? slen s then xorb e (Nat.odd (slen s)) else Nat.odd (trailing s).
Proof.
  revert e. induction s as [|c s IH]; intros e; [by destruct e|].
  cbn [pending trailing String.length]. rewrite IH. pose proof (trailing_le s).
  destruct (Nat.eqb_spec (trailing s) (slen s)) as [E|E]; cbn [andb].
  - destruct (c =c BS).
    + rewrite E, Nat.eqb_refl, Nat.odd_succ, <- Nat.negb_odd. by destruct e, (Nat.odd (slen s)).
    + destruct (Nat.eqb_spec (trailing s) (S (slen s))); [lia|].
      rewrite E. by destruct e, (Nat.odd (slen s)).
  - destruct (Nat.eqb_spec (trailing s) (S (slen s))); [lia|]. done.
Qed.

Lemma danglingEscape_pending s : danglingEscape s = pending s false.
Proof.
  unfold danglingEscape. rewrite pending_trailing.
  destruct (Nat.eqb_spec (trailing s) (slen s)) as [->|]; [|done]. by destruct (Nat.odd _).
Qed.

(** what an op builds under an accepted target stays inside the subtree
    that was checked: appending a dot and any path to it never leaves what the
    author may write. *)
Theorem AuthorTarget_extends `{GjsonDoc} raw path k ks :
  AuthorTarget raw = (path, true) -> path <> "" -> PathKeys k = Some ks ->
  AuthorMayWrite (path ++ String "." k) = true.
Proof.
  unfold AuthorTarget. destruct (NormalizePath raw =s "") eqn:E; [naive_solver|].
  intros Ht _ Hk. injection Ht as Hp Ht. rewrite Hp in Ht. clear Hp E raw.
  apply andb_true_iff in Ht as [Hs Hw]. unfold targetShapeOK in Hs.
  apply andb_true_iff in Hs as [Hd _]. apply negb_true_iff in Hd.
  rewrite danglingEscape_pending in Hd.
  unfold AuthorMayWrite in *. rewrite mayTouch_spec in *. unfold touch_spec, PathKeys in *.
  destruct (splitPath path) as [segs|] eqn:Ep; [|done].
  destruct (splitPath k) as [segs'|] eqn:Ek; [|done].
  rewrite (splitPath_app _ _ _ _ Hd Ep Ek). destruct segs as [|[nm fr] segs]; [done|].
  cbn [map name app] in *. destruct (nm =s "_txc"); [|done].
  rewrite under_iff in Hw. rewrite under_iff.
  destruct Hw as (l & w & r & Hl & Hin & E). exists l, w, (r ++ map name segs').
  rewrite map_app, E, app_assoc. auto.
Qed.

(** Every document is empty: the fresh object an op builds into. *)
Definition empty_doc : GjsonDoc :=
  {| g_lookup := fun _ _ => None; g_IsArray := fun _ => false; g_IsObject := fun _ => true;
     g_arrayLen := fun _ => 0 |}.

Lemma AuthorTarget_extends_witness :
  @AuthorTarget empty_doc "@web.res" = ("_txc.web.res", true) /\
  AuthorMayWrite ("_txc.web.res" ++ String "." "items.0") = true.
Proof.
  split; [reflexivity|].
  apply (@AuthorTarget_extends empty_doc "@web.res" _ _ ["items"; "0"]); [reflexivity|discriminate|reflexivity].
Defined.

(** The escape the shape check refuses would leave the subtree. *)
Example dangling_escapes :
  let path := ("_txc.web.res" ++ String BS "")%string in
  AuthorMayWrite path = true /\ @AuthorTarget empty_doc path = (path, false) /\
  PathKeys (path ++ String "." "items") = Some ["_txc"; "web"; "res.items"] /\
  AuthorMayWrite (path ++ String "." "items") = false.
Proof. repeat split; reflexivity. Qed.

(** ** The padding fast path is sound *)

Fixpoint ndigits (s : string) : nat :=
  match s with
  | EmptyString => 0
  | String c s => (if is_dec c then 1 else 0) + ndigits s
  end.

Lemma ndigits_app s t : ndigits (s ++ t) = ndigits s + ndigits t.
Proof. induction s as [|c s IH]; simpl; [done|]. rewrite IH. lia. Qed.

(** The largest number [k] digits spell. *)
Definition nines (k : nat) : Z := (10 ^ Z.of_nat k - 1)%Z.

Lemma nines_S k : nines (S k) = (nines k * 10 + 9)%Z.
Proof. unfold nines. rewrite Nat2Z.inj_succ, Z.pow_succ_r by lia. lia. Qed.
Lemma nines_pos k : (0 <= nines k)%Z.
Proof. unfold nines. pose proof (Z.pow_pos_nonneg 10 (Z.of_nat k)). lia. Qed.
Lemma nines_add a b : (nines a + nines b <= nines (a + b))%Z.
Proof.
  unfold nines. rewrite Nat2Z.inj_add, Z.pow_add_r by lia.
  pose proof (Z.pow_pos_nonneg 10 (Z.of_nat a)). pose proof (Z.pow_pos_nonneg 10 (Z.of_nat b)). nia.
Qed.
Lemma nines_mono a b : a <= b -> (nines a <= nines b)%Z.
Proof. intros. unfold nines. pose proof (Z.pow_le_mono_r 10 (Z.of_nat a) (Z.of_nat b)). lia. Qed.

Lemma digits_loop_false path j max :
  (nines j <= max <= MaxArrayPad)%Z -> digits_loop path (nines j) max = false ->
  (nines (j + ndigits path) <= max)%Z.
Proof.
  revert j. induction path as [|c path IH]; intros j Hj; simpl.
  { intros _. rewrite Nat.add_0_r. lia. }
  destruct (is_dec c); [|by apply IH].
  rewrite <- nines_S, wrap64_id; cycle 1.
  { rewrite nines_S. pose proof (nines_pos j).
    unfold int64_ok, MinInt64, MaxInt64, two63, MaxArrayPad in *. lia. }
  destruct (Z.ltb_spec max (nines (S j))); [done|]. intros Hd.
  replace (j + (1 + ndigits path)) with (S j + ndigits path) by lia. apply IH; [lia|done].
Qed.

(** The keys hold no more digits than the path. *)
Lemma split_spec_digits s : forall cur frc st segs,
  split_spec s cur frc st = Some segs ->
  sum_list_with (fun sg => ndigits (name sg)) segs <= ndigits cur + ndigits s.
Proof.
  induction s as [|c|c d s IH1 IH2] using string_ind2; intros cur frc st segs.
  - intros H. injection H as <-. simpl. lia.
  - cbn [split_spec]. repeat case_bool; intros H; try done; injection H as <-; simpl;
      rewrite ?ndigits_app; simpl; lia.
  - remember (String d s) as s' eqn:Es. cbn [split_spec ndigits].
    destruct (st && (c =c ":")); [intros H; apply IH2 in H; lia|].
    destruct (c =c BS).
    { subst s'. intros H. apply IH1 in H. rewrite ndigits_app in H. simpl in *. lia. }
    destruct (c =c ".").
    { destruct (split_spec s' "" false true) as [l|] eqn:El; [|done].
      intros H. injection H as <-. apply IH2 in El. simpl in *. lia. }
    destruct (is_wild c); [done|]. intros H. apply IH2 in H. rewrite ndigits_app in H.
    simpl in H. lia.
Qed.

Definition keys_digits (ks : list PathKey) : nat := sum_list_with (fun k => ndigits (Name k)) ks.

Lemma raw_keys_digits segs path :
  keys_digits (raw_keys segs path) = sum_list_with (fun sg => ndigits (name sg)) segs.
Proof.
  unfold keys_digits. revert path. induction segs as [|sg l IH]; intros path; [done|].
  cbn [raw_keys]. destruct (raw_split path). simpl. by rewrite IH.
Qed.

Lemma index_loop_small s n m h :
  (0 <= n)%Z -> ((n + 1) * 10 ^ Z.of_nat (ndigits s) - 1 <= MaxArrayPad)%Z ->
  index_loop s n false = Some (m, h) ->
  h = false /\ (0 <= m <= (n + 1) * 10 ^ Z.of_nat (ndigits s) - 1)%Z.
Proof.
  revert n. induction s as [|c s IH]; intros n Hn; cbn [index_loop ndigits].
  { simpl. intros _ H. injection H as <- <-. lia. }
  destruct (is_dec c) eqn:Ed; [|done]. simpl negb. cbv iota.
  pose proof (digit_val_bounds c Ed) as Hd.
  rewrite Nat2Z.inj_succ, Z.pow_succ_r by lia.
  pose proof (Z.pow_pos_nonneg 10 (Z.of_nat (ndigits s))) as Hp. intros Hmax.
  destruct (Z.ltb_spec ((MaxInt - digit_val c) / 10) n) as [Hlt|Hge].
  { exfalso. unfold MaxInt, MaxInt64, two63, MaxArrayPad in *.
    pose proof (Z.div_le_lower_bound (9223372036854775808 - 1 - digit_val c) 10 n). nia. }
  intros H. apply IH in H as [-> ?]; [|lia|nia].
  split; [done|nia].
Qed.

Lemma Index_small k n h :
  (nines (ndigits (Name k)) <= MaxArrayPad)%Z -> Index k = (n, true, h) ->
  h = false /\ (0 <= n <= nines (ndigits (Name k)))%Z.
Proof.
  unfold Index, nines. intros Hs. destruct (Force k); [done|].
  destruct (index_loop (Name k) 0 false) as [[m h']|] eqn:E; [|done].
  intros H. injection H as <- <-. apply index_loop_small in E; [|lia|lia].
  destruct E as [-> ?]. split; [done|lia].
Qed.

Section PadFacts.
Context `{GjsonDoc}.

Lemma walk_digits doc segs doc' ks :
  walk doc segs = Some (doc', ks) -> keys_digits ks <= keys_digits segs.
Proof.
  unfold keys_digits. revert doc. induction segs as [|k rest IH]; intros doc; [done|].
  cbn [walk sum_list_with]. destruct (g_lookup doc (Raw k)) as [raw|].
  - destruct rest as [|k' rest]; [done|]. intros Hw. apply IH in Hw. lia.
  - intros Hw. injection Hw as <- <-. simpl. lia.
Qed.

Lemma add_small max pad k :
  (max <= MaxArrayPad)%Z -> (0 <= pad)%Z -> (pad + nines (ndigits (Name k)) <= max)%Z ->
  exists pad', add max pad k = Some pad' /\ (0 <= pad' <= pad + nines (ndigits (Name k)))%Z.
Proof.
  intros Hm Hp Hs. unfold add. pose proof (nines_pos (ndigits (Name k))).
  destruct (Index k) as [[n [|]] h] eqn:E; simpl; [|exists pad; split; [done|lia]].
  apply Index_small in E as [-> ?]; [|lia]. simpl.
  destruct (Z.ltb_spec (max - pad) n); [lia|]. eexists. split; [done|lia].
Qed.

Lemma add_all_small max pad ks :
  (max <= MaxArrayPad)%Z -> (0 <= pad)%Z -> (pad + nines (keys_digits ks) <= max)%Z ->
  add_all max pad ks = false.
Proof.
  intros Hm. revert pad. unfold keys_digits.
  induction ks as [|k ks IH]; intros pad Hp Hs; simpl; [done|]. simpl in Hs.
  set (r := sum_list_with (fun k => ndigits (Name k)) ks) in *.
  pose proof (nines_add (ndigits (Name k)) r). pose proof (nines_pos r).
  destruct (add_small max pad k) as (pad' & -> & ?); [lia|lia|lia|]. apply IH; lia.
Qed.

Lemma first_pad_small max doc k :
  (0 <= max <= MaxArrayPad)%Z -> (nines (ndigits (Name k)) <= max)%Z ->
  exists pad, first_pad max doc k = Some pad /\ (0 <= pad <= nines (ndigits (Name k)))%Z.
Proof.
  intros Hm Hs. unfold first_pad. pose proof (nines_pos (ndigits (Name k))).
  destruct (Index k) as [[n [|]] h] eqn:E; simpl; [|exists 0%Z; split; [done|lia]].
  pose proof E as E'. apply Index_small in E' as [-> Hn]; [|lia].
  destruct (g_IsArray doc).
  - destruct (Z.ltb_spec 0 (n - Z.of_nat (g_arrayLen doc))); [|exists 0%Z; split; [done|lia]].
    destruct (Z.ltb_spec max (n - Z.of_nat (g_arrayLen doc))); [lia|].
    eexists. split; [done|lia].
  - destruct (g_IsObject doc); simpl; [exists 0%Z; split; [done|lia]|].
    destruct (add_small max 0 k) as (pad & ? & ?); [lia|lia|lia|]. exists pad. split; [done|lia].
Qed.

(** the digit-counting fast path of [padsArray] never lets a write
    through that the replay of sjson's walk would refuse: with or without
    it, the verdict is the same for every document, path and limit up to
    65535. *)
Theorem padsArray_fast_path doc path max :
  (0 <= max <= MaxArrayPad)%Z -> padsArray doc path max = pads_slow doc path max.
Proof.
  intros Hm. unfold padsArray. destruct (digitsCanExceed path max) eqn:Ed; [done|]. simpl.
  unfold digitsCanExceed in Ed. change 0%Z with (nines 0) in Ed.
  apply digits_loop_false in Ed; [|unfold nines; simpl; lia]. simpl in Ed.
  unfold pads_slow, PathSegments. rewrite splitPath_spec. destruct (path =s ""); [done|].
  destruct (split_spec path "" false true) as [segs|] eqn:Es; [|done].
  apply split_spec_digits in Es. simpl in Es. rewrite <- (raw_keys_digits segs path) in Es.
  destruct (walk doc (raw_keys segs path)) as [[doc' [|k rest]]|] eqn:Ew; [done| |done].
  apply walk_digits in Ew. unfold keys_digits in Ew at 1. cbn [sum_list_with] in Ew.
  fold (keys_digits rest) in Ew.
  assert (Hn : (nines (ndigits (Name k) + keys_digits rest) <= max)%Z)
    by (etransitivity; [apply nines_mono|exact Ed]; lia).
  pose proof (nines_add (ndigits (Name k)) (keys_digits rest)).
  pose proof (nines_pos (keys_digits rest)).
  destruct (first_pad_small max doc' k) as (pad & -> & ?); [lia|lia|].
  symmetry. apply add_all_small; lia.
Qed.
End PadFacts.

Lemma padsArray_fast_path_witness :
  @padsArray empty_doc "{}" "a.2000000" MaxArrayPad = @pads_slow empty_doc "{}" "a.2000000" MaxArrayPad /\
  @pads_slow empty_doc "{}" "a.2000000" MaxArrayPad = true /\
  @pads_slow empty_doc "{}" "a.20" MaxArrayPad = false.
Proof. split; [|split; reflexivity]. apply padsArray_fast_path. done. Defined.
