(* ===== verification/Budget.v ===== *)
(** * Request budgets (chassis/processor/budget.go, allowance.go, frame.go)

    The fuel ledger, the hop countdown, the repeat-transition history, the
    allowance a request enters and the frames calls push.  [EnvBudget] is what
    the code reads of an envelope through gjson, and writes back to it.  The
    atomics are single steps of [bstep] where several goroutines share them. *)

From Stdlib Require Import Ascii String ZArith Lia Bool.
From stdpp Require Import base tactics list strings gmap sets.
From S2P Require Import Prelude GoStrings GoStrconv Lexer Parser.

Open Scope Z_scope.

(** ** Costs *)

Definition fuelCostScopeEnter : Z := 10.
Definition fuelCostRepeatTransition : Z := 50.
Definition fuelCostExec : Z := 25.

(** ** State *)

(** [allowancePin]; [resetsAt] is an instant in nanoseconds, [None] for the zero
    time. *)
Record allowancePin := mkPin {
  a_name : string; a_limit : Z; a_resetsAt : option Z; a_cap : Z; a_denied : bool }.

Record budgetState := mkBudget {
  fuel : Z; ttl : Z; maxFuel : Z; maxTTL : Z; penaltyMs : Z;
  allowance : option allowancePin;
  seen : gset string; recent : list string }.

Definition set_fuel (s : budgetState) (x : Z) :=
  mkBudget x (ttl s) (maxFuel s) (maxTTL s) (penaltyMs s) (allowance s) (seen s) (recent s).
Definition set_ttl (s : budgetState) (x : Z) :=
  mkBudget (fuel s) x (maxFuel s) (maxTTL s) (penaltyMs s) (allowance s) (seen s) (recent s).
Definition set_maxFuel (s : budgetState) (x : Z) :=
  mkBudget (fuel s) (ttl s) x (maxTTL s) (penaltyMs s) (allowance s) (seen s) (recent s).
Definition set_allowance (s : budgetState) (x : option allowancePin) :=
  mkBudget (fuel s) (ttl s) (maxFuel s) (maxTTL s) (penaltyMs s) x (seen s) (recent s).
Definition set_history (s : budgetState) (sn : gset string) (r : list string) :=
  mkBudget (fuel s) (ttl s) (maxFuel s) (maxTTL s) (penaltyMs s) (allowance s) sn r.

Record Config := mkConfig { OpScopeTTLMax : Z; OpRepeatPenaltyMs : Z; MaxFuelPerRequest : Z }.

(** [_txc.allowance] when it is an object with a name.  [resets_at] is RFC 3339
    text, which keeps the whole seconds of an instant. *)
Record envelopeAllowance := mkEnvAllowance {
  ea_name : string; ea_fuel : Z; ea_resetsAt : option Z; ea_cap : Z }.

(** [_txc.fuel_used], [_txc.ttl], [_txc._seen] and [_txc.allowance]; [None] is
    a field that does not exist. *)
Record EnvBudget := mkEnv {
  e_fuel_used : option Z; e_ttl : option Z; e_seen : option (list string);
  e_allowance : option envelopeAllowance }.

Inductive BudgetErr :=
| FuelExhaustedError (max used : Z) (stage : string) (last : list string)
| TTLExhaustedError (max consumed : Z) (stage : string) (last : list string)
| AllowanceExhaustedError (name : string) (limit : Z) (resets : option Z) (used : Z) (stage : string).

Inductive AllowanceErr := NoBudget | ErrAllowanceEntered (name : string).

(** ** Frames (frame.go) *)

Record callError := mkCallError { ce_code : string; ce_message : string }.

Record frame := mkFrame {
  f_stack : string; f_source : string; f_depth : nat; f_input : string;
  f_peels : bool; f_mayStream : bool; f_mayContinue : bool;
  f_seen : gset string; f_ttl : Z; f_running : gmap string nat; f_fail : option callError }.

Definition rootFrame (source : string) : frame :=
  mkFrame "" source 0 "" true true true ∅ 0 ∅ None.
Definition resumeFrame (source : string) : frame :=
  mkFrame "" source 0 "" true false true ∅ 0 ∅ None.
Definition detachedFrame (source : string) : frame :=
  mkFrame "" source 0 "" true false true ∅ 0 ∅ None.

Definition callDepth (f : option frame) : nat :=
  match f with None => 0%nat | Some f => f_depth f end.

Definition newCallFrame (parent : option frame) (stack source input : string) : frame :=
  mkFrame stack source (S (callDepth parent)) input false false false ∅ 0 ∅ None.

Definition isCall (f : option frame) : bool :=
  match f with None => false | Some f => (0 <? f_depth f)%nat end.
Definition mayPeel (f : option frame) : bool :=
  match f with None => true | Some f => f_peels f end.

(** [StagePartsRE.FindStringSubmatch], whose pattern is not anchored at the
    front and whose dot stops at a newline: the match is in the last line, and
    its greedy first group ends at the last slash. *)
Definition last_line (s : string) : string :=
  match LastIndex s LF with Some i => sdrop (S i) s | None => s end.

Definition stageParts (stage : string) : option (string * string) :=
  let line := last_line stage in
  match LastIndex line "/" with
  | Some i =>
      let scope := sdrop (S i) line in
      if negb (scope =s "") && sall is_dec scope then Some (stake i line, scope) else None
  | None => None
  end.

Definition confines (f : option frame) (stage : string) : bool :=
  if negb (isCall f) then true
  else match f, stageParts stage with
       | Some f, Some (stack, _) => stack =s f_stack f
       | _, _ => false
       end.

Definition frame_set (f : frame) (sn : gset string) (t : Z) (r : gmap string nat)
    (e : option callError) : frame :=
  mkFrame (f_stack f) (f_source f) (f_depth f) (f_input f) (f_peels f) (f_mayStream f)
    (f_mayContinue f) sn t r e.

Definition sawTransition (f : frame) (key : string) : bool * frame :=
  (bool_decide (key ∈ f_seen f), frame_set f ({[key]} ∪ f_seen f) (f_ttl f) (f_running f) (f_fail f)).

Definition opStarted (f : frame) (label : string) : frame :=
  if negb (isCall (Some f)) then f
  else frame_set f (f_seen f) (f_ttl f)
         (<[label := S (default 0%nat (f_running f !! label))]> (f_running f)) (f_fail f).

Definition opDone (f : frame) (label : string) : frame :=
  if negb (isCall (Some f)) then f
  else frame_set f (f_seen f) (f_ttl f)
         (let n := default 0%nat (f_running f !! label) in
          if (1 <? n)%nat then <[label := (n - 1)%nat]> (f_running f)
          else delete label (f_running f)) (f_fail f).

Definition stillRunning (f : frame) : list string :=
  SortStrings (map_to_list (f_running f)).*1.

Definition failWith (f : frame) (code message : string) : frame :=
  if negb (isCall (Some f)) then f
  else match f_fail f with
       | Some _ => f
       | None => frame_set f (f_seen f) (f_ttl f) (f_running f) (Some (mkCallError code message))
       end.

Definition failure (f : option frame) : option callError :=
  match f with None => None | Some f => f_fail f end.

(** ** Fuel *)

Definition exhausted (p : allowancePin) (used : Z) (stage : string) : BudgetErr :=
  AllowanceExhaustedError (a_name p) (a_limit p) (a_resetsAt p) used stage.

Definition overBudget (s : budgetState) (used : Z) (stage : string) : option BudgetErr :=
  match allowance s with
  | Some p =>
      if a_denied p then Some (exhausted p used stage)
      else if (maxFuel s <=? 0) || (used <=? maxFuel s) then None
      else if (0 <? a_cap p) && (a_cap p =? maxFuel s) then Some (exhausted p used stage)
      else Some (FuelExhaustedError (maxFuel s) used stage (recent s))
  | None =>
      if (maxFuel s <=? 0) || (used <=? maxFuel s) then None
      else Some (FuelExhaustedError (maxFuel s) used stage (recent s))
  end.

(** The charging helpers take the context's budget; [None] when accounting is
    not initialised. *)
Definition addFuel (s : budgetState) (cost : Z) (stage : string) : option BudgetErr * budgetState :=
  let s := set_fuel s (wrap64 (fuel s + cost)) in
  (overBudget s (fuel s) stage, s).

Definition fuelExceeded (s : budgetState) (stage : string) : option BudgetErr :=
  overBudget s (fuel s) stage.

(** ** Hops *)

Definition hop_verdict (s : budgetState) (current : Z) (stage : string) : option BudgetErr :=
  let original := wrap64 (current + 1) in
  if original <=? 0 then None
  else if current <=? 0 then Some (TTLExhaustedError (maxTTL s) (maxTTL s) stage (recent s))
  else None.

Definition decrementTTL (s : budgetState) (fr : option frame) (stage : string)
    : option BudgetErr * budgetState * option frame :=
  match fr with
  | Some f =>
      if isCall fr then
        let current := wrap64 (f_ttl f - 1) in
        (hop_verdict s current stage, s,
         Some (frame_set f (f_seen f) current (f_running f) (f_fail f)))
      else
        let current := wrap64 (ttl s - 1) in
        (hop_verdict s current stage, set_ttl s current, fr)
  | None =>
      let current := wrap64 (ttl s - 1) in
      (hop_verdict s current stage, set_ttl s current, fr)
  end.

(** ** Transitions *)

Definition transition_key (from to : string) : string := (from ++ "->" ++ to)%string.

(** [recent = append(recent, key)], cut to its last three. *)
Definition push_recent (r : list string) (key : string) : list string :=
  let r := (r ++ [key])%list in
  if (3 <? length r)%nat then drop (length r - 3) r else r.

Definition chargeTransition (s : budgetState) (fr : option frame) (from to : string)
    : (Z * option BudgetErr) * budgetState * option frame :=
  let key := transition_key from to in
  let '(repeat, sn, fr) :=
    match fr with
    | Some f =>
        if isCall fr then let '(r, f) := sawTransition f key in (r, seen s, Some f)
        else (bool_decide (key ∈ seen s), {[key]} ∪ seen s, fr)
    | None => (bool_decide (key ∈ seen s), {[key]} ∪ seen s, fr)
    end in
  let s := set_history s sn (push_recent (recent s) key) in
  let penalty := if repeat && (0 <? penaltyMs s) then wrap64 (penaltyMs s * Millisecond) else 0 in
  if repeat : bool then
    match addFuel s fuelCostRepeatTransition to with
    | (Some err, s) => ((0, Some err), s, fr)
    | (None, s) => ((penalty, None), s, fr)
    end
  else ((penalty, None), s, fr).

(** ** Allowances (allowance.go) *)

Record AllowanceCheck := mkCheck {
  c_Name : string; c_Defined : bool; c_Fuel : Z; c_Used : Z; c_ResetsAt : option Z }.

Definition pin_envelope (p : allowancePin) : envelopeAllowance :=
  mkEnvAllowance (a_name p) (a_limit p) (option_map (fun t => t / Second) (a_resetsAt p)) (a_cap p).

(** The pin an entry would set, from the values it loaded. *)
Definition entry_pin (c : AllowanceCheck) (cur : option allowancePin) (fuelNow maxNow : Z)
    : allowancePin :=
  if negb (c_Defined c) then mkPin (c_Name c) 0 None 0 false
  else
    let left := wrap64 (c_Fuel c - c_Used c) in
    if left <=? 0 then mkPin (c_Name c) (c_Fuel c) (c_ResetsAt c) 0 true
    else
      let ceiling := wrap64 (fuelNow + left) in
      let cap :=
        if (maxNow <=? 0) || (ceiling <? maxNow) then ceiling
        else match cur with
             | Some p => if a_cap p =? maxNow then maxNow else 0
             | None => 0
             end in
      mkPin (c_Name c) (c_Fuel c) (c_ResetsAt c) cap false.

(** [lowerMaxFuel], when no other goroutine interferes. *)
Definition lowerMaxFuel (s : budgetState) (ceiling : Z) : budgetState :=
  if (0 <? maxFuel s) && (maxFuel s <=? ceiling) then s else set_maxFuel s ceiling.

Definition EnterAllowance (s : budgetState) (c : AllowanceCheck)
    : (bool + AllowanceErr) * budgetState :=
  let enter :=
    let p := entry_pin c (allowance s) (fuel s) (maxFuel s) in
    let s := set_allowance s (Some p) in
    (inl (a_denied p), if 0 <? a_cap p then lowerMaxFuel s (a_cap p) else s) in
  match allowance s with
  | Some cur => if negb (a_name cur =s c_Name c) then (inr (ErrAllowanceEntered (a_name cur)), s) else enter
  | None => enter
  end.

Definition restoreAllowance (s : budgetState) (raw : EnvBudget) : budgetState :=
  match e_allowance raw with
  | None => s
  | Some a =>
      let resets := option_map (fun t => t * Second) (ea_resetsAt a) in
      if ea_name a =s "" then s
      else if (0 <? ea_cap a) && ((maxFuel s <=? 0) || (ea_cap a <=? maxFuel s))
      then set_allowance (set_maxFuel s (ea_cap a))
             (Some (mkPin (ea_name a) (ea_fuel a) resets (ea_cap a) false))
      else set_allowance s (Some (mkPin (ea_name a) (ea_fuel a) resets 0 false))
  end.

Definition AllowanceScope (s : option budgetState) : string :=
  match s with
  | Some s => match allowance s with Some p => a_name p | None => "" end
  | None => ""
  end.

(** ** Envelope *)

Definition loadBudget (ctx : option budgetState) (raw : EnvBudget) (conf : Config) : budgetState :=
  match ctx with
  | Some existing => existing
  | None =>
      let s := mkBudget (default 0 (e_fuel_used raw)) 0 (MaxFuelPerRequest conf)
                 (OpScopeTTLMax conf) (OpRepeatPenaltyMs conf) None ∅ [] in
      let s := restoreAllowance s raw in
      let s := set_ttl s match e_ttl raw with Some t => t | None => OpScopeTTLMax conf end in
      set_history s (list_to_set (default [] (e_seen raw))) (recent s)
  end.

(** [_seen] lists the set in the map's iteration order, whatever it is. *)
Definition syncBudgetToEnvelope (s : option budgetState) (raw : EnvBudget) : EnvBudget :=
  match s with
  | None => raw
  | Some s =>
      mkEnv (Some (fuel s)) (Some (ttl s)) (Some (elements (seen s)))
        match allowance s with Some p => Some (pin_envelope p) | None => e_allowance raw end
  end.

Definition StripBudgetFromOutbound (raw : EnvBudget) : EnvBudget :=
  mkEnv None None None (e_allowance raw).

Definition FuelUsedFromEnvelope (raw : EnvBudget) : Z := default 0 (e_fuel_used raw).

Definition clampTTL (raw : EnvBudget) (requested : Z) : Z :=
  let current := default 0 (e_ttl raw) in
  if requested <? current then requested else current.

(** [EMIT @ttl = requested], as OverlayResponse applies it. *)
Definition emit_ttl (raw : EnvBudget) (requested : Z) : EnvBudget :=
  mkEnv (e_fuel_used raw) (Some (clampTTL raw requested)) (e_seen raw) (e_allowance raw).
