(* ===== verification/BudgetFacts.v ===== *)
(** * Properties of the request budget

    The hop guard, the repeat-transition charge, the allowance's ceiling and
    name under concurrent entries, and the trip through the envelope. *)

From Stdlib Require Import Ascii String ZArith Lia Bool.
From stdpp Require Import base tactics list strings gmap sets sorting.
From S2P Require Import Prelude GoStrings GoStrconv Parser Budget.

Open Scope Z_scope.

Ltac unfold_int64 := unfold int64_ok, MinInt64, MaxInt64, two63 in *.

(** ** The hop guard *)

(** The state after [k] hops outside any call. *)
Fixpoint hops (k : nat) (s : budgetState) (stage : string) : budgetState :=
  match k with
  | 0%nat => s
  | S k => (decrementTTL (hops k s stage) None stage).1.2
  end.

Lemma hops_ttl k s stage :
  int64_ok (ttl s) -> MinInt64 <= ttl s - Z.of_nat k -> hops k s stage = set_ttl s (ttl s - Z.of_nat k).
Proof.
  intros Hs. induction k as [|k IH]; intros Hk.
  - cbn [hops]. change (Z.of_nat 0) with 0. rewrite Z.sub_0_r. by destruct s.
  - cbn [hops]. rewrite IH by lia. unfold decrementTTL. simpl.
    rewrite wrap64_id by (unfold_int64; lia). unfold set_ttl. simpl. f_equal. lia.
Qed.

(** The hop guard fires exactly once, at the hop that uses up the
    countdown: with [n] hops left the first [n-1] pass, the [n]-th is refused,
    and with none left (the guard disabled, or already spent) no hop ever is. *)
Theorem ttl_fires_once s stage k :
  int64_ok (ttl s) -> MinInt64 <= ttl s - Z.of_nat (S k) ->
  (is_Some (decrementTTL (hops k s stage) None stage).1.1 <-> ttl s = Z.of_nat (S k)).
Proof.
  intros Hs Hk. rewrite hops_ttl by (done || lia). unfold decrementTTL, hop_verdict.
  cbn [fst snd]. change (ttl (set_ttl s (ttl s - Z.of_nat k))) with (ttl s - Z.of_nat k).
  rewrite (wrap64_id (ttl s - Z.of_nat k - 1)) by (unfold_int64; lia).
  rewrite wrap64_id by (unfold_int64; lia).
  destruct (Z.leb_spec (ttl s - Z.of_nat k - 1 + 1) 0); [split; [by intros []|lia]|].
  destruct (Z.leb_spec (ttl s - Z.of_nat k - 1) 0); split; intros; try lia; [by eexists|].
  by match goal with H : is_Some None |- _ => destruct H end.
Qed.

Definition toy_budget : budgetState := mkBudget 0 3 100 3 10 None ∅ [].

Lemma ttl_fires_once_witness :
  is_Some (decrementTTL (hops 2 toy_budget "a/0") None "a/0").1.1 /\
  (decrementTTL (hops 1 toy_budget "a/0") None "a/0").1.1 = None /\
  (decrementTTL (hops 3 toy_budget "a/0") None "a/0").1.1 = None.
Proof.
  split; [|split; reflexivity]. apply (ttl_fires_once toy_budget "a/0" 2); [|done|done].
  split; done.
Defined.

(** Inside a call a hop costs the frame, never the request. *)
Lemma call_hop_private s f stage :
  isCall (Some f) = true -> (decrementTTL s (Some f) stage).1.2 = s.
Proof. intros H. unfold decrementTTL. by rewrite H. Qed.

(** ** Transitions *)

Definition lastn {A} (n : nat) (l : list A) : list A := drop (length l - n) l.

Lemma push_recent_lastn r key : (length r <= 3)%nat -> push_recent r key = lastn 3 (r ++ [key]).
Proof.
  intros Hr. unfold push_recent, lastn. rewrite length_app. simpl.
  destruct (Nat.ltb_spec 3 (length r + 1)); [done|].
  by replace (length r + 1 - 3)%nat with 0%nat by lia.
Qed.

Lemma lastn_le {A} n (l : list A) : (length (lastn n l) <= n)%nat.
Proof. unfold lastn. rewrite length_drop. lia. Qed.

Lemma lastn_app {A} n (l k : list A) : lastn n (lastn n l ++ k) = lastn n (l ++ k).
Proof.
  unfold lastn. rewrite !length_app, length_drop.
  destruct (decide (length l <= n)%nat).
  - replace (length l - n)%nat with 0%nat by lia. by rewrite drop_0, Nat.sub_0_r.
  - rewrite <- (drop_app_le l k (length l - n)) by lia. rewrite drop_drop. f_equal. lia.
Qed.

(** A request's walk over stages outside any call, charge by charge. *)
Fixpoint run_transitions (s : budgetState) (l : list (string * string)) : budgetState :=
  match l with
  | [] => s
  | (from, to) :: l => run_transitions (chargeTransition s None from to).1.2 l
  end.

Definition keys (l : list (string * string)) : list string :=
  map (fun t => transition_key t.1 t.2) l.

Lemma chargeTransition_root s from to :
  (chargeTransition s None from to).1.2 =
  let key := transition_key from to in
  let s' := set_history s ({[key]} ∪ seen s) (push_recent (recent s) key) in
  if bool_decide (key ∈ seen s) then set_fuel s' (wrap64 (fuel s + fuelCostRepeatTransition))
  else s'.
Proof.
  unfold chargeTransition, addFuel. cbn [isCall]. destruct (bool_decide _); simpl; [|done].
  by destruct (overBudget _ _ _).
Qed.

(** A walk pays 50 fuel for every transition it repeats and for none it
    takes the first time, so the fuel grows by 50 per step less 50 per new
    entry of the history; the history gains exactly the transitions taken, and
    the ring keeps the last three of them. *)
Theorem transitions_charge s l :
  0 <= fuel s -> fuel s + 50 * Z.of_nat (length l) <= MaxInt64 -> (length (recent s) <= 3)%nat ->
  let s' := run_transitions s l in
  fuel s' + 50 * Z.of_nat (size (seen s')) =
    fuel s + 50 * Z.of_nat (size (seen s)) + 50 * Z.of_nat (length l) /\
  seen s' = seen s ∪ list_to_set (keys l) /\
  recent s' = lastn 3 (recent s ++ keys l).
Proof.
  revert s. induction l as [|[from to] l IH]; intros s Hf Hm Hr; simpl.
  { split; [lia|]. split; [set_solver|].
    unfold lastn. rewrite app_nil_r. by replace (length (recent s) - 3)%nat with 0%nat by lia. }
  rewrite chargeTransition_root. cbv zeta. set (key := transition_key from to).
  assert (Hlen : (length (push_recent (recent s) key) <= 3)%nat)
    by (rewrite push_recent_lastn by done; apply lastn_le).
  cbn [length] in Hm. unfold fuelCostRepeatTransition.
  destruct (bool_decide (key ∈ seen s)) eqn:Ek.
  - apply bool_decide_eq_true in Ek.
    rewrite wrap64_id by (unfold_int64; lia).
    destruct (IH (set_fuel (set_history s ({[key]} ∪ seen s) (push_recent (recent s) key)) (fuel s + 50)))
      as (E1 & E2 & E3); [simpl; lia|simpl; lia|done|]. simpl in *.
    replace ({[key]} ∪ seen s) with (seen s) in * by set_solver.
    split; [lia|]. split; [set_solver|].
    rewrite E3, push_recent_lastn, lastn_app by done. by rewrite <- app_assoc.
  - apply bool_decide_eq_false in Ek.
    destruct (IH (set_history s ({[key]} ∪ seen s) (push_recent (recent s) key)))
      as (E1 & E2 & E3); [simpl; lia|simpl; lia|done|]. simpl in *.
    rewrite size_union in E1 by set_solver. rewrite size_singleton in E1.
    split; [lia|]. split; [set_solver|].
    rewrite E3, push_recent_lastn, lastn_app by done. by rewrite <- app_assoc.
Qed.

Lemma transitions_charge_witness :
  let l := [("a/0", "a/10"); ("a/10", "a/0"); ("a/0", "a/10")] in
  let s' := run_transitions toy_budget l in
  fuel s' + 50 * Z.of_nat (size (seen s')) = 0 + 50 * 0 + 50 * 3 /\ fuel s' = 50.
Proof.
  intros l s'. split; [|reflexivity].
  refine (proj1 (transitions_charge toy_budget l _ _ _)); simpl; [lia|unfold MaxInt64, two63; lia|lia].
Defined.

(** ** Concurrent entries

    Ops of one scope run in parallel on one request: they charge fuel and enter
    allowances concurrently.  A pinned allowance is a fresh pointer, so it
    carries an identity and [CompareAndSwap] compares identities; each atomic
    access is one step. *)

Definition pinned : Type := option (nat * allowancePin).

Inductive bthread :=
| TAdd (cost : Z)
| TEnter (c : AllowanceCheck)
| TGot (c : AllowanceCheck) (cur : pinned)
| TFuel (c : AllowanceCheck) (cur : pinned) (fuelNow : Z)
| TCas (c : AllowanceCheck) (cur : pinned) (p : allowancePin)
| TLower (ceiling : Z)
| TLowerCas (ceiling m : Z)
| TRefused (name : string)
| TEnd.

Record bconfig := mkBConfig {
  b_fuel : Z; b_max : Z; b_allow : pinned; b_next : nat; b_threads : list bthread }.

Definition pin_of (cur : pinned) : option allowancePin :=
  match cur with Some (_, p) => Some p | None => None end.

(** One atomic access of the thread: its next state and the shared values. *)
Inductive tstep : Z * Z * pinned * nat -> bthread -> Z * Z * pinned * nat -> bthread -> Prop :=
| ts_add f m a n cost : tstep (f, m, a, n) (TAdd cost) (wrap64 (f + cost), m, a, n) TEnd
| ts_refused f m i p n c :
    a_name p <> c_Name c -> tstep (f, m, Some (i, p), n) (TEnter c) (f, m, Some (i, p), n) (TRefused (a_name p))
| ts_load f m a n c :
    (forall p, pin_of a = Some p -> a_name p = c_Name c) ->
    tstep (f, m, a, n) (TEnter c) (f, m, a, n) (TGot c a)
| ts_fuel f m a n c cur : tstep (f, m, a, n) (TGot c cur) (f, m, a, n) (TFuel c cur f)
| ts_max f m a n c cur fl :
    tstep (f, m, a, n) (TFuel c cur fl) (f, m, a, n) (TCas c cur (entry_pin c (pin_of cur) fl m))
| ts_swap f m a n c p :
    tstep (f, m, a, n) (TCas c a p) (f, m, Some (n, p), S n)
          (if 0 <? a_cap p then TLower (a_cap p) else TEnd)
| ts_retry f m a n c cur p : a <> cur -> tstep (f, m, a, n) (TCas c cur p) (f, m, a, n) (TEnter c)
| ts_low f m a n ceiling : 0 < m <= ceiling -> tstep (f, m, a, n) (TLower ceiling) (f, m, a, n) TEnd
| ts_high f m a n ceiling :
    ~ (0 < m <= ceiling) -> tstep (f, m, a, n) (TLower ceiling) (f, m, a, n) (TLowerCas ceiling m)
| ts_lower f m a n ceiling : tstep (f, m, a, n) (TLowerCas ceiling m) (f, ceiling, a, n) TEnd
| ts_lower_retry f m a n ceiling m' :
    m <> m' -> tstep (f, m, a, n) (TLowerCas ceiling m') (f, m, a, n) (TLower ceiling).

Inductive bstep : bconfig -> bconfig -> Prop :=
| bstep_thread f m a n f' m' a' n' t t' ts us :
    tstep (f, m, a, n) t (f', m', a', n') t' ->
    bstep (mkBConfig f m a n (ts ++ t :: us)) (mkBConfig f' m' a' n' (ts ++ t' :: us)).

(** What a goroutine may still do was decided from values it loaded. *)
Definition bthread_ok (t : bthread) : Prop :=
  match t with
  | TGot c cur | TFuel c cur _ => forall p, pin_of cur = Some p -> a_name p = c_Name c
  | TCas c cur p => (forall q, pin_of cur = Some q -> a_name q = c_Name c) /\ a_name p = c_Name c
  | TLower ceiling => 0 < ceiling
  | TLowerCas ceiling m => 0 < ceiling /\ ~ (0 < m <= ceiling)
  | _ => True
  end.

(** [m'] is at most as generous a ceiling as [m]; 0 and below are no ceiling. *)
Definition no_higher (m' m : Z) : Prop := m <= 0 \/ 0 < m' <= m.

Lemma entry_pin_name c cur f m : a_name (entry_pin c cur f m) = c_Name c.
Proof. unfold entry_pin. destruct (c_Defined c); simpl; [|done]. by destruct (_ <=? 0). Qed.

(** One access keeps the thread honest, never raises the ceiling and never
    renames a pin. *)
Lemma tstep_ok f m a n t f' m' a' n' t' :
  tstep (f, m, a, n) t (f', m', a', n') t' -> bthread_ok t ->
  bthread_ok t' /\ no_higher m' m /\
  (forall p, pin_of a = Some p -> exists p', pin_of a' = Some p' /\ a_name p' = a_name p).
Proof.
  assert (Hrefl : forall m, no_higher m m) by (intros; unfold no_higher; lia).
  inversion 1; subst; simpl; intros Hok; split_and?; eauto; try (unfold no_higher; lia).
  - apply entry_pin_name.
  - destruct (Z.ltb_spec 0 (a_cap p)); simpl; lia.
  - destruct Hok as [Hc Hp]. intros q Hq. exists p. split; [done|]. by rewrite (Hc q Hq).
Qed.

Definition config_ok (c : bconfig) : Prop := Forall bthread_ok (b_threads c).

Lemma bstep_ok c c' :
  bstep c c' -> config_ok c ->
  config_ok c' /\ no_higher (b_max c') (b_max c) /\
  (forall p, pin_of (b_allow c) = Some p ->
     exists p', pin_of (b_allow c') = Some p' /\ a_name p' = a_name p).
Proof.
  intros [f m a n f' m' a' n' t t' ts us Ht] Hok. unfold config_ok in *. simpl in *.
  apply Forall_app in Hok as [H1 H2]. apply Forall_cons in H2 as [H2 H3].
  destruct (tstep_ok _ _ _ _ _ _ _ _ _ _ Ht H2) as (? & ? & ?). split; [|done].
  apply Forall_app. split; [done|]. by constructor.
Qed.

Lemma bsteps_ok c c' :
  rtc bstep c c' -> config_ok c ->
  config_ok c' /\ no_higher (b_max c') (b_max c) /\
  (forall p, pin_of (b_allow c) = Some p ->
     exists p', pin_of (b_allow c') = Some p' /\ a_name p' = a_name p).
Proof.
  induction 1 as [c|c c1 c' Hs _ IH]; intros Hok.
  { split; [done|]. split; [unfold no_higher; lia|eauto]. }
  destruct (bstep_ok _ _ Hs Hok) as (Hok1 & Hm & Hp). destruct (IH Hok1) as (? & Hm' & Hp').
  split; [done|]. split; [unfold no_higher in *; lia|].
  intros p Hin. destruct (Hp p Hin) as (p1 & E1 & N1). destruct (Hp' p1 E1) as (p2 & E2 & N2).
  exists p2. split; [done|congruence].
Qed.

(** Goroutines that have not started. *)
Definition fresh (t : bthread) : Prop :=
  match t with TAdd _ | TEnter _ => True | _ => False end.

Lemma fresh_ok ts : Forall fresh ts -> Forall bthread_ok ts.
Proof. intros Hf. eapply Forall_impl; [exact Hf|]. by intros []. Qed.

(** nothing raises a request's fuel ceiling.  However the charges and the
    allowance entries of its goroutines interleave, between any two moments of
    the run the ceiling is kept or lowered. *)
Theorem ceiling_never_raised c0 c c' :
  Forall fresh (b_threads c0) -> rtc bstep c0 c -> rtc bstep c c' ->
  no_higher (b_max c') (b_max c).
Proof.
  intros Hf H1 H2. destruct (bsteps_ok _ _ H1 (fresh_ok _ Hf)) as (Hok & _).
  by destruct (bsteps_ok _ _ H2 Hok) as (_ & ? & _).
Qed.

(** entering an allowance is write-once: after any interleaving that has
    pinned an allowance, every later moment of the run has an allowance of the
    same name pinned. *)
Theorem allowance_write_once c0 c c' p :
  Forall fresh (b_threads c0) -> rtc bstep c0 c -> rtc bstep c c' ->
  pin_of (b_allow c) = Some p ->
  exists p', pin_of (b_allow c') = Some p' /\ a_name p' = a_name p.
Proof.
  intros Hf H1 H2 Hp. destruct (bsteps_ok _ _ H1 (fresh_ok _ Hf)) as (Hok & _).
  destruct (bsteps_ok _ _ H2 Hok) as (_ & _ & ?). auto.
Qed.

(** Two goroutines enter different allowances at once: the second loses its
    swap, looks again and is refused. *)
Definition chk (n : string) : AllowanceCheck := mkCheck n true 40 10 None.
Definition race_start : bconfig := mkBConfig 5 100 None 0 [TEnter (chk "a"); TEnter (chk "b")].
Definition race_mid : bconfig :=
  mkBConfig 5 100 (Some (0%nat, mkPin "a" 40 None 35 false)) 1
    [TLower 35; TCas (chk "b") None (mkPin "b" 40 None 35 false)].
Definition race_end : bconfig :=
  mkBConfig 5 35 (Some (0%nat, mkPin "a" 40 None 35 false)) 1 [TEnd; TRefused "a"].

Ltac first_thread := eapply (bstep_thread _ _ _ _ _ _ _ _ _ _ []).
Ltac second_thread :=
  cbn [app]; match goal with |- bstep (mkBConfig _ _ _ _ [?t; _]) _ =>
    eapply (bstep_thread _ _ _ _ _ _ _ _ _ _ [t] []) end.

Lemma race_first : rtc bstep race_start race_mid.
Proof.
  eapply rtc_l; [first_thread; apply ts_load; done|].
  eapply rtc_l; [second_thread; apply ts_load; done|].
  eapply rtc_l; [first_thread; apply ts_fuel|].
  eapply rtc_l; [second_thread; apply ts_fuel|].
  eapply rtc_l; [first_thread; apply ts_max|].
  eapply rtc_l; [second_thread; apply ts_max|].
  eapply rtc_l; [first_thread; apply ts_swap|]. reflexivity.
Qed.

Lemma race_second : rtc bstep race_mid race_end.
Proof.
  unfold race_mid.
  eapply rtc_l; [second_thread; by apply ts_retry|].
  eapply rtc_l; [second_thread; by apply ts_refused|].
  eapply rtc_l; [first_thread; apply ts_high; lia|].
  eapply rtc_l; [first_thread; apply ts_lower|]. reflexivity.
Qed.

Lemma ceiling_never_raised_witness :
  no_higher (b_max race_end) (b_max race_mid) /\ b_max race_mid = 100 /\ b_max race_end = 35.
Proof.
  split; [|split; reflexivity].
  apply (ceiling_never_raised race_start); [repeat constructor|apply race_first|apply race_second].
Defined.

Lemma allowance_write_once_witness :
  exists p', pin_of (b_allow race_end) = Some p' /\ a_name p' = "a".
Proof.
  apply (allowance_write_once race_start race_mid race_end (mkPin "a" 40 None 35 false));
    [repeat constructor|apply race_first|apply race_second|reflexivity].
Defined.

(** ** The trip through the envelope *)

(** What an envelope carries: the ceiling is the configured one, or the one the
    pinned allowance set, and no refusal is pending. *)
Definition carried (conf : Config) (s : budgetState) : Prop :=
  maxTTL s = OpScopeTTLMax conf /\ penaltyMs s = OpRepeatPenaltyMs conf /\
  match allowance s with
  | None => maxFuel s = MaxFuelPerRequest conf
  | Some p =>
      a_name p <> "" /\ a_denied p = false /\
      (a_cap p = 0 /\ maxFuel s = MaxFuelPerRequest conf \/
       0 < a_cap p /\ maxFuel s = a_cap p /\ no_higher (a_cap p) (MaxFuelPerRequest conf))
  end.

(** The budget with the reset of its allowance cut to the second. *)
Definition whole_seconds (s : budgetState) : budgetState :=
  match allowance s with
  | None => s
  | Some p => set_allowance s (Some (mkPin (a_name p) (a_limit p)
                (option_map (fun t => t / Second * Second) (a_resetsAt p)) (a_cap p) (a_denied p)))
  end.

(** suspending and resuming a request keeps its budget: hydrating from the
    envelope the budget was written to, in a fresh context, gives back the
    fuel, the countdown, the history, the ceiling and the pinned allowance, its
    reset cut to the second; only the diagnostic ring starts empty. *)
Theorem sync_load_roundtrip conf s raw :
  carried conf s -> (allowance s = None -> e_allowance raw = None) ->
  loadBudget None (syncBudgetToEnvelope (Some s) raw) conf = set_history (whole_seconds s) (seen s) [].
Proof.
  intros (Ht & Hp & Ha) Hraw. unfold loadBudget, syncBudgetToEnvelope, restoreAllowance, whole_seconds.
  cbn [e_fuel_used e_ttl e_seen e_allowance].
  change (default [] (Some (elements (seen s)))) with (elements (seen s)).
  rewrite list_to_set_elements_L. destruct s as [fl tl mf mt pm al sn rc]. simpl in *.
  destruct al as [p|]; [|rewrite Hraw by done; unfold set_history; simpl; by subst].
  destruct Ha as (Hn & Hd & Hc). destruct p as [nm lim rs cap dn]. simpl in *.
  apply String.eqb_neq in Hn. rewrite Hn. subst dn mt pm.
  assert (Er : option_map (fun t => t * Second) (option_map (fun t => t / Second) rs) =
               option_map (fun t => t / Second * Second) rs) by (by destruct rs). rewrite Er.
  destruct Hc as [[-> ->]|(Hc & -> & Hh)]; [done|].
  destruct (Z.ltb_spec 0 cap); [|lia]. simpl. unfold no_higher in Hh.
  destruct (Z.leb_spec (MaxFuelPerRequest conf) 0); [done|].
  destruct (Z.leb_spec cap (MaxFuelPerRequest conf)); [done|lia].
Qed.

Definition toy_conf : Config := mkConfig 3 10 100.

Lemma sync_load_roundtrip_witness :
  let s := (EnterAllowance toy_budget (chk "a")).2 in
  loadBudget None (syncBudgetToEnvelope (Some s) (mkEnv None None None None)) toy_conf =
    set_history s (seen s) [] /\ maxFuel s = 30 /\ AllowanceScope (Some s) = "a".
Proof.
  intros s. split; [|split; reflexivity]. apply sync_load_roundtrip; [|discriminate].
  split; [reflexivity|]. split; [reflexivity|]. split; [discriminate|]. split; [reflexivity|].
  right. split; [reflexivity|]. split; [reflexivity|]. right. split; [reflexivity|discriminate].
Defined.

(** The operations keep a budget the envelope can carry, entries that are
    refused apart. *)
Lemma carried_addFuel conf s cost stage : carried conf s -> carried conf (addFuel s cost stage).2.
Proof. done. Qed.

(** The values an entry computes do not overflow. *)
Definition entry_in_range (s : budgetState) (c : AllowanceCheck) : Prop :=
  0 <= fuel s /\ 0 <= c_Used c <= MaxInt64 /\ 0 <= c_Fuel c <= MaxInt64 /\
  fuel s + c_Fuel c <= MaxInt64.

Lemma entry_pin_cap conf s c :
  carried conf s -> c_Defined c = true -> entry_in_range s c ->
  let p := entry_pin c (allowance s) (fuel s) (maxFuel s) in
  a_denied p = false ->
  a_cap p = 0 /\ maxFuel s = MaxFuelPerRequest conf \/
  0 < a_cap p /\ (maxFuel s <= 0 \/ a_cap p <= maxFuel s) /\
  no_higher (a_cap p) (MaxFuelPerRequest conf).
Proof.
  intros (_ & _ & Ha) Hdef (Hf & Hu & Hcf & Hm). unfold entry_pin. rewrite Hdef. simpl negb. cbv iota.
  rewrite (wrap64_id (c_Fuel c - c_Used c)) by (unfold_int64; lia).
  destruct (Z.leb_spec (c_Fuel c - c_Used c) 0); [done|]. intros _. simpl a_cap.
  rewrite wrap64_id by (unfold_int64; lia). unfold no_higher.
  destruct (Z.leb_spec (maxFuel s) 0), (Z.ltb_spec (fuel s + (c_Fuel c - c_Used c)) (maxFuel s));
    simpl; destruct (allowance s) as [p|]; try (destruct Ha as (_ & _ & [[Hc Hx]|(Hc & Hx & [?|?])]));
    try lia.
  all: destruct (Z.eqb_spec (a_cap p) (maxFuel s)); lia.
Qed.

Lemma carried_Enter conf s c s' :
  carried conf s -> c_Name c <> "" -> c_Defined c = true -> entry_in_range s c ->
  EnterAllowance s c = (inl false, s') -> carried conf s'.
Proof.
  intros Hs Hn Hdef Hr. pose proof (entry_pin_cap conf s c Hs Hdef Hr) as Hcap.
  pose proof (entry_pin_name c (allowance s) (fuel s) (maxFuel s)) as Hnm. cbv zeta in Hcap.
  unfold EnterAllowance. set (p := entry_pin _ _ _ _) in *.
  destruct Hs as (Ht & Hp & _).
  assert (Hgo : (inl (a_denied p) : bool + AllowanceErr,
                 if 0 <? a_cap p then lowerMaxFuel (set_allowance s (Some p)) (a_cap p)
                 else set_allowance s (Some p)) = (inl false, s') -> carried conf s').
  { intros E. injection E as Ed <-. rewrite Ed in Hcap. specialize (Hcap eq_refl).
    unfold carried, lowerMaxFuel. simpl.
    destruct (Z.ltb_spec 0 (a_cap p)); [destruct (Z.ltb_spec 0 (maxFuel s)); simpl;
      [destruct (Z.leb_spec (maxFuel s) (a_cap p))|]|]; simpl;
      (split; [done|]); (split; [done|]); (split; [congruence|]); (split; [done|]);
      unfold no_higher in *; lia. }
  destruct (allowance s) as [q|]; [destruct (negb _); [done|]|]; exact Hgo.
Qed.

(** a refusal does not survive the trip.  An entry into a spent allowance
    makes the next budget check end the request; written to the envelope and
    hydrated again, the same request has the allowance pinned but passes the
    check, unless its fuel is over the configured ceiling. *)
Theorem denial_not_carried conf s c s' raw stage :
  c_Name c <> "" -> EnterAllowance s c = (inl true, s') ->
  is_Some (fuelExceeded s' stage) /\
  let s'' := loadBudget None (syncBudgetToEnvelope (Some s') raw) conf in
  AllowanceScope (Some s'') = c_Name c /\
  (fuelExceeded s'' stage = None <->
   MaxFuelPerRequest conf <= 0 \/ fuel s' <= MaxFuelPerRequest conf).
Proof.
  intros Hn He.
  assert (Hp : exists p, allowance s' = Some p /\ a_name p = c_Name c /\ a_denied p = true /\ a_cap p = 0).
  { unfold EnterAllowance in He.
    pose proof (entry_pin_name c (allowance s) (fuel s) (maxFuel s)) as Hnm.
    assert (Hd : a_denied (entry_pin c (allowance s) (fuel s) (maxFuel s)) = true ->
                 a_cap (entry_pin c (allowance s) (fuel s) (maxFuel s)) = 0).
    { unfold entry_pin. destruct (negb _); [done|]. by destruct (_ <=? 0). }
    set (p := entry_pin _ _ _ _) in *. exists p.
    assert (Hgo : (inl (a_denied p) : bool + AllowanceErr,
                 if 0 <? a_cap p then lowerMaxFuel (set_allowance s (Some p)) (a_cap p)
                 else set_allowance s (Some p)) = (inl true, s') ->
                 allowance s' = Some p /\ a_name p = c_Name c /\ a_denied p = true /\ a_cap p = 0).
    { intros E. injection E as Ed <-. rewrite (Hd Ed). simpl. auto. }
    destruct (allowance s) as [q|]; [destruct (negb _); [done|]|]; by apply Hgo. }
  destruct Hp as (p & Ea & Hpn & Hd & Hc). split.
  { unfold fuelExceeded, overBudget. rewrite Ea, Hd. by eexists. }
  cbv zeta. unfold loadBudget, syncBudgetToEnvelope, restoreAllowance. rewrite Ea.
  cbn [e_fuel_used e_ttl e_seen e_allowance pin_envelope ea_name ea_cap ea_fuel ea_resetsAt].
  apply String.eqb_neq in Hn. rewrite Hpn, Hn, Hc. simpl. split; [done|].
  unfold fuelExceeded, overBudget. simpl.
  destruct (Z.leb_spec (MaxFuelPerRequest conf) 0); simpl; [split; [by left|done]|].
  destruct (Z.leb_spec (fuel s') (MaxFuelPerRequest conf)); [split; [by right|done]|].
  split; [done|lia].
Qed.

Lemma denial_not_carried_witness :
  let c := mkCheck "a" true 40 40 None in
  exists s', EnterAllowance toy_budget c = (inl true, s') /\ is_Some (fuelExceeded s' "x/0") /\
    fuelExceeded (loadBudget None (syncBudgetToEnvelope (Some s') (mkEnv None None None None)) toy_conf)
      "x/0" = None.
Proof.
  intros c. eexists. split; [reflexivity|].
  destruct (denial_not_carried toy_conf toy_budget c (EnterAllowance toy_budget c).2
              (mkEnv None None None None) "x/0") as [H1 [_ H2]]; [discriminate|reflexivity|].
  split; [exact H1|]. apply H2. right. discriminate.
Defined.

(** A request's stage entries in one process: hydrate, count the hop, let the
    stage's rule [EMIT @ttl] or not, write the budget back, enter the next. *)
Fixpoint flow (ctx : option budgetState) (raw : EnvBudget) (conf : Config)
    (emits : list (option Z)) : list (option BudgetErr) * EnvBudget :=
  match emits with
  | [] => ([], raw)
  | e :: emits =>
      let '(err, s, _) := decrementTTL (loadBudget ctx raw conf) None "" in
      let raw := match e with Some n => emit_ttl raw n | None => raw end in
      let '(errs, raw) := flow (Some s) (syncBudgetToEnvelope (Some s) raw) conf emits in
      (err :: errs, raw)
  end.

Lemma sync_emit_ttl s raw n :
  syncBudgetToEnvelope (Some s) (emit_ttl raw n) = syncBudgetToEnvelope (Some s) raw.
Proof. done. Qed.

(** inside a request [EMIT @ttl] does not take effect: whatever values the
    rules of a flow ask for, every hop gets the verdict, and the flow ends with
    the envelope, it would have without them. *)
Theorem emit_ttl_ineffective ctx raw conf emits :
  emits <> [] ->
  flow ctx raw conf emits = flow ctx raw conf (map (fun _ => None) emits).
Proof.
  destruct emits as [|e emits]; [done|]. intros _.
  assert (Hgo : forall s raw, flow (Some s) raw conf emits = flow (Some s) raw conf (map (fun _ => None) emits)).
  { clear. induction emits as [|e emits IH]; intros s raw; [done|]. cbn [flow map].
    destruct (decrementTTL _ _ _) as [[err s'] fr]. rewrite <- IH. by destruct e. }
  cbn [flow map]. destruct (decrementTTL _ _ _) as [[err s'] fr]. rewrite <- Hgo. by destruct e.
Qed.

Lemma emit_ttl_ineffective_witness :
  let raw := mkEnv None None None None in
  flow None raw toy_conf [Some 1; None; None] = flow None raw toy_conf [None; None; None] /\
  (flow None raw toy_conf [Some 1; None; None]).1 =
    [None; None; Some (TTLExhaustedError 3 3 "" [])].
Proof.
  intros raw. split; [|reflexivity].
  apply (emit_ttl_ineffective None raw toy_conf [Some 1; None; None]). discriminate.
Defined.

(** ** Frames *)

(** The frame's op counters: starts less ends of a label. *)
Fixpoint run_ops (f : frame) (l : list (bool * string)) : frame :=
  match l with
  | [] => f
  | (true, x) :: l => run_ops (opStarted f x) l
  | (false, x) :: l => run_ops (opDone f x) l
  end.

(** No label is kept at zero. *)
Definition running_ok (f : frame) : Prop := forall x n, f_running f !! x = Some n -> (0 < n)%nat.

Lemma opStarted_spec f x y :
  isCall (Some f) = true -> running_ok f ->
  running_ok (opStarted f x) /\ isCall (Some (opStarted f x)) = true /\
  default 0%nat (f_running (opStarted f x) !! y) =
    (default 0 (f_running f !! y) + if decide (x = y) then 1 else 0)%nat.
Proof.
  intros Hc Hok. unfold opStarted. rewrite Hc. simpl negb. cbv iota. unfold running_ok. simpl.
  split; [|split; [exact Hc|]].
  - intros z n. rewrite lookup_insert_Some. intros [[<- <-]|[_ ?]]; [lia|eauto].
  - destruct (decide (x = y)) as [->|Hne].
    + rewrite lookup_insert_eq. simpl. lia.
    + rewrite lookup_insert_ne by done. lia.
Qed.

Lemma opDone_spec f x y :
  isCall (Some f) = true -> running_ok f ->
  running_ok (opDone f x) /\ isCall (Some (opDone f x)) = true /\
  default 0%nat (f_running (opDone f x) !! y) =
    (default 0 (f_running f !! y) - if decide (x = y) then 1 else 0)%nat.
Proof.
  intros Hc Hok. unfold opDone. rewrite Hc. simpl negb. cbv iota. unfold running_ok. simpl.
  destruct (Nat.ltb_spec 1 (default 0%nat (f_running f !! x))).
  - split; [|split; [exact Hc|]].
    + intros z n. rewrite lookup_insert_Some. intros [[<- <-]|[_ ?]]; [lia|eauto].
    + destruct (decide (x = y)) as [->|Hne].
      * rewrite lookup_insert_eq. simpl. lia.
      * rewrite lookup_insert_ne by done. lia.
  - split; [|split; [exact Hc|]].
    + intros z n. rewrite lookup_delete_Some. intros [_ ?]. eauto.
    + destruct (decide (x = y)) as [->|Hne].
      * rewrite lookup_delete_eq. simpl. lia.
      * rewrite lookup_delete_ne by done. lia.
Qed.

(** Starts minus ends of [x], for a sequence in which no end precedes its start. *)
Fixpoint balance (x : string) (n : nat) (l : list (bool * string)) : nat :=
  match l with
  | [] => n
  | (st, y) :: l =>
      balance x (if decide (y = x) then if st : bool then S n else n - 1 else n)%nat l
  end.

Lemma run_ops_balance f l x :
  isCall (Some f) = true -> running_ok f ->
  running_ok (run_ops f l) /\
  default 0%nat (f_running (run_ops f l) !! x) = balance x (default 0%nat (f_running f !! x)) l.
Proof.
  revert f. induction l as [|[[|] y] l IH]; intros f Hc Hok; cbn [run_ops balance]; [done| |].
  - destruct (opStarted_spec f y x Hc Hok) as (? & ? & E). destruct (IH (opStarted f y)) as [? ->]; [done..|].
    split; [done|]. rewrite E. destruct (decide (y = x)); f_equal; lia.
  - destruct (opDone_spec f y x Hc Hok) as (? & ? & E). destruct (IH (opDone f y)) as [? ->]; [done..|].
    split; [done|]. rewrite E. destruct (decide (y = x)); f_equal; lia.
Qed.

(** When a call ends, the ops it reports as still running are exactly
    those started more often than they returned, whatever the interleaving. *)
Theorem stillRunning_exact parent stack source input l x :
  let f := run_ops (newCallFrame parent stack source input) l in
  x ∈ stillRunning f <-> (0 < balance x 0 l)%nat.
Proof.
  intros f. destruct (run_ops_balance (newCallFrame parent stack source input) l x) as [Hok E];
    [done|unfold running_ok; simpl; intros ? ?; by rewrite lookup_empty|]. fold f in Hok, E.
  simpl in E. rewrite lookup_empty in E. simpl in E. rewrite <- E.
  unfold stillRunning, SortStrings.
  assert (Hp : merge_sort string_le (map_to_list (f_running f)).*1 ≡ₚ (map_to_list (f_running f)).*1)
    by apply merge_sort_Permutation.
  rewrite Hp, list_elem_of_fmap. split.
  - intros ([y n] & -> & Hy%elem_of_map_to_list). simpl. rewrite Hy. simpl. by apply Hok in Hy.
  - destruct (f_running f !! x) as [n|] eqn:El; simpl; [|lia]. intros _.
    exists (x, n). split; [done|]. by apply elem_of_map_to_list.
Qed.

(** A stage splits into a stack and the digits after its last slash. *)
Lemma stageParts_join stack sc :
  sc <> "" -> sall is_dec sc = true -> sall (fun c => negb (Ascii.eqb c Lexer.LF)) stack = true ->
  stageParts (stack ++ String "/" sc) = Some (stack, sc).
Proof.
  intros Hne Hd Hnl.
  assert (Hns : forall x, is_dec x = false -> sall (fun d => negb (Ascii.eqb d x)) sc = true).
  { intros x Hx. eapply sall_impl; [|exact Hd]. intros d Hdd. apply negb_true_iff, Ascii.eqb_neq.
    intros ->. congruence. }
  assert (El : last_line (stack ++ String "/" sc) = (stack ++ String "/" sc)%string).
  { unfold last_line. rewrite (proj1 (LastIndex_none _ _)); [done|].
    rewrite sall_app, Hnl. cbn [sall]. by rewrite (Hns Lexer.LF) by done. }
  unfold stageParts. rewrite El, LastIndex_app by (by apply Hns).
  assert (E2 : sdrop (S (slen stack)) (stack ++ String "/" sc) = sc).
  { replace (S (slen stack)) with (slen stack + 1)%nat by lia. rewrite <- sdrop_sdrop, sdrop_app. done. }
  rewrite stake_app, E2, Hd. apply String.eqb_neq in Hne. by rewrite Hne.
Qed.

Lemma stageParts_spec stage stack sc :
  stageParts stage = Some (stack, sc) ->
  last_line stage = (stack ++ String "/" sc)%string /\ sc <> "" /\ sall is_dec sc = true.
Proof.
  unfold stageParts. destruct (LastIndex (last_line stage) "/") as [i|] eqn:Ei; [|done].
  destruct (_ && _) eqn:Ej; [|done]. intros [= <- <-]. apply andb_true_iff in Ej as [Hne Hd].
  destruct (LastIndex_some _ _ _ Ei) as [Es _]. apply negb_true_iff, String.eqb_neq in Hne. done.
Qed.

(** A call is boxed to its stack: the stages its frame admits are exactly
    those whose last line is the stack, a slash and a scope number. *)
Theorem confines_iff parent stack source input stage :
  confines (Some (newCallFrame parent stack source input)) stage = true <->
  exists sc, last_line stage = (stack ++ String "/" sc)%string /\ sc <> "" /\ sall is_dec sc = true.
Proof.
  unfold confines. change (isCall _) with true. simpl negb. cbv iota. split.
  - destruct (stageParts stage) as [[st sc]|] eqn:E; [|done]. intros Hs%String.eqb_eq. simpl in Hs. subst st.
    apply stageParts_spec in E. eauto.
  - intros (sc & El & Hne & Hd). unfold stageParts. rewrite El.
    assert (Hns : sall (fun d => negb (Ascii.eqb d "/")) sc = true).
    { eapply sall_impl; [|exact Hd]. intros d Hdd. apply negb_true_iff, Ascii.eqb_neq. by intros ->. }
    rewrite LastIndex_app by done.
    assert (E2 : sdrop (S (slen stack)) (stack ++ String "/" sc) = sc).
    { replace (S (slen stack)) with (slen stack + 1)%nat by lia. rewrite <- sdrop_sdrop, sdrop_app. done. }
    rewrite stake_app, E2, Hd. apply String.eqb_neq in Hne. rewrite Hne. simpl. apply String.eqb_refl.
Qed.
