(* ===== verification/OpsIndex.v ===== *)
(** * Which ops a stage runs (chassis/processor/opsindex.go, processor.go)

    A stage is a stack and a scope floor.  The ops it runs are those at the
    lowest populated scope at or above the floor, in the stack itself or in the
    nearest ancestor that has any.  [OpsForStage] finds them with SQL over the
    request's snapshot, or in an in-memory ladder that is rebuilt when the
    snapshot or its generation changes.

    A snapshot is the [ops] table in rowid order and the tenants table; a query
    error, which both paths return as it is, is not modelled.  The rules of the
    ladder are parsed by [parse] ([txcl_Resonator]). *)

From Stdlib Require Import Ascii String ZArith Lia Bool.
From stdpp Require Import base tactics list strings gmap sorting.
From S2P Require Import Prelude GoStrings GoStrconv Opname Lexer Budget.

Open Scope Z_scope.

(** ** Stages *)

(** [strconv.Atoi] of a run of digits; [None] when it is out of range. *)
Definition Atoi_digits (s : string) : option Z :=
  let n := dec_value s 0 in if n <=? MaxInt64 then Some n else None.

Definition StageParse (stage : string) : option (string * Z) :=
  match stageParts stage with
  | Some (stack, sc) => match Atoi_digits sc with Some n => Some (stack, n) | None => None end
  | None => None
  end.

Definition stage_of (stack : string) (scope : Z) : string := (stack ++ "/" ++ Itoa scope)%string.

Definition resolveGoto (currentStage raw : string) : string :=
  if raw =s "" then ""
  else match stageParts raw with
       | Some _ => raw
       | None => match StageParse currentStage with
                 | Some (stack, _) => (stack ++ "/" ++ raw)%string
                 | None => ""
                 end
       end.

Definition nextStageFor (currentStage gotoStage : string) : string :=
  if negb (gotoStage =s "") then gotoStage
  else match StageParse currentStage with
       | Some (stack, scope) => stage_of stack (wrap64 (scope + 1))
       | None => ""
       end.

(** ** The overlay walk *)

Definition stackParent (stack : string) : option string :=
  if stack =s "" then None
  else match LastIndex stack "/" with Some i => Some (stake i stack) | None => None end.

Definition peelParent (stack : string) : option string :=
  match stackParent stack with
  | None => None
  | Some parent => if HasPrefix (sdrop (slen parent + 1) stack) "_" then None else Some parent
  end.

Definition escapeLikeLiterals (pattern : string) : string :=
  ReplaceAll (ReplaceAll pattern LikeEscapeChar (LikeEscapeChar ++ LikeEscapeChar)) "_" (LikeEscapeChar ++ "_").

(** ** The snapshot *)

Record Row := mkRow {
  row_tenant : option string; row_stack : string; row_scope : Z; row_name : string;
  row_txcl : string; row_mock : string }.
Record Snapshot := mkSnapshot { ops_rows : list Row; tenant_rows : list (string * string) }.

Definition tenant_id (snap : Snapshot) (slug : string) : option string :=
  snd <$> List.find (fun p => fst p =s slug) (tenant_rows snap).

Definition tenantPredicate (snap : Snapshot) (tenant : string) (r : Row) : bool :=
  if tenant =s "" then match row_tenant r with None => true | Some _ => false end
  else match row_tenant r, tenant_id snap tenant with
       | Some t, Some id => t =s id
       | _, _ => false
       end.

Section Ops.
Context {R : Type}.
Variable parse : string -> option R.

(** [operation.Operation] as a lookup returns it; [op_Resonator] is [None] for a
    rule not parsed yet, and the fields of the request are empty. *)
Record Operation := mkOp {
  op_Stack : string; op_Scope : Z; op_Name : string; op_Txcl : string; op_MockRes : string;
  op_Resonator : option R }.

Definition scan (r : Row) : Operation :=
  mkOp (row_stack r) (row_scope r) (row_name r) (row_txcl r) (row_mock r) None.

Definition row_matches (snap : Snapshot) (tenant stack : string) (r : Row) : bool :=
  like fold_eq (escapeLikeLiterals stack) (row_stack r) && tenantPredicate snap tenant r.

Definition stack_rows (snap : Snapshot) (tenant stack : string) : list Row :=
  List.filter (row_matches snap tenant stack) (ops_rows snap).

(** [SELECT MIN(scope) ... WHERE scope >= floor]. *)
Definition zmin (x : Z) (o : option Z) : option Z :=
  match o with Some y => Some (Z.min x y) | None => Some x end.
Fixpoint min_at_or_above (floor : Z) (l : list Row) : option Z :=
  match l with
  | [] => None
  | r :: l => if floor <=? row_scope r then zmin (row_scope r) (min_at_or_above floor l)
              else min_at_or_above floor l
  end.

Definition at_scope (m : Z) (l : list Row) : list Row := List.filter (fun r => row_scope r =? m) l.

Definition lookupOpsExact (snap : Snapshot) (stack : string) (scope : Z) (tenant : string) : list Operation :=
  let rows := stack_rows snap tenant stack in
  match min_at_or_above scope rows with
  | None => []
  | Some m => List.map scan (at_scope m rows)
  end.

(** The loop over stack prefixes, for any exact lookup; [None] when it has used
    up its turns. *)
Fixpoint peel_loop (look : string -> list Operation) (peel : bool) (n : nat) (prefix : string)
    : option (list Operation) :=
  match n with
  | O => None
  | S n =>
      match look prefix with
      | [] => if peel then
                match peelParent prefix with
                | Some next => peel_loop look peel n next
                | None => Some []
                end
              else Some []
      | rows => Some rows
      end
  end.

(** A turn for each byte of the stack and one more. *)
Definition peel_turns (stack : string) : nat := S (slen stack).

Definition OpsForStage_sql (snap : Snapshot) (tenant : string) (peel : bool) (stack : string) (scope : Z)
    : option (list Operation) :=
  let wildcard := Contains stack "%" in
  peel_loop (fun prefix => lookupOpsExact snap prefix scope tenant) (negb wildcard && peel) (peel_turns stack) stack.

(** ** Ladders *)

Record stackLadder := mkLadder { scopes : list Z; ladder_ops : gmap Z (list Operation) }.

(** [ORDER BY scope, rowid]. *)
Fixpoint insert_row (r : Row) (l : list Row) : list Row :=
  match l with
  | [] => [r]
  | x :: l => if row_scope r <=? row_scope x then r :: x :: l else x :: insert_row r l
  end.
Definition order_by_scope (l : list Row) : list Row := foldr insert_row [] l.

Definition parse_op (op : Operation) : Operation :=
  mkOp (op_Stack op) (op_Scope op) (op_Name op) (op_Txcl op) (op_MockRes op) (parse (op_Txcl op)).

Definition ladder_add (l : stackLadder) (r : Row) : stackLadder :=
  let op := parse_op (scan r) in
  let sc := op_Scope op in
  mkLadder (match ladder_ops l !! sc with Some _ => scopes l | None => scopes l ++ [sc] end)
    (<[sc := default [] (ladder_ops l !! sc) ++ [op]]> (ladder_ops l)).

Definition buildStackLadder (snap : Snapshot) (tenant stack : string) : stackLadder :=
  let l := foldl ladder_add (mkLadder [] ∅) (order_by_scope (stack_rows snap tenant stack)) in
  mkLadder (merge_sort Z.le (scopes l)) (ladder_ops l).

(** [sort.SearchInts]: [sort.Search] halves the interval until it is empty. *)
Definition search_step (l : list Z) (x : Z) (ij : nat * nat) : nat * nat :=
  let '(i, j) := ij in
  let h := ((i + j) / 2)%nat in
  if x <=? default 0 (l !! h) then (i, h) else (S h, j).
Definition SearchInts (l : list Z) (x : Z) : nat :=
  fst (while (length l) (fun ij => (fst ij <? snd ij)%nat) (search_step l x) (O, length l)).

Definition atOrAbove (l : stackLadder) (floor : Z) : list Operation :=
  let i := SearchInts (scopes l) floor in
  match scopes l !! i with
  | None => []
  | Some sc => default [] (ladder_ops l !! sc)
  end.

(** ** The index *)

(** [opsIndex]: the handle of the snapshot it was built from, the generation and
    the ladders so far. *)
Record opsIndex := mkIndex { idx_snap : nat; idx_gen : nat; idx_ladders : gmap string stackLadder }.

Definition ladder_key (tenant stack : string) : string := (tenant ++ String byte0 stack)%string.

Definition ladderFor (snap : Snapshot) (idx : opsIndex) (tenant stack : string) : stackLadder * opsIndex :=
  let key := ladder_key tenant stack in
  match idx_ladders idx !! key with
  | Some l => (l, idx)
  | None =>
      let l := buildStackLadder snap tenant stack in
      (l, mkIndex (idx_snap idx) (idx_gen idx) (<[key := l]> (idx_ladders idx)))
  end.

Fixpoint opsForStage (n : nat) (snap : Snapshot) (idx : opsIndex) (peel : bool) (tenant prefix : string) (scope : Z)
    : option (list Operation) * opsIndex :=
  match n with
  | O => (None, idx)
  | S n =>
      let '(ladder, idx) := ladderFor snap idx tenant prefix in
      match atOrAbove ladder scope with
      | [] => if negb peel then (Some [], idx)
              else match peelParent prefix with
                   | Some next => opsForStage n snap idx peel tenant next scope
                   | None => (Some [], idx)
                   end
      | rows => (Some rows, idx)
      end
  end.

(** The processor's view of the database cache: the current handle, its
    generation, the tables behind each handle and the last index built. *)
Record World := mkWorld {
  w_cur : nat; w_gen : nat; w_tables : nat -> Snapshot; w_idx : option opsIndex }.

Definition currentOpsIndex (w : World) (snap : nat) : option opsIndex * World :=
  if negb (snap =? w_cur w)%nat then (None, w)
  else
    let gen := w_gen w in
    let fresh := mkIndex snap gen ∅ in
    match w_idx w with
    | Some idx =>
        if ((idx_snap idx =? snap) && (idx_gen idx =? gen))%nat then (Some idx, w)
        else (Some fresh, mkWorld (w_cur w) gen (w_tables w) (Some fresh))
    | None => (Some fresh, mkWorld (w_cur w) gen (w_tables w) (Some fresh))
    end.

(** The lookup of a request pinned to handle [snap]; [inr tt] for a stage that
    does not parse. *)
Definition OpsForStage (w : World) (snap : nat) (tenant : string) (peel : bool) (stage : string)
    : (option (list Operation) + unit) * World :=
  match StageParse stage with
  | None => (inr tt, w)
  | Some (stack, scope) =>
      if negb (Contains stack "%") then
        match currentOpsIndex w snap with
        | (Some idx, w) =>
            let '(rows, idx) := opsForStage (peel_turns stack) (w_tables w snap) idx peel tenant stack scope in
            (inl rows, mkWorld (w_cur w) (w_gen w) (w_tables w) (Some idx))
        | (None, w) => (inl (OpsForStage_sql (w_tables w snap) tenant peel stack scope), w)
        end
      else (inl (OpsForStage_sql (w_tables w snap) tenant peel stack scope), w)
  end.
End Ops.
Arguments Operation : clear implicits.
Arguments stackLadder : clear implicits.
Arguments opsIndex : clear implicits.
Arguments World : clear implicits.
