(* ===== verification/OpsIndexFacts.v ===== *)
(** * The ops index against the SQL lookup

    The walk over parent stacks ends, the ladder answers a floor lookup as the
    query does, an index is never stale, and what a lookup may return: rows of
    the request's tenant, of the stack itself or of an ancestor reached without
    crossing a channel segment, all at the lowest populated scope. *)

From Stdlib Require Import Ascii String ZArith Lia Bool.
From stdpp Require Import base tactics list strings gmap sorting.
From S2P Require Import Prelude GoStrings GoStrconv Opname Lexer Budget BudgetFacts OpsIndex.

Open Scope Z_scope.

(** ** The walk *)

Lemma peelParent_shorter stack next : peelParent stack = Some next -> (slen next < slen stack)%nat.
Proof.
  unfold peelParent, stackParent. destruct (stack =s ""); [done|].
  destruct (LastIndex stack "/") as [i|] eqn:E; [|done]. destruct (HasPrefix _ _); [done|]. intros [= <-].
  destruct (LastIndex_some _ _ _ E) as [Es _].
  assert (H : slen stack = (slen (stake i stack) + S (slen (sdrop (S i) stack)))%nat)
    by (rewrite Es at 1; rewrite slen_app; done). lia.
Qed.

Section Walk.
Context {R : Type}.
Implicit Types (look : string -> list (Operation R)).

(** The prefixes the walk may visit. *)
Inductive peels : string -> string -> Prop :=
  | peels_here s : peels s s
  | peels_up s t u : peelParent s = Some t -> peels t u -> peels s u.

Lemma peel_loop_total look peel n prefix :
  (slen prefix < n)%nat -> exists rows, peel_loop look peel n prefix = Some rows.
Proof.
  revert prefix; induction n as [|n IH]; intros prefix Hn; [lia|]. cbn [peel_loop].
  destruct (look prefix); [|eauto]. destruct peel; [|eauto].
  destruct (peelParent prefix) as [next|] eqn:E; [|eauto].
  apply IH. apply peelParent_shorter in E. lia.
Qed.

(** Its answer is the first non-empty one on the way up. *)
Lemma peel_loop_sound look peel n prefix rows :
  peel_loop look peel n prefix = Some rows -> rows <> [] ->
  exists p, peels prefix p /\ look p = rows /\ (peel = false -> p = prefix).
Proof.
  revert prefix; induction n as [|n IH]; intros prefix H Hne; [done|]. cbn [peel_loop] in H.
  destruct (look prefix) as [|o l] eqn:El.
  - destruct peel; [|by simplify_eq]. destruct (peelParent prefix) as [next|] eqn:E; [|by simplify_eq].
    destruct (IH next H Hne) as (p & Hp & Hl & _). exists p. repeat split; [|done|done]. by eapply peels_up.
  - simplify_eq. exists prefix. repeat split; [constructor|done].
Qed.

Lemma peel_loop_map look look' (f : Operation R -> Operation R) peel n prefix :
  (forall p, look' p = List.map f (look p)) ->
  peel_loop look' peel n prefix = (List.map f <$> peel_loop look peel n prefix).
Proof.
  intros Hf. revert prefix; induction n as [|n IH]; intros prefix; [done|]. cbn [peel_loop].
  rewrite Hf. destruct (look prefix); [|done]. destruct peel; [|done].
  destruct (peelParent prefix); [|done]. apply IH.
Qed.
End Walk.

(** ** Binary search *)

Section Search.
Variables (l : list Z) (x : Z).
Hypothesis l_sorted : Sorted Z.le l.

(** Everything left of the interval is below [x], everything right of it is not. *)
Definition search_inv (ij : nat * nat) : Prop :=
  (fst ij <= snd ij <= length l)%nat /\
  (forall k y, (k < fst ij)%nat -> l !! k = Some y -> y < x) /\
  (forall k y, (snd ij <= k)%nat -> l !! k = Some y -> x <= y).

Lemma sorted_lookup i j y z : (i <= j)%nat -> l !! i = Some y -> l !! j = Some z -> y <= z.
Proof.
  assert (HS : StronglySorted Z.le l) by (apply Sorted_StronglySorted; [intros a c d; lia|done]).
  clear l_sorted. revert i j. induction HS as [|a l HS IH Ha]; intros i j Hij Hy Hz; [done|].
  destruct i as [|i], j as [|j]; simplify_eq/=; [lia| |lia|].
  - apply (proj1 (Forall_forall _ _) Ha). by apply list_elem_of_lookup_2 with j.
  - apply (IH i j); [lia|done..].
Qed.

Lemma search_step_inv ij : search_inv ij -> (fst ij <? snd ij)%nat = true -> search_inv (search_step l x ij).
Proof.
  destruct ij as [i j]. unfold search_inv. cbn [fst snd]. intros (Hb & Hlo & Hhi) Hlt%Nat.ltb_lt. unfold search_step.
  set (h := ((i + j) / 2)%nat).
  assert (Hh : (i <= h < j)%nat).
  { unfold h. pose proof (Nat.div_mod (i + j) 2 ltac:(lia)). pose proof (Nat.mod_upper_bound (i + j) 2 ltac:(lia)). lia. }
  destruct (lookup_lt_is_Some_2 l h) as [y Hy]; [lia|]. rewrite Hy. cbn [default]. change (id y) with y.
  destruct (Z.leb_spec x y) as [Hxy|Hxy]; cbn [fst snd].
  - split; [lia|]. split; [done|]. intros k z Hk Hz. pose proof (sorted_lookup h k y z Hk Hy Hz). lia.
  - split; [lia|]. split; [|done]. intros k z Hk Hz. pose proof (sorted_lookup k h z y ltac:(lia) Hz Hy). lia.
Qed.

Lemma SearchInts_spec :
  (forall k y, (k < SearchInts l x)%nat -> l !! k = Some y -> y < x) /\
  (forall y, l !! SearchInts l x = Some y -> x <= y).
Proof.
  assert (H0 : search_inv (0%nat, length l)).
  { unfold search_inv. cbn. split; [lia|]. split; [lia|]. intros k y Hk Hy%lookup_lt_Some. lia. }
  pose proof (while_inv _ _ _ search_step_inv (length l) _ H0) as (Hb & Hlo & Hhi).
  assert (Hx : (fst (while (length l) (fun ij => (fst ij <? snd ij)%nat) (search_step l x) (0%nat, length l)) <?
                snd (while (length l) (fun ij => (fst ij <? snd ij)%nat) (search_step l x) (0%nat, length l)))%nat = false).
  { apply (while_exit (fun ij => (fst ij <? snd ij)%nat) (search_step l x) (fun ij => (snd ij - fst ij)%nat) search_inv);
      [exact search_step_inv| |exact H0|cbn; lia].
    intros [i j] (Hij & _) Hlt%Nat.ltb_lt. cbn [fst snd] in *. unfold search_step.
    pose proof (Nat.div_mod (i + j) 2 ltac:(lia)). pose proof (Nat.mod_upper_bound (i + j) 2 ltac:(lia)).
    destruct (x <=? _); cbn [fst snd]; lia. }
  apply Nat.ltb_ge in Hx. unfold SearchInts. split; [exact Hlo|]. intros y. apply Hhi. lia.
Qed.
End Search.

(** ** The ladder *)

Section Ladder.
Context {R : Type}.
Variable parse : string -> option R.

Lemma min_at_or_above_spec floor l :
  match min_at_or_above floor l with
  | None => forall r, r ∈ l -> row_scope r < floor
  | Some m => floor <= m /\ (exists r, r ∈ l /\ row_scope r = m) /\
              forall r, r ∈ l -> floor <= row_scope r -> m <= row_scope r
  end.
Proof.
  induction l as [|a l IH]; cbn [min_at_or_above]; [by intros r ?%not_elem_of_nil|].
  destruct (Z.leb_spec floor (row_scope a)) as [Ha|Ha]; destruct (min_at_or_above floor l) as [m|]; cbn [zmin].
  - destruct IH as (Hm & (r & Hr & Er) & Hall). split; [lia|]. split.
    + destruct (Z.min_spec (row_scope a) m) as [[_ ->]|[_ ->]]; [exists a|exists r]; rewrite elem_of_cons; auto.
    + intros r' [->|Hr']%elem_of_cons Hf; [lia|]. specialize (Hall r' Hr' Hf). lia.
  - split; [done|]. split; [exists a; rewrite elem_of_cons; auto|].
    intros r' [->|Hr']%elem_of_cons Hf; [lia|]. specialize (IH r' Hr'). lia.
  - destruct IH as (Hm & (r & Hr & Er) & Hall). split; [done|]. split; [exists r; rewrite elem_of_cons; auto|].
    intros r' [->|Hr']%elem_of_cons Hf; [lia|]. auto.
  - intros r [->|Hr]%elem_of_cons; auto.
Qed.

Lemma at_scope_insert m r l : at_scope m (insert_row r l) = at_scope m (r :: l).
Proof.
  induction l as [|x l IH]; [done|]. cbn [insert_row]. destruct (Z.leb_spec (row_scope r) (row_scope x)); [done|].
  unfold at_scope in *. cbn [List.filter] in *. rewrite IH.
  destruct (Z.eqb_spec (row_scope r) m), (Z.eqb_spec (row_scope x) m); try done. lia.
Qed.

Lemma at_scope_order m l : at_scope m (order_by_scope l) = at_scope m l.
Proof.
  induction l as [|r l IH]; [done|]. change (order_by_scope (r :: l)) with (insert_row r (order_by_scope l)).
  rewrite at_scope_insert.
  unfold at_scope in *. cbn [List.filter]. by rewrite IH.
Qed.

Definition as_op (r : Row) : Operation R := parse_op parse (scan r).

(** The ladder over the rows [done_]. *)
Definition ladder_inv (done_ : list Row) (l : stackLadder R) : Prop :=
  (forall sc, ladder_ops l !! sc =
     match at_scope sc done_ with [] => None | rows => Some (List.map as_op rows) end) /\
  (forall sc, sc ∈ scopes l <-> at_scope sc done_ <> []).

Lemma at_scope_snoc m l r :
  at_scope m (l ++ [r]) = at_scope m l ++ (if row_scope r =? m then [r] else []).
Proof. unfold at_scope. by rewrite List.filter_app. Qed.

Lemma ladder_add_inv d l r : ladder_inv d l -> ladder_inv (d ++ [r]) (ladder_add parse l r).
Proof.
  intros [Ho Hs]. split; intros sc; cbn [ladder_add scopes ladder_ops scan parse_op op_Scope]; rewrite at_scope_snoc.
  - destruct (Z.eqb_spec (row_scope r) sc) as [<-|Hne].
    + rewrite lookup_insert_eq, Ho. fold (as_op r).
      destruct (at_scope (row_scope r) d) as [|x xs]; [done|]. cbn [default app List.map]. by rewrite List.map_app.
    + rewrite lookup_insert_ne, Ho by done. by rewrite app_nil_r.
  - rewrite Ho. destruct (at_scope (row_scope r) d) as [|x xs] eqn:E.
    + rewrite elem_of_app, Hs, list_elem_of_singleton.
      destruct (Z.eqb_spec (row_scope r) sc) as [<-|Hne]; [rewrite E; cbn; naive_solver|].
      rewrite app_nil_r. naive_solver.
    + rewrite Hs. destruct (Z.eqb_spec (row_scope r) sc) as [<-|Hne]; [rewrite E; cbn; naive_solver|].
      by rewrite app_nil_r.
Qed.

Lemma ladder_fold_inv rows d l :
  ladder_inv d l -> ladder_inv (d ++ rows) (foldl (ladder_add parse) l rows).
Proof.
  revert d l; induction rows as [|r rows IH]; intros d l H; cbn [foldl]; [by rewrite app_nil_r|].
  replace (d ++ r :: rows) with ((d ++ [r]) ++ rows) by (by rewrite <- app_assoc).
  apply IH. by apply ladder_add_inv.
Qed.

Lemma build_spec snap tenant stack sc :
  let rows := stack_rows snap tenant stack in
  let l := buildStackLadder parse snap tenant stack in
  ladder_ops l !! sc = match at_scope sc rows with [] => None | rs => Some (List.map as_op rs) end /\
  (sc ∈ scopes l <-> at_scope sc rows <> []) /\ Sorted Z.le (scopes l).
Proof.
  intros rows l.
  assert (H0 : ladder_inv [] (mkLadder [] ∅ : stackLadder R)).
  { split; intros k; cbn; [by rewrite lookup_empty|]. split; [by intros ?%not_elem_of_nil|done]. }
  destruct (ladder_fold_inv (order_by_scope rows) [] _ H0) as [Ho Hs]. cbn [app] in Ho, Hs.
  subst l. unfold buildStackLadder. cbn [scopes ladder_ops]. fold rows. rewrite Ho, at_scope_order.
  split; [done|]. split; [rewrite merge_sort_Permutation, Hs; by rewrite at_scope_order|].
  apply Sorted_merge_sort. intros a c. lia.
Qed.

(** The ladder answers as the query does. *)
Lemma atOrAbove_lookup snap tenant stack floor :
  atOrAbove (buildStackLadder parse snap tenant stack) floor =
  List.map (parse_op parse) (lookupOpsExact snap stack floor tenant).
Proof.
  set (rows := stack_rows snap tenant stack). set (l := buildStackLadder parse snap tenant stack).
  pose proof (fun sc => build_spec snap tenant stack sc) as Hb. cbn zeta in Hb. fold rows in Hb. fold l in Hb.
  pose proof (proj2 (proj2 (Hb 0))) as Hsort.
  destruct (SearchInts_spec (scopes l) floor Hsort) as [Hlo Hhi].
  assert (Hin : forall r, r ∈ rows -> row_scope r ∈ scopes l).
  { intros r Hr. apply (proj1 (proj2 (Hb (row_scope r)))). intros E.
    assert (Hf : r ∈ at_scope (row_scope r) rows); [|by rewrite E in Hf; apply not_elem_of_nil in Hf].
    unfold at_scope. apply list_elem_of_In, List.filter_In. split; [by apply list_elem_of_In|apply Z.eqb_refl]. }
  unfold atOrAbove, lookupOpsExact. fold rows. pose proof (min_at_or_above_spec floor rows) as Hmin.
  destruct (scopes l !! SearchInts (scopes l) floor) as [sc|] eqn:Esc.
  - specialize (Hhi sc eq_refl).
    assert (Hsc : at_scope sc rows <> []) by (apply Hb; by eapply list_elem_of_lookup_2).
    destruct (at_scope sc rows) as [|r rs] eqn:Er; [done|].
    assert (Hr : r ∈ rows /\ row_scope r = sc).
    { assert (Hi : List.In r (at_scope sc rows)) by (rewrite Er; by left).
      apply List.filter_In in Hi as [Hi He]. split; [by apply list_elem_of_In|by apply Z.eqb_eq]. }
    destruct Hr as [Hr Hrs].
    destruct (min_at_or_above floor rows) as [m|]; [|specialize (Hmin r Hr); lia].
    destruct Hmin as (Hm & (r' & Hr' & Er') & Hall).
    assert (m = sc) as ->.
    { specialize (Hall r Hr ltac:(lia)). enough (sc <= m) by lia.
      destruct (list_elem_of_lookup_1 _ _ (Hin r' Hr')) as [k Hk]. rewrite Er' in Hk.
      destruct (Nat.lt_ge_cases k (SearchInts (scopes l) floor)) as [Hlt|Hge].
      - specialize (Hlo k m Hlt Hk). lia.
      - by apply (sorted_lookup (scopes l) Hsort (SearchInts (scopes l) floor) k). }
    rewrite (proj1 (Hb sc)), Er. cbn [default]. by rewrite List.map_map.
  - destruct (min_at_or_above floor rows) as [m|]; [|done].
    destruct Hmin as (Hm & (r' & Hr' & Er') & _).
    destruct (list_elem_of_lookup_1 _ _ (Hin r' Hr')) as [k Hk]. rewrite Er' in Hk.
    apply lookup_ge_None in Esc. pose proof (lookup_lt_Some _ _ _ Hk).
    specialize (Hlo k m ltac:(lia) Hk). lia.
Qed.
End Ladder.

(** ** The index never answers for another snapshot *)

Section Index.
Context {R : Type}.
Variable parse : string -> option R.

(** A tenant slug holds no NUL, so that keys are read back uniquely. *)
Definition no_nul (t : string) : Prop := sall (fun c => negb (c =c byte0)) t = true.

Lemma ladder_key_inj t s t' s' :
  no_nul t -> no_nul t' -> ladder_key t s = ladder_key t' s' -> t = t' /\ s = s'.
Proof.
  unfold no_nul, ladder_key. revert t'; induction t as [|c t IH]; intros [|c' t'] H H' E; cbn in *; simplify_eq; try done.
  bool_to_prop. destruct (IH t') as [-> ->]; auto.
Qed.

Definition ladders_ok (snap : Snapshot) (m : gmap string (stackLadder R)) : Prop :=
  forall t s l, no_nul t -> m !! ladder_key t s = Some l -> l = buildStackLadder parse snap t s.

Lemma ladderFor_spec snap idx t s :
  no_nul t -> ladders_ok snap (idx_ladders idx) ->
  let '(l, idx') := ladderFor parse snap idx t s in
  l = buildStackLadder parse snap t s /\ ladders_ok snap (idx_ladders idx') /\
  idx_snap idx' = idx_snap idx /\ idx_gen idx' = idx_gen idx.
Proof.
  intros Ht Hok. unfold ladderFor. destruct (idx_ladders idx !! ladder_key t s) as [l|] eqn:E; [by eauto|].
  split; [done|]. split; [|done]. cbn [idx_ladders]. intros t' s' l' Ht' Hl.
  destruct (decide (ladder_key t s = ladder_key t' s')) as [Ek|Ek].
  - apply ladder_key_inj in Ek as [<- <-]; [|done..]. rewrite lookup_insert_eq in Hl. by simplify_eq.
  - rewrite lookup_insert_ne in Hl by done. eauto.
Qed.

Lemma opsForStage_spec n snap peel t scope : no_nul t -> forall idx prefix,
  ladders_ok snap (idx_ladders idx) ->
  let '(rows, idx') := opsForStage parse n snap idx peel t prefix scope in
  rows = (List.map (parse_op parse) <$> peel_loop (fun p => lookupOpsExact snap p scope t) peel n prefix) /\
  ladders_ok snap (idx_ladders idx') /\ idx_snap idx' = idx_snap idx /\ idx_gen idx' = idx_gen idx.
Proof.
  intros Ht. induction n as [|n IH]; intros idx prefix Hok; [done|]. cbn [opsForStage peel_loop].
  pose proof (ladderFor_spec snap idx t prefix Ht Hok) as Hl.
  destruct (ladderFor parse snap idx t prefix) as [l idx1]. destruct Hl as (-> & Hok1 & Hs1 & Hg1).
  rewrite atOrAbove_lookup. destruct (lookupOpsExact snap prefix scope t) as [|o os]; cbn [List.map]; [|done].
  destruct peel; cbn [negb]; [|done]. destruct (peelParent prefix) as [next|]; [|done].
  specialize (IH idx1 next Hok1). destruct (opsForStage parse n snap idx1 true t next scope) as [rows idx2].
  destruct IH as (-> & ? & ? & ?). split; [done|]. split; [done|]. by split; congruence.
Qed.

(** Histories: a reload installs a new handle, the in-place reload of the
    development mode changes the current tables and bumps the generation, and
    requests look stages up at the handle they are pinned to. *)
Inductive event :=
  | EvReload (s : Snapshot)
  | EvInPlace (s : Snapshot)
  | EvLookup (snap : nat) (tenant : string) (peel : bool) (stage : string).

Definition set_tables (f : nat -> Snapshot) (h : nat) (s : Snapshot) : nat -> Snapshot :=
  fun k => if (k =? h)%nat then s else f k.

Definition world_step (w : World R) (e : event) : World R :=
  match e with
  | EvReload s => mkWorld (S (w_cur w)) (w_gen w) (set_tables (w_tables w) (S (w_cur w)) s) (w_idx w)
  | EvInPlace s => mkWorld (w_cur w) (S (w_gen w)) (set_tables (w_tables w) (w_cur w) s) (w_idx w)
  | EvLookup snap t peel stage => snd (OpsForStage parse w snap t peel stage)
  end.

Definition world_ok (w : World R) : Prop :=
  match w_idx w with
  | None => True
  | Some idx => (idx_snap idx <= w_cur w)%nat /\ (idx_gen idx <= w_gen w)%nat /\
      (idx_snap idx = w_cur w -> idx_gen idx = w_gen w -> ladders_ok (w_tables w (w_cur w)) (idx_ladders idx))
  end.

Definition event_ok (e : event) : Prop :=
  match e with EvLookup _ t _ _ => no_nul t | _ => True end.

Lemma currentOpsIndex_spec w snap :
  world_ok w ->
  let '(o, w') := currentOpsIndex w snap in
  world_ok w' /\ w_tables w' = w_tables w /\ w_cur w' = w_cur w /\ w_gen w' = w_gen w /\
  match o with
  | Some idx => snap = w_cur w /\ w_idx w' = Some idx /\ idx_snap idx = w_cur w /\ idx_gen idx = w_gen w /\
                ladders_ok (w_tables w snap) (idx_ladders idx)
  | None => snap <> w_cur w
  end.
Proof.
  intros Hw. unfold currentOpsIndex. destruct (Nat.eqb_spec snap (w_cur w)) as [->|]; cbn [negb]; [|by auto].
  assert (Hfresh : ladders_ok (w_tables w (w_cur w)) (∅ : gmap string (stackLadder R))).
  { intros t s l _. by rewrite lookup_empty. }
  unfold world_ok in Hw. destruct (w_idx w) as [idx|] eqn:Ei.
  - destruct (Nat.eqb_spec (idx_snap idx) (w_cur w)) as [E1|]; cbn [andb].
    + destruct (Nat.eqb_spec (idx_gen idx) (w_gen w)) as [E2|].
      * destruct Hw as (? & ? & Hok). unfold world_ok. rewrite Ei. repeat split; auto.
      * unfold world_ok; cbn. by repeat split; auto.
    + unfold world_ok; cbn. by repeat split; auto.
  - unfold world_ok; cbn. by repeat split; auto.
Qed.

(** A lookup answers as SQL over the tables of its own handle, with the rules
    parsed when the index answered. *)
Lemma OpsForStage_spec w snap t peel stage :
  world_ok w -> no_nul t ->
  let '(res, w') := OpsForStage parse w snap t peel stage in
  world_ok w' /\
  res = match StageParse stage with
        | None => inr tt
        | Some (stack, scope) =>
            inl ((if (snap =? w_cur w)%nat && negb (Contains stack "%") then fmap (List.map (parse_op parse)) else id)
                   (OpsForStage_sql (w_tables w snap) t peel stack scope))
        end.
Proof.
  intros Hw Ht. unfold OpsForStage. destruct (StageParse stage) as [[stack scope]|]; [|done].
  destruct (Contains stack "%") eqn:Ec; cbn [negb]; [by rewrite andb_false_r|]. rewrite andb_true_r.
  pose proof (currentOpsIndex_spec w snap Hw) as Hc.
  destruct (currentOpsIndex w snap) as [o w1]. destruct Hc as (Hw1 & Et & Ecur & Eg & Ho).
  destruct o as [idx|].
  2: { rewrite Et. apply Nat.eqb_neq in Ho as ->. done. }
  destruct Ho as (Es & Hidx & Hs & Hg & Hok). rewrite Et, (proj2 (Nat.eqb_eq _ _) Es).
  pose proof (opsForStage_spec (peel_turns stack) (w_tables w snap) peel t scope Ht idx stack Hok) as Hf.
  destruct (opsForStage parse _ _ idx peel t stack scope) as [rows idx'].
  destruct Hf as (-> & Hok' & Hs' & Hg'). unfold OpsForStage_sql. rewrite Ec. cbn [negb andb]. split; [|done].
  unfold world_ok; cbn. rewrite Ecur, Eg. repeat split; [lia|lia|]. intros _ _. by subst snap.
Qed.
End Index.

(** ** What a lookup may return *)

Definition esc_ (c : ascii) : string :=
  if (c =c b 92) || (c =c "_") then String (b 92) (String c EmptyString) else String c EmptyString.

Lemma escapeLikeLiterals_flat s : escapeLikeLiterals s = sflat esc_ s.
Proof.
  unfold escapeLikeLiterals, LikeEscapeChar. rewrite !ReplaceAll_byte, !sflat_sflat.
  apply sflat_ext. intros c. unfold esc_. destruct (Ascii.eqb_spec c (b 92)) as [->|H1]; [done|]. simpl.
  rewrite sapp_nil_r. by destruct (Ascii.eqb_spec c "_") as [->|].
Qed.

(** Without a percent sign the pattern is the name, up to ASCII case. *)
Lemma like_stack stack t :
  sall (fun c => negb (c =c "%")) stack = true ->
  like fold_eq (escapeLikeLiterals stack) t = EqualFold stack t.
Proof.
  rewrite escapeLikeLiterals_flat. revert t. induction stack as [|c s IH]; intros t H; [by destruct t|].
  cbn [sall] in H. bool_to_prop. cbn [sflat EqualFold]. unfold esc_.
  destruct ((c =c b 92) || (c =c "_")) eqn:Hc.
  - cbn [String.append like]. change (b 92 =c "%") with false. change (b 92 =c "_") with false.
    change (b 92 =c b 92) with true. cbv iota. destruct t as [|e t]; [done|]. by rewrite IH.
  - bool_to_prop. cbn [String.append like]. rewrite !(proj2 (Ascii.eqb_neq c _)) by done.
    destruct t as [|e t]; [done|]. by rewrite IH.
Qed.

Lemma Contains_byte s c : Contains s (String c EmptyString) = sany (fun d => d =c c) s.
Proof.
  induction s as [|d s IH]; [done|]. cbn [Contains sany]. rewrite IH. f_equal. cbn.
  destruct (ascii_dec c d) as [->|Hne]; [by rewrite Ascii.eqb_refl; destruct s|].
  destruct (Ascii.eqb_spec d c); [congruence|done].
Qed.

(** [stack] inherits from [p]: [p] itself, or a prefix of it with no channel
    segment in between. *)
Definition overlays (stack p : string) : Prop :=
  stack = p \/
  exists rest, stack = (p ++ String "/" rest)%string /\
    Forall (fun seg => HasPrefix seg "_" = false) (Split rest "/").

Lemma peelParent_spec s t :
  peelParent s = Some t ->
  exists seg, s = (t ++ String "/" seg)%string /\ HasPrefix seg "_" = false /\ Split seg "/" = [seg].
Proof.
  unfold peelParent, stackParent. destruct (s =s ""); [done|].
  destruct (LastIndex s "/") as [i|] eqn:E; [|done].
  destruct (LastIndex_some _ _ _ E) as [Es Hns]. destruct (HasPrefix _ _) eqn:Hp; [done|]. intros [= <-].
  exists (sdrop (S i) s). split; [done|]. split; [|by apply Split_no_sep].
  assert (Hl : slen s = (slen (stake i s) + S (slen (sdrop (S i) s)))%nat)
    by (rewrite Es at 1; by rewrite slen_app).
  replace (slen (stake i s) + 1)%nat with (S i) in Hp; [done|].
  rewrite slen_sdrop in Hl. rewrite slen_stake in *. lia.
Qed.

Lemma peels_overlays s p : peels s p -> overlays s p.
Proof.
  induction 1 as [s|s t u Ht _ IH]; [by left|]. right.
  destruct (peelParent_spec s t Ht) as (seg & -> & Hseg & Hsp). destruct IH as [->|(rest & -> & Hf)].
  - exists seg. split; [done|]. rewrite Hsp. by repeat constructor.
  - exists (rest ++ String "/" seg)%string. split; [by rewrite <- sapp_assoc|].
    rewrite Split_app_sep, Hsp. apply Forall_app. split; [done|]. by repeat constructor.
Qed.

Lemma overlays_no_percent s p :
  overlays s p -> sall (fun c => negb (c =c "%")) s = true -> sall (fun c => negb (c =c "%")) p = true.
Proof. intros [->|(rest & -> & _)]; [done|]. rewrite sall_app. by intros [? _]%andb_true_iff. Qed.

Lemma lookupOpsExact_sound {R} snap stack scope tenant (op : Operation R) :
  op ∈ lookupOpsExact snap stack scope tenant ->
  exists r, r ∈ ops_rows snap /\ op = scan r /\ row_matches snap tenant stack r = true /\
    scope <= row_scope r /\
    forall r', r' ∈ ops_rows snap -> row_matches snap tenant stack r' = true -> scope <= row_scope r' ->
      row_scope r <= row_scope r'.
Proof.
  unfold lookupOpsExact. pose proof (min_at_or_above_spec scope (stack_rows snap tenant stack)) as Hm.
  destruct (min_at_or_above _ _) as [m|]; [|by intros ?%not_elem_of_nil].
  intros (r & -> & Hr)%list_elem_of_fmap. destruct Hm as (Hm & _ & Hall).
  apply list_elem_of_In, List.filter_In in Hr as [Hr He%Z.eqb_eq].
  apply List.filter_In in Hr as [Hr Hmt]. exists r. rewrite list_elem_of_In. repeat split; [done..|lia|].
  intros r' Hr' Hm' Hs'. rewrite He. apply Hall; [|done].
  apply list_elem_of_In, List.filter_In. split; [by apply list_elem_of_In|done].
Qed.

(** ** Theorems *)

Section Theorems.
Context {R : Type}.
Variable parse : string -> option R.

Definition world_init (s : Snapshot) : World R := mkWorld 0 0 (fun _ => s) None.

Lemma world_steps_ok w evs : Forall event_ok evs -> world_ok parse w -> world_ok parse (foldl (world_step parse) w evs).
Proof.
  intros H. revert w. induction H as [|e evs He Hevs IH]; intros w Hw; [done|]. cbn [foldl]. apply IH.
  destruct e as [s|s|snap t peel stage]; cbn [world_step].
  - unfold world_ok in *. cbn. destruct (w_idx w) as [idx|]; [|done]. destruct Hw as (? & ? & _).
    repeat split; [lia|done|]. lia.
  - unfold world_ok in *. cbn. destruct (w_idx w) as [idx|]; [|done]. destruct Hw as (? & ? & _).
    repeat split; [done|lia|]. lia.
  - pose proof (OpsForStage_spec parse w snap t peel stage Hw He) as Hs.
    by destruct (OpsForStage parse w snap t peel stage) as [res w']; destruct Hs.
Qed.

(** The rules of the ops parsed, as the request path does before it reads them. *)
Definition parsed : option (list (Operation R)) -> option (list (Operation R)) :=
  fmap (List.map (parse_op parse)).

(** C1: the ops index is unobservable.  After any history of reloads, in-place
    reloads and lookups, a request pinned to a snapshot, current or superseded,
    gets for every stage the ops the SQL lookup finds in the tables of that
    snapshot, in the same order, once their rules are parsed. *)
Theorem index_refines_sql s evs snap tenant peel stage :
  Forall event_ok evs -> no_nul tenant ->
  let w := foldl (world_step parse) (world_init s) evs in
  match fst (OpsForStage parse w snap tenant peel stage), StageParse stage with
  | inl rows, Some (stack, scope) => parsed rows = parsed (OpsForStage_sql (w_tables w snap) tenant peel stack scope)
  | inr tt, None => True
  | _, _ => False
  end.
Proof.
  intros Hevs Ht w. assert (Hw : world_ok parse w) by (by apply world_steps_ok).
  pose proof (OpsForStage_spec parse w snap tenant peel stage Hw Ht) as Hs.
  destruct (OpsForStage parse w snap tenant peel stage) as [res w']. destruct Hs as [_ ->]. cbn [fst].
  destruct (StageParse stage) as [[stack scope]|]; [|done].
  destruct (_ && _); [|done]. unfold parsed. destruct (OpsForStage_sql _ _ _ _ _); cbn; [|done].
  f_equal. rewrite List.map_map. by apply List.map_ext.
Qed.

(** a stage lookup returns, and stays in its box.  Every op it finds is a
    row of the request's own tenant, in the stack itself or in a prefix of it
    with no channel segment (one starting with an underscore) in between, by
    name up to ASCII case; it sits at the lowest scope at or above the floor
    that the tenant has there.  When the stack itself has such a scope, its ops
    are the answer. *)
Theorem stage_lookup_sound snap tenant peel stack scope :
  sall (fun c => negb (c =c "%")) stack = true ->
  exists ops : list (Operation R), OpsForStage_sql snap tenant peel stack scope = Some ops /\
  (lookupOpsExact snap stack scope tenant <> ([] : list (Operation R)) ->
   ops = lookupOpsExact snap stack scope tenant) /\
  forall op, op ∈ ops -> exists r p,
    r ∈ ops_rows snap /\ op = scan r /\ tenantPredicate snap tenant r = true /\
    overlays stack p /\ (peel = false -> p = stack) /\ EqualFold p (row_stack r) = true /\
    scope <= row_scope r /\
    forall r', r' ∈ ops_rows snap -> tenantPredicate snap tenant r' = true ->
      EqualFold p (row_stack r') = true -> scope <= row_scope r' -> row_scope r <= row_scope r'.
Proof.
  intros Hn. unfold OpsForStage_sql.
  assert (Hw : Contains stack "%" = false) by (rewrite Contains_byte; by apply sany_false_iff).
  rewrite Hw. cbn [negb andb]. set (look := fun prefix => lookupOpsExact snap prefix scope tenant).
  destruct (peel_loop_total look peel (peel_turns stack) stack) as [ops Hops]; [unfold peel_turns; lia|].
  exists ops. split; [done|]. split.
  { intros Hne. unfold peel_turns in Hops. cbn [peel_loop] in Hops. fold (look stack) in Hne |- *.
    destruct (look stack); [done|]. by simplify_eq. }
  intros op Hop.
  assert (Hne : ops <> []) by (intros ->; by apply not_elem_of_nil in Hop).
  destruct (peel_loop_sound _ _ _ _ _ Hops Hne) as (p & Hp & <- & Hpeel).
  destruct (lookupOpsExact_sound _ _ _ _ _ Hop) as (r & Hr & -> & Hm & Hs & Hmin).
  apply peels_overlays in Hp. pose proof (overlays_no_percent _ _ Hp Hn) as Hpn.
  unfold row_matches in Hm, Hmin. rewrite like_stack in Hm by done. apply andb_true_iff in Hm as [Hm Ht].
  exists r, p. do 7 (split; [done|]). intros r' Hr' Ht' Hf' Hs'. apply Hmin; [done| |done].
  by rewrite like_stack, Hf', Ht'.
Qed.
End Theorems.

(** Two tenants, a channel, and a sparse overlay. *)
Definition demo_snapshot : Snapshot := mkSnapshot
  [mkRow (Some "t1") "www" 100 "hello" "EXEC" ""; mkRow (Some "t1") "www" 0 "auth" "EXEC" "";
   mkRow (Some "t2") "www" 50 "other" "EXEC" ""; mkRow (Some "t1") "www/canary" 200 "beta" "EXEC" "";
   mkRow (Some "t1") "email" 0 "spam" "EXEC" ""]
  [("acme", "t1"); ("zeta", "t2")].

Example lookup_ex :
  let names st sc := fmap (List.map op_Name) (OpsForStage_sql (R := unit) demo_snapshot "acme" true st sc) in
  names "www" 1 = Some ["hello"] /\ names "www/canary" 0 = Some ["beta"] /\
  names "www/_mail" 0 = Some [] /\ names "_mail" 0 = Some [] /\ names "www/canary" 201 = Some [] /\
  names "WWW/other" 50 = Some ["hello"].
Proof. vm_compute. repeat split; reflexivity. Qed.

Lemma index_refines_sql_witness :
  let evs := [EvLookup 0 "acme" true "www/1"; EvReload demo_snapshot; EvInPlace demo_snapshot;
              EvLookup 1 "zeta" true "www/0"] in
  let w := foldl (world_step (fun _ => Some tt)) (world_init demo_snapshot) evs in
  match fst (OpsForStage (fun _ => Some tt) w 1 "acme" true "www/canary/0"), StageParse "www/canary/0" with
  | inl rows, Some (stack, scope) =>
      parsed (fun _ => Some tt) rows = parsed (fun _ => Some tt) (OpsForStage_sql (w_tables w 1) "acme" true stack scope)
  | inr tt, None => True
  | _, _ => False
  end.
Proof.
  apply (index_refines_sql (fun _ => Some tt) demo_snapshot).
  - repeat constructor.
  - reflexivity.
Defined.

Lemma stage_lookup_sound_witness :
  exists ops : list (Operation unit), OpsForStage_sql demo_snapshot "acme" true "www/canary" 0 = Some ops.
Proof.
  destruct (stage_lookup_sound (R := unit) demo_snapshot "acme" true "www/canary" 0 eq_refl) as (ops & H & _).
  exists ops. exact H.
Defined.
