(* ===== verification/FastForward.v ===== *)
(** * Scope fast-forward (chassis/processor/fastforward.go)

    When no rule of a stage matches, the run walks to the next populated scope
    and tries again.  [run_frame] is that walk as [Run] and [advanceAfterScope]
    make it, one recursive frame for each scope; [fastForward] is the loop that
    replaces the chain of dead frames.  Both charge the request budget at every
    scope they enter.

    The envelope is the budget fields of [Budget]: while no op fires nothing
    else of it changes.  It carries no control field ([_txc.halt], [_txc.goto],
    [_txc.delete], a breakpoint or a pending response body), which is what
    [Run]'s gate and the strip after each fired scope leave.  A penalty pause is
    recorded; the request's cancellation while it sleeps is not modelled. *)

From Stdlib Require Import Ascii String ZArith Lia Bool.
From stdpp Require Import base tactics list strings gmap sets sorting.
From S2P Require Import Prelude GoStrings GoStrconv Opname Lexer Budget BudgetFacts OpsIndex OpsIndexFacts.

Open Scope Z_scope.

(** What the walk relies on of a stage lookup: the ops it returns share one
    scope, the lowest populated one at or above the floor, so that a lookup
    from any floor up to there gives the same ops; there are finitely many
    scopes. *)
Class StageLookup {R : Type} (look : string -> Z -> list (Operation R)) := {
  populated : string -> list Z;
  look_scope st f op : op ∈ look st f -> f <= op_Scope op /\ op_Scope op ∈ populated st;
  look_one st f op op' : op ∈ look st f -> op' ∈ look st f -> op_Scope op = op_Scope op';
  look_between st f f' op : op ∈ look st f -> f <= f' <= op_Scope op -> look st f' = look st f;
  look_none st f f' : look st f = [] -> f <= f' -> look st f' = [] }.

Section Walk.
Context {R Err : Type} (look : string -> Z -> list (Operation R)) `{!StageLookup look}.

(** [ResonatingOps] on the ops of a scope. *)
Variable resonate : EnvBudget -> list (Operation R) -> list (Operation R) + Err.

Lemma look_again st f op : op ∈ look st f -> look st (op_Scope op) = look st f.
Proof. intros H. apply (look_between st f _ op); [done|]. by destruct (look_scope st f op H). Qed.

Inductive WalkErr := BadStage (stage : string) | BadRule (e : Err).

(** How a walk ends: at a scope where rules match, with the budget exhausted at
    a stage, with an error, or past the last scope.  [waits] are the penalties
    slept on the way. *)
Record walk_state := mkWalk {
  ws_raw : EnvBudget; ws_budget : budgetState; ws_frame : option frame; ws_waits : list Z }.
Inductive outcome :=
  | Landed (ops : list (Operation R)) (stage : string) (w : walk_state)
  | Exhausted (e : BudgetErr) (stage : string) (w : walk_state)
  | Failed (e : WalkErr)
  | Ended (stage : string) (w : walk_state)
  | OutOfTurns.

(** [OpsForStage] for the request's snapshot, tenant and frame. *)
Definition ops_for_stage (stage : string) : list (Operation R) + WalkErr :=
  match StageParse stage with
  | Some (st, sc) => inl (look st sc)
  | None => inr (BadStage stage)
  end.

(** Entering a stage: the hop, the scope's fuel, the transition. *)
Definition enter (parent stage : string) (w : walk_state) : outcome + walk_state :=
  let raw := ws_raw w in
  match decrementTTL (ws_budget w) (ws_frame w) stage with
  | (Some e, s, fr) => inl (Exhausted e stage (mkWalk raw s fr (ws_waits w)))
  | (None, s, fr) =>
      match addFuel s fuelCostScopeEnter stage with
      | (Some e, s) => inl (Exhausted e stage (mkWalk raw s fr (ws_waits w)))
      | (None, s) =>
          match chargeTransition s fr parent stage with
          | ((_, Some e), s, fr) => inl (Exhausted e stage (mkWalk raw s fr (ws_waits w)))
          | ((penalty, None), s, fr) =>
              inr (mkWalk raw s fr (if 0 <? penalty then ws_waits w ++ [penalty] else ws_waits w))
          end
      end
  end.

Definition sync (w : walk_state) : walk_state :=
  mkWalk (syncBudgetToEnvelope (Some (ws_budget w)) (ws_raw w)) (ws_budget w) (ws_frame w) (ws_waits w).

(** ** The loop *)

Definition nextFloor (op0 : Operation R) (cur : list (Operation R)) : Z :=
  foldl (fun m op => if m <? wrap64 (op_Scope op + 1) then wrap64 (op_Scope op + 1) else m)
    (wrap64 (op_Scope op0 + 1)) cur.

Fixpoint ff_loop (n : nat) (curStack prev : string) (cur : list (Operation R)) (w : walk_state) : outcome :=
  match cur with
  | [] => Ended prev w
  | op0 :: _ =>
      match n with
      | O => OutOfTurns
      | S n =>
          let hopStage := stage_of curStack (op_Scope op0) in
          match enter prev hopStage (sync w) with
          | inl o => o
          | inr w =>
              match resonate (ws_raw w) cur with
              | inr e => Failed (BadRule e)
              | inl [] =>
                  match ops_for_stage (stage_of curStack (nextFloor op0 cur)) with
                  | inr e => Failed e
                  | inl cur => ff_loop n curStack hopStage cur w
                  end
              | inl resonated => Landed resonated hopStage w
              end
          end
      end
  end.

Definition fastForward (n : nat) (stage : string) (w : walk_state) : outcome :=
  match StageParse stage with
  | None => Ended stage w
  | Some (curStack, curScope) =>
      match ops_for_stage (stage_of curStack (wrap64 (curScope + 1))) with
      | inr e => Failed e
      | inl cur => ff_loop n curStack stage cur w
      end
  end.

(** ** The recursion *)

(** The end of a frame in which nothing fired: advance to the next populated
    scope of the same stack, or stop. *)
Definition next_ops (stage : string) : list (Operation R) :=
  match ops_for_stage (nextStageFor stage "") with inl l => l | inr _ => [] end.

Definition next_stage (stage : string) (o : Operation R) : string :=
  match StageParse stage with
  | Some (st, _) => stage_of st (op_Scope o)
  | None => nextStageFor stage ""
  end.

Fixpoint run_frame (n : nat) (parent stage : string) (w : walk_state) : outcome :=
  match n with
  | O => OutOfTurns
  | S n =>
      match enter parent stage w with
      | inl o => o
      | inr w =>
          match ops_for_stage stage with
          | inr e => Failed e
          | inl ops =>
              match resonate (ws_raw w) ops with
              | inr e => Failed (BadRule e)
              | inl [] =>
                  match next_ops stage with
                  | [] => Ended stage w
                  | o :: _ => run_frame n stage (next_stage stage o) (sync w)
                  end
              | inl resonated => Landed resonated stage w
              end
          end
      end
  end.

Definition advance_dead (n : nat) (stage : string) (w : walk_state) : outcome :=
  match next_ops stage with
  | [] => Ended stage w
  | o :: _ => run_frame n stage (next_stage stage o) (sync w)
  end.

(** ** Stages *)

Definition scope_ok (sc : Z) : Prop := 0 <= sc < MaxInt64.
Definition no_lf (st : string) : Prop := sall (fun c => negb (c =c LF)) st = true.

Lemma StageParse_stage_of st sc : no_lf st -> 0 <= sc <= MaxInt64 -> StageParse (stage_of st sc) = Some (st, sc).
Proof.
  intros Hst Hsc.
  destruct (Itoa_nonneg sc) as (Hne & Hd & Hv); [unfold MaxInt64, two63 in Hsc; lia|].
  unfold StageParse, stage_of. change ("/" ++ Itoa sc)%string with (String "/" (Itoa sc)).
  rewrite stageParts_join by done. unfold Atoi_digits. rewrite Hv. by destruct (Z.leb_spec sc MaxInt64); [|lia].
Qed.

Lemma LastIndex_drop_none s c i : LastIndex s c = Some i -> sall (fun d => negb (d =c c)) (sdrop (S i) s) = true.
Proof. intros H. by destruct (LastIndex_some _ _ _ H). Qed.

Lemma last_line_no_lf s : no_lf (last_line s).
Proof.
  unfold last_line, no_lf. destruct (LastIndex s LF) as [i|] eqn:E; [by apply LastIndex_drop_none|].
  by apply LastIndex_none.
Qed.

Lemma dec_value_nonneg s a : sall is_dec s = true -> 0 <= a -> 0 <= dec_value s a.
Proof.
  revert a; induction s as [|c s IH]; intros a H Ha; [done|]. cbn [sall] in H. bool_to_prop. cbn [dec_value].
  apply IH; [done|]. pose proof (digit_val_bounds c ltac:(done)). lia.
Qed.

Lemma StageParse_ok stage st sc : StageParse stage = Some (st, sc) -> no_lf st /\ 0 <= sc <= MaxInt64.
Proof.
  unfold StageParse. destruct (stageParts stage) as [[st' d]|] eqn:E; [|done].
  destruct (stageParts_spec _ _ _ E) as (El & _ & Hd). unfold Atoi_digits.
  destruct (Z.leb_spec (dec_value d 0) MaxInt64); [|done]. intros [= <- <-].
  split; [|split; [by apply dec_value_nonneg|done]].
  pose proof (last_line_no_lf stage) as Hl. rewrite El in Hl. unfold no_lf in *. rewrite sall_app in Hl.
  by apply andb_true_iff in Hl as [? _].
Qed.

Lemma wrap_next sc : scope_ok sc -> wrap64 (sc + 1) = sc + 1.
Proof. intros H. apply wrap64_id. unfold scope_ok, int64_ok, MinInt64, MaxInt64, two63 in *. lia. Qed.

(** ** The loop is the recursion *)

(** The scopes of the stack, none of them the largest integer. *)
Definition stack_ok (st : string) : Prop := no_lf st /\ Forall (fun sc => sc < MaxInt64) (populated st).

Lemma look_scope_ok st f op : stack_ok st -> 0 <= f -> op ∈ look st f -> scope_ok (op_Scope op).
Proof.
  intros [_ Hp] Hf Hop. destruct (look_scope st f op Hop) as [H1 H2]. split; [lia|].
  by apply (proj1 (Forall_forall _ _) Hp).
Qed.

Lemma nextFloor_one st f op0 cur :
  stack_ok st -> 0 <= f -> look st f = op0 :: cur -> nextFloor op0 (op0 :: cur) = op_Scope op0 + 1.
Proof.
  intros Hs Hf E.
  assert (Hall : forall op, op ∈ op0 :: cur -> op_Scope op = op_Scope op0).
  { intros op Hop. rewrite <- E in Hop. apply (look_one st f); [done|]. rewrite E. apply elem_of_cons; auto. }
  assert (H0 : wrap64 (op_Scope op0 + 1) = op_Scope op0 + 1).
  { apply wrap_next, (look_scope_ok st f); [done..|]. rewrite E. apply elem_of_cons; auto. }
  unfold nextFloor. rewrite H0. clear E. revert Hall. generalize (op0 :: cur) as l.
  induction l as [|op l IH]; intros Hall; [done|]. cbn [foldl].
  rewrite (Hall op) by (apply elem_of_cons; auto). rewrite H0, Z.ltb_irrefl. apply IH.
  intros op' Hop'. apply Hall. apply elem_of_cons; auto.
Qed.

Lemma next_ops_of st sc : no_lf st -> scope_ok sc -> next_ops (stage_of st sc) = look st (sc + 1).
Proof.
  intros Hst Hsc. unfold next_ops, nextStageFor. cbn [String.eqb negb].
  rewrite StageParse_stage_of by (unfold scope_ok in *; (done || lia)). rewrite wrap_next by done.
  unfold ops_for_stage. rewrite StageParse_stage_of; [done..|]. unfold scope_ok in Hsc. lia.
Qed.

Lemma next_stage_of st sc (o : Operation R) : no_lf st -> scope_ok sc ->
  next_stage (stage_of st sc) o = stage_of st (op_Scope o).
Proof. intros Hst Hsc. unfold next_stage. rewrite StageParse_stage_of; [done..|]. unfold scope_ok in Hsc. lia. Qed.

Lemma ff_loop_frames st : stack_ok st -> forall n f prev w, 0 <= f ->
  ff_loop n st prev (look st f) w =
  match look st f with
  | [] => Ended prev w
  | o :: _ => run_frame n prev (stage_of st (op_Scope o)) (sync w)
  end.
Proof.
  intros Hs. induction n as [|n IH]; intros f prev w Hf;
    destruct (look st f) as [|o os] eqn:El; [done..|]; cbn [ff_loop run_frame].
  assert (Ho : o ∈ look st f) by (rewrite El; apply elem_of_cons; auto).
  assert (Hsc : scope_ok (op_Scope o)) by (by apply (look_scope_ok st f)).
  destruct (enter prev _ (sync w)) as [|w']; [done|].
  unfold ops_for_stage at 2. rewrite StageParse_stage_of by (destruct Hs; unfold scope_ok in *; (done || lia)).
  rewrite (look_again st f o Ho), El.
  destruct (resonate (ws_raw w') (o :: os)) as [[|r rs]|e]; [|done..].
  rewrite (nextFloor_one st f) by done. rewrite next_ops_of by (by destruct Hs).
  unfold ops_for_stage. rewrite StageParse_stage_of by (destruct Hs; unfold scope_ok in *; (done || lia)).
  rewrite IH by (unfold scope_ok in *; lia).
  destruct (look st (op_Scope o + 1)); [done|]. by rewrite next_stage_of by (by destruct Hs).
Qed.

(** ** It ends, and where *)

Definition ahead (st : string) (f : Z) : list Z := List.filter (Z.leb f) (populated st).

Lemma ahead_shrinks st f op : op ∈ look st f -> (length (ahead st (op_Scope op + 1)) < length (ahead st f))%nat.
Proof.
  intros Hop. destruct (look_scope st f op Hop) as [Hf Hin]. unfold ahead.
  revert Hin. induction (populated st) as [|a l IH]; [by intros ?%not_elem_of_nil|]. intros [<-|Hin]%elem_of_cons; cbn [List.filter].
  - rewrite (proj2 (Z.leb_le f (op_Scope op))) by lia. rewrite (proj2 (Z.leb_gt (op_Scope op + 1) (op_Scope op))) by lia.
    cbn [length]. apply Nat.lt_succ_r. clear -Hf. induction l as [|c l IH]; [done|]. cbn [List.filter].
    destruct (Z.leb_spec (op_Scope op + 1) c), (Z.leb_spec f c); cbn [length]; lia.
  - specialize (IH Hin). destruct (Z.leb_spec (op_Scope op + 1) a), (Z.leb_spec f a); cbn [length]; lia.
Qed.

(** [resonate] found nothing at scope [sc]. *)
Definition dead (st : string) (sc : Z) : Prop := exists raw, resonate raw (look st sc) = inl [].

(** The scopes skipped from [f] up to [hi]. *)
Definition all_dead (st : string) (f : Z) (below : Z -> Prop) : Prop :=
  forall sc op, f <= sc -> below sc -> op ∈ look st sc -> op_Scope op = sc -> dead st sc.

Definition walk_result (st : string) (f : Z) (o : outcome) : Prop :=
  match o with
  | Landed ops stage w => exists sc, f <= sc /\ stage = stage_of st sc /\ ops <> [] /\
      resonate (ws_raw w) (look st sc) = inl ops /\ all_dead st f (fun k => k < sc)
  | Ended _ _ => all_dead st f (fun _ => True)
  | Exhausted _ stage _ => exists sc, f <= sc /\ stage = stage_of st sc
  | Failed _ => True
  | OutOfTurns => False
  end.

Lemma enter_ends parent stage w o : enter parent stage w = inl o ->
  exists e w', o = Exhausted e stage w'.
Proof.
  unfold enter. destruct (decrementTTL _ _ _) as [[[e|] s] fr]; [intros [= <-]; eauto|].
  destruct (addFuel _ _ _) as [[e|] s']; [intros [= <-]; eauto|].
  destruct (chargeTransition _ _ _ _) as [[[p [e|]] s''] fr']; [intros [= <-]; eauto|done].
Qed.

(** Nothing is populated between the floor and the scope a lookup finds. *)
Lemma between_empty st f o sc op :
  o ∈ look st f -> f <= sc -> op ∈ look st sc -> op_Scope op = sc -> op_Scope o <= sc.
Proof.
  intros Ho Hf Hop Hsc. destruct (Z.le_gt_cases (op_Scope o) sc); [done|].
  rewrite (look_between st f sc o) in Hop by (done || lia). rewrite (look_one st f o op) in * by done. lia.
Qed.

Lemma ff_loop_result st : stack_ok st -> forall n f prev w, 0 <= f ->
  (length (ahead st f) <= n)%nat -> walk_result st f (ff_loop n st prev (look st f) w).
Proof.
  intros Hs. induction n as [|n IH]; intros f prev w Hf Hn;
    destruct (look st f) as [|o os] eqn:El.
  1, 3: (intros sc op Hsc _ Hop _; rewrite (look_none st f sc El Hsc) in Hop; by apply not_elem_of_nil in Hop).
  all: assert (Ho : o ∈ look st f) by (rewrite El; apply elem_of_cons; auto);
    pose proof (ahead_shrinks st f o Ho) as Ha.
  1: lia.
  cbn [ff_loop].
  destruct (look_scope st f o Ho) as [Hge _].
  assert (Hsc : scope_ok (op_Scope o)) by (by apply (look_scope_ok st f)).
  destruct (enter prev _ (sync w)) as [out|w'] eqn:Ee.
  { destruct (enter_ends _ _ _ _ Ee) as (e & w' & ->). cbn. eauto. }
  rewrite <- El. pose proof (look_again st f o Ho) as Hag.
  destruct (resonate (ws_raw w') (look st f)) as [[|r rs]|e] eqn:Er; [| |done].
  - rewrite El, (nextFloor_one st f) by done. unfold ops_for_stage.
    rewrite StageParse_stage_of by (destruct Hs; unfold scope_ok in *; (done || lia)).
    specialize (IH (op_Scope o + 1) (stage_of st (op_Scope o)) w' ltac:(unfold scope_ok in *; lia) ltac:(lia)).
    assert (Hd : forall sc op, f <= sc -> op ∈ look st sc -> op_Scope op = sc ->
              ~ op_Scope o + 1 <= sc -> dead st sc).
    { intros sc op Hfs Hop Eop Hn'. pose proof (between_empty st f o sc op Ho Hfs Hop Eop).
      assert (sc = op_Scope o) as -> by lia. exists (ws_raw w'). by rewrite Hag. }
    destruct (ff_loop n st _ (look st (op_Scope o + 1)) w'); cbn [walk_result] in *.
    + destruct IH as (sc & Hle & -> & Hne & Hr & Hall). exists sc. split; [lia|]. split; [done|]. split; [done|].
      split; [done|]. intros k op Hfk Hk Hop Eop.
      destruct (Z.le_gt_cases (op_Scope o + 1) k); [by apply (Hall k op)|]. by apply (Hd k op); [..|lia].
    + destruct IH as (sc & Hle & ->). exists sc. split; [lia|done].
    + done.
    + intros k op Hfk _ Hop Eop.
      destruct (Z.le_gt_cases (op_Scope o + 1) k); [by apply (IH k op)|]. by apply (Hd k op); [..|lia].
    + done.
  - cbn [walk_result]. exists (op_Scope o). rewrite Hag. split; [done|]. split; [done|]. split; [done|].
    split; [done|]. intros k op Hfk Hk Hop Eop. pose proof (between_empty st f o k op Ho Hfk Hop Eop). lia.
Qed.
End Walk.

(** ** The lookup of the ops index is such a lookup *)

Lemma lookupOpsExact_none {R} snap st f f' t :
  lookupOpsExact snap st f t = ([] : list (Operation R)) -> f <= f' -> lookupOpsExact snap st f' t = ([] : list (Operation R)).
Proof.
  intros H Hf. destruct (lookupOpsExact snap st f' t) as [|o os] eqn:E; [done|].
  destruct (lookupOpsExact_sound snap st f' t o) as (r & Hr & -> & Hm & Hs & _); [rewrite E; apply elem_of_cons; auto|].
  unfold lookupOpsExact in H. pose proof (min_at_or_above_spec f (stack_rows snap t st)) as Hspec.
  assert (Hrs : r ∈ stack_rows snap t st) by (apply list_elem_of_In, List.filter_In; by rewrite <- list_elem_of_In).
  destruct (min_at_or_above f _) as [m|]; [|specialize (Hspec r Hrs); lia].
  destruct Hspec as (_ & (r' & Hr' & <-) & _).
  assert (Hin : r' ∈ at_scope (row_scope r') (stack_rows snap t st)).
  { apply list_elem_of_In, List.filter_In. rewrite <- list_elem_of_In. split; [done|apply Z.eqb_refl]. }
  destruct (at_scope (row_scope r') _); [by apply not_elem_of_nil in Hin|done].
Qed.

Lemma lookupOpsExact_between {R} snap st f f' t (op : Operation R) :
  op ∈ lookupOpsExact snap st f t -> f <= f' <= op_Scope op ->
  lookupOpsExact snap st f' t = (lookupOpsExact snap st f t : list (Operation R)).
Proof.
  intros Hop Hf. unfold lookupOpsExact in *.
  pose proof (min_at_or_above_spec f (stack_rows snap t st)) as H1.
  pose proof (min_at_or_above_spec f' (stack_rows snap t st)) as H2.
  destruct (min_at_or_above f _) as [m|]; [|by apply not_elem_of_nil in Hop].
  apply list_elem_of_fmap in Hop as (r & -> & Hr). apply list_elem_of_In, List.filter_In in Hr as [Hr Er%Z.eqb_eq].
  apply list_elem_of_In in Hr. cbn in Hf.
  destruct (min_at_or_above f' _) as [m'|]; [|specialize (H2 r Hr); lia].
  destruct H1 as (_ & _ & H1), H2 as (Hm' & (r' & Hr' & Er') & H2).
  specialize (H2 r Hr ltac:(lia)). specialize (H1 r' Hr' ltac:(lia)). by replace m' with m by lia.
Qed.

Lemma lookupOpsExact_one {R} snap st f t (op op' : Operation R) :
  op ∈ lookupOpsExact snap st f t -> op' ∈ lookupOpsExact snap st f t -> op_Scope op = op_Scope op'.
Proof.
  unfold lookupOpsExact. destruct (min_at_or_above _ _); [|by intros ?%not_elem_of_nil].
  intros (r & -> & Hr)%list_elem_of_fmap (r' & -> & Hr')%list_elem_of_fmap.
  apply list_elem_of_In, List.filter_In in Hr as [_ Er%Z.eqb_eq], Hr' as [_ Er'%Z.eqb_eq]. cbn. lia.
Qed.

(** Lookups that agree where the walk stops, and are empty where it passes. *)
Lemma peel_loop_agree {R} (look look' : string -> list (Operation R)) peel n prefix rows op :
  (forall p, look p = [] -> look' p = []) -> (forall p, op ∈ look p -> look' p = look p) ->
  peel_loop look peel n prefix = Some rows -> op ∈ rows -> peel_loop look' peel n prefix = Some rows.
Proof.
  intros Hn Hs. revert prefix; induction n as [|n IH]; intros prefix H Hop; [done|]. cbn [peel_loop] in *.
  destruct (look prefix) as [|o os] eqn:E.
  - rewrite (Hn _ E). destruct peel; [|done]. destruct (peelParent prefix); [|done]. eauto.
  - simplify_eq. by rewrite Hs, E by (by rewrite E).
Qed.

Section SqlLookup.
Context {R : Type} (snap : Snapshot) (tenant : string) (peel : bool).

Definition sql_look (st : string) (f : Z) : list (Operation R) :=
  default [] (OpsForStage_sql snap tenant peel st f).

Lemma sql_look_run st f : OpsForStage_sql snap tenant peel st f = Some (sql_look st f).
Proof.
  unfold sql_look, OpsForStage_sql.
  destruct (peel_loop_total (fun p => lookupOpsExact (R := R) snap p f tenant) (negb (Contains st "%") && peel)
              (peel_turns st) st) as [rows ->]; [unfold peel_turns; lia|done].
Qed.

Lemma sql_look_in st f op : op ∈ sql_look st f -> exists p, op ∈ lookupOpsExact snap p f tenant /\ sql_look st f = lookupOpsExact snap p f tenant.
Proof.
  intros Hop. pose proof (sql_look_run st f) as H. unfold OpsForStage_sql in H.
  apply peel_loop_sound in H as (p & _ & E & _); [|intros E; rewrite E in Hop; by apply not_elem_of_nil in Hop].
  exists p. rewrite <- E in Hop |- *. done.
Qed.

#[export] Instance sql_StageLookup : StageLookup sql_look.
Proof.
  refine {| populated := fun _ => List.map row_scope (ops_rows snap) |}.
  - intros st f op (p & Hp & _)%sql_look_in.
    destruct (lookupOpsExact_sound _ _ _ _ _ Hp) as (r & Hr & -> & _ & Hs & _).
    split; [done|]. apply list_elem_of_fmap. eauto.
  - intros st f op op' (p & Hp & E)%sql_look_in Hop'. rewrite E in Hop'. by eapply lookupOpsExact_one.
  - intros st f f' op Hop Hf. destruct (sql_look_in st f op Hop) as (p & Hp & E).
    enough (OpsForStage_sql snap tenant peel st f' = Some (sql_look st f)) as H
      by (rewrite (sql_look_run st f') in H; by simplify_eq).
    pose proof (sql_look_run st f) as H. unfold OpsForStage_sql in *.
    eapply peel_loop_agree; [| |exact H|exact Hop].
    + intros q Hq. apply (lookupOpsExact_none _ _ f); [done|lia].
    + intros q Hq. by apply (lookupOpsExact_between _ _ _ _ _ op).
  - intros st f f' E Hf. pose proof (sql_look_run st f) as H. pose proof (sql_look_run st f') as H'.
    rewrite E in H. unfold OpsForStage_sql in H, H'.
    enough (Hx : peel_loop (fun p => lookupOpsExact (R := R) snap p f' tenant) (negb (Contains st "%") && peel) (peel_turns st) st = Some [])
      by (rewrite Hx in H'; by simplify_eq).
    clear H' E. revert H. generalize (peel_turns st) as n, (negb (Contains st "%") && peel) as pl.
    intros n pl. generalize st as q. induction n as [|n IH]; intros q H; [done|]. cbn [peel_loop] in *.
    destruct (lookupOpsExact snap q f tenant) eqn:El; [|done].
    rewrite (lookupOpsExact_none _ _ f f') by done. destruct pl; [|done]. destruct (peelParent q); [|done]. by apply IH.
Defined.
End SqlLookup.

(** ** Theorems *)

(** C2: fast-forward is the recursion it replaces.  From any stage, budget and
    call frame, with any rules, the loop ends as the chain of dead frames does:
    the same ops at the same stage, the same exhaustion or error, the same
    envelope, fuel, hops, history and penalties. *)
Theorem fastForward_is_recursion {R Err} look `{!StageLookup look}
    (resonate : EnvBudget -> list (Operation R) -> list (Operation R) + Err) n stage st sc w :
  StageParse stage = Some (st, sc) -> sc < MaxInt64 -> Forall (fun k => k < MaxInt64) (populated st) ->
  fastForward look resonate n stage w = advance_dead look resonate n stage w.
Proof.
  intros Hp Hsc Hpop. destruct (StageParse_ok _ _ _ Hp) as [Hlf Hge]. assert (Hs : stack_ok look st) by done.
  unfold fastForward, advance_dead, next_ops, nextStageFor. cbn [String.eqb negb]. rewrite Hp.
  unfold ops_for_stage. rewrite wrap_next by (unfold scope_ok; lia).
  rewrite StageParse_stage_of by (done || lia). rewrite (ff_loop_frames look resonate st Hs n) by lia.
  destruct (look st (sc + 1)); [done|]. unfold next_stage. by rewrite Hp.
Qed.

(** fast-forward ends and lands right.  With as many turns as the stack has
    populated scopes it returns; it lands at the first scope above the entry
    where rules match, every populated scope before it matched nothing, and it
    walks off the end only when all of them matched nothing. *)
Theorem fastForward_lands {R Err} look `{!StageLookup look}
    (resonate : EnvBudget -> list (Operation R) -> list (Operation R) + Err) n stage st sc w :
  StageParse stage = Some (st, sc) -> sc < MaxInt64 -> Forall (fun k => k < MaxInt64) (populated st) ->
  (length (populated st) <= n)%nat ->
  walk_result look resonate st (sc + 1) (fastForward look resonate n stage w).
Proof.
  intros Hp Hsc Hpop Hn. destruct (StageParse_ok _ _ _ Hp) as [Hlf Hge]. assert (Hs : stack_ok look st) by done.
  unfold fastForward. rewrite Hp. unfold ops_for_stage. rewrite wrap_next by (unfold scope_ok; lia).
  rewrite StageParse_stage_of by (done || lia). apply (ff_loop_result look resonate st Hs); [lia|].
  unfold ahead. etransitivity; [apply List.filter_length_le|done].
Qed.

(** A request that has jumped back to [www/0] walks [www/0 -> www/100] again. *)
Definition demo_budget (sn : gset string) : budgetState := mkBudget 0 50 0 50 20 None sn [].
Definition demo_walk (sn : gset string) : walk_state :=
  mkWalk (mkEnv None None None None) (demo_budget sn) (Some (rootFrame "http")) [].
Definition demo_resonate (raw : EnvBudget) (ops : list (Operation unit)) : list (Operation unit) + unit :=
  inl (List.filter (fun op => op_Name op =s "hello") ops).

Lemma fastForward_is_recursion_witness :
  fastForward (sql_look demo_snapshot "acme" true) demo_resonate 5 "www/0" (demo_walk ∅) =
  advance_dead (sql_look demo_snapshot "acme" true) demo_resonate 5 "www/0" (demo_walk ∅).
Proof.
  apply (fastForward_is_recursion (sql_look demo_snapshot "acme" true) demo_resonate 5 "www/0" "www" 0).
  - reflexivity.
  - reflexivity.
  - apply List.Forall_forall. intros k Hk. cbn in Hk. unfold MaxInt64, two63. lia.
Defined.

Lemma fastForward_lands_witness :
  walk_result (sql_look demo_snapshot "acme" true) demo_resonate "www" 1
    (fastForward (sql_look demo_snapshot "acme" true) demo_resonate 5 "www/0" (demo_walk ∅)).
Proof.
  apply (fastForward_lands (sql_look demo_snapshot "acme" true) demo_resonate 5 "www/0" "www" 0).
  - reflexivity.
  - reflexivity.
  - apply List.Forall_forall. intros k Hk. cbn in Hk. unfold MaxInt64, two63. lia.
  - apply le_n.
Defined.

(** After a jump back to [www/0] the walk to [www/100] repeats a transition: it
    pays the repeat charge and sleeps the penalty. *)
Example fastForward_penalty_ex :
  match fastForward (sql_look demo_snapshot "acme" true) demo_resonate 5 "www/0"
          (demo_walk {[ "www/0->www/100" ]}) with
  | Landed ops stage w => stage = "www/100" /\ ws_waits w = [20000000] /\ fuel (ws_budget w) = 60 /\ ttl (ws_budget w) = 49
  | _ => False
  end.
Proof. vm_compute. repeat split; reflexivity. Qed.
