(* ===== verification/Sanitize.v ===== *)
(** * What an untrusted producer may put in the envelope (chassis/processor/txcguard.go)

    An op's answer is projected onto the keys its transport may write before it
    merges: everything outside [_txc], and the allowlisted subtrees of [_txc].
    A document is a JSON text handled only through gjson and sjson, which are
    the operations of [Docs]; [DocLaws] states what is relied on of them. *)

From Stdlib Require Import Ascii String ZArith Lia Bool.
From stdpp Require Import base tactics list strings.
From S2P Require Import Prelude GoStrings GoStrconv GoJson JsonxPath Builder BuilderFacts Txcguard.

(** ** Documents *)

(** [d_get] is the raw text [gjson.Get] finds, [None] when the path does not
    exist; the writers are [None] on an error. *)
Class Docs (D : Type) := {
  d_empty : D -> bool;
  d_get : D -> string -> option string;
  d_setRaw : D -> string -> string -> option D;
  d_delete : D -> string -> option D }.

(** Neither key list is a prefix of the other: they part at some key. *)
Definition apart (ks ks' : list string) : Prop :=
  exists pre a b t t', ks = pre ++ a :: t /\ ks' = pre ++ b :: t' /\ a <> b.

(** A key that gjson never takes for an index. *)
Definition not_index (k : string) : bool := match digits_int k 0 with None => true | Some _ => k =s "" end.
Definition plain_path (p : string) : bool :=
  forallb (fun k => not_index k && negb (k =s "") && negb (k =s "-1")) (Split p ".") && sall plain_byte p.

(** [field d ks] is what a reader finds under the keys [ks].  [single d k] says
    that the document has at most one member [k]. *)
Class DocLaws (D : Type) `{Docs D} := {
  field : D -> list string -> option string;
  single : D -> string -> Prop;
  get_field d p : plain_path p = true -> d_get d p = field d (Split p ".");
  setRaw_apart d p r d' ks :
    plain_path p = true -> d_setRaw d p r = Some d' -> apart (Split p ".") ks -> field d' ks = field d ks;
  delete_apart d k d' k' ks :
    plain_path k = true -> Split k "." = [k] -> d_delete d k = Some d' -> k' <> k -> field d' (k' :: ks) = field d (k' :: ks);
  delete_gone d k d' ks :
    plain_path k = true -> Split k "." = [k] -> single d k -> d_delete d k = Some d' -> field d' (k :: ks) = None;
  delete_total d k : plain_path k = true -> Split k "." = [k] -> field d [k] <> None -> d_delete d k <> None;
  empty_field d k ks : d_empty d = true -> field d (k :: ks) = None;
  field_head d k ks : field d (k :: ks) <> None -> field d [k] <> None }.

(** ** The projection *)

Definition trustedWritable : list string := ["chat"; "computed"].
Definition workspaceWritable : list string := ["workspace"].

Definition transportAuthorControlled (transport : string) : bool :=
  negb (bool_decide (transport ∈ ["txco"; "ai"; "goto"; "noop"; "outlet"])).

Section Project.
Context {D : Type} `{!Docs D}.

(** The inner loop: copy one allowlisted subtree of [raw] onto [out]. *)
Definition keep_path (raw out : D) (p : string) : D :=
  match d_get raw ("_txc." ++ p) with
  | Some v => match d_setRaw out ("_txc." ++ p) v with Some set => set | None => out end
  | None => out
  end.

Definition projectTxcAllowed (raw : D) (allowlists : list (list string)) : D :=
  if d_empty raw then raw
  else match d_get raw "_txc" with
       | None => raw
       | Some _ =>
           match d_delete raw "_txc" with
           | None => raw
           | Some out => foldl (keep_path raw) out (concat allowlists)
           end
       end.

Definition sanitizeAuthorOutput (raw : D) : D := projectTxcAllowed raw [authorWritable; []].
Definition sanitizeAuthorOutputFor (transport : string) (raw : D) : D :=
  if transport =s "workspace" then projectTxcAllowed raw [authorWritable; workspaceWritable]
  else sanitizeAuthorOutput raw.
Definition sanitizeTrustedOutput (raw : D) : D := projectTxcAllowed raw [authorWritable; trustedWritable].
Definition sanitizeTerminalOutput (transport : string) (raw : D) : D :=
  if transportAuthorControlled transport then sanitizeAuthorOutputFor transport raw
  else sanitizeTrustedOutput raw.
End Project.

(** ** What is left of [_txc] *)

Section Theory.
Context {D : Type} `{!Docs D} `{!DocLaws D}.

Definition all_plain (l : list string) : Prop := Forall (fun p => plain_path ("_txc." ++ p) = true) l.

Lemma Split_txc p : Split ("_txc." ++ p) "." = "_txc" :: Split p ".".
Proof. exact (Split_cons_sep "_txc" p "." eq_refl). Qed.

Lemma keep_path_apart raw out p ks :
  plain_path ("_txc." ++ p) = true -> apart ("_txc" :: Split p ".") ks ->
  field (keep_path raw out p) ks = field out ks.
Proof.
  intros Hp Ha. unfold keep_path. destruct (d_get raw _) as [v|]; [|done].
  destruct (d_setRaw out _ v) as [d|] eqn:E; [|done].
  apply (setRaw_apart out ("_txc." ++ p) v); [done..|]. by rewrite Split_txc.
Qed.

Lemma keep_all_apart raw ks l : all_plain l -> Forall (fun p => apart ("_txc" :: Split p ".") ks) l ->
  forall out, field (foldl (keep_path raw) out l) ks = field out ks.
Proof.
  intros Hp Ha. induction Hp as [|p l Hp Hl IH]; intros out; [done|]. cbn [foldl].
  rewrite IH by (by apply (Forall_inv_tail Ha)). apply keep_path_apart; [done|]. by apply (Forall_inv Ha).
Qed.

Lemma apart_cons k ks ks' : apart ks ks' -> apart (k :: ks) (k :: ks').
Proof. intros (pre & a & c & t & t' & -> & -> & Hne). by exists (k :: pre), a, c, t, t'. Qed.

Lemma apart_head a c t t' : a <> c -> apart (a :: t) (c :: t').
Proof. intros. by exists [], a, c, t, t'. Qed.

Lemma not_none_absurd (o : option string) : ~ (o <> None) -> o = None.
Proof. destruct o; [|done]. intros H. destruct H. done. Qed.

(** Reserved keys are gone. *)
Lemma project_gone raw lists sub :
  all_plain (concat lists) -> single raw "_txc" ->
  Forall (fun p => apart (Split p ".") sub) (concat lists) ->
  field (projectTxcAllowed raw lists) ("_txc" :: sub) = None.
Proof.
  intros Hp Hs Ha. unfold projectTxcAllowed. destruct (d_empty raw) eqn:Ee; [by apply empty_field|].
  rewrite (get_field raw "_txc") by done. change (Split "_txc" ".") with ["_txc"].
  destruct (field raw ["_txc"]) as [v|] eqn:Ef.
  - destruct (d_delete raw "_txc") as [out|] eqn:Ed;
      [|by destruct (delete_total raw "_txc"); [..|done]; [..|by rewrite Ef]].
    rewrite keep_all_apart; [by apply (delete_gone raw "_txc" out)|done|].
    eapply Forall_impl; [exact Ha|]. intros p. apply apart_cons.
  - apply not_none_absurd. intros Hf%field_head. done.
Qed.

(** Everything outside [_txc] is kept. *)
Lemma project_keeps raw lists k ks :
  all_plain (concat lists) -> k <> "_txc" ->
  field (projectTxcAllowed raw lists) (k :: ks) = field raw (k :: ks).
Proof.
  intros Hp Hk. unfold projectTxcAllowed. destruct (d_empty raw); [done|].
  destruct (d_get raw "_txc"); [|done]. destruct (d_delete raw "_txc") as [out|] eqn:Ed; [|done].
  rewrite keep_all_apart; [by apply (delete_apart raw "_txc" out)|done|].
  apply Forall_forall. intros p _. by apply apart_head.
Qed.

(** The keys no stored or remote answer may carry into the envelope. *)
Definition core_keys : list string :=
  ["tenant"; "fuel_used"; "ttl"; "_seen"; "rid"; "src"; "route"; "runtime"; "principal"; "allowance"].
Definition earned_keys : list string := ["computed"; "chat"].

Lemma heads_apart lists k ks :
  forallb (fun p => negb (default "" (head (Split p ".")) =s k)) (concat lists) = true ->
  Forall (fun p => apart (Split p ".") (k :: ks)) (concat lists).
Proof.
  intros H. rewrite forallb_forall in H. apply Forall_forall. intros p Hp%list_elem_of_In. specialize (H p Hp).
  pose proof (Split_not_nil p "."). destruct (Split p ".") as [|a t]; [done|].
  apply apart_head. cbn in H. by destruct (String.eqb_spec a k).
Qed.
End Theory.

(** ** Theorems *)

(** no answer forges the run's identity.  Whatever transport an answer came
    from, live or out of the continuation store, after the projection it has no
    [_txc.tenant], [_txc.fuel_used], [_txc.ttl], [_txc._seen], [_txc.rid],
    [_txc.src], [_txc.route], [_txc.runtime], [_txc.principal] or
    [_txc.allowance], and from an author-controlled transport no
    [_txc.computed] or [_txc.chat] either; every field outside [_txc] is kept.
    The document has one [_txc] member. *)
Theorem sanitized_core_gone {D} `{!Docs D} `{!DocLaws D} transport (raw : D) :
  single raw "_txc" ->
  let out := sanitizeTerminalOutput transport raw in
  (forall k ks, k ∈ core_keys -> field out ("_txc" :: k :: ks) = None) /\
  (transportAuthorControlled transport = true ->
     forall k ks, k ∈ earned_keys -> field out ("_txc" :: k :: ks) = None) /\
  (forall k ks, k <> "_txc" -> field out (k :: ks) = field raw (k :: ks)).
Proof.
  intros Hs out.
  assert (Hl : exists extra, out = projectTxcAllowed raw [authorWritable; extra] /\
            (extra = [] \/ extra = workspaceWritable \/ (extra = trustedWritable /\ transportAuthorControlled transport = false))).
  { subst out. unfold sanitizeTerminalOutput, sanitizeAuthorOutputFor, sanitizeAuthorOutput, sanitizeTrustedOutput.
    destruct (transportAuthorControlled transport);
      [destruct (transport =s "workspace"); [exists workspaceWritable|exists []]|exists trustedWritable]; auto. }
  destruct Hl as (extra & -> & Hx).
  assert (Hp : all_plain (concat [authorWritable; extra])).
  { destruct Hx as [->|[->|[-> _]]]; repeat constructor. }
  split; [|split].
  - intros k ks Hk. apply project_gone; [done..|]. apply heads_apart.
    unfold core_keys in Hk. repeat (apply elem_of_cons in Hk as [->|Hk]; [by destruct Hx as [->|[->|[-> _]]]|]).
    by apply not_elem_of_nil in Hk.
  - intros Ht k ks Hk. apply project_gone; [done..|]. apply heads_apart.
    unfold earned_keys in Hk.
    repeat (apply elem_of_cons in Hk as [->|Hk]; [by destruct Hx as [->|[->|[-> Hf]]]; [..|congruence]|]).
    by apply not_elem_of_nil in Hk.
  - intros k ks Hk. by apply project_keeps.
Qed.

(** ** Documents as member trees

    The trees of [Builder], whose objects may repeat a key: a reader finds the
    first member of a name, a writer replaces it or puts a new one in front,
    and a deletion removes it. *)

Definition seg (k : string) : pathSeg := mkSeg k false.
Definition no_sjson (_ _ _ : string) : option string := None.

Fixpoint remove_first (k : string) (l : list (entry node)) : list (entry node) :=
  match l with
  | [] => []
  | e :: l => if key e =s k then l else e :: remove_first k l
  end.

#[export] Instance tree_Docs : Docs node := {
  d_empty d := match d with NRaw r => r =s "" | _ => false end;
  d_get d p := text <$> get d (seg <$> Split p ".");
  d_setRaw d p r := set_node no_sjson r d (seg <$> Split p ".");
  d_delete d p := match d with NObj l => Some (NObj (remove_first p l)) | _ => None end }.

Definition name_key (k : string) : bool := not_index k && negb (k =s "") && negb (k =s "-1").

Lemma name_key_create raw k ks :
  name_key k = true -> createValue raw (seg <$> k :: ks) = NObj [mkEntry k (createValue raw (seg <$> ks))].
Proof.
  unfold name_key, not_index. intros H. cbn [fmap list_fmap createValue]. unfold atouiSeg, is_append. cbn [force name seg negb andb].
  destruct (digits_int k 0); bool_to_prop; [congruence|].
  apply String.eqb_neq in H0. by rewrite H0.
Qed.

Lemma name_key_hit {A} k (l : list A) : name_key k = true -> hit (seg k) l = None.
Proof.
  unfold name_key, not_index, hit, gjsonArrayIndex. intros H. cbn [name seg]. bool_to_prop.
  destruct (String.eqb_spec k ""); [done|]. destruct (digits_int k 0); [|done]. bool_to_prop. congruence.
Qed.

Lemma child_cons e l s : child (NObj (e :: l)) s = if decide (key e = name s) then Some (val e) else child (NObj l) s.
Proof.
  cbn [child list_find]. destruct (decide (key e = name s)); [done|].
  match goal with |- context [prod_map S id <$> ?x] => by destruct x as [[? ?]|] end.
Qed.

Lemma child_set_other l j e v c :
  l !! j = Some e -> key e <> c -> child (NObj (<[j := set_val e v]> l)) (seg c) = child (NObj l) (seg c).
Proof.
  intros Hj Hne. revert j Hj.
  induction l as [|x l IHl]; intros [|j] Hj; [done|done|..]; cbn [insert list_insert]; rewrite !child_cons.
  - simplify_eq/=. by rewrite !decide_False by (cbn in *; congruence).
  - by rewrite IHl.
Qed.

(** Setting a path of names never makes a value appear elsewhere. *)
Lemma get_create_apart raw pre a c t t' :
  forallb name_key (pre ++ a :: t) = true -> a <> c ->
  get (createValue raw (seg <$> pre ++ a :: t)) (seg <$> pre ++ c :: t') = None.
Proof.
  intros Hn Hne. induction pre as [|k pre IH]; cbn [app forallb] in *; apply andb_true_iff in Hn as [Hk Hn];
    rewrite name_key_create by done; cbn [fmap list_fmap get child]; cbn [list_find fmap option_fmap option_map].
  - rewrite decide_False by done. done.
  - rewrite decide_True by done. cbn. by apply IH.
Qed.

Lemma set_apart_iff raw pre a c t t' : forall n n',
  forallb name_key (pre ++ a :: t) = true -> a <> c ->
  set_node no_sjson raw n (seg <$> pre ++ a :: t) = Some n' ->
  get n' (seg <$> pre ++ c :: t') = get n (seg <$> pre ++ c :: t').
Proof.
  induction pre as [|k pre IH]; intros n n' Hn Hne H; cbn [app forallb] in *; apply andb_true_iff in Hn as [Hk Hn];
    cbn [fmap list_fmap set_node] in H; destruct n as [r|obj|arr]; try done;
    try (rewrite (name_key_hit _ arr Hk) in H; unfold atouiSeg, is_append in H; cbn [force name seg negb andb] in H;
         unfold name_key, not_index in Hk; destruct (digits_int _ 0); bool_to_prop; [congruence|];
         repeat match goal with Hx : _ <> "-1" |- _ => apply String.eqb_neq in Hx; rewrite Hx in H; clear Hx end; done).
  - cbn [fmap list_fmap get]. destruct (list_find (fun e => key e = name (seg a)) obj) as [[i e]|] eqn:Ef.
    + destruct (set_node _ _ (val e) _) as [v|]; simplify_eq.
      apply list_find_Some in Ef as (Hi & Hke & _). cbn in Hke. by rewrite (child_set_other _ _ e) by (done || congruence).
    + simplify_eq. by rewrite child_cons, decide_False by done.
  - cbn [fmap list_fmap get]. destruct (list_find (fun e => key e = name (seg k)) obj) as [[i e]|] eqn:Ef.
    + destruct (set_node _ _ (val e) _) as [v|] eqn:Ev; simplify_eq.
      rewrite (child_obj_update (seg k) obj i e v Ef). cbn [child]. rewrite Ef. cbn. by apply IH.
    + simplify_eq. cbn [child]. rewrite Ef. cbn [list_find mkEntry key name seg]. rewrite decide_True by done. cbn.
      by apply get_create_apart.
Qed.

(** The same for any path, read at keys that are no index: an array answers
    none of them. *)
Lemma not_index_hit {A} k (l : list A) : not_index k = true -> hit (seg k) l = None.
Proof.
  unfold not_index, hit, gjsonArrayIndex. intros H. cbn [name seg].
  destruct (String.eqb_spec k "") as [->|]; [done|]. by destruct (digits_int k 0).
Qed.

Lemma get_create_apart_any raw c t' : forall pre ps a t,
  name <$> ps = pre ++ a :: t -> a <> c -> Forall (fun k => not_index k = true) (pre ++ c :: t') ->
  get (createValue raw ps) (seg <$> pre ++ c :: t') = None.
Proof.
  induction pre as [|k pre IH]; intros [|s ps] a t E Hne Hni; simplify_eq/=; inversion Hni as [|? ? Hk Hr]; subst;
    cbn [createValue]; (destruct (atouiSeg s) as [i|]; [cbn [child]; by rewrite not_index_hit|]);
    (destruct (is_append s); [cbn [child]; by rewrite not_index_hit|]); rewrite child_cons; cbn [mkEntry key val].
  - by rewrite decide_False by done.
  - rewrite decide_True by done. by eapply IH.
Qed.

Lemma set_apart_any raw c t' : forall pre ps a t n n',
  name <$> ps = pre ++ a :: t -> a <> c -> Forall (fun k => not_index k = true) (pre ++ c :: t') ->
  set_node no_sjson raw n ps = Some n' ->
  get n' (seg <$> pre ++ c :: t') = get n (seg <$> pre ++ c :: t').
Proof.
  induction pre as [|k pre IH]; intros [|s ps] a t n n' E Hne Hni H; simplify_eq/=; inversion Hni as [|? ? Hk Hr]; subst;
    destruct n as [r|obj|arr]; try done.
  - destruct (list_find (fun e => key e = name s) obj) as [[i e]|] eqn:Ef.
    + destruct (set_node _ _ (val e) _) as [v|]; simplify_eq.
      apply list_find_Some in Ef as (Hi & Hke & _). by rewrite (child_set_other _ _ e) by (done || congruence).
    + simplify_eq. by rewrite child_cons, decide_False by done.
  - destruct (hit s arr) as [[i e]|];
      [destruct (set_node _ _ e _); [|done]|destruct (atouiSeg s); [|destruct (is_append s); [|done]]];
      simplify_eq; cbn [child]; by rewrite !not_index_hit.
  - destruct (list_find (fun e => key e = name s) obj) as [[i e]|] eqn:Ef.
    + destruct (set_node _ _ (val e) _) as [v|] eqn:Ev; simplify_eq.
      rewrite (child_obj_update (seg (name s)) obj i e v Ef). cbn [child]. change (name (seg (name s))) with (name s). rewrite Ef. cbn. by eapply IH.
    + simplify_eq. rewrite child_cons, decide_True by done. cbn [child]. change (name (seg (name s))) with (name s).
      rewrite Ef. cbn. by eapply get_create_apart_any.
  - destruct (hit s arr) as [[i e]|];
      [destruct (set_node _ _ e _); [|done]|destruct (atouiSeg s); [|destruct (is_append s); [|done]]];
      simplify_eq; cbn [child]; by rewrite !not_index_hit.
Qed.

Definition count_key (k : string) (l : list (entry node)) : nat :=
  length (List.filter (fun e => key e =s k) l).

Lemma remove_first_other k k' l : k' <> k ->
  child (NObj (remove_first k l)) (seg k') = child (NObj l) (seg k').
Proof.
  intros Hne. induction l as [|e l IH]; [done|]. cbn [remove_first].
  destruct (String.eqb_spec (key e) k) as [E|E]; rewrite !child_cons.
  - by rewrite decide_False by (cbn; congruence).
  - by rewrite IH.
Qed.

Lemma remove_first_gone k l : (count_key k l <= 1)%nat -> child (NObj (remove_first k l)) (seg k) = None.
Proof.
  unfold count_key. induction l as [|e l IH]; intros H; [done|]. cbn [remove_first List.filter] in *.
  destruct (String.eqb_spec (key e) k) as [E|E].
  - cbn [length] in H. cbn [child]. destruct (list_find (fun e => key e = name (seg k)) l) as [[i x]|] eqn:Ef; [|done].
    apply list_find_Some in Ef as (Hi & Hk & _). cbn in Hk.
    assert (Hin : List.In x (List.filter (fun e => key e =s k) l)).
    { apply List.filter_In. split; [apply list_elem_of_In; by eapply list_elem_of_lookup_2|by apply String.eqb_eq]. }
    destruct (List.filter _ l); [done|]. cbn [length] in H. lia.
  - rewrite child_cons, decide_False by done. by apply IH.
Qed.

#[export] Instance tree_DocLaws : DocLaws node.
Proof.
  refine {| field d ks := text <$> get d (seg <$> ks);
            single d k := match d with NObj l => (count_key k l <= 1)%nat | _ => True end |}.
  - done.
  - intros d p r d' ks Hp H (pre & a & c & t & t' & Es & -> & Hne). f_equal.
    unfold plain_path in Hp. apply andb_true_iff in Hp as [Hp _]. cbn [d_setRaw tree_Docs] in H. rewrite Es in Hp, H.
    by apply (set_apart_iff r pre a c t t' d d').
  - intros d k d' k' ks _ _ H Hne. cbn [d_delete tree_Docs] in H. destruct d as [|l|]; simplify_eq.
    cbn [fmap list_fmap get]. by rewrite remove_first_other.
  - intros d k d' ks _ _ Hs H. cbn [d_delete tree_Docs] in H. destruct d as [|l|]; simplify_eq.
    cbn [fmap list_fmap get]. by rewrite remove_first_gone.
  - intros d k Hp Es Hf. destruct d as [|l|arr]; [done|done|]. cbn [fmap list_fmap get child] in Hf.
    rewrite name_key_hit in Hf; [done|]. unfold plain_path in Hp. apply andb_true_iff in Hp as [Hp _].
    rewrite Es in Hp. cbn in Hp. by apply andb_true_iff in Hp as [? _].
  - intros d k ks He. by destruct d.
  - intros d k ks Hf. cbn [fmap list_fmap get] in *. destruct (child d (seg k)); done.
Defined.

Definition demo_answer : node :=
  NObj [mkEntry "_txc" (NObj [mkEntry "tenant" (NRaw "1"); mkEntry "halt" (NRaw "true")]); mkEntry "reply" (NRaw "2")].

Lemma sanitized_core_gone_witness :
  field (sanitizeTerminalOutput "http" demo_answer) ["_txc"; "tenant"] = None /\
  field (sanitizeTerminalOutput "http" demo_answer) ["reply"] = Some "2".
Proof.
  destruct (sanitized_core_gone "http" demo_answer) as (Hc & _ & Hk).
  - apply le_n.
  - split.
    + apply Hc. apply elem_of_cons. left. reflexivity.
    + rewrite Hk; [reflexivity|discriminate].
Defined.

(** the projection looks at the first [_txc] member only.  Of an answer that
    repeats the key, with an empty object first, the second member stays
    whole: every field an author put in it, reserved ones included, is read
    from the sanitized answer. *)
Theorem duplicate_txc_survives forged rest ks transport :
  transport <> "workspace" ->
  let raw := NObj (mkEntry "_txc" (NObj []) :: mkEntry "_txc" forged :: rest) in
  field (sanitizeAuthorOutputFor transport raw) ("_txc" :: ks) = text <$> get forged (seg <$> ks).
Proof.
  intros Ht raw. unfold sanitizeAuthorOutputFor. apply String.eqb_neq in Ht. rewrite Ht.
  assert (E : sanitizeAuthorOutput raw = NObj (mkEntry "_txc" forged :: rest)) by reflexivity.
  rewrite E. cbn [field tree_DocLaws fmap list_fmap get]. by rewrite child_cons, decide_True by done.
Qed.

Lemma duplicate_txc_survives_witness :
  field (sanitizeAuthorOutputFor "http"
    (NObj [mkEntry "_txc" (NObj []); mkEntry "_txc" (NObj [mkEntry "computed" (NObj [mkEntry "sig_valid" (NRaw "true")])])]))
    ["_txc"; "computed"; "sig_valid"] = Some "true".
Proof. rewrite duplicate_txc_survives; [reflexivity|discriminate]. Defined.
