(* ===== verification/OpClauses.v ===== *)
(** * The clauses of a rule around its op (chassis/processor/processor.go)

    Which ops of a scope run ([ResonatingOps]: WHEN, then PRIORITY), SET before
    the op ([DecorateInput]), and what becomes of its answer ([finishOutput]:
    the debug strip, the projection of [Sanitize], EMIT).  Documents are those
    of [Sanitize]; logging and trace records are left out. *)

From Stdlib Require Import Ascii String ZArith Lia Bool.
From stdpp Require Import base tactics list strings gmap.
From S2P Require Import Prelude GoStrings GoStrconv Token Lexer Ast Runtime Opname Resonator JsonxPath Txcguard Parser Budget OpsIndex GoJson Builder BuilderFacts Sanitize.

(** ** WHEN and PRIORITY *)

Section Resonating.
Context {R Err : Type}.
Variable parse : string -> R + Err.
Variable WhenMatches : R -> bool.
Variable Priority : R -> Z.

(** The first loop: parse what is not parsed, keep what matches the input.  The
    first rule that does not parse ends it. *)
Fixpoint matching (ops : list (Operation R)) : list (Operation R * R) + Err :=
  match ops with
  | [] => inl []
  | op :: ops =>
      match (match op_Resonator op with Some r => inl r | None => parse (op_Txcl op) end) with
      | inr e => inr e
      | inl r =>
          match matching ops with
          | inr e => inr e
          | inl l => inl (if WhenMatches r then (op, r) :: l else l)
          end
      end
  end.

Definition highestPriority (l : list (Operation R * R)) : Z :=
  foldl (fun h o => if (h <? Priority (snd o))%Z then Priority (snd o) else h) 0%Z l.

(** FNV-1a, 32 bits. *)
Fixpoint fnv32a_from (h : Z) (s : string) : Z :=
  match s with
  | EmptyString => h
  | String c s => fnv32a_from (Z.lxor h (Z.of_nat (bval c)) * 16777619 mod 4294967296)%Z s
  end.
Definition fnv32a (s : string) : Z := fnv32a_from 2166136261 s.

Definition pick_priority (hashSeed : string) (h : Z) (l : list (Operation R * R)) : list (Operation R * R) :=
  let top := List.filter (fun o => (Priority (snd o) =? h)%Z) l in
  match top with
  | [] => List.firstn 1 l
  | o :: _ =>
      if (1 <? length top)%nat && negb (hashSeed =s "")
      then [default o (top !! Z.to_nat (fnv32a hashSeed mod Z.of_nat (length top)))]
      else [o]
  end.

(** The ops a scope runs, before their SET, WITH and SELECT are applied. *)
Definition choose (hashSeed : string) (ops : list (Operation R)) : list (Operation R * R) + Err :=
  match matching ops with
  | inr e => inr e
  | inl l =>
      let h := highestPriority l in
      inl (if (h =? 0)%Z then l else match l with [] => [] | _ => pick_priority hashSeed h l end)
  end.
End Resonating.

(** ** Documents with values *)

(** [d_bset] is [txcguard.BoundedSet], [d_set] plain [sjson.Set]; [d_fail] is
    [failPayload]. *)
Class DocEnv (D : Type) := {
  d_env : D -> Env;
  d_exists : D -> string -> bool;
  d_bset : D -> string -> any -> option D;
  d_set : D -> string -> any -> option D;
  d_budget : D -> EnvBudget;
  d_contains : D -> string -> bool;
  d_blank : D;
  d_braces : D;
  d_fail : string -> D }.

Section Clauses.
Context {D : Type} `{!Docs D} `{!DocEnv D} `{!Funcs}.

(** Set-if-absent; the error carries the path that failed. *)
Fixpoint DecorateInput (input : D) (overrides : list BranchValue) : D * option (string * FuncErr) :=
  match overrides with
  | [] => (input, None)
  | ov :: overrides =>
      let branch := TrimPrefix (bv_Path ov) "." in
      if d_exists input branch then DecorateInput input overrides
      else match Resolve (bv_Value ov) (d_env input) with
           | inr err => (input, Some (bv_Path ov, err))
           | inl val =>
               match d_bset input branch val with
               | None => DecorateInput input overrides
               | Some altered => DecorateInput altered overrides
               end
           end
  end.

Definition requested_ttl (val : any) : option Z :=
  match val with
  | AInt64 v | AInt v => Some v
  | AFloat64 v => Some (f64_trunc v)
  | _ => None
  end.

(** One EMIT assignment whose value is resolved. *)
Definition overlay_write (env : D) (systemAuthored : bool) (output : D) (branch : string) (val : any) : D :=
  if branch =s "_txc.ttl" then
    match requested_ttl val with
    | None => output
    | Some requested =>
        match d_set output "_txc.ttl" (AInt64 (clampTTL (d_budget env) requested)) with
        | Some altered => altered
        | None => output
        end
    end
  else if systemAuthored && SystemMayWrite branch then
    match d_bset output branch val with Some altered => altered | None => output end
  else if negb (AuthorMayWrite branch) then output
  else match d_bset output branch val with Some altered => altered | None => output end.

Fixpoint overlay_loop (envForResolve : Env) (env : D) (systemAuthored : bool) (output : D)
    (overrides : list BranchValue) : D * option (string * FuncErr) :=
  match overrides with
  | [] => (output, None)
  | ov :: overrides =>
      match Resolve (bv_Value ov) envForResolve with
      | inr err => (output, Some (bv_Path ov, err))
      | inl val =>
          overlay_loop envForResolve env systemAuthored
            (overlay_write env systemAuthored output (TrimPrefix (bv_Path ov) ".") val) overrides
      end
  end.

(** The resolution context is fixed before the first write. *)
Definition overlayResponse (env output : D) (overrides : list BranchValue) (systemAuthored : bool)
    : D * option (string * FuncErr) :=
  let output := if d_empty output then d_braces else output in
  overlay_loop (MultiEnv [Some (d_env output); Some (d_env env)]) env systemAuthored output overrides.

Definition OverlayResponse (env output : D) (overrides : list BranchValue) :=
  overlayResponse env output overrides false.
Definition SystemTenantSlug : string := "_sys".
Definition OverlayResponseFor (tenant : string) (env output : D) (overrides : list BranchValue) :=
  overlayResponse env output overrides (tenant =s SystemTenantSlug).

Definition opDebugField : string := "_txc_op_debug".
Definition extractOpDebug (raw : D) : D :=
  if negb (d_contains raw opDebugField) then raw
  else match d_get raw opDebugField with
       | None => raw
       | Some _ => match d_delete raw opDebugField with Some stripped => stripped | None => raw end
       end.

(** The payload types that reach a merge; any other leaves the output as it was. *)
Inductive PayloadType := Null | JSON | OtherType.

Variable err_text : string -> FuncErr -> string.

(** [finishOutput] on an op whose view of the envelope is [view]. *)
Definition finishOutput (tenant transport : string) (view out0 raw : D) (ty : PayloadType)
    (emit : option Set_) : D :=
  let raw := extractOpDebug raw in
  let out :=
    match ty with
    | JSON => if transportAuthorControlled transport then sanitizeAuthorOutputFor transport raw else raw
    | Null => d_braces
    | OtherType => out0
    end in
  match emit with
  | None => out
  | Some s =>
      match OverlayResponseFor tenant view out (Overrides s) with
      | (_, Some (path, err)) => d_fail (err_text path err)
      | (out, None) => out
      end
  end.
End Clauses.

(** ** Selection *)

Section Selection.
Context {R Err : Type} (parse : string -> R + Err) (WhenMatches : R -> bool) (Priority : R -> Z).

Lemma highest_ge l h : (h <= foldl (fun h o => if h <? Priority (snd o) then Priority (snd o) else h) h l)%Z /\
  Forall (fun o : Operation R * R => (Priority (snd o) <= foldl (fun h o => if h <? Priority (snd o) then Priority (snd o) else h) h l)%Z) l.
Proof.
  revert h; induction l as [|o l IH]; intros h; cbn [foldl]; [split; [lia|constructor]|].
  destruct (IH (if (h <? Priority (snd o))%Z then Priority (snd o) else h)) as [H1 H2].
  destruct (Z.ltb_spec h (Priority (snd o))); split; try lia; constructor; try done; lia.
Qed.

Lemma highest_attained l h : let m := foldl (fun h (o : Operation R * R) => if (h <? Priority (snd o))%Z then Priority (snd o) else h) h l in
  m = h \/ exists o, o ∈ l /\ Priority (snd o) = m.
Proof.
  revert h; induction l as [|o l IH]; intros h; cbn [foldl]; [by left|].
  destruct (IH (if (h <? Priority (snd o))%Z then Priority (snd o) else h)) as [E|(o' & Ho & E)].
  - destruct (Z.ltb_spec h (Priority (snd o))); [right; exists o; rewrite elem_of_cons; split; [auto|by rewrite E]|by left].
  - right. exists o'. rewrite elem_of_cons. auto.
Qed.

(** The ops that match, with their rules, in the order of the scope. *)
Definition matched (l : list (Operation R * R)) (ops : list (Operation R)) : Prop :=
  exists all, Forall2 (fun op p => fst p = op /\
      match op_Resonator op with Some r => snd p = r | None => parse (op_Txcl op) = inl (snd p) end) ops all /\
    l = List.filter (fun p => WhenMatches (snd p)) all.

Lemma matching_spec ops l : matching parse WhenMatches ops = inl l -> matched l ops.
Proof.
  revert l; induction ops as [|op ops IH]; intros l H; cbn [matching] in H; [simplify_eq; by exists []|].
  destruct (match op_Resonator op with Some r => inl r | None => parse (op_Txcl op) end) as [r|e] eqn:Er; [|done].
  destruct (matching parse WhenMatches ops) as [l'|]; [|done]. simplify_eq.
  destruct (IH l' eq_refl) as (all & Hall & ->). exists ((op, r) :: all). split; [|done].
  constructor; [|done]. split; [done|]. by destruct (op_Resonator op); simplify_eq.
Qed.

(** what a scope runs.  With the rules parsed, [ResonatingOps] keeps the ops
    whose WHEN matches, in order, all of them when none has a positive
    priority; otherwise exactly one, of the highest priority among the matches,
    and the first of those when no hash seed is given. *)
Theorem choose_spec hashSeed ops chosen :
  choose parse WhenMatches Priority hashSeed ops = inl chosen ->
  exists l, matched l ops /\
    ((Forall (fun o => (Priority (snd o) <= 0)%Z) l /\ chosen = l) \/
     exists o, chosen = [o] /\ o ∈ l /\ (0 < Priority (snd o))%Z /\
       Forall (fun o' => (Priority (snd o') <= Priority (snd o))%Z) l /\
       (hashSeed = "" -> exists before after, l = before ++ o :: after /\
          Forall (fun o' => (Priority (snd o') < Priority (snd o))%Z) before)).
Proof.
  unfold choose. destruct (matching parse WhenMatches ops) as [l|] eqn:Em; [|done].
  intros [= <-]. exists l. split; [by apply matching_spec|].
  destruct (highest_ge l 0) as [Hge Hall]. pose proof (highest_attained l 0) as Hat. cbn zeta in Hat.
  fold (highestPriority Priority l) in *. set (h := highestPriority Priority l) in *.
  destruct (Z.eqb_spec h 0) as [E|E]; [left; rewrite E in Hall; done|]. right.
  destruct Hat as [|(o0 & Ho0 & Eh)]; [done|].
  destruct l as [|a l']; [by apply not_elem_of_nil in Ho0|]. set (l := a :: l') in *. unfold pick_priority.
  assert (Htop : forall o, o ∈ List.filter (fun o => (Priority (snd o) =? h)%Z) l -> o ∈ l /\ Priority (snd o) = h).
  { intros o Ho%list_elem_of_In. apply List.filter_In in Ho as [Ho Hp]. by rewrite list_elem_of_In, <- Z.eqb_eq. }
  destruct (List.filter (fun o => (Priority (snd o) =? h)%Z) l) as [|o top] eqn:Et.
  { assert (Hin : List.In o0 (List.filter (fun o => (Priority (snd o) =? h)%Z) l)).
    { apply List.filter_In. rewrite <- list_elem_of_In, Z.eqb_eq. done. }
    by rewrite Et in Hin. }
  set (pick := (1 <? length (o :: top))%nat && negb (hashSeed =s "")).
  exists (if pick then default o ((o :: top) !! Z.to_nat (fnv32a hashSeed mod Z.of_nat (length (o :: top)))) else o).
  split; [by destruct pick|].
  match goal with |- ?x ∈ l /\ _ => assert (Hx : x ∈ o :: top); [|set (c := x) in *] end.
  { destruct pick; [|apply elem_of_cons; auto].
    destruct ((o :: top) !! _) as [y|] eqn:Ey; cbn [default]; [by eapply list_elem_of_lookup_2|apply elem_of_cons; auto]. }
  destruct (Htop c Hx) as [Hc Ec]. split; [done|]. split; [lia|]. split; [by rewrite Ec|].
  intros ->. assert (c = o) as -> by (subst c pick; by rewrite andb_false_r). clear -Et Hall Ec.
  clearbody h. revert Et Hall. induction l as [|x l IH]; intros Et Hall; cbn [List.filter] in Et; [done|].
  destruct (Z.eqb_spec (Priority (snd x)) h) as [Ex|Ex].
  - simplify_eq. exists [], l. done.
  - destruct (IH Et (Forall_inv_tail Hall)) as (bef & aft & -> & Hb). exists (x :: bef), aft. split; [done|].
    constructor; [|done]. apply Forall_inv in Hall. lia.
Qed.
End Selection.

Definition demo_op (n : string) (p : Z) : Operation Z := mkOp "www" 10 n n "" (Some p).

Lemma choose_spec_witness :
  let ops := [demo_op "a" 0; demo_op "b" 5; demo_op "c" 5] in
  choose (Err := unit) (fun _ => inr tt) (fun _ => true) id "" ops = inl [(demo_op "b" 5, 5%Z)] /\
  exists l, matched (Err := unit) (fun _ => inr tt) (fun _ => true) l ops.
Proof.
  split; [reflexivity|].
  destruct (choose_spec (Err := unit) (fun _ => inr tt) (fun _ => true) id ""
              [demo_op "a" 0; demo_op "b" 5; demo_op "c" 5] [(demo_op "b" 5, 5%Z)] eq_refl) as (l & Hl & _).
  exists l. exact Hl.
Defined.

(** ** EMIT and the reserved fields *)

(** What is relied on of the writers: a write changes only what its keys and
    theirs share; the constant documents have no [_txc]. *)
Class DocEnvLaws (D : Type) `{Docs D} `{!DocLaws D} `{!DocEnv D} := {
  bset_apart d p v d' ks ks' :
    PathKeys p = Some ks -> d_bset d p v = Some d' -> apart ks ks' -> Forall (fun k => not_index k = true) ks' ->
    field d' ks' = field d ks';
  set_apart d p v d' ks ks' :
    PathKeys p = Some ks -> d_set d p v = Some d' -> apart ks ks' -> Forall (fun k => not_index k = true) ks' ->
    field d' ks' = field d ks';
  single_delete d k k' d' : single d k -> d_delete d k' = Some d' -> single d' k;
  braces_field ks : field d_braces ("_txc" :: ks) = None;
  fail_field m ks : field (d_fail m) ("_txc" :: ks) = None }.

Section Emit.
Context {D : Type} `{!Docs D} `{!DocLaws D} `{!DocEnv D} `{!DocEnvLaws D} `{!Funcs}.

(** The keys [sub] below [_txc] part from every path of [l]: they are neither on
    the way to one nor at or below one. *)
Definition outside (l : list string) (sub : list string) : Prop := Forall (fun p => apart (Split p ".") sub) l.

Lemma apart_app ks r ks' : apart ks ks' -> apart (ks ++ r) ks'.
Proof. intros (pre & a & c & t & t' & -> & -> & Hne). exists pre, a, c, (t ++ r), t'. by rewrite <- app_assoc. Qed.

(** A path the guard accepts parts from a reserved one. *)
Lemma touch_apart path lists sub :
  touch_spec path (List.map splitAll lists) = true -> outside (concat lists) sub ->
  exists pk, PathKeys path = Some pk /\ apart pk ("_txc" :: sub).
Proof.
  unfold touch_spec. destruct (PathKeys path) as [[|a s]|]; [done| |done].
  intros Ht Ho. exists (a :: s). split; [done|].
  destruct (String.eqb_spec a "_txc") as [->|Hne]; [|by apply apart_head]. apply apart_cons.
  apply under_iff in Ht as (l & want & rest & Hl & Hw & ->).
  apply in_map_iff in Hl as (l0 & <- & Hl0). apply in_map_iff in Hw as (p & <- & Hp).
  apply apart_app. unfold outside in Ho. rewrite Forall_forall in Ho. apply Ho. apply list_elem_of_In, in_concat. eauto.
Qed.

Lemma author_apart path sub :
  AuthorMayWrite path = true -> outside authorWritable sub -> exists pk, PathKeys path = Some pk /\ apart pk ("_txc" :: sub).
Proof.
  unfold AuthorMayWrite. rewrite mayTouch_spec. intros Ht Hk. apply (touch_apart path [authorWritable]); [done|].
  cbn [concat]. by rewrite app_nil_r.
Qed.

Lemma system_apart path sub :
  SystemMayWrite path = true -> outside systemWritable sub -> exists pk, PathKeys path = Some pk /\ apart pk ("_txc" :: sub).
Proof.
  unfold SystemMayWrite, txcSubKeys. intros Ht Ho. apply (touch_apart path [systemWritable]); [|cbn [concat]; by rewrite app_nil_r].
  unfold touch_spec. destruct (PathKeys path) as [[|a s]|]; [done| |done]. destruct (a =s "_txc"); done.
Qed.

(** What the EMIT of a rule may write: the author's paths, the budget ([_txc.ttl],
    which it can only lower), and for rules of the system tenant [_txc.route]. *)
Definition emit_paths (sys : bool) : list string := authorWritable ++ "ttl" :: (if sys then systemWritable else []).

Lemma overlay_write_kept env sys output branch val sub :
  outside (emit_paths sys) sub -> Forall (fun k => not_index k = true) sub ->
  field (overlay_write env sys output branch val) ("_txc" :: sub) = field output ("_txc" :: sub).
Proof.
  unfold emit_paths. intros [Hk [Httl Hsys]%Forall_cons]%Forall_app Hni.
  assert (Hni' : Forall (fun k => not_index k = true) ("_txc" :: sub)) by (constructor; done).
  unfold overlay_write. destruct (String.eqb_spec branch "_txc.ttl") as [->|_].
  { destruct (requested_ttl val); [|done]. destruct (d_set output "_txc.ttl" _) as [d|] eqn:E; [|done].
    apply (set_apart output "_txc.ttl" _ d ["_txc"; "ttl"] _ eq_refl E); [|done]. by apply apart_cons. }
  assert (Hset : forall pk, PathKeys branch = Some pk -> apart pk ("_txc" :: sub) ->
    field (match d_bset output branch val with Some altered => altered | None => output end) ("_txc" :: sub) = field output ("_txc" :: sub)).
  { intros pk Hpk Ha. destruct (d_bset output branch val) as [d|] eqn:E; [|done].
    by apply (bset_apart _ _ _ _ pk _ Hpk E). }
  destruct (sys && SystemMayWrite branch) eqn:Es.
  - apply andb_true_iff in Es as [-> Hsm]. destruct (system_apart branch sub Hsm Hsys) as (pk & Hpk & Ha). eauto.
  - destruct (AuthorMayWrite branch) eqn:Ea; cbn [negb]; [|done].
    destruct (author_apart branch sub Ea Hk) as (pk & Hpk & Ha). eauto.
Qed.

Lemma overlay_loop_kept renv env sys ovs sub :
  outside (emit_paths sys) sub -> Forall (fun k => not_index k = true) sub -> forall output,
  field (fst (overlay_loop renv env sys output ovs)) ("_txc" :: sub) = field output ("_txc" :: sub).
Proof.
  intros Hk Hni. induction ovs as [|ov ovs IH]; intros output; [done|]. cbn [overlay_loop].
  destruct (Resolve (bv_Value ov) renv); [|done]. rewrite IH. by apply overlay_write_kept.
Qed.

Lemma extractOpDebug_single raw k : single raw k -> single (extractOpDebug raw) k.
Proof.
  intros Hs. unfold extractOpDebug. destruct (d_contains raw _); cbn [negb]; [|done].
  destruct (d_get raw _); [|done]. destruct (d_delete raw _) as [d|] eqn:E; [|done]. by eapply single_delete.
Qed.

(** What the answer itself may carry. *)
Definition answer_paths (transport : string) : list string := authorWritable ++ (if transport =s "workspace" then workspaceWritable else []).

Lemma sanitized_guarded transport raw sub :
  single raw "_txc" -> outside (answer_paths transport) sub -> field (sanitizeAuthorOutputFor transport raw) ("_txc" :: sub) = None.
Proof.
  unfold sanitizeAuthorOutputFor, sanitizeAuthorOutput, answer_paths. intros Hs Ho.
  destruct (transport =s "workspace"); (apply project_gone; [repeat constructor|done|]); cbn [concat] in *; rewrite ?app_nil_r in *; done.
Qed.

Lemma overlayResponse_guarded env output ovs sys sub :
  outside (emit_paths sys) sub -> Forall (fun k => not_index k = true) sub ->
  field output ("_txc" :: sub) = None ->
  field (fst (overlayResponse env output ovs sys)) ("_txc" :: sub) = None.
Proof.
  intros Hu Hni Hf. unfold overlayResponse. rewrite overlay_loop_kept by done.
  destruct (d_empty output); [apply braces_field|done].
Qed.
End Emit.

(** All that an untrusted op and its rule may write below [_txc]. *)
Definition writable_paths (tenant transport : string) : list string :=
  answer_paths transport ++ emit_paths (tenant =s SystemTenantSlug).

(** C27: an untrusted op cannot speak for the chassis.  Whatever an op of an
    author-controlled transport answers, whatever its rule EMITs, and also when a
    value of the EMIT fails to resolve, what the op contributes to the merge holds
    nothing at any place below [_txc] that is neither at, below nor on the way to
    a path it may write: the author-writable ones, the budget [ttl] (which EMIT
    can only lower), for a workspace its own [workspace], and for rules of the
    system tenant [route].  The op's output is empty before it answers, the answer
    has at most one [_txc] member, and the place is named by keys gjson does not
    take for indices. *)
Theorem untrusted_output_guarded {D} `{!Docs D} `{!DocLaws D} `{!DocEnv D} `{!DocEnvLaws D} `{!Funcs}
    err_text tenant transport (view out0 raw : D) ty emit sub :
  transportAuthorControlled transport = true -> single raw "_txc" -> d_empty out0 = true ->
  outside (writable_paths tenant transport) sub -> Forall (fun k => not_index k = true) sub ->
  field (finishOutput err_text tenant transport view out0 raw ty emit) ("_txc" :: sub) = None.
Proof.
  intros Ht Hs H0 [Ha He]%Forall_app Hni. unfold finishOutput. rewrite Ht.
  set (out := match ty with JSON => _ | Null => _ | OtherType => _ end).
  assert (Hout : field out ("_txc" :: sub) = None).
  { subst out. destruct ty; [apply braces_field| |by apply empty_field].
    apply sanitized_guarded; [by apply extractOpDebug_single|done]. }
  destruct emit as [s|]; [|done]. unfold OverlayResponseFor.
  pose proof (overlayResponse_guarded view out (Overrides s) (tenant =s SystemTenantSlug) sub He) as Hg.
  destruct (overlayResponse view out (Overrides s) _) as [o [[path err]|]]; [apply fail_field|].
  by apply Hg.
Qed.

(** The fields the chassis speaks through are such places, and so is everything
    below them, for every tenant and transport. *)
Definition guarded_keys : list string :=
  ["tenant"; "fuel_used"; "_seen"; "rid"; "src"; "runtime"; "principal"; "allowance"; "computed"; "chat"].

Lemma heads_outside l k ks : forallb (fun p => negb (default "" (head (Split p ".")) =s k)) l = true -> outside l (k :: ks).
Proof. intros H. pose proof (heads_apart [l] k ks) as Hh. cbn [concat] in Hh. rewrite app_nil_r in Hh. by apply Hh. Qed.

Lemma guarded_outside tenant transport k ks : k ∈ guarded_keys -> outside (writable_paths tenant transport) (k :: ks).
Proof.
  intros Hk. apply heads_outside, forallb_forall. intros p Hp.
  assert (Hb : forallb (fun k => forallb (fun p => negb (default "" (head (Split p ".")) =s k))
    (authorWritable ++ "workspace" :: "ttl" :: "route" :: [])) guarded_keys = true) by reflexivity.
  rewrite forallb_forall in Hb. apply list_elem_of_In in Hk. specialize (Hb k Hk). rewrite forallb_forall in Hb. apply Hb.
  revert Hp. unfold writable_paths, answer_paths, emit_paths. rewrite !in_app_iff. cbn [In].
  destruct (transport =s "workspace"), (tenant =s SystemTenantSlug); cbn [In workspaceWritable systemWritable]; tauto.
Qed.

(** The member trees of [Sanitize], with scalar values. *)
Definition any_raw (v : any) : option string :=
  match v with
  | ANil => Some "null"
  | AString s => Some (AppendStringify "" s)
  | ABool x => Some (if x then "true" else "false")
  | AInt64 z | AInt z => Some (Itoa z)
  | _ => None
  end.

Definition tree_set (d : node) (p : string) (v : any) : option node :=
  match any_raw v, splitPath p with Some r, Some segs => set_node no_sjson r d segs | _, _ => None end.

#[export] Instance tree_DocEnv : DocEnv node := {
  d_env d p := match splitPath p with
               | Some segs => (fun n => AString (text n)) <$> get d segs
               | None => None
               end;
  d_exists d p := match d_get d p with Some _ => true | None => false end;
  d_bset := tree_set;
  d_set := tree_set;
  d_budget _ := mkEnv None None None None;
  d_contains _ _ := true;
  d_blank := NRaw "";
  d_braces := NObj [];
  d_fail m := NObj [mkEntry "error" (NObj [mkEntry "message" (NRaw (AppendStringify "" m))])] }.

Lemma tree_set_apart d p v d' ks ks' :
  PathKeys p = Some ks -> tree_set d p v = Some d' -> apart ks ks' -> Forall (fun k => not_index k = true) ks' ->
  field d' ks' = field d ks'.
Proof.
  unfold tree_set, PathKeys. intros Hp Hs (pre & a & c & t & t' & -> & -> & Hne) Hni.
  destruct (any_raw v) as [r|]; [|done]. destruct (splitPath p) as [segs|]; [|done]. injection Hp as Hp.
  cbn [field tree_DocLaws]. f_equal. by eapply set_apart_any.
Qed.

#[export] Instance tree_DocEnvLaws : DocEnvLaws node.
Proof.
  split.
  - intros; by eapply tree_set_apart.
  - intros; by eapply tree_set_apart.
  - intros d k k' d' Hs Hd. cbn [d_delete tree_Docs] in Hd. destruct d as [|l|]; simplify_eq.
    cbn [single tree_DocLaws] in *. unfold count_key in *. etransitivity; [|exact Hs]. clear Hs.
    induction l as [|e l IH]; [done|]. cbn [remove_first List.filter].
    destruct (key e =s k') eqn:E1; [destruct (key e =s k); cbn [length]; lia|].
    cbn [List.filter]. destruct (key e =s k); cbn [length]; lia.
  - done.
  - done.
Qed.

Lemma untrusted_output_guarded_witness :
  field (finishOutput (H := fun _ => None) (fun _ _ => "") "acme" "http" demo_answer (NRaw "")
           demo_answer JSON (Some (mkSet [mkBranchValue "._txc.tenant" (Some (Literal (AString "evil")));
                                          mkBranchValue "._txc.web.res.status" (Some (Literal (AInt64 200)))])))
    ["_txc"; "tenant"] = None.
Proof.
  apply (untrusted_output_guarded (H := fun _ => None) (fun _ _ => "") "acme" "http" demo_answer (NRaw "") demo_answer JSON).
  - reflexivity.
  - apply le_n.
  - reflexivity.
  - apply guarded_outside, elem_of_cons. left. reflexivity.
  - repeat constructor.
Defined.
