(* ===== verification/RepeatLoop.v ===== *)
(** * The LOOP clause at run time (chassis/processor/loop.go)

    A looping op dispatches its EXEC again and again inside one scope until its
    predicate holds or a budget runs out, and hands the scope one payload.  What
    happens outside the loop (timers, the context, the transports, fuel charged
    by others) is a world [W] that every observation may change.  Documents are
    those of [OpClauses]. *)

From Stdlib Require Import Ascii String ZArith Lia Bool.
From stdpp Require Import base tactics list strings gmap.
From S2P Require Import Prelude GoStrings GoStrconv Token Lexer Ast Runtime Opname Resonator JsonxPath Txcguard Budget OpsIndex Builder Sanitize OpClauses.

Open Scope Z_scope.

Definition loopDefaultMax : Z := 10.
Definition loopDefaultEvery : Z := 50 * Millisecond.
Definition loopMinEvery : Z := 2 * Millisecond.

Inductive stopReason := StopDone | StopMax | StopFuel | StopTimeout | StopAborted | StopHalted | StopError.

(** ** Admission *)

(** [outlet.ParseRef]'s verdict on an [outlet://] target is a parameter: the
    operation it names, [None] on an error. *)
Section Admit.
Variable outlet_op : string -> option string.

Definition loop_schemes : list string :=
  ["txco://"; "http://"; "https://"; "mcp+http://"; "mcp+https://"; "workspace://"; "call://"].

Definition loopTransportAdmitted (exec : string) : bool :=
  if HasPrefix exec "outlet://" then
    match outlet_op exec with Some op => op =s "query" | None => false end
  else existsb (HasPrefix exec) loop_schemes.

(** The passes an op may run; [mode] is [gjson.Get(op.Meta, "mode")], [ceiling]
    the operator's [op-loop-max]. *)
Definition loopAdmit (exec mode : string) (loop : Loop) (ceiling : Z) : option Z :=
  if negb (loopTransportAdmitted exec) then None
  else if (mode =s "async") || (mode =s "continuable") then None
  else
    let max := if Max loop <=? 0 then loopDefaultMax else Max loop in
    if (0 <? ceiling) && (ceiling <? max) then None else Some max.
End Admit.

Definition async_schemes : list string := ["http://"; "https://"; "mcp+http://"; "mcp+https://"].
Definition isAsyncOp (res : option Resonator) (mode : string) : bool :=
  match res with
  | None => false
  | Some r => (mode =s "async") && existsb (HasPrefix (r_Exec r)) async_schemes
  end.
Definition isLocalAsyncOp (res : option Resonator) (mode : string) : bool :=
  isAsyncOp res mode &&
  match res with None => false | Some r => existsb (HasPrefix (r_Exec r)) ["mcp+http://"; "mcp+https://"] end.
Definition isContinuableOp (res : option Resonator) (mode : string) : bool :=
  match res with None => false | Some _ => mode =s "continuable" end.

(** The ops of a scope with their resolved modes. *)
Definition dropLoopsOutsideRequest (ops : list (option Resonator * string)) : list (option Resonator * string) :=
  List.filter (fun '(res, mode) =>
    match res with
    | None => true
    | Some r => match r_Loop r with
                | None => true
                | Some _ => negb (isAsyncOp res mode) && negb (isContinuableOp res mode)
                end
    end) ops.

(** ** sjsonKey *)

Definition sjson_meta (c : ascii) : bool :=
  (c =c BS) || (c =c ".") || (c =c "*") || (c =c "?") || (c =c "|") || (c =c "#") || (c =c "@") || (c =c ":").
(** Runes are copied whole; every escaped character is one ASCII byte.  Bytes
    that start no rune come out as U+FFFD, which op names never have. *)
Definition sjsonKey (nm : string) : string :=
  String ":" (sflat (fun c => if sjson_meta c then String BS (String c EmptyString) else String c EmptyString) nm).

Definition book_path (nm : string) : string := ("_txc.runtime.loop." ++ sjsonKey nm)%string.

(** ** The loop *)

Section Run.
Context {D W M Payload : Type} `{!Docs D} `{!DocEnv D} `{!Funcs}.

(** The op of one pass: what the transport is handed. *)
Record LoopOp := mkLoopOp { lo_Input : D; lo_FullInput : D; lo_Meta : M }.

(** What the loop asks of its surroundings.  [pause] is true when the timer
    fired and false when the context ended first. *)
Record Surroundings := mkSurroundings {
  pause : Z -> W -> bool * W;
  halted : W -> bool * W;
  aborted : W -> bool * W;
  ctx_ended : W -> bool * W;
  dispatch : LoopOp -> W -> (Payload + string) * W;
  finish : LoopOp -> Payload -> W -> D * W;
  fuel_exceeded : W -> bool * W;
  matches : D -> bool;
  merge : D -> D -> option D;
  is_braces : D -> bool;
  resolve_with : D -> M + string;
  err_text : string -> FuncErr -> string }.

Variable S : Surroundings.
Variable loop : Loop.
Variable max : Z.

Definition every : Z :=
  let e := if Every loop =? 0 then loopDefaultEvery else Every loop in
  if e <? loopMinEvery then loopMinEvery else e.

(** Why the loop's context ended: a sibling's halt wins over the deadline. *)
Definition cut (w : W) : stopReason * W :=
  match halted S w with
  | (true, w) => (StopHalted, w)
  | (false, w) => match aborted S w with (true, w) => (StopAborted, w) | (false, w) => (StopTimeout, w) end
  end.

Record LoopState := mkLoopState {
  ls_view : D; ls_acc : D; ls_input : D; ls_full : D; ls_meta : M; ls_passes : Z; ls_world : W }.

Definition stopped : Type := stopReason * string.

(** The LOOP SET assignments, each resolved against the view the ones before it
    have written. *)
Fixpoint loop_set (ovs : list BranchValue) (view inp : D) : (D * D) + string :=
  match ovs with
  | [] => inl (view, inp)
  | bv :: ovs =>
      let path := TrimPrefix (bv_Path bv) "." in
      match Resolve (bv_Value bv) (d_env view) with
      | inr err => inr (err_text S (bv_Path bv) err)
      | inl val =>
          if negb (AuthorMayWrite path) then loop_set ovs view inp
          else loop_set ovs (match d_bset view path val with Some v => v | None => view end)
                 (match d_bset inp path val with Some i => i | None => inp end)
      end
  end.

(** Between passes: pause, SET, WITH. *)
Definition prepare (baseInput : D) (ls : LoopState) : LoopState + (LoopState * stopped) :=
  let '(fired, w) := pause S every (ls_world ls) in
  let at_ w := mkLoopState (ls_view ls) (ls_acc ls) (ls_input ls) (ls_full ls) (ls_meta ls) (ls_passes ls) w in
  if negb fired then let '(r, w) := cut w in inr (at_ w, (r, ""%string))
  else
    match (match l_Set loop with
           | [] => inl (ls_view ls, ls_input ls)
           | ovs => loop_set ovs (ls_view ls) baseInput
           end) with
    | inr e => inr (at_ w, (StopError, e))
    | inl (view, inp) =>
        match resolve_with S view with
        | inr e => inr (mkLoopState view (ls_acc ls) inp (ls_full ls) (ls_meta ls) (ls_passes ls) w, (StopError, e))
        | inl meta => inl (mkLoopState view (ls_acc ls) inp (ls_full ls) meta (ls_passes ls) w)
        end
    end.

Definition merged (doc out : D) : D :=
  if d_empty out || is_braces S out then doc
  else match merge S doc out with Some d => d | None => doc end.

(** Dispatch, merge, and the checks in their order.  From then on the op's full
    view is the one this pass ran in, before its own output merged. *)
Definition one_pass (pass : Z) (ls : LoopState) : LoopState * option stopped :=
  let '(r, w) := dispatch S (mkLoopOp (ls_input ls) (ls_full ls) (ls_meta ls)) (ls_world ls) in
  let passes := ls_passes ls + 1 in
  match r with
  | inr e =>
      let '(ended, w) := ctx_ended S w in
      let '(st, w) := if ended : bool then let '(c, w) := cut w in ((c, ""%string), w) else ((StopError, e), w) in
      (mkLoopState (ls_view ls) (ls_acc ls) (ls_input ls) (ls_full ls) (ls_meta ls) passes w, Some st)
  | inl payload =>
      let '(out, w) := finish S (mkLoopOp (ls_input ls) (ls_view ls) (ls_meta ls)) payload w in
      let view := merged (ls_view ls) out in
      let at_ w := mkLoopState view (merged (ls_acc ls) out) (ls_input ls) (ls_view ls) (ls_meta ls) passes w in
      let '(fuel, w) := fuel_exceeded S w in
      if fuel : bool then (at_ w, Some (StopFuel, ""%string))
      else
        let '(ended, w) := ctx_ended S w in
        if ended : bool then let '(c, w) := cut w in (at_ w, Some (c, ""%string))
        else if matches S view then (at_ w, Some (StopDone, ""%string))
        else if max <=? pass then (at_ w, Some (StopMax, ""%string))
        else (at_ w, None)
  end.

(** The loop; [None] when it has used up its turns. *)
Fixpoint passes_loop (n : nat) (baseInput : D) (pass : Z) (ls : LoopState) : option (LoopState * stopped) :=
  match n with
  | O => None
  | Datatypes.S n =>
      match (if 1 <? pass then prepare baseInput ls else inl ls) with
      | inr res => Some res
      | inl ls =>
          match one_pass pass ls with
          | (ls, Some st) => Some (ls, st)
          | (ls, None) => passes_loop n baseInput (pass + 1) ls
          end
      end
  end.

(** [EnvelopeView]. *)
Definition EnvelopeView (op : LoopOp) : D := if d_empty (lo_FullInput op) then lo_Input op else lo_FullInput op.

Variable write_book : D -> string -> Z -> stopReason -> string -> option D.

(** The op after the loop: its input and full view as they were, its output the
    accumulator with the bookkeeping; [(output, passes, stop, error)]. *)
Definition runLoop (nm : string) (op : LoopOp) (w : W) : option (LoopOp * D * Z * stopped * W) :=
  let start := mkLoopState (EnvelopeView op) d_braces (lo_Input op) (lo_FullInput op) (lo_Meta op) 0 w in
  match passes_loop (Z.to_nat max) (lo_Input op) 1 start with
  | None => None
  | Some (ls, (st, e)) =>
      let acc := match write_book (ls_acc ls) (book_path nm) (ls_passes ls) st e with
                 | Some a => a | None => ls_acc ls end in
      Some (mkLoopOp (lo_Input op) (lo_FullInput op) (ls_meta ls), acc, ls_passes ls, (st, e), ls_world ls)
  end.
End Run.
Arguments LoopOp : clear implicits.
Arguments Surroundings : clear implicits.

(** ** It ends, and what the reason means *)

Section Facts.
Context {D W M Payload : Type} `{!Docs D} `{!DocEnv D} `{!Funcs}.
Variables (S : Surroundings D W M Payload) (loop : Loop) (max : Z) (view0 : D).
Implicit Types ls : LoopState (D := D) (W := W) (M := M).

(** The documents merged so far, in order. *)
Definition merge_all (doc : D) (outs : list D) : D := foldl (merged S) doc outs.

(** [out] is the finished answer of a dispatch of the op. *)
Definition produced (out : D) : Prop :=
  exists lo lo' payload w w1 w2, dispatch S lo w = (inl payload, w1) /\ finish S lo' payload w1 = (out, w2) /\
    lo_Input lo' = lo_Input lo /\ lo_Meta lo' = lo_Meta lo.

(** The accumulator holds the outputs, and without LOOP SET the view holds them
    over the envelope the loop started from. *)
Definition holds_outs (outs : list D) ls : Prop :=
  Forall produced outs /\ ls_acc ls = merge_all d_braces outs /\ (l_Set loop = [] -> ls_view ls = merge_all view0 outs).

(** The state after a pass that went through. *)
Definition pass_inv (k : Z) (outs : list D) ls : Prop :=
  ls_passes ls = k /\ Z.of_nat (length outs) = k /\ holds_outs outs ls.

(** How the loop may end. *)
Definition end_ok ls (st : stopped) : Prop :=
  1 <= ls_passes ls <= max /\
  (exists outs, holds_outs outs ls /\ Z.of_nat (length outs) <= ls_passes ls <= Z.of_nat (length outs) + 1) /\
  match fst st with
  | StopDone => matches S (ls_view ls) = true /\ snd st = ""%string
  | StopMax => ls_passes ls = max /\ matches S (ls_view ls) = false /\ snd st = ""%string
  | StopError => True
  | StopFuel | StopTimeout | StopAborted | StopHalted => snd st = ""%string
  end.

Lemma cut_reason w r w' : cut S w = (r, w') -> r = StopHalted \/ r = StopAborted \/ r = StopTimeout.
Proof.
  unfold cut. destruct (halted S w) as [[] w1]; [intros [= <- <-]; auto|].
  destruct (aborted S w1) as [[] w2]; intros [= <- <-]; auto.
Qed.

(** Two reasons of a cut carry no text. *)
Lemma cut_end ls r : r = StopHalted \/ r = StopAborted \/ r = StopTimeout ->
  1 <= ls_passes ls <= max ->
  (exists outs, holds_outs outs ls /\ Z.of_nat (length outs) <= ls_passes ls <= Z.of_nat (length outs) + 1) ->
  end_ok ls (r, ""%string).
Proof. intros [->|[->| ->]] H1 H2; by repeat split; try lia. Qed.

Lemma end_other ls st outs :
  1 <= ls_passes ls <= max -> holds_outs outs ls ->
  Z.of_nat (length outs) <= ls_passes ls <= Z.of_nat (length outs) + 1 ->
  match fst st with
  | StopDone => matches S (ls_view ls) = true /\ snd st = ""%string
  | StopMax => ls_passes ls = max /\ matches S (ls_view ls) = false /\ snd st = ""%string
  | StopError => True
  | StopFuel | StopTimeout | StopAborted | StopHalted => snd st = ""%string
  end -> end_ok ls st.
Proof. intros H1 H2 H3 H4. split; [done|]. split; [eauto|done]. Qed.

Lemma prepare_spec base ls k outs : 1 <= k <= max -> pass_inv k outs ls ->
  match prepare S loop base ls with
  | inl ls' => pass_inv k outs ls'
  | inr (ls', st) => end_ok ls' st
  end.
Proof.
  intros Hk (Hp & Hl & Hpr & Ha & Hv). unfold prepare. destruct (pause S (every loop) (ls_world ls)) as [fired w].
  destruct fired; cbn [negb].
  - set (p := match l_Set loop with [] => _ | _ :: _ => _ end).
    assert (Hset : forall view inp, p = inl (view, inp) -> l_Set loop = [] -> view = ls_view ls).
    { intros view inp Ep E. subst p. rewrite E in Ep. by simplify_eq. }
    destruct p as [[view inp]|e]; [|apply (end_other _ _ outs); cbn; (done || lia)].
    specialize (Hset view inp eq_refl).
    assert (Hh : l_Set loop = [] -> view = merge_all view0 outs) by (intros E; rewrite Hset; auto).
    destruct (resolve_with S view) as [meta|e]; [done|]. apply (end_other _ _ outs); cbn; (done || lia).
  - destruct (cut S w) as [r w'] eqn:Ec. apply cut_end; cbn; [by eapply cut_reason|lia|].
    exists outs. split; [done|cbn; lia].
Qed.

Lemma one_pass_spec k ls outs : 0 <= k < max -> pass_inv k outs ls ->
  match one_pass S max (k + 1) ls with
  | (ls', None) => k + 1 < max /\ exists out, pass_inv (k + 1) (outs ++ [out]) ls'
  | (ls', Some st) => end_ok ls' st
  end.
Proof.
  intros Hk (Hp & Hl & Hpr & Ha & Hv). unfold one_pass.
  destruct (dispatch S _ (ls_world ls)) as [[payload|e] w] eqn:Ed.
  - destruct (finish S _ payload w) as [out w1] eqn:Efin.
    assert (Hpr' : Forall produced (outs ++ [out])).
    { apply Forall_app. split; [done|]. constructor; [|constructor].
      eexists _, _, _, _, _, _. by split; [exact Ed|]; split; [exact Efin|]. }
    assert (Hm : forall d0 d, d = merge_all d0 outs -> merged S d out = merge_all d0 (outs ++ [out])).
    { intros d0 d ->. unfold merge_all. by rewrite foldl_app. }
    assert (Hlen : Z.of_nat (length (outs ++ [out])) = k + 1) by (rewrite length_app; cbn; lia).
    destruct (fuel_exceeded S w1) as [[] w2];
      [apply (end_other _ _ (outs ++ [out])); cbn [ls_passes fst snd]; [lia|by repeat split; cbn; auto|lia|done]|].
    destruct (ctx_ended S w2) as [[] w3].
    + destruct (cut S w3) as [r w4] eqn:Ec. apply cut_end; cbn [ls_passes]; [by eapply cut_reason|lia|].
      exists (outs ++ [out]). split; [by repeat split; cbn; auto|cbn [ls_passes]; lia].
    + destruct (matches S (merged S (ls_view ls) out)) eqn:Em;
        [apply (end_other _ _ (outs ++ [out])); cbn [ls_passes fst snd]; [lia|by repeat split; cbn; auto|lia|done]|].
      destruct (Z.leb_spec max (k + 1));
        [apply (end_other _ _ (outs ++ [out])); cbn [ls_passes fst snd ls_view]; [lia|by repeat split; cbn; auto|lia|]|].
      * split; [lia|done].
      * split; [lia|]. exists out. split; [cbn; lia|]. split; [done|]. by repeat split; cbn; auto.
  - assert (Hh : exists o, holds_outs o (mkLoopState (ls_view ls) (ls_acc ls) (ls_input ls) (ls_full ls) (ls_meta ls) (ls_passes ls + 1) w) /\
              Z.of_nat (length o) <= ls_passes ls + 1 <= Z.of_nat (length o) + 1) by (exists outs; split; [done|lia]).
    destruct (ctx_ended S w) as [[] w1]; [|destruct Hh as (o & Ho & Hlo); apply (end_other _ _ o); cbn; (done || lia)].
    destruct (cut S w1) as [r w2] eqn:Ec. apply cut_end; cbn; [by eapply cut_reason|lia|done].
Qed.

Lemma passes_loop_spec base : forall n k outs ls,
  0 <= k < max -> Z.of_nat n = max - k -> pass_inv k outs ls ->
  exists ls' st, passes_loop S loop max n base (k + 1) ls = Some (ls', st) /\ end_ok ls' st.
Proof.
  induction n as [|n IH]; intros k outs ls Hk Hn Hinv; [lia|]. cbn [passes_loop].
  set (p := if 1 <? k + 1 then prepare S loop base ls else inl ls).
  assert (Hprep : match p with inl ls' => pass_inv k outs ls' | inr (ls', st) => end_ok ls' st end).
  { subst p. destruct (Z.ltb_spec 1 (k + 1)); [apply prepare_spec; [lia|done]|done]. }
  destruct p as [ls1|[ls1 st]]; [|eauto].
  pose proof (one_pass_spec k ls1 outs Hk Hprep) as Hpass.
  destruct (one_pass S max (k + 1) ls1) as [ls2 [st|]]; [eauto|].
  destruct Hpass as [Hlt (out & Hinv2)]. apply (IH (k + 1) (outs ++ [out])); [lia..|done].
Qed.
End Facts.

(** C28: a loop always ends, and says why.  For every number of passes it was
    admitted with, whatever the transports answer, it returns after between one
    and that many passes; its op has the input it had before, its output is
    the outputs of the passes merged in order with the bookkeeping on top;
    [done] means the predicate holds of the accumulated view (the envelope with
    those outputs merged, and the LOOP SET writes when there are any), [max]
    that all passes ran and it still does not; only an error carries a text. *)
Theorem runLoop_ends {D W M Payload} `{!Docs D} `{!DocEnv D} `{!Funcs}
    (S : Surroundings D W M Payload) loop max write_book nm op w :
  1 <= max ->
  exists ls stop e outs,
    passes_loop S loop max (Z.to_nat max) (lo_Input op) 1
      (mkLoopState (EnvelopeView op) d_braces (lo_Input op) (lo_FullInput op) (lo_Meta op) 0 w) = Some (ls, (stop, e)) /\
    runLoop S loop max write_book nm op w =
      Some (mkLoopOp (lo_Input op) (lo_FullInput op) (ls_meta ls),
            default (merge_all S d_braces outs)
              (write_book (merge_all S d_braces outs) (book_path nm) (ls_passes ls) stop e),
            ls_passes ls, (stop, e), ls_world ls) /\
    1 <= ls_passes ls <= max /\
    Forall (produced S) outs /\ Z.of_nat (length outs) <= ls_passes ls <= Z.of_nat (length outs) + 1 /\
    (l_Set loop = [] -> ls_view ls = merge_all S (EnvelopeView op) outs) /\
    (stop = StopDone -> matches S (ls_view ls) = true) /\
    (stop = StopMax -> ls_passes ls = max /\ matches S (ls_view ls) = false) /\
    (stop <> StopError -> e = ""%string).
Proof.
  intros Hmax. unfold runLoop.
  destruct (passes_loop_spec S loop max (EnvelopeView op) (lo_Input op) (Z.to_nat max) 0 []
              (mkLoopState (EnvelopeView op) d_braces (lo_Input op) (lo_FullInput op) (lo_Meta op) 0 w))
    as (ls & [st e] & E & Hb & (outs & (Hpr & Ha & Hv) & Hl) & Hm); [lia..|by repeat split|].
  change (0 + 1) with 1 in E. rewrite E. cbn [fst snd] in Hm. exists ls, st, e, outs. split; [done|].
  split; [rewrite Ha; by destruct (write_book _ _ _ _ _)|]. do 4 (split; [done|]). destruct st; naive_solver.
Qed.

(** ** Bookkeeping paths *)

Lemma sjsonKey_split nm :
  split_spec (sjsonKey nm) EmptyString false true = Some [mkSeg nm true].
Proof.
  unfold sjsonKey. cbn [split_spec andb]. change (":" =c ":") with true. cbv iota.
  enough (H : forall cur, split_spec (sflat (fun c => if sjson_meta c then String BS (String c EmptyString) else String c EmptyString) nm) cur true false =
             Some [mkSeg (cur ++ nm) true]) by exact (H EmptyString).
  induction nm as [|c nm IH]; intros cur; [cbn; by rewrite sapp_nil_r|]. cbn [sflat].
  destruct (sjson_meta c) eqn:Hc.
  - cbn [String.append split_spec andb]. change (BS =c BS) with true. cbv iota. rewrite IH.
    by rewrite <- sapp_assoc.
  - unfold sjson_meta in Hc. bool_to_prop. cbn [String.append split_spec andb].
    unfold is_wild. rewrite !(proj2 (Ascii.eqb_neq c _)) by done. cbn [orb]. rewrite IH. by rewrite <- sapp_assoc.
Qed.

(** The bookkeeping of a loop goes to a key of its own: whatever characters
    an op name holds, digits and sjson's metacharacters included, its path
    resolves to exactly the keys [_txc], [runtime], [loop] and the name, forced
    to be an object key. *)
Theorem book_path_keys nm :
  splitPath (book_path nm) =
  Some [mkSeg "_txc" false; mkSeg "runtime" false; mkSeg "loop" false; mkSeg nm true].
Proof.
  rewrite splitPath_spec. change (book_path nm =s "") with false. cbv iota.
  assert (E : forall cur, cur = EmptyString -> split_spec (book_path nm) cur false true =
    match split_spec (sjsonKey nm) EmptyString false true with
    | Some l => Some (mkSeg "_txc" false :: mkSeg "runtime" false :: mkSeg "loop" false :: l)
    | None => None
    end); [|rewrite E by done; by rewrite sjsonKey_split].
  intros cur ->. unfold book_path. cbn -[sjsonKey]. by destruct (split_spec (sjsonKey nm) "" false true).
Qed.

(** A poll that answers a counter and is done when the counter reaches two. *)
Definition demo_surroundings : Surroundings node nat unit nat := mkSurroundings
  (fun _ w => (true, w)) (fun w => (false, w)) (fun w => (false, w)) (fun w => (false, w))
  (fun _ w => (inl w, Datatypes.S w))
  (fun _ n w => (NObj [mkEntry "n" (NRaw (Itoa (Z.of_nat n)))], w))
  (fun w => (false, w))
  (fun d => match d with NObj [e] => match val e with NRaw r => r =s "2" | _ => false end | _ => false end)
  (fun _ out => Some out) (fun d => match d with NObj [] => true | _ => false end)
  (fun _ => inl tt) (fun _ _ => ""%string).
Definition demo_loop : Loop := mkLoop None 5 0 [].

Lemma runLoop_ends_witness :
  exists ls stop e outs,
    passes_loop (H := fun _ => None) demo_surroundings demo_loop 5 5 (NObj []) 1
      (mkLoopState (NObj []) d_braces (NObj []) (NRaw "") tt 0 O) = Some (ls, (stop, e)) /\
    stop = StopDone /\ ls_passes ls = 3 /\ Forall (produced demo_surroundings) outs.
Proof.
  destruct (runLoop_ends (H := fun _ => None) demo_surroundings demo_loop 5 (fun _ _ _ _ _ => None) "poll"
              (mkLoopOp (NObj []) (NRaw "") tt) O ltac:(lia)) as (ls & stop & e & outs & E & _ & _ & Hp & _).
  exists ls, stop, e, outs. split; [exact E|]. vm_compute in E. injection E as <- <- <-.
  split; [reflexivity|]. split; [reflexivity|exact Hp].
Defined.
