(* ===== verification/Policy.v ===== *)
(** * Capabilities (chassis/auth/policy, chassis/auth/context.go)

    Capability strings [domain:instance:action] with wildcards: the canonical
    form and the whitelist (capabilities.go), the matcher and the gates of the
    handlers (policy.go). *)

From Stdlib Require Import Ascii String ZArith Lia Bool Sorted.
From stdpp Require Import base tactics list strings sorting.
From S2P Require Import Prelude GoStrings.

(** ** capabilities.go *)

Definition KnownList : list string :=
  ["admin:all"; "*"; "*:*:*";
   "opstack:*:read"; "opstack:*:update"; "opstack:*:activate"; "opstack:*:*";
   "actor:*:read"; "actor:*:invite"; "actor:*:revoke"; "actor:*:*";
   "hostname:*:read"; "hostname:*:write"; "hostname:*:*";
   "secret:*:read"; "secret:*:write"; "secret:*:*";
   "dns:*:read"; "dns:*:write"; "dns:*:*";
   "notebook:*:read"; "notebook:*:write"; "notebook:*:*";
   "package:*:pull"; "package:*:push"; "package:*:*";
   "run:*:read"; "run:*:abort"; "run:*:*"].
Definition KnownCapabilities (c : string) : bool := existsb (String.eqb c) KnownList.

Inductive CapErr := EmptyCapability | UnknownCapability (raw : string).

Definition Canonical (cap : string) : string :=
  let cap := TrimSpace cap in
  if cap =s "" then ""
  else if (cap =s "admin:all") || (cap =s "*") then "*:*:*"
  else match Split cap ":" with
       | [x; y] => (x ++ ":*:" ++ y)%string
       | _ => cap
       end.

(** The first refusal, [None] for nil. *)
Fixpoint ValidateCapabilities (caps : list string) : option CapErr :=
  match caps with
  | [] => None
  | raw :: caps =>
      let c := Canonical raw in
      if c =s "" then Some EmptyCapability
      else if negb (KnownCapabilities c) then Some (UnknownCapability raw)
      else ValidateCapabilities caps
  end.

(** ** policy.go *)

Definition segs3 : Type := string * string * string.

Definition segments (cap : string) : segs3 :=
  let cap := TrimSpace cap in
  if cap =s "" then ("", "", "")
  else if (cap =s "admin:all") || (cap =s "*") then ("*", "*", "*")
  else match Split cap ":" with
       | [x; y] => (x, "*", y)
       | [x; y; z] => (x, y, z)
       | _ => ("", "", "")
       end.

Definition seg_match (g w : string) : bool := (g =s "*") || (g =s w).

Definition segs_match (g w : segs3) : bool :=
  let '(g0, g1, g2) := g in let '(w0, w1, w2) := w in
  seg_match g0 w0 && seg_match g1 w1 && seg_match g2 w2.

Definition matches (granted want : string) (wantSegs : segs3) : bool :=
  if granted =s "" then want =s "" else segs_match (segments granted) wantSegs.

Definition Covers (grants : list string) (want : string) : bool :=
  existsb (fun g => matches g want (segments want)) grants.

(** The first want that is not covered, [""] when all are. *)
Fixpoint CoversAll (grants wants : list string) : string :=
  match wants with
  | [] => ""
  | w :: wants => if negb (Covers grants w) then w else CoversAll grants wants
  end.

(** The loop of [ParseCapabilities]: [seen] is the map, [out] the result. *)
Fixpoint parse_loop (pieces seen out : list string) : list string + CapErr :=
  match pieces with
  | [] => inl out
  | raw :: pieces =>
      let c := Canonical raw in
      if c =s "" then parse_loop pieces seen out
      else if negb (KnownCapabilities c) then inr (UnknownCapability (TrimSpace raw))
      else if existsb (String.eqb c) seen then parse_loop pieces seen out
      else parse_loop pieces (c :: seen) (out ++ [c])
  end.

Definition ParseCapabilities (s : string) : list string + CapErr :=
  let s := TrimSpace s in
  if s =s "" then inl []
  else match parse_loop (Split s ",") [] [] with
       | inl out => inl (SortStrings out)
       | inr e => inr e
       end.

(** [auth.Context], as far as the gates read it. *)
Record AuthContext := mkAuth {
  au_Source : string; au_ActorID : string; au_SuperAdmin : bool; au_Capabilities : list string }.

Definition IsSigned (c : option AuthContext) : bool :=
  match c with Some c => au_Source c =s "signed" | None => false end.

(** The gates answer true for nil, false for [ErrCapabilityDenied]. *)
Definition RequireCapability (c : option AuthContext) (want : string) : bool :=
  match c with
  | None => false
  | Some c => au_SuperAdmin c || Covers (au_Capabilities c) want
  end.

Definition RequireSuperAdmin (c : option AuthContext) : bool :=
  match c with
  | None => false
  | Some c => au_SuperAdmin c || (au_Source c =s "basic") || (au_Source c =s "open")
  end.

Definition HasCapability (c : option AuthContext) (want : string) : bool := RequireCapability c want.

(** ** Canonical form *)

(** The pieces of a split, joined again. *)
Fixpoint joined (sep : ascii) (l : list string) : string :=
  match l with
  | [] => ""
  | [w] => w
  | w :: l => (w ++ String sep (joined sep l))%string
  end.

Lemma joined_Split s sep : joined sep (Split s sep) = s.
Proof.
  induction s as [|c s IH]; [done|]. cbn [Split]. destruct (Ascii.eqb_spec c sep) as [->|Hc].
  - cbn [joined]. destruct (Split s sep) eqn:E; [by apply Split_not_nil in E|].
    rewrite IH. done.
  - destruct (Split s sep) as [|w [|w' ws]] eqn:E; [by apply Split_not_nil in E| |];
      cbn [joined] in *; rewrite <- IH; done.
Qed.

Lemma Split_two s sep x y :
  Split s sep = [x; y] ->
  s = (x ++ String sep y)%string /\ Split y sep = [y] /\
  forall m z, Split m sep = [m] -> Split z sep = [z] ->
    Split (x ++ String sep (m ++ String sep z)) sep = [x; m; z].
Proof.
  intros E. pose proof (joined_Split s sep) as J. rewrite E in J. simpl in J.
  assert (Hseg : forall w, In w [x; y] -> sall (fun c => negb (c =c sep)) w = true)
    by (intros w Hw; rewrite <- E in Hw; by apply (Split_segments s)).
  split; [done|]. split; [apply Split_no_sep, Hseg; simpl; auto|].
  intros m z Hm Hz. rewrite Split_cons_sep by (apply Hseg; simpl; auto).
  rewrite Split_cons_sep, Hz; [done|]. apply (Split_segments m). rewrite Hm. by left.
Qed.

Lemma segments_canonical c : segments (Canonical c) = segments c.
Proof.
  unfold Canonical, segments at 2. set (t := TrimSpace c).
  assert (Ht : TrimSpace t = t) by apply TrimSpace_idem.
  assert (Htr : trimmed t) by apply TrimSpace_trimmed.
  clearbody t. destruct (t =s "") eqn:E0; [reflexivity|].
  destruct ((t =s "admin:all") || (t =s "*")) eqn:E1; [reflexivity|].
  assert (Hdef : segments t = match Split t ":" with
     | [x; y] => (x, "*", y) | [x; y; z] => (x, y, z) | _ => ("", "", "") end)
    by (unfold segments; by rewrite Ht, E0, E1).
  destruct (Split t ":") as [|x [|y [|z r]]] eqn:Es; try exact Hdef.
  clear Hdef. destruct (Split_two _ _ _ _ Es) as (-> & Hy & Hsplit).
  specialize (Hsplit "*" y ltac:(reflexivity) Hy).
  unfold segments. change (x ++ ":*:" ++ y)%string with (x ++ String ":" ("*" ++ String ":" y))%string.
  rewrite TrimSpace_id by (by apply trimmed_infix). rewrite Hsplit.
  destruct (String.eqb_spec (x ++ String ":" ("*" ++ String ":" y)) "") as [E|_]; [by destruct x|].
  destruct (String.eqb_spec (x ++ String ":" ("*" ++ String ":" y)) "admin:all") as [E|_];
    [rewrite E in Hsplit; done|].
  destruct (String.eqb_spec (x ++ String ":" ("*" ++ String ":" y)) "*") as [E|_];
    [rewrite E in Hsplit; done|]. done.
Qed.

(** Canonicalising a capability never changes what it grants or asks for:
    in the place of a grant and in the place of a want, a non-blank capability
    and its storage form match alike. *)
Theorem Canonical_matches g w :
  TrimSpace g <> "" ->
  matches (Canonical g) w (segments w) = matches g w (segments w) /\
  matches g (Canonical w) (segments (Canonical w)) = matches g w (segments w).
Proof.
  intros Hg.
  assert (H1 : g <> "") by (by intros ->).
  assert (H2 : Canonical g <> "").
  { unfold Canonical. apply String.eqb_neq in Hg. rewrite Hg. destruct (_ || _); [done|].
    apply String.eqb_neq in Hg. destruct (Split _ _) as [|x [|y [|? ?]]]; try done.
    by destruct x. }
  unfold matches. apply String.eqb_neq in H1, H2. rewrite H1, H2, !segments_canonical. done.
Qed.

Lemma Canonical_matches_witness :
  matches (Canonical " opstack:read ") "opstack:abc:read" (segments "opstack:abc:read") =
  matches " opstack:read " "opstack:abc:read" (segments "opstack:abc:read") /\
  Canonical " opstack:read " = "opstack:*:read" /\
  matches " opstack:read " "opstack:abc:read" (segments "opstack:abc:read") = true.
Proof.
  split; [|split; reflexivity].
  refine (proj1 (Canonical_matches " opstack:read " "opstack:abc:read" _)). discriminate.
Defined.

(** ** No escalation *)

Lemma seg_match_trans a x y : seg_match a x = true -> seg_match x y = true -> seg_match a y = true.
Proof.
  unfold seg_match. rewrite !orb_true_iff, !String.eqb_eq. intros [-> | ->]; auto.
Qed.

Lemma matches_trans g w x :
  matches g w (segments w) = true -> matches w x (segments x) = true ->
  matches g x (segments x) = true.
Proof.
  unfold matches. destruct (String.eqb_spec g "") as [->|Hg].
  - intros ->%String.eqb_eq. done.
  - destruct (String.eqb_spec w "") as [->|Hw].
    + intros H ->%String.eqb_eq. done.
    + unfold segs_match. destruct (segments g) as [[g0 g1] g2].
      destruct (segments w) as [[w0 w1] w2]. destruct (segments x) as [[x0 x1] x2].
      intros H1 H2. bool_to_prop.
      rewrite !andb_true_iff. repeat split; eapply seg_match_trans; eauto.
Qed.

Lemma Covers_trans grants wants x :
  (forall w, In w wants -> Covers grants w = true) ->
  Covers wants x = true -> Covers grants x = true.
Proof.
  unfold Covers. intros Hall. rewrite !existsb_exists. intros (w & Hin & Hm).
  specialize (Hall w Hin). apply existsb_exists in Hall as (g & Hg & Hgw).
  exists g. split; [done|]. by eapply matches_trans.
Qed.

Lemma CoversAll_all grants wants :
  ~ In "" wants -> CoversAll grants wants = "" -> forall w, In w wants -> Covers grants w = true.
Proof.
  induction wants as [|v wants IH]; simpl; [done|]. intros Hn.
  destruct (Covers grants v) eqn:E; simpl; [|tauto].
  intros Hc w [<-|Hw]; [done|]. apply IH; tauto.
Qed.

(** ** Parsing a list *)

Lemma existsb_eqb_In c l : existsb (String.eqb c) l = true <-> In c l.
Proof.
  rewrite existsb_exists. split.
  - intros (x & Hx & ->%String.eqb_eq). done.
  - intros H. exists c. by rewrite String.eqb_refl.
Qed.

Lemma parse_loop_spec pieces seen out res :
  (forall c, In c seen <-> In c out) -> NoDup out ->
  (forall c, In c out -> c <> "" /\ KnownCapabilities c = true) ->
  parse_loop pieces seen out = inl res ->
  NoDup res /\ (forall c, In c res -> c <> "" /\ KnownCapabilities c = true) /\
  (forall c, In c res <-> In c out \/ c <> "" /\ exists raw, In raw pieces /\ Canonical raw = c).
Proof.
  revert seen out. induction pieces as [|raw pieces IH]; intros seen out Hs Hn Hk; simpl.
  { intros H. injection H as <-. split; [done|]. split; [done|]. intros c.
    split; [auto|]. intros [?|(_ & ? & [] & _)]; done. }
  destruct (String.eqb_spec (Canonical raw) "") as [E|E].
  { intros H. destruct (IH _ _ Hs Hn Hk H) as (? & ? & Hi). split; [done|]. split; [done|].
    intros c. rewrite Hi. split; [naive_solver|]. intros [?|(? & r & [<-|Hr] & ?)]; naive_solver. }
  destruct (KnownCapabilities (Canonical raw)) eqn:Ek; [|done]. simpl.
  destruct (existsb _ seen) eqn:Ex.
  { apply existsb_eqb_In, Hs in Ex.
    intros H. destruct (IH _ _ Hs Hn Hk H) as (? & ? & Hi). split; [done|]. split; [done|].
    intros c. rewrite Hi. split; [naive_solver|]. intros [?|(? & r & [<-|Hr] & ?)]; naive_solver. }
  assert (Hni : ~ In (Canonical raw) out) by (rewrite <- Hs, <- existsb_eqb_In, Ex; done).
  intros H. destruct (IH (Canonical raw :: seen) (out ++ [Canonical raw])) with (4 := H)
    as (? & ? & Hi).
  - intros c. rewrite in_app_iff. simpl. rewrite Hs. tauto.
  - apply NoDup_app. split; [done|]. split; [|apply NoDup_singleton].
    intros x Hx ->%list_elem_of_singleton. by apply list_elem_of_In in Hx.
  - intros c. rewrite in_app_iff. intros [?|[<-|[]]]; auto.
  - split; [done|]. split; [done|]. intros c. rewrite Hi, in_app_iff. simpl.
    split; [naive_solver|]. intros [?|(? & r & [<-|Hr] & <-)]; naive_solver.
Qed.

Lemma SortStrings_In l c : In c (SortStrings l) <-> In c l.
Proof.
  rewrite <- !list_elem_of_In. unfold SortStrings.
  assert (Hp : merge_sort string_le l ≡ₚ l) by apply merge_sort_Permutation.
  by rewrite Hp.
Qed.

Lemma parse_known s caps :
  ParseCapabilities s = inl caps ->
  NoDup caps /\ (forall c, In c caps -> c <> "" /\ KnownCapabilities c = true) /\
  (forall c, In c caps <->
     c <> "" /\ TrimSpace s <> "" /\ exists raw, In raw (Split (TrimSpace s) ",") /\ Canonical raw = c).
Proof.
  unfold ParseCapabilities. destruct (String.eqb_spec (TrimSpace s) "") as [E|E].
  { intros H. injection H as <-. split; [constructor|]. split; [done|]. naive_solver. }
  destruct (parse_loop _ [] []) as [out|] eqn:Ep; [|done]. intros H. injection H as <-.
  destruct (parse_loop_spec _ _ _ _ ltac:(done) ltac:(constructor) ltac:(done) Ep) as (Hn & Hk & Hi).
  split; [|split].
  - unfold SortStrings. assert (Hp : merge_sort string_le out ≡ₚ out) by apply merge_sort_Permutation.
    by rewrite Hp.
  - intros c. rewrite SortStrings_In. auto.
  - intros c. rewrite SortStrings_In, Hi. simpl. naive_solver.
Qed.

#[export] Instance string_le_total : Total string_le.
Proof.
  intros x y. unfold string_le, String.leb. rewrite (String.compare_antisym y x).
  destruct (String.compare x y); simpl; auto.
Qed.

(** What [ParseCapabilities] returns is a list of known capabilities in
    canonical form, without duplicates and in ascending order, and it holds
    exactly the canonical forms of the non-blank entries of its input. *)
Theorem ParseCapabilities_spec s caps :
  ParseCapabilities s = inl caps ->
  NoDup caps /\ Sorted string_le caps /\
  (forall c, In c caps -> KnownCapabilities c = true) /\
  (forall c, In c caps <->
     c <> "" /\ TrimSpace s <> "" /\ exists raw, In raw (Split (TrimSpace s) ",") /\ Canonical raw = c).
Proof.
  intros H. destruct (parse_known s caps H) as (Hn & Hk & Hi). split; [done|].
  split; [|split; [by intros c [_ ?]%Hk|done]].
  unfold ParseCapabilities in H. destruct (_ =s ""); [injection H as <-; constructor|].
  destruct (parse_loop _ _ _) as [out|]; [|done]. injection H as <-.
  apply Sorted_merge_sort. apply _.
Qed.

Lemma ParseCapabilities_spec_witness :
  ParseCapabilities " opstack:read, actor:*:read,opstack:*:read " = inl ["actor:*:read"; "opstack:*:read"] /\
  NoDup ["actor:*:read"; "opstack:*:read"].
Proof.
  assert (H : ParseCapabilities " opstack:read, actor:*:read,opstack:*:read " =
              inl ["actor:*:read"; "opstack:*:read"]) by reflexivity.
  split; [exact H|]. exact (proj1 (ParseCapabilities_spec _ _ H)).
Defined.

(** C38: a granter cannot hand out more than it has: when the list it asks for
    parses and [CoversAll] reports nothing missing, every request the parsed
    list would pass is one the granter's own capabilities pass. *)
Theorem no_escalation grants csv caps want :
  ParseCapabilities csv = inl caps -> CoversAll grants caps = "" ->
  Covers caps want = true -> Covers grants want = true.
Proof.
  intros Hp Hc. apply Covers_trans, CoversAll_all; [|done].
  destruct (parse_known _ _ Hp) as (_ & Hk & _). intros Hin. by destruct (Hk _ Hin).
Qed.

Lemma no_escalation_witness :
  Covers ["opstack:*:*"] "opstack:x:read" = true /\
  CoversAll ["opstack:*:*"] ["actor:*:read"] = "actor:*:read".
Proof.
  split; [|reflexivity].
  apply (no_escalation _ "opstack:read" ["opstack:*:read"]); reflexivity.
Defined.

(** The empty string is both a want and [CoversAll]'s answer for "all
    covered": a list that starts with an empty want passes the check whatever
    follows, with no grant at all. *)
Lemma CoversAll_empty_want wants : CoversAll [] ("" :: wants) = "".
Proof. done. Qed.

(** Malformed capabilities match each other: a grant of four segments
    passes any want of one or of four. *)
Example malformed_matches : Covers ["a:b:c:d"] "x" = true /\ Covers ["a:b:c:d"] "p:q:r:s" = true.
Proof. split; reflexivity. Qed.
