(* ===== verification/Nonces.v ===== *)
(** * The replay store (chassis/auth/nonces.go)

    [NonceStore] keeps (key, nonce) pairs in a ring of seven buckets, the head
    of which takes the insertions; every [bucketDur] the head moves on and the
    bucket it moves to is cleared.  Instants are nanoseconds since the epoch;
    each operation runs under the store's mutex, so a history of the store is a
    sequence of uses. *)

From Stdlib Require Import Ascii String ZArith Lia Bool.
From stdpp Require Import base tactics list strings gmap sorting.
From S2P Require Import Prelude GoStrings GoStrconv.

Open Scope Z_scope.

Inductive UseErr := ErrReplay | ErrNilStore.

Record NonceStore := mkStore {
  bucketDur : Z; buckets : list (gset string); head : nat; rotateAt : Z }.

Definition nonceBuckets : nat := 6.

(** [now] is what [time.Now] answers during the call. *)
Definition NewNonceStore (ttl now : Z) : NonceStore :=
  let ttl := if ttl <=? 0 then 10 * Minute else ttl in
  let d := Z.quot ttl (Z.of_nat nonceBuckets) in
  mkStore d (replicate (S nonceBuckets) ∅) 0 (now + d).

(** One turn of the rotation loop of [Use]. *)
Definition rotate (s : NonceStore) : NonceStore :=
  let h := ((head s + 1) mod length (buckets s))%nat in
  mkStore (bucketDur s) (<[h := ∅]> (buckets s)) h (rotateAt s + bucketDur s).

Definition due (now : Z) (s : NonceStore) : bool := rotateAt s <=? now.

(** The turns the loop needs when [bucketDur] is positive. *)
Definition turns (now : Z) (s : NonceStore) : nat :=
  Z.to_nat ((now - rotateAt s) / bucketDur s + 1).

Definition composite (keyID nonce : string) : string := keyID ++ String byte0 nonce.

(** [None] when the rotation loop does not end. *)
Definition Use (s : option NonceStore) (now : Z) (keyID nonce : string)
  : option (option UseErr * option NonceStore) :=
  match s with
  | None => Some (Some ErrNilStore, None)
  | Some s =>
      let key := composite keyID nonce in
      let s := while (turns now s) (due now) rotate s in
      if due now s then None
      else if existsb (fun b => bool_decide (key ∈ b)) (buckets s)
      then Some (Some ErrReplay, Some s)
      else Some (None, Some (mkStore (bucketDur s)
                               (alter (fun b => {[key]} ∪ b) (head s) (buckets s))
                               (head s) (rotateAt s)))
  end.

(** A history of the store: the uses in the order they take the mutex, and the
    answer each of them got. *)
Record use := mkUse { u_key : string; u_nonce : string; u_at : Z }.

Fixpoint uses (s : option NonceStore) (l : list use)
  : option (list (option UseErr) * option NonceStore) :=
  match l with
  | [] => Some ([], s)
  | u :: l =>
      match Use s (u_at u) (u_key u) (u_nonce u) with
      | None => None
      | Some (e, s) =>
          match uses s l with
          | None => None
          | Some (es, s) => Some (e :: es, s)
          end
      end
  end.

(** ** The abstract store: when each pair was last accepted *)

Section Epochs.
Context (start d : Z) (Hd : 0 < d).

(** The bucket period of an instant. *)
Definition epoch (t : Z) : Z := (t - start) / d.

Lemma epoch_bounds t : start + d * epoch t <= t < start + d * (epoch t + 1).
Proof using Hd. unfold epoch. pose proof (Z_div_mod_eq_full (t - start) d). pose proof (Z.mod_pos_bound (t - start) d Hd). nia. Qed.

Lemma epoch_unique t c : start + d * c <= t < start + d * (c + 1) -> epoch t = c.
Proof using Hd. intros H. unfold epoch. symmetry. apply Z.div_unique with (r := t - start - d * c); nia. Qed.

Lemma epoch_mono t t' : t <= t' -> epoch t <= epoch t'.
Proof using Hd. intros. unfold epoch. apply Z.div_le_mono; lia. Qed.

Lemma epoch_near t t' : t' - t <= 6 * d -> epoch t' - epoch t <= 6.
Proof using Hd. pose proof (epoch_bounds t); pose proof (epoch_bounds t'). nia. Qed.

Lemma epoch_far t t' : 7 * d <= t' - t -> 7 <= epoch t' - epoch t.
Proof using Hd. pose proof (epoch_bounds t); pose proof (epoch_bounds t'). nia. Qed.

(** Key [k] is on file in period [cur]. *)
Definition on_file (log : gmap string Z) (cur : Z) (k : string) (e : Z) : Prop :=
  exists t, log !! k = Some t /\ epoch t = e /\ cur - e <= 6.

(** [s] represents [log], the last acceptance of each pair, in period [cur]. *)
Record tracks (s : NonceStore) (cur : Z) (log : gmap string Z) : Prop := {
  tr_dur : bucketDur s = d;
  tr_len : length (buckets s) = 7%nat;
  tr_head : head s = Z.to_nat (cur mod 7);
  tr_at : rotateAt s = start + d * (cur + 1);
  tr_past : forall k t, log !! k = Some t -> epoch t <= cur;
  tr_file : forall i b k, buckets s !! i = Some b ->
    (k ∈ b <-> exists e, on_file log cur k e /\ Z.to_nat (e mod 7) = i) }.

Lemma ring_next c : ((Z.to_nat (c mod 7) + 1) mod 7)%nat = Z.to_nat ((c + 1) mod 7).
Proof using.
  rewrite <- (Nat2Z.id (_ mod 7)). f_equal.
  rewrite Nat2Z.inj_mod, Nat2Z.inj_add, Z2Nat.id by (apply Z.mod_pos_bound; lia).
  rewrite <- (Zplus_mod_idemp_l c 1 7). done.
Qed.

Lemma ring_lt c : (Z.to_nat (c mod 7) < 7)%nat.
Proof using. pose proof (Z.mod_pos_bound c 7 ltac:(lia)). lia. Qed.

Lemma ring_inj a c : c - 7 < a <= c -> Z.to_nat (a mod 7) = Z.to_nat (c mod 7) -> a = c.
Proof using.
  intros H E. pose proof (Z.mod_pos_bound a 7 ltac:(lia)). pose proof (Z.mod_pos_bound c 7 ltac:(lia)).
  apply Z2Nat.inj in E; [|lia..].
  pose proof (Z_div_mod_eq_full a 7). pose proof (Z_div_mod_eq_full c 7). lia.
Qed.

Lemma rotate_tracks s cur log : tracks s cur log -> tracks (rotate s) (cur + 1) log.
Proof using Hd.
  intros [Hdur Hl Hh Ha Hp Hf].
  assert (E : ((head s + 1) mod length (buckets s))%nat = Z.to_nat ((cur + 1) mod 7))
    by (rewrite Hl, Hh; apply ring_next).
  split; unfold rotate; cbn [bucketDur buckets head rotateAt]; rewrite ?E; auto.
  - by rewrite length_insert.
  - rewrite Ha, Hdur. lia.
  - intros k t Hk. specialize (Hp k t Hk). lia.
  - intros i b k Hb. apply list_lookup_insert_Some in Hb as [(<- & <- & _)|(Hne & Hb)].
    + split; [set_solver|]. intros (e & (t & Hk & He & Hage) & Hi). exfalso.
      specialize (Hp k t Hk). assert (e = cur + 1); [|lia]. apply ring_inj; [lia|done].
    + rewrite (Hf i b k Hb). split; intros (e & (t & Hk & He & Hage) & Hi); exists e; (split; [|done]); exists t; repeat split; auto.
      2: lia.
      destruct (decide (e = cur - 6)) as [->|]; [|lia].
      exfalso. apply Hne. rewrite <- Hi. f_equal.
      replace (cur + 1) with (cur - 6 + 1 * 7) by lia. by rewrite Z_mod_plus_full.
Qed.

(** The rotation loop ends, in the period of the instant. *)
Lemma rotation s cur log now :
  tracks s cur log -> start + d * cur <= now ->
  let s' := while (turns now s) (due now) rotate s in
  due now s' = false /\ tracks s' (epoch now) log.
Proof using Hd.
  intros Ht Hn.
  set (I := fun s : NonceStore => exists c, tracks s c log /\ start + d * c <= now).
  assert (Hbody : forall s, I s -> due now s = true -> I (rotate s)).
  { intros s1 (c & H1 & H2) Hdue. exists (c + 1). split; [by apply rotate_tracks|].
    apply Z.leb_le in Hdue. rewrite (tr_at _ _ _ H1) in Hdue. done. }
  assert (Hturns : forall s c, tracks s c log -> turns now s = Z.to_nat (epoch now - c)).
  { intros s1 c H1. unfold turns. rewrite (tr_at _ _ _ H1), (tr_dur _ _ _ H1).
    replace (now - (start + d * (c + 1))) with (now - start + - (c + 1) * d) by lia.
    rewrite Z_div_plus_full by lia. unfold epoch. f_equal. lia. }
  assert (Hdec : forall s, I s -> due now s = true -> (turns now (rotate s) < turns now s)%nat).
  { intros s1 (c & H1 & H2) Hdue. rewrite (Hturns _ _ H1), (Hturns _ _ (rotate_tracks _ _ _ H1)).
    apply Z.leb_le in Hdue. rewrite (tr_at _ _ _ H1) in Hdue.
    assert (c + 1 <= epoch now); [|lia]. unfold epoch. apply Z.div_le_lower_bound; lia. }
  assert (HI : I s) by (exists cur; done).
  pose proof (while_exit (due now) rotate (turns now) I Hbody Hdec (turns now s) s HI (Nat.le_refl _)) as Hx.
  pose proof (while_inv (due now) rotate I Hbody (turns now s) s HI) as (c & H1 & H2).
  cbv zeta. split; [done|].
  assert (epoch now = c) as ->; [|done]. apply epoch_unique. split; [done|].
  apply Z.leb_gt in Hx. rewrite (tr_at _ _ _ H1) in Hx. lia.
Qed.

Lemma lookup_tracks s cur log k :
  tracks s cur log ->
  existsb (fun b => bool_decide (k ∈ b)) (buckets s) = true <-> exists e, on_file log cur k e.
Proof using.
  intros Ht. rewrite existsb_exists. setoid_rewrite bool_decide_eq_true. split.
  - intros (b & Hb & Hk). apply list_elem_of_In, list_elem_of_lookup in Hb as [i Hb].
    apply (tr_file _ _ _ Ht i b k Hb) in Hk as (e & He & _). by exists e.
  - intros (e & He).
    destruct (lookup_lt_is_Some_2 (buckets s) (Z.to_nat (e mod 7))) as [b Hb].
    { rewrite (tr_len _ _ _ Ht). apply ring_lt. }
    exists b. split; [by eapply list_elem_of_In, list_elem_of_lookup_2|].
    apply (tr_file _ _ _ Ht _ b k Hb). by exists e.
Qed.

Lemma insert_tracks s now log key :
  tracks s (epoch now) log -> ~ (exists e, on_file log (epoch now) key e) ->
  tracks (mkStore (bucketDur s) (alter (fun b => {[key]} ∪ b) (head s) (buckets s)) (head s) (rotateAt s))
         (epoch now) (<[key := now]> log).
Proof using Hd.
  intros [Hdur Hl Hh Ha Hp Hf] Hno. split; cbn [bucketDur buckets head rotateAt]; auto.
  - by rewrite length_alter.
  - intros k t Hk. apply lookup_insert_Some in Hk as [[_ <-]|[_ Hk]]; eauto. lia.
  - intros i b k Hb. unfold on_file.
    assert (Hb' : exists b0, buckets s !! i = Some b0 /\ b = if decide (i = head s) then {[key]} ∪ b0 else b0).
    { destruct (decide (i = head s)) as [->|Hne].
      - rewrite list_lookup_alter, decide_True in Hb by done. apply fmap_Some in Hb as (b0 & H0 & ->). by exists b0.
      - rewrite list_lookup_alter, decide_False in Hb by congruence. by exists b. }
    destruct Hb' as (b0 & H0 & ->). specialize (Hf i b0 k H0).
    destruct (decide (k = key)) as [->|Hk].
    + assert (~ key ∈ b0) by (rewrite Hf; intros (e & He & _); apply Hno; by exists e).
      rewrite lookup_insert_eq. case_decide; subst; split.
      * intros _. exists (epoch now). split; [exists now; repeat split; auto; lia|by rewrite Hh].
      * intros _. set_solver.
      * intros. done.
      * intros (e & (t & [= <-] & <- & _) & Hi). rewrite Hh in *. congruence.
    + rewrite lookup_insert_ne by done. case_decide; [rewrite elem_of_union, elem_of_singleton|]; rewrite Hf; unfold on_file; naive_solver.
Qed.

(** [Use], seen from the abstract store. *)
Lemma Use_tracks s cur log now keyID nonce :
  tracks s cur log -> start + d * cur <= now ->
  let key := composite keyID nonce in
  exists r s' log', Use (Some s) now keyID nonce = Some (r, Some s') /\ tracks s' (epoch now) log' /\
    ((r = Some ErrReplay /\ log' = log /\ exists e, on_file log (epoch now) key e) \/
     (r = None /\ log' = <[key := now]> log /\ ~ exists e, on_file log (epoch now) key e)).
Proof using Hd.
  intros Ht Hn key. destruct (rotation s cur log now Ht Hn) as [Hx H1].
  unfold Use. fold key. cbv zeta in Hx, H1 |- *.
  set (s1 := while _ _ _ _) in *. rewrite Hx.
  pose proof (lookup_tracks s1 _ _ key H1) as Hf.
  destruct (existsb _ _).
  - exists (Some ErrReplay), s1, log. split; [done|]. split; [done|]. left. by rewrite <- Hf.
  - eexists None, _, (<[key := now]> log). split; [done|]. split; [|right; rewrite <- Hf; done].
    assert (Hn' : ~ exists e, on_file log (epoch now) key e) by (rewrite <- Hf; done).
    by apply insert_tracks.
Qed.
End Epochs.

Lemma NewNonceStore_tracks ttl now :
  let s := NewNonceStore ttl now in
  0 < bucketDur s -> tracks now (bucketDur s) s 0 ∅.
Proof.
  intros s Hd. split; [done..| | |].
  - unfold s, NewNonceStore. cbn. lia.
  - intros k t Hk. by rewrite lookup_empty in Hk.
  - intros i b k Hb. apply lookup_replicate in Hb as [-> _]. split; [set_solver|].
    intros (e & (t & Hk & _) & _). by rewrite lookup_empty in Hk.
Qed.

(** ** Histories *)

Lemma uses_snoc s l u :
  uses s (l ++ [u]) =
  match uses s l with
  | None => None
  | Some (es, s) =>
      match Use s (u_at u) (u_key u) (u_nonce u) with
      | None => None
      | Some (e, s) => Some (es ++ [e], s)
      end
  end.
Proof.
  revert s; induction l as [|v l IH]; intros s; cbn [app uses].
  - by destruct (Use s _ _ _) as [[e s']|].
  - destruct (Use s (u_at v) _ _) as [[e s']|]; [|done].
    rewrite IH. destruct (uses s' l) as [[es s'']|]; [|done].
    by destruct (Use s'' _ _ _) as [[e' s3]|].
Qed.

Definition u_comp (u : use) : string := composite (u_key u) (u_nonce u).

(** Use [v] is in the history and was accepted. *)
Definition accepted (l : list use) (es : list (option UseErr)) (v : use) : Prop :=
  exists i, l !! i = Some v /\ es !! i = Some None.

(** [log] has the last acceptance of every pair of the history. *)
Record logs (l : list use) (es : list (option UseErr)) (log : gmap string Z) : Prop := {
  lg_len : length es = length l;
  lg_in : forall v, accepted l es v -> exists t, log !! u_comp v = Some t /\ u_at v <= t;
  lg_out : forall k t, log !! k = Some t -> exists v, accepted l es v /\ u_comp v = k /\ u_at v = t }.

Lemma accepted_snoc l es u e v :
  length es = length l ->
  accepted (l ++ [u]) (es ++ [e]) v <-> accepted l es v \/ (v = u /\ e = None).
Proof.
  intros Hl. split.
  - intros (i & Hi & Hi'). apply lookup_snoc_Some in Hi as [[? Hi]|[-> ->]].
    + left. exists i. split; [done|]. by rewrite lookup_app_l in Hi' by lia.
    + right. rewrite <- Hl, list_lookup_middle in Hi' by done. naive_solver.
  - intros [(i & Hi & Hi')|[-> ->]].
    + exists i. split; apply lookup_app_l_Some; done.
    + exists (length l). rewrite list_lookup_middle by done.
      rewrite <- Hl, list_lookup_middle; done.
Qed.

Lemma logs_snoc l es log u r log' :
  logs l es log -> Forall (fun v => u_at v <= u_at u) l ->
  (r = Some ErrReplay /\ log' = log) \/ (r = None /\ log' = <[u_comp u := u_at u]> log) ->
  logs (l ++ [u]) (es ++ [r]) log'.
Proof.
  intros [Hl Hi Ho] Hm Hr. split.
  - rewrite !length_app. cbn. lia.
  - intros v. rewrite accepted_snoc by done.
    intros [Hv|[-> ->]].
    + destruct (Hi v Hv) as (t & Hk & Ht). destruct Hr as [[-> ->]|[-> ->]]; [by exists t|].
      destruct (decide (u_comp v = u_comp u)) as [->|].
      * exists (u_at u). split; [by rewrite lookup_insert_eq|].
        destruct Hv as (i & Hv & _). eapply Forall_lookup_1 in Hm; eauto.
      * exists t. by rewrite lookup_insert_ne.
    + destruct Hr as [[? ?]|[_ ->]]; [done|]. exists (u_at u). rewrite lookup_insert_eq. done.
  - intros k t Hk. setoid_rewrite accepted_snoc; [|done].
    destruct Hr as [[-> ->]|[-> ->]].
    + destruct (Ho k t Hk) as (v & Hv & ?). exists v. auto.
    + apply lookup_insert_Some in Hk as [[<- <-]|[_ Hk]]; [by exists u; auto|].
      destruct (Ho k t Hk) as (v & Hv & ?). exists v. auto.
Qed.

Lemma before_last l u :
  (forall x y, x ∈ map u_at l -> y ∈ map u_at [u] -> x <= y) -> Forall (fun v => u_at v <= u_at u) l.
Proof. intros H. apply Forall_forall. intros v Hv. apply H; [by apply list_elem_of_fmap_2|by left]. Qed.

(** After a history in time order the store is in the period of the last use
    and represents the history's acceptances. *)
Lemma history_tracks ttl now l :
  let s0 := NewNonceStore ttl now in
  0 < bucketDur s0 -> StronglySorted Z.le (map u_at l) -> Forall (fun v => now <= u_at v) l ->
  exists es s log cur, uses (Some s0) l = Some (es, Some s) /\
    tracks now (bucketDur s0) s cur log /\ logs l es log /\
    (forall t, now <= t -> Forall (fun v => u_at v <= t) l -> now + bucketDur s0 * cur <= t).
Proof.
  intros s0 Hd. induction l as [|u l IH] using rev_ind; intros Hs Hn.
  - exists [], s0, ∅, 0. split; [done|]. split; [by apply NewNonceStore_tracks|]. split; [|lia].
    split; [done| |]; [intros v (i & Hi & _); done|intros k t Hk; by rewrite lookup_empty in Hk].
  - rewrite map_app in Hs. apply StronglySorted_app in Hs as (Hle & Hs & _).
    apply Forall_app in Hn as [Hn Hu]. apply Forall_cons in Hu as [Hu _].
    assert (Hm := before_last _ _ Hle).
    destruct (IH Hs Hn) as (es & s & log & cur & E & Ht & Hlg & Hc).
    destruct (Use_tracks now _ Hd s cur log (u_at u) (u_key u) (u_nonce u) Ht (Hc _ Hu Hm))
      as (r & s' & log' & EU & Ht' & Hr).
    exists (es ++ [r]), s', log', (epoch now (bucketDur s0) (u_at u)).
    rewrite uses_snoc, E, EU. split; [done|]. split; [done|]. split.
    + apply (logs_snoc l es log u r log' Hlg Hm). unfold u_comp. naive_solver.
    + intros t _ Hf. apply Forall_app in Hf as [_ Hf]. apply Forall_cons in Hf as [Hf _].
      pose proof (epoch_bounds now _ Hd (u_at u)). lia.
Qed.

Lemma composite_inj k k' n n' :
  sall (fun c => negb (c =c byte0)) k = true -> sall (fun c => negb (c =c byte0)) k' = true ->
  composite k n = composite k' n' -> k = k' /\ n = n'.
Proof.
  unfold composite. revert k'; induction k as [|c k IH]; intros [|c' k'] H H'; cbn in *; intros E.
  - by injection E.
  - injection E as <- _. done.
  - injection E as -> _. done.
  - injection E as <- E. apply andb_true_iff in H as [_ H], H' as [_ H'].
    destruct (IH k' H H' E) as [-> ->]. done.
Qed.

(** C40: the replay window.  In a history whose clock does not go back, every
    use returns, and the answer to one more use of a pair is decided by when the
    pair was accepted: within the last six bucket durations it is refused as a
    replay, and it is accepted when every earlier acceptance of the pair is at
    least seven bucket durations old (in particular when there is none).  Key
    ids hold no NUL, the separator of the composite key, and the time to live is
    not of 1 to 5 nanoseconds, of which a sixth is zero. *)
Theorem replay_window ttl now l u :
  let s0 := NewNonceStore ttl now in let d := bucketDur s0 in
  ttl <= 0 \/ 6 <= ttl ->
  StronglySorted Z.le (now :: map u_at (l ++ [u])) ->
  Forall (fun v => sall (fun c => negb (c =c byte0)) (u_key v) = true) (l ++ [u]) ->
  exists es s e s', uses (Some s0) l = Some (es, s) /\
    Use s (u_at u) (u_key u) (u_nonce u) = Some (e, s') /\
    (forall v, accepted l es v -> u_key v = u_key u -> u_nonce v = u_nonce u ->
               u_at u - u_at v <= 6 * d -> e = Some ErrReplay) /\
    ((forall v, accepted l es v -> u_key v = u_key u -> u_nonce v = u_nonce u ->
                7 * d <= u_at u - u_at v) -> e = None).
Proof.
  intros s0 d Httl Hs Hk. assert (Hd : 0 < d).
  { unfold d, s0, NewNonceStore. cbn. destruct (Z.leb_spec ttl 0); [reflexivity|]. apply Z.quot_str_pos. unfold nonceBuckets. lia. }
  apply StronglySorted_inv in Hs as [Hs Hn]. apply (List.Forall_map u_at (Z.le now) (l ++ [u])) in Hn.
  rewrite map_app in Hs. apply StronglySorted_app in Hs as (Hle & Hs & _).
  assert (Hm := before_last _ _ Hle).
  apply Forall_app in Hn as [Hn Hnu], Hk as [Hk Hku].
  apply Forall_cons in Hku as [Hku _], Hnu as [Hnu _].
  destruct (history_tracks ttl now l Hd Hs Hn) as (es & s & log & cur & E & Ht & Hlg & Hc).
  destruct (Use_tracks now d Hd s cur log (u_at u) (u_key u) (u_nonce u) Ht (Hc _ Hnu Hm))
    as (e & s' & log' & EU & _ & Hr).
  exists es, (Some s), e, (Some s'). split; [done|]. split; [done|]. split.
  - intros v Hv Ek En Hage. destruct Hr as [[-> _]|(_ & _ & Hno)]; [done|]. exfalso. apply Hno.
    destruct (lg_in _ _ _ Hlg v Hv) as (t & Hlk & Hle').
    unfold u_comp in Hlk. rewrite Ek, En in Hlk.
    eexists. exists t. split; [done|]. split; [done|]. apply epoch_near; [done|lia].
  - intros Hold. destruct Hr as [(_ & _ & x & t & Hlk & He & Hage)|[-> _]]; [|done]. exfalso.
    destruct (lg_out _ _ _ Hlg _ _ Hlk) as (v & Hv & Ec & <-).
    assert (Hkv : sall (fun c => negb (c =c byte0)) (u_key v) = true).
    { destruct Hv as (i & Hv & _). by apply (Forall_lookup_1 _ _ _ _ Hk Hv). }
    destruct (composite_inj _ _ _ _ Hkv Hku Ec) as [Ek En].
    pose proof (epoch_far now d Hd _ _ (Hold v Hv Ek En)). lia.
Qed.

Lemma replay_window_witness :
  exists es s e s', uses (Some (NewNonceStore 60 1000)) [mkUse "k" "n" 1003] = Some (es, s) /\
    Use s 1063 "k" "n" = Some (e, s') /\ es = [None] /\ e = Some ErrReplay.
Proof.
  destruct (replay_window 60 1000 [mkUse "k" "n" 1003] (mkUse "k" "n" 1063))
    as (es & s & e & s' & E & EU & Hre & _).
  - right. lia.
  - repeat constructor; cbn; lia.
  - repeat constructor.
  - exists es, s, e, s'. split; [exact E|]. split; [exact EU|].
    assert (es = [None]) as -> by (vm_compute in E; congruence).
    split; [reflexivity|]. apply (Hre (mkUse "k" "n" 1003)); [by exists 0%nat|reflexivity..|].
    vm_compute. discriminate.
Defined.
