(* ===== verification/Throttle.v ===== *)
(** * The fixed-window throttle (chassis/auth/throttle/throttle.go)

    A counter per key, with lazy removal of the counters whose window is long
    over.  Instants are nanoseconds; [Allow] runs under the throttle's mutex, so
    a history is a sequence of attempts.  The per-key counter [attempt] is the
    reference: no map, no other keys, no removal. *)

From Stdlib Require Import Ascii String ZArith Lia Bool.
From stdpp Require Import base tactics list strings gmap sorting.
From S2P Require Import Prelude GoStrings GoStrconv.

Open Scope Z_scope.

Record bucket := mkBucket { count : Z; resetAt : Z }.

Record Throttle := mkThrottle { t_buckets : gmap string bucket; limit : Z; window : Z }.

Definition New (limit window : Z) : Throttle :=
  let limit := if limit <? 0 then 0 else limit in
  let window := if (0 <? limit) && (window <=? 0) then Second else window in
  mkThrottle ∅ limit window.

Definition gcLocked (t : Throttle) (now : Z) : Throttle :=
  let cutoff := now - window t in
  mkThrottle (filter (fun kb : string * bucket => ~ resetAt kb.2 < cutoff) (t_buckets t))
             (limit t) (window t).

Definition put (t : Throttle) (key : string) (b : bucket) : Throttle :=
  mkThrottle (<[key := b]> (t_buckets t)) (limit t) (window t).

(** [now] is what [time.Now] answers. *)
Definition Allow (t : Throttle) (now : Z) (key : string) : bool * Z * Throttle :=
  if limit t =? 0 then (true, 0, t)
  else
    let t := gcLocked t now in
    match t_buckets t !! key with
    | None => (true, 0, put t key (mkBucket 1 (now + window t)))
    | Some b =>
        if resetAt b <? now then (true, 0, put t key (mkBucket 1 (now + window t)))
        else if limit t <=? count b then (false, resetAt b - now, t)
        else (true, 0, put t key (mkBucket (count b + 1) (resetAt b)))
    end.

Definition Size (t : Throttle) : nat := size (t_buckets t).

(** ** Histories *)

Fixpoint allows (t : Throttle) (l : list (Z * string)) : list (bool * Z) * Throttle :=
  match l with
  | [] => ([], t)
  | (now, key) :: l =>
      let '(ok, retry, t) := Allow t now key in
      let '(vs, t) := allows t l in ((ok, retry) :: vs, t)
  end.

(** One key on its own. *)
Definition attempt (limit window : Z) (b : option bucket) (now : Z) : bool * Z * option bucket :=
  if limit =? 0 then (true, 0, b)
  else
    match b with
    | None => (true, 0, Some (mkBucket 1 (now + window)))
    | Some b =>
        if resetAt b <? now then (true, 0, Some (mkBucket 1 (now + window)))
        else if limit <=? count b then (false, resetAt b - now, Some b)
        else (true, 0, Some (mkBucket (count b + 1) (resetAt b)))
    end.

Fixpoint attempts (limit window : Z) (b : option bucket) (l : list Z) : list (bool * Z) :=
  match l with
  | [] => []
  | now :: l =>
      let '(ok, retry, b) := attempt limit window b now in
      (ok, retry) :: attempts limit window b l
  end.

(** The attempts of [key] in a history, and the answers they got. *)
Definition times_of (key : string) (l : list (Z * string)) : list Z :=
  omap (fun a : Z * string => if decide (a.2 = key) then Some a.1 else None) l.

Definition answers_of (key : string) (l : list (Z * string)) (vs : list (bool * Z)) : list (bool * Z) :=
  omap (fun av : (Z * string) * (bool * Z) => if decide (av.1.2 = key) then Some av.2 else None) (zip l vs).

(** The bucket the throttle has for a key, and the one the key would have on
    its own: the same, or dropped because its window is over. *)
Definition stands_for (now : Z) (ob b : option bucket) : Prop :=
  ob = b \/ (ob = None /\ exists b0, b = Some b0 /\ resetAt b0 < now).

Lemma stands_for_later now now' ob b : now <= now' -> stands_for now ob b -> stands_for now' ob b.
Proof. intros H [->|(-> & b0 & -> & Hr)]; [by left|right; split; [done|]; exists b0; split; [done|lia]]. Qed.

Lemma attempt_stands lim win now ob b :
  stands_for now ob b ->
  (attempt lim win ob now).1 = (attempt lim win b now).1 /\
  stands_for now (attempt lim win ob now).2 (attempt lim win b now).2.
Proof.
  intros [->|(-> & b0 & -> & Hr)]; [split; [done|by left]|].
  unfold attempt. destruct (lim =? 0).
  - split; [done|]. right. eauto.
  - apply Z.ltb_lt in Hr. rewrite Hr. split; [done|by left].
Qed.

Lemma gc_stands t now key :
  0 <= window t ->
  stands_for now (t_buckets (gcLocked t now) !! key) (t_buckets t !! key).
Proof.
  intros Hw. unfold gcLocked. cbn. rewrite map_lookup_filter.
  destruct (t_buckets t !! key) as [b|]; cbn; [|by left].
  case_guard as Hg; cbn; [by left|]. right. split; [done|]. exists b. split; [done|].
  lia.
Qed.

(** [Allow] on its key is [attempt] on the key's bucket after the removal; the
    other keys only undergo the removal. *)
Lemma Allow_attempt t now key :
  let '(v, t') := Allow t now key in
  limit t' = limit t /\ window t' = window t /\
  (limit t <> 0 ->
   let o := t_buckets (gcLocked t now) !! key in
   v = (attempt (limit t) (window t) o now).1 /\
   t_buckets t' !! key = (attempt (limit t) (window t) o now).2 /\
   forall k, k <> key -> t_buckets t' !! k = t_buckets (gcLocked t now) !! k).
Proof.
  unfold Allow, attempt. destruct (Z.eqb_spec (limit t) 0) as [E|E]; [done|].
  cbv zeta. change (limit (gcLocked t now)) with (limit t). change (window (gcLocked t now)) with (window t).
  destruct (t_buckets (gcLocked t now) !! key) as [b|] eqn:Eb; cbn -[gcLocked].
  - destruct (resetAt b <? now); [|destruct (limit t <=? count b)]; cbn -[gcLocked];
      repeat split; intros; rewrite ?lookup_insert_eq, ?lookup_insert_ne by congruence; auto.
  - repeat split; intros; rewrite ?lookup_insert_eq, ?lookup_insert_ne by congruence; auto.
Qed.

(** One step of a history, from the point of view of any key. *)
Lemma Allow_stands t now key k b :
  (limit t <> 0 -> 0 < window t) -> stands_for now (t_buckets t !! k) b ->
  let '(v, t') := Allow t now key in
  limit t' = limit t /\ window t' = window t /\
  if decide (key = k)
  then v = (attempt (limit t) (window t) b now).1 /\
       stands_for now (t_buckets t' !! k) (attempt (limit t) (window t) b now).2
  else stands_for now (t_buckets t' !! k) b.
Proof.
  intros Hw Hs. destruct (decide (limit t = 0)) as [E|E].
  { unfold Allow, attempt. rewrite (proj2 (Z.eqb_eq _ _) E). case_decide; auto. }
  pose proof (Allow_attempt t now key) as Ha. destruct (Allow t now key) as [v t'].
  destruct Ha as (-> & -> & Ha). destruct (Ha E) as (-> & Hk & Ho). split; [done|]. split; [done|].
  assert (Hg : stands_for now (t_buckets (gcLocked t now) !! k) b).
  { destruct (gc_stands t now k ltac:(specialize (Hw E); lia)) as [->|(-> & b0 & Eb & Hr)]; [done|].
    rewrite Eb in Hs. destruct Hs as [<-|(? & _)]; [|done]. right. eauto. }
  case_decide as Ek.
  - subst k. rewrite Hk. apply attempt_stands. done.
  - rewrite Ho by congruence. done.
Qed.

Lemma allows_stands l t now key b :
  (limit t <> 0 -> 0 < window t) -> stands_for now (t_buckets t !! key) b ->
  Sorted Z.le (now :: map fst l) ->
  answers_of key l (allows t l).1 = attempts (limit t) (window t) b (times_of key l).
Proof.
  revert t now b; induction l as [|[at_ k] l IH]; intros t now b Hw Hs Hl; [done|].
  apply Sorted_inv in Hl as [Hl Hle]. apply HdRel_inv in Hle. cbn in Hle.
  apply (stands_for_later now at_) in Hs; [|done].
  pose proof (Allow_stands t at_ k key b Hw Hs) as Ha.
  cbn [allows]. destruct (Allow t at_ k) as [[ok retry] t'].
  destruct Ha as (El & Ew & Ha). destruct (allows t' l) as [vs t2] eqn:Ev.
  assert (Hw' : limit t' <> 0 -> 0 < window t') by (rewrite El, Ew; done).
  unfold answers_of, times_of in *. cbn. destruct (decide (k = key)) as [->|Hne]; cbn.
  - destruct Ha as [Hv Hs']. destruct (attempt (limit t) (window t) b at_) as [[ok' retry'] b'].
    cbn in Hv, Hs'. injection Hv as -> ->. f_equal.
    specialize (IH t' at_ b' Hw' Hs' Hl). rewrite Ev, El, Ew in IH. exact IH.
  - specialize (IH t' at_ b Hw' Ha Hl). rewrite Ev, El, Ew in IH. exact IH.
Qed.

Lemma New_window lim win : limit (New lim win) <> 0 -> 0 < window (New lim win).
Proof.
  unfold New. cbn. destruct (lim <? 0) eqn:E; cbn; [done|]. intros H.
  destruct (Z.ltb_spec 0 lim); [|lia]. cbn. destruct (Z.leb_spec win 0); [reflexivity|lia].
Qed.

(** the throttle keeps the keys apart.  In a history whose clock does not
    go back, the answers a key gets, retry times included, are those of a
    counter of its own: neither the attempts of other keys nor the removal of
    old counters changes them. *)
Theorem throttle_isolated lim win l key :
  let t := New lim win in
  Sorted Z.le (map fst l) ->
  answers_of key l (allows t l).1 = attempts (limit t) (window t) None (times_of key l).
Proof.
  intros t Hl. destruct l as [|[now k] l]; [done|].
  apply (allows_stands _ t now); [apply New_window|by left|].
  constructor; [exact Hl|]. constructor. cbn. lia.
Qed.

Definition toy_history : list (Z * string) := [(0, "a"); (1, "b"); (2, "a"); (40, "b"); (41, "a")].

Lemma throttle_isolated_witness :
  (allows (New 1 10) toy_history).1 = [(true, 0); (true, 0); (false, 8); (true, 0); (true, 0)] /\
  answers_of "a" toy_history (allows (New 1 10) toy_history).1 =
  attempts 1 10 None (times_of "a" toy_history).
Proof.
  split; [vm_compute; reflexivity|].
  apply (throttle_isolated 1 10 toy_history "a"). repeat constructor; cbn; lia.
Defined.

(** ** How many attempts a window admits *)

Fixpoint admitted (vs : list (bool * Z)) : Z :=
  match vs with [] => 0 | (ok, _) :: vs => Z.b2z ok + admitted vs end.

Definition bucket_ok (lim : Z) (b : option bucket) : Prop :=
  forall b0, b = Some b0 -> 1 <= count b0 <= lim.

Lemma attempt_ok lim win b now : 0 < lim -> bucket_ok lim b -> bucket_ok lim (attempt lim win b now).2.
Proof.
  intros Hl Hb. unfold attempt. rewrite (proj2 (Z.eqb_neq lim 0)) by lia.
  assert (H1 : bucket_ok lim (Some (mkBucket 1 (now + win)))) by (intros b0 [= <-]; cbn; lia).
  destruct b as [b|]; [|done].
  destruct (resetAt b <? now); [done|]. destruct (Z.leb_spec lim (count b)); [done|].
  intros b0 [= <-]. specialize (Hb b eq_refl). cbn. lia.
Qed.

(** Within the window of a bucket only what is left of it is admitted. *)
Lemma admitted_within lim win b l :
  0 < lim -> bucket_ok lim (Some b) -> Forall (fun t => t <= resetAt b) l ->
  0 <= admitted (attempts lim win (Some b) l) <= lim - count b.
Proof.
  intros Hl. revert b; induction l as [|now l IH]; intros b Hb Hf; cbn [attempts].
  { specialize (Hb b eq_refl). cbn. lia. }
  apply Forall_cons in Hf as [Hn Hf].
  pose proof (attempt_ok lim win (Some b) now Hl Hb) as Hb'.
  unfold attempt in *. rewrite (proj2 (Z.eqb_neq lim 0)) in * by lia.
  rewrite (proj2 (Z.ltb_ge (resetAt b) now)) in * by lia.
  destruct (Z.leb_spec lim (count b)); cbn [admitted Z.b2z snd] in *.
  - specialize (IH b Hb Hf). lia.
  - specialize (IH _ Hb' Hf). cbn in IH. lia.
Qed.

Lemma admitted_fresh lim win now l :
  0 < lim -> Forall (fun t => t <= now + win) l ->
  0 <= admitted (attempts lim win (Some (mkBucket 1 (now + win))) l) <= lim - 1.
Proof. intros Hl Hf. apply admitted_within; [done| |done]. intros b0 [= <-]. cbn. lia. Qed.

(** A stretch no longer than the window sees the end of one bucket and the
    start of another. *)
Lemma admitted_stretch lim win b l a :
  0 < lim -> bucket_ok lim b -> Forall (fun t => a <= t <= a + win) l ->
  0 <= admitted (attempts lim win b l) <=
       lim + match b with Some b => lim - count b | None => 0 end.
Proof.
  intros Hl. revert b; induction l as [|now l IH]; intros b Hb Hf; cbn [attempts].
  { destruct b as [b|]; cbn; [specialize (Hb b eq_refl)|]; lia. }
  apply Forall_cons in Hf as [Hn Hf].
  pose proof (attempt_ok lim win b now Hl Hb) as Hb'.
  assert (Hr : 0 <= admitted (attempts lim win (Some (mkBucket 1 (now + win))) l) <= lim - 1).
  { apply admitted_fresh; [done|]. eapply Forall_impl; [exact Hf|]. cbn. lia. }
  unfold attempt in *. rewrite (proj2 (Z.eqb_neq lim 0)) in * by lia.
  destruct b as [b|]; [|cbn [admitted Z.b2z]; lia].
  pose proof (Hb b eq_refl).
  destruct (resetAt b <? now); [cbn [admitted Z.b2z]; lia|].
  destruct (Z.leb_spec lim (count b)); cbn [admitted Z.b2z snd] in *.
  - specialize (IH (Some b) Hb Hf). cbn in IH. lia.
  - specialize (IH _ Hb' Hf). cbn in IH. lia.
Qed.

(** Every counter of a throttle is between one and the limit. *)
Definition throttle_ok (t : Throttle) : Prop :=
  0 < limit t /\ 0 < window t /\ forall k, bucket_ok (limit t) (t_buckets t !! k).

Lemma Allow_ok t now key : throttle_ok t -> throttle_ok (Allow t now key).2.
Proof.
  intros (Hl & Hw & Hb). pose proof (Allow_attempt t now key) as Ha.
  destruct (Allow t now key) as [v t']. destruct Ha as (El & Ew & Ha).
  destruct (Ha ltac:(lia)) as (_ & Hk & Ho). unfold throttle_ok. cbn. rewrite El, Ew.
  split; [done|]. split; [done|].
  assert (Hg : forall k, bucket_ok (limit t) (t_buckets (gcLocked t now) !! k)).
  { intros k b0 E. apply (Hb k). unfold gcLocked in E. cbn in E.
    by apply map_lookup_filter_Some in E as [E _]. }
  intros k. destruct (decide (k = key)) as [->|Hne]; [rewrite Hk; by apply attempt_ok|].
  rewrite Ho by done. apply Hg.
Qed.

Lemma allows_ok l t :
  throttle_ok t ->
  throttle_ok (allows t l).2 /\ limit (allows t l).2 = limit t /\ window (allows t l).2 = window t.
Proof.
  revert t; induction l as [|[now k] l IH]; intros t Ht; [done|]. cbn [allows].
  pose proof (Allow_ok t now k Ht) as Ht'. pose proof (Allow_attempt t now k) as Ha.
  destruct (Allow t now k) as [[ok r] t']. destruct Ha as (El & Ew & _). cbn in Ht'.
  specialize (IH t' Ht'). rewrite El, Ew in IH. by destruct (allows t' l).
Qed.

(** The price of fixed windows.  After any history, in a stretch of time no
    longer than the window, a key gets at most twice the limit less one attempts
    admitted, whatever the other keys do. *)
Theorem throttle_burst_bound lim win l1 l2 key a :
  0 < lim -> 0 < win -> Sorted Z.le (map fst l2) ->
  Forall (fun x : Z * string => a <= x.1 <= a + win) l2 ->
  let t := (allows (New lim win) l1).2 in
  0 <= admitted (answers_of key l2 (allows t l2).1) <= 2 * lim - 1.
Proof.
  intros Hl Hw Hs Hf t.
  assert (En : New lim win = mkThrottle ∅ lim win).
  { unfold New. rewrite (proj2 (Z.ltb_ge lim 0)), (proj2 (Z.leb_gt win 0)), andb_false_r by lia. done. }
  destruct (allows_ok l1 (New lim win)) as (Ht & El & Ew).
  { rewrite En. split; [done|]. split; [done|]. intros k b0 E. cbn in E. by rewrite lookup_empty in E. }
  fold t in Ht, El, Ew. rewrite En in El, Ew. cbn in El, Ew.
  destruct l2 as [|[now k] l2]; [cbn; lia|].
  rewrite (allows_stands _ t now key (t_buckets t !! key)).
  - destruct Ht as (_ & _ & Hb). rewrite El, Ew.
    pose proof (admitted_stretch lim win (t_buckets t !! key) (times_of key ((now, k) :: l2)) a Hl) as H.
    specialize (Hb key). rewrite El in Hb. specialize (H Hb).
    assert (Hf' : Forall (fun x => a <= x <= a + win) (times_of key ((now, k) :: l2))).
    { apply Forall_forall. intros x Hx. unfold times_of in Hx.
      apply list_elem_of_omap in Hx as (y & Hy & E). case_decide; [|done]. injection E as <-.
      by apply (proj1 (Forall_forall _ _) Hf). }
    specialize (H Hf'). destruct (t_buckets t !! key) as [b|]; [specialize (Hb b eq_refl)|]; lia.
  - rewrite Ew. done.
  - by left.
  - constructor; [exact Hs|]. constructor. cbn. lia.
Qed.

Lemma throttle_burst_bound_witness :
  let t := (allows (New 2 10) [(0, "a")]).2 in
  let l := [(1, "a"); (11, "a"); (11, "a"); (11, "a")] in
  admitted (answers_of "a" l (allows t l).1) = 3 /\
  0 <= admitted (answers_of "a" l (allows t l).1) <= 2 * 2 - 1.
Proof.
  cbv zeta. split; [vm_compute; reflexivity|].
  apply (throttle_burst_bound 2 10 [(0, "a")] _ "a" 1); [lia|lia| |];
    repeat constructor; cbn; lia.
Defined.
