(* ===== verification/RateLimit.v ===== *)
(** * The mail rate limiter (chassis/mail/ratelimit.go)

    A log of send times per tenant and a set of caps, each a number of sends per
    sliding window.  [allow] runs under the limiter's mutex, so a history is a
    sequence of attempts.  The reference counts over everything a tenant was ever
    allowed; the limiter forgets what no window reaches. *)

From Stdlib Require Import Ascii String ZArith Lia Bool.
From stdpp Require Import base tactics list strings gmap sorting.
From S2P Require Import Prelude GoStrings GoStrconv.

Open Scope Z_scope.

Record rateRule := mkRule { r_max : Z; r_window : Z }.
Record rateLimiter := mkLimiter { rules : list rateRule; longest : Z; seen : gmap string (list Z) }.

(** [strconv.Atoi] *)
Definition Atoi (s : string) : option Z :=
  let neg := HasPrefix s "-" in
  let digits := if neg || HasPrefix s "+" then sdrop 1 s else s in
  if (digits =s "") || negb (sall is_dec digits) then None
  else let v := dec_value digits 0 in
       if neg then if v <=? MaxInt64 + 1 then Some (- v) else None
       else if v <=? MaxInt64 then Some v else None.

(** One entry of the spec: [<count>/<duration>]. *)
Definition parse_rule (part : string) : option rateRule :=
  let part := TrimSpace part in
  match String.index 0 "/" part with
  | None | Some O => None
  | Some i =>
      match Atoi (TrimSpace (stake i part)) with
      | None => None
      | Some max =>
          if max <=? 0 then None
          else match ParseDuration (TrimSpace (sdrop (S i) part)) with
               | Some win => if win <=? 0 then None else Some (mkRule max win)
               | None => None
               end
      end
  end.

Definition parseRateRules (spec : string) : list rateRule := omap parse_rule (Split spec ",").

Definition newRateLimiter (rs : list rateRule) : option rateLimiter :=
  match rs with
  | [] => None
  | _ => Some (mkLimiter rs (foldl (fun l r => if l <? r_window r then r_window r else l) 0 rs) ∅)
  end.

(** The leading entries before the cutoff go. *)
Fixpoint drop_before (cutoff : Z) (ts : list Z) : list Z :=
  match ts with
  | t :: ts' => if t <? cutoff then drop_before cutoff ts' else ts
  | [] => []
  end.

(** Counted from the end, until one is before [start]. *)
Fixpoint count_back (start : Z) (ts : list Z) : Z :=
  match ts with
  | t :: ts' => if t <? start then 0 else 1 + count_back start ts'
  | [] => 0
  end.
Definition recent (start : Z) (ts : list Z) : Z := count_back start (rev ts).

Definition put_log (rl : rateLimiter) (tenant : string) (ts : list Z) : rateLimiter :=
  mkLimiter (rules rl) (longest rl) (<[tenant := ts]> (seen rl)).

Definition allow (rl : rateLimiter) (tenant : string) (now : Z) : bool * rateLimiter :=
  let ts := drop_before (now - longest rl) (default [] (seen rl !! tenant)) in
  if forallb (fun r => recent (now - r_window r) ts <? r_max r) (rules rl) then (true, put_log rl tenant (ts ++ [now]))
  else (false, match ts with
               | [] => mkLimiter (rules rl) (longest rl) (delete tenant (seen rl))
               | _ => put_log rl tenant ts
               end).

Example parseRateRules_ex : parseRateRules "100/2m, 200/4h,,0/1h,5/x,/3s,7" = [mkRule 100 120000000000; mkRule 200 14400000000000].
Proof. vm_compute. reflexivity. Qed.

(** ** Histories *)

Fixpoint allows (rl : rateLimiter) (l : list (Z * string)) : list bool * rateLimiter :=
  match l with
  | [] => ([], rl)
  | (now, tenant) :: l =>
      let '(ok, rl) := allow rl tenant now in
      let '(vs, rl) := allows rl l in (ok :: vs, rl)
  end.

(** The send times a tenant was allowed. *)
Fixpoint allowed (tenant : string) (l : list (Z * string)) (vs : list bool) : list Z :=
  match l, vs with
  | (now, x) :: l, v :: vs => if v && (x =s tenant) then now :: allowed tenant l vs else allowed tenant l vs
  | _, _ => []
  end.

(** How many of [ts] lie in a closed window. *)
Definition within (lo hi : Z) (ts : list Z) : Z := Z.of_nat (length (filter (fun t => lo <= t <= hi) ts)).

(** The reference: every cap has room over all the tenant was ever allowed. *)
Definition permits (rs : list rateRule) (sent : list Z) (now : Z) : bool :=
  forallb (fun r => within (now - r_window r) now sent <? r_max r) rs.

(** ** The log *)

Abbreviation asc ts := (StronglySorted Z.le ts).

Lemma drop_before_spec c ts : asc ts ->
  exists old, ts = old ++ drop_before c ts /\ Forall (fun t => t < c) old /\ Forall (fun t => c <= t) (drop_before c ts).
Proof.
  induction 1 as [|t ts Hs IH Hall]; [by exists []|]. cbn. destruct (Z.ltb_spec t c) as [Hlt|Hge].
  - destruct IH as (old & E & H1 & H2). exists (t :: old). cbn. split_and!; [by f_equal|by constructor|done].
  - exists []. split_and!; [done|constructor|]. constructor; [done|]. eapply Forall_impl; [exact Hall|]. cbn. lia.
Qed.

Lemma filter_all {A} (P : A -> Prop) `{!forall x, Decision (P x)} l : Forall P l -> filter P l = l.
Proof. induction 1 as [|x l Hx _ IH]; [done|]. by rewrite filter_cons_True, IH. Qed.
Lemma filter_none {A} (P : A -> Prop) `{!forall x, Decision (P x)} l : Forall (fun x => ~ P x) l -> filter P l = [].
Proof. induction 1 as [|x l Hx _ IH]; [done|]. by rewrite filter_cons_False, IH. Qed.

Lemma within_app lo hi l l' : within lo hi (l ++ l') = within lo hi l + within lo hi l'.
Proof. unfold within. rewrite filter_app, length_app. lia. Qed.

Lemma within_old lo hi l : Forall (fun t => t < lo) l -> within lo hi l = 0.
Proof. intros H. unfold within. rewrite filter_none; [done|]. eapply Forall_impl; [exact H|]. cbn. lia. Qed.

(** Counting from the end is counting, in a log that ascends and ends by now. *)
Lemma recent_within start now ts : asc ts -> Forall (fun t => t <= now) ts -> recent start ts = within start now ts.
Proof.
  induction ts as [|t ts IH] using rev_ind; intros Hs Hn; [done|].
  apply Forall_app in Hn as [Hn Ht]. rewrite Forall_singleton in Ht. cbn in Ht. apply StronglySorted_app in Hs as (Hle & Hs & _).
  unfold recent in *. rewrite rev_unit, within_app. cbn [count_back]. destruct (Z.ltb_spec t start).
  - rewrite !within_old; [done| |]; [by constructor|]. apply Forall_forall. intros x Hx.
    specialize (Hle x t Hx). assert (x <= t) by (apply Hle; by apply list_elem_of_singleton). lia.
  - rewrite IH by done. assert (within start now [t] = 1) as ->; [|lia]. unfold within. rewrite filter_all; [done|]. constructor; [lia|done].
Qed.

(** ** The limiter and the reference *)

Section Runs.
Variable rs : list rateRule.
Hypothesis caps : Forall (fun r => 0 < r_max r /\ 0 < r_window r) rs.
Abbreviation top := (foldl (fun l r => if l <? r_window r then r_window r else l) 0 rs).

Lemma fold_top l0 l : l0 <= foldl (fun l r => if l <? r_window r then r_window r else l) l0 l /\
  (forall r, r ∈ l -> r_window r <= foldl (fun l r => if l <? r_window r then r_window r else l) l0 l) /\
  (foldl (fun l r => if l <? r_window r then r_window r else l) l0 l = l0 \/
   exists r, r ∈ l /\ foldl (fun l r => if l <? r_window r then r_window r else l) l0 l = r_window r).
Proof.
  revert l0; induction l as [|r l IH]; intros l0; cbn [foldl]; [split_and!; [lia|by intros r ?%elem_of_nil|by left]|].
  destruct (IH (if l0 <? r_window r then r_window r else l0)) as (H1 & H2 & H3).
  assert (Hm : l0 <= (if l0 <? r_window r then r_window r else l0) /\ r_window r <= (if l0 <? r_window r then r_window r else l0)) by (destruct (Z.ltb_spec l0 (r_window r)); lia).
  split_and!; [lia| |].
  - intros r' [->|Hr]%elem_of_cons; [lia|by apply H2].
  - destruct H3 as [->|(r' & Hr & ->)]; [|right; exists r'; split; [by apply list_elem_of_further|done]].
    destruct (Z.ltb_spec l0 (r_window r)); [right; exists r; split; [by apply list_elem_of_here|done]|by left].
Qed.

(** The log of a tenant is the end of what it was allowed; what is gone is out of
    every window. *)
Definition log_of (rl : rateLimiter) (tenant : string) : list Z := default [] (seen rl !! tenant).
Record log_ok (last : Z) (rl : rateLimiter) (sent : string -> list Z) : Prop := {
  lo_rules : rules rl = rs; lo_top : longest rl = top;
  lo_log : forall tenant, exists old, sent tenant = old ++ log_of rl tenant /\ Forall (fun t => t < last - top) old;
  lo_asc : forall tenant, asc (sent tenant);
  lo_past : forall tenant, Forall (fun t => t <= last) (sent tenant) }.

Lemma forallb_same {A} (f g : A -> bool) l : (forall x, x ∈ l -> f x = g x) -> forallb f l = forallb g l.
Proof. induction l as [|x l IH]; intros H; [done|]. cbn. rewrite (H x) by by apply list_elem_of_here. f_equal. apply IH. intros y Hy. apply H. by apply list_elem_of_further. Qed.

Lemma permits_log last rl sent tenant now :
  log_ok last rl sent -> last <= now ->
  forallb (fun r => recent (now - r_window r) (drop_before (now - longest rl) (log_of rl tenant)) <? r_max r) (rules rl) =
  permits rs (sent tenant) now.
Proof.
  intros [Hr Ht Hl Ha Hp] Hn. rewrite Hr, Ht. destruct (Hl tenant) as (old & E & Ho). specialize (Ha tenant). specialize (Hp tenant).
  rewrite E in Ha, Hp |- *. apply StronglySorted_app in Ha as (_ & _ & Hal). apply Forall_app in Hp as [_ Hp].
  destruct (drop_before_spec (now - top) _ Hal) as (old' & E' & Ho' & _). set (kept := drop_before (now - top) (log_of rl tenant)) in *.
  rewrite E' in Hal, Hp |- *. apply StronglySorted_app in Hal as (_ & _ & Hal). apply Forall_app in Hp as [_ Hp].
  apply forallb_same. intros r Hin. assert (Hw : r_window r <= top) by (by apply fold_top). f_equal.
  rewrite !within_app, (within_old _ _ old), (within_old _ _ old'), (recent_within _ now); [lia|done| | |].
  - eapply Forall_impl; [exact Hp|]. cbn. lia.
  - eapply Forall_impl; [exact Ho'|]. cbn. lia.
  - eapply Forall_impl; [exact Ho|]. cbn. lia.
Qed.

Definition send (sent : string -> list Z) (tenant : string) (now : Z) : string -> list Z :=
  fun x => if x =s tenant then sent x ++ [now] else sent x.

(** One attempt: the limiter answers as the reference and stays in step with it. *)
Lemma allow_ok last rl sent tenant now ok rl' :
  log_ok last rl sent -> last <= now -> allow rl tenant now = (ok, rl') ->
  ok = permits rs (sent tenant) now /\ log_ok now rl' (if ok then send sent tenant now else sent).
Proof.
  intros Hlog Hn. unfold allow. change (default [] (seen rl !! tenant)) with (log_of rl tenant). rewrite (permits_log last rl sent tenant now Hlog Hn).
  destruct Hlog as [Hr Ht Hl Ha Hp]. rewrite Ht. set (kept := drop_before (now - top) (log_of rl tenant)).
  assert (Hk : exists old, sent tenant = old ++ kept /\ Forall (fun t => t < now - top) old).
  { destruct (Hl tenant) as (old & E & Ho). specialize (Ha tenant). rewrite E in Ha. apply StronglySorted_app in Ha as (_ & _ & Ha).
    destruct (drop_before_spec (now - top) _ Ha) as (old' & E' & Ho' & _). exists (old ++ old'). rewrite E. split; [rewrite E' at 1; by rewrite (assoc_L (++))|].
    apply Forall_app. split; [|done]. eapply Forall_impl; [exact Ho|]. cbn. lia. }
  assert (Hother : forall x, exists old, sent x = old ++ log_of rl x /\ Forall (fun t => t < now - top) old).
  { intros x. destruct (Hl x) as (old & E & Ho). exists old. split; [done|]. eapply Forall_impl; [exact Ho|]. cbn. lia. }
  assert (Hpast : forall x, Forall (fun t => t <= now) (sent x)) by (intros x; eapply Forall_impl; [apply Hp|]; cbn; lia).
  destruct (permits rs (sent tenant) now); intros [= <- <-]; (split; [done|]).
  - split; [done|done| | |]; intros x; unfold send, log_of, put_log; cbn; (destruct (String.eqb_spec x tenant) as [->|Hne]; [|rewrite ?lookup_insert_ne by done; auto]).
    + rewrite lookup_insert_eq. cbn. destruct Hk as (old & -> & Ho). exists old. by rewrite (assoc_L (++)).
    + apply StronglySorted_app_2; [|apply Ha|repeat constructor]. intros a b Hin ->%list_elem_of_singleton. specialize (Hpast tenant). rewrite Forall_forall in Hpast. by apply Hpast.
    + apply Forall_app. split; [apply Hpast|]. by repeat constructor.
  - assert (Hlog : forall x, log_of (match kept with [] => mkLimiter (rules rl) top (delete tenant (seen rl)) | _ => put_log rl tenant kept end) x =
                       if x =s tenant then kept else log_of rl x).
    { intros x. unfold log_of. destruct (String.eqb_spec x tenant) as [->|Hne]; destruct kept; cbn; by rewrite ?lookup_delete_eq, ?lookup_delete_ne, ?lookup_insert_eq, ?lookup_insert_ne. }
    split; [by destruct kept|by destruct kept| |done|done]. intros x. rewrite Hlog. destruct (String.eqb_spec x tenant) as [->|Hne]; auto.
Qed.

(** Any window of a rule holds at most its number of sends. *)
Definition capped (ts : list Z) : Prop := forall r lo, r ∈ rs -> within lo (lo + r_window r) ts <= r_max r.

Lemma within_le lo hi ts lo' hi' : lo' <= lo -> (forall t, t ∈ ts -> t <= hi -> t <= hi') -> within lo hi ts <= within lo' hi' ts.
Proof.
  intros Hlo Hhi. unfold within. apply Nat2Z.inj_le. induction ts as [|t ts IH]; [done|].
  specialize (IH ltac:(intros x Hx; apply Hhi; by apply list_elem_of_further)).
  rewrite !filter_cons. assert (Ht : t <= hi -> t <= hi') by (apply Hhi, list_elem_of_here). repeat case_decide; cbn [length]; lia.
Qed.

Lemma capped_send ts now : capped ts -> Forall (fun t => t <= now) ts -> permits rs ts now = true -> capped (ts ++ [now]).
Proof.
  intros Hc Hp Hok r lo Hr. rewrite within_app. unfold within at 2. rewrite filter_cons. destruct (decide (lo <= now <= lo + r_window r)) as [Hin|Hout]; cbn [length filter].
  - assert (Hlt : within (now - r_window r) now ts < r_max r).
    { unfold permits in Hok. rewrite forallb_forall in Hok. apply Z.ltb_lt, Hok. by apply list_elem_of_In. }
    assert (within lo (lo + r_window r) ts <= within (now - r_window r) now ts); [|cbn; lia].
    apply within_le; [lia|]. intros t Ht _. rewrite Forall_forall in Hp. by apply Hp.
  - specialize (Hc r lo Hr). cbn. lia.
Qed.

(** In step with the reference from [sent] on. *)
Lemma history_ok l : forall last rl sent vs rl',
  log_ok last rl sent -> (forall x, capped (sent x)) -> StronglySorted Z.le (last :: map fst l) -> allows rl l = (vs, rl') ->
  (forall tenant, capped (sent tenant ++ allowed tenant l vs)) /\
  (forall i now tenant, l !! i = Some (now, tenant) ->
     vs !! i = Some (permits rs (sent tenant ++ allowed tenant (take i l) (take i vs)) now)) /\
  exists last', log_ok last' rl' (fun tenant => sent tenant ++ allowed tenant l vs).
Proof.
  induction l as [|[now x] l IH]; intros last rl sent vs rl' Hlog Hcap Hs; cbn [allows].
  - intros [= <- <-]. split_and!; [intros t; cbn; rewrite app_nil_r; auto|done|]. exists last. destruct Hlog as [H1 H2 H3 H4 H5].
    split; [done|done|..]; intros t; cbn; rewrite app_nil_r; auto.
  - destruct (allow rl x now) as [ok rl1] eqn:E1. destruct (allows rl1 l) as [vs1 rl2] eqn:E2. intros [= <- <-].
    inversion Hs as [|? ? Hs' Hall]; subst. inversion Hall as [|? ? Hn _]; subst. cbn in Hn.
    destruct (allow_ok _ _ _ _ _ _ _ Hlog Hn E1) as [Hok Hlog1].
    assert (Hcap1 : forall t, capped ((if ok then send sent x now else sent) t)).
    { intros t. destruct ok; [|done]. unfold send. destruct (String.eqb_spec t x) as [->|]; [|done]. apply capped_send; [done| |done].
      eapply Forall_impl; [apply (lo_past _ _ _ Hlog)|]. cbn. lia. }
    destruct (IH now rl1 _ vs1 rl2 Hlog1 Hcap1 Hs' E2) as (H1 & H2 & last' & H3).
    assert (Hstep : forall t l vs, (if ok then send sent x now else sent) t ++ allowed t l vs = sent t ++ allowed t ((now, x) :: l) (ok :: vs)).
    { intros t l' vs'. cbn [allowed]. unfold send. destruct ok; cbn [andb]; [|done]. rewrite (String.eqb_sym x t).
      destruct (t =s x); [|done]. by rewrite <- (assoc_L (++)). }
    split_and!.
    + intros t. rewrite <- Hstep. apply H1.
    + intros [|i] now' t Hi; [injection Hi as <- <-; cbn; by rewrite app_nil_r, Hok|]. cbn [take]. rewrite <- Hstep. exact (H2 i now' t Hi).
    + exists last'. destruct H3 as [G1 G2 G3 G4 G5]. split; [done|done|..]; intros t; rewrite <- Hstep; auto.
Qed.
End Runs.

Lemma parsed_caps spec : Forall (fun r => 0 < r_max r /\ 0 < r_window r) (parseRateRules spec).
Proof.
  apply Forall_forall. intros r (part & _ & Hp)%list_elem_of_omap. revert Hp. unfold parse_rule. repeat (case_match; try done).
  intros [= <-]. cbn. lia.
Qed.

(** C26: the rate limiter keeps its caps and refuses only for them.  For any spec and
    any history of attempts whose clock does not go back: in every closed window
    as long as a rule's, wherever it starts, a tenant was allowed at most the
    rule's number of sends; and each attempt is allowed exactly when every rule
    has room in the window that ends then, counting all the tenant was ever
    allowed, so dropping old entries and other tenants change nothing. *)
Theorem rate_caps spec rl l vs rl' :
  newRateLimiter (parseRateRules spec) = Some rl -> StronglySorted Z.le (map fst l) -> allows rl l = (vs, rl') ->
  (forall tenant r lo, r ∈ parseRateRules spec -> within lo (lo + r_window r) (allowed tenant l vs) <= r_max r) /\
  (forall i now tenant, l !! i = Some (now, tenant) ->
     vs !! i = Some (permits (parseRateRules spec) (allowed tenant (take i l) (take i vs)) now)).
Proof.
  intros Hnew Hs Ha. pose proof (parsed_caps spec) as Hc. set (rs := parseRateRules spec) in *.
  set (first := match l with [] => 0 | (now, _) :: _ => now end).
  assert (Hlog : log_ok rs first rl (fun _ => [])).
  { destruct rs as [|r0 rs0]; [done|]. injection Hnew as <-. split; [done|done|intros t; exists []; split; [unfold log_of; cbn [seen]; by rewrite lookup_empty|constructor]|intros t; constructor|intros t; constructor]. }
  assert (Hcap : forall x : string, capped rs []).
  { intros _ r lo Hr. unfold within. cbn. rewrite Forall_forall in Hc. destruct (Hc r Hr). lia. }
  assert (Hs' : StronglySorted Z.le (first :: map fst l)).
  { destruct l as [|[now x] l]; [repeat constructor|]. cbn in *. constructor; [done|]. inversion Hs as [|? ? ? Hall]; subst. constructor; [lia|done]. }
  destruct (history_ok rs l first rl (fun _ => []) vs rl' Hlog Hcap Hs' Ha) as (H1 & H2 & _). split; [|done]. intros t r lo Hr. by apply (H1 t).
Qed.

Lemma rate_caps_witness :
  within 0 10 (allowed "a" [(0, "a"); (1, "b"); (2, "a"); (3, "a"); (20, "a")] [true; true; true; false; true]) <= 2 /\
  Some false = Some (permits [mkRule 2 10] [0; 2] 3).
Proof.
  destruct (rate_caps "2/10ns" (mkLimiter [mkRule 2 10] 10 ∅) [(0, "a"); (1, "b"); (2, "a"); (3, "a"); (20, "a")] [true; true; true; false; true]
    (mkLimiter [mkRule 2 10] 10 (<["a" := [20]]> (<["b" := [1]]> ∅)))) as [H1 H2].
  - vm_compute. reflexivity.
  - repeat constructor; cbn; lia.
  - vm_compute. reflexivity.
  - exact (conj (H1 "a" (mkRule 2 10) 0 ltac:(vm_compute; by apply list_elem_of_here)) (H2 3%nat 3 "a" eq_refl)).
Defined.
