(* ===== verification/Admission.v ===== *)
(** * Admission control (chassis/admission: state.go, provider.go, lease.go)

    [sqliteProvider] answers three questions per request: may the tenant run
    ([Decide]), is it under its rate ([AllowRate]) and is a concurrency slot
    free ([AcquireConcurrency]); [syncLimiters] re-applies the configuration to
    the live limiters.  golang.org/x/time/rate is a parameter.  A [concState] is
    shared by pointer between the provider's map, the acquiring goroutines and
    the closures registered on leases: it is a cell of a heap. *)

From Stdlib Require Import Ascii String ZArith Lia Bool.
From stdpp Require Import base tactics list strings gmap relations.
From S2P Require Import Prelude GoStrings GoStrconv.

Open Scope Z_scope.

(** ** State and decision (state.go) *)

Record TenantRuntimeState := mkTRS {
  Enabled : bool; Suspended : bool; DenyStatus : Z; DenyReason : string;
  RateLimitRPS : float64; RateBurst : Z; ConcurrencyLimit : Z }.

Definition IsAdmitted (s : TenantRuntimeState) : bool := Enabled s && negb (Suspended s).

Record Decision_ := mkDecision { Admit_ : bool; Status : Z; Reason : string; Retry : Z }.

Definition admits : Decision_ := mkDecision true 0 "" 0.

Definition defaultDenyStatus : Z := 403.
Definition SystemTenantSlug : string := "_sys".

(** ** Rate limiters: golang.org/x/time/rate *)

(** Every method reads the clock; the instants are arguments. *)
Class RateLib := {
  Limiter : Type;
  Reservation : Type;
  NewLimiter : float64 -> Z -> Limiter;
  SetLimit : Limiter -> Z -> float64 -> Limiter;
  SetBurst : Limiter -> Z -> Z -> Limiter;
  Reserve : Limiter -> Z -> Reservation * Limiter;
  OK : Reservation -> bool;
  Delay : Reservation -> Z -> Z;
  Cancel : Reservation -> Limiter -> Z -> Limiter }.

(** ** The provider *)

Record concState := mkConc { inFlight : Z; cap : Z }.

(** The concurrency side: the map and the cells it and others point to. *)
Record concs := mkConcs { cc : gmap string nat; heap : list concState }.

Abbreviation snapshot := (gmap string TenantRuntimeState).

Section Provider.
Context `{RateLib}.

Record sqliteProvider := mkProvider {
  snap : option snapshot; rl : gmap string Limiter; conc : concs }.

Definition NewSQLiteProvider : sqliteProvider := mkProvider (Some ∅) ∅ (mkConcs ∅ []).

Definition ungated (tenant : string) : bool := (tenant =s "") || (tenant =s SystemTenantSlug).

Definition Decide (p : sqliteProvider) (tenant : string) : Decision_ :=
  if ungated tenant then admits
  else match snap p with
  | None => admits
  | Some m =>
      match m !! tenant with
      | None => admits
      | Some st =>
          if IsAdmitted st then admits
          else
            let status := if DenyStatus st =? 0 then defaultDenyStatus else DenyStatus st in
            mkDecision false status (DenyReason st) 0
      end
  end.

Definition set_rl (p : sqliteProvider) (tenant : string) (l : Limiter) : sqliteProvider :=
  mkProvider (snap p) (<[tenant := l]> (rl p)) (conc p).

(** [t1], [t2], [t3]: the clock at the reservation, the delay and the cancel. *)
Definition AllowRate (p : sqliteProvider) (tenant : string) (t1 t2 t3 : Z)
  : bool * Z * sqliteProvider :=
  if ungated tenant then (true, 0, p)
  else match rl p !! tenant with
  | None => (true, 0, p)
  | Some lim =>
      let '(r, lim) := Reserve lim t1 in
      if negb (OK r) then (false, Second, set_rl p tenant lim)
      else
        let d := Delay r t2 in
        if d =? 0 then (true, 0, set_rl p tenant lim)
        else (false, d, set_rl p tenant (Cancel r lim t3))
  end.
End Provider.

(** ** Concurrency slots *)

Definition cell_set_cap (c : Z) (s : concState) : concState := mkConc (inFlight s) c.
Definition cell_add (n : Z) (s : concState) : concState := mkConc (wrap64 (inFlight s + n)) (cap s).

(** One atomic access of the concurrency half of [syncLimiters]: a turn of its
    first loop, and the two accesses of a turn of its second. *)
Inductive sync_op :=
| SetCap (slug : string) (limit : Z)
| DropCap (slug : string)
| DropEvict (slug : string).

Definition run_sync_op (s : concs) (op : sync_op) : concs :=
  match op with
  | SetCap slug limit =>
      match cc s !! slug with
      | Some i => mkConcs (cc s) (alter (cell_set_cap limit) i (heap s))
      | None => mkConcs (<[slug := length (heap s)]> (cc s)) (heap s ++ [mkConc 0 limit])
      end
  | DropCap slug =>
      match cc s !! slug with
      | Some i => mkConcs (cc s) (alter (cell_set_cap 0) i (heap s))
      | None => s
      end
  | DropEvict slug =>
      match cc s !! slug with
      | Some i =>
          match heap s !! i with
          | Some c => if inFlight c =? 0 then mkConcs (delete slug (cc s)) (heap s) else s
          | None => s
          end
      | None => s
      end
  end.

Definition limited (out : snapshot) (slug : string) : bool :=
  match out !! slug with Some st => 0 <? ConcurrencyLimit st | None => false end.

(** The accesses in one iteration order of the two maps. *)
Definition sync_ops (out : list (string * TenantRuntimeState)) (drops : list string) : list sync_op :=
  concat (map (fun x : string * TenantRuntimeState =>
                 if ConcurrencyLimit x.2 <=? 0 then [] else [SetCap x.1 (ConcurrencyLimit x.2)]) out) ++
  concat (map (fun slug => [DropCap slug; DropEvict slug]) drops).

Definition drops_of (out : snapshot) (m : gmap string nat) : list string :=
  List.filter (fun slug => negb (limited out slug)) (map fst (map_to_list m)).

Definition syncConcurrency (out : snapshot) (s : concs) : concs :=
  fold_left run_sync_op (sync_ops (map_to_list out) (drops_of out (cc s))) s.

(** A row of the query of [Rebuild], and the snapshot the rows make. *)
Record row := mkRow {
  w_slug : string; w_enabled : Z; w_suspended : Z; w_status : Z; w_reason : string;
  w_rps : float64; w_burst : Z; w_conc : Z }.

Definition scan_rows (rows : list row) : snapshot :=
  fold_left (fun (out : snapshot) r =>
    <[w_slug r := mkTRS (negb (w_enabled r =? 0)) (negb (w_suspended r =? 0)) (w_status r) (w_reason r)
                        (w_rps r) (w_burst r) (w_conc r)]> out) rows ∅.

Section Sync.
Context `{RateLib}.

Definition rated (out : snapshot) (slug : string) : bool :=
  match out !! slug with Some st => negb (f64_leb (RateLimitRPS st) (f64_of_Z 0)) | None => false end.

(** A turn of the first loop over the new snapshot. *)
Definition sync_limiter (now : Z) (slug : string) (st : TenantRuntimeState) (m : gmap string Limiter)
  : gmap string Limiter :=
  if f64_leb (RateLimitRPS st) (f64_of_Z 0) then m
  else
    let burst := if RateBurst st <? 1 then 1 else RateBurst st in
    match m !! slug with
    | Some lim => <[slug := SetBurst (SetLimit lim now (RateLimitRPS st)) now burst]> m
    | None => <[slug := NewLimiter (RateLimitRPS st) burst]> m
    end.

Definition syncRates (now : Z) (out : snapshot) (m : gmap string Limiter) : gmap string Limiter :=
  filter (fun x : string * Limiter => rated out x.1 = true) (map_fold (sync_limiter now) m out).

Definition syncLimiters (now : Z) (p : sqliteProvider) (out : snapshot) : sqliteProvider :=
  mkProvider (snap p) (syncRates now out (rl p)) (syncConcurrency out (conc p)).

(** [rows] is what the query and the scans returned, or nothing when one of
    them failed: the provider is then kept. *)
Definition Rebuild (now : Z) (p : sqliteProvider) (rows : option (list row)) : sqliteProvider :=
  match rows with
  | None => p
  | Some rows =>
      let out := scan_rows rows in
      syncLimiters now (mkProvider (Some out) (rl p) (conc p)) out
  end.
End Sync.

(** ** Leases and the interleaving of goroutines (lease.go, AcquireConcurrency)

    [AcquireConcurrency], [Lease.Release] and [syncLimiters] run concurrently.
    Each step below is one atomic access: taking the provider's mutex to read
    the map, a load, a compare-and-swap, an append under the lease's mutex, one
    release function, one access of [syncLimiters], which holds the provider's
    mutex from its first access to its last. *)

Inductive Once := Fresh | Running | Finished.

(** A registered function decrements the cell it names. *)
Record Lease := mkLease { once : Once; fns : list nat }.

Definition NewLease : Lease := mkLease Fresh [].

Inductive athread :=
| AStart (tenant : string) (lease : option nat)
| ALimit (cs : nat) (lease : option nat)
| ALoad (cs : nat) (limit : Z) (lease : option nat)
| ACas (cs : nat) (limit cur : Z) (lease : option nat)
| ARegister (cs : nat) (lease : option nat)
| ANoLease (cs : nat)
| ADone (ok : bool)
| RStart (lease : nat)
| RTake (lease : nat)
| RRun (lease : nat) (todo : list nat)
| RDone
| SStart (out : snapshot)
| SRun (todo : list sync_op)
| SDone.

Record shared := mkShared { mu : bool; state : concs; leases : list Lease }.

Definition acell (s : shared) (i : nat) : option concState := heap (state s) !! i.

Definition with_heap (s : shared) (h : list concState) : shared :=
  mkShared (mu s) (mkConcs (cc (state s)) h) (leases s).

Definition with_lease (s : shared) (l : nat) (f : Lease -> Lease) : shared :=
  mkShared (mu s) (state s) (alter f l (leases s)).

Definition onRelease (cs : nat) (l : Lease) : Lease := mkLease (once l) (fns l ++ [cs]).
Definition set_once (o : Once) (l : Lease) : Lease := mkLease o (fns l).
Definition clear_fns (l : Lease) : Lease := mkLease (once l) [].

Inductive astep1 : shared -> athread -> shared -> athread -> Prop :=
(* AcquireConcurrency *)
| as_ungated s tenant l : ungated tenant = true -> astep1 s (AStart tenant l) s (ADone true)
| as_unlimited s tenant l :
    ungated tenant = false -> mu s = false -> cc (state s) !! tenant = None ->
    astep1 s (AStart tenant l) s (ADone true)
| as_fetch s tenant l cs :
    ungated tenant = false -> mu s = false -> cc (state s) !! tenant = Some cs ->
    astep1 s (AStart tenant l) s (ALimit cs l)
| as_nolimit s cs l c : acell s cs = Some c -> cap c <= 0 -> astep1 s (ALimit cs l) s (ADone true)
| as_limit s cs l c : acell s cs = Some c -> 0 < cap c -> astep1 s (ALimit cs l) s (ALoad cs (cap c) l)
| as_full s cs limit l c :
    acell s cs = Some c -> limit <= inFlight c -> astep1 s (ALoad cs limit l) s (ADone false)
| as_load s cs limit l c :
    acell s cs = Some c -> inFlight c < limit -> astep1 s (ALoad cs limit l) s (ACas cs limit (inFlight c) l)
| as_swap s cs limit cur l c :
    acell s cs = Some c -> inFlight c = cur ->
    astep1 s (ACas cs limit cur l) (with_heap s (alter (cell_add 1) cs (heap (state s)))) (ARegister cs l)
| as_retry s cs limit cur l c :
    acell s cs = Some c -> inFlight c <> cur -> astep1 s (ACas cs limit cur l) s (ALoad cs limit l)
| as_register s cs l x :
    leases s !! l = Some x ->
    astep1 s (ARegister cs (Some l)) (with_lease s l (onRelease cs)) (ADone true)
| as_nolease s cs : astep1 s (ARegister cs None) s (ANoLease cs)
(* Lease.Release *)
| rs_do s l x :
    leases s !! l = Some x -> once x = Fresh ->
    astep1 s (RStart l) (with_lease s l (set_once Running)) (RTake l)
| rs_again s l x : leases s !! l = Some x -> once x = Finished -> astep1 s (RStart l) s RDone
| rs_take s l x : leases s !! l = Some x -> astep1 s (RTake l) (with_lease s l clear_fns) (RRun l (fns x))
| rs_run s l cs todo :
    astep1 s (RRun l (cs :: todo)) (with_heap s (alter (cell_add (-1)) cs (heap (state s)))) (RRun l todo)
| rs_end s l x :
    leases s !! l = Some x -> astep1 s (RRun l []) (with_lease s l (set_once Finished)) RDone
(* syncLimiters *)
| ss_lock s out order drops :
    mu s = false -> order ≡ₚ map_to_list out -> drops ≡ₚ drops_of out (cc (state s)) ->
    astep1 s (SStart out) (mkShared true (state s) (leases s)) (SRun (sync_ops order drops))
| ss_op s op todo :
    astep1 s (SRun (op :: todo)) (mkShared (mu s) (run_sync_op (state s) op) (leases s)) (SRun todo)
| ss_unlock s : astep1 s (SRun []) (mkShared false (state s) (leases s)) SDone.

Definition aconfig : Type := shared * list athread.

Inductive astep : aconfig -> aconfig -> Prop :=
| astep_thread s t s' t' ts us :
    astep1 s t s' t' -> astep (s, ts ++ t :: us) (s', ts ++ t' :: us).

(** ** Accounting *)

Fixpoint occ (i : nat) (l : list nat) : nat :=
  match l with [] => 0 | j :: l => (if decide (i = j) then 1 else 0) + occ i l end%nat.

(** The slots of cell [i] a goroutine owes a decrement for: taken and not yet
    registered, taken without a lease, or about to be released. *)
Definition owed (i : nat) (t : athread) : nat :=
  match t with
  | ARegister cs _ | ANoLease cs => occ i [cs]
  | RRun _ todo => occ i todo
  | _ => 0
  end.

Definition registered (i : nat) (s : shared) : nat := sum_list_with (fun l => occ i (fns l)) (leases s).

Definition held (i : nat) (c : aconfig) : nat := (registered i c.1 + sum_list_with (owed i) c.2)%nat.

(** What a step adds to the slots of cell [i]. *)
Definition flow (i : nat) (s : shared) (t : athread) (s' : shared) (t' : athread) : Z :=
  Z.of_nat (registered i s' + owed i t') - Z.of_nat (registered i s + owed i t).

Lemma occ_app i l l' : occ i (l ++ l') = (occ i l + occ i l')%nat.
Proof. induction l; cbn; lia. Qed.

Lemma sum_alter {A} (f : A -> nat) (g : A -> A) l n x :
  l !! n = Some x -> (sum_list_with f (alter g n l) + f x = sum_list_with f l + f (g x))%nat.
Proof.
  revert n; induction l as [|y l IH]; intros [|n] E; cbn in *; [done..| |].
  - injection E as ->. lia.
  - specialize (IH n E). change (list_alter g n l) with (alter g n l). lia.
Qed.

Lemma held_flow i s t s' t' ts us :
  Z.of_nat (held i (s', ts ++ t' :: us)) = Z.of_nat (held i (s, ts ++ t :: us)) + flow i s t s' t'.
Proof. unfold held, flow. cbn [fst snd]. rewrite !sum_list_with_app. cbn [sum_list_with]. lia. Qed.

Lemma registered_alter i s l f x :
  leases s !! l = Some x ->
  (registered i (with_lease s l f) + occ i (fns x) = registered i s + occ i (fns (f x)))%nat.
Proof. intros E. apply (sum_alter (fun l => occ i (fns l)) f (leases s) l x E). Qed.

Definition op_bound (C : Z) (op : sync_op) : Prop :=
  match op with SetCap _ limit => limit <= C | _ => True end.

(** No limit above [C] is configured, and none was loaded. *)
Definition thread_bound (C : Z) (t : athread) : Prop :=
  match t with
  | ALoad _ limit _ => limit <= C
  | ACas _ limit cur _ => cur < limit <= C
  | SStart out => map_Forall (fun _ st => ConcurrencyLimit st <= C) out
  | SRun todo => Forall (op_bound C) todo
  | _ => True
  end.

(** What one step does to the cells: an old cell's counter follows the slots,
    a new cell starts without any. *)
Definition cells_follow (C : Z) (s : shared) (t : athread) (s' : shared) (t' : athread) : Prop :=
  (forall i c', acell s' i = Some c' ->
     (exists c, acell s i = Some c /\ (cap c' = cap c \/ cap c' <= C) /\
        ((inFlight c' = inFlight c /\ flow i s t s' t' = 0) \/
         (inFlight c' = wrap64 (inFlight c + flow i s t s' t') /\
          (flow i s t s' t' <= 0 \/ inFlight c + flow i s t s' t' <= C)))) \/
     (acell s i = None /\ inFlight c' = 0 /\ cap c' <= C /\ flow i s t s' t' = 0)) /\
  (forall i, acell s' i = None -> acell s i = None /\ flow i s t s' t' <= 0).

Lemma follow_same C s t s' t' :
  heap (state s') = heap (state s) -> (forall i, flow i s t s' t' = 0) -> cells_follow C s t s' t'.
Proof.
  intros Eh Hf. unfold cells_follow, acell. rewrite Eh. split; intros i.
  - intros c' E. left. exists c'. rewrite Hf. auto.
  - intros E. rewrite Hf. auto with lia.
Qed.

Lemma follow_add C s t s' t' n cs :
  heap (state s') = alter (cell_add n) cs (heap (state s)) ->
  (forall i, flow i s t s' t' = if decide (i = cs) then n else 0) ->
  n <= 0 \/ (exists c, acell s cs = Some c /\ inFlight c + n <= C) ->
  cells_follow C s t s' t'.
Proof.
  intros Eh Hf Hn. unfold cells_follow, acell in *. rewrite Eh. split; intros i.
  - intros c' E. left. rewrite Hf. rewrite list_lookup_alter in E.
    case_decide as Ei; case_decide; try congruence.
    + subst i. apply fmap_Some in E as (c & E & ->). exists c. split; [done|]. split; [by left|]. right.
      split; [done|]. destruct Hn as [?|(c0 & E0 & ?)]; [by left|right]. congruence.
    + exists c'. auto.
  - rewrite list_lookup_alter. intros E.
    assert (E' : heap (state s) !! i = None) by (case_decide; subst; [by apply fmap_None in E|done]).
    split; [done|]. clear E. rewrite Hf. case_decide; [|lia]. subst i.
    destruct Hn as [?|(c0 & E0 & ?)]; [done|congruence].
Qed.

(** A cell before and after an access of [syncLimiters]. *)
Definition cell_after (C : Z) (o o' : option concState) : Prop :=
  match o' with
  | Some c' =>
      (exists c, o = Some c /\ inFlight c' = inFlight c /\ (cap c' = cap c \/ cap c' <= C)) \/
      (o = None /\ inFlight c' = 0 /\ cap c' <= C)
  | None => o = None
  end.

Lemma cell_after_refl C o : cell_after C o o.
Proof. destruct o as [c|]; [|done]. left. exists c. auto. Qed.

Lemma cell_after_cap C (h : list concState) n i c : c <= C -> cell_after C (h !! i) (alter (cell_set_cap c) n h !! i).
Proof.
  intros Hc. rewrite list_lookup_alter. case_decide; [|apply cell_after_refl].
  subst. destruct (h !! i) as [c0|] eqn:E; [|done]. left. exists c0. cbn. auto.
Qed.

Lemma run_sync_op_cells C s op i :
  0 <= C -> op_bound C op -> cell_after C (heap s !! i) (heap (run_sync_op s op) !! i).
Proof.
  intros HC Hop. pose proof (cell_after_refl C (heap s !! i)) as Hr.
  destruct op as [slug limit|slug|slug]; cbn; destruct (cc s !! slug) as [n|]; cbn; auto using cell_after_cap.
  - destruct ((heap s ++ [mkConc 0 limit]) !! i) as [c'|] eqn:E.
    + apply lookup_snoc_Some in E as [[_ E]|[-> <-]]; [left; exists c'; auto|].
      right. split; [by apply lookup_ge_None_2|auto].
    + apply lookup_ge_None in E. rewrite length_app in E. apply lookup_ge_None_2. lia.
  - destruct (heap s !! n) as [c|]; [|done]. by destruct (inFlight c =? 0).
Qed.

Lemma follow_sync C s op todo :
  0 <= C -> op_bound C op ->
  cells_follow C s (SRun (op :: todo)) (mkShared (mu s) (run_sync_op (state s) op) (leases s)) (SRun todo).
Proof.
  intros HC Hop.
  assert (Hf : forall i, flow i s (SRun (op :: todo)) (mkShared (mu s) (run_sync_op (state s) op) (leases s))
                              (SRun todo) = 0) by (intros i; unfold flow, registered; cbn; lia).
  split; intros i; rewrite Hf; pose proof (run_sync_op_cells C (state s) op i HC Hop) as Hc; unfold acell; cbn [state].
  - intros c' E. rewrite E in Hc. destruct Hc as [(c & E' & Ei & Ecap)|(E' & Ei & Ecap)]; [left|by right].
    exists c. auto.
  - intros E. rewrite E in Hc. split; [done|lia].
Qed.

Lemma astep1_follow C s t s' t' :
  0 <= C -> thread_bound C t -> astep1 s t s' t' -> cells_follow C s t s' t'.
Proof.
  intros HC Hb Hs.
  destruct Hs as [| | | | | | |s cs limit cur l c Hc Hcur| |s cs l x Hl| |s l x Hl| |s l x Hl|s l cs todo|s l x Hl| | |];
    try (apply follow_same; [done|intros i; unfold flow, registered; cbn; lia]).
  - apply (follow_add _ _ _ _ _ 1 cs); [done| |].
    + intros i. unfold flow, registered. cbn. case_decide; lia.
    + right. exists c. cbn in Hb. split; [done|lia].
  - apply follow_same; [done|]. intros i. unfold flow. pose proof (registered_alter i s l (onRelease cs) x Hl) as Hr.
    cbn [fns onRelease] in Hr. rewrite occ_app in Hr. cbn [owed]. lia.
  - apply follow_same; [done|]. intros i. unfold flow. pose proof (registered_alter i s l (set_once Running) x Hl) as Hr.
    cbn [fns set_once] in Hr. cbn [owed]. lia.
  - apply follow_same; [done|]. intros i. unfold flow. pose proof (registered_alter i s l clear_fns x Hl) as Hr.
    cbn [fns clear_fns occ] in Hr. cbn [owed]. lia.
  - apply (follow_add _ _ _ _ _ (-1) cs); [done| |by left].
    intros i. unfold flow, registered. cbn. case_decide; lia.
  - apply follow_same; [done|]. intros i. unfold flow. pose proof (registered_alter i s l (set_once Finished) x Hl) as Hr.
    cbn [fns set_once] in Hr. cbn [owed occ]. lia.
  - cbn in Hb. apply Forall_cons in Hb as [Hop _]. by apply follow_sync.
Qed.

Definition accounted (C : Z) (c : aconfig) : Prop :=
  (forall i x, acell c.1 i = Some x -> inFlight x = Z.of_nat (held i c) /\ inFlight x <= C /\ cap x <= C) /\
  (forall i, acell c.1 i = None -> held i c = 0%nat) /\
  Forall (thread_bound C) c.2.

Lemma sync_ops_bound C out order drops :
  map_Forall (fun _ st => ConcurrencyLimit st <= C) out -> order ≡ₚ map_to_list out ->
  Forall (op_bound C) (sync_ops order drops).
Proof.
  intros Hb Hp. unfold sync_ops. apply Forall_app. split; apply Forall_concat, Forall_forall; intros l Hl;
    apply list_elem_of_fmap in Hl as (x & -> & Hx).
  - destruct x as [slug st]. cbn. case_match; [done|]. repeat constructor. cbn.
    rewrite Hp in Hx. apply elem_of_map_to_list in Hx. exact (Hb _ _ Hx).
  - by repeat constructor.
Qed.

Lemma astep1_bound C s t s' t' :
  (forall i x, acell s i = Some x -> cap x <= C) ->
  thread_bound C t -> astep1 s t s' t' -> thread_bound C t'.
Proof.
  intros Hc Ht Hs. destruct Hs; cbn in *; try done; eauto using sync_ops_bound.
  - lia.
  - by apply Forall_cons in Ht as [_ Ht].
Qed.

Lemma astep_accounted C c c' :
  0 <= C <= MaxInt64 -> accounted C c -> astep c c' -> accounted C c'.
Proof.
  intros HC (Hc & Hn & Hb) Hs. destruct Hs as [s t s' t' ts us Hs]. cbn [fst snd] in *.
  apply Forall_app in Hb as [Hb1 Hb2]. apply Forall_cons in Hb2 as [Hbt Hb2].
  destruct (astep1_follow C s t s' t' ltac:(lia) Hbt Hs) as [Hcell Hnone].
  split; [|split]; cbn [fst snd].
  - intros i x E. pose proof (held_flow i s t s' t' ts us) as Hh.
    destruct (Hcell i x E) as [(x0 & E0 & Hcap & Hf)|(E0 & -> & Hcap & Hf)].
    + destruct (Hc i x0 E0) as (Hi & Hle & Hcap0). split; [|split; [|lia]].
      all: destruct Hf as [[-> Hf]|[-> Hf]]; [lia|].
      all: rewrite wrap64_id by (unfold int64_ok, MinInt64, two63; lia); lia.
    + specialize (Hn i E0). lia.
  - intros i E. destruct (Hnone i E) as [E0 Hf]. specialize (Hn i E0).
    pose proof (held_flow i s t s' t' ts us). lia.
  - apply Forall_app. split; [done|]. apply Forall_cons. split; [|done].
    apply (astep1_bound C s t s' t'); [|done..]. intros i x E. by apply (Hc i x E).
Qed.

(** A call about to start, with no configured limit above [C]. *)
Definition starting (C : Z) (t : athread) : Prop :=
  match t with
  | AStart _ _ | RStart _ => True
  | SStart out => map_Forall (fun _ st => ConcurrencyLimit st <= C) out
  | _ => False
  end.

Definition idle (n : nat) : shared := mkShared false (mkConcs ∅ []) (replicate n NewLease).

Lemma starting_accounted C n ts : Forall (starting C) ts -> accounted C (idle n, ts).
Proof.
  intros Hs. split; [done|]. split; cbn [fst snd].
  - intros i _. unfold held. cbn [fst snd].
    assert (registered i (idle n) = 0%nat) as -> by (unfold registered; cbn; induction n; cbn; lia).
    induction Hs as [|t ts Ht _ IH]; cbn in *; [done|]. destruct t; cbn; done || lia.
  - eapply Forall_impl; [exact Hs|]. intros [] Ht; done.
Qed.

(** C39: no slot is lost, forged or given twice.  However acquisitions,
    releases and reconfigurations of a provider interleave, the in-flight
    counter of every concurrency state is exactly the number of its slots that
    were taken and not yet given back, and it never exceeds the largest limit
    that was configured; in particular no interleaving of releases makes it
    negative. *)
Theorem slots_accounted C n ts c i x :
  0 <= C <= MaxInt64 -> Forall (starting C) ts -> rtc astep (idle n, ts) c ->
  acell c.1 i = Some x -> inFlight x = Z.of_nat (held i c) /\ 0 <= inFlight x <= C.
Proof.
  intros HC Hs Hr E.
  assert (Ha : accounted C c).
  { eapply (rtc_ind_r (accounted C)); [by apply starting_accounted| |exact Hr].
    intros y z _ Hyz Hy. by apply (astep_accounted C y z). }
  destruct (proj1 Ha i x E) as (Hi & Hle & _). lia.
Qed.

Definition toy_state (limit : Z) : TenantRuntimeState := mkTRS true false 0 "" (f64_of_Z 0) 0 limit.

(** One reconfiguration and two requests of the tenant, the first of which gets
    the only slot. *)
Definition toy_threads : list athread :=
  [SStart {["a" := toy_state 1]}; AStart "a" (Some 0%nat); AStart "a" (Some 1%nat)].

Lemma toy_run :
  exists s, rtc astep (idle 2, toy_threads) (s, [SDone; ADone true; ADone false]) /\
            acell s 0 = Some (mkConc 1 1).
Proof.
  unfold toy_threads. eexists. split.
  - eapply rtc_l; [eapply (astep_thread _ _ _ _ []); eapply ss_lock; reflexivity|].
    eapply rtc_l; [eapply (astep_thread _ _ _ _ []); eapply ss_op|].
    eapply rtc_l; [eapply (astep_thread _ _ _ _ []); eapply ss_unlock|].
    eapply rtc_l; [eapply (astep_thread _ _ _ _ [SDone]); eapply as_fetch; vm_compute; reflexivity|].
    eapply rtc_l; [eapply (astep_thread _ _ _ _ [SDone]); eapply as_limit; vm_compute; reflexivity|].
    eapply rtc_l; [eapply (astep_thread _ _ _ _ [SDone]); eapply as_load; vm_compute; reflexivity|].
    eapply rtc_l; [eapply (astep_thread _ _ _ _ [SDone]); eapply as_swap; vm_compute; reflexivity|].
    eapply rtc_l; [eapply (astep_thread _ _ _ _ [SDone]); eapply as_register; vm_compute; reflexivity|].
    eapply rtc_l; [eapply (astep_thread _ _ _ _ [SDone; ADone true]); eapply as_fetch; vm_compute; reflexivity|].
    eapply rtc_l; [eapply (astep_thread _ _ _ _ [SDone; ADone true]); eapply as_limit; vm_compute; reflexivity|].
    eapply rtc_l; [eapply (astep_thread _ _ _ _ [SDone; ADone true]); eapply as_full; vm_compute; [reflexivity|done]|].
    apply rtc_refl.
  - vm_compute. reflexivity.
Qed.

Lemma slots_accounted_witness :
  exists c x, rtc astep (idle 2, toy_threads) c /\ acell c.1 0 = Some x /\
    inFlight x = Z.of_nat (held 0 c) /\ 0 <= inFlight x <= 1.
Proof.
  destruct toy_run as (s & Hr & E).
  exists (s, [SDone; ADone true; ADone false]), (mkConc 1 1). split; [exact Hr|]. split; [exact E|].
  apply (slots_accounted 1 2 toy_threads _ 0 (mkConc 1 1)); [vm_compute; split; discriminate| |exact Hr|exact E].
  repeat constructor. cbn. apply map_Forall_singleton. cbn. lia.
Defined.

(** ** The limiters follow the configuration *)

Section Limiters.
Context `{RateLib}.

Lemma sync_limiter_dom now out m slug :
  is_Some (map_fold (sync_limiter now) m out !! slug) <-> is_Some (m !! slug) \/ rated out slug = true.
Proof.
  apply (map_fold_weak_ind (fun r o => is_Some (r !! slug) <-> is_Some (m !! slug) \/ rated o slug = true)).
  - unfold rated. split; [by left|intros [?|?]; done].
  - intros k st o r Ho IH. unfold sync_limiter, rated in *.
    destruct (decide (k = slug)) as [->|Hne].
    + rewrite lookup_insert_eq. rewrite Ho in IH.
      destruct (f64_leb _ _); cbn; [rewrite IH; done|].
      destruct (r !! slug); rewrite lookup_insert_eq; split; [by right|done|by right|done].
    + rewrite (lookup_insert_ne o) by done.
      destruct (f64_leb _ _); [done|]. destruct (r !! k); rewrite lookup_insert_ne; done.
Qed.

Lemma syncRates_dom now out m slug : is_Some (syncRates now out m !! slug) <-> rated out slug = true.
Proof.
  unfold syncRates. split.
  - intros [l El]. by apply map_lookup_filter_Some in El as [_ El].
  - intros Hr. destruct (proj2 (sync_limiter_dom now out m slug) (or_intror Hr)) as [l El].
    exists l. by apply map_lookup_filter_Some.
Qed.

(** What happens to a provider over time. *)
Inductive provider_op :=
| ORebuild (now : Z) (rows : option (list row))
| ORate (tenant : string) (t1 t2 t3 : Z).

Definition run_provider (p : sqliteProvider) (op : provider_op) : sqliteProvider :=
  match op with
  | ORebuild now rows => Rebuild now p rows
  | ORate tenant t1 t2 t3 => (AllowRate p tenant t1 t2 t3).2
  end.

Definition configured (p : sqliteProvider) : Prop :=
  exists m, snap p = Some m /\ forall slug, is_Some (rl p !! slug) <-> rated m slug = true.

Lemma set_rl_dom p tenant l l' slug :
  rl p !! tenant = Some l -> is_Some (rl (set_rl p tenant l') !! slug) <-> is_Some (rl p !! slug).
Proof. intros E. cbn. rewrite lookup_insert_is_Some. destruct (decide (tenant = slug)); naive_solver. Qed.

Lemma run_provider_configured p op : configured p -> configured (run_provider p op).
Proof.
  intros (m & Em & Hm). destruct op as [now [rows|]|tenant t1 t2 t3]; cbn.
  - exists (scan_rows rows). split; [done|]. intros slug. apply syncRates_dom.
  - by exists m.
  - unfold AllowRate. destruct (ungated tenant); [by exists m|].
    destruct (rl p !! tenant) as [lim|] eqn:El; [|by exists m].
    destruct (Reserve lim t1) as [r lim'].
    destruct (negb (OK r)); [|destruct (Delay r t2 =? 0)]; exists m; (split; [done|]);
      intros slug; cbn [snd]; rewrite (set_rl_dom _ _ lim) by done; apply Hm.
Qed.

Lemma history_configured ops : configured (fold_left run_provider ops NewSQLiteProvider).
Proof.
  assert (Hp : configured NewSQLiteProvider).
  { exists ∅. split; [done|]. intros slug. unfold rated. split; [by intros [? ?]|done]. }
  revert Hp. generalize NewSQLiteProvider.
  induction ops as [|op ops IH]; intros p Hp; cbn; [done|]. by apply IH, run_provider_configured.
Qed.

(** Limiters exist for configured tenants only.  After any sequence of
    rebuilds, failed ones included, and rate checks, a tenant has a limiter
    exactly when its row in the current snapshot sets a rate; a tenant without
    a row is admitted by both gates and leaves the provider as it was. *)
Theorem limiters_configured ops tenant t1 t2 t3 :
  let p := fold_left run_provider ops NewSQLiteProvider in
  exists m, snap p = Some m /\
    (is_Some (rl p !! tenant) <-> rated m tenant = true) /\
    (m !! tenant = None -> Decide p tenant = admits /\ AllowRate p tenant t1 t2 t3 = (true, 0, p)).
Proof.
  intros p. destruct (history_configured ops) as (m & Em & Hm). fold p in Em, Hm.
  exists m. split; [done|]. split; [apply Hm|]. intros Hn. split.
  - unfold Decide. rewrite Em, Hn. by destruct (ungated tenant).
  - unfold AllowRate. destruct (ungated tenant); [done|].
    destruct (rl p !! tenant) as [l|] eqn:El; [|done]. exfalso.
    assert (Hr : rated m tenant = true) by (apply Hm; rewrite El; done).
    unfold rated in Hr. by rewrite Hn in Hr.
Qed.
End Limiters.
