(* ===== verification/BoltStore.v ===== *)
(** * The embedded key-value backend (chassis/kv/boltstore/boltstore.go)

    One bbolt bucket; each value is stored behind an 8-byte little-endian index
    that a counter of the process hands out.  Every operation holds the store's
    mutex and runs one transaction, so here each is one atomic function of the
    store. *)

From Stdlib Require Import Ascii String ZArith Lia Bool.
From stdpp Require Import base tactics list strings gmap sorting.
From S2P Require Import Prelude GoStrings GoStrconv.

#[local] Open Scope string_scope.

(** ** The index in front of a value *)

Definition byte_of (n : Z) : ascii := ascii_of_nat (Z.to_nat (n mod 256)).
Fixpoint le_bytes (w : nat) (n : Z) : string :=
  match w with O => "" | S w => String (byte_of n) (le_bytes w (n / 256)%Z) end.
Fixpoint le_value (w : nat) (s : string) : Z :=
  match w, s with S w, String c s => (Z.of_nat (bval c) + 256 * le_value w s)%Z | _, _ => 0%Z end.

Definition metadataLen : nat := 8.
Definition PutUint64 (n : Z) : string := le_bytes metadataLen n.
Definition Uint64 (s : string) : Z := le_value metadataLen s.

Lemma le_roundtrip w n s : (0 <= n < 256 ^ Z.of_nat w)%Z -> le_value w (le_bytes w n ++ s) = n /\ sdrop w (le_bytes w n ++ s) = s.
Proof.
  revert n; induction w as [|w IH]; intros n Hn; [change (256 ^ Z.of_nat 0)%Z with 1%Z in Hn; split; [cbn; lia|done]|].
  rewrite Nat2Z.inj_succ, Z.pow_succ_r in Hn by lia. cbn [le_bytes String.append le_value sdrop].
  destruct (IH (n / 256)%Z) as [H1 H2]; [split; [apply Z.div_pos; lia|apply Z.div_lt_upper_bound; lia]|]. rewrite H1. split; [|done].
  unfold byte_of, bval. rewrite nat_ascii_embedding by (pose proof (Z.mod_pos_bound n 256); lia).
  pose proof (Z.mod_pos_bound n 256). rewrite Z2Nat.id by lia. pose proof (Z.div_mod n 256). lia.
Qed.

(** An index is read back, and so is the value behind it. *)
Lemma index_roundtrip n s : (0 <= n < two64)%Z -> Uint64 (PutUint64 n ++ s) = n /\ sdrop metadataLen (PutUint64 n ++ s) = s.
Proof. exact (le_roundtrip 8 n s). Qed.

(** ** The store *)

Inductive StErr := ErrKeyNotFound | ErrKeyExists | ErrKeyModified | ErrPreviousNotSpecified | ErrDB (text : string).
Record KVPair := mkPair { kp_Key : string; kp_Value : string; kp_LastIndex : Z }.

(** [Bucket]: [None] until the first write. *)
Record Bolt := mkBolt { b_bucket : option (gmap string string); b_dbIndex : Z }.

(** A write's transaction that fails is rolled back; the indices it took are not. *)
Definition bumped (b : Bolt) (j : nat) : Bolt := mkBolt (b_bucket b) (wrapU64 (b_dbIndex b + Z.of_nat j)).

Definition bucket_get (b : Bolt) (key : string) : string := default "" (b_bucket b ≫= fun m => m !! key).
Definition pair_of (key raw : string) : KVPair := mkPair key (sdrop metadataLen raw) (Uint64 raw).

Module Bolt.

Definition Get (b : Bolt) (key : string) : KVPair + StErr :=
  let v := bucket_get b key in if v =s "" then inr ErrKeyNotFound else inl (pair_of key v).

Definition GetMulti (b : Bolt) (keys : list string) : list (option KVPair) :=
  map (fun key => let v := bucket_get b key in if (slen v <? metadataLen)%nat then None else Some (pair_of key v)) keys.

(** A transaction's write, with the next index. *)
Definition Put (b : Bolt) (key value : string) : Bolt :=
  let i := wrapU64 (b_dbIndex b + 1) in
  mkBolt (Some (<[key := PutUint64 i ++ value]> (default ∅ (b_bucket b)))) i.

Fixpoint PutMulti (b : Bolt) (pairs : list (string * string)) : Bolt :=
  match pairs with
  | [] => mkBolt (Some (default ∅ (b_bucket b))) (b_dbIndex b)
  | (key, value) :: pairs => PutMulti (Put b key value) pairs
  end.

Definition Delete (b : Bolt) (key : string) : Bolt * option StErr :=
  match b_bucket b with
  | None => (b, Some ErrKeyNotFound)
  | Some m => (mkBolt (Some (delete key m)) (b_dbIndex b), None)
  end.

Definition DeleteMulti (b : Bolt) (keys : list string) : Bolt :=
  match b_bucket b with
  | None => b
  | Some m => mkBolt (Some (foldl (fun m key => delete key m) m keys)) (b_dbIndex b)
  end.

Definition Exists (b : Bolt) (key : string) : bool + StErr :=
  match b_bucket b with
  | None => inr ErrKeyNotFound
  | Some _ => inl (negb (bucket_get b key =s ""))
  end.

(** The keys with the prefix, in order; the prefix itself is not among them. *)
Definition keys_under (m : gmap string string) (pre : string) : list string :=
  merge_sort string_le (filter (fun key => HasPrefix key pre = true) (map_to_list m).*1).

Definition List (b : Bolt) (pre : string) : list KVPair + StErr :=
  match b_bucket b with
  | None => inr ErrKeyNotFound
  | Some m =>
      match keys_under m pre with
      | [] => inr ErrKeyNotFound
      | keys => inl (map (fun key => pair_of key (default "" (m !! key))) (filter (fun key => key <> pre) keys))
      end
  end.

Definition AtomicDelete (b : Bolt) (key : string) (previous : option KVPair) : Bolt * option StErr :=
  match previous, b_bucket b with
  | None, _ => (b, Some ErrPreviousNotSpecified)
  | Some _, None => (b, Some ErrKeyNotFound)
  | Some p, Some m =>
      match m !! key with
      | None => (b, Some ErrKeyNotFound)
      | Some raw =>
          if (Uint64 raw =? kp_LastIndex p)%Z then (mkBolt (Some (delete key m)) (b_dbIndex b), None)
          else (b, Some ErrKeyModified)
      end
  end.

(** The write happens when nothing was there, or what was there still has the
    index that was read. *)
Definition AtomicPut (b : Bolt) (key value : string) (previous : option KVPair) : Bolt * option StErr :=
  match previous with
  | None => if negb (bucket_get b key =s "") then (b, Some ErrKeyExists) else (Put b key value, None)
  | Some p =>
      let val := bucket_get b key in
      if val =s "" then (b, Some ErrKeyNotFound)
      else if negb (Uint64 val =? kp_LastIndex p)%Z then (b, Some ErrKeyModified)
      else (Put b key value, None)
  end.

(** A process that opens the file again starts counting at zero. *)
Definition Reopen (b : Bolt) : Bolt := mkBolt (b_bucket b) 0.

End Bolt.
