(* ===== verification/Kv.v ===== *)
(** * The tenant-scoped key-value store (chassis/kv/kv.go)

    Every operation is a [KProg], a tree of calls of the backend with what the
    code does next; goroutines run such programs against one backend, a call at a
    time.  Values are JSON texts, wrapped with an optional expiry. *)

From Stdlib Require Import Ascii String ZArith Lia Bool.
From stdpp Require Import base tactics list strings gmap sorting relations.
From S2P Require Import Prelude GoStrings GoStrconv BoltStore.

#[local] Open Scope string_scope.

(** ** Programs over the backend *)

(** [KNow]: the clock, in nanoseconds of Unix time. *)
Inductive KProg (A : Type) :=
  | KRet (x : A)
  | KGet (key : string) (k : KVPair + StErr -> KProg A)
  | KGetMulti (keys : list string) (k : list (option KVPair) + StErr -> KProg A)
  | KPut (key value : string) (k : option StErr -> KProg A)
  | KPutMulti (pairs : list (string * string)) (k : option StErr -> KProg A)
  | KDelete (key : string) (k : option StErr -> KProg A)
  | KDeleteMulti (keys : list string) (k : option StErr -> KProg A)
  | KList (pre : string) (k : list KVPair + StErr -> KProg A)
  | KAtomicPut (key value : string) (previous : option KVPair) (k : option StErr -> KProg A)
  | KNow (k : Z -> KProg A).
Arguments KRet {A} x.
Arguments KGet {A} key k.
Arguments KGetMulti {A} keys k.
Arguments KPut {A} key value k.
Arguments KPutMulti {A} pairs k.
Arguments KDelete {A} key k.
Arguments KDeleteMulti {A} keys k.
Arguments KList {A} pre k.
Arguments KAtomicPut {A} key value previous k.
Arguments KNow {A} k.

(** One call; any may fail, and then leaves the data alone. *)
Inductive kstep {A} (faults : bool) : KProg A -> Bolt -> KProg A -> Bolt -> Prop :=
  | ks_get key k b : kstep faults (KGet key k) b (k (Bolt.Get b key)) b
  | ks_get_fail key k b e : faults = true -> kstep faults (KGet key k) b (k (inr (ErrDB e))) b
  | ks_multi keys k b : kstep faults (KGetMulti keys k) b (k (inl (Bolt.GetMulti b keys))) b
  | ks_multi_fail keys k b e : faults = true -> kstep faults (KGetMulti keys k) b (k (inr (ErrDB e))) b
  | ks_put key v k b : kstep faults (KPut key v k) b (k None) (Bolt.Put b key v)
  | ks_put_fail key v k b e j : faults = true -> (j <= 1)%nat -> kstep faults (KPut key v k) b (k (Some (ErrDB e))) (bumped b j)
  | ks_puts pairs k b : kstep faults (KPutMulti pairs k) b (k None) (Bolt.PutMulti b pairs)
  | ks_puts_fail pairs k b e j : faults = true -> (j <= length pairs)%nat ->
      kstep faults (KPutMulti pairs k) b (k (Some (ErrDB e))) (bumped b j)
  | ks_delete key k b : kstep faults (KDelete key k) b (k (Bolt.Delete b key).2) (Bolt.Delete b key).1
  | ks_delete_fail key k b e : faults = true -> kstep faults (KDelete key k) b (k (Some (ErrDB e))) b
  | ks_deletes keys k b : kstep faults (KDeleteMulti keys k) b (k None) (Bolt.DeleteMulti b keys)
  | ks_deletes_fail keys k b e : faults = true -> kstep faults (KDeleteMulti keys k) b (k (Some (ErrDB e))) b
  | ks_list pre k b : kstep faults (KList pre k) b (k (Bolt.List b pre)) b
  | ks_list_fail pre k b e : faults = true -> kstep faults (KList pre k) b (k (inr (ErrDB e))) b
  | ks_atomic key v prev k b :
      kstep faults (KAtomicPut key v prev k) b (k (Bolt.AtomicPut b key v prev).2) (Bolt.AtomicPut b key v prev).1
  | ks_atomic_fail key v prev k b e j : faults = true -> (j <= 1)%nat ->
      kstep faults (KAtomicPut key v prev k) b (k (Some (ErrDB e))) (bumped b j)
  | ks_now t k b : kstep faults (KNow k) b (k t) b.

Definition KSys (A : Type) : Type := list (KProg A) * Bolt.
Inductive kpstep {A} (faults : bool) : KSys A -> KSys A -> Prop :=
  | kpstep_at i ps p p' b b' :
      ps !! i = Some p -> kstep faults p b p' b' -> kpstep faults (ps, b) (<[i := p']> ps, b').

(** One program alone, at one instant, with no failures. *)
Fixpoint kalone {A} (t : Z) (p : KProg A) (b : Bolt) : A * Bolt :=
  match p with
  | KRet x => (x, b)
  | KGet key k => kalone t (k (Bolt.Get b key)) b
  | KGetMulti keys k => kalone t (k (inl (Bolt.GetMulti b keys))) b
  | KPut key v k => kalone t (k None) (Bolt.Put b key v)
  | KPutMulti pairs k => kalone t (k None) (Bolt.PutMulti b pairs)
  | KDelete key k => kalone t (k (Bolt.Delete b key).2) (Bolt.Delete b key).1
  | KDeleteMulti keys k => kalone t (k None) (Bolt.DeleteMulti b keys)
  | KList pre k => kalone t (k (Bolt.List b pre)) b
  | KAtomicPut key v prev k => kalone t (k (Bolt.AtomicPut b key v prev).2) (Bolt.AtomicPut b key v prev).1
  | KNow k => kalone t (k t) b
  end.

(** ** Keys *)

Definition segMax : nat := 256.
Definition seg_ok_byte (c : ascii) : bool := negb (c =c "/") && (32 <=? bval c)%nat && negb (bval c =? 127)%nat.
Definition segOK (s : string) : bool := negb (s =s "") && (slen s <=? segMax)%nat && sall seg_ok_byte s.

Definition IsReservedNamespace (ns : string) : bool := (ns =s "_txc") || HasPrefix ns "_txc.".

Inductive KVErr :=
  | BadTenant | BadNamespace (ns : string) | BadKey (key : string) | NotJSON | TooLarge (n : nat) | ExpectedNotJSON
  | Corrupt (key : string) | NotInteger (key : string) | Contention (key : string) | TooMany (n : nat) | Twice (key : string)
  | Backend (e : StErr).

Definition fullKey (tenant ns key : string) : string + KVErr :=
  if negb (segOK tenant) then inr BadTenant
  else if negb (segOK ns) then inr (BadNamespace ns)
  else if negb (segOK key) then inr (BadKey key)
  else inl (tenant ++ "/" ++ ns ++ "/" ++ key).

(** [ParseTTLSeconds]: the product wraps at the width of a duration. *)
Definition ParseTTLSeconds (secs : Z) : Z := if (secs <=? 0)%Z then 0%Z else wrap64 (secs * Second).

Record wrapper := mkW { w_V : string; w_Exp : Z }.

(** The integers [json.Unmarshal] reads into an int64; [null] leaves the zero. *)
Definition json_int (s : string) : option Z :=
  if s =s "null" then Some 0%Z
  else
    let neg := HasPrefix s "-" in
    let digits := if neg then sdrop 1 s else s in
    if (digits =s "") || negb (sall is_dec digits) || (HasPrefix digits "0" && negb (digits =s "0")) then None
    else let v := dec_value digits 0 in
         if neg then if (v <=? MaxInt64 + 1)%Z then Some (- v)%Z else None
         else if (v <=? MaxInt64)%Z then Some v else None.

Class JSONLib := {
  json_Valid : string -> bool;                       (** [json.Valid] *)
  json_wrapper : wrapper -> string;                  (** [json.Marshal] of a wrapper *)
  json_unwrap : string -> option wrapper;            (** [json.Unmarshal] into one *)
  json_compact : string -> string;                   (** what marshalling does to a raw value *)
  JValue : Type; jvalue_eq :: EqDecision JValue;
  json_any : string -> option JValue }.              (** [json.Unmarshal] into an [any] *)

Module KV.
Section Ops.
Context `{JSONLib}.
(** The two settings: 0 is no limit. *)
Variables (maxValue : nat) (maxTTL : Z).

Definition clampTTL (ttl : Z) : Z :=
  if (ttl <? 0)%Z then 0%Z else if (0 <? maxTTL)%Z && (maxTTL <? ttl)%Z then maxTTL else ttl.

(** [expired]: the clock is read only when there is an expiry. *)
Definition expired {A} (w : wrapper) (k : bool -> KProg A) : KProg A :=
  if (w_Exp w =? 0)%Z then k false else KNow (fun t => k (w_Exp w <=? t / Second)%Z).

(** The stored bytes; the native TTL is ignored by the backend. *)
Definition encode {A} (value : string) (ttl : Z) (k : string -> KProg A) : KProg A :=
  let ttl := clampTTL ttl in
  if (0 <? ttl)%Z then KNow (fun t => k (json_wrapper (mkW value ((t + ttl) / Second)%Z)))
  else k (json_wrapper (mkW value 0)).

Definition over (value : string) : bool := (0 <? maxValue)%nat && (maxValue <? slen value)%nat.

Definition Get (tenant ns key : string) : KProg (option string + KVErr) :=
  match fullKey tenant ns key with
  | inr e => KRet (inr e)
  | inl fk =>
      KGet fk (fun r =>
        match r with
        | inr ErrKeyNotFound => KRet (inl None)
        | inr e => KRet (inr (Backend e))
        | inl kp =>
            match json_unwrap (kp_Value kp) with
            | None => KRet (inr (Corrupt key))
            | Some w =>
                expired w (fun old =>
                  if old then KDelete fk (fun _ => KRet (inl None)) else KRet (inl (Some (w_V w))))
            end
        end)
  end.

Definition Set_ (tenant ns key value : string) (ttl : Z) : KProg (option KVErr) :=
  match fullKey tenant ns key with
  | inr e => KRet (Some e)
  | inl fk =>
      if negb (json_Valid value) then KRet (Some NotJSON)
      else if over value then KRet (Some (TooLarge (slen value)))
      else encode value ttl (fun blob => KPut fk blob (fun e => KRet (option_map Backend e)))
  end.

Definition Delete (tenant ns key : string) : KProg (option KVErr) :=
  match fullKey tenant ns key with
  | inr e => KRet (Some e)
  | inl fk => KDelete fk (fun e => KRet (match e with Some ErrKeyNotFound | None => None | Some e => Some (Backend e) end))
  end.

(** ** Batches *)

Definition MaxBatchItems : nat := 200.
Record Ref := mkKRef { r_Namespace : string; r_Key : string }.
Record Write := mkWrite { wr_Namespace : string; wr_Key : string; wr_Value : string; wr_TTL : Z }.

Fixpoint full_keys (tenant : string) (refs : list Ref) : list string + KVErr :=
  match refs with
  | [] => inl []
  | r :: refs =>
      match fullKey tenant (r_Namespace r) (r_Key r) with
      | inr e => inr e
      | inl fk => match full_keys tenant refs with inr e => inr e | inl fks => inl (fk :: fks) end
      end
  end.

(** The answers, one per ref. *)
Fixpoint hits (refs : list Ref) (fks : list string) (pairs : list (option KVPair)) (acc : list (option string)) : KProg (list (option string) + KVErr) :=
  match refs, fks, pairs with
  | r :: refs, fk :: fks, p :: pairs =>
      match p with
      | None => hits refs fks pairs (acc ++ [None])
      | Some p =>
          match json_unwrap (kp_Value p) with
          | None => KRet (inr (Corrupt (r_Key r)))
          | Some w =>
              expired w (fun old =>
                if old then KDelete fk (fun _ => hits refs fks pairs (acc ++ [None]))
                else hits refs fks pairs (acc ++ [Some (w_V w)]))
          end
      end
  | _, _, _ => KRet (inl acc)
  end.

Definition GetMany (tenant : string) (refs : list Ref) : KProg (list (option string) + KVErr) :=
  if (MaxBatchItems <? length refs)%nat then KRet (inr (TooMany (length refs)))
  else match full_keys tenant refs with
       | inr e => KRet (inr e)
       | inl [] => KRet (inl [])
       | inl fks =>
           KGetMulti fks (fun r => match r with inr e => KRet (inr (Backend e)) | inl pairs => hits refs fks pairs [] end)
       end.

Fixpoint encode_all {A} (tenant : string) (seen : list string) (writes : list Write) (pairs : list (string * string))
    (bad : KVErr -> KProg A) (k : list (string * string) -> KProg A) : KProg A :=
  match writes with
  | [] => k pairs
  | w :: writes =>
      match fullKey tenant (wr_Namespace w) (wr_Key w) with
      | inr e => bad e
      | inl fk =>
          if bool_decide (fk ∈ seen) then bad (Twice (wr_Key w))
          else if negb (json_Valid (wr_Value w)) then bad NotJSON
          else if over (wr_Value w) then bad (TooLarge (slen (wr_Value w)))
          else encode (wr_Value w) (wr_TTL w) (fun blob => encode_all tenant (fk :: seen) writes (pairs ++ [(fk, blob)]) bad k)
      end
  end.

Definition SetMany (tenant : string) (writes : list Write) : KProg (option KVErr) :=
  if (MaxBatchItems <? length writes)%nat then KRet (Some (TooMany (length writes)))
  else encode_all tenant [] writes [] (fun e => KRet (Some e))
         (fun pairs => match pairs with
                       | [] => KRet None
                       | _ => KPutMulti pairs (fun e => KRet (option_map Backend e))
                       end).

Definition DeleteMany (tenant : string) (refs : list Ref) : KProg (option KVErr) :=
  if (MaxBatchItems <? length refs)%nat then KRet (Some (TooMany (length refs)))
  else match full_keys tenant refs with
       | inr e => KRet (Some e)
       | inl [] => KRet None
       | inl fks => KDeleteMulti fks (fun e => KRet (option_map Backend e))
       end.

(** ** Listings *)

Definition contains_slash (s : string) : bool := sany (fun c => c =c "/") s.

(** The live entries among the pairs. *)
Fixpoint live_pairs (prefix : string) (pairs : list KVPair) (out : list (string * string)) : KProg (list (string * string) + KVErr) :=
  match pairs with
  | [] => KRet (inl out)
  | p :: pairs =>
      let key := TrimPrefix (kp_Key p) prefix in
      if (key =s "") || contains_slash key then live_pairs prefix pairs out
      else match json_unwrap (kp_Value p) with
           | None => live_pairs prefix pairs out
           | Some w => expired w (fun old => live_pairs prefix pairs (if old then out else out ++ [(key, w_V w)]))
           end
  end.

Definition listAll (tenant ns : string) : KProg (list (string * string) + KVErr) :=
  if negb (segOK tenant) then KRet (inr BadTenant)
  else if negb (segOK ns) then KRet (inr (BadNamespace ns))
  else
    let prefix := tenant ++ "/" ++ ns ++ "/" in
    KList prefix (fun r =>
      match r with
      | inr ErrKeyNotFound => KRet (inl [])
      | inr e => KRet (inr (Backend e))
      | inl pairs => live_pairs prefix pairs []
      end).

Fixpoint kbind {A B} (p : KProg A) (f : A -> KProg B) : KProg B :=
  match p with
  | KRet x => f x
  | KGet key k => KGet key (fun r => kbind (k r) f)
  | KGetMulti keys k => KGetMulti keys (fun r => kbind (k r) f)
  | KPut key v k => KPut key v (fun r => kbind (k r) f)
  | KPutMulti pairs k => KPutMulti pairs (fun r => kbind (k r) f)
  | KDelete key k => KDelete key (fun r => kbind (k r) f)
  | KDeleteMulti keys k => KDeleteMulti keys (fun r => kbind (k r) f)
  | KList pre k => KList pre (fun r => kbind (k r) f)
  | KAtomicPut key v prev k => KAtomicPut key v prev (fun r => kbind (k r) f)
  | KNow k => KNow (fun t => kbind (k t) f)
  end.

Definition ListPairs (tenant ns : string) : KProg (list (string * string) + KVErr) := listAll tenant ns.
Definition ListKeys (tenant ns : string) : KProg (list string + KVErr) :=
  kbind (listAll tenant ns) (fun r => KRet (match r with inl pairs => inl pairs.*1 | inr e => inr e end)).

Definition MaxListLimit : Z := 200.
Definition DefaultListLimit : Z := 200.
Definition pair_le (x y : string * string) : Prop := string_le x.1 y.1.
#[global] Instance pair_le_dec x y : Decision (pair_le x y) := decide (string_le x.1 y.1).

(** [sort.Search]: the first entry after the cursor. *)
Fixpoint after_cursor (after : string) (l : list (string * string)) : list (string * string) :=
  match l with
  | [] => []
  | x :: l' => if String.ltb after x.1 then l else after_cursor after l'
  end.

Definition page_of (all : list (string * string)) (after : string) (limit : Z) : list (string * string) * string :=
  let limit := if (limit <=? 0)%Z || (MaxListLimit <? limit)%Z then DefaultListLimit else limit in
  let rest := after_cursor after (merge_sort pair_le all) in
  let page := take (Z.to_nat limit) rest in
  (page, if (length page <? length rest)%nat then default "" (option_map fst (last page)) else "").

Definition ListPairsPage (tenant ns after : string) (limit : Z) : KProg ((list (string * string) * string) + KVErr) :=
  kbind (listAll tenant ns) (fun r => KRet (match r with inr e => inr e | inl all => inl (page_of all after limit) end)).
Definition ListKeysPage (tenant ns after : string) (limit : Z) : KProg ((list string * string) + KVErr) :=
  kbind (ListPairsPage tenant ns after limit) (fun r => KRet (match r with inr e => inr e | inl (page, next) => inl (page.*1, next) end)).

(** ** Compare and swap *)

Definition casAttempts : nat := 5.

Definition lost_race (e : StErr) : bool := match e with ErrKeyExists | ErrKeyModified => true | _ => false end.

Fixpoint incr_loop (attempts : nat) (fk key : string) (delta ttl : Z) : KProg (Z + KVErr) :=
  match attempts with
  | O => KRet (inr (Contention key))
  | S attempts =>
      let put (cur : Z) (casPrev : option KVPair) :=
        let next := wrap64 (cur + delta) in
        encode (Itoa next) ttl (fun blob =>
          KAtomicPut fk blob casPrev (fun e =>
            match e with
            | None => KRet (inl next)
            | Some e => if lost_race e then incr_loop attempts fk key delta ttl else KRet (inr (Backend e))
            end)) in
      KGet fk (fun r =>
        match r with
        | inl kp =>
            match json_unwrap (kp_Value kp) with
            | None => KRet (inr (Corrupt key))
            | Some w =>
                expired w (fun old =>
                  if old then put 0%Z (Some kp)
                  else match json_int (w_V w) with
                       | None => KRet (inr (NotInteger key))
                       | Some cur => put cur (Some kp)
                       end)
            end
        | inr ErrKeyNotFound => put 0%Z None
        | inr e => KRet (inr (Backend e))
        end)
  end.

Definition Incr (tenant ns key : string) (delta ttl : Z) : KProg (Z + KVErr) :=
  match fullKey tenant ns key with
  | inr e => KRet (inr e)
  | inl fk => incr_loop casAttempts fk key delta ttl
  end.

Definition jsonEqual (a b : string) : bool :=
  match json_any a, json_any b with
  | Some x, Some y => bool_decide (x = y)
  | _, _ => a =s b
  end.

Fixpoint cas_loop (attempts : nat) (fk key : string) (expectAbsent : bool) (expected newVal : string) (ttl : Z) :
    KProg ((bool * option string) + KVErr) :=
  match attempts with
  | O => KRet (inr (Contention key))
  | S attempts =>
      let check (cur : option string) (prev : option KVPair) :=
        let pass := match cur with None => expectAbsent | Some v => negb expectAbsent && jsonEqual v expected end in
        if negb pass then KRet (inl (false, cur))
        else encode newVal ttl (fun blob =>
          KAtomicPut fk blob prev (fun e =>
            match e with
            | None => KRet (inl (true, Some newVal))
            | Some e => if lost_race e then cas_loop attempts fk key expectAbsent expected newVal ttl else KRet (inr (Backend e))
            end)) in
      KGet fk (fun r =>
        match r with
        | inl kp =>
            match json_unwrap (kp_Value kp) with
            | None => check None (Some kp)
            | Some w => expired w (fun old => check (if old then None else Some (w_V w)) (Some kp))
            end
        | inr ErrKeyNotFound => check None None
        | inr e => KRet (inr (Backend e))
        end)
  end.

Definition CAS (tenant ns key : string) (expectAbsent : bool) (expected newVal : string) (ttl : Z) : KProg ((bool * option string) + KVErr) :=
  match fullKey tenant ns key with
  | inr e => KRet (inr e)
  | inl fk =>
      if negb (json_Valid newVal) then KRet (inr NotJSON)
      else if over newVal then KRet (inr (TooLarge (slen newVal)))
      else if negb expectAbsent && negb (json_Valid expected) then KRet (inr ExpectedNotJSON)
      else cas_loop casAttempts fk key expectAbsent expected newVal ttl
  end.
End Ops.
End KV.
