(* ===== verification/KvFacts.v ===== *)
(** * The key-value store: isolation and atomic updates *)

From Stdlib Require Import Ascii String ZArith Lia Bool.
From stdpp Require Import base tactics list strings gmap sorting relations.
From S2P Require Import Prelude GoStrings GoStrconv BoltStore Kv.

#[local] Open Scope string_scope.

(** ** The backend's writes, key by key *)

Lemma bucket_get_Put b key v key' :
  bucket_get (Bolt.Put b key v) key' =
  if decide (key = key') then PutUint64 (wrapU64 (b_dbIndex b + 1)) ++ v else bucket_get b key'.
Proof.
  unfold bucket_get, Bolt.Put; cbn. destruct (decide (key = key')) as [->|Hn]; [by rewrite lookup_insert_eq|].
  rewrite lookup_insert_ne by done. by destruct (b_bucket b); cbn; rewrite ?lookup_empty.
Qed.

Lemma bucket_get_PutMulti pairs b key :
  Forall (fun x => x.1 <> key) pairs -> bucket_get (Bolt.PutMulti b pairs) key = bucket_get b key.
Proof.
  revert b; induction pairs as [|[k v] pairs IH]; intros b Hf; cbn [Bolt.PutMulti].
  - unfold bucket_get; cbn. by destruct (b_bucket b); cbn; rewrite ?lookup_empty.
  - apply Forall_cons in Hf as [Hk Hf]. rewrite (IH _ Hf), bucket_get_Put. by rewrite decide_False.
Qed.

Lemma bucket_get_Delete b key key' :
  bucket_get (Bolt.Delete b key).1 key' = if decide (key = key') then "" else bucket_get b key'.
Proof.
  unfold bucket_get, Bolt.Delete. destruct (b_bucket b) as [m|] eqn:E; cbn; rewrite ?E; [|by case_decide].
  destruct (decide (key = key')) as [->|Hn]; [by rewrite lookup_delete_eq|by rewrite lookup_delete_ne].
Qed.

Lemma lookup_foldl_delete (keys : list string) (m : gmap string string) key :
  key ∉ keys -> foldl (fun m k => delete k m) m keys !! key = m !! key.
Proof.
  revert m; induction keys as [|k keys IH]; intros m Hn; [done|].
  rewrite not_elem_of_cons in Hn. destruct Hn as [Hk Hn]. cbn. rewrite (IH _ Hn). by rewrite lookup_delete_ne.
Qed.

Lemma bucket_get_DeleteMulti b keys key :
  key ∉ keys -> bucket_get (Bolt.DeleteMulti b keys) key = bucket_get b key.
Proof.
  intros Hn. unfold bucket_get, Bolt.DeleteMulti. destruct (b_bucket b) as [m|] eqn:E; cbn; rewrite ?E; [|done].
  cbn. by rewrite lookup_foldl_delete.
Qed.

(** ** What a conditional write depends on *)

(** [stands b fk prev]: the store still holds what [prev] was read from. *)
Definition stands (b : Bolt) (fk : string) (prev : option KVPair) : Prop :=
  match prev with
  | None => bucket_get b fk = ""
  | Some p => bucket_get b fk <> "" /\ Uint64 (bucket_get b fk) = kp_LastIndex p
  end.

Lemma AtomicPut_cases b fk v prev :
  (stands b fk prev /\ Bolt.AtomicPut b fk v prev = (Bolt.Put b fk v, None)) \/
  (~ stands b fk prev /\ exists e, Bolt.AtomicPut b fk v prev = (b, Some e)).
Proof.
  unfold Bolt.AtomicPut, stands. destruct prev as [p|].
  - destruct (String.eqb_spec (bucket_get b fk) "") as [E|E]; [right; split; [by intros [? _]|eauto]|].
    destruct (Z.eqb_spec (Uint64 (bucket_get b fk)) (kp_LastIndex p)); cbn; [left; done|right; split; [by intros [_ ?]|eauto]].
  - destruct (String.eqb_spec (bucket_get b fk) "") as [E|E]; cbn; [left; done|right; eauto].
Qed.

(** The store at one key, as far as this process wrote it. *)
Definition indexed (b : Bolt) (fk : string) : Prop :=
  (0 <= b_dbIndex b < two64)%Z /\ (bucket_get b fk <> "" -> (Uint64 (bucket_get b fk) <= b_dbIndex b)%Z).
Definition known (b : Bolt) (prev : option KVPair) : Prop :=
  match prev with None => True | Some p => (kp_LastIndex p <= b_dbIndex b)%Z end.

Lemma PutUint64_nonempty i v : PutUint64 i ++ v <> "".
Proof. done. Qed.

Lemma put_index b : (0 <= b_dbIndex b < two64)%Z -> (b_dbIndex b <= wrapU64 (b_dbIndex b + 1))%Z ->
  wrapU64 (b_dbIndex b + 1) = (b_dbIndex b + 1)%Z /\ (b_dbIndex b + 1 < two64)%Z.
Proof.
  intros Hi Hle. unfold wrapU64 in *. destruct (Z.eq_dec (b_dbIndex b) (two64 - 1)%Z) as [E|E].
  - rewrite E in Hle. vm_compute in Hle. done.
  - rewrite Z.mod_small by lia. lia.
Qed.

(** A write to the key is seen by whoever read it before. *)
Lemma stale_after_put b fk v prev :
  indexed b fk -> known b prev -> (b_dbIndex b <= b_dbIndex (Bolt.Put b fk v))%Z ->
  indexed (Bolt.Put b fk v) fk /\ ~ stands (Bolt.Put b fk v) fk prev.
Proof.
  intros [Hi Hx] Hk Hle. cbn in Hle. destruct (put_index b Hi Hle) as [E Hlt].
  assert (Eg : bucket_get (Bolt.Put b fk v) fk = PutUint64 (b_dbIndex b + 1) ++ v)
    by (rewrite bucket_get_Put, decide_True, E by done; done).
  destruct (index_roundtrip (b_dbIndex b + 1) v) as [Eu _]; [lia|].
  assert (Ed : b_dbIndex (Bolt.Put b fk v) = (b_dbIndex b + 1)%Z) by exact E.
  split; [split; [lia|intros _; rewrite Eg, Eu; lia]|]. unfold stands. rewrite Eg. destruct prev as [p|]; [|done].
  rewrite Eu. intros [_ E2]. cbn in Hk. lia.
Qed.

Lemma read_known b fk kp : indexed b fk -> Bolt.Get b fk = inl kp ->
  known b (Some kp) /\ bucket_get b fk <> "" /\ kp = pair_of fk (bucket_get b fk).
Proof.
  intros [_ Hx]. unfold Bolt.Get. destruct (String.eqb_spec (bucket_get b fk) "") as [E|E]; [done|]. intros [= <-].
  split; [exact (Hx E)|done].
Qed.

Lemma read_absent b fk : Bolt.Get b fk = inr ErrKeyNotFound <-> bucket_get b fk = "".
Proof. unfold Bolt.Get. destruct (String.eqb_spec (bucket_get b fk) ""); done. Qed.

(** ** Programs that stay away from keys *)

(** [touches ok p]: every key [p] reads, lists or writes, whatever the answers,
    is allowed. *)
Fixpoint touches {A} (ok : string -> Prop) (p : KProg A) : Prop :=
  match p with
  | KRet _ => True
  | KGet key k => ok key /\ forall r, touches ok (k r)
  | KGetMulti keys k => Forall ok keys /\ forall r, touches ok (k r)
  | KPut key _ k => ok key /\ forall r, touches ok (k r)
  | KPutMulti pairs k => Forall (fun x => ok x.1) pairs /\ forall r, touches ok (k r)
  | KDelete key k => ok key /\ forall r, touches ok (k r)
  | KDeleteMulti keys k => Forall ok keys /\ forall r, touches ok (k r)
  | KList pre k => ok pre /\ forall r, touches ok (k r)
  | KAtomicPut key _ _ k => ok key /\ forall r, touches ok (k r)
  | KNow k => forall t, touches ok (k t)
  end.

Lemma touches_kbind {A B} ok (p : KProg A) (f : A -> KProg B) :
  touches ok p -> (forall x, touches ok (f x)) -> touches ok (KV.kbind p f).
Proof. induction p; cbn; intuition auto. Qed.

(** A step leaves every key the program may not touch as it was. *)
Lemma kstep_spares {A} faults ok (p p' : KProg A) b b' :
  kstep faults p b p' b' -> touches ok p ->
  touches ok p' /\ forall key, ~ ok key -> bucket_get b' key = bucket_get b key.
Proof.
  intros Hs Ht; destruct Hs; cbn [touches] in Ht; try (split; [by apply Ht|done]); (split; [by apply Ht|]); intros key' Hn.
  - rewrite bucket_get_Put. case_decide; [subst; by destruct Ht|done].
  - apply bucket_get_PutMulti. destruct Ht as [Hf _]. eapply Forall_impl; [exact Hf|]. cbn. by intros x Hx <-.
  - rewrite bucket_get_Delete. case_decide; [subst; by destruct Ht|done].
  - apply bucket_get_DeleteMulti. intros Hin. destruct Ht as [Hf _]. rewrite Forall_forall in Hf. by specialize (Hf _ Hin).
  - destruct (AtomicPut_cases b key v prev) as [[_ ->]|[_ [e ->]]]; cbn [fst]; [|done].
    rewrite bucket_get_Put. case_decide; [subst; by destruct Ht|done].
Qed.

(** ** Tenants *)

(** The operations of the store, as requests. *)
Inductive KVOp :=
  | OGet (ns key : string) | OSet (ns key value : string) (ttl : Z) | ODelete (ns key : string)
  | OGetMany (refs : list KV.Ref) | OSetMany (writes : list KV.Write) | ODeleteMany (refs : list KV.Ref)
  | OListPairs (ns : string) | OListKeys (ns : string)
  | OListPairsPage (ns after : string) (limit : Z) | OListKeysPage (ns after : string) (limit : Z)
  | OIncr (ns key : string) (delta ttl : Z)
  | OCAS (ns key : string) (expectAbsent : bool) (expected newVal : string) (ttl : Z).

Section Tenants.
Context `{JSONLib}.
Variables (maxValue : nat) (maxTTL : Z).

Definition perform (tenant : string) (o : KVOp) : KProg unit :=
  let drop {A} (p : KProg A) := KV.kbind p (fun _ => KRet tt) in
  match o with
  | OGet ns key => drop (KV.Get tenant ns key)
  | OSet ns key v ttl => drop (KV.Set_ maxValue maxTTL tenant ns key v ttl)
  | ODelete ns key => drop (KV.Delete tenant ns key)
  | OGetMany refs => drop (KV.GetMany tenant refs)
  | OSetMany writes => drop (KV.SetMany maxValue maxTTL tenant writes)
  | ODeleteMany refs => drop (KV.DeleteMany tenant refs)
  | OListPairs ns => drop (KV.ListPairs tenant ns)
  | OListKeys ns => drop (KV.ListKeys tenant ns)
  | OListPairsPage ns after limit => drop (KV.ListPairsPage tenant ns after limit)
  | OListKeysPage ns after limit => drop (KV.ListKeysPage tenant ns after limit)
  | OIncr ns key delta ttl => drop (KV.Incr maxTTL tenant ns key delta ttl)
  | OCAS ns key absent expected v ttl => drop (KV.CAS maxValue maxTTL tenant ns key absent expected v ttl)
  end.

(** The tenant's part of the key space. *)
Definition owned (tenant key : string) : Prop := segOK tenant = true /\ HasPrefix key (tenant ++ "/") = true.

Lemma owned_app tenant rest : segOK tenant = true -> owned tenant (tenant ++ "/" ++ rest).
Proof. intros Hs. split; [done|]. unfold HasPrefix. rewrite sapp_assoc. apply prefix_app. Qed.

Lemma fullKey_owned tenant ns key fk : fullKey tenant ns key = inl fk -> owned tenant fk.
Proof. unfold fullKey. repeat case_bool; intros [= <-]. apply owned_app. by bool_to_prop. Qed.

Lemma full_keys_owned tenant refs fks : KV.full_keys tenant refs = inl fks -> Forall (owned tenant) fks.
Proof.
  revert fks; induction refs as [|r refs IH]; cbn [KV.full_keys]; intros fks E; [by simplify_eq|].
  destruct (fullKey _ _ _) as [fk|] eqn:Ek; [|done]. destruct (KV.full_keys _ _) as [fks'|]; [|done].
  simplify_eq. constructor; [by eapply fullKey_owned|by apply IH].
Qed.

Lemma touches_expired {A} ok w (k : bool -> KProg A) : (forall old, touches ok (k old)) -> touches ok (KV.expired w k).
Proof. intros Hk. unfold KV.expired. case_bool; cbn; auto. Qed.
Lemma touches_encode {A} ok v ttl (k : string -> KProg A) :
  (forall blob, touches ok (k blob)) -> touches ok (KV.encode maxTTL v ttl k).
Proof. intros Hk. unfold KV.encode. case_bool; cbn; auto. Qed.

Lemma touches_hits tenant refs fks pairs acc : Forall (owned tenant) fks -> touches (owned tenant) (KV.hits refs fks pairs acc).
Proof.
  revert refs pairs acc; induction fks as [|fk fks IH]; intros [|r refs] pairs acc Hf; try done.
  apply Forall_cons in Hf as [Hk Hf]. destruct pairs as [|[p|] pairs]; cbn [KV.hits]; [done| |by apply IH].
  destruct (json_unwrap _) as [w|]; [|done]. apply touches_expired. intros []; cbn; auto.
Qed.

Lemma touches_encode_all {A} tenant writes seen pairs bad (k : _ -> KProg A) :
  (forall e, touches (owned tenant) (bad e)) ->
  (forall pairs, Forall (fun x => owned tenant x.1) pairs -> touches (owned tenant) (k pairs)) ->
  Forall (fun x => owned tenant x.1) pairs ->
  touches (owned tenant) (KV.encode_all maxValue maxTTL tenant seen writes pairs bad k).
Proof.
  intros Hb Hk; revert seen pairs; induction writes as [|w writes IH]; intros seen pairs Hp; cbn [KV.encode_all]; [by apply Hk|].
  destruct (fullKey _ _ _) as [fk|] eqn:E; [|done]. apply fullKey_owned in E. repeat case_bool; [done..|].
  apply touches_encode. intros blob. apply IH. apply Forall_app. by split; [|apply Forall_singleton].
Qed.

Lemma touches_live_pairs ok prefix pairs out : touches ok (KV.live_pairs prefix pairs out).
Proof.
  revert out; induction pairs as [|p pairs IH]; intros out; cbn [KV.live_pairs]; [done|].
  case_bool; [apply IH|]. destruct (json_unwrap _); [|apply IH]. apply touches_expired. intros []; apply IH.
Qed.

Lemma touches_listAll tenant ns : touches (owned tenant) (KV.listAll tenant ns).
Proof.
  unfold KV.listAll. repeat case_bool; [done..|]. cbn [touches]. split; [apply owned_app; by bool_to_prop|].
  intros [pairs|[]]; try done. apply touches_live_pairs.
Qed.

Lemma touches_incr_loop tenant n fk key delta ttl :
  owned tenant fk -> touches (owned tenant) (KV.incr_loop maxTTL n fk key delta ttl).
Proof.
  intros Hk; induction n as [|n IH]; cbn [KV.incr_loop]; [done|]. cbn [touches]. split; [done|].
  assert (Hput : forall cur prev, touches (owned tenant)
    (KV.encode maxTTL (Itoa (wrap64 (cur + delta))) ttl (fun blob => KAtomicPut fk blob prev (fun e =>
       match e with None => KRet (inl (wrap64 (cur + delta)))
       | Some e => if KV.lost_race e then KV.incr_loop maxTTL n fk key delta ttl else KRet (inr (Backend e)) end)))).
  { intros cur prev. apply touches_encode. intros blob. cbn. split; [done|]. intros [e|]; [|done]. by case_bool. }
  intros [kp|[]]; try done. destruct (json_unwrap _) as [w|]; [|done].
  apply touches_expired. intros []; [apply Hput|]. destruct (json_int _); [apply Hput|done].
Qed.

Lemma touches_cas_loop tenant n fk key absent expected v ttl :
  owned tenant fk -> touches (owned tenant) (KV.cas_loop maxTTL n fk key absent expected v ttl).
Proof.
  intros Hk; induction n as [|n IH]; cbn [KV.cas_loop]; [done|]. cbn [touches]. split; [done|].
  assert (Hput : forall prev, touches (owned tenant)
    (KV.encode maxTTL v ttl (fun blob => KAtomicPut fk blob prev (fun e =>
       match e with None => KRet (inl (true, Some v))
       | Some e => if KV.lost_race e then KV.cas_loop maxTTL n fk key absent expected v ttl else KRet (inr (Backend e)) end)))).
  { intros prev. apply touches_encode. intros blob. cbn. split; [done|]. intros [e|]; [|done]. by case_bool. }
  intros [kp|[]]; try done; try by case_bool. destruct (json_unwrap _) as [w|]; [|by case_bool].
  apply touches_expired. intros old. by case_bool.
Qed.

Lemma touches_keys {A} tenant refs (bad : KVErr -> KProg A) (none : KProg A) (k : list string -> KProg A) :
  (forall e, touches (owned tenant) (bad e)) -> touches (owned tenant) none ->
  (forall fks, Forall (owned tenant) fks -> touches (owned tenant) (k fks)) ->
  touches (owned tenant) (match KV.full_keys tenant refs with inr e => bad e | inl [] => none | inl fks => k fks end).
Proof.
  intros Hb Hn Hk. destruct (KV.full_keys tenant refs) as [fks|e] eqn:E; [|done]. apply full_keys_owned in E.
  destruct fks; [done|by apply Hk].
Qed.

Lemma touches_Get tenant ns key : touches (owned tenant) (KV.Get tenant ns key).
Proof.
  unfold KV.Get. destruct (fullKey _ _ _) as [fk|] eqn:E; [apply fullKey_owned in E|done]. cbn. split; [done|].
  intros [kp|[]]; try done. destruct (json_unwrap _); [|done]. apply touches_expired. by intros [].
Qed.

Lemma touches_perform tenant o : touches (owned tenant) (perform tenant o).
Proof.
  destruct o; cbn [perform]; (apply touches_kbind; [|done]).
  - apply touches_Get.
  - unfold KV.Set_. destruct (fullKey _ _ _) eqn:E; [apply fullKey_owned in E|done]. repeat case_bool; [done..|]. by apply touches_encode.
  - unfold KV.Delete. destruct (fullKey _ _ _) eqn:E; [by apply fullKey_owned in E|done].
  - unfold KV.GetMany. case_bool; [done|]. apply touches_keys; [done..|]. intros fks Hf. cbn. split; [done|].
    intros [pairs|]; [by apply touches_hits|done].
  - unfold KV.SetMany. case_bool; [done|]. apply touches_encode_all; [done| |done]. by intros [|].
  - unfold KV.DeleteMany. case_bool; [done|]. by apply touches_keys.
  - apply touches_listAll.
  - apply touches_kbind; [apply touches_listAll|done].
  - apply touches_kbind; [apply touches_listAll|done].
  - repeat (apply touches_kbind; [|done]). apply touches_listAll.
  - unfold KV.Incr. destruct (fullKey _ _ _) eqn:E; [apply fullKey_owned in E|done]. by apply touches_incr_loop.
  - unfold KV.CAS. destruct (fullKey _ _ _) eqn:E; [apply fullKey_owned in E|done]. repeat case_bool; [done..|]. by apply touches_cas_loop.
Qed.

Lemma owned_tenant tenant t ns key fk : owned tenant fk -> fullKey t ns key = inl fk -> tenant = t.
Proof.
  intros [Hs Hp]. unfold fullKey. destruct (segOK t) eqn:Ht; [cbn|done]. repeat case_bool; intros [= <-].
  apply prefix_iff in Hp as [rest E]. rewrite <- sapp_assoc in E. unfold segOK in *. bool_to_prop.
  assert (Hc : forall s, sall seg_ok_byte s = true -> sall (fun c => negb (c =c "/")) s = true).
  { intros s. apply sall_impl. intros c. unfold seg_ok_byte. by destruct (c =c "/"). }
  apply (f_equal (fun s => Split s "/")) in E. cbn [String.append] in E. rewrite !Split_app_sep in E.
  rewrite !(Split_no_sep t), !(Split_no_sep tenant) in E by auto. by simplify_eq/=.
Qed.

Lemma touches_impl {A} (ok ok' : string -> Prop) (p : KProg A) :
  (forall key, ok key -> ok' key) -> touches ok p -> touches ok' p.
Proof. intros Hi; induction p; cbn; try tauto; intuition eauto using Forall_impl. Qed.

Lemma run_spares {A} faults (ps ps' : list (KProg A)) b b' ok key :
  rtc (kpstep faults) (ps, b) (ps', b') -> Forall (touches ok) ps -> ~ ok key -> bucket_get b' key = bucket_get b key.
Proof.
  intros Hr Hf Hn. remember (ps, b) as s. remember (ps', b') as s'. revert ps b Heqs Hf.
  induction Hr as [s|s s1 s2 Hs Hr IH]; intros ps b -> Hf; [by simplify_eq|]. inversion Hs as [i ? p p1 ? b1 Hi Hp]; subst.
  pose proof (Forall_lookup_1 _ _ _ _ Hf Hi) as Ht. destruct (kstep_spares _ _ _ _ _ _ Hp Ht) as [Ht' Hb].
  rewrite (IH eq_refl _ _ eq_refl (Forall_insert _ _ _ _ Hf Ht')). by apply Hb.
Qed.

(** C10: isolation of tenants.  Whatever operations of the store other tenants
    run, interleaved call by call and with failing calls, every key of a tenant
    keeps its bytes. *)
Theorem tenants_isolated (reqs : list (string * KVOp)) t ns key fk b ps' b' :
  fullKey t ns key = inl fk -> Forall (fun r => r.1 <> t) reqs ->
  rtc (kpstep true) (map (fun r => perform r.1 r.2) reqs, b) (ps', b') ->
  bucket_get b' fk = bucket_get b fk.
Proof.
  intros Hk Hf Hr. eapply (run_spares _ _ _ _ _ (fun k => k <> fk)); [exact Hr| |auto].
  apply Forall_fmap. eapply Forall_impl; [exact Hf|]. intros [t' o] Hn. cbn in *.
  eapply touches_impl; [|apply touches_perform]. intros k Ho ->. apply Hn. by eapply owned_tenant.
Qed.
End Tenants.
