(* ===== verification/KvAtomic.v ===== *)
(** * The key-value store: counters and locks under concurrency

    [Incr] and [CAS] read a pair and write it back on the condition that its
    index has not changed, some attempts long.  Goroutines run them against one
    backend, next to any programs that leave the key alone; every call may fail.
    The backend's index must not wrap in the run ([counted]), and the pair the
    key starts with must carry an index of this process ([indexed]). *)

From Stdlib Require Import Ascii String ZArith Lia Bool.
From stdpp Require Import base tactics list strings gmap sorting relations.
From S2P Require Import Prelude GoStrings GoStrconv BoltStore Kv KvFacts.

#[local] Open Scope string_scope.

(** ** What is relied on of the JSON library *)

Class JSONLaws `{JSONLib} := {
  jl_roundtrip w : json_Valid (w_V w) = true -> int64_ok (w_Exp w) ->
    json_unwrap (json_wrapper w) = Some (mkW (json_compact (w_V w)) (w_Exp w));
  jl_integer n : int64_ok n -> json_Valid (Itoa n) = true /\ json_compact (Itoa n) = Itoa n }.

(** ** Runs *)

Definition counted {A} (s s' : KSys A) : Prop := kpstep true s s' /\ (b_dbIndex s.2 <= b_dbIndex s'.2)%Z.

Lemma wrapU64_range z : (0 <= wrapU64 z < two64)%Z.
Proof. unfold wrapU64. apply Z.mod_pos_bound. done. Qed.

Lemma PutMulti_range pairs b : (0 <= b_dbIndex b < two64)%Z -> (0 <= b_dbIndex (Bolt.PutMulti b pairs) < two64)%Z.
Proof. revert b; induction pairs as [|[k v] pairs IH]; intros b Hb; cbn [Bolt.PutMulti]; [done|]. apply IH, wrapU64_range. Qed.

Lemma kstep_range {A} faults (p p' : KProg A) b b' :
  kstep faults p b p' b' -> (0 <= b_dbIndex b < two64)%Z -> (0 <= b_dbIndex b' < two64)%Z.
Proof.
  intros Hs Hb; destruct Hs; try done; try apply wrapU64_range; [by apply PutMulti_range|..].
  - unfold Bolt.Delete. by destruct (b_bucket b).
  - unfold Bolt.DeleteMulti. by destruct (b_bucket b).
  - destruct (AtomicPut_cases b key v prev) as [[_ ->]|[_ [e ->]]]; [apply wrapU64_range|done].
Qed.

(** The key as one process sees it before and after a step that leaves it. *)
Definition kept (b b' : Bolt) (fk : string) : Prop :=
  bucket_get b' fk = bucket_get b fk /\ (b_dbIndex b <= b_dbIndex b')%Z.

Lemma stands_kept b b' fk prev : kept b b' fk -> stands b' fk prev <-> stands b fk prev.
Proof. intros [E _]. unfold stands. by rewrite E. Qed.
Lemma known_kept b b' fk prev : kept b b' fk -> known b prev -> known b' prev.
Proof. intros [_ Hle]. destruct prev; cbn; [lia|done]. Qed.

(** ** Commits

    [n] goroutines each take effect at most once, by one write to [fk].
    [waiting b hist i p]: goroutine [i] stands at [p] and has not, after those of
    [hist] have. *)
Section Commits.
Context {A : Type}.
Variables (fk : string) (n : nat).
Variables (represents : list nat -> Bolt -> Prop) (waiting : Bolt -> list nat -> nat -> KProg A -> Prop).
Variables (allowed : list nat -> nat -> Prop) (answer : list nat -> nat -> A) (blob : list nat -> nat -> string).

Hypothesis waiting_step : forall b hist i p p' b',
  (i < n)%nat -> indexed b fk -> represents hist b -> waiting b hist i p ->
  kstep true p b p' b' -> (b_dbIndex b <= b_dbIndex b')%Z ->
  (bucket_get b' fk = bucket_get b fk /\ waiting b hist i p') \/
  (allowed hist i /\ p' = KRet (answer hist i) /\ b' = Bolt.Put b fk (blob hist i)).
Hypothesis represents_kept : forall hist b b', kept b b' fk -> represents hist b -> represents hist b'.
Hypothesis represents_commit : forall hist i b, (i < n)%nat -> allowed hist i -> indexed b fk ->
  (b_dbIndex b <= b_dbIndex (Bolt.Put b fk (blob hist i)))%Z ->
  represents hist b -> represents (hist ++ [i]) (Bolt.Put b fk (blob hist i)).
Hypothesis waiting_kept : forall b b' hist i p, kept b b' fk -> waiting b hist i p -> waiting b' hist i p.
Hypothesis waiting_commit : forall b hist i j p, indexed b fk -> allowed hist j ->
  (b_dbIndex b <= b_dbIndex (Bolt.Put b fk (blob hist j)))%Z ->
  waiting b hist i p -> waiting (Bolt.Put b fk (blob hist j)) (hist ++ [j]) i p.

Record commits (hist : list nat) (s : KSys A) : Prop := {
  cm_once : NoDup hist;
  cm_who : Forall (fun i => i < n)%nat hist;
  cm_index : indexed s.2 fk;
  cm_state : represents hist s.2;
  cm_wait : forall i, (i < n)%nat -> i ∉ hist -> exists p, s.1 !! i = Some p /\ waiting s.2 hist i p;
  cm_done : forall j i, hist !! j = Some i -> s.1 !! i = Some (KRet (answer (take j hist) i));
  cm_other : forall i p, (n <= i)%nat -> s.1 !! i = Some p -> touches (fun k => k <> fk) p }.

Lemma commits_step hist s s' : commits hist s -> counted s s' -> exists hist', commits hist' s'.
Proof.
  intros [Ho Hw Hx Hs Hp Hd Ht] [Hk Hle]. destruct Hk as [i ps p p' b b' Hi Hk]. cbn [fst snd] in *.
  assert (Hout : forall i' q, ps !! i' = Some q -> i' <> i -> <[i:=p']> ps !! i' = Some q)
    by (intros i' q Hq Hne; rewrite list_lookup_insert_ne; auto).
  assert (Hin : <[i:=p']> ps !! i = Some p') by (apply list_lookup_insert_eq; eapply lookup_lt_Some; eassumption).
  assert (Hdone : forall j i', hist !! j = Some i' -> <[i:=p']> ps !! i' = Some (KRet (answer (take j hist) i'))).
  { intros j i' Hj. pose proof (Hd _ _ Hj) as E. apply Hout; [done|]. intros ->. rewrite Hi in E. simplify_eq. inversion Hk. }
  assert (Hrange := kstep_range _ _ _ _ _ Hk (proj1 Hx)).
  assert (Hstay : kept b b' fk -> indexed b' fk).
  { intros [E _]. split; [done|]. rewrite E. intros Hne. pose proof (proj2 Hx Hne). lia. }
  destruct (decide (i < n)%nat) as [Hin_n|Hn].
  - assert (Hnot : i ∉ hist).
    { intros (j & Hj)%list_elem_of_lookup. pose proof (Hd _ _ Hj) as E. rewrite Hi in E. simplify_eq. inversion Hk. }
    destruct (Hp i Hin_n Hnot) as (q & Hq & Hwait). rewrite Hi in Hq. simplify_eq.
    destruct (waiting_step _ _ _ _ _ _ Hin_n Hx Hs Hwait Hk Hle) as [[E Hwait']|(Ha & -> & ->)].
    + assert (Hkept : kept b b' fk) by done. exists hist. constructor; cbn [fst snd]; eauto.
      * intros i' Hi' Hn'. destruct (decide (i' = i)) as [->|Hne]; [eauto|]. destruct (Hp i' Hi' Hn') as (q' & ? & ?). eauto.
      * intros i' q' Hi' Hq'. apply (Ht i'); [done|]. rewrite list_lookup_insert_ne in Hq'; [done|lia].
    + destruct (stale_after_put b fk (blob hist i) None Hx I Hle) as [Hx' _]. exists (hist ++ [i])%list. constructor; cbn [fst snd]; eauto.
      * apply NoDup_app. split; [done|]. split; [|apply NoDup_singleton]. intros x Hx1 ->%list_elem_of_singleton. done.
      * apply Forall_app. split; [done|by apply Forall_singleton].
      * intros i' Hi' Hn'. rewrite not_elem_of_app, list_elem_of_singleton in Hn'. destruct Hn' as [Hn1 Hn2].
        destruct (Hp i' Hi' Hn1) as (q' & ? & ?). exists q'. eauto.
      * intros j i' Hj. destruct (decide (j < length hist)%nat) as [Hlt|Hge].
        -- rewrite lookup_app_l in Hj by done. rewrite take_app_le by lia. eauto.
        -- rewrite lookup_app_r in Hj by lia. apply list_lookup_singleton_Some in Hj as [Hj ->].
           replace j with (length hist) by lia. by rewrite take_app_length.
      * intros i' q' Hi' Hq'. apply (Ht i'); [done|]. rewrite list_lookup_insert_ne in Hq'; [done|lia].
  - pose proof (Ht i p ltac:(lia) Hi) as Htouch. destruct (kstep_spares _ _ _ _ _ _ Hk Htouch) as [Htouch' Hsp].
    assert (Hkept : kept b b' fk) by (split; [apply Hsp; auto|done]). exists hist. constructor; cbn [fst snd]; eauto.
    + intros i' Hi' Hn'. destruct (Hp i' Hi' Hn') as (q' & ? & ?). exists q'. split; [apply Hout; [done|lia]|eauto].
    + intros i' q' Hi' Hq'. destruct (decide (i' = i)) as [->|Hne]; [rewrite Hin in Hq'; by simplify_eq|].
      apply (Ht i'); [done|]. by rewrite list_lookup_insert_ne in Hq'.
Qed.

Lemma run_commits hist s s' : rtc counted s s' -> commits hist s -> exists hist', commits hist' s'.
Proof.
  intros Hr; revert hist; induction Hr as [s|s s1 s2 Hs Hr IH]; intros hist Hc; [eauto|].
  destruct (commits_step _ _ _ Hc Hs) as [hist1 Hc1]. eauto.
Qed.
End Commits.

(** ** Integers in the store *)

Lemma wrap64_wrap a d : wrap64 (wrap64 a + d) = wrap64 (a + d).
Proof.
  unfold wrap64. f_equal. replace ((a + two63) mod two64 - two63 + d + two63)%Z with ((a + two63) mod two64 + d)%Z by lia.
  rewrite Z.add_mod_idemp_l by done. f_equal. lia.
Qed.

Lemma HasPrefix_char a c s : HasPrefix (String c s) (String a "") = (c =c a).
Proof.
  unfold HasPrefix. cbn [String.prefix]. destruct (ascii_dec a c) as [->|Hn]; [by rewrite Ascii.eqb_refl; destruct s|].
  symmetry. apply Ascii.eqb_neq. by intros ->.
Qed.

(** A run of digits that does not start with a zero is read as its value. *)
Lemma json_int_digits c s n (neg : bool) :
  is_dec c = true -> (c =c "0") = false -> sall is_dec s = true -> dec_value (String c s) 0 = n ->
  (n <= if neg then MaxInt64 + 1 else MaxInt64)%Z ->
  json_int (if neg then String "-" (String c s) else String c s) = Some (if neg then - n else n)%Z.
Proof.
  intros Hc Hz Hs <- Hle.
  assert (Hd : (c =c "-") = false /\ (c =c "n") = false) by (split; apply Ascii.eqb_neq; by intros ->). destruct Hd as [Hd Hn].
  assert (Hr : (String c s =s "") || negb (sall is_dec (String c s)) || (HasPrefix (String c s) "0" && negb (String c s =s "0")) = false).
  { rewrite HasPrefix_char, Hz. cbn [sall]. by rewrite Hc, Hs. }
  unfold json_int. destruct neg.
  - rewrite HasPrefix_char. change (String "-" (String c s) =s "null") with false. change ("-" =c "-") with true.
    cbv iota zeta. cbn [sdrop]. rewrite Hr. apply Z.leb_le in Hle. by rewrite Hle.
  - rewrite HasPrefix_char, Hd. assert (En : (String c s =s "null") = false) by (cbn [String.eqb]; by rewrite Hn). rewrite En.
    cbv iota zeta. rewrite Hr. apply Z.leb_le in Hle. by rewrite Hle.
Qed.

Lemma json_int_Itoa n : int64_ok n -> json_int (Itoa n) = Some n.
Proof.
  unfold int64_ok, MinInt64, MaxInt64, two63. intros Hn. unfold Itoa.
  assert (E20 : (10 ^ Z.of_nat 20)%Z = 100000000000000000000%Z) by done.
  destruct (Z.ltb_spec n 0) as [Hneg|Hpos].
  - destruct (itoa_aux_digits 20 (- n) EmptyString) as (c & s & E & Hc & Hz & Hs); [rewrite E20; lia|done|].
    pose proof (itoa_aux_value 20 (- n) EmptyString ltac:(rewrite E20; lia)) as Ev. rewrite E in *.
    rewrite (json_int_digits c s (- n) true Hc Hz Hs Ev); [f_equal; lia|]. unfold MaxInt64, two63. lia.
  - destruct (Z.eq_dec n 0%Z) as [->|]; [done|].
    destruct (itoa_aux_digits 20 n EmptyString) as (c & s & E & Hc & Hz & Hs); [rewrite E20; lia|done|].
    pose proof (itoa_aux_value 20 n EmptyString ltac:(rewrite E20; lia)) as Ev. rewrite E in *.
    rewrite (json_int_digits c s n false Hc Hz Hs Ev); [done|]. unfold MaxInt64, two63. lia.
Qed.

(** The value of the key: an absent key counts as zero, a persistent integer as
    itself; [None] for anything else. *)
Definition stored_int `{JSONLib} (b : Bolt) (fk : string) : option Z :=
  if bucket_get b fk =s "" then Some 0%Z
  else json_unwrap (sdrop metadataLen (bucket_get b fk)) ≫= fun w => if (w_Exp w =? 0)%Z then json_int (w_V w) else None.

Lemma json_int_ok s n : json_int s = Some n -> int64_ok n.
Proof.
  unfold json_int, int64_ok, MinInt64, MaxInt64, two63. intros E.
  assert (Hnn : forall s acc, (0 <= acc)%Z -> sall is_dec s = true -> (0 <= dec_value s acc)%Z).
  { clear. induction s as [|c s IH]; intros acc Ha Hs; cbn in *; [done|]. bool_to_prop.
    pose proof (digit_val_bounds c ltac:(done)). apply IH; [lia|done]. }
  repeat case_bool; simplify_eq; bool_to_prop; try lia.
  all: match goal with |- context [dec_value ?t 0] => assert (0 <= dec_value t 0)%Z by (apply Hnn; [lia|done]) end; lia.
Qed.

Section Incr.
Context `{L : JSONLaws}.
Variables (maxTTL ttl : Z) (fk key : string) (ds : list Z) (v0 : Z).
Hypotheses (Httl : (ttl <= 0)%Z) (Hv0 : int64_ok v0).

Definition sum_of (hist : list nat) : Z := foldr (fun i acc => default 0 (ds !! i) + acc)%Z 0%Z hist.
Definition total (hist : list nat) : Z := wrap64 (v0 + sum_of hist).

Lemma sum_of_app h1 h2 : sum_of (h1 ++ h2) = (sum_of h1 + sum_of h2)%Z.
Proof. unfold sum_of. induction h1 as [|i h1 IH]; [done|]. cbn [app foldr]. rewrite IH. lia. Qed.

Lemma encode_persistent {A} v (k : string -> KProg A) : KV.encode maxTTL v ttl k = k (json_wrapper (mkW v 0)).
Proof.
  unfold KV.encode. assert (E : (0 <? KV.clampTTL maxTTL ttl)%Z = false); [|by rewrite E].
  unfold KV.clampTTL. destruct (Z.ltb_spec ttl 0); [done|]. case_bool; bool_to_prop; lia.
Qed.

Definition counter_blob (v : Z) : string := json_wrapper (mkW (Itoa v) 0).

(** A goroutine about to write [cur + d] over what it read. *)
Definition incr_put (n : nat) (d cur : Z) (prev : option KVPair) : KProg (Z + KVErr) :=
  KAtomicPut fk (counter_blob (wrap64 (cur + d))) prev (fun e =>
    match e with
    | None => KRet (inl (wrap64 (cur + d)))
    | Some e => if KV.lost_race e then KV.incr_loop maxTTL n fk key d ttl else KRet (inr (Backend e))
    end).

Inductive incr_at (b : Bolt) (cur d : Z) : KProg (Z + KVErr) -> Prop :=
  | at_loop n : incr_at b cur d (KV.incr_loop maxTTL n fk key d ttl)
  | at_put n c prev : known b prev -> (stands b fk prev -> c = cur) -> incr_at b cur d (incr_put n d c prev)
  | at_error e : incr_at b cur d (KRet (inr e)).

Lemma incr_read b cur n d : indexed b fk -> stored_int b fk = Some cur ->
  exists prev, known b prev /\
    forall p' b', kstep true (KV.incr_loop maxTTL (S n) fk key d ttl) b p' b' ->
      b' = b /\ (p' = incr_put n d cur prev \/ exists e, p' = KRet (inr e)).
Proof.
  intros Hx Hs. unfold stored_int in Hs. destruct (String.eqb_spec (bucket_get b fk) "") as [E|E].
  - simplify_eq. exists None. split; [done|]. intros p' b' Hk. inversion Hk; subst; [|eauto]. split; [done|left].
    apply read_absent in E. rewrite E. by rewrite encode_persistent.
  - destruct (Bolt.Get b fk) as [kp|e] eqn:Eg;
      [|unfold Bolt.Get in Eg; apply String.eqb_neq in E; rewrite E in Eg; done].
    destruct (read_known _ _ _ Hx Eg) as (Hkn & _ & ->). exists (Some (pair_of fk (bucket_get b fk))). split; [done|].
    intros p' b' Hk. inversion Hk; subst; [|eauto]. split; [done|left]. rewrite Eg. cbn [pair_of kp_Value].
    destruct (json_unwrap _) as [w|]; [cbn in Hs|done]. unfold KV.expired. destruct (w_Exp w =? 0)%Z; [|done].
    rewrite Hs. by rewrite encode_persistent.
Qed.

Lemma incr_at_step b cur d p p' b' :
  indexed b fk -> stored_int b fk = Some cur -> incr_at b cur d p -> kstep true p b p' b' ->
  (bucket_get b' fk = bucket_get b fk /\ incr_at b cur d p') \/
  (p' = KRet (inl (wrap64 (cur + d))) /\ b' = Bolt.Put b fk (counter_blob (wrap64 (cur + d)))).
Proof.
  intros Hx Hs Hat Hk. destruct Hat as [n|n c prev Hkn Hst|e]; [|clear Hs|by inversion Hk].
  - destruct n as [|n]; [by inversion Hk|]. destruct (incr_read b cur n d Hx Hs) as (prev & Hkn & Hread).
    destruct (Hread _ _ Hk) as [-> [->|[e ->]]]; left; split; try done; constructor; done.
  - unfold incr_put in Hk. inversion Hk; subst; [|left; split; [done|constructor]].
    destruct (AtomicPut_cases b fk (counter_blob (wrap64 (c + d))) prev) as [[Hst' E]|[Hst' [e E]]].
    + right. rewrite (Hst Hst') in *. cbn [fst snd] in *. by rewrite !E.
    + left. rewrite !E. split; [done|]. cbn [snd]. case_bool; constructor.
Qed.

Lemma stored_int_put b v : int64_ok v -> indexed b fk -> (b_dbIndex b <= b_dbIndex (Bolt.Put b fk (counter_blob v)))%Z ->
  stored_int (Bolt.Put b fk (counter_blob v)) fk = Some v.
Proof.
  intros Hv [Hi _] Hle. destruct (put_index b Hi Hle) as [E Hlt]. unfold stored_int. rewrite bucket_get_Put, decide_True, E by done.
  destruct (String.eqb_spec (PutUint64 (b_dbIndex b + 1) ++ counter_blob v) "") as [E0|_]; [done|].
  destruct (index_roundtrip (b_dbIndex b + 1) (counter_blob v)) as [_ ->]; [lia|]. destruct (jl_integer v Hv) as [Hj Hc].
  unfold counter_blob. rewrite jl_roundtrip by done. cbn. rewrite Hc. by apply json_int_Itoa.
Qed.
Lemma total_snoc hist i d : ds !! i = Some d -> wrap64 (total hist + d) = total (hist ++ [i]).
Proof.
  intros Hd. unfold total. rewrite wrap64_wrap, sum_of_app. f_equal. unfold sum_of at 3; cbn. rewrite Hd. cbn. lia.
Qed.

Definition delta (i : nat) : Z := default 0%Z (ds !! i).
Abbreviation incr_commits := (commits fk (length ds) (fun hist b => stored_int b fk = Some (total hist))
  (fun b hist i p => incr_at b (total hist) (delta i) p) (fun hist i => inl (total (hist ++ [i])))).

Lemma incr_commits_run hist s s' : rtc counted s s' -> incr_commits hist s -> exists hist', incr_commits hist' s'.
Proof.
  intros Hr Hc.
  refine (run_commits fk (length ds) _ _ (fun _ _ => True) _ (fun hist i => counter_blob (total (hist ++ [i]))) _ _ _ _ _ hist s s' Hr Hc).
  - intros b h i p p' b' Hi Hx Hs Hw Hk Hle. destruct (lookup_lt_is_Some_2 _ _ Hi) as [d Hd]. unfold delta in *. rewrite Hd in *. cbn in *.
    destruct (incr_at_step _ _ _ _ _ _ Hx Hs Hw Hk) as [?|[-> ->]]; [by left|right]. by rewrite (total_snoc _ _ _ Hd).
  - intros h b b' [E _] Hs. unfold stored_int in *. by rewrite E.
  - intros h i b Hi _ Hx Hle Hs. apply stored_int_put; [apply wrap64_ok|done..].
  - intros b b' h i p Hkept Hw. destruct Hw as [n|n c prev Hkn Hst|e]; [constructor| |constructor].
    constructor; [by eapply known_kept|]. by rewrite stands_kept.
  - intros b h i j p Hx _ Hle Hw. destruct Hw as [n|n c prev Hkn Hst|e]; [constructor| |constructor].
    destruct (stale_after_put b fk (counter_blob (total (h ++ [j]))) prev Hx Hkn Hle) as [_ Hns].
    constructor; [|done]. destruct prev; cbn in *; [lia|done].
Qed.

Lemma incr_at_no_answer b cur d r : ~ incr_at b cur d (KRet (inl r)).
Proof. intros Hat. remember (KRet (inl r)) as p eqn:E. destruct Hat as [[|n]| |]; done. Qed.
End Incr.

(** C8: counters that do not expire lose no updates.  Any number of increments of
    one key, absent or holding an integer that does not expire, run with no time
    to live ([ttl <= 0]; a counter with one starts again from zero when it
    expires).  However their calls interleave, among operations on other keys and
    failing calls, the increments that answered took effect one after the other:
    each answered the sum up to and including its own, wrapped to an int64, and
    the stored value is the sum of exactly those that answered.  The index of the
    backend is taken not to wrap in the run ([counted]), and a stored pair to
    carry an index the backend has given out ([indexed]). *)
Theorem Incr_linearizable `{JSONLaws} maxTTL ttl tenant ns key fk ds v0 others b ps' b' :
  (ttl <= 0)%Z -> fullKey tenant ns key = inl fk ->
  stored_int b fk = Some v0 -> indexed b fk -> Forall (touches (fun k => k <> fk)) others ->
  rtc counted ((map (fun d => KV.Incr maxTTL tenant ns key d ttl) ds ++ others)%list, b) (ps', b') ->
  exists hist, NoDup hist /\
    (forall i, (i < length ds)%nat -> (i ∈ hist <-> exists v, ps' !! i = Some (KRet (inl v)))) /\
    (forall j i, hist !! j = Some i -> ps' !! i = Some (KRet (inl (total ds v0 (take (S j) hist))))) /\
    stored_int b' fk = Some (total ds v0 hist).
Proof.
  intros Httl Hk Hs Hx Ho Hr.
  assert (Hv0 : int64_ok v0).
  { unfold stored_int in Hs. repeat case_bool; simplify_eq; [done|]. apply bind_Some in Hs as (w & _ & Hw).
    case_bool; [by eapply json_int_ok|done]. }
  apply (incr_commits_run maxTTL ttl fk key ds v0 Httl []) in Hr as [hist Hc].
  - destruct Hc as [Hnd Hwho _ Hst Hw Hd _]. cbn [fst snd] in *. exists hist. split; [done|].
    assert (Hdone : forall j i, hist !! j = Some i -> ps' !! i = Some (KRet (inl (total ds v0 (take (S j) hist))))).
    { intros j i Hj. rewrite (Hd _ _ Hj). by rewrite (take_S_r _ _ _ Hj). }
    split; [|done]. intros i Hi. split.
    + intros (j & Hj)%list_elem_of_lookup. eauto.
    + intros [v Hv]. destruct (decide (i ∈ hist)) as [|Hn]; [done|]. destruct (Hw i Hi Hn) as (p & Hp & Hat).
      rewrite Hp in Hv. simplify_eq. by apply incr_at_no_answer in Hat.
  - constructor; cbn [fst snd]; try done; try constructor.
    + unfold total, sum_of. cbn. by rewrite Z.add_0_r, wrap64_id.
    + intros i Hi _. destruct (lookup_lt_is_Some_2 _ _ Hi) as [d Hd]. exists (KV.Incr maxTTL tenant ns key d ttl).
      split; [rewrite lookup_app_l, list_lookup_fmap, Hd by (by rewrite length_fmap); done|].
      unfold KV.Incr, delta. rewrite Hk, Hd. apply at_loop.
    + intros i p Hi Hp. rewrite lookup_app_r in Hp by (by rewrite length_fmap). by eapply Forall_lookup_1.
Qed.

(** ** CAS as a lock *)

(** The key holds a persistent value. *)
Definition holds_value `{JSONLib} (b : Bolt) (fk v : string) : Prop :=
  bucket_get b fk <> "" /\ json_unwrap (sdrop metadataLen (bucket_get b fk)) = Some (mkW v 0).

Section Lock.
Context `{L : JSONLaws}.
Variables (maxTTL ttl : Z) (fk key expected : string) (vs : list string).
Hypotheses (Httl : (ttl <= 0)%Z) (Hvs : Forall (fun v => json_Valid v = true) vs).

Abbreviation answer_t := ((bool * option string) + KVErr)%type.

(** The key while the goroutines of [hist] have won. *)
Definition locked (hist : list nat) (b : Bolt) : Prop :=
  match hist with
  | [] => bucket_get b fk = ""
  | [i] => holds_value b fk (json_compact (default "" (vs !! i)))
  | _ => False
  end.

Definition cas_put (n : nat) (v : string) (prev : option KVPair) : KProg answer_t :=
  KAtomicPut fk (json_wrapper (mkW v 0)) prev (fun e =>
    match e with
    | None => KRet (inl (true, Some v))
    | Some e => if KV.lost_race e then KV.cas_loop maxTTL n fk key true expected v ttl else KRet (inr (Backend e))
    end).

Inductive cas_at (b : Bolt) (hist : list nat) (v : string) : KProg answer_t -> Prop :=
  | cas_waits n : cas_at b hist v (KV.cas_loop maxTTL n fk key true expected v ttl)
  | cas_puts n prev : known b prev -> (stands b fk prev -> hist = []) -> cas_at b hist v (cas_put n v prev)
  | cas_lost i : hist = [i] -> cas_at b hist v (KRet (inl (false, Some (json_compact (default "" (vs !! i))))))
  | cas_error e : cas_at b hist v (KRet (inr e)).

Lemma cas_at_step b hist v p p' b' :
  indexed b fk -> locked hist b -> cas_at b hist v p -> kstep true p b p' b' ->
  (bucket_get b' fk = bucket_get b fk /\ cas_at b hist v p') \/
  (hist = [] /\ p' = KRet (inl (true, Some v)) /\ b' = Bolt.Put b fk (json_wrapper (mkW v 0))).
Proof.
  intros Hx Hs Hat Hk. destruct Hat as [n|n prev Hkn Hst|i Hh|e]; [| |by inversion Hk..].
  - destruct n as [|n]; [by inversion Hk|]. left. inversion Hk; subst; [|split; [done|constructor]]. split; [done|].
    destruct hist as [|i [|]]; [| |done].
    + apply read_absent in Hs as E. rewrite E. cbn [negb]. rewrite (encode_persistent maxTTL ttl Httl). by constructor.
    + destruct Hs as [Hne Hw]. destruct (Bolt.Get b' fk) as [kp|e] eqn:Eg;
        [|unfold Bolt.Get in Eg; apply String.eqb_neq in Hne; rewrite Hne in Eg; done].
      destruct (read_known _ _ _ Hx Eg) as (_ & _ & ->). cbn [pair_of kp_Value]. rewrite Hw. by constructor.
  - unfold cas_put in Hk. inversion Hk; subst; [|left; split; [done|constructor]].
    destruct (AtomicPut_cases b fk (json_wrapper (mkW v 0)) prev) as [[Hst' E]|[Hst' [e E]]].
    + right. rewrite !E. split; [by apply Hst|done].
    + left. rewrite !E. split; [done|]. cbn [snd]. case_bool; constructor.
Qed.

Lemma holds_put b v : json_Valid v = true -> indexed b fk -> (b_dbIndex b <= b_dbIndex (Bolt.Put b fk (json_wrapper (mkW v 0))))%Z ->
  holds_value (Bolt.Put b fk (json_wrapper (mkW v 0))) fk (json_compact v).
Proof.
  intros Hv [Hi _] Hle. destruct (put_index b Hi Hle) as [E Hlt]. unfold holds_value. rewrite bucket_get_Put, decide_True, E by done.
  split; [done|]. destruct (index_roundtrip (b_dbIndex b + 1) (json_wrapper (mkW v 0))) as [_ ->]; [lia|]. by apply jl_roundtrip.
Qed.

Abbreviation lock_commits := (commits fk (length vs) locked (fun b hist i p => cas_at b hist (default "" (vs !! i)) p)
  (fun _ i => inl (true, vs !! i))).

Lemma lock_commits_run hist s s' : rtc counted s s' -> lock_commits hist s -> exists hist', lock_commits hist' s'.
Proof.
  intros Hr Hc.
  refine (run_commits fk (length vs) _ _ (fun hist _ => hist = []) _ (fun _ i => json_wrapper (mkW (default "" (vs !! i)) 0)) _ _ _ _ _ hist s s' Hr Hc).
  - intros b h i p p' b' Hi Hx Hs Hw Hk _. destruct (lookup_lt_is_Some_2 _ _ Hi) as [v Hv]. rewrite Hv in *. cbn in *.
    by destruct (cas_at_step _ _ _ _ _ _ Hx Hs Hw Hk) as [?|(? & -> & ->)]; [left|right].
  - intros h b b' [E _] Hs. unfold locked, holds_value in *. by rewrite E.
  - intros h i b Hi -> Hx Hle Hs. cbn. destruct (lookup_lt_is_Some_2 _ _ Hi) as [v Hv]. rewrite Hv in *. cbn in *.
    apply holds_put; [exact (Forall_lookup_1 _ _ _ _ Hvs Hv)|done..].
  - intros b b' h i p Hkept Hw. destruct Hw as [n|n prev Hkn Hst| |e]; [constructor| |by constructor|constructor].
    constructor; [by eapply known_kept|]. by rewrite stands_kept.
  - intros b h i j p Hx -> Hle Hw. destruct Hw as [n|n prev Hkn Hst| |e]; [constructor| |done|constructor].
    destruct (stale_after_put b fk (json_wrapper (mkW (default "" (vs !! j)) 0)) prev Hx Hkn Hle) as [_ Hns].
    constructor; [|done]. destruct prev; cbn in *; [lia|done].
Qed.

Lemma cas_at_answer b hist v won r : cas_at b hist v (KRet (inl (won, r))) ->
  won = false /\ exists i, hist = [i] /\ r = Some (json_compact (default "" (vs !! i))).
Proof. intros Hat. remember (KRet (inl (won, r))) as p eqn:E. destruct Hat as [[|n]| | |]; simplify_eq/=; eauto. Qed.
End Lock.

(** C9: [CAS] with [expectAbsent] and no expiry is a lock.  Of any number of
    goroutines that try to create one absent key with no time to live
    ([ttl <= 0]; a lock with one can be won again once it expires) and a value
    that is JSON and within the size cap, interleaved call by call among
    operations on other keys and failing calls, at most one is told it did, the
    key then holds its value, and every goroutine told that it did not is shown
    that value; while nobody won the key stays absent.  The index of the backend
    is taken not to wrap in the run ([counted]), and a stored pair to carry an
    index the backend has given out ([indexed]). *)
Theorem CAS_lock `{JSONLaws} maxValue maxTTL ttl tenant ns key fk expected vs others b ps' b' :
  (ttl <= 0)%Z -> fullKey tenant ns key = inl fk ->
  Forall (fun v => json_Valid v = true /\ KV.over maxValue v = false) vs ->
  bucket_get b fk = "" -> indexed b fk -> Forall (touches (fun k => k <> fk)) others ->
  rtc counted ((map (fun v => KV.CAS maxValue maxTTL tenant ns key true expected v ttl) vs ++ others)%list, b) (ps', b') ->
  exists winner : option nat,
    (forall i r, (i < length vs)%nat -> ps' !! i = Some (KRet (inl (true, r))) -> winner = Some i /\ r = vs !! i) /\
    (forall i r, (i < length vs)%nat -> ps' !! i = Some (KRet (inl (false, r))) ->
       exists j, winner = Some j /\ r = json_compact <$> vs !! j) /\
    match winner with
    | None => bucket_get b' fk = ""
    | Some i => exists v, vs !! i = Some v /\ holds_value b' fk (json_compact v) /\ ps' !! i = Some (KRet (inl (true, Some v)))
    end.
Proof.
  intros Httl Hk Hvs Hs Hx Ho Hr.
  apply (lock_commits_run maxTTL ttl fk key expected vs Httl) with (hist := []) in Hr as [hist Hc].
  - destruct Hc as [Hnd Hwho _ Hst Hw Hd _]. cbn [fst snd] in *. exists (head hist).
    assert (Hwait : forall i won r, (i < length vs)%nat -> ps' !! i = Some (KRet (inl (won, r))) ->
      (won = true /\ r = vs !! i /\ hist = [i]) \/ (won = false /\ exists j, hist = [j] /\ r = Some (json_compact (default "" (vs !! j))))).
    { intros i won r Hi Hp. destruct (decide (i ∈ hist)) as [(j & Hj)%list_elem_of_lookup|Hn].
      - left. rewrite (Hd _ _ Hj) in Hp. simplify_eq. split; [done|]. split; [done|]. destruct hist as [|i0 [|]]; [done| |done].
        destruct j; by simplify_eq/=.
      - right. destruct (Hw i Hi Hn) as (p & E & Hat). rewrite E in Hp. simplify_eq. by eapply cas_at_answer. }
    split; [|split].
    + intros i r Hi Hp. destruct (Hwait _ _ _ Hi Hp) as [(_ & -> & ->)|(? & _)]; done.
    + intros i r Hi Hp. destruct (Hwait _ _ _ Hi Hp) as [(? & _)|(_ & j & -> & ->)]; [done|]. exists j. split; [done|].
      rewrite Forall_singleton in Hwho. destruct (lookup_lt_is_Some_2 _ _ Hwho) as [v ->]. done.
    + destruct hist as [|i [|]]; [done| |done]. rewrite Forall_singleton in Hwho. destruct (lookup_lt_is_Some_2 _ _ Hwho) as [v Hv].
      pose proof (Hd 0%nat i eq_refl) as E. cbn in *. rewrite Hv in *. eauto.
  - eapply Forall_impl; [exact Hvs|]. by intros v [? _].
  - constructor; cbn [fst snd]; try done; try constructor.
    + intros i Hi _. destruct (lookup_lt_is_Some_2 _ _ Hi) as [v Hv]. exists (KV.CAS maxValue maxTTL tenant ns key true expected v ttl).
      split; [rewrite lookup_app_l, list_lookup_fmap, Hv by (by rewrite length_fmap); done|].
      destruct (Forall_lookup_1 _ _ _ _ Hvs Hv) as [E1 E2]. unfold KV.CAS. rewrite Hk, Hv, E1, E2. apply cas_waits.
    + intros i p Hi Hp. rewrite lookup_app_r in Hp by (by rewrite length_fmap). by eapply Forall_lookup_1.
Qed.
