(* ===== verification/KvRaces.v ===== *)
(** * The key-value store: lifetimes, and two races

    What [Get] answers for a value [Set] stored, as time passes; the value a
    [Get] of an expired key can delete; the updates a restarted process can
    lose. *)

From Stdlib Require Import Ascii String ZArith Lia Bool.
From stdpp Require Import base tactics list strings gmap sorting relations.
From S2P Require Import Prelude GoStrings GoStrconv BoltStore Kv KvFacts KvAtomic.

#[local] Open Scope string_scope.

(** What a read finds right after a write. *)
Lemma Get_after_Put b key v : Bolt.Get (Bolt.Put b key v) key = inl (mkPair key v (wrapU64 (b_dbIndex b + 1))).
Proof.
  unfold Bolt.Get. rewrite bucket_get_Put, decide_True by done.
  destruct (String.eqb_spec (PutUint64 (wrapU64 (b_dbIndex b + 1)) ++ v) "") as [E|_]; [done|].
  unfold pair_of. destruct (index_roundtrip (wrapU64 (b_dbIndex b + 1)) v) as [-> ->]; [apply wrapU64_range|done].
Qed.

Section Lifetime.
Context `{JSONLaws}.
Variables (maxValue : nat) (maxTTL : Z).

(** [found t' ...]: what a [Get] at [t'] answers about a value. *)
Lemma Get_wrapped b tenant ns key fk w t' :
  fullKey tenant ns key = inl fk -> json_Valid (w_V w) = true -> int64_ok (w_Exp w) ->
  (kalone t' (KV.Get tenant ns key) (Bolt.Put b fk (json_wrapper w))).1 =
  inl (if (w_Exp w =? 0)%Z || (t' / Second <? w_Exp w)%Z then Some (json_compact (w_V w)) else None).
Proof.
  intros Hk Hv He. unfold KV.Get. rewrite Hk. cbn [kalone]. rewrite Get_after_Put. cbn [kp_Value]. rewrite jl_roundtrip by done.
  unfold KV.expired. cbn [w_Exp w_V]. destruct (w_Exp w =? 0)%Z; [done|]. cbn [kalone orb].
  rewrite Z.leb_antisym. by destruct (t' / Second <? w_Exp w)%Z.
Qed.

(** lifetimes.  A valid value under the cap is stored, and then [Get] answers
    it (as the JSON library compacts it): for ever with no TTL, else as long as at
    least a second of the clamped TTL is left, and never once the TTL has passed. *)
Theorem Set_Get_lifetime tenant ns key fk v ttl t t' b :
  fullKey tenant ns key = inl fk -> json_Valid v = true -> KV.over maxValue v = false ->
  (Second <= t <= MaxInt64)%Z -> int64_ok ttl -> int64_ok maxTTL ->
  let '(err, b1) := kalone t (KV.Set_ maxValue maxTTL tenant ns key v ttl) b in
  let life := KV.clampTTL maxTTL ttl in
  err = None /\
  ((life = 0 \/ t' + Second <= t + life)%Z -> (kalone t' (KV.Get tenant ns key) b1).1 = inl (Some (json_compact v))) /\
  ((0 < life /\ t + life <= t')%Z -> (kalone t' (KV.Get tenant ns key) b1).1 = inl None).
Proof.
  intros Hk Hv Hover Ht Httl Hmax. unfold KV.Set_. rewrite Hk, Hv, Hover. cbn [negb]. unfold KV.encode.
  set (life := KV.clampTTL maxTTL ttl).
  assert (Hlife : (0 <= life <= MaxInt64)%Z).
  { unfold life, KV.clampTTL, int64_ok in *. repeat case_bool; bool_to_prop; unfold MaxInt64, MinInt64, two63 in *; lia. }
  destruct (Z.ltb_spec 0 life) as [Hl|Hl]; cbn [kalone]; (split; [done|]).
  - assert (He : int64_ok ((t + life) / Second)).
    { unfold int64_ok, MinInt64, MaxInt64, two63, Second in *.
      pose proof (Z.div_pos (t + life) 1000000000 ltac:(lia) ltac:(lia)).
      pose proof (Z.div_le_upper_bound (t + life) 1000000000 18446744075 ltac:(lia) ltac:(lia)). lia. }
    assert (Hne : (1 <= (t + life) / Second)%Z) by (apply Z.div_le_lower_bound; [done|unfold Second in *; lia]).
    rewrite (Get_wrapped b tenant ns key fk (mkW v ((t + life) / Second)) t' Hk Hv He). cbn [w_Exp w_V].
    destruct (Z.eqb_spec ((t + life) / Second) 0); [lia|]. cbn [orb]. split.
    + intros [?|Hle]; [lia|]. assert (Hq : (t' / Second + 1 <= (t + life) / Second)%Z).
      { rewrite <- Z.div_add by done. apply Z.div_le_mono; [done|]. lia. }
      destruct (Z.ltb_spec (t' / Second) ((t + life) / Second)); [done|lia].
    + intros [_ Hle]. pose proof (Z.div_le_mono _ _ Second ltac:(done) Hle).
      destruct (Z.ltb_spec (t' / Second) ((t + life) / Second)); [lia|done].
  - rewrite (Get_wrapped b tenant ns key fk (mkW v 0) t' Hk Hv) by done. split; [done|]. lia.
Qed.

(** The operations' answers in one type, to run them side by side. *)
Definition tagged {A B} (f : A -> B) (p : KProg A) : KProg B := KV.kbind p (fun x => KRet (f x)).

(** a read can delete a fresh value.  When the key holds an expired pair, a
    [Get] and a [Set] of the key can interleave, with no failing call, so that
    [Set] reports success and, after both, the key is absent: the clean-up of
    [Get] deletes whatever is there by then. *)
Theorem expired_get_drops_fresh tenant ns key fk v w t b :
  fullKey tenant ns key = inl fk -> json_Valid v = true -> KV.over maxValue v = false ->
  json_unwrap (sdrop metadataLen (bucket_get b fk)) = Some w -> bucket_get b fk <> "" ->
  (w_Exp w <> 0)%Z -> (w_Exp w <= t / Second)%Z ->
  exists b', rtc (kpstep false)
    ([tagged inl (KV.Get tenant ns key); tagged inr (KV.Set_ maxValue maxTTL tenant ns key v 0)], b)
    ([KRet (inl (inl None)); KRet (inr None)], b') /\ bucket_get b' fk = "".
Proof.
  intros Hk Hv Hover Hw Hne He Hold. unfold tagged, KV.Get, KV.Set_. rewrite Hk, Hv, Hover. cbn [negb].
  rewrite (encode_persistent maxTTL 0) by done. eexists. split.
  - eapply rtc_l; [eapply (kpstep_at false 0); [reflexivity|apply ks_get]|].
    unfold Bolt.Get. apply String.eqb_neq in Hne. rewrite Hne. cbn [pair_of kp_Value]. rewrite Hw. unfold KV.expired.
    apply Z.eqb_neq in He. rewrite He. cbn [KV.kbind].
    eapply rtc_l; [eapply (kpstep_at false 0); [reflexivity|apply (ks_now _ t)]|]. apply Z.leb_le in Hold. rewrite Hold. cbn [KV.kbind].
    eapply rtc_l; [eapply (kpstep_at false 1); [reflexivity|apply ks_put]|].
    eapply rtc_l; [eapply (kpstep_at false 0); [reflexivity|apply ks_delete]|]. apply rtc_refl.
  - rewrite bucket_get_Delete. by rewrite decide_True.
Qed.
End Lifetime.

(** ** A restart *)

Section Restart.
Context `{JSONLaws}.
Variables (maxTTL ttl : Z) (fk key : string).
Hypothesis Httl : (ttl <= 0)%Z.

Definition reading (b : Bolt) : option KVPair :=
  if bucket_get b fk =s "" then None else Some (pair_of fk (bucket_get b fk)).

Lemma incr_reads faults b cur n d : stored_int b fk = Some cur ->
  kstep faults (KV.incr_loop maxTTL (S n) fk key d ttl) b (incr_put maxTTL ttl fk key n d cur (reading b)) b.
Proof.
  intros Hs. cbn [KV.incr_loop].
  match goal with |- kstep _ (KGet _ ?k) _ ?q _ => assert (E : k (Bolt.Get b fk) = q); [|rewrite <- E; apply ks_get] end.
  unfold stored_int in Hs. unfold Bolt.Get, reading. destruct (bucket_get b fk =s "").
  - simplify_eq. by rewrite (encode_persistent maxTTL ttl Httl).
  - cbn [pair_of kp_Value]. destruct (json_unwrap _) as [w|]; [cbn in Hs|done]. unfold KV.expired.
    destruct (w_Exp w =? 0)%Z; [|done]. rewrite Hs. by rewrite (encode_persistent maxTTL ttl Httl).
Qed.

Lemma incr_writes faults b c n d prev : stands b fk prev ->
  kstep faults (incr_put maxTTL ttl fk key n d c prev) b (KRet (inl (wrap64 (c + d)))) (Bolt.Put b fk (counter_blob (wrap64 (c + d)))).
Proof.
  intros Hst. unfold incr_put. match goal with |- kstep _ (KAtomicPut _ ?v ?pr ?k) _ _ _ => pose proof (ks_atomic faults fk v pr k b) as Hk end.
  destruct (AtomicPut_cases b fk (counter_blob (wrap64 (c + d))) prev) as [[_ E]|[Hn _]]; [|done]. by rewrite E in Hk.
Qed.

Lemma raw_after b v : (0 <= b_dbIndex b < 10)%Z -> bucket_get (Bolt.Put b fk v) fk = PutUint64 (b_dbIndex b + 1) ++ v.
Proof. intros Hb. rewrite bucket_get_Put, decide_True by done. unfold wrapU64. by rewrite Z.mod_small by (unfold two64; lia). Qed.

Lemma stored_raw b i v : (0 <= i < two64)%Z -> int64_ok v -> bucket_get b fk = PutUint64 i ++ counter_blob v ->
  stored_int b fk = Some v /\ reading b = Some (mkPair fk (counter_blob v) i).
Proof.
  intros Hi Hv E. unfold stored_int, reading, pair_of. rewrite E. destruct (index_roundtrip i (counter_blob v) Hi) as [E1 E2].
  destruct (String.eqb_spec (PutUint64 i ++ counter_blob v) "") as [?|_]; [done|]. rewrite E1, E2. split; [|done].
  destruct (jl_integer v Hv) as [Hj Hc]. unfold counter_blob. rewrite jl_roundtrip by done. cbn. rewrite Hc. by apply json_int_Itoa.
Qed.

Lemma stands_raw b i raw v : (0 <= i < two64)%Z -> bucket_get b fk = PutUint64 i ++ raw -> stands b fk (Some (mkPair fk v i)).
Proof. intros Hi E. unfold stands. rewrite E. by destruct (index_roundtrip i raw Hi) as [-> _]. Qed.
End Restart.

(** a restart can lose updates.  Opening the file again starts the index at
    zero, so indices already stored are handed out again: three increments of a
    key stored at index 2 can interleave in the new process, with no failing
    call, so that all three report success and the stored value is as if the
    other two had not run. *)
Theorem restart_loses_updates `{JSONLaws} maxTTL ttl tenant ns key fk v d1 d2 d3 b :
  (ttl <= 0)%Z -> fullKey tenant ns key = inl fk -> int64_ok v -> bucket_get b fk = PutUint64 2 ++ counter_blob v ->
  exists b', rtc (kpstep false)
    (map (fun d => KV.Incr maxTTL tenant ns key d ttl) [d1; d2; d3], Bolt.Reopen b)
    (map (fun r => KRet (inl r)) [wrap64 (v + d1); wrap64 (v + d2); wrap64 (wrap64 (v + d2) + d3)], b') /\
    stored_int b' fk = Some (wrap64 (v + d1)).
Proof.
  intros Httl Hk Hv Hb. unfold KV.Incr. cbn [map]. rewrite Hk. unfold KV.casAttempts.
  destruct (stored_raw fk (Bolt.Reopen b) 2 v) as [S0 R0]; [done..|].
  set (b1 := Bolt.Put (Bolt.Reopen b) fk (counter_blob (wrap64 (v + d2)))).
  assert (E1 : bucket_get b1 fk = PutUint64 1 ++ counter_blob (wrap64 (v + d2))) by (exact (raw_after fk (Bolt.Reopen b) _ ltac:(done))).
  destruct (stored_raw fk b1 1 (wrap64 (v + d2))) as [S1 R1]; [done|apply wrap64_ok|done|].
  set (b2 := Bolt.Put b1 fk (counter_blob (wrap64 (wrap64 (v + d2) + d3)))).
  assert (E2 : bucket_get b2 fk = PutUint64 2 ++ counter_blob (wrap64 (wrap64 (v + d2) + d3))) by (exact (raw_after fk b1 _ ltac:(done))).
  exists (Bolt.Put b2 fk (counter_blob (wrap64 (v + d1)))). split.
  - eapply rtc_l; [eapply (kpstep_at false 0); [reflexivity|by apply incr_reads]|].
    eapply rtc_l; [eapply (kpstep_at false 1); [reflexivity|by apply incr_reads]|].
    eapply rtc_l; [eapply (kpstep_at false 1); [reflexivity|apply incr_writes; rewrite R0; by eapply stands_raw]|].
    eapply rtc_l; [eapply (kpstep_at false 2); [reflexivity|by apply incr_reads]|].
    eapply rtc_l; [eapply (kpstep_at false 2); [reflexivity|apply incr_writes; fold b1; rewrite R1; by eapply stands_raw]|].
    eapply rtc_l; [eapply (kpstep_at false 0); [reflexivity|apply incr_writes; fold b1; fold b2; rewrite R0; by eapply stands_raw]|]. apply rtc_refl.
  - eapply (stored_raw fk _ 3); [done|apply wrap64_ok|]. exact (raw_after fk b2 _ ltac:(done)).
Qed.
