(* ===== verification/KvPages.v ===== *)
(** * The key-value store: paging through a namespace

    Each page is cut from a listing of its own, so keys may come and go between
    the pages of one walk. *)

From Stdlib Require Import Ascii String ZArith Lia Bool.
From stdpp Require Import base tactics list strings gmap sorting.
From S2P Require Import Prelude GoStrings GoStrconv BoltStore Kv.

#[local] Open Scope string_scope.

(** ** The order of keys *)

#[export] Instance pair_le_trans : Transitive KV.pair_le.
Proof. intros x y z. unfold KV.pair_le. apply transitivity. Qed.
#[export] Instance pair_le_total : Total KV.pair_le.
Proof. intros x y. unfold KV.pair_le. apply total; apply _. Qed.

(** ** Pages *)

Abbreviation listing := (list (string * string)).
Definition proper (all : listing) : Prop := NoDup all.*1 /\ Forall (fun x => x.1 <> "") all.

Definition after (c : string) (x : string * string) : Prop := String.ltb c x.1 = true.

Definition before (x y : string * string) : Prop := after x.1 y.

Lemma after_le_trans c x y : after c x -> string_le x.1 y.1 -> after c y.
Proof. unfold after. rewrite !ltb_not_le. intros Hx Hle Hy. apply Hx. by trans y.1. Qed.
Lemma before_trans c x y : after c x -> before x y -> after c y.
Proof. intros Hx Hb. apply (after_le_trans c x); [done|]. apply ltb_not_le in Hb. by destruct (total string_le x.1 y.1). Qed.

(** The sorted listing is strictly sorted: its keys are distinct. *)
Lemma sorted_before (all : listing) : NoDup all.*1 -> StronglySorted before (merge_sort KV.pair_le all).
Proof.
  intros Hn. assert (Hn' : NoDup (merge_sort KV.pair_le all).*1) by by rewrite merge_sort_Permutation.
  assert (Hs : StronglySorted KV.pair_le (merge_sort KV.pair_le all)) by (apply StronglySorted_merge_sort; apply _).
  induction Hs as [|x l Hs IH Hf]; [constructor|]. cbn in Hn'. apply NoDup_cons in Hn' as [Hx Hn'].
  constructor; [by apply IH|]. rewrite Forall_forall in *. intros y Hy. apply ltb_not_le. intros Hle. apply Hx.
  apply list_elem_of_fmap. exists y. split; [|done]. apply (anti_symm string_le); [by apply Hf|done].
Qed.

Lemma after_cursor_spec c (l : listing) : StronglySorted before l ->
  StronglySorted before (KV.after_cursor c l) /\ forall x, x ∈ KV.after_cursor c l <-> x ∈ l /\ after c x.
Proof.
  induction 1 as [|x l Hs [IHs IH] Hf]; [split; [constructor|set_solver]|]. cbn [KV.after_cursor].
  destruct (String.ltb c x.1) eqn:E.
  - split; [by constructor|]. intros y. split; [|tauto]. intros Hy. split; [done|]. apply elem_of_cons in Hy as [->|Hy]; [done|].
    rewrite Forall_forall in Hf. eapply before_trans; [exact E|auto].
  - split; [done|]. intros y. rewrite IH, elem_of_cons. split; [tauto|]. intros [[->|?] Ha]; [|done]. unfold after in Ha. congruence.
Qed.

(** A page and the cursor after it. *)
Lemma page_of_spec all c limit page next :
  proper all -> KV.page_of all c limit = (page, next) ->
  StronglySorted before page /\ (forall x, x ∈ page -> x ∈ all /\ after c x) /\
  ((next = "" /\ forall x, x ∈ all -> after c x -> x ∈ page) \/
   (next <> "" /\ String.ltb c next = true /\ (forall x, x ∈ page -> string_le x.1 next) /\
    forall x, x ∈ all -> after c x -> x ∈ page \/ after next x)).
Proof.
  intros [Hn He]. unfold KV.page_of. set (n := Z.to_nat _). set (rest := KV.after_cursor c _).
  destruct (after_cursor_spec c _ (sorted_before all Hn)) as [Hs Hin]. fold rest in Hs, Hin.
  assert (Hn1 : (0 < n)%nat).
  { unfold n. case_bool; [vm_compute; lia|]. bool_to_prop. lia. }
  clearbody n. intros [= <- <-].
  assert (Hmem : forall x, x ∈ (take n rest ++ drop n rest)%list <-> x ∈ all /\ after c x).
  { intros x. rewrite take_drop, Hin. by rewrite merge_sort_Permutation. }
  rewrite <- (take_drop n rest) in Hs. apply StronglySorted_app in Hs as (Hcross & Hs & _).
  assert (Hlen : length rest = (length (take n rest) + length (drop n rest))%nat) by (rewrite <- length_app; by rewrite take_drop).
  assert (Hpage : drop n rest <> [] -> last (take n rest) <> None).
  { intros Hd E. apply last_None in E. apply (f_equal length) in E. rewrite length_take in E. cbn in E.
    apply Hd. apply nil_length_inv. rewrite length_drop. lia. }
  revert Hmem Hcross Hs Hlen Hpage. generalize (take n rest), (drop n rest). clear Hin. clearbody rest. intros page tl Hmem Hcross Hs Hlen Hpage.
  rewrite Hlen. split; [done|]. split; [intros x Hx; apply Hmem, elem_of_app; by left|]. destruct tl as [|y tl].
  - left. rewrite Nat.add_0_r, Nat.ltb_irrefl. split; [done|]. intros x Hx Ha. rewrite app_nil_r in Hmem. by apply Hmem.
  - right. destruct (Nat.ltb_spec (length page) (length page + length (y :: tl))) as [_|Hbad]; [|cbn in Hbad; lia].
    destruct (last page) as [z|] eqn:Ez; [cbn|by destruct Hpage]. apply last_Some in Ez as [page' ->].
    assert (Hz : z ∈ all /\ after c z) by (apply Hmem; rewrite !elem_of_app, list_elem_of_singleton; tauto).
    rewrite Forall_forall in He. split; [by apply He, Hz|]. split; [apply Hz|]. split.
    + intros x [Hx|Hx]%elem_of_app; [|by apply list_elem_of_singleton in Hx as ->]. apply StronglySorted_app in Hs as (Hb & _ & _).
      specialize (Hb x z Hx (list_elem_of_here _ _)). apply ltb_not_le in Hb. by destruct (total string_le x.1 z.1).
    + intros x Hx Ha. pose proof (proj2 (Hmem x) (conj Hx Ha)) as Hm. apply elem_of_app in Hm as [?|?]; [by left|right].
      apply (Hcross z x); [|done]. rewrite elem_of_app, list_elem_of_singleton. tauto.
Qed.

(** ** What a namespace lists *)

Lemma kalone_kbind {A B} t (p : KProg A) (f : A -> KProg B) b :
  kalone t (KV.kbind p f) b = kalone t (f (kalone t p b).1) (kalone t p b).2.
Proof. revert b; induction p; intros b; cbn; auto. Qed.

Lemma Bolt_List_keys b pre pairs : Bolt.List b pre = inl pairs ->
  NoDup (map kp_Key pairs) /\ Forall (fun p => HasPrefix (kp_Key p) pre = true) pairs.
Proof.
  unfold Bolt.List. destruct (b_bucket b) as [m|]; [|done].
  assert (Hk : NoDup (Bolt.keys_under m pre) /\ forall key, key ∈ Bolt.keys_under m pre -> HasPrefix key pre = true).
  { unfold Bolt.keys_under. rewrite merge_sort_Permutation. split; [apply NoDup_filter, NoDup_fst_map_to_list|].
    intros key Hin. rewrite merge_sort_Permutation in Hin. by apply list_elem_of_filter in Hin as [? _]. }
  destruct Hk as [Hn Hp]. destruct (Bolt.keys_under m pre) as [|k0 keys0] eqn:E; [done|]. rewrite <- E in *. clear E. intros [= <-]. split.
  - rewrite map_map. cbn. rewrite map_id. by apply NoDup_filter.
  - apply Forall_forall. intros p Hin. apply list_elem_of_fmap in Hin as (key & -> & Hin). cbn. apply Hp.
    by apply list_elem_of_filter in Hin as [_ ?].
Qed.

Section Walk.
Context `{JSONLib}.

Lemma live_pairs_proper t b prefix pairs : forall out all,
  NoDup (out.*1 ++ map (fun p => TrimPrefix (kp_Key p) prefix) pairs)%list -> Forall (fun x => x.1 <> "") out ->
  (kalone t (KV.live_pairs prefix pairs out) b).1 = inl all -> proper all.
Proof.
  induction pairs as [|p pairs IH]; intros out all Hn Hf E; cbn [KV.live_pairs] in E.
  - simplify_eq/=. rewrite app_nil_r in Hn. done.
  - assert (Hskip : NoDup (out.*1 ++ map (fun p => TrimPrefix (kp_Key p) prefix) pairs)%list).
    { cbn [map] in Hn. rewrite <- Permutation_middle in Hn. by apply NoDup_cons in Hn as [_ ?]. }
    destruct (TrimPrefix (kp_Key p) prefix =s "") eqn:Ek; cbn [orb] in E; [by eapply IH|].
    case_bool; [by eapply IH|]. destruct (json_unwrap _) as [w|]; [|by eapply IH].
    assert (Hadd : NoDup ((out ++ [(TrimPrefix (kp_Key p) prefix, w_V w)]).*1 ++ map (fun p => TrimPrefix (kp_Key p) prefix) pairs)%list).
    { rewrite fmap_app, <- app_assoc. exact Hn. }
    assert (Hf' : Forall (fun x => x.1 <> "") (out ++ [(TrimPrefix (kp_Key p) prefix, w_V w)])%list).
    { apply Forall_app. split; [done|]. apply Forall_singleton. by apply String.eqb_neq in Ek. }
    unfold KV.expired in E. destruct (w_Exp w =? 0)%Z; [exact (IH _ _ Hadd Hf' E)|]. cbn [kalone] in E.
    case_bool; [exact (IH _ _ Hskip Hf E)|exact (IH _ _ Hadd Hf' E)].
Qed.

Lemma listAll_proper t b tenant ns all : (kalone t (KV.listAll tenant ns) b).1 = inl all -> proper all.
Proof.
  unfold KV.listAll. repeat case_bool; [done..|]. cbn [kalone]. set (prefix := tenant ++ _).
  destruct (Bolt.List b prefix) as [pairs|[]] eqn:E; try done; [|intros ?; simplify_eq/=; split; constructor].
  apply Bolt_List_keys in E as [Hn Hp]. apply live_pairs_proper; [|constructor]. cbn [fmap list_fmap app].
  rewrite <- (map_map kp_Key (fun k => TrimPrefix k prefix)). apply NoDup_fmap_2_strong; [|done].
  assert (Hk : forall k, k ∈ map kp_Key pairs -> exists u, k = prefix ++ u).
  { intros k (p & -> & Hin)%list_elem_of_fmap. rewrite Forall_forall in Hp. by apply prefix_iff, Hp. }
  intros k1 k2 [u1 ->]%Hk [u2 ->]%Hk. rewrite !TrimPrefix_app. by intros ->.
Qed.

Variables (tenant ns : string) (limit : Z).

(** A moment: the clock and the store.  What is listed then: *)
Definition listed (m : Z * Bolt) : listing :=
  match (kalone m.1 (KV.ListPairs tenant ns) m.2).1 with inl l => l | inr _ => [] end.

(** The pages of a walk, each asked for at its own moment, following the cursor;
    [true] when the walk reached the end. *)
Fixpoint walk (c : string) (moments : list (Z * Bolt)) : listing * bool :=
  match moments with
  | [] => ([], false)
  | m :: moments =>
      match (kalone m.1 (KV.ListPairsPage tenant ns c limit) m.2).1 with
      | inr _ => ([], false)
      | inl (page, next) =>
          if next =s "" then (page, true) else let '(rest, fin) := walk next moments in ((page ++ rest)%list, fin)
      end
  end.

Lemma page_listed c m r : (kalone m.1 (KV.ListPairsPage tenant ns c limit) m.2).1 = inl r ->
  proper (listed m) /\ KV.page_of (listed m) c limit = r.
Proof.
  unfold KV.ListPairsPage, listed, KV.ListPairs. rewrite kalone_kbind. cbn [kalone fst].
  destruct (kalone m.1 (KV.listAll tenant ns) m.2).1 as [all|] eqn:E; [|done]. intros [= <-]. split; [by eapply listAll_proper|done].
Qed.

Lemma walk_stable c moments :
  let '(out, fin) := walk c moments in
  StronglySorted before out /\ Forall (after c) out /\
  (forall x, x ∈ out -> exists m, m ∈ moments /\ x ∈ listed m) /\
  (fin = true -> forall k, String.ltb c k = true -> (forall m, m ∈ moments -> k ∈ (listed m).*1) -> k ∈ out.*1).
Proof.
  revert c; induction moments as [|m moments IH]; intros c; cbn [walk]; [repeat split; [constructor|constructor|set_solver|done]|].
  destruct (kalone m.1 _ m.2).1 as [[page next]|] eqn:E; [|repeat split; [constructor|constructor|set_solver|done]].
  apply page_listed in E as [Hall E]. destruct (page_of_spec _ _ _ _ _ Hall E) as (Hs & Hin & Hnext).
  destruct Hnext as [[-> Hend]|(Hne & Hc & Hle & Hmore)].
  - cbn. split; [done|]. split; [apply Forall_forall; intros x Hx; by apply Hin|]. split.
    + intros x Hx. exists m. split; [apply list_elem_of_here|by apply Hin].
    + intros _ k Hk Hk'. specialize (Hk' m (list_elem_of_here _ _)). apply list_elem_of_fmap in Hk' as (x & -> & Hx).
      apply list_elem_of_fmap. exists x. split; [done|]. by apply Hend.
  - apply String.eqb_neq in Hne. rewrite Hne. specialize (IH next). destruct (walk next moments) as [out fin].
    destruct IH as (Hs' & Hf' & Hin' & Hend). split; [|split; [|split]].
    + apply StronglySorted_app_2; [|done..]. intros x y Hx Hy. rewrite Forall_forall in Hf'. specialize (Hf' y Hy).
      unfold before, after in *. rewrite ltb_not_le in *. intros Hyx. apply Hf'. trans x.1; [done|by apply Hle].
    + apply Forall_app. split; [apply Forall_forall; intros x Hx; by apply Hin|]. eapply Forall_impl; [exact Hf'|].
      intros x. apply (before_trans c (next, "") x Hc).
    + intros x [Hx|Hx]%elem_of_app; [exists m; split; [apply list_elem_of_here|by apply Hin]|].
      destruct (Hin' x Hx) as (a & ? & ?). exists a. split; [by apply list_elem_of_further|done].
    + intros Hfin k Hk Hk'. rewrite fmap_app, elem_of_app. pose proof (Hk' m (list_elem_of_here _ _)) as Hka.
      apply list_elem_of_fmap in Hka as (x & -> & Hx). destruct (Hmore x Hx Hk) as [Hpg|Haf].
      * left. apply list_elem_of_fmap. eauto.
      * right. apply (Hend Hfin); [done|]. intros a Ha. apply Hk'. by apply list_elem_of_further.
Qed.

Lemma listed_keys m x : x ∈ (listed m).*1 -> String.ltb "" x = true.
Proof.
  unfold listed, KV.ListPairs. destruct (kalone m.1 _ m.2).1 as [all|] eqn:E; [|set_solver].
  apply listAll_proper in E as [_ Hf]. intros (y & -> & Hy)%list_elem_of_fmap. rewrite Forall_forall in Hf.
  specialize (Hf y Hy). by destruct (y.1).
Qed.
End Walk.

(** C11: pages are stable.  Over a walk from the start of a namespace, in which
    entries may come, go and expire between pages, the keys come in strictly
    ascending order (so none twice), each as it was listed at one of the moments;
    and a walk that ended has shown every key that was listed at all of them. *)
Theorem pages_stable `{JSONLib} tenant ns limit m moments :
  let '(out, fin) := walk tenant ns limit "" (m :: moments) in
  StronglySorted before out /\
  (forall x, x ∈ out -> exists m', m' ∈ m :: moments /\ x ∈ listed tenant ns m') /\
  (fin = true -> forall k, (forall m', m' ∈ m :: moments -> k ∈ (listed tenant ns m').*1) -> k ∈ out.*1).
Proof.
  pose proof (walk_stable tenant ns limit "" (m :: moments)) as Hw. destruct (walk _ _ _ _ _) as [out fin].
  destruct Hw as (Hs & _ & Hin & Hend). split; [done|]. split; [done|]. intros Hfin k Hk.
  apply (Hend Hfin); [|done]. eapply listed_keys. apply (Hk m). apply list_elem_of_here.
Qed.
