(* ===== verification/KvExamples.v ===== *)
(** * The key-value store: the theorems at concrete stores

    A JSON library that satisfies the laws (a wrapper is its expiry in eight
    bytes and then the value), and each theorem with hypotheses applied. *)

From Stdlib Require Import Ascii String ZArith Lia Bool.
From stdpp Require Import base tactics list strings gmap sorting relations.
From S2P Require Import Prelude GoStrings GoStrconv BoltStore Kv KvFacts KvAtomic KvRaces.

#[local] Open Scope string_scope.

#[local] Instance toyJSON : JSONLib := {|
  json_Valid _ := true;
  json_wrapper w := PutUint64 (wrapU64 (w_Exp w)) ++ w_V w;
  json_unwrap s := if (slen s <? 8)%nat then None else Some (mkW (sdrop 8 s) (wrap64 (Uint64 s)));
  json_compact s := s;
  json_any s := Some s |}.

#[local] Instance toyLaws : JSONLaws.
Proof.
  split; [|done]. intros w _ Hw. cbn [json_unwrap json_wrapper toyJSON].
  change (slen (PutUint64 (wrapU64 (w_Exp w)) ++ w_V w)) with (8 + slen (w_V w))%nat. cbn [Nat.add Nat.ltb Nat.leb].
  destruct (index_roundtrip (wrapU64 (w_Exp w)) (w_V w)) as [-> E]; [apply wrapU64_range|]. change metadataLen with 8%nat in E. rewrite E.
  f_equal. destruct w as [v e]; cbn [w_V w_Exp json_compact] in *. f_equal.
  unfold wrap64, wrapU64. rewrite Z.add_mod_idemp_l by done. exact (wrap64_id e Hw).
Defined.

Definition empty : Bolt := mkBolt None 0.

Lemma tenants_isolated_witness :
  exists ps' b', rtc (kpstep true) (map (fun r => perform 0 0 r.1 r.2) [("a", OSet "n" "k" "1" 0%Z)], empty) (ps', b') /\
  bucket_get b' "b/n/k" = bucket_get empty "b/n/k" /\ bucket_get b' "a/n/k" <> "".
Proof.
  eexists _, _. assert (Hr : rtc (kpstep true) (map (fun r => perform 0 0 r.1 r.2) [("a", OSet "n" "k" "1" 0%Z)], empty)
    ([KRet tt], Bolt.Put empty "a/n/k" (json_wrapper (mkW "1" 0)))).
  { eapply rtc_l; [eapply (kpstep_at true 0); [reflexivity|apply ks_put]|]. apply rtc_refl. }
  split; [exact Hr|]. split; [|done].
  apply (tenants_isolated 0 0 [("a", OSet "n" "k" "1" 0%Z)] "b" "n" "k" "b/n/k" empty _ _ eq_refl ltac:(repeat constructor; done) Hr).
Defined.

Lemma Incr_linearizable_witness :
  exists b', exists hist : list nat, NoDup hist /\
    (forall i, (i < length [1%Z; 2%Z])%nat -> (i ∈ hist <-> exists v, [KRet (inl 1%Z); KV.Incr 0 "t" "n" "k" 2 0] !! i = Some (KRet (inl v)))) /\
    (forall j i, hist !! j = Some i ->
       [KRet (inl 1%Z); KV.Incr 0 "t" "n" "k" 2 0] !! i = Some (KRet (inl (total [1%Z; 2%Z] 0 (take (S j) hist))))) /\
    stored_int b' "t/n/k" = Some (total [1%Z; 2%Z] 0 hist).
Proof.
  exists (Bolt.Put empty "t/n/k" (counter_blob 1)).
  refine (Incr_linearizable 0 0 "t" "n" "k" "t/n/k" [1%Z; 2%Z] 0 [] empty _ _ ltac:(done) eq_refl eq_refl ltac:(done) ltac:(constructor) _).
  eapply rtc_l; [split; [eapply (kpstep_at true 0); [reflexivity|apply ks_get]|done]|].
  eapply rtc_l; [split; [eapply (kpstep_at true 0); [reflexivity|apply ks_atomic]|done]|]. apply rtc_refl.
Defined.

Abbreviation create v := (KV.CAS 0 0 "t" "n" "lock" true "" v 0).

Lemma CAS_lock_witness :
  exists b' (winner : option nat),
    (forall i r, (i < 2)%nat -> [create "1"; KRet (inl (true, Some "2"))] !! i = Some (KRet (inl (true, r))) -> winner = Some i /\ r = ["1"; "2"] !! i) /\
    (forall i r, (i < 2)%nat -> [create "1"; KRet (inl (true, Some "2"))] !! i = Some (KRet (inl (false, r))) ->
       exists j, winner = Some j /\ r = json_compact <$> ["1"; "2"] !! j) /\
    match winner with
    | None => bucket_get b' "t/n/lock" = ""
    | Some i => exists v, ["1"; "2"] !! i = Some v /\ holds_value b' "t/n/lock" (json_compact v) /\
        [create "1"; KRet (inl (true, Some "2"))] !! i = Some (KRet (inl (true, Some v)))
    end.
Proof.
  exists (Bolt.Put empty "t/n/lock" (json_wrapper (mkW "2" 0))).
  refine (CAS_lock 0 0 0 "t" "n" "lock" "t/n/lock" "" ["1"; "2"] [] empty _ _ ltac:(done) eq_refl ltac:(repeat constructor) eq_refl ltac:(done) ltac:(constructor) _).
  eapply rtc_l; [split; [eapply (kpstep_at true 1); [reflexivity|apply ks_get]|done]|].
  eapply rtc_l; [split; [eapply (kpstep_at true 1); [reflexivity|apply ks_atomic]|done]|]. apply rtc_refl.
Defined.

Lemma Set_Get_lifetime_witness :
  let '(err, b1) := kalone (5 * Second) (KV.Set_ 0 0 "t" "n" "k" "1" (2 * Second)) empty in
  err = None /\ (kalone (6 * Second) (KV.Get "t" "n" "k") b1).1 = inl (Some "1") /\
  (kalone (7 * Second) (KV.Get "t" "n" "k") b1).1 = inl None.
Proof.
  pose proof (fun t' => Set_Get_lifetime 0 0 "t" "n" "k" "t/n/k" "1" (2 * Second) (5 * Second) t' empty eq_refl eq_refl eq_refl
    ltac:(done) ltac:(done) ltac:(done)) as Hl.
  destruct (kalone (5 * Second) (KV.Set_ 0 0 "t" "n" "k" "1" (2 * Second)) empty) as [err b1].
  split; [apply (Hl 0%Z)|]. split; [apply (Hl (6 * Second)%Z); right; done|apply (Hl (7 * Second)%Z); done].
Defined.

(** A key that expired at second 2, and the clock at second 9. *)
Definition stale : Bolt := Bolt.Put empty "t/n/k" (json_wrapper (mkW "1" 2)).

Lemma expired_get_drops_fresh_witness :
  exists b', rtc (kpstep false)
    ([tagged inl (KV.Get "t" "n" "k"); tagged inr (KV.Set_ 0 0 "t" "n" "k" "7" 0)], stale)
    ([KRet (inl (inl None)); KRet (inr None)], b') /\ bucket_get b' "t/n/k" = "".
Proof.
  exact (expired_get_drops_fresh 0 0 "t" "n" "k" "t/n/k" "7" (mkW "1" 2) (9 * Second) stale eq_refl eq_refl eq_refl eq_refl ltac:(done) ltac:(done) ltac:(done)).
Defined.

(** A counter at 1, the second write of the process before. *)
Definition before_restart : Bolt := Bolt.Put (Bolt.Put empty "t/n/other" (json_wrapper (mkW "0" 0))) "t/n/k" (counter_blob 1).

Lemma restart_loses_updates_witness :
  exists b', rtc (kpstep false)
    (map (fun d => KV.Incr 0 "t" "n" "k" d 0) [1; 10; 100]%Z, Bolt.Reopen before_restart)
    (map (fun r => KRet (inl r)) [2; 11; 111]%Z, b') /\ stored_int b' "t/n/k" = Some 2%Z.
Proof.
  exact (restart_loses_updates 0 0 "t" "n" "k" "t/n/k" 1 1 10 100 before_restart ltac:(done) eq_refl ltac:(done) eq_refl).
Defined.
