(* ===== verification/Sandbox.v ===== *)
(** * Sandbox declarations (chassis/sandbox)

    The names a run grant is made of: sandboxes, their variables and files, the
    references they hold and the capabilities they list.  Each regular expression
    of the package is a test on bytes; the texts of errors are left out, so a
    failing function answers [None]. *)

From Stdlib Require Import Ascii String ZArith Lia Bool.
From stdpp Require Import base tactics list strings gmap sorting.
From S2P Require Import Prelude GoStrings Runs.

#[local] Open Scope string_scope.

(** ** Grammars *)

(** [^[first][rest]{0,max}$] *)
Definition re_word (first rest : ascii -> bool) (max : nat) (s : string) : bool :=
  match s with
  | EmptyString => false
  | String c t => first c && (slen t <=? max)%nat && sall rest t
  end.
Definition one_of (chars : string) (c : ascii) : bool := ContainsByte chars c.

Definition alpha (c : ascii) : bool := is_lower c || is_upper c.
Definition alnum (c : ascii) : bool := alpha c || is_dec c.
Definition lower_rest (c : ascii) : bool := is_lower c || is_dec c || one_of "_-" c.
Definition ident_rest (c : ascii) : bool := alnum c || (c =c "_").

Definition varRe : string -> bool := re_word (fun c => alpha c || (c =c "_")) ident_rest 127.
Definition secretNameRe : string -> bool := re_word alpha ident_rest 127.
Definition providerNameRe : string -> bool := re_word is_lower lower_rest 63.
Definition pathPartRe (s : string) : bool :=
  negb (s =s "") && (slen s <=? 128)%nat && sall (fun c => alnum c || one_of "._@+-" c) s.
(** [^[a-z][a-z0-9_-]{0,63}(\.[a-z][a-z0-9_-]{0,63}){0,7}$] *)
Definition CapabilityRE (s : string) : bool :=
  let words := Split s "." in (length words <=? 8)%nat && forallb (re_word is_lower lower_rest 63) words.
Definition nameRe : string -> bool := re_word is_lower lower_rest 63.

(** [strings.Cut] at a byte: what is before and after its first occurrence. *)
Fixpoint Cut (s : string) (sep : ascii) : option (string * string) :=
  match s with
  | EmptyString => None
  | String c t =>
      if c =c sep then Some ("", t)
      else match Cut t sep with Some (x, y) => Some (String c x, y) | None => None end
  end.

Definition sorted_keys {V} (m : gmap string V) : list string := merge_sort string_le (map_to_list m).*1.

(** ** Declarations *)

Definition MaxEnv : nat := 32.
Definition MaxCapabilities : nat := 32.
Definition MaxDescription : nat := 256.
Definition MaxFiles : nat := 8.
Definition MaxPath : nat := 256.
Definition KindSecret : string := "secret".
Definition KindConnection : string := "connection".
Definition FilePrefix : string := "file:".
Definition DotenvPrefix : string := "dotenv:".
Definition DotenvValue : string := "env".
Definition ReservedVarPrefix : string := "TXCO_".

Record Decl := mkDecl {
  d_Description : string; d_Env : gmap string string; d_Files : gmap string string; d_Dotenv : string; d_Capabilities : list string }.

Definition ValidName (s : string) : bool := nameRe s.
Definition ValidVar (s : string) : bool := varRe s && negb (HasPrefix s ReservedVarPrefix).
Definition ValidCapability (s : string) : bool := CapabilityRE s.

Definition ParseRef (s : string) : option (string * string) :=
  match Cut (TrimSpace s) ":" with
  | None => None
  | Some (kind, name) =>
      if kind =s KindSecret then if secretNameRe name then Some (kind, name) else None
      else if kind =s KindConnection then if providerNameRe name then Some (kind, name) else None
      else None
  end.

Definition ValidPath (p : string) : bool :=
  if (p =s "") || (MaxPath <? slen p)%nat then false
  else
    let parts := Split (TrimPrefix p "~/") "/" in
    if (8 <? length parts)%nat then false
    else forallb (fun part => negb ((part =s ".") || (part =s "..") || negb (pathPartRe part))) parts.

Definition bad_entry (valid : string -> bool) (kv : string * string) : bool :=
  negb (valid kv.1) || match ParseRef kv.2 with None => true | Some _ => false end.

Fixpoint clean_capabilities (seen : list string) (caps : list string) : option (list string) :=
  match caps with
  | [] => Some []
  | c :: caps =>
      let c := TrimSpace c in
      if negb (ValidCapability c) || bool_decide (c ∈ seen) then None
      else match clean_capabilities (c :: seen) caps with Some l => Some (c :: l) | None => None end
  end.

(** [ParseDecl] after the YAML has been decoded. *)
Definition ParseDecl (d : Decl) : option Decl :=
  if (MaxDescription <? slen (d_Description d))%nat then None
  else if (size (d_Env d) =? 0)%nat && (size (d_Files d) =? 0)%nat && (length (d_Capabilities d) =? 0)%nat then None
  else if (MaxFiles <? size (d_Files d))%nat then None
  else if existsb (bad_entry ValidPath) (map_to_list (d_Files d)) then None
  else if negb (d_Dotenv d =s "") &&
          ((size (d_Env d) =? 0)%nat || negb (ValidPath (d_Dotenv d)) || bool_decide (is_Some (d_Files d !! d_Dotenv d))) then None
  else if (MaxEnv <? size (d_Env d))%nat then None
  else if (MaxCapabilities <? length (d_Capabilities d))%nat then None
  else if existsb (bad_entry ValidVar) (map_to_list (d_Env d)) then None
  else match clean_capabilities [] (d_Capabilities d) with
       | None => None
       | Some caps => Some (mkDecl (d_Description d) (d_Env d) (d_Files d) (d_Dotenv d) caps)
       end.

Definition Vars (d : Decl) : list string := sorted_keys (d_Env d).

(** [Entries]: variables, then files, then the dotenv file, each writing its key. *)
Definition Entries (d : Decl) : gmap string string :=
  let files := kmap (String.append FilePrefix) (d_Files d) ∪ d_Env d in
  if negb (d_Dotenv d =s "") then <[DotenvPrefix ++ d_Dotenv d := DotenvValue]> files else files.

Definition secret_of (ref : string) : option string :=
  match ParseRef ref with Some (kind, name) => if kind =s KindSecret then Some name else None | None => None end.
Definition Secrets (d : Decl) : list string :=
  merge_sort string_le (elements (list_to_set (C := gset string) (omap secret_of (map_to_list (Entries d)).*2))).
Definition CapabilityNames (d : Decl) : list string := merge_sort string_le (d_Capabilities d).

(** ** Snapshots *)

Inductive EntryKind := EntryVar | EntryFile | EntryDotenv.
#[export] Instance EntryKind_eq : EqDecision EntryKind.
Proof. solve_decision. Defined.

Definition ParseEntry (key : string) : EntryKind * string * bool :=
  if HasPrefix key FilePrefix then let p := sdrop (slen FilePrefix) key in (EntryFile, p, ValidPath p)
  else if HasPrefix key DotenvPrefix then let p := sdrop (slen DotenvPrefix) key in (EntryDotenv, p, ValidPath p)
  else (EntryVar, "", ValidVar key).

Definition CheckEntry (key value : string) : bool :=
  let '(kind, _, ok) := ParseEntry key in
  if negb ok then false
  else match kind with
       | EntryDotenv => value =s DotenvValue
       | _ => match ParseRef value with Some _ => true | None => false end
       end.

(** ** Paths of declarations *)

Definition Dir : string := "SANDBOXES".
Definition DeclExt : string := ".yaml".
Definition IsSandboxPath (p : string) : bool := HasPrefix p (Dir ++ "/").
Definition Name (p : string) : string :=
  if negb (IsSandboxPath p) then ""
  else
    let rest := sdrop (slen Dir + 1) p in
    if (rest =s "") || ContainsByte rest "/" || negb (HasSuffix rest DeclExt) then ""
    else let name := stake (slen rest - slen DeclExt) rest in if ValidName name then name else "".
Definition DeclPath (name : string) : string := Dir ++ "/" ++ name ++ DeclExt.

(** ** Lemmas *)

(** Bytes that are neither spaces nor part of a wider rune. *)
Definition plain (c : ascii) : bool := (33 <=? bval c)%nat && (bval c <=? 126)%nat.

Lemma plain_no_lead runes s :
  Forall (fun r => match r with EmptyString => False | String c _ => plain c = false end) runes ->
  sall plain s = true -> no_lead runes s.
Proof.
  intros Hr Hs. eapply Forall_impl; [exact Hr|]. intros [|c r]; [done|]. intros Hc. destruct s as [|d s]; [done|].
  cbn in Hs |- *. apply andb_true_iff in Hs as [Hd _]. destruct (ascii_dec c d) as [<-|]; [congruence|done].
Qed.

Lemma sall_srev p s : sall p (srev s) = sall p s.
Proof. induction s as [|c s IH]; [done|]. rewrite srev_cons, sall_app, IH. cbn. rewrite andb_true_r. apply andb_comm. Qed.

Lemma TrimSpace_plain s : sall plain s = true -> TrimSpace s = s.
Proof.
  intros Hs. apply TrimSpace_id. split; (apply plain_no_lead; [vm_compute; repeat constructor|]); [done|]. by rewrite sall_srev.
Qed.

Lemma Cut_app x y sep : sall (fun c => negb (c =c sep)) x = true -> Cut (x ++ String sep y) sep = Some (x, y).
Proof.
  induction x as [|c x IH]; cbn [String.append Cut sall]; intros Hx; [by rewrite Ascii.eqb_refl|].
  apply andb_true_iff in Hx as [Hc Hx]. apply negb_true_iff in Hc. by rewrite Hc, IH.
Qed.
Lemma Cut_none x sep : sall (fun c => negb (c =c sep)) x = true -> Cut x sep = None.
Proof.
  induction x as [|c x IH]; cbn [Cut sall]; intros Hx; [done|].
  apply andb_true_iff in Hx as [Hc Hx]. apply negb_true_iff in Hc. by rewrite Hc, IH.
Qed.

(** Every byte of the names is plain, and none is a colon. *)
Definition name_byte (c : ascii) : bool := plain c && negb (c =c ":").

Lemma byte_class (p q : ascii -> bool) :
  forallb (fun n => negb (p (ascii_of_nat n)) || q (ascii_of_nat n)) (seq 0 256) = true -> forall c, p c = true -> q c = true.
Proof.
  intros H c Hp. rewrite forallb_forall in H. specialize (H (nat_of_ascii c)). rewrite ascii_nat_embedding, Hp in H.
  apply H. apply in_seq. pose proof (nat_ascii_bounded c). lia.
Qed.

Lemma re_word_bytes (first rest : ascii -> bool) max s :
  (forall c, first c = true -> name_byte c = true) -> (forall c, rest c = true -> name_byte c = true) ->
  re_word first rest max s = true -> sall name_byte s = true.
Proof.
  intros Hf Hr. destruct s as [|c s]; [done|]. cbn [re_word sall]. intros H. bool_to_prop.
  rewrite Hf by done. by apply (sall_impl rest name_byte).
Qed.

Lemma lower_rest_bytes c : lower_rest c = true -> name_byte c = true.
Proof. revert c. by apply byte_class. Qed.
Lemma is_lower_bytes c : is_lower c = true -> name_byte c = true.
Proof. revert c. by apply byte_class. Qed.
Lemma ident_rest_bytes c : ident_rest c = true -> name_byte c = true.
Proof. revert c. by apply byte_class. Qed.
Lemma alpha_bytes c : alpha c = true -> name_byte c = true.
Proof. revert c. by apply byte_class. Qed.

Lemma secretName_bytes s : secretNameRe s = true -> sall name_byte s = true.
Proof. apply re_word_bytes; [apply alpha_bytes|apply ident_rest_bytes]. Qed.
Lemma providerName_bytes s : providerNameRe s = true -> sall name_byte s = true.
Proof. apply re_word_bytes; [apply is_lower_bytes|apply lower_rest_bytes]. Qed.
Lemma varRe_bytes s : varRe s = true -> sall name_byte s = true.
Proof. apply re_word_bytes; [intros c; revert c; by apply byte_class|apply ident_rest_bytes]. Qed.

Lemma Split_sall (p : ascii -> bool) s sep : p sep = true -> Forall (fun w => sall p w = true) (Split s sep) -> sall p s = true.
Proof.
  intros Hp. induction s as [|c s IH]; [done|]. cbn [Split sall].
  destruct (c =c sep) eqn:E; [apply Ascii.eqb_eq in E as ->; rewrite Forall_cons; intros [_ H]; rewrite Hp; by apply IH|].
  destruct (Split s sep) as [|w ws] eqn:Es; [by apply Split_not_nil in Es|]. rewrite Forall_cons. cbn [sall]. intros [Hw Hws].
  apply andb_true_iff in Hw as [Hc Hw]. rewrite Hc. apply IH. by constructor.
Qed.

Lemma Capability_bytes s : CapabilityRE s = true -> sall name_byte s = true.
Proof.
  unfold CapabilityRE. intros H. apply andb_true_iff in H as [_ H]. apply (Split_sall _ _ "."); [done|].
  rewrite forallb_forall in H. apply Forall_forall. intros w Hw. apply list_elem_of_In in Hw. specialize (H w Hw).
  revert H. apply re_word_bytes; [apply is_lower_bytes|apply lower_rest_bytes].
Qed.

Lemma name_plain s : sall name_byte s = true -> sall plain s = true /\ sall (fun c => negb (c =c ":")) s = true.
Proof. intros H. split; revert H; apply sall_impl; intros c; unfold name_byte; by destruct (plain c), (c =c ":"). Qed.

(** ** A declared sandbox is one a run grant can hold *)

Lemma ParseEntry_var v : ValidVar v = true -> ParseEntry v = (EntryVar, "", true).
Proof.
  intros Hv. unfold ParseEntry. assert (Hn : forall pre t, HasPrefix v (pre ++ String ":" t) = false).
  { intros pre t. apply not_true_is_false. intros Hp. apply prefix_iff in Hp as [u ->]. unfold ValidVar in Hv. bool_to_prop.
    pose proof (proj2 (name_plain _ (varRe_bytes _ ltac:(done)))) as Hc. rewrite !sall_app in Hc. cbn in Hc. by rewrite !andb_false_r in Hc. }
  pose proof (Hn "file" "") as H1. pose proof (Hn "dotenv" "") as H2. change ("file" ++ String ":" "") with FilePrefix in H1.
  change ("dotenv" ++ String ":" "") with DotenvPrefix in H2. by rewrite H1, H2, Hv.
Qed.

Lemma ParseEntry_file p : ParseEntry (FilePrefix ++ p) = (EntryFile, p, ValidPath p).
Proof. unfold ParseEntry, HasPrefix. by rewrite prefix_app, sdrop_app. Qed.

Lemma ParseEntry_dotenv p : ParseEntry (DotenvPrefix ++ p) = (EntryDotenv, p, ValidPath p).
Proof.
  unfold ParseEntry, HasPrefix. change (String.prefix FilePrefix (DotenvPrefix ++ p)) with false.
  by rewrite prefix_app, sdrop_app.
Qed.

Lemma good_entries valid (m : gmap string string) k v :
  existsb (bad_entry valid) (map_to_list m) = false -> m !! k = Some v -> valid k = true /\ is_Some (ParseRef v).
Proof.
  intros H Hk. apply elem_of_map_to_list in Hk. apply list_elem_of_In in Hk.
  destruct (bad_entry valid (k, v)) eqn:E.
  - assert (Hex : existsb (bad_entry valid) (map_to_list m) = true) by (apply existsb_exists; eauto). congruence.
  - unfold bad_entry in E; cbn in E. apply orb_false_iff in E as [E1 E2]. apply negb_false_iff in E1. split; [done|].
    by destruct (ParseRef v); eauto.
Qed.

#[export] Instance FilePrefix_inj : Inj (=) (=) (String.append FilePrefix).
Proof. intros x y. apply sapp_inj_l. Qed.

(** Whatever a deployed declaration lists passes the check a run grant makes of
    its snapshot, and the snapshot is within the size the grant allows. *)
Lemma declared_entries_ok d d' : ParseDecl d = Some d' ->
  (forall k v, Entries d' !! k = Some v -> CheckEntry k v = true) /\ (size (Entries d') <= MaxEnv + MaxFiles + 1)%nat.
Proof.
  unfold ParseDecl. intros E. repeat case_bool; try done. destruct (clean_capabilities _ _) as [caps|]; [|done]. simplify_eq.
  unfold Entries; cbn [d_Env d_Files d_Dotenv]. set (base := kmap _ (d_Files d) ∪ d_Env d).
  assert (Hbase : forall k v, base !! k = Some v -> CheckEntry k v = true).
  { intros k v Hk. unfold base in Hk. apply lookup_union_Some_raw in Hk as [Hk|[_ Hk]].
    - apply lookup_kmap_Some in Hk as (p & -> & Hp); [|apply _].
      destruct (good_entries ValidPath _ _ _ ltac:(eassumption) Hp) as [Hv [r Hr]]. unfold CheckEntry. rewrite ParseEntry_file, Hv, Hr. done.
    - destruct (good_entries ValidVar _ _ _ ltac:(eassumption) Hk) as [Hv [r Hr]]. unfold CheckEntry. rewrite (ParseEntry_var _ Hv), Hr. done. }
  assert (Hdisj : kmap (M2 := gmap string) (String.append FilePrefix) (d_Files d) ##ₘ d_Env d).
  { apply map_disjoint_spec. intros k x y Hx Hy. apply lookup_kmap_Some in Hx as (p & -> & _); [|apply _].
    destruct (good_entries ValidVar _ _ _ ltac:(eassumption) Hy) as [Hv _]. apply ParseEntry_var in Hv. by rewrite ParseEntry_file in Hv. }
  assert (Hsize : (size base <= MaxFiles + MaxEnv)%nat).
  { unfold base. rewrite map_size_disj_union by done. assert (Ek : size (kmap (M2 := gmap string) (String.append FilePrefix) (d_Files d)) = size (d_Files d)).
    { rewrite <- !length_map_to_list, map_to_list_kmap by apply _. apply length_fmap. }
    rewrite Ek. repeat match goal with H : (_ <? _)%nat = false |- _ => apply Nat.ltb_ge in H end. lia. }
  case_bool; [|split; [done|lia]]. split.
  - intros k v Hk. destruct (decide (k = DotenvPrefix ++ d_Dotenv d)) as [->|Hn].
    + rewrite lookup_insert_eq in Hk. simplify_eq. unfold CheckEntry. rewrite ParseEntry_dotenv.
      match goal with H : true && _ = false |- _ => cbn [andb] in H; apply orb_false_iff in H as [H _]; apply orb_false_iff in H as [_ H];
        apply negb_false_iff in H; by rewrite H end.
    + rewrite lookup_insert_ne in Hk by done. by apply Hbase.
  - rewrite map_size_insert. case_match; unfold id; lia.
Qed.
