(* ===== verification/RunGrants.v ===== *)
(** * Standing grants and run grants (chassis/authn: grants.go, rungrants.go, owner.go)

    The identity store's tables and every operation on grants.  A statement or a
    transaction of the code is one [Call]; an operation is a [Tx], a tree of calls
    with what the code does with each answer.  [exec] is what the database does
    with a call; a call may also fail and leave the tables alone.

    A time in a column is a stamp, whole seconds; the clock is in nanoseconds.
    JSON columns are held as the list or map they encode. *)

From Stdlib Require Import Ascii String ZArith Lia Bool.
From stdpp Require Import base tactics list strings gmap sorting.
From S2P Require Import Prelude GoStrings GoStrconv Sandbox.

#[local] Open Scope string_scope.

(** ** Principals and resources *)

Record Principal := mkPrincipal { p_ID : string; p_Kind : string }.
Definition KindUser : string := "user".
Definition UserID (p : Principal) : option string :=
  if p_Kind p =s KindUser then Some (TrimPrefix (p_ID p) (p_Kind p ++ ":")) else None.
(** The principal of a row: its kind is what is before the first colon. *)
Definition principal_of (id : string) : Principal :=
  mkPrincipal id (match Cut id ":" with Some (kind, _) => kind | None => id end).

(** [BaseStack]: the first slash segment. *)
Fixpoint trim_slashes (s : string) : string :=
  match s with String "/" s => trim_slashes s | _ => s end.
Definition BaseStack (stack : string) : string :=
  let stack := trim_slashes (TrimSpace stack) in
  match Cut stack "/" with Some (base, _) => base | None => stack end.

Definition ResourceCapability : string := "capability".
Definition ResourceSecret : string := "secret".
Definition ResourceConnection : string := "connection".
Definition VerbInvoke : string := "invoke".
Definition VerbRelease : string := "release".

Record Resource := mkResource { r_Kind : string; r_Name : string }.
#[export] Instance Resource_eq : EqDecision Resource.
Proof. solve_decision. Defined.

(** [resourceRules]: the grammar of the names of a kind, and its verbs. *)
Definition resourceRules (kind : string) : option ((string -> bool) * list string) :=
  if kind =s ResourceCapability then Some (CapabilityRE, [VerbInvoke])
  else if kind =s ResourceSecret then Some (secretNameRe, [VerbRelease])
  else if kind =s ResourceConnection then Some (providerNameRe, [VerbRelease])
  else None.

Definition Resource_String (r : Resource) : string :=
  if r_Kind r =s ResourceCapability then r_Name r else r_Kind r ++ ":" ++ r_Name r.
Definition Verb (r : Resource) : string :=
  match resourceRules (r_Kind r) with Some (_, v :: _) => v | _ => "" end.

Definition NewResource (kind name : string) : option Resource :=
  match resourceRules kind with
  | None => None
  | Some (grammar, _) => let name := TrimSpace name in if grammar name then Some (mkResource kind name) else None
  end.
Definition ParseResource (s : string) : option Resource :=
  let s := TrimSpace s in
  match Cut s ":" with
  | None => NewResource ResourceCapability s
  | Some (kind, name) => NewResource kind name
  end.

(** ** The tables *)

Inductive AErr :=
  | ErrInvalid | ErrNotFound | ErrNoStack | ErrNotOwner (owner : string) | ErrDisabled | ErrTooManyGrants
  | ErrExceedsStanding (res : Resource) | ErrExceedsParent | ErrParentNotLive | ErrDepth | ErrStaleGeneration
  | ErrRunNotLive | ErrRunBudget | ErrUnique | ErrCorrupt | ErrDB.

Record User := mkUser { u_CreatedBy : string; u_Active : bool }.
(** A row of principal_bindings or credentials, as [ownerOf] reads it. *)
Record OwnerRow := mkOwner { o_Tenant : string; o_Principal : string; o_CreatedBy : string; o_CreatedAt : Z; o_ID : string }.

Record GrantRow := mkGrant {
  gr_Tenant : string; gr_Principal : string; gr_Kind : string; gr_Name : string; gr_Verbs : list string;
  gr_CreatedBy : string; gr_CreatedAt : Z; gr_RevokedAt : option Z }.

Record RunGrant := mkRun {
  rg_ID : string; rg_Tenant : string; rg_Principal : string; rg_MintedBy : string; rg_Stack : string;
  rg_Run : string; rg_Generation : Z; rg_WorkspaceID : string; rg_Workspace : string; rg_NodeClass : string;
  rg_FileKey : string; rg_Allow : list string; rg_Sandboxes : gmap string (gmap string string);
  rg_Budget : Z; rg_Spent : Z; rg_Parent : string; rg_Depth : Z; rg_Trace : string;
  rg_Issued : Z; rg_Expires : Z; rg_Closed : option Z; rg_CloseReason : string; rg_Revoked : option Z }.

Record AuthDB := mkDB {
  db_users : gmap (string * string) User;
  db_owners : list OwnerRow;
  db_grants : gmap string GrantRow;
  db_heads : gmap (string * string * string) (Z * string);   (** run_heads *)
  db_runs : gmap string RunGrant }.

(** ** Rows *)

Definition ended (g : RunGrant) : bool :=
  bool_decide (is_Some (rg_Revoked g)) || bool_decide (is_Some (rg_Closed g)).
(** [Live] at a moment, and [liveRun], the WHERE clause, at a stamp. *)
Definition Live (g : RunGrant) (now : Z) : bool := negb (ended g) && (now <? rg_Expires g * Second)%Z.
Definition liveRun (g : RunGrant) (stamp : Z) : bool := negb (ended g) && (stamp <? rg_Expires g)%Z.
Definition Remaining (g : RunGrant) : Z := if (rg_Budget g <=? rg_Spent g)%Z then 0%Z else (rg_Budget g - rg_Spent g)%Z.

(** [decodeAllow] and [decodeSandboxes]: a row that does not parse is an error. *)
Definition decodeAllow (col : list string) : option (list Resource) :=
  match mapM ParseResource col with Some (r :: rs) => Some (r :: rs) | _ => None end.

(** What the allowlist of a row names. *)
Definition allowed (g : RunGrant) : list Resource := default [] (decodeAllow (rg_Allow g)).
Definition Allows (g : RunGrant) (res : Resource) : bool := bool_decide (res ∈ allowed g).

Definition MaxRunAllow : nat := 64.
Definition MaxRunSandboxes : nat := 16.
Definition MaxRunDepth : nat := 4.
Definition MaxRunTTL : Z := 24 * 3600 * Second.
Definition MaxRunBudget : Z := 1000000.
Definition MaxGrants : nat := 1024.

Definition checkSandboxes (m : gmap string (gmap string string)) : bool :=
  (size m <=? MaxRunSandboxes)%nat &&
  forallb (fun x => ValidName x.1 && (size x.2 <=? MaxEnv + MaxFiles + 1)%nat &&
                    forallb (fun e => CheckEntry e.1 e.2) (map_to_list x.2)) (map_to_list m).

Definition scanRunGrant (row : option RunGrant) : RunGrant + AErr :=
  match row with
  | None => inr ErrNotFound
  | Some g =>
      match decodeAllow (rg_Allow g) with
      | None => inr ErrCorrupt
      | Some _ => if negb (size (rg_Sandboxes g) =? 0)%nat && negb (checkSandboxes (rg_Sandboxes g)) then inr ErrCorrupt else inl g
      end
  end.

(** ** Statements *)

Definition run_of (db : AuthDB) (tenant id : string) : option RunGrant :=
  db_runs db !! id ≫= fun g => if rg_Tenant g =s tenant then Some g else None.

(** [ownerOf]: a user's row, else the earliest row of the principal. *)
Definition row_before (x y : OwnerRow) : Prop :=
  (o_CreatedAt x < o_CreatedAt y)%Z \/ (o_CreatedAt x = o_CreatedAt y /\ string_le (o_ID x) (o_ID y)).
#[export] Instance row_before_dec : RelDecision row_before.
Proof. intros x y. unfold row_before. apply _. Defined.

Definition ownerOf (db : AuthDB) (tenant : string) (p : Principal) : option string + AErr :=
  match UserID p with
  | Some uid => match db_users db !! (tenant, uid) with Some u => inl (Some (u_CreatedBy u)) | None => inr ErrNotFound end
  | None =>
      inl (o_CreatedBy <$> head (merge_sort row_before
             (filter (fun r => o_Tenant r = tenant /\ o_Principal r = p_ID p) (db_owners db))))
  end.

Definition live_grant (tenant principal : string) (g : GrantRow) : Prop :=
  gr_Tenant g = tenant /\ gr_Principal g = principal /\ gr_RevokedAt g = None.
#[export] Instance live_grant_dec tenant principal g : Decision (live_grant tenant principal g).
Proof. unfold live_grant. apply _. Defined.

(** [scanGrant] with [decodeVerbs]: a row without verbs is corrupt. *)
Definition scanGrant (row : option (string * GrantRow)) : (string * GrantRow) + AErr :=
  match row with
  | None => inr ErrNotFound
  | Some (id, g) => match gr_Verbs g with [] => inr ErrCorrupt | _ => inl (id, g) end
  end.
Definition liveGrant (db : AuthDB) (tenant : string) (p : Principal) (res : Resource) : (string * GrantRow) + AErr :=
  scanGrant (head (map_to_list (filter (fun x =>
    live_grant tenant (p_ID p) x.2 /\ gr_Kind x.2 = r_Kind res /\ gr_Name x.2 = r_Name res) (db_grants db)))).

(** [heldBy]: the live grants of a principal by the names of their resources. *)
Definition heldBy (db : AuthDB) (tenant : string) (p : Principal) : list (string * list string) + AErr :=
  let rows := (map_to_list (filter (fun x => live_grant tenant (p_ID p) x.2) (db_grants db))).*2 in
  if existsb (fun g => match gr_Verbs g with [] => true | _ => false end) rows then inr ErrCorrupt
  else inl (map (fun g => (Resource_String (mkResource (gr_Kind g) (gr_Name g)), gr_Verbs g)) rows).

(** [grants]: the rows of a query, newest first. *)
Definition newer (x y : string * GrantRow) : Prop :=
  (gr_CreatedAt y.2 < gr_CreatedAt x.2)%Z \/ (gr_CreatedAt x.2 = gr_CreatedAt y.2 /\ string_le y.1 x.1).
#[export] Instance newer_dec : RelDecision newer.
Proof. intros x y. unfold newer. apply _. Defined.
Definition grants (db : AuthDB) (where_ : GrantRow -> bool) : list (string * GrantRow) + AErr :=
  let rows := map_to_list (filter (fun x => where_ x.2 = true) (db_grants db)) in
  if existsb (fun x => match gr_Verbs x.2 with [] => true | _ => false end) rows then inr ErrCorrupt
  else inl (merge_sort newer rows).

(** [insertGrant]: the transaction that writes a standing grant over the one it
    replaces; the unique index is on live rows. *)
Definition revoke_grant (now : Z) (tenant : string) (g : GrantRow) : GrantRow :=
  if bool_decide (gr_Tenant g = tenant /\ gr_RevokedAt g = None)
  then mkGrant (gr_Tenant g) (gr_Principal g) (gr_Kind g) (gr_Name g) (gr_Verbs g) (gr_CreatedBy g) (gr_CreatedAt g) (Some now)
  else g.
Definition set_grants (db : AuthDB) (m : gmap string GrantRow) : AuthDB :=
  mkDB (db_users db) (db_owners db) m (db_heads db) (db_runs db).
Definition insertGrant (db : AuthDB) (now : Z) (id : string) (g : GrantRow) (replace : string) : (unit + AErr) * AuthDB :=
  let m := if replace =s "" then db_grants db else alter (revoke_grant now (gr_Tenant g)) replace (db_grants db) in
  if bool_decide (is_Some (m !! id)) ||
     existsb (fun x => bool_decide (live_grant (gr_Tenant g) (gr_Principal g) x /\ gr_Kind x = gr_Kind g /\ gr_Name x = gr_Name g)) (map_to_list m).*2
  then (inr ErrUnique, db)
  else (inl tt, set_grants db (<[id := g]> m)).

(** ** Ending a run grant and everything narrowed from it *)

Inductive Ending := Closing (stamp : Z) (reason : string) | Revoking (stamp : Z).
Definition end_row (e : Ending) (g : RunGrant) : RunGrant :=
  let '(closed, reason, revoked) :=
    match e with Closing t why => (Some t, why, rg_Revoked g) | Revoking t => (rg_Closed g, rg_CloseReason g, Some t) end in
  mkRun (rg_ID g) (rg_Tenant g) (rg_Principal g) (rg_MintedBy g) (rg_Stack g) (rg_Run g) (rg_Generation g)
    (rg_WorkspaceID g) (rg_Workspace g) (rg_NodeClass g) (rg_FileKey g) (rg_Allow g) (rg_Sandboxes g) (rg_Budget g) (rg_Spent g)
    (rg_Parent g) (rg_Depth g) (rg_Trace g) (rg_Issued g) (rg_Expires g) closed reason revoked.
Definition spend (n : Z) (g : RunGrant) : RunGrant :=
  mkRun (rg_ID g) (rg_Tenant g) (rg_Principal g) (rg_MintedBy g) (rg_Stack g) (rg_Run g) (rg_Generation g)
    (rg_WorkspaceID g) (rg_Workspace g) (rg_NodeClass g) (rg_FileKey g) (rg_Allow g) (rg_Sandboxes g) (rg_Budget g) (rg_Spent g + n)
    (rg_Parent g) (rg_Depth g) (rg_Trace g) (rg_Issued g) (rg_Expires g) (rg_Closed g) (rg_CloseReason g) (rg_Revoked g).

Abbreviation Runs_ := (gmap string RunGrant).

(** [UPDATE run_grants SET ... WHERE ... AND revoked_at IS NULL AND closed_at IS NULL] *)
Definition end_where (e : Ending) (cond : RunGrant -> bool) (m : Runs_) : Runs_ :=
  (fun g => if cond g && negb (ended g) then end_row e g else g) <$> m.
Definition child_of (tenant : string) (level : list string) (g : RunGrant) : bool :=
  (rg_Tenant g =s tenant) && negb (rg_Parent g =s "") && bool_decide (rg_Parent g ∈ level).
Definition ids_where (cond : RunGrant -> bool) (m : Runs_) : list string :=
  (map_to_list (filter (fun x => cond x.2 = true) m)).*1.

(** [endDescendants]; the source cuts the ids of one level into chunks of 200. *)
Fixpoint endDescendants (depth : nat) (e : Ending) (tenant : string) (level : list string) (m : Runs_) : Runs_ :=
  match depth, level with
  | O, _ | _, [] => m
  | S depth, _ =>
      let next := ids_where (child_of tenant level) m in
      endDescendants depth e tenant next (end_where e (child_of tenant level) m)
  end.

Definition set_runs (db : AuthDB) (m : Runs_) : AuthDB := mkDB (db_users db) (db_owners db) (db_grants db) (db_heads db) m.
Definition set_heads (db : AuthDB) h : AuthDB := mkDB (db_users db) (db_owners db) (db_grants db) h (db_runs db).

(** The transaction of [endRunGrant]: whether this call ended it. *)
Definition endRun (db : AuthDB) (e : Ending) (tenant id : string) : bool * AuthDB :=
  let hit (g : RunGrant) := (rg_Tenant g =s tenant) &&
    match e with Closing _ _ => negb (ended g) | Revoking _ => negb (bool_decide (is_Some (rg_Revoked g))) end in
  let m := alter (fun g => if hit g then end_row e g else g) id (db_runs db) in
  (match db_runs db !! id with Some g => hit g | None => false end,
   set_runs db (endDescendants MaxRunDepth e tenant [id] m)).

(** [ChargeRunGrant]'s statement: whether a row was charged. *)
Definition charge (db : AuthDB) (tenant id : string) (n stamp : Z) (enforce : bool) : bool * AuthDB :=
  match run_of db tenant id with
  | Some g =>
      if liveRun g stamp && (negb enforce || (rg_Spent g + n <=? rg_Budget g)%Z)
      then (true, set_runs db (<[id := spend n g]> (db_runs db))) else (false, db)
  | None => (false, db)
  end.

(** ** Minting *)

Definition same_run (x y : RunGrant) : bool :=
  (rg_Tenant x =s rg_Tenant y) && (rg_MintedBy x =s rg_MintedBy y) && (rg_Run x =s rg_Run y).
Definition run_key (g : RunGrant) : string * string * string := (rg_Tenant g, rg_MintedBy g, rg_Run g).

(** The generation the run's head row ends up at. *)
Definition next_generation (head : option (Z * string)) (generation : Z) : option Z :=
  match head with
  | None => Some (if (generation =? 0)%Z then 1%Z else generation)
  | Some (cur, _) =>
      if (generation =? 0)%Z then Some (cur + 1)%Z
      else if (cur <? generation)%Z then Some generation else None
  end.

(** The budget is taken from the parent, in one statement. *)
Definition take_budget (db : AuthDB) (g : RunGrant) (now : Z) : Runs_ + AErr :=
  if rg_Parent g =s "" then inl (db_runs db)
  else match run_of db (rg_Tenant g) (rg_Parent g) with
       | None => inr ErrParentNotLive
       | Some p =>
           if liveRun p (now / Second) && (rg_Spent p + rg_Budget g <=? rg_Budget p)%Z
           then inl (<[rg_Parent g := spend (rg_Budget g) p]> (db_runs db))
           else match scanRunGrant (Some p) with
                | inl p => if Live p now then inr ErrExceedsParent else inr ErrParentNotLive
                | inr _ => inr ErrParentNotLive
                end
       end.

(** The run's older grants are closed, and every grant narrowed from them. *)
Definition supersede (g : RunGrant) (stamp : Z) (m : Runs_) : Runs_ :=
  let e := Closing stamp "superseded" in
  endDescendants MaxRunDepth e (rg_Tenant g) (ids_where (fun x => same_run x g && negb (ended x)) m)
    (end_where e (fun x => same_run x g) m).

Definition minted (g : RunGrant) (gen stamp expires : Z) : RunGrant :=
  mkRun (rg_ID g) (rg_Tenant g) (rg_Principal g) (rg_MintedBy g) (rg_Stack g) (rg_Run g) gen
    (rg_WorkspaceID g) (rg_Workspace g) (rg_NodeClass g) (rg_FileKey g) (rg_Allow g) (rg_Sandboxes g) (rg_Budget g) 0
    (rg_Parent g) (rg_Depth g) (rg_Trace g) stamp expires None "" None.

(** The constraints on the table: its key, the generation of a run, the file key. *)
Definition clashes (g : RunGrant) (gen : Z) (m : Runs_) : bool :=
  bool_decide (is_Some (m !! rg_ID g)) ||
  existsb (fun x => (same_run x g && (rg_Generation x =? gen)%Z) || (rg_FileKey x =s rg_FileKey g)) (map_to_list m).*2.

(** [insertRunGrant]: one transaction.  [g] comes with its id and file key. *)
Definition insertRunGrant (db : AuthDB) (g : RunGrant) (generation now expires : Z) : (RunGrant + AErr) * AuthDB :=
  let stamp := (now / Second)%Z in
  match next_generation (db_heads db !! run_key g) generation with
  | None => (inr ErrStaleGeneration, db)
  | Some gen =>
      match take_budget db g now with
      | inr e => (inr e, db)
      | inl m =>
          let m := supersede g stamp m in
          let row := minted g gen stamp (expires / Second)%Z in
          if clashes g gen m then (inr ErrStaleGeneration, db)
          else (inl row, set_heads (set_runs db (<[rg_ID g := row]> m)) (<[run_key g := (gen, rg_ID g)]> (db_heads db)))
      end
  end.

(** ** Operations as programs *)

(** What is asked outside the identity store: the tenant directory, the secret
    store, the connections service, a run of the tenant's rules, and the memory of
    refusals.  Of a secret's metadata, the fields the gateway reads. *)
Record SecretMetadata := mkMeta { sm_ID : string; sm_Stack : option string; sm_VersionNo : Z; sm_Pull : string }.
Record ReleaseInput := mkRelease { ri_Tenant : string; ri_Stack : string; ri_Provider : string; ri_Principal : string; ri_Sandbox : string }.

Inductive Ask : Type -> Type :=
  | ATenantSlug (tenant : string) : Ask (option string + AErr)        (** [None]: no live tenant *)
  | ATenantID (slug : string) : Ask (string + AErr)
  | AResolve (tenant stack name : string) : Ask (option SecretMetadata + AErr)
  | ADecrypt (meta : SecretMetadata) : Ask (string + AErr)
  | AReleaseCheck (i : ReleaseInput) : Ask (option string)            (** the code of its error *)
  | ARelease (i : ReleaseInput) : Ask (string + string)
  | ARunStack (payload : string) : Ask ((string + AErr) * bool)       (** the final envelope, and whether the deadline passed *)
  | ASeen (key : string) (now : Z) : Ask (option string)
  | ARemember (key reason : string) (now : Z) : Ask unit.

Inductive Call : Type -> Type :=
  | CNow : Call Z                                             (** the clock *)
  | CRandom : Call string                                     (** a fresh id or key *)
  | COwner (tenant : string) (p : Principal) : Call (option string + AErr)
  | CUser (tenant uid : string) : Call (User + AErr)
  | CHeld (tenant : string) (p : Principal) : Call (list (string * list string) + AErr)
  | CLiveGrant (tenant : string) (p : Principal) (res : Resource) : Call ((string * GrantRow) + AErr)
  | CCountGrants (tenant : string) (p : Principal) : Call (nat + AErr)
  | CInsertGrant (now : Z) (id : string) (g : GrantRow) (replace : string) : Call (unit + AErr)
  | CGrant (tenant id : string) : Call ((string * GrantRow) + AErr)
  | CGrants (where_ : GrantRow -> bool) : Call (list (string * GrantRow) + AErr)
  | CGrantPrincipal (tenant id : string) : Call (string + AErr)
  | CRevokeGrant (now : Z) (tenant id : string) : Call (bool + AErr)
  | CRun (tenant id : string) : Call (RunGrant + AErr)
  | CInsertRun (g : RunGrant) (generation now expires : Z) : Call (RunGrant + AErr)
  | CEndRun (e : Ending) (tenant id : string) : Call (bool + AErr)
  | CCharge (tenant id : string) (n stamp : Z) (enforce : bool) : Call (bool + AErr)
  | CAsk {R : Type} (q : Ask R) : Call R.

(** What the database does; [ask], [now] and [rnd] are the answers of what is
    outside, of the clock and of the generator. *)
Definition exec (ask : forall R, Ask R -> R) (now : Z) (rnd : string) {R} (c : Call R) (db : AuthDB) : R * AuthDB :=
  match c in Call R return R * AuthDB with
  | CNow => (now, db)
  | CRandom => (rnd, db)
  | CAsk q => (ask _ q, db)
  | COwner tenant p => (ownerOf db tenant p, db)
  | CUser tenant uid => (match db_users db !! (tenant, uid) with Some u => inl u | None => inr ErrNotFound end, db)
  | CHeld tenant p => (heldBy db tenant p, db)
  | CLiveGrant tenant p res => (liveGrant db tenant p res, db)
  | CCountGrants tenant p => (inl (size (filter (fun x => live_grant tenant (p_ID p) x.2) (db_grants db))), db)
  | CInsertGrant t id g replace => insertGrant db t id g replace
  | CGrant tenant id => (scanGrant (db_grants db !! id ≫= fun g => if gr_Tenant g =s tenant then Some (id, g) else None), db)
  | CGrants where_ => (grants db where_, db)
  | CGrantPrincipal tenant id =>
      (match db_grants db !! id with Some g => if gr_Tenant g =s tenant then inl (gr_Principal g) else inr ErrNotFound | None => inr ErrNotFound end, db)
  | CRevokeGrant t tenant id =>
      (inl (match db_grants db !! id with Some g => bool_decide (gr_Tenant g = tenant /\ gr_RevokedAt g = None) | None => false end),
       set_grants db (alter (revoke_grant t tenant) id (db_grants db)))
  | CRun tenant id => (scanRunGrant (run_of db tenant id), db)
  | CInsertRun g generation now expires => insertRunGrant db g generation now expires
  | CEndRun e tenant id => let '(hit, db) := endRun db e tenant id in (inl hit, db)
  | CCharge tenant id n stamp enforce => let '(hit, db) := charge db tenant id n stamp enforce in (inl hit, db)
  end.

(** The answer of a call that failed; what is outside may answer anything. *)
Definition failing {R} (c : Call R) (r : R) : Prop :=
  match c in Call R return R -> Prop with
  | CNow | CRandom => fun _ => False
  | CAsk _ => fun _ => True
  | COwner _ _ | CUser _ _ | CHeld _ _ | CLiveGrant _ _ _ | CCountGrants _ _ | CInsertGrant _ _ _ _ | CGrant _ _ | CGrants _ | CGrantPrincipal _ _
  | CRevokeGrant _ _ _ | CRun _ _ | CInsertRun _ _ _ _ | CEndRun _ _ _ | CCharge _ _ _ _ _ => fun r => r = inr ErrDB
  end r.

Definition answers {R} (c : Call R) (db : AuthDB) (r : R) (db' : AuthDB) : Prop :=
  (exists ask now rnd, exec ask now rnd c db = (r, db')) \/ (failing c r /\ db' = db).

Inductive Tx (A : Type) :=
  | TRet (x : A)
  | TDo {R : Type} (c : Call R) (k : R -> Tx A).
Arguments TRet {A} x.
Arguments TDo {A R} c k.

Fixpoint tbind {A B} (p : Tx A) (f : A -> Tx B) : Tx B :=
  match p with TRet x => f x | TDo c k => TDo c (fun r => tbind (k r) f) end.
(** Go's [if err != nil { return err }]. *)
Definition try {A B} (p : Tx (A + AErr)) (f : A -> Tx (B + AErr)) : Tx (B + AErr) :=
  tbind p (fun r => match r with inr e => TRet (inr e) | inl x => f x end).
Definition call {R} (c : Call R) : Tx R := TDo c TRet.
Definition guard {A} (ok : bool) (e : AErr) (k : Tx (A + AErr)) : Tx (A + AErr) := if ok then k else TRet (inr e).

Declare Scope tx_scope.
Notation "'let!' x := p 'in' q" := (try p (fun x => q)) (at level 200, x binder, p at level 100, q at level 200) : tx_scope.
Notation "'do!' x := p 'in' q" := (tbind p (fun x => q)) (at level 200, x binder, p at level 100, q at level 200) : tx_scope.
#[local] Open Scope tx_scope.

Definition requireTenant (tenant : string) : bool := negb (TrimSpace tenant =s "").

Definition authorize (tenant stack : string) (p : Principal) : Tx (string + AErr) :=
  let base := BaseStack stack in
  if base =s "" then TRet (inr ErrNoStack)
  else let! owner := call (COwner tenant p) in
       match owner with
       | Some o => if negb (o =s base) then TRet (inr (ErrNotOwner o)) else TRet (inl base)
       | None => TRet (inl base)
       end.

Definition RequireOwner (tenant stack : string) (p : Principal) : Tx (string + AErr) :=
  if negb (requireTenant tenant) then TRet (inr ErrInvalid)
  else
    let base := BaseStack stack in
    if base =s "" then TRet (inr ErrNoStack)
    else let! owner := call (COwner tenant p) in
         match owner with
         | None => TRet (inr ErrNotFound)
         | Some o => if negb (o =s base) then TRet (inr (ErrNotOwner o)) else TRet (inl base)
         end.

Definition requireActive (tenant : string) (p : Principal) : Tx (unit + AErr) :=
  match UserID p with
  | None => TRet (inl tt)
  | Some uid => let! u := call (CUser tenant uid) in if u_Active u then TRet (inl tt) else TRet (inr ErrDisabled)
  end.

(** ** Standing grants *)

(** [NewGrant.normalize]: the resource, and its verbs sorted. *)
Fixpoint clean_verbs (known : list string) (seen : list string) (verbs : list string) : option (list string) :=
  match verbs with
  | [] => Some []
  | raw :: verbs =>
      let v := TrimSpace raw in
      if negb (bool_decide (v ∈ known)) then None
      else match clean_verbs known (v :: seen) verbs with
           | None => None
           | Some l => Some (if bool_decide (v ∈ seen) then l else v :: l)
           end
  end.
Definition normalizeGrant (kind name : string) (verbs : list string) : option (Resource * list string) :=
  match NewResource kind name, resourceRules kind with
  | Some res, Some (_, known) =>
      match verbs with
      | [] => Some (res, known)
      | _ => match clean_verbs known [] verbs with Some l => Some (res, merge_sort string_le l) | None => None end
      end
  | _, _ => None
  end.

(** [PutGrant]: at most two passes; whether a row was written. *)
Fixpoint put_pass (attempts : nat) (tenant base : string) (p : Principal) (res : Resource) (verbs : list string) : Tx ((string * bool) + AErr) :=
  do! existing := call (CLiveGrant tenant p res) in
  let insert (replace : string) : Tx ((string * bool) + AErr) :=
    do! now := call CNow in
    do! rnd := call CRandom in
    let id := "grt_" ++ rnd in
    let t := (now / Second)%Z in
    do! r := call (CInsertGrant t id (mkGrant tenant (p_ID p) (r_Kind res) (r_Name res) verbs base t None) replace) in
    match r, attempts with
    | inl _, _ => TRet (inl (id, true))
    | inr ErrUnique, S attempts => put_pass attempts tenant base p res verbs
    | inr e, _ => TRet (inr e)
    end in
  match existing with
  | inl (id, g) => if bool_decide (merge_sort string_le (gr_Verbs g) = verbs) then TRet (inl (id, false)) else insert id
  | inr ErrNotFound =>
      let! n := call (CCountGrants tenant p) in
      if (MaxGrants <=? n)%nat then TRet (inr ErrTooManyGrants) else insert ""
  | inr e => TRet (inr e)
  end.

Definition PutGrant (tenant stack : string) (p : Principal) (kind name : string) (verbs : list string) : Tx ((string * bool) + AErr) :=
  if negb (requireTenant tenant) then TRet (inr ErrInvalid)
  else match normalizeGrant kind name verbs with
       | None => TRet (inr ErrInvalid)
       | Some (res, verbs) =>
           let! base := RequireOwner tenant stack p in
           let! _ := requireActive tenant p in
           put_pass 1 tenant base p res verbs
       end.

Definition tenant_grant (tenant principal : string) (g : GrantRow) : bool := (gr_Tenant g =s tenant) && (gr_Principal g =s principal).
Definition on_resource (kind name : string) (g : GrantRow) : bool := (gr_Kind g =s kind) && (gr_Name g =s name).
Definition unrevoked (g : GrantRow) : bool := bool_decide (gr_RevokedAt g = None).

Definition ListGrants (tenant stack : string) (p : Principal) (kind : string) (includeRevoked : bool) : Tx (list (string * GrantRow) + AErr) :=
  if negb (requireTenant tenant) then TRet (inr ErrInvalid)
  else
    let! _ := authorize tenant stack p in
    if negb (kind =s "") && match resourceRules kind with Some _ => false | None => true end then TRet (inr ErrInvalid)
    else call (CGrants (fun g => tenant_grant tenant (p_ID p) g && ((kind =s "") || (gr_Kind g =s kind)) && (includeRevoked || unrevoked g))).

Definition GrantsOn (tenant kind name : string) : Tx (list (string * GrantRow) + AErr) :=
  if negb (requireTenant tenant) then TRet (inr ErrInvalid)
  else match NewResource kind name with
       | None => TRet (inr ErrInvalid)
       | Some res => call (CGrants (fun g => (gr_Tenant g =s tenant) && on_resource (r_Kind res) (r_Name res) g && unrevoked g))
       end.

(** Whether this call revoked it. *)
Definition revokeGrant (found : string * GrantRow) : Tx (bool + AErr) :=
  if bool_decide (is_Some (gr_RevokedAt found.2)) then TRet (inl false)
  else do! now := call CNow in call (CRevokeGrant (now / Second)%Z (gr_Tenant found.2) found.1).

Definition RevokeGrant (tenant stack id : string) : Tx (bool + AErr) :=
  if negb (requireTenant tenant) then TRet (inr ErrInvalid)
  else
    let! found := call (CGrant tenant id) in
    let! _ := authorize tenant stack (principal_of (gr_Principal found.2)) in
    revokeGrant found.

Definition RevokeGrantOf (tenant stack : string) (p : Principal) (id : string) : Tx (bool + AErr) :=
  if negb (requireTenant tenant) then TRet (inr ErrInvalid)
  else
    let! _ := authorize tenant stack p in
    let! owner := call (CGrantPrincipal tenant id) in
    if negb (owner =s p_ID p) then TRet (inr ErrNotFound) else RevokeGrant tenant stack id.

Definition RevokeGrantOn (tenant stack : string) (p : Principal) (kind name : string) : Tx (bool + AErr) :=
  if negb (requireTenant tenant) then TRet (inr ErrInvalid)
  else match NewResource kind name with
       | None => TRet (inr ErrInvalid)
       | Some res =>
           let! _ := authorize tenant stack p in
           do! live := call (CLiveGrant tenant p res) in
           match live with
           | inl g => revokeGrant g
           | inr ErrNotFound =>
               let! past := call (CGrants (fun g => tenant_grant tenant (p_ID p) g && on_resource (r_Kind res) (r_Name res) g)) in
               match past with [] => TRet (inr ErrNotFound) | g :: _ => revokeGrant g end
           | inr e => TRet (inr e)
           end
       end.

(** [Granted]: asked on every request. *)
Definition Granted (tenant : string) (p : Principal) (res : Resource) (verb : string) : Tx (bool + AErr) :=
  if negb (requireTenant tenant) then TRet (inr ErrInvalid)
  else if p_ID p =s "" then TRet (inl false)
  else
    do! r := call (CLiveGrant tenant p res) in
    match r with
    | inr ErrNotFound => TRet (inl false)
    | inr e => TRet (inr e)
    | inl (_, g) =>
        if negb (bool_decide (verb ∈ gr_Verbs g)) then TRet (inl false)
        else do! a := requireActive tenant p in
             match a with
             | inl _ => TRet (inl true)
             | inr ErrDisabled | inr ErrNotFound => TRet (inl false)
             | inr e => TRet (inr e)
             end
    end.

(** ** Run grants *)

Definition NodeUnreviewed : string := "unreviewed".
Definition NodeReviewed : string := "reviewed".

Record NewRunGrant := mkNew {
  n_Run : string; n_Generation : Z; n_Stack : string; n_Workspace : string; n_WorkspaceID : string; n_NodeClass : string;
  n_Allow : list string; n_Sandboxes : gmap string (gmap string string); n_Budget : Z; n_TTL : Z; n_Parent : string; n_Trace : string }.

Definition runNameRE : string -> bool :=
  re_word (fun c => alnum c || (c =c "_")) (fun c => alnum c || one_of "._@+:/-" c) 127.

(** The resources the sandboxes name, in the order of their names and entries. *)
Definition entry_resource (key value : string) : option (option Resource) :=
  let '(kind, _, _) := ParseEntry key in
  match kind with
  | EntryDotenv => Some None
  | _ => match ParseRef value with
         | None => None
         | Some (kind, name) => match NewResource kind name with Some r => Some (Some r) | None => None end
         end
  end.
Definition sandbox_resources (m : gmap string (gmap string string)) : option (list Resource) :=
  (omap id) <$> mapM (fun x => entry_resource x.1 x.2)
    (concat (map (fun name => let env := default ∅ (m !! name) in map (fun v => (v, default "" (env !! v))) (sorted_keys env)) (sorted_keys m))).

Definition res_le (x y : Resource) : Prop := string_le (Resource_String x) (Resource_String y).
#[export] Instance res_le_dec : RelDecision res_le.
Proof. intros x y. unfold res_le. apply _. Defined.

Definition parseAllow (names : list string) (m : gmap string (gmap string string)) : option (list Resource) :=
  match mapM ParseResource names, sandbox_resources m with
  | Some l1, Some l2 =>
      let out := remove_dups (l1 ++ l2)%list in
      if (length out =? 0)%nat || (MaxRunAllow <? length out)%nat then None else Some (merge_sort res_le out)
  | _, _ => None
  end.

Definition trim_slash_ends (s : string) : string := srev (trim_slashes (srev (trim_slashes s))).

Definition normalizeRun (i : NewRunGrant) : (NewRunGrant * list Resource) + AErr :=
  let run := TrimSpace (n_Run i) in
  let stack := trim_slash_ends (TrimSpace (n_Stack i)) in
  let class := if n_NodeClass i =s "" then NodeUnreviewed else n_NodeClass i in
  if negb (runNameRE run) then inr ErrInvalid
  else if (n_Generation i <? 0)%Z then inr ErrInvalid
  else if stack =s "" then inr ErrNoStack
  else if negb ((class =s NodeUnreviewed) || (class =s NodeReviewed)) then inr ErrInvalid
  else if negb (Bool.eqb (n_Workspace i =s "") (n_WorkspaceID i =s "")) then inr ErrInvalid
  else if (n_Budget i <? 1)%Z || (MaxRunBudget <? n_Budget i)%Z then inr ErrInvalid
  else if (n_TTL i <? Second)%Z || (MaxRunTTL <? n_TTL i)%Z then inr ErrInvalid
  else if negb (checkSandboxes (n_Sandboxes i)) then inr ErrInvalid
  else match parseAllow (n_Allow i) (n_Sandboxes i) with
       | None => inr ErrInvalid
       | Some allow =>
           inl (mkNew run (n_Generation i) stack (n_Workspace i) (n_WorkspaceID i) class (n_Allow i) (n_Sandboxes i)
                  (n_Budget i) (n_TTL i) (n_Parent i) (stake 128 (n_Trace i)), allow)
       end.

(** Whether the standing grants cover a resource; [held] is keyed by names, so the
    last row of a name counts. *)
Definition holds (held : list (string * list string)) (res : Resource) : bool :=
  match last (filter (fun x => x.1 = Resource_String res) held) with
  | Some (_, verbs) => bool_decide (Verb res ∈ verbs)
  | None => false
  end.

Definition ReadRunGrant (tenant id : string) : Tx (RunGrant + AErr) :=
  if negb (requireTenant tenant) then TRet (inr ErrInvalid) else call (CRun tenant id).

(** The checks of a parent, and what it caps: the expiry and the depth. *)
Definition check_parent (base : string) (i : NewRunGrant) (allow : list Resource) (now expires : Z)
    (parent : RunGrant + AErr) : (Z * Z) + AErr :=
  match parent with
  | inr ErrNotFound => inr ErrParentNotLive
  | inr e => inr e
  | inl parent =>
      if negb (rg_MintedBy parent =s base) then inr (ErrNotOwner (rg_MintedBy parent))
      else if negb (Live parent now) then inr ErrParentNotLive
      else if (Z.of_nat MaxRunDepth <? rg_Depth parent + 1)%Z then inr ErrDepth
      else if rg_Run parent =s n_Run i then inr ErrInvalid
      else if existsb (fun res => negb (Allows parent res)) allow then inr ErrExceedsParent
      else inl (if (rg_Expires parent * Second <? expires)%Z then rg_Expires parent * Second else expires, rg_Depth parent + 1)%Z
  end.

Definition MintRunGrant (tenant stack : string) (p : Principal) (i : NewRunGrant) : Tx (RunGrant + AErr) :=
  if negb (requireTenant tenant) then TRet (inr ErrInvalid)
  else match normalizeRun i with
       | inr e => TRet (inr e)
       | inl (i, allow) =>
           let! base := RequireOwner tenant stack p in
           let! _ := requireActive tenant p in
           let! held := call (CHeld tenant p) in
           match List.find (fun res => negb (holds held res)) allow with
           | Some res => TRet (inr (ErrExceedsStanding res))
           | None =>
               do! now := call CNow in
               let expires := (now + n_TTL i)%Z in
               let! capped :=
                 (if n_Parent i =s "" then TRet (inl (expires, 0%Z))
                  else do! parent := ReadRunGrant tenant (n_Parent i) in TRet (check_parent base i allow now expires parent)) in
               do! rid := call CRandom in
               do! file_key := call CRandom in
               call (CInsertRun
                 (mkRun ("rgr_" ++ rid) tenant (p_ID p) base (n_Stack i) (n_Run i) 0 (n_WorkspaceID i) (n_Workspace i) (n_NodeClass i)
                    file_key (map Resource_String allow) (n_Sandboxes i) (n_Budget i) 0 (n_Parent i) capped.2 (n_Trace i) 0 0 None "" None)
                 (n_Generation i) now capped.1)
           end
       end.

Definition GetRunGrant (tenant stack id : string) : Tx (RunGrant + AErr) :=
  let! g := ReadRunGrant tenant id in
  let base := BaseStack stack in
  if base =s "" then TRet (inr ErrNoStack)
  else if negb (rg_MintedBy g =s base) then TRet (inr (ErrNotOwner (rg_MintedBy g)))
  else TRet (inl g).

Definition endRunGrant (tenant stack id : string) (closing : bool) (reason : string) : Tx (bool + AErr) :=
  let! g := GetRunGrant tenant stack id in
  if bool_decide (is_Some (rg_Revoked g)) || (closing && bool_decide (is_Some (rg_Closed g))) then TRet (inl false)
  else do! now := call CNow in
       call (CEndRun (if closing then Closing (now / Second) reason else Revoking (now / Second))%Z tenant id).

Definition RevokeRunGrant (tenant stack id : string) : Tx (bool + AErr) := endRunGrant tenant stack id false "".

(** [CloseRunGrant] after [cleanText] has trimmed the note and found no control
    character in it. *)
Definition CloseRunGrant (tenant stack id reason : string) : Tx (bool + AErr) :=
  endRunGrant tenant stack id true (if reason =s "" then "done" else reason).

Definition ChargeRunGrant (tenant id : string) (n : Z) (enforce : bool) : Tx (unit + AErr) :=
  if negb (requireTenant tenant) then TRet (inr ErrInvalid)
  else if (n <? 1)%Z then TRet (inr ErrInvalid)
  else
    do! now := call CNow in
    let stamp := (now / Second)%Z in
    let! charged := call (CCharge tenant id n stamp enforce) in
    if charged then TRet (inl tt)
    else let! g := ReadRunGrant tenant id in
         if negb (Live g (stamp * Second)) then TRet (inr ErrRunNotLive) else TRet (inr ErrRunBudget).
