(* ===== verification/Tokens.v ===== *)
(** * Signed tokens (chassis/rungrant, chassis/signedurl)

    A token is a tag, its claims and a MAC over both:
    [<tag>.<base64url claims>.<base64url MAC>].  The MAC (HMAC-SHA256 under the
    signer's key) and the JSON of a claim set are parameters; base64 is modelled.

    The MAC is checked before the claims are read, so what a token says is what
    a signer of the same tag signed. *)

From Stdlib Require Import Ascii String ZArith Lia Bool.
From stdpp Require Import base tactics list strings.
From S2P Require Import Prelude GoStrings GoStrconv GoJson.

#[local] Open Scope string_scope.

(** ** base64.RawURLEncoding *)

Definition alphabet : string := "ABCDEFGHIJKLMNOPQRSTUVWXYZabcdefghijklmnopqrstuvwxyz0123456789-_".
Definition sextet (n : Z) : ascii := default "A"%char (String.get (Z.to_nat n) alphabet).
Fixpoint sextet_from (i : Z) (s : string) (c : ascii) : option Z :=
  match s with
  | EmptyString => None
  | String d s => if c =c d then Some i else sextet_from (i + 1) s c
  end.
Definition unsextet (c : ascii) : option Z := sextet_from 0 alphabet c.

Definition zbyte (c : ascii) : Z := Z.of_nat (bval c).
Definition byteZ (n : Z) : ascii := b (Z.to_nat n).

Fixpoint EncodeToString (s : string) : string :=
  (match s with
   | EmptyString => ""
   | String x EmptyString =>
       String (sextet (zbyte x / 4)) (String (sextet (zbyte x mod 4 * 16)) "")
   | String x (String y EmptyString) =>
       String (sextet (zbyte x / 4)) (String (sextet (zbyte x mod 4 * 16 + zbyte y / 16)) (String (sextet (zbyte y mod 16 * 4)) ""))
   | String x (String y (String z s)) =>
       String (sextet (zbyte x / 4)) (String (sextet (zbyte x mod 4 * 16 + zbyte y / 16))
         (String (sextet (zbyte y mod 16 * 4 + zbyte z / 64)) (String (sextet (zbyte z mod 64)) (EncodeToString s))))
   end)%Z.

(** [decodeQuantum], over and over: line ends are skipped, the bits left over in
    the last character are ignored, one character alone is an error. *)
Fixpoint quanta (l : list Z) : option string :=
  (match l with
   | [] => Some ""
   | [_] => None
   | [p; q] => Some (String (byteZ (p * 4 + q / 16)) "")
   | [p; q; r] => Some (String (byteZ (p * 4 + q / 16)) (String (byteZ (q mod 16 * 16 + r / 4)) ""))
   | p :: q :: r :: t :: l =>
       match quanta l with
       | Some s => Some (String (byteZ (p * 4 + q / 16)) (String (byteZ (q mod 16 * 16 + r / 4)) (String (byteZ (r mod 4 * 64 + t)) s)))
       | None => None
       end
   end)%Z.
Definition line_end (c : ascii) : bool := (c =c b 10) || (c =c b 13).
Fixpoint sextets (s : string) : option (list Z) :=
  match s with
  | EmptyString => Some []
  | String c s =>
      if line_end c then sextets s
      else match unsextet c, sextets s with Some n, Some l => Some (n :: l) | _, _ => None end
  end.
Definition DecodeString (s : string) : option string := match sextets s with Some l => quanta l | None => None end.

Definition word (c : ascii) : bool := match unsextet c with Some _ => negb (c =c ".") && negb (line_end c) | None => false end.

Lemma sextet_all n : (0 <= n < 64)%Z -> unsextet (sextet n) = Some n /\ word (sextet n) = true.
Proof.
  intros H. assert (Hall : forallb (fun k => bool_decide (unsextet (sextet (Z.of_nat k)) = Some (Z.of_nat k)) && word (sextet (Z.of_nat k))) (seq 0 64) = true)
    by (vm_compute; reflexivity).
  rewrite forallb_forall in Hall. specialize (Hall (Z.to_nat n)). rewrite Z2Nat.id in Hall by lia.
  assert (Hin : In (Z.to_nat n) (seq 0 64)) by (apply in_seq; lia). apply Hall, andb_true_iff in Hin as [H1 H2]. by apply bool_decide_eq_true in H1.
Qed.

Lemma zbyte_range c : (0 <= zbyte c < 256)%Z.
Proof. unfold zbyte, bval. pose proof (nat_ascii_bounded c). lia. Qed.
Lemma byteZ_zbyte c : byteZ (zbyte c) = c.
Proof. unfold byteZ, zbyte, b, bval. rewrite Nat2Z.id. apply ascii_nat_embedding. Qed.

Lemma cons_bytes c n s t : n = zbyte c -> s = t -> String (byteZ n) s = String c t.
Proof. intros -> ->. by rewrite byteZ_zbyte. Qed.

(** Strings three bytes at a time. *)
Lemma string_triples (P : string -> Prop) :
  P "" -> (forall x, P (String x "")) -> (forall x y, P (String x (String y ""))) ->
  (forall x y z s, P s -> P (String x (String y (String z s)))) -> forall s, P s.
Proof.
  intros H0 H1 H2 H3 s. assert (H : P s /\ (forall x, P (String x s)) /\ (forall x y, P (String x (String y s)))); [|tauto].
  induction s as [|c s (IH0 & IH1 & IH2)]; [auto|]. auto.
Qed.

Lemma sextets_cons n s : (0 <= n < 64)%Z -> sextets (String (sextet n) s) = match sextets s with Some l => Some (n :: l) | None => None end.
Proof.
  intros H. destruct (sextet_all n H) as [Hu Hw]. cbn [sextets]. unfold word in Hw. rewrite Hu in Hw |- *. apply andb_true_iff in Hw as [_ Hl].
  apply negb_true_iff in Hl. by rewrite Hl.
Qed.

Ltac byte_ranges := repeat match goal with c : ascii |- _ => lazymatch goal with H : (0 <= zbyte c < 256)%Z |- _ => fail | _ => pose proof (zbyte_range c) end end.
Ltac sextet_bounds := byte_ranges; Z.to_euclidean_division_equations; lia.

Lemma DecodeString_EncodeToString s : DecodeString (EncodeToString s) = Some s.
Proof.
  unfold DecodeString. induction s as [|x|x y|x y z s IH] using string_triples; [done|..]; cbn [EncodeToString].
  all: rewrite !sextets_cons by sextet_bounds.
  all: cbn [sextets quanta].
  3: destruct (sextets (EncodeToString s)) as [l|]; [|done]; cbn [quanta]; rewrite IH.
  all: f_equal; repeat (apply cons_bytes; [sextet_bounds|]); done.
Qed.

Lemma sextet_word n : (0 <= n < 64)%Z -> word (sextet n) = true.
Proof. apply sextet_all. Qed.
Lemma EncodeToString_words s : sall word (EncodeToString s) = true.
Proof.
  induction s as [|x|x y|x y z s IH] using string_triples; [done|..]; cbn [EncodeToString sall].
  all: rewrite !sextet_word by sextet_bounds; done.
Qed.

Lemma word_no_dot s : sall word s = true -> sall (fun c => negb (c =c ".")) s = true.
Proof.
  induction s as [|c s IH]; [done|]. cbn [sall]. intros H. apply andb_true_iff in H as [Hc Hs]. rewrite (IH Hs), andb_true_r.
  unfold word in Hc. destruct (unsextet c); [|done]. by apply andb_true_iff in Hc as [? _].
Qed.

(** ** The form of a token *)

Definition maxTokenLen : nat := 1024.

Section Form.
Context (mac : string -> string) (tag : string).

Definition seal (raw : string) : string :=
  let signed := tag ++ "." ++ EncodeToString raw in signed ++ "." ++ EncodeToString (mac signed).
(** The claims' bytes, once the MAC over them is right. *)
Definition unseal (token : string) : option string :=
  if (slen token =? 0)%nat || (maxTokenLen <? slen token)%nat then None
  else match Split token "." with
       | [v; body; sum] =>
           if negb (v =s tag) then None
           else match DecodeString sum with
                | None => None
                | Some got => if got =s mac (v ++ "." ++ body) then DecodeString body else None
                end
       | _ => None
       end.

Hypothesis tag_word : sall (fun c => negb (c =c ".")) tag = true.

Lemma unseal_seal raw : (slen (seal raw) <= maxTokenLen)%nat -> unseal (seal raw) = Some raw.
Proof.
  intros Hl. unfold unseal. rewrite (proj2 (Nat.ltb_ge _ _) Hl).
  assert (Hs : Split (seal raw) "." = [tag; EncodeToString raw; EncodeToString (mac (tag ++ "." ++ EncodeToString raw))]).
  { unfold seal. rewrite <- !sapp_assoc. cbn [String.append]. rewrite Split_cons_sep by done. f_equal.
    rewrite Split_cons_sep by apply word_no_dot, EncodeToString_words. f_equal. apply Split_no_sep, word_no_dot, EncodeToString_words. }
  destruct (Nat.eqb_spec (slen (seal raw)) 0) as [E|_].
  - unfold seal in E. rewrite !slen_app in E. cbn [slen] in E. lia.
  - cbn [orb]. rewrite Hs, String.eqb_refl. cbn [negb]. by rewrite DecodeString_EncodeToString, String.eqb_refl, DecodeString_EncodeToString.
Qed.

Lemma unseal_inv token raw : unseal token = Some raw ->
  exists body sum, Split token "." = [tag; body; sum] /\ DecodeString sum = Some (mac (tag ++ "." ++ body)) /\ DecodeString body = Some raw.
Proof.
  unfold unseal. case_bool; [done|]. destruct (Split token ".") as [|v [|body [|sum [|]]]] eqn:Es; try done.
  destruct (String.eqb_spec v tag) as [->|]; [|done]. cbn [negb]. destruct (DecodeString sum) as [got|] eqn:Eg; [|done].
  destruct (String.eqb_spec got (mac (tag ++ "." ++ body))) as [->|]; [|done]. intros Hb. eauto.
Qed.
End Form.

(** ** Claims *)

(** [json.Marshal] and [json.Unmarshal] of a claim set. *)
Class ClaimsJSON (C : Type) := { json_Marshal : C -> string; json_Unmarshal : string -> option C }.
(** A claim set whose strings are UTF-8 is read back as written. *)
Class ClaimsLaws (C : Type) (utf8 : C -> bool) `{ClaimsJSON C} := {
  json_roundtrip c : utf8 c = true -> json_Unmarshal (json_Marshal c) = Some c }.

Inductive TokenErr := ErrInvalid | ErrExpired.
Record Signer := mkSigner { sg_mac : string -> string; sg_version : Z }.

(** *** Run grants *)

Module RG.
Record Claims := mkClaims {
  Grant : string; Tenant : string; Principal : string; Run : string; Generation : Z; Depth : Z; Trace : string; Expires : Z; KeyVersion : Z }.

Definition version : string := "rg1".
Definition complete (c : Claims) : bool :=
  negb (Grant c =s "") && negb (Tenant c =s "") && negb (Principal c =s "") && negb (Run c =s "") &&
  (0 <? Generation c)%Z && (0 <=? Depth c)%Z && (0 <? Expires c)%Z.
Definition stamp (s : Signer) (c : Claims) : Claims :=
  mkClaims (Grant c) (Tenant c) (Principal c) (Run c) (Generation c) (Depth c) (Trace c) (Expires c) (sg_version s).
Definition utf8 (c : Claims) : bool :=
  utf8_valid (Grant c) && utf8_valid (Tenant c) && utf8_valid (Principal c) && utf8_valid (Run c) && utf8_valid (Trace c).

Section Ops.
Context `{ClaimsJSON Claims}.

(** [None] is an error: incomplete claims, or a token too long. *)
Definition Sign (s : Signer) (c : Claims) : option string :=
  if negb (complete c) then None
  else let token := seal (sg_mac s) version (json_Marshal (stamp s c)) in
       if (maxTokenLen <? slen token)%nat then None else Some token.

Definition Verify (s : Signer) (token : string) (now : Z) : Claims + TokenErr :=
  match unseal (sg_mac s) version token with
  | None => inr ErrInvalid
  | Some raw =>
      match json_Unmarshal raw with
      | None => inr ErrInvalid
      | Some c =>
          if negb (KeyVersion c =? sg_version s)%Z || negb (complete c) then inr ErrInvalid
          else if (Expires c <=? now / Second)%Z then inr ErrExpired else inl c
      end
  end.
End Ops.
End RG.

(** *** Signed URLs *)

Module URL.
Record Claims := mkClaims {
  Tenant : string; Collection : string; Resource : string; SHA256 : string; Expires : Z; KeyVersion : Z; Name : string }.

Definition version : string := "v1".
Definition named (c : Claims) : bool :=
  negb (Tenant c =s "") && negb (Collection c =s "") && negb (Resource c =s "") && negb (SHA256 c =s "").
Definition stamp (s : Signer) (c : Claims) : Claims :=
  mkClaims (Tenant c) (Collection c) (Resource c) (SHA256 c) (Expires c) (sg_version s) (Name c).
Definition utf8 (c : Claims) : bool :=
  utf8_valid (Tenant c) && utf8_valid (Collection c) && utf8_valid (Resource c) && utf8_valid (SHA256 c) && utf8_valid (Name c).

Section Ops.
Context `{ClaimsJSON Claims}.

Definition Sign (s : Signer) (c : Claims) : option string :=
  if negb (named c) || (Expires c <=? 0)%Z then None
  else let token := seal (sg_mac s) version (json_Marshal (stamp s c)) in
       if (maxTokenLen <? slen token)%nat then None else Some token.

Definition Verify (s : Signer) (token : string) (now : Z) : Claims + TokenErr :=
  match unseal (sg_mac s) version token with
  | None => inr ErrInvalid
  | Some raw =>
      match json_Unmarshal raw with
      | None => inr ErrInvalid
      | Some c =>
          if negb (KeyVersion c =? sg_version s)%Z || negb (named c) then inr ErrInvalid
          else if (Expires c <=? now / Second)%Z then inr ErrExpired else inl c
      end
  end.
End Ops.
End URL.

(** ** What a token says *)

Section Tokens.
Context `{HG : ClaimsJSON RG.Claims} `{HU : ClaimsJSON URL.Claims}.
Context `{!ClaimsLaws RG.Claims RG.utf8} `{!ClaimsLaws URL.Claims URL.utf8}.

(** A signed token verifies as what was signed until its expiry: Verify of a
    token from Sign answers the claims with the signer's key generation before the
    second of the expiry and ErrExpired from then on. *)
Theorem token_roundtrip s c token now : RG.utf8 c = true -> RG.Sign s c = Some token ->
  RG.Verify s token now = if (now / Second <? RG.Expires c)%Z then inl (RG.stamp s c) else inr ErrExpired.
Proof.
  unfold RG.Sign. intros Hu. destruct (RG.complete c) eqn:Ec; [|done]. cbn [negb]. case_bool; [done|]. intros [= <-].
  unfold RG.Verify. rewrite unseal_seal by (done || by apply Nat.ltb_ge). rewrite json_roundtrip by exact Hu.
  rewrite Z.eqb_refl. change (RG.complete (RG.stamp s c)) with (RG.complete c). rewrite Ec. cbn [negb orb RG.stamp RG.Expires].
  rewrite Z.leb_antisym. by destruct (_ <? _)%Z.
Qed.

(** The text a token's MAC is over. *)
Definition signed_text (s : Signer) (x : RG.Claims + URL.Claims) : string :=
  match x with
  | inl c => RG.version ++ "." ++ EncodeToString (json_Marshal (RG.stamp s c))
  | inr c => URL.version ++ "." ++ EncodeToString (json_Marshal (URL.stamp s c))
  end.

(** No one without the key makes a MAC: one that verifies was made for a text
    that was signed. *)
Definition genuine (s : Signer) (issued : list (RG.Claims + URL.Claims)) (token : string) : Prop :=
  forall v body sum, Split token "." = [v; body; sum] -> DecodeString sum = Some (sg_mac s (v ++ "." ++ body)) ->
  exists x, x ∈ issued /\ v ++ "." ++ body = signed_text s x.

Lemma signed_body (v1 v2 b1 b2 : string) : sall (fun c => negb (c =c ".")) v1 = true -> sall (fun c => negb (c =c ".")) v2 = true ->
  v1 ++ "." ++ b1 = v2 ++ "." ++ b2 -> v1 = v2 /\ b1 = b2.
Proof.
  intros H1 H2 E. assert (Hv : v1 = v2).
  { apply (f_equal (fun t => Split t ".")) in E. cbn [String.append] in E. rewrite !Split_cons_sep in E by done. by injection E. }
  subst v2. split; [done|]. apply (f_equal (sdrop (slen v1))) in E. rewrite !sdrop_app in E. cbn in E. by injection E.
Qed.

(** C25: a token says what was signed, and nothing else does.  When run grants and
    signed URLs are signed under one key and no MAC is forged, the claims Verify
    answers for any text at all are those of a run grant that was signed, with the
    key generation stamped; a signed URL never passes as a run grant, or a run
    grant as a signed URL.  The claims signed hold valid UTF-8 (encoding/json
    would replace other bytes). *)
Theorem token_says_what_was_signed s issued token now :
  (forall c, inl c ∈ issued -> RG.utf8 c = true) -> (forall c, inr c ∈ issued -> URL.utf8 c = true) -> genuine s issued token ->
  (forall c, RG.Verify s token now = inl c -> exists c0, inl c0 ∈ issued /\ c = RG.stamp s c0 /\ (now / Second < RG.Expires c0)%Z) /\
  (forall c, URL.Verify s token now = inl c -> exists c0, inr c0 ∈ issued /\ c = URL.stamp s c0 /\ (now / Second < URL.Expires c0)%Z).
Proof.
  intros HuG HuU Hg. split; intros c Hv; [unfold RG.Verify in Hv|unfold URL.Verify in Hv];
    (destruct (unseal _ _ token) as [raw|] eqn:Eu; [|done]); (destruct (json_Unmarshal raw) as [c'|] eqn:Ej; [|done]); (case_bool; [done|]);
    (match type of Hv with context [(?e <=? _)%Z] => destruct (Z.leb_spec e (now / Second)) as [|Hlt]; [done|] end); injection Hv as ->;
    apply unseal_inv in Eu as (body & sum & Hs & Hd & Hb); destruct (Hg _ _ _ Hs Hd) as ([c0|c0] & Hin & Ex); cbn [signed_text] in Ex;
    (apply signed_body in Ex as [Ev Eb]; [|done|done]); try discriminate Ev; subst body;
    rewrite DecodeString_EncodeToString in Hb; injection Hb as <-; rewrite json_roundtrip in Ej by first [exact (HuG _ Hin)|exact (HuU _ Hin)]; injection Ej as <-; exists c0; eauto.
Qed.
End Tokens.
