(* ===== verification/Gateway.v ===== *)
(** * The grant gateway (chassis/server/grantgw, chassis/secrets/pull.go)

    Where a request made with a run grant is decided: a capability is called
    ([Invoke]) or a sandbox is opened ([OpenSandbox]), the chassis reads the row
    and makes a proposal, the tenant's [_grant] stack may overrule it, and what is
    allowed is charged before it is handed over.

    The gateway's programs make calls of the identity store and ask outside
    ([CAsk]); logging is left out.  gjson, JSON and time formatting are parameters
    ([GatewayLib]). *)

From Stdlib Require Import Ascii String ZArith Lia Bool.
From stdpp Require Import base tactics list strings gmap sorting.
From S2P Require Import Prelude GoStrings GoStrconv GoJson Ast Runtime JsonxPath Builder Sandbox RunGrants Tokens.

#[local] Open Scope string_scope.
#[local] Open Scope tx_scope.

Class GatewayLib := {
  gw_claims :: ClaimsJSON RG.Claims;
  gw_gjson :: Gjson;
  json_Valid : string -> bool;
  sjson_SetRaw : string -> string -> string -> option string;
  RFC3339 : Z -> string }.

Record Gateway := mkGateway { gw_signer : option Signer; gw_conns : bool; gw_socket : string; gw_bin : string }.

(** ** Reasons *)

Definition reasonToken : string := "token".
Definition reasonExpired : string := "expired".
Definition reasonNotLive : string := "not_live".
Definition reasonGeneration : string := "generation".
Definition reasonTenant : string := "tenant".
Definition reasonSandbox : string := "sandbox".
Definition reasonName : string := "name".
Definition reasonKind : string := "kind".
Definition reasonNotFound : string := "not_found".
Definition reasonEntry : string := "entry".
Definition reasonAllowlist : string := "allowlist".
Definition reasonStanding : string := "standing".
Definition reasonPull : string := "pull".
Definition reasonBudget : string := "budget".
Definition reasonRule : string := "rule".
Definition reasonHeld : string := "held".
Definition reasonVerdict : string := "verdict".
Definition reasonError : string := "error".
Definition reasonTimeout : string := "timeout".
Definition reasonAdmission : string := "admission".
Definition reasonRoute : string := "route".

(** ** The memory of refusals *)

Module Refusals.
Record refusals := mkRefusals { window : Z; max : nat; seen : gmap string (string * Z) }.

Definition get (r : refusals) (key : string) (now : Z) : option string * refusals :=
  if (window r <=? 0)%Z then (None, r)
  else match seen r !! key with
       | None => (None, r)
       | Some (reason, until) =>
           if (until <=? now)%Z then (None, mkRefusals (window r) (max r) (delete key (seen r))) else (Some reason, r)
       end.

Definition put (r : refusals) (key reason : string) (now : Z) : refusals :=
  if (window r <=? 0)%Z then r
  else
    let m := if (max r <=? size (seen r))%nat then
               let kept := filter (fun x => (now < x.2.2)%Z) (seen r) in
               if (max r <=? size kept)%nat then ∅ else kept
             else seen r in
    mkRefusals (window r) (max r) (<[key := (reason, (now + window r)%Z)]> m).

(** The memory stays within its bound, and a refusal is remembered for the window. *)
Lemma put_bounded r key reason now : (1 <= max r)%nat -> (size (seen r) <= max r)%nat -> (size (seen (put r key reason now)) <= max r)%nat.
Proof.
  intros Hm Hs. unfold put. case_bool; [done|]. cbn [seen].
  assert (Hi : forall m : gmap string (string * Z), (size m < max r)%nat -> (size (<[key := (reason, (now + window r)%Z)]> m) <= max r)%nat).
  { intros m Hlt. destruct (m !! key) eqn:E; [rewrite map_size_insert_Some by eauto; lia|rewrite map_size_insert_None by done; lia]. }
  apply Hi. repeat case_bool; repeat match goal with H : (_ <=? _)%nat = _ |- _ => first [apply Nat.leb_gt in H|apply Nat.leb_le in H] end; [rewrite map_size_empty|..]; lia.
Qed.
Lemma get_put r key reason now now' : (0 < window r)%Z -> (now' < now + window r)%Z -> (get (put r key reason now) key now').1 = Some reason.
Proof.
  intros Hw Hn. unfold put. rewrite (proj2 (Z.leb_gt _ _)) by lia. unfold get; cbn [window seen]. rewrite (proj2 (Z.leb_gt (window r) 0)) by lia.
  rewrite lookup_insert_eq. rewrite (proj2 (Z.leb_gt _ _)) by lia. done.
Qed.
End Refusals.

(** ** The proposal *)

Record checks := mkChecks { c_exists : bool; c_allowlist : bool; c_standing : bool; c_pull : bool; c_budget : bool }.
Record proposal := mkProp { p_allow : bool; p_reason : string }.

Definition propose (c : checks) : proposal :=
  if negb (c_exists c) then mkProp false reasonNotFound
  else if negb (c_allowlist c) then mkProp false reasonAllowlist
  else if negb (c_standing c) then mkProp false reasonStanding
  else if negb (c_pull c) then mkProp false reasonPull
  else if negb (c_budget c) then mkProp false reasonBudget
  else mkProp true "".

(** [PullPolicy.Admits] *)
Definition Admits (pull : string) (reviewedNode : bool) : bool :=
  if pull =s "any" then true else if pull =s "reviewed" then reviewedNode else false.

(** ** What the rules are shown *)

Record request := mkReq { rq_via : string; rq_sandbox : string; rq_variable : string; rq_file : string }.
Definition rq_key (rq : request) : string := if negb (rq_file rq =s "") then FilePrefix ++ rq_file rq else rq_variable rq.

Record facts := mkFacts {
  f_rid : string; f_tenant : string; f_grant : RunGrant; f_res : Resource; f_rq : request; f_meta : option SecretMetadata;
  f_conn : string; f_input : string; f_checks : checks; f_prop : proposal; f_at : Z }.

(** ** The decision *)

Record verdict := mkVerdict {
  v_unavailable : bool; v_admission : bool; v_admReason : string;
  v_set : bool; v_allow : bool; v_malformed : bool; v_hold : bool; v_reason : string }.
Definition no_verdict : verdict := mkVerdict false false "" false false false false "".
Record decision := mkDecision { d_allow : bool; d_reason : string; d_byRule : bool; d_note : string }.

Module Rules.
Definition decide (p : proposal) (v : verdict) (runErr timedOut : bool) : decision :=
  if timedOut then mkDecision false reasonTimeout false ""
  else if runErr then mkDecision false reasonError false ""
  else if v_unavailable v then mkDecision false reasonRoute false ""
  else if v_admission v then mkDecision false reasonAdmission false ""
  else if v_hold v then mkDecision false reasonHeld true (v_reason v)
  else if v_malformed v then mkDecision false reasonVerdict true (v_reason v)
  else if v_set v && v_allow v then mkDecision true "" true (v_reason v)
  else if v_set v then mkDecision false reasonRule true (v_reason v)
  else if p_allow p then mkDecision true "" false ""
  else mkDecision false (p_reason p) false "".
End Rules.

Section Lib.
Context {GL : GatewayLib}.

Definition pb_set (b : Builder) (path : string) (v : GoVal Empty_set) : Builder :=
  BSet (fun _ => "") (fun x => match x : Empty_set with end) sjson_SetRaw b path v.
Definition pb_str (b : Builder) (path s : string) : Builder := pb_set b path (GString s).
Definition pb_when (cond : bool) (b' b : Builder) : Builder := if cond then b' else b.

Definition requestPayload (f : facts) : string :=
  let g := f_grant f in
  let pb := pb_str (pb_str (pb_str (pb_str New "_txc.src" "grant") "_txc.rid" (f_rid f)) "_txc.grant.phase" "request") "_txc.grant.tenant" (f_tenant f) in
  let pb := pb_str (pb_str (pb_str pb "_txc.grant.kind" (r_Kind (f_res f))) "_txc.grant.name" (r_Name (f_res f))) "_txc.grant.verb" (Verb (f_res f)) in
  let pb := pb_str pb "_txc.grant.via" (rq_via (f_rq f)) in
  let pb := pb_when (negb (rq_sandbox (f_rq f) =s "")) (pb_str pb "_txc.grant.sandbox" (rq_sandbox (f_rq f))) pb in
  let pb := pb_when (negb (rq_variable (f_rq f) =s "")) (pb_str pb "_txc.grant.env" (rq_variable (f_rq f))) pb in
  let pb := pb_when (negb (rq_file (f_rq f) =s "")) (pb_str pb "_txc.grant.file" (rq_file (f_rq f))) pb in
  let pb := pb_when (negb (f_conn f =s ""))
    (pb_str (pb_str pb "_txc.grant.connection.provider" (r_Name (f_res f))) "_txc.grant.connection.status" (f_conn f)) pb in
  let pb := pb_when (negb (f_input f =s "") && json_Valid (f_input f)) (SetRaw sjson_SetRaw pb "_txc.grant.input" (f_input f)) pb in
  let pb := pb_str (pb_str pb "_txc.grant.principal.id" (rg_Principal g)) "_txc.grant.principal.kind" (p_Kind (principal_of (rg_Principal g))) in
  let pb := pb_str (pb_str pb "_txc.grant.grant" (rg_ID g)) "_txc.grant.run" (rg_Run g) in
  let pb := pb_set (pb_set pb "_txc.grant.generation" (GInt (rg_Generation g))) "_txc.grant.depth" (GInt (rg_Depth g)) in
  let pb := pb_str pb "_txc.grant.stack" (rg_Stack g) in
  let pb := pb_when (negb (rg_Workspace g =s "")) (pb_str pb "_txc.grant.workspace" (rg_Workspace g)) pb in
  let pb := pb_str pb "_txc.grant.node.class" (rg_NodeClass g) in
  let pb := match f_meta f with
            | Some m =>
                let pb := pb_str pb "_txc.grant.secret.pull" (if sm_Pull m =s "" then "none" else sm_Pull m) in
                let pb := pb_set pb "_txc.grant.secret.version" (GInt (sm_VersionNo m)) in
                pb_str pb "_txc.grant.secret.scope" (match sm_Stack m with Some _ => "stack" | None => "tenant" end)
            | None => pb
            end in
  let ch := f_checks f in
  let pb := pb_set (pb_set pb "_txc.grant.checks.exists" (GBool (c_exists ch))) "_txc.grant.checks.allowlist" (GBool (c_allowlist ch)) in
  let pb := pb_set (pb_set pb "_txc.grant.checks.standing" (GBool (c_standing ch))) "_txc.grant.checks.pull" (GBool (c_pull ch)) in
  let pb := pb_set pb "_txc.grant.checks.budget" (GBool (c_budget ch)) in
  let pb := pb_set (pb_set pb "_txc.grant.budget.calls" (GInt (rg_Budget g))) "_txc.grant.budget.spent" (GInt (rg_Spent g)) in
  let pb := pb_set pb "_txc.grant.proposed.allow" (GBool (p_allow (f_prop f))) in
  let pb := pb_when (negb (p_reason (f_prop f) =s "")) (pb_str pb "_txc.grant.proposed.reason" (p_reason (f_prop f))) pb in
  Builder.String_ (pb_str pb "_ts" (RFC3339 (f_at f))).

(** ** The verdict *)

Definition maxRuleReason : nat := 200.

(** What a rule wrote where a boolean belongs. *)
Inductive Flag := Absent | Yes | No | Malformed.
Definition flag (r : Result) : Flag :=
  if negb (Exists_ r) then Absent
  else match Value_ r with ANil => Absent | ABool true => Yes | ABool false => No | _ => Malformed end.

Definition parseVerdict (raw : string) : verdict :=
  let allow := flag (gjson_Get raw "_txc.grant.res.allow") in
  let hold := flag (gjson_Get raw "_txc.grant.res.hold") in
  let why := gjson_Get raw "_txc.grant.res.reason" in
  mkVerdict (Bool_ (gjson_Get raw "_txc.route.unavailable")) (Bool_ (gjson_Get raw "_txc.admission.denied")) (Runtime.String_ (gjson_Get raw "_txc.admission.reason"))
    (match allow with Yes | No => true | _ => false end) (match allow with Yes => true | _ => false end)
    (match allow, hold with Malformed, _ | _, Malformed => true | _, _ => false end) (match hold with Yes => true | _ => false end)
    (match Value_ why with AString s => stake maxRuleReason s | _ => "" end).

(** ** The programs *)

Record Open := mkOpen { op_Token : string; op_TenantID : string; op_GrantID : string; op_Sandbox : string; op_Via : string; op_Entry : string }.
Record Answer := mkAnswer { a_Allowed : bool; a_Env : gmap string string; a_Serve : list string; a_Unavailable : bool; a_Reason : string }.
Definition refused (reason : string) : Answer := mkAnswer false ∅ [] false reason.
Definition unavailable (reason : string) : Answer := mkAnswer false ∅ [] true reason.

Definition ask {R} (q : Ask R) : Tx R := call (CAsk q).

(** The row, when it is what the request says and is live. *)
Definition read_live (now : Z) (tenant id : string) (same : RunGrant -> bool) : Tx (RunGrant + Answer) :=
  do! r := ReadRunGrant tenant id in
  TRet (match r with
        | inr ErrNotFound => inr (refused reasonNotLive)
        | inr _ => inr (unavailable "identity store")
        | inl grant => if negb (same grant) then inr (refused reasonGeneration)
                       else if negb (Live grant now) then inr (refused reasonNotLive) else inl grant
        end).
(** The checks that are the chassis's alone: the grant, or why not. *)
Definition identify (g : Gateway) (o : Open) (now : Z) : Tx (RunGrant + Answer) :=
  if negb (op_Token o =s "") && negb (op_GrantID o =s "") then TRet (inr (refused reasonToken))
  else if negb (op_Token o =s "") then
    match gw_signer g with
    | None => TRet (inr (unavailable "no signing key on this node"))
    | Some signer =>
        match RG.Verify signer (op_Token o) now with
        | inr ErrExpired => TRet (inr (refused reasonExpired))
        | inr Tokens.ErrInvalid => TRet (inr (refused reasonToken))
        | inl claims =>
            read_live now (RG.Tenant claims) (RG.Grant claims) (fun grant =>
              (rg_Generation grant =? RG.Generation claims)%Z && (rg_Run grant =s RG.Run claims) && (rg_Principal grant =s RG.Principal claims))
        end
    end
  else if negb (op_GrantID o =s "") && (op_TenantID o =s "") then TRet (inr (refused reasonNotLive))
  else if negb (op_GrantID o =s "") then read_live now (op_TenantID o) (op_GrantID o) (fun _ => true)
  else TRet (inr (refused reasonToken)).

Definition refusalKey (id : string) (res : Resource) : string := id ++ String (b 0) (r_Kind res ++ String (b 0) (r_Name res)).

(** One run of the tenant's rules, and what it comes to. *)
Definition consult (f : facts) : Tx decision :=
  do! r := ask (ARunStack (requestPayload f)) in
  let '(final, timedOut) := r in
  TRet (match final with
        | inl raw => Rules.decide (f_prop f) (parseVerdict raw) false timedOut
        | inr _ => Rules.decide (f_prop f) no_verdict true timedOut
        end).

(** The charge of an allowed request; [None] is charged. *)
Definition charge_request (f : facts) (d : decision) (key : string) (now : Z) : Tx (option Answer) :=
  let grant := f_grant f in
  do! r := ChargeRunGrant (rg_Tenant grant) (rg_ID grant) 1 (negb (d_byRule d && negb (c_budget (f_checks f)))) in
  match r with
  | inl _ => TRet None
  | inr ErrRunBudget => do! _ := ask (ARemember key reasonBudget now) in TRet (Some (refused reasonBudget))
  | inr ErrRunNotLive | inr ErrNotFound => TRet (Some (refused reasonNotLive))
  | inr _ => TRet (Some (unavailable "identity store"))
  end.

Definition decideAndCharge (f : facts) (key : string) (now : Z) : Tx (option Answer) :=
  do! d := consult f in
  let d := if d_allow d && negb (c_exists (f_checks f)) then mkDecision false reasonNotFound (d_byRule d) (d_note d) else d in
  if negb (d_allow d) then do! _ := ask (ARemember key (d_reason d) now) in TRet (Some (refused (d_reason d)))
  else charge_request f d key now.

Definition principal (grant : RunGrant) : Principal := principal_of (rg_Principal grant).

Definition releaseConnection (g : Gateway) (grant : RunGrant) (tenant : string) (res : Resource) (rq : request) (now : Z) : Tx Answer :=
  let key := refusalKey (rg_ID grant) res in
  do! again := ask (ASeen key now) in
  match again with
  | Some reason => TRet (refused reason)
  | None =>
      if negb (gw_conns g) then TRet (unavailable "connections")
      else
        let i := mkRelease tenant (rg_Stack grant) (r_Name res) (rg_Principal grant) (rq_sandbox rq) in
        do! cerr := ask (AReleaseCheck i) in
        if match cerr with Some code => (code =s "unavailable") || (code =s "store") | None => false end then TRet (unavailable "connections")
        else
          do! standing := Granted (rg_Tenant grant) (principal grant) res (Verb res) in
          match standing with
          | inr _ => TRet (unavailable "identity store")
          | inl standing =>
              do! rid := call CRandom in
              let c := mkChecks (match cerr with None => true | Some _ => false end) (Allows grant res) standing true (1 <=? Remaining grant)%Z in
              let f := mkFacts rid tenant grant res rq None (default "ok" cerr) "" c (propose c) now in
              do! no := decideAndCharge f key now in
              match no with
              | Some ans => TRet ans
              | None =>
                  do! token := ask (ARelease i) in
                  TRet (match token with
                        | inr _ => unavailable "connections"
                        | inl token => mkAnswer true {[rq_key rq := token]} [] false ""
                        end)
              end
          end
  end.

Definition release (grant : RunGrant) (tenant : string) (res : Resource) (rq : request) (now : Z) : Tx Answer :=
  let key := refusalKey (rg_ID grant) res in
  do! again := ask (ASeen key now) in
  match again with
  | Some reason => TRet (refused reason)
  | None =>
      do! meta := ask (AResolve (rg_Tenant grant) (rg_Stack grant) (r_Name res)) in
      match meta with
      | inr _ => TRet (unavailable "secret store")
      | inl meta =>
          do! standing := Granted (rg_Tenant grant) (principal grant) res (Verb res) in
          match standing with
          | inr _ => TRet (unavailable "identity store")
          | inl standing =>
              do! rid := call CRandom in
              let c := mkChecks (match meta with Some _ => true | None => false end) (Allows grant res) standing
                         (match meta with Some m => Admits (sm_Pull m) (rg_NodeClass grant =s NodeReviewed) | None => false end)
                         (1 <=? Remaining grant)%Z in
              let f := mkFacts rid tenant grant res rq meta "" "" c (propose c) now in
              do! no := decideAndCharge f key now in
              match no, meta with
              | Some ans, _ => TRet ans
              | None, None => TRet (unavailable "secret store")   (** not reached: nothing is allowed that does not exist *)
              | None, Some m =>
                  do! value := ask (ADecrypt m) in
                  TRet (match value with
                        | inr _ => unavailable "secret store"
                        | inl value => mkAnswer true {[rq_key rq := value]} [] false ""
                        end)
              end
          end
      end
  end.

Definition EntryList : string := "list".
Definition servedBy (env : gmap string string) : list string :=
  filter (fun k => let '(kind, _, ok) := ParseEntry k in ok = true /\ kind <> EntryVar) (sorted_keys env).
Definition entriesFor (env : gmap string string) (entry : string) : option (list string) :=
  let vars := filter (fun k => (ParseEntry k).1.1 = EntryVar) (sorted_keys env) in
  if entry =s "" then Some vars
  else match env !! entry with
       | None => None
       | Some _ => match ParseEntry entry with
                   | (_, _, false) => None
                   | (EntryFile, _, _) => Some [entry]
                   | (EntryDotenv, _, _) => Some vars
                   | _ => None
                   end
       end.

(** How a value is asked for, and what its entry names. *)
Definition request_of (o : Open) (key : string) : request :=
  match ParseEntry key with
  | (EntryFile, path, _) => mkReq (op_Via o) (op_Sandbox o) "" path
  | _ => mkReq (op_Via o) (op_Sandbox o) key ""
  end.
Definition names_resource (value : string) : option Resource :=
  match ParseRef value with Some (kind, name) => NewResource kind name | None => None end.

(** One value of a sandbox. *)
Definition hand_over (g : Gateway) (o : Open) (grant : RunGrant) (tenant : string) (now : Z) (key value : string) : Tx (request * Answer) :=
  let rq := request_of o key in
  do! ans :=
    match names_resource value with
    | None => TRet (refused reasonName)
    | Some res =>
        if r_Kind res =s ResourceSecret then release grant tenant res rq now
        else if r_Kind res =s ResourceConnection then releaseConnection g grant tenant res rq now
        else TRet (refused reasonKind)
    end in
  TRet (rq, ans).

Fixpoint hand_all (g : Gateway) (o : Open) (grant : RunGrant) (tenant : string) (now : Z) (env : gmap string string)
    (keys : list string) (out : gmap string string) : Tx (gmap string string + Answer) :=
  match keys with
  | [] => TRet (inl out)
  | key :: keys =>
      do! r := hand_over g o grant tenant now key (default "" (env !! key)) in
      let '(rq, ans) := r in
      if negb (a_Allowed ans) then TRet (inr ans)
      else hand_all g o grant tenant now env keys (<[key := default "" (a_Env ans !! rq_key rq)]> out)
  end.

Definition OpenSandbox (g : Gateway) (o : Open) : Tx Answer :=
  do! now := call CNow in
  do! r := identify g o now in
  match r with
  | inr ans => TRet ans
  | inl grant =>
      match rg_Sandboxes grant !! op_Sandbox o with
      | None => TRet (refused reasonSandbox)
      | Some env =>
          do! t := ask (ATenantSlug (rg_Tenant grant)) in
          match t with
          | inr _ => TRet (unavailable "tenant directory")
          | inl None => TRet (refused reasonTenant)
          | inl (Some tenant) =>
              if op_Entry o =s EntryList then TRet (mkAnswer true ∅ (servedBy env) false "")
              else match entriesFor env (op_Entry o) with
                   | None => TRet (refused reasonEntry)
                   | Some keys =>
                       do! out := hand_all g o grant tenant now env keys ∅ in
                       TRet (match out with
                             | inr ans => ans
                             | inl out => mkAnswer true out (if op_Entry o =s "" then servedBy env else []) false ""
                             end)
                   end
          end
      end
  end.

(** *** Capabilities *)

Record CapCall := mkCap { cc_Token : string; cc_Name : string; cc_Input : string; cc_Via : string }.
Record Verdict := mkV { vd_Allowed : bool; vd_Held : bool; vd_Unavailable : bool; vd_Reason : string; vd_Grant : option RunGrant; vd_Tenant : string }.
Definition v_refused (grant : option RunGrant) (tenant reason : string) : Verdict := mkV false false false reason grant tenant.
Definition v_unavail (grant : option RunGrant) (tenant reason : string) : Verdict := mkV false false true reason grant tenant.
Definition of_answer (grant : option RunGrant) (tenant : string) (a : Answer) : Verdict :=
  if a_Unavailable a then v_unavail grant tenant (a_Reason a) else v_refused grant tenant (a_Reason a).
Definition Identified (v : Verdict) : bool := match vd_Grant v with Some g => negb (rg_ID g =s "") | None => false end.

Definition ViaHTTP : string := "http".
Definition ViaCall : string := "call".
Definition ViaExec : string := "exec".

(** The call of a grant that was identified. *)
Definition decide_call (grant : RunGrant) (res : Resource) (via input : string) (now : Z) : Tx Verdict :=
  do! t := ask (ATenantSlug (rg_Tenant grant)) in
  match t with
  | inr _ => TRet (v_unavail (Some grant) "" "tenant directory")
  | inl None => TRet (v_refused (Some grant) "" reasonTenant)
  | inl (Some tenant) =>
      let key := refusalKey (rg_ID grant) res in
      do! again := ask (ASeen key now) in
      match again with
      | Some reason => TRet (v_refused (Some grant) tenant reason)
      | None =>
          do! standing := Granted (rg_Tenant grant) (principal grant) res (Verb res) in
          match standing with
          | inr _ => TRet (v_unavail (Some grant) tenant "identity store")
          | inl standing =>
              do! rid := call CRandom in
              let ch := mkChecks true (Allows grant res) standing true (1 <=? Remaining grant)%Z in
              let f := mkFacts rid tenant grant res (mkReq via "" "" "") None "" input ch (propose ch) now in
              do! d := consult f in
              if negb (d_allow d) then
                if d_reason d =s reasonHeld then TRet (mkV false true false (d_reason d) (Some grant) tenant)
                else do! _ := ask (ARemember key (d_reason d) now) in TRet (v_refused (Some grant) tenant (d_reason d))
              else
                do! no := charge_request f d key now in
                TRet (match no with
                      | Some ans => of_answer (Some grant) tenant ans
                      | None => mkV true false false "" (Some grant) tenant
                      end)
          end
      end
  end.

Definition Invoke (g : Gateway) (c : CapCall) : Tx Verdict :=
  do! now := call CNow in
  let via := if cc_Via c =s "" then ViaHTTP else cc_Via c in
  do! r := identify g (mkOpen (cc_Token c) "" "" "" via "") now in
  match r with
  | inr ans => TRet (of_answer None "" ans)
  | inl grant =>
      match NewResource ResourceCapability (cc_Name c) with
      | None => TRet (v_refused (Some grant) "" reasonName)
      | Some res => decide_call grant res via (cc_Input c) now
      end
  end.

(** [processor.CapDecision]; of a call that was not identified, no grant's fields. *)
Record CapDecision := mkCD {
  cd_Allowed : bool; cd_Held : bool; cd_Unavailable : bool; cd_Identified : bool; cd_Reason : string; cd_Tenant : string;
  cd_Run : string; cd_Grant : string; cd_Generation : Z; cd_Principal : Principal; cd_Stack : string; cd_Workspace : string; cd_Trace : string }.

Definition Decide (g : Gateway) (token name input : string) : Tx CapDecision :=
  do! v := Invoke g (mkCap token name input ViaCall) in
  let d := mkCD (vd_Allowed v) (vd_Held v) (vd_Unavailable v) (Identified v) (vd_Reason v) (vd_Tenant v) in
  TRet (match vd_Grant v with
        | Some grant =>
            if Identified v then d (rg_Run grant) (rg_ID grant) (rg_Generation grant) (principal grant) (rg_Stack grant) (rg_Workspace grant) (rg_Trace grant)
            else d "" "" 0%Z (mkPrincipal "" "") "" "" ""
        | None => d "" "" 0%Z (mkPrincipal "" "") "" "" ""
        end).

(** *** Handing a grant to a command *)

Definition claims_of (grant : RunGrant) : RG.Claims :=
  RG.mkClaims (rg_ID grant) (rg_Tenant grant) (rg_Principal grant) (rg_Run grant) (rg_Generation grant) (rg_Depth grant) (rg_Trace grant) (rg_Expires grant) 0.

(** The grant a rule of [stack] may hand on: live and its own. *)
Definition handable (g : Gateway) (tenant stack grantID : string) : Tx (option (string * RunGrant)) :=
  do! t := ask (ATenantID tenant) in
  match t with
  | inr _ => TRet None
  | inl tenantID =>
      do! r := GetRunGrant tenantID stack grantID in
      match r with
      | inr _ => TRet None
      | inl grant => do! now := call CNow in if negb (Live grant now) then TRet None else TRet (Some (tenantID, grant))
      end
  end.

Definition ForCall (g : Gateway) (tenant stack grantID : string) : Tx (option string) :=
  match gw_signer g with
  | None => TRet None
  | Some signer =>
      do! h := handable g tenant stack grantID in
      match h with None => TRet None | Some (_, grant) => TRet (RG.Sign signer (claims_of grant)) end
  end.

(** The distinct names, in the order of their first mention. *)
Fixpoint firsts (seen names : list string) : list string :=
  match names with
  | [] => []
  | name :: names => if bool_decide (name ∈ seen) then firsts seen names else name :: firsts (name :: seen) names
  end.
(** Every sandbox is one the grant names, only variables, and none set twice. *)
Fixpoint disjoint_vars (grant : RunGrant) (setBy : list string) (names : list string) : bool :=
  match names with
  | [] => true
  | name :: names =>
      match rg_Sandboxes grant !! name with
      | None => false
      | Some env =>
          let vars := sorted_keys env in
          forallb (fun v => bool_decide ((ParseEntry v).1.1 = EntryVar) && negb (bool_decide (v ∈ setBy))) vars &&
          disjoint_vars grant (vars ++ setBy)%list names
      end
  end.

Fixpoint open_all (g : Gateway) (tenantID : string) (grant : RunGrant) (names : list string) (env : gmap string string) : Tx (option (gmap string string)) :=
  match names with
  | [] => TRet (Some env)
  | name :: names =>
      do! ans := OpenSandbox g (mkOpen "" tenantID (rg_ID grant) name ViaExec "") in
      if negb (a_Allowed ans) then TRet None else open_all g tenantID grant names (a_Env ans ∪ env)
  end.

Definition EnvRun : string := "TXCO_RUN".
Definition EnvToken : string := "TXCO_RUN_GRANT".
Definition EnvSocket : string := "TXCO_GRANT_SOCK".
Definition EnvBin : string := "TXCO_BIN".

(** [ForExec]: the command's variables; [None] is an error, and nothing is handed
    over. *)
Definition ForExec (g : Gateway) (tenant stack workspaceID grantID : string) (sandboxes : list string) : Tx (option (gmap string string)) :=
  match gw_signer g with
  | None => TRet None
  | Some signer =>
      do! h := handable g tenant stack grantID in
      match h with
      | None => TRet None
      | Some (tenantID, grant) =>
          let names := firsts [] sandboxes in
          if (rg_WorkspaceID grant =s "") || negb (rg_WorkspaceID grant =s workspaceID) || negb (disjoint_vars grant [] names) then TRet None
          else
            do! env := open_all g tenantID grant names ∅ in
            match env with
            | None => TRet None
            | Some env =>
                TRet (match RG.Sign signer (claims_of grant) with
                      | None => None
                      | Some token =>
                          let env := <[EnvToken := token]> (<[EnvRun := rg_Run grant]> env) in
                          Some (if gw_socket g =s "" then env
                                else let env := <[EnvSocket := gw_socket g]> env in
                                     if gw_bin g =s "" then env else <[EnvBin := gw_bin g]> env)
                      end)
            end
      end
  end.
End Lib.
