(* ===== verification/RunGrantFacts.v ===== *)
(** * Run grants: authority only narrows *)

From Stdlib Require Import Ascii String ZArith Lia Bool.
From stdpp Require Import base tactics list strings gmap sorting relations.
From S2P Require Import Prelude GoStrings GoStrconv Sandbox RunGrants Tokens Gateway.

#[local] Open Scope string_scope.

(** ** Names *)

Lemma NewResource_name kind name r : NewResource kind name = Some r ->
  exists grammar verbs, resourceRules kind = Some (grammar, verbs) /\ grammar (r_Name r) = true /\ r_Kind r = kind.
Proof. unfold NewResource. destruct (resourceRules kind) as [[g vs]|]; [|done]. case_bool; [|done]. intros [= <-]. eauto. Qed.

Lemma resourceRules_inv kind grammar verbs : resourceRules kind = Some (grammar, verbs) ->
  (kind = ResourceCapability /\ grammar = CapabilityRE) \/ (kind = ResourceSecret /\ grammar = secretNameRe) \/
  (kind = ResourceConnection /\ grammar = providerNameRe).
Proof.
  unfold resourceRules. intros E. repeat case_bool; simplify_eq; match goal with H : (kind =s _) = true |- _ => apply String.eqb_eq in H as -> end; auto.
Qed.

Lemma NewResource_bytes kind name r : NewResource kind name = Some r -> sall name_byte (r_Name r) = true.
Proof.
  intros (g & vs & Hr & Hg & _)%NewResource_name. apply resourceRules_inv in Hr as [[_ ->]|[[_ ->]|[_ ->]]].
  - by apply Capability_bytes.
  - by apply secretName_bytes.
  - by apply providerName_bytes.
Qed.

(** What a row's allowlist prints is read back as the same resource. *)
Lemma resource_roundtrip kind name r : NewResource kind name = Some r -> ParseResource (Resource_String r) = Some r.
Proof.
  intros Hr. pose proof (NewResource_bytes _ _ _ Hr) as Hb. apply name_plain in Hb as [Hp Hc].
  destruct (NewResource_name _ _ _ Hr) as (g & vs & Hrule & Hg & Hk). destruct r as [k n]; cbn in *; subst k.
  assert (Hnew : NewResource kind n = Some (mkResource kind n)).
  { unfold NewResource. by rewrite Hrule, (TrimSpace_plain n Hp), Hg. }
  unfold ParseResource, Resource_String; cbn [r_Kind r_Name]. apply resourceRules_inv in Hrule as Hkind.
  destruct (String.eqb_spec kind ResourceCapability) as [->|Hn].
  - by rewrite (TrimSpace_plain n Hp), (Cut_none n ":" Hc).
  - assert (Hkb : sall plain kind = true /\ sall (fun c => negb (c =c ":")) kind = true) by (destruct Hkind as [[? _]|[[-> _]|[-> _]]]; done).
    destruct Hkb as [Hkp Hkc]. rewrite TrimSpace_plain by (rewrite sall_app; cbn [String.append sall]; by rewrite Hkp, Hp).
    cbn [String.append]. by rewrite (Cut_app kind n ":" Hkc).
Qed.

Lemma ParseResource_valid s r : ParseResource s = Some r -> exists kind name, NewResource kind name = Some r.
Proof. unfold ParseResource. destruct (Cut _ _) as [[kind name]|]; eauto. Qed.

Lemma mapM_valid names rs : mapM ParseResource names = Some rs -> Forall (fun r => exists kind name, NewResource kind name = Some r) rs.
Proof.
  intros H. apply mapM_Some in H. apply Forall_forall. intros r Hr. apply list_elem_of_lookup in Hr as [i Hi].
  destruct (Forall2_lookup_r _ _ _ _ _ H Hi) as (s & _ & Hs). by eapply ParseResource_valid.
Qed.

Lemma sandbox_resources_valid m rs : sandbox_resources m = Some rs -> Forall (fun r => exists kind name, NewResource kind name = Some r) rs.
Proof.
  unfold sandbox_resources. intros H. apply fmap_Some in H as (l & Hl & ->). apply mapM_Some in Hl.
  apply Forall_forall. intros r Hr. apply list_elem_of_omap in Hr as (o & Ho & Er). unfold id in Er. subst o. apply list_elem_of_lookup in Ho as [i Hi].
  destruct (Forall2_lookup_r _ _ _ _ _ Hl Hi) as ([k v] & _ & He). cbn in He. unfold entry_resource in He.
  destruct (ParseEntry k) as [[[] ?] ?]; try done; destruct (ParseRef v) as [[kind name]|]; try done;
    destruct (NewResource kind name) eqn:En; simplify_eq; eauto.
Qed.

Lemma parseAllow_decodes names m allow : parseAllow names m = Some allow -> decodeAllow (map Resource_String allow) = Some allow.
Proof.
  unfold parseAllow. destruct (mapM ParseResource names) as [l1|] eqn:E1; [|done]. destruct (sandbox_resources m) as [l2|] eqn:E2; [|done].
  case_bool; [done|]. intros [= <-]. set (l := merge_sort res_le _).
  assert (Hv : Forall (fun r => exists kind name, NewResource kind name = Some r) l).
  { unfold l. rewrite merge_sort_Permutation. apply Forall_forall. intros r Hr. apply elem_of_remove_dups, elem_of_app in Hr.
    apply mapM_valid in E1. apply sandbox_resources_valid in E2. rewrite Forall_forall in E1, E2. destruct Hr; eauto. }
  assert (Hm : mapM ParseResource (map Resource_String l) = Some l).
  { clearbody l. induction Hv as [|r rs (kind & name & Hr) _ IH]; [done|]. cbn. by rewrite (resource_roundtrip _ _ _ Hr), IH. }
  unfold decodeAllow. rewrite Hm. destruct l as [|r rs] eqn:El; [|done].
  assert (Hlen : length l = 0%nat) by by rewrite El. unfold l in Hlen. rewrite merge_sort_Permutation in Hlen.
  bool_to_prop. match goal with H : (_ =? 0)%nat = false |- _ => apply Nat.eqb_neq in H end. done.
Qed.

(** ** What never changes in a row *)

Record Core := mkCore {
  c_Tenant : string; c_MintedBy : string; c_Run : string; c_Generation : Z; c_Allow : list string; c_Budget : Z; c_Parent : string;
  c_Depth : Z; c_Expires : Z }.
Definition core (g : RunGrant) : Core :=
  mkCore (rg_Tenant g) (rg_MintedBy g) (rg_Run g) (rg_Generation g) (rg_Allow g) (rg_Budget g) (rg_Parent g) (rg_Depth g) (rg_Expires g).

(** A column that no ending touches. *)
Section Untouched.
Context {B : Type} (f : RunGrant -> B) (Hf : forall e g, f (end_row e g) = f g).

Lemma fmap_end_where e cond m : f <$> end_where e cond m = f <$> m.
Proof. unfold end_where. rewrite <- map_fmap_compose. apply map_fmap_ext. intros i g _. cbn. case_bool; [apply Hf|done]. Qed.
Lemma fmap_endDescendants depth e tenant level m : f <$> endDescendants depth e tenant level m = f <$> m.
Proof.
  revert level m; induction depth as [|depth IH]; intros level m; cbn [endDescendants]; [done|].
  destruct level; [done|]. by rewrite IH, fmap_end_where.
Qed.
Lemma fmap_supersede g stamp m : f <$> supersede g stamp m = f <$> m.
Proof. unfold supersede. by rewrite fmap_endDescendants, fmap_end_where. Qed.
Lemma fmap_alter_same (m : Runs_) i h : (forall g, f (h g) = f g) -> f <$> alter h i m = f <$> m.
Proof.
  intros Hh. apply map_eq. intros j. rewrite !lookup_fmap. destruct (decide (j = i)) as [->|Hn].
  - rewrite lookup_alter_eq. destruct (m !! i); cbn; [by rewrite Hh|done].
  - by rewrite lookup_alter_ne.
Qed.
Lemma fmap_endRun db e tenant gid : f <$> db_runs (endRun db e tenant gid).2 = f <$> db_runs db.
Proof. cbn -[endDescendants]. rewrite fmap_endDescendants. apply fmap_alter_same. intros g. case_bool; [apply Hf|done]. Qed.
Lemma fmap_lookup_same (m m' : Runs_) i g : f <$> m' = f <$> m -> m' !! i = Some g -> exists g0, m !! i = Some g0 /\ f g0 = f g.
Proof.
  intros E Hg. assert (Hc : (f <$> m) !! i = Some (f g)) by (rewrite <- E; by rewrite lookup_fmap, Hg).
  rewrite lookup_fmap in Hc. apply fmap_Some in Hc as (g0 & ? & ?). eauto.
Qed.
End Untouched.

Lemma core_end e g : core (end_row e g) = core g.
Proof. by destruct e. Qed.
Lemma core_spend n g : core (spend n g) = core g.
Proof. done. Qed.

Definition cores (m : Runs_) : gmap string Core := core <$> m.

Lemma cores_insert_same m id g g' : m !! id = Some g -> core g' = core g -> cores (<[id := g']> m) = cores m.
Proof. intros Hm Hc. unfold cores. rewrite fmap_insert, Hc. apply insert_id. by rewrite lookup_fmap, Hm. Qed.
Lemma cores_supersede g stamp m : cores (supersede g stamp m) = cores m.
Proof. apply fmap_supersede, core_end. Qed.
Lemma cores_endRun db e tenant gid : cores (db_runs (endRun db e tenant gid).2) = cores (db_runs db).
Proof. apply fmap_endRun, core_end. Qed.
Definition cores_lookup := fmap_lookup_same core.

Lemma run_of_Some db tenant id g : run_of db tenant id = Some g <-> db_runs db !! id = Some g /\ rg_Tenant g = tenant.
Proof.
  unfold run_of. destruct (db_runs db !! id) as [g0|]; cbn; [|naive_solver].
  destruct (String.eqb_spec (rg_Tenant g0) tenant); naive_solver.
Qed.

(** What the budget step leaves: the rows, with the parent's charged. *)
Inductive took (db : AuthDB) (g : RunGrant) (stamp : Z) : Runs_ -> Prop :=
  | took_root : rg_Parent g = "" -> took db g stamp (db_runs db)
  | took_parent p : rg_Parent g <> "" -> db_runs db !! rg_Parent g = Some p -> rg_Tenant p = rg_Tenant g ->
      liveRun p stamp = true -> (rg_Spent p + rg_Budget g <= rg_Budget p)%Z ->
      took db g stamp (<[rg_Parent g := spend (rg_Budget g) p]> (db_runs db)).

Lemma take_budget_took db g now m : take_budget db g now = inl m -> took db g (now / Second) m.
Proof.
  unfold take_budget. destruct (String.eqb_spec (rg_Parent g) "") as [E|E]; [intros [= <-]; by constructor|].
  destruct (run_of db _ _) as [p|] eqn:Ep; [|done]. apply run_of_Some in Ep as [Hp Ht].
  destruct (liveRun p _ && _) eqn:Eb.
  - intros [= <-]. bool_to_prop. by econstructor; eauto.
  - destruct (scanRunGrant _); [by case_bool|done].
Qed.

Lemma took_cores db g stamp m : took db g stamp m -> cores m = cores (db_runs db).
Proof. intros [E|p E Hp _ _ _]; [done|]. by eapply cores_insert_same. Qed.

(** A mint writes nothing, or all of this. *)
Record mints (db : AuthDB) (g : RunGrant) (generation now expires : Z) (m : Runs_) (gen : Z) (db' : AuthDB) : Prop := {
  mt_gen : next_generation (db_heads db !! run_key g) generation = Some gen;
  mt_took : took db g (now / Second) m;
  mt_fresh : db_runs db !! rg_ID g = None;
  mt_runs : db_runs db' = <[rg_ID g := minted g gen (now / Second) (expires / Second)]> (supersede g (now / Second) m);
  mt_heads : db_heads db' = <[run_key g := (gen, rg_ID g)]> (db_heads db);
  mt_grants : db_grants db' = db_grants db }.

Lemma insertRun_inv db g generation now expires r db' : insertRunGrant db g generation now expires = (r, db') ->
  db' = db \/ exists m gen, mints db g generation now expires m gen db'.
Proof.
  unfold insertRunGrant. destruct (next_generation _ _) as [gen|] eqn:Eg; [|intros [= _ <-]; by left].
  destruct (take_budget db g now) as [m|] eqn:Et; [|intros [= _ <-]; by left]. apply take_budget_took in Et.
  destruct (clashes _ _ _) eqn:Ec; [intros [= _ <-]; by left|]. intros [= _ <-]. right. exists m, gen. split; try done.
  unfold clashes in Ec. apply orb_false_iff in Ec as [Ec _]. apply bool_decide_eq_false in Ec. apply eq_None_not_Some in Ec.
  destruct (db_runs db !! rg_ID g) as [x|] eqn:Ex; [|done].
  assert (Hc : cores (supersede g (now / Second) m) = cores (db_runs db)) by (rewrite cores_supersede; by eapply took_cores).
  assert (Hx : cores (supersede g (now / Second) m) !! rg_ID g = Some (core x)) by (rewrite Hc; unfold cores; by rewrite lookup_fmap, Ex).
  unfold cores in Hx. by rewrite lookup_fmap, Ec in Hx.
Qed.

(** ** A row and its parent *)

(** [below p g]: [g] is narrower than [p]. *)
Record below (p g : RunGrant) : Prop := {
  bl_tenant : rg_Tenant g = rg_Tenant p;
  bl_minter : rg_MintedBy g = rg_MintedBy p;
  bl_depth : rg_Depth g = (rg_Depth p + 1)%Z;
  bl_run : rg_Run g <> rg_Run p;
  bl_allow : allowed g ⊆ allowed p;
  bl_expires : (rg_Expires g <= rg_Expires p)%Z }.

Definition linked (m : Runs_) (g : RunGrant) : Prop :=
  (0 <= rg_Depth g <= Z.of_nat MaxRunDepth)%Z /\ (1 <= rg_Budget g)%Z /\
  (rg_Parent g <> "" -> exists p, m !! rg_Parent g = Some p /\ below p g).

Lemma below_core p p' g g' : core p' = core p -> core g' = core g -> below p g -> below p' g'.
Proof.
  intros Ep Eg [? ? ? ? ? ?]. unfold core in *. injection Ep as Ep1 Ep2 Ep3 Ep4 Ep5 Ep6 Ep7 Ep8 Ep9. injection Eg as Eg1 Eg2 Eg3 Eg4 Eg5 Eg6 Eg7 Eg8 Eg9.
  unfold allowed in *. split; unfold allowed; rewrite ?Ep1, ?Ep2, ?Ep3, ?Ep5, ?Ep8, ?Ep9, ?Eg1, ?Eg2, ?Eg3, ?Eg5, ?Eg8, ?Eg9; done.
Qed.

Lemma linked_core m m' g g' : cores m ⊆ cores m' -> core g' = core g -> linked m g -> linked m' g'.
Proof.
  intros Hsub Eg (Hd & Hb & Hp). pose proof Eg as Eg'. unfold core in Eg'. injection Eg' as Eg1 Eg2 Eg3 Eg4 Eg5 Eg6 Eg7 Eg8 Eg9.
  split; [by rewrite Eg8|]. split; [by rewrite Eg6|]. intros Hn. destruct Hp as (p & Hm & Hbl); [congruence|].
  assert (Hc : cores m' !! rg_Parent g = Some (core p)) by (eapply lookup_weaken; [|exact Hsub]; unfold cores; by rewrite lookup_fmap, Hm).
  unfold cores in Hc. rewrite lookup_fmap in Hc. apply fmap_Some in Hc as (p' & Hp' & Ec). exists p'.
  split; [congruence|]. by eapply below_core.
Qed.

(** ** Programs and what they may ask *)

Definition ext (db db' : AuthDB) : Prop := cores (db_runs db) ⊆ cores (db_runs db').
#[export] Instance ext_preorder : PreOrder ext.
Proof. unfold ext. split; [intros x; done|intros x y z; apply transitivity]. Qed.

(** What a mint has established when it reaches its transaction. *)
Definition justified (db : AuthDB) (g : RunGrant) (expires : Z) : Prop :=
  linked (db_runs db) (minted g 0 0 (expires / Second)).

Definition pre {R} (c : Call R) (db : AuthDB) : Prop :=
  match c with
  | CInsertRun g generation now expires => justified db g expires /\ (0 <= generation)%Z
  | CCharge _ _ n _ _ => (1 <= n)%Z
  | _ => True
  end.

Definition good (db : AuthDB) : Prop := forall rid g, db_runs db !! rid = Some g -> linked (db_runs db) g.

Fixpoint wp {A} (p : Tx A) (db : AuthDB) : Prop :=
  match p with
  | TRet _ => True
  | TDo c k => forall db1, ext db db1 -> good db1 -> pre c db1 /\ forall r db2, answers c db1 r db2 -> wp (k r) db2
  end.

Lemma wp_ext {A} (p : Tx A) db db' : ext db db' -> wp p db -> wp p db'.
Proof. destruct p; cbn; [done|]. intros He Hw db1 He1. apply Hw. by trans db'. Qed.

Lemma insertRun_ext db g generation now expires : ext db (insertRunGrant db g generation now expires).2.
Proof.
  destruct (insertRunGrant db g generation now expires) as [r db'] eqn:E. apply insertRun_inv in E as [->|(m & gen & [? Ht Hf Hr _ _])]; [done|].
  unfold ext. cbn [snd]. rewrite Hr. unfold cores at 2. rewrite fmap_insert. fold (cores (supersede g (now / Second) m)).
  rewrite cores_supersede, (took_cores _ _ _ _ Ht). apply insert_subseteq. unfold cores. by rewrite lookup_fmap, Hf.
Qed.

Lemma exec_ext ask now rnd {R} (c : Call R) db : ext db (exec ask now rnd c db).2.
Proof.
  destruct c; try (by unfold ext).
  - cbn. unfold insertGrant. cbv zeta. destruct (_ || _); by unfold ext.
  - apply insertRun_ext.
  - unfold ext. pose proof (cores_endRun db e tenant id) as E. cbn [exec]. destruct (endRun db e tenant id). cbn in *. by rewrite E.
  - cbn. unfold charge. destruct (run_of db tenant id) as [g|] eqn:E; [|done]. case_bool; [|done]. cbn. unfold ext; cbn.
    apply run_of_Some in E as [Hg _]. by rewrite (cores_insert_same _ _ _ _ Hg).
Qed.

Lemma answers_ext {R} (c : Call R) db r db' : answers c db r db' -> ext db db'.
Proof. intros [(ask & now & rnd & E)|[_ ->]]; [|done]. pose proof (exec_ext ask now rnd c db) as He. by rewrite E in He. Qed.

Lemma twp_bind {A B} (p : Tx A) (f : A -> Tx B) db :
  wp p db -> (forall x db', ext db db' -> wp (f x) db') -> wp (tbind p f) db.
Proof.
  revert db; induction p as [x|R c k IH]; intros db Hp Hf; cbn in *; [by apply Hf|].
  intros db1 He Hgood. destruct (Hp db1 He Hgood) as [Hpre Hk]. split; [done|]. intros r db2 Ha. apply IH; [by apply Hk|].
  intros x db' He'. apply Hf. trans db1; [done|]. trans db2; [by eapply answers_ext|done].
Qed.

Lemma wp_assoc {A B C} (p : Tx A) (f : A -> Tx B) (g : B -> Tx C) db :
  wp (tbind p (fun x => tbind (f x) g)) db -> wp (tbind (tbind p f) g) db.
Proof.
  revert db; induction p as [x|R c k IH]; intros db Hp; cbn in *; [done|].
  intros db1 He Hgood. destruct (Hp db1 He Hgood) as [Hpre Hk]. split; [done|]. intros r db2 Ha. apply IH. by apply Hk.
Qed.

Lemma wp_try {A B} (p : Tx (A + AErr)) (f : A -> Tx (B + AErr)) db :
  wp p db -> (forall x db', ext db db' -> wp (f x) db') -> wp (try p f) db.
Proof. intros Hp Hf. apply twp_bind; [done|]. intros [x|e] db' He; [by apply Hf|done]. Qed.

Lemma wp_call {R} (c : Call R) db : (forall db1, ext db db1 -> pre c db1) -> wp (call c) db.
Proof. intros Hp. cbn. intros db1 He _. split; [by apply Hp|done]. Qed.

(** Reading a run grant answers a row of the table. *)
Lemma wp_read {A} tenant rid (f : RunGrant + AErr -> Tx A) db :
  (forall e db', ext db db' -> wp (f (inr e)) db') ->
  (forall g db', ext db db' -> good db' -> db_runs db' !! rid = Some g -> rg_Tenant g = tenant -> wp (f (inl g)) db') ->
  wp (tbind (ReadRunGrant tenant rid) f) db.
Proof.
  intros He Hg. unfold ReadRunGrant. case_bool; cbn; [by apply He|]. intros db1 Hx Hgood. split; [done|].
  intros r db2 [(ask & now & rnd & E)|[-> ->]]; [|by apply He]. cbn in E. simplify_eq. unfold scanRunGrant.
  destruct (run_of db2 tenant rid) as [g|] eqn:Er; [|by apply He]. apply run_of_Some in Er as [Hr Ht].
  destruct (decodeAllow _); [|by apply He]. case_bool; [by apply He|by apply Hg].
Qed.

(** ** The operations keep to it *)

Inductive GrantOp :=
  | OPutGrant (tenant stack : string) (p : Principal) (kind name : string) (verbs : list string)
  | ORevokeGrant (tenant stack gid : string)
  | ORevokeGrantOf (tenant stack : string) (p : Principal) (gid : string)
  | ORevokeGrantOn (tenant stack : string) (p : Principal) (kind name : string)
  | OListGrants (tenant stack : string) (p : Principal) (kind : string) (includeRevoked : bool)
  | OGrantsOn (tenant kind name : string)
  | OGranted (tenant : string) (p : Principal) (res : Resource) (verb : string)
  | OMint (tenant stack : string) (p : Principal) (i : NewRunGrant)
  | ORead (tenant stack gid : string)
  | ORevokeRun (tenant stack gid : string)
  | OCloseRun (tenant stack gid reason : string)
  | OCharge (tenant gid : string) (n : Z) (enforce : bool)
  | OInvoke (g : Gateway) (c : CapCall)
  | OOpen (g : Gateway) (o : Open)
  | OForCall (g : Gateway) (tenant stack gid : string)
  | OForExec (g : Gateway) (tenant stack workspace gid : string) (sandboxes : list string).

Section System.
Context {GL : GatewayLib}.

Definition perform (o : GrantOp) : Tx unit :=
  let drop {A} (p : Tx A) := tbind p (fun _ => TRet tt) in
  match o with
  | OPutGrant tenant stack p kind name verbs => drop (PutGrant tenant stack p kind name verbs)
  | ORevokeGrant tenant stack gid => drop (RevokeGrant tenant stack gid)
  | ORevokeGrantOf tenant stack p gid => drop (RevokeGrantOf tenant stack p gid)
  | ORevokeGrantOn tenant stack p kind name => drop (RevokeGrantOn tenant stack p kind name)
  | OListGrants tenant stack p kind includeRevoked => drop (ListGrants tenant stack p kind includeRevoked)
  | OGrantsOn tenant kind name => drop (GrantsOn tenant kind name)
  | OGranted tenant p res verb => drop (Granted tenant p res verb)
  | OMint tenant stack p i => drop (MintRunGrant tenant stack p i)
  | ORead tenant stack gid => drop (GetRunGrant tenant stack gid)
  | ORevokeRun tenant stack gid => drop (RevokeRunGrant tenant stack gid)
  | OCloseRun tenant stack gid reason => drop (CloseRunGrant tenant stack gid reason)
  | OCharge tenant gid n enforce => drop (ChargeRunGrant tenant gid n enforce)
  | OInvoke g c => drop (Invoke g c)
  | OOpen g o => drop (OpenSandbox g o)
  | OForCall g tenant stack gid => drop (ForCall g tenant stack gid)
  | OForExec g tenant stack workspace gid sandboxes => drop (ForExec g tenant stack workspace gid sandboxes)
  end.

Ltac wp_steps :=
  repeat first
    [ done
    | progress intros
    | match goal with
      | |- wp (try _ _) _ => apply wp_try
      | |- wp (tbind _ _) _ => apply twp_bind
      | |- wp (call _) _ => apply wp_call
      | |- wp (TRet _) _ => exact I
      | |- wp (if ?b then _ else _) _ => destruct b
      | |- wp (match ?x with _ => _ end) _ => destruct x
      end ].

Lemma wp_RequireOwner tenant stack p db : wp (RequireOwner tenant stack p) db.
Proof. unfold RequireOwner. wp_steps. Qed.
Lemma wp_authorize tenant stack p db : wp (authorize tenant stack p) db.
Proof. unfold authorize. wp_steps. Qed.
Lemma wp_requireActive tenant p db : wp (requireActive tenant p) db.
Proof. unfold requireActive. wp_steps. Qed.

Lemma wp_put_pass n tenant base p res verbs db : wp (put_pass n tenant base p res verbs) db.
Proof. revert db; induction n as [|n IH]; intros db; cbn [put_pass]; wp_steps; apply IH. Qed.

(** The parent, as the mint read it, justifies the row. *)
Lemma parent_justifies base i allow now expires g e d db tenant :
  check_parent base i allow now expires (inl g) = inl (e, d) -> db_runs db !! n_Parent i = Some g -> rg_Tenant g = tenant ->
  linked (db_runs db) g -> n_Parent i <> "" -> (1 <= n_Budget i)%Z -> decodeAllow (map Resource_String allow) = Some allow ->
  forall rid pid key wid w nc sb tr,
  justified db (mkRun rid tenant pid base (n_Stack i) (n_Run i) 0 wid w nc key (map Resource_String allow) sb (n_Budget i) 0 (n_Parent i) d tr 0 0 None "" None) e.
Proof.
  intros Hc Hg Ht (Hd & _ & _) Hn Hb Ha rid pid key wid w nc sb tr. cbn [check_parent] in Hc.
  destruct (String.eqb_spec (rg_MintedBy g) base) as [Hm|]; [cbn [negb] in Hc|done]. destruct (Live g now); [cbn [negb] in Hc|done].
  destruct (Z.ltb_spec (Z.of_nat MaxRunDepth) (rg_Depth g + 1)) as [|Hdep]; [done|].
  destruct (String.eqb_spec (rg_Run g) (n_Run i)) as [|Hrun]; [done|].
  destruct (existsb _ allow) eqn:Hall; [done|]. injection Hc as He <-.
  unfold justified, linked, minted; cbn [rg_Depth rg_Budget rg_Parent].
  split; [lia|]. split; [done|]. intros _. exists g. split; [done|]. split; cbn; try congruence.
  - unfold allowed at 1; cbn. rewrite Ha; cbn. intros r Hr. destruct (Allows g r) eqn:Er; [unfold Allows in Er; by apply bool_decide_eq_true in Er|].
    assert (Hex : existsb (fun res => negb (Allows g res)) allow = true)
      by (apply existsb_exists; exists r; rewrite Er; split; [by apply list_elem_of_In|done]). congruence.
  - subst e. destruct (Z.ltb_spec (rg_Expires g * Second) expires) as [_|Hle]; [rewrite Z.div_mul by done; lia|].
    rewrite <- (Z.div_mul (rg_Expires g) Second) by done. apply Z.div_le_mono; [done|lia].
Qed.

Lemma justified_ext db db' g expires : ext db db' -> justified db g expires -> justified db' g expires.
Proof. intros He. by apply linked_core. Qed.

Lemma normalizeRun_inv i i' allow : normalizeRun i = inl (i', allow) ->
  (1 <= n_Budget i')%Z /\ (0 <= n_Generation i')%Z /\ decodeAllow (map Resource_String allow) = Some allow.
Proof.
  unfold normalizeRun. intros E. repeat case_bool; simplify_eq.
  all: destruct (parseAllow _ _) as [l|] eqn:Ep; simplify_eq; apply parseAllow_decodes in Ep; bool_to_prop; cbn.
  all: split; [|split; [|done]].
  all: repeat match goal with H : (_ <? _)%Z = _ |- _ => first [apply Z.ltb_ge in H|apply Z.ltb_lt in H] end; lia.
Qed.

Lemma wp_mint tenant stack p i db : wp (MintRunGrant tenant stack p i) db.
Proof.
  unfold MintRunGrant. case_bool; [done|]. destruct (normalizeRun i) as [[i' allow]|] eqn:En; [|done].
  destruct (normalizeRun_inv _ _ _ En) as (Hb & Hgen & Ha). clear En.
  apply wp_try; [apply wp_RequireOwner|]. intros base db1 _. apply wp_try; [apply wp_requireActive|]. intros _ db2 _.
  apply wp_try; [by apply wp_call|]. intros held db3 _. destruct (List.find _ _); [done|].
  apply twp_bind; [by apply wp_call|]. intros now db4 _. set (expires := (now + n_TTL i')%Z).
  destruct (String.eqb_spec (n_Parent i') "") as [E|E].
  - cbn [try tbind]. apply twp_bind; [by apply wp_call|]. intros rid db5 _. apply twp_bind; [by apply wp_call|]. intros key db6 _.
    apply wp_call. intros db7 _. split; [|done]. unfold justified, linked; cbn. split; [lia|]. split; [done|]. by rewrite E.
  - unfold try. apply wp_assoc. apply wp_read; [intros [] db5 _; cbn; done|]. intros g db5 _ Hgood Hg Ht. cbn [tbind].
    destruct (check_parent base i' allow now expires (inl g)) as [[e d]|] eqn:Ec; [|done].
    pose proof (parent_justifies _ _ _ _ _ _ _ _ _ _ Ec Hg Ht (Hgood _ _ Hg) E Hb Ha) as Hj.
    apply twp_bind; [by apply wp_call|]. intros rid db6 He6. apply twp_bind; [by apply wp_call|]. intros key db7 He7.
    apply wp_call. intros db8 He8. split; [|done]. apply (justified_ext db5); [|apply Hj]. by do 2 (etrans; [eassumption|]).
Qed.

Lemma wp_endRunGrant tenant stack gid closing reason db : wp (endRunGrant tenant stack gid closing reason) db.
Proof.
  unfold endRunGrant, GetRunGrant, ReadRunGrant. wp_steps.
Qed.

Lemma wp_revokeGrant found db : wp (revokeGrant found) db.
Proof. unfold revokeGrant. wp_steps. Qed.
Lemma wp_RevokeGrant tenant stack gid db : wp (RevokeGrant tenant stack gid) db.
Proof.
  unfold RevokeGrant. case_bool; [done|]. apply wp_try; [by apply wp_call|]. intros found db1 _.
  apply wp_try; [apply wp_authorize|]. intros _ db2 _. apply wp_revokeGrant.
Qed.

Lemma wp_ReadRunGrant tenant gid db : wp (ReadRunGrant tenant gid) db.
Proof. unfold ReadRunGrant. wp_steps. Qed.
Lemma wp_GetRunGrant tenant stack gid db : wp (GetRunGrant tenant stack gid) db.
Proof. unfold GetRunGrant. apply wp_try; [apply wp_ReadRunGrant|]. wp_steps. Qed.
Lemma wp_Granted tenant p res verb db : wp (Granted tenant p res verb) db.
Proof.
  unfold Granted. case_bool; [done|]. case_bool; [done|]. apply twp_bind; [by apply wp_call|]. intros [[k g]|e] db1 _; [|by destruct e].
  case_bool; [done|]. apply twp_bind; [apply wp_requireActive|]. by intros [|[]] db2 _.
Qed.
Lemma wp_ChargeRunGrant tenant gid n enforce db : wp (ChargeRunGrant tenant gid n enforce) db.
Proof.
  unfold ChargeRunGrant. case_bool; [done|]. destruct (Z.ltb_spec n 1); [done|]. apply twp_bind; [by apply wp_call|]. intros now db1 _.
  apply wp_try; [by apply wp_call|]. intros hit db2 _. case_bool; [done|]. apply wp_try; [apply wp_ReadRunGrant|]. wp_steps.
Qed.

Create HintDb gateway discriminated.
(** Asking outside reads and writes nothing of the store. *)
Ltac wp_gateway :=
  repeat first
    [ done
    | progress intros
    | apply wp_ReadRunGrant | apply wp_GetRunGrant | apply wp_Granted | apply wp_ChargeRunGrant
    | progress autounfold with gateway
    | match goal with
      | |- wp (tbind _ _) _ => apply twp_bind
      | |- wp (call _) _ => apply wp_call
      | |- wp (ask _) _ => apply wp_call
      | |- wp (TRet _) _ => exact I
      | |- wp (let '(_, _) := ?x in _) _ => destruct x
      | |- wp (if ?b then _ else _) _ => destruct b
      | |- wp (match ?x with _ => _ end) _ => destruct x
      end ].
#[local] Hint Unfold read_live identify consult charge_request decideAndCharge release releaseConnection hand_over decide_call : gateway.

Lemma wp_hand_all g o grant tenant now env keys out db : wp (hand_all g o grant tenant now env keys out) db.
Proof. revert out db. induction keys as [|k keys IH]; intros out db; cbn [hand_all]; wp_gateway. Qed.
Lemma wp_OpenSandbox g o db : wp (OpenSandbox g o) db.
Proof. unfold OpenSandbox. wp_gateway. apply wp_hand_all. Qed.
Lemma wp_open_all g tenant grant names env db : wp (open_all g tenant grant names env) db.
Proof. revert env db. induction names as [|k names IH]; intros env db; cbn [open_all]; [done|]. apply twp_bind; [apply wp_OpenSandbox|]. wp_gateway. Qed.
Lemma wp_Invoke g c db : wp (Invoke g c) db.
Proof. unfold Invoke. wp_gateway. Qed.
Lemma wp_handable g tenant stack gid db : wp (handable g tenant stack gid) db.
Proof. unfold handable. wp_gateway. Qed.

Lemma wp_perform o db : wp (perform o) db.
Proof.
  destruct o; cbn [perform]; (apply twp_bind; [|done]).
  - unfold PutGrant. case_bool; [done|]. destruct (normalizeGrant _ _ _) as [[res vs]|]; [|done].
    apply wp_try; [apply wp_RequireOwner|]. intros base db1 _. apply wp_try; [apply wp_requireActive|]. intros _ db2 _. apply wp_put_pass.
  - apply wp_RevokeGrant.
  - unfold RevokeGrantOf. case_bool; [done|]. apply wp_try; [apply wp_authorize|]. intros _ db1 _. apply wp_try; [by apply wp_call|]. intros o db2 _.
    case_bool; [done|apply wp_RevokeGrant].
  - unfold RevokeGrantOn. case_bool; [done|]. destruct (NewResource _ _); [|done]. apply wp_try; [apply wp_authorize|]. intros _ db1 _.
    apply twp_bind; [by apply wp_call|]. intros [g|[]] db2 _; try done; [apply wp_revokeGrant|]. apply wp_try; [by apply wp_call|].
    intros [|g past] db3 _; [done|apply wp_revokeGrant].
  - unfold ListGrants. case_bool; [done|]. apply wp_try; [apply wp_authorize|]. intros _ db1 _. case_bool; [done|by apply wp_call].
  - unfold GrantsOn. case_bool; [done|]. destruct (NewResource _ _); [by apply wp_call|done].
  - apply wp_Granted.
  - apply wp_mint.
  - apply wp_GetRunGrant.
  - apply wp_endRunGrant.
  - apply wp_endRunGrant.
  - apply wp_ChargeRunGrant.
  - apply wp_Invoke.
  - apply wp_OpenSandbox.
  - unfold ForCall. destruct (gw_signer g); [|done]. apply twp_bind; [apply wp_handable|]. wp_gateway.
  - unfold ForExec. destruct (gw_signer g); [|done]. apply twp_bind; [apply wp_handable|]. intros [[t grant]|] db1 _; [|done]. case_bool; [done|].
    apply twp_bind; [apply wp_open_all|]. wp_gateway.
Qed.

(** ** The system *)

(** The calls of a run that took effect: the grant, how many, within budget. *)
Definition note {R} (c : Call R) : R -> list (string * Z * bool) :=
  match c in Call R return R -> list (string * Z * bool) with
  | CCharge _ gid n _ enforce => fun r => match r with inl true => [(gid, n, enforce)] | _ => [] end
  | _ => fun _ => []
  end.

(** A condition on the calls of a run. *)
Definition Calls : Type := forall R, Call R -> AuthDB -> Prop.
Definition any_call : Calls := fun _ _ _ => True.

Record GSys := mkSys { s_actors : list (Tx unit); s_db : AuthDB; s_log : list (string * Z * bool) }.

Definition moves (Q : Calls) (p : Tx unit) (db : AuthDB) (p' : Tx unit) (db' : AuthDB) (evs : list (string * Z * bool)) : Prop :=
  match p with
  | TRet _ => False
  | TDo c k => Q _ c db /\ exists r, answers c db r db' /\ p' = k r /\ evs = note c r
  end.

(** A goroutine makes its next call; or the rest of the store (users, bindings,
    credentials) changes. *)
Inductive gstep (Q : Calls) : GSys -> GSys -> Prop :=
  | gs_actor i ps p p' db db' log evs :
      ps !! i = Some p -> moves Q p db p' db' evs -> gstep Q (mkSys ps db log) (mkSys (<[i := p']> ps) db' (log ++ evs))
  | gs_other ps db log users owners :
      gstep Q (mkSys ps db log) (mkSys ps (mkDB users owners (db_grants db) (db_heads db) (db_runs db)) log).

(** The operations, before any call, on a store without run grants. *)
Definition start (ops : list GrantOp) (db : AuthDB) : GSys := mkSys (map perform ops) db [].
Definition no_runs (db : AuthDB) : Prop := db_runs db = ∅ /\ db_heads db = ∅.

(** What every call preserves, given what its goroutine established, holds always. *)
Lemma gsys_invariant (Q : Calls) (I : AuthDB -> list (string * Z * bool) -> Prop) ops db s :
  good db -> I db [] -> rtc (gstep Q) (start ops db) s ->
  (forall R (c : Call R) db log r db', good db -> I db log -> pre c db -> Q R c db -> answers c db r db' -> I db' (log ++ note c r)%list) ->
  (forall db log users owners, I db log -> I (mkDB users owners (db_grants db) (db_heads db) (db_runs db)) log) ->
  (forall R (c : Call R) db r db', good db -> pre c db -> answers c db r db' -> good db') ->
  good (s_db s) /\ I (s_db s) (s_log s).
Proof.
  intros Hg HI Hr Hcall Hother Hgood.
  assert (H : good (s_db s) /\ I (s_db s) (s_log s) /\ Forall (fun p => wp p (s_db s)) (s_actors s)); [|tauto].
  assert (H0 : good db /\ I db [] /\ Forall (fun p => wp p db) (map perform ops)).
  { split; [done|]. split; [done|]. apply Forall_fmap, Forall_true. intros o. apply wp_perform. }
  change (good (s_db (start ops db)) /\ I (s_db (start ops db)) (s_log (start ops db)) /\
    Forall (fun p => wp p (s_db (start ops db))) (s_actors (start ops db))) in H0.
  clear HI Hg. induction Hr as [|s1 s2 s3 Hs _ IH]; [done|]. apply IH. clear IH. destruct H0 as (Hg & HI & Hw).
  destruct Hs as [i ps p p' d d' log evs Hi Hm|ps d log users owners]; cbn [s_db s_log s_actors] in *.
  - pose proof (Forall_lookup_1 _ _ _ _ Hw Hi) as Hp. destruct p as [x|R c k]; [done|]. destruct Hm as (HQ & r & Ha & -> & ->).
    destruct (Hp d ltac:(done) Hg) as [Hpre Hk]. split; [by eapply Hgood|]. split; [by eapply Hcall|].
    apply Forall_insert; [|by apply Hk]. eapply Forall_impl; [exact Hw|]. intros q Hq. eapply wp_ext; [|exact Hq]. by eapply answers_ext.
  - split; [exact Hg|]. split; [by apply Hother|]. eapply Forall_impl; [exact Hw|]. intros q Hq. eapply wp_ext; [|exact Hq]. by unfold ext.
Qed.

End System.

(** ** Narrowing *)

Lemma good_same db db' : cores (db_runs db') = cores (db_runs db) -> good db -> good db'.
Proof.
  intros E Hg rid g Hr. destruct (cores_lookup _ _ _ _ E Hr) as (g0 & H0 & Ec). eapply linked_core; [|symmetry; exact Ec|exact (Hg _ _ H0)].
  by rewrite E.
Qed.

Lemma good_answers {R} (c : Call R) db r db' : good db -> pre c db -> answers c db r db' -> good db'.
Proof.
  intros Hg Hpre [(ask & now & rnd & E)|[_ ->]]; [|done]. destruct c; cbn [exec] in E; simplify_eq; try done.
  - unfold insertGrant in E. cbv zeta in E. destruct (_ || _); by simplify_eq.
  - destruct Hpre as [Hj _]. apply insertRun_inv in E as [->|(m & gen & [? Ht Hf Hr _ _])]; [done|].
    intros rid x Hx. rewrite Hr in *.
    assert (Hsub : cores (db_runs db) ⊆ cores (<[rg_ID g := minted g gen (now0 / Second) (expires / Second)]> (supersede g (now0 / Second) m))).
    { unfold cores at 2. rewrite fmap_insert. fold (cores (supersede g (now0 / Second) m)). rewrite cores_supersede, (took_cores _ _ _ _ Ht).
      apply insert_subseteq. unfold cores. by rewrite lookup_fmap, Hf. }
    destruct (decide (rid = rg_ID g)) as [->|Hn].
    + rewrite lookup_insert_eq in Hx. injection Hx as <-. destruct Hj as (Hd & Hb & Hp). split; [done|]. split; [done|].
      intros Hne. destruct (Hp Hne) as (p & Hpm & Hbl). cbn [rg_Parent minted] in Hpm |- *.
      assert (Hc : cores (db_runs db) !! rg_Parent g = Some (core p)) by (unfold cores; by rewrite lookup_fmap, Hpm).
      eapply lookup_weaken in Hc; [|exact Hsub]. unfold cores in Hc. rewrite lookup_fmap in Hc. apply fmap_Some in Hc as (p' & Hp' & Ec).
      exists p'. split; [done|]. destruct Hbl. unfold core in Ec. injection Ec as E1 E2 E3 E4 E5 E6 E7 E8 E9. unfold allowed in *.
      split; unfold allowed; cbn in *; rewrite <- ?E1, <- ?E2, <- ?E3, <- ?E5, <- ?E8, <- ?E9; done.
    + rewrite lookup_insert_ne in Hx by done.
      assert (Ec : cores (supersede g (now0 / Second) m) = cores (db_runs db)) by (rewrite cores_supersede; by eapply took_cores).
      destruct (cores_lookup _ _ _ _ Ec Hx) as (g0 & H0 & E0). eapply linked_core; [exact Hsub|symmetry; exact E0|exact (Hg _ _ H0)].
  - pose proof (cores_endRun db e tenant id) as Ec. destruct (endRun db e tenant id). simplify_eq/=. by eapply good_same.
  - unfold charge in E. destruct (run_of db tenant id) as [g|] eqn:Er; [|by simplify_eq]. case_bool; simplify_eq; [|done].
    apply run_of_Some in Er as [Hr _]. eapply good_same; [|exact Hg]. cbn. by eapply cores_insert_same.
Qed.

(** C21: authority only narrows.  In every reachable state of any number of grant
    operations interleaved call by call, with failing calls, a run grant narrowed
    from another names nothing its parent does not, expires no later, is one level
    deeper and at most four levels deep, and has the parent's tenant and minting
    stack. *)
Theorem authority_narrows {GL : GatewayLib} ops db s gid g :
  no_runs db -> rtc (gstep any_call) (start ops db) s -> db_runs (s_db s) !! gid = Some g ->
  (0 <= rg_Depth g <= 4)%Z /\
  (rg_Parent g <> "" -> exists p, db_runs (s_db s) !! rg_Parent g = Some p /\
     rg_Tenant g = rg_Tenant p /\ rg_MintedBy g = rg_MintedBy p /\ rg_Depth g = (rg_Depth p + 1)%Z /\
     allowed g ⊆ allowed p /\ (rg_Expires g <= rg_Expires p)%Z).
Proof.
  intros [Hr _] Hrun Hg. assert (Hgood : good db) by (intros rid x Hx; by rewrite Hr, lookup_empty in Hx).
  destruct (gsys_invariant any_call (fun _ _ => True) ops db s Hgood I Hrun) as [Hs _]; [done|done|intros R c d r d'; apply good_answers|].
  destruct (Hs _ _ Hg) as (Hd & _ & Hp). split; [done|]. intros Hn. destruct (Hp Hn) as (p & Hpm & [? ? ? ? ? ?]). exists p. done.
Qed.
