(* ===== verification/RunGrantLedger.v ===== *)
(** * Run grants: budgets

    A grant's [spent_calls] is what was charged to it and the budgets of the
    grants narrowed from it.  So what is charged anywhere below a grant is within
    its budget. *)

From Stdlib Require Import Ascii String ZArith Lia Bool.
From stdpp Require Import base tactics list strings gmap sorting relations.
From S2P Require Import Prelude GoStrings GoStrconv Sandbox RunGrants Gateway RunGrantFacts.

#[local] Open Scope string_scope.

Definition sumZ (l : list Z) : Z := foldr Z.add 0%Z l.

Lemma sumZ_app l k : sumZ (l ++ k) = (sumZ l + sumZ k)%Z.
Proof. unfold sumZ. induction l as [|x l IH]; [done|]. cbn [app foldr]. rewrite IH. lia. Qed.
#[export] Instance sumZ_proper : Proper ((≡ₚ) ==> (=)) sumZ.
Proof. intros l k H. unfold sumZ. induction H; cbn [foldr]; lia. Qed.
Lemma sumZ_le {A} (f g : A -> Z) l : (forall x, x ∈ l -> (f x <= g x)%Z) -> (sumZ (map f l) <= sumZ (map g l))%Z.
Proof.
  intros H. unfold sumZ. induction l as [|x l IH]; [done|]. cbn [map foldr].
  pose proof (H x (list_elem_of_here _ _)). specialize (IH (fun y Hy => H y (list_elem_of_further _ _ _ Hy))). lia.
Qed.
Lemma sumZ_add {A} (f g : A -> Z) l : sumZ (map (fun x => f x + g x)%Z l) = (sumZ (map f l) + sumZ (map g l))%Z.
Proof. unfold sumZ. induction l as [|x l IH]; [done|]. cbn [map foldr]. rewrite IH. lia. Qed.

(** ** The grants narrowed from one *)

Definition kid (gid : string) (x : string * Core) : Prop := c_Parent x.2 = gid /\ gid <> "".
#[export] Instance kid_dec gid x : Decision (kid gid x).
Proof. unfold kid. apply _. Defined.
Definition kids (m : gmap string Core) (gid : string) : list (string * Core) := map_to_list (filter (kid gid) m).
Definition handed (m : gmap string Core) (gid : string) : Z := sumZ (map (fun x => c_Budget x.2) (kids m gid)).

Lemma kids_elem m gid i c : (i, c) ∈ kids m gid <-> m !! i = Some c /\ c_Parent c = gid /\ gid <> "".
Proof. unfold kids. rewrite elem_of_map_to_list, map_lookup_filter_Some. done. Qed.

Lemma handed_insert m gid i c : m !! i = None ->
  handed (<[i := c]> m) gid = ((if decide (kid gid (i, c)) then c_Budget c else 0) + handed m gid)%Z.
Proof.
  intros Hn. unfold handed, kids. destruct (decide (kid gid (i, c))) as [Hk|Hk].
  - rewrite map_filter_insert_True by done. rewrite map_to_list_insert by (apply map_lookup_filter_None; by left). done.
  - rewrite map_filter_insert_False by done. by rewrite delete_id.
Qed.

(** ** What was charged *)

Definition charged (log : list (string * Z * bool)) (gid : string) : Z :=
  sumZ (map (fun e => if e.1.1 =s gid then e.1.2 else 0%Z) log).
(** Of that, what a rule let through without the budget being enforced. *)
Definition overdrawn (log : list (string * Z * bool)) (gid : string) : Z :=
  sumZ (map (fun e => if (e.1.1 =s gid) && negb e.2 then e.1.2 else 0%Z) log).

Lemma charged_app log evs gid : charged (log ++ evs) gid = (charged log gid + charged evs gid)%Z.
Proof. unfold charged. by rewrite map_app, sumZ_app. Qed.
Lemma overdrawn_app log evs gid : overdrawn (log ++ evs) gid = (overdrawn log gid + overdrawn evs gid)%Z.
Proof. unfold overdrawn. by rewrite map_app, sumZ_app. Qed.

(** The books balance. *)
Record balanced (m : Runs_) (log : list (string * Z * bool)) : Prop := {
  ba_spent : forall gid g, m !! gid = Some g -> rg_Spent g = (charged log gid + handed (cores m) gid)%Z;
  ba_budget : forall gid g, m !! gid = Some g -> (rg_Spent g <= rg_Budget g + overdrawn log gid)%Z;
  ba_none : forall gid, m !! gid = None -> charged log gid = 0%Z /\ overdrawn log gid = 0%Z }.

Definition entry (g : RunGrant) : Core * Z := (core g, rg_Spent g).
Lemma entry_end e g : entry (end_row e g) = entry g.
Proof. by destruct e. Qed.

Lemma entries_cores (m m' : Runs_) : entry <$> m' = entry <$> m -> cores m' = cores m.
Proof.
  intros E. unfold cores. change core with (fst ∘ entry). rewrite !map_fmap_compose. by rewrite E.
Qed.
Lemma entries_none (m m' : Runs_) i : entry <$> m' = entry <$> m -> m' !! i = None -> m !! i = None.
Proof. intros E Hn. assert (H : (entry <$> m) !! i = None) by (by rewrite <- E, lookup_fmap, Hn). rewrite lookup_fmap in H. by apply fmap_None in H. Qed.

Lemma balanced_same m m' log : entry <$> m' = entry <$> m -> balanced m log -> balanced m' log.
Proof.
  intros E [H1 H2 H3]. rewrite <- (entries_cores _ _ E) in H1. split.
  - intros gid g Hg. destruct (fmap_lookup_same entry _ _ _ _ E Hg) as (g0 & H0 & Ee). apply (f_equal snd) in Ee. cbn in Ee. rewrite <- Ee. by eapply H1.
  - intros gid g Hg. destruct (fmap_lookup_same entry _ _ _ _ E Hg) as (g0 & H0 & Ee). pose proof (f_equal snd Ee) as Es.
    pose proof (f_equal (fun e => c_Budget e.1) Ee) as Eb. cbn in Es, Eb. rewrite <- Es, <- Eb. by eapply H2.
  - intros gid Hn. apply H3. by eapply entries_none.
Qed.

(** A charge of [n] on a row. *)
Lemma balanced_charge m log gid g n enforce :
  m !! gid = Some g -> (enforce = true -> (rg_Spent g + n <= rg_Budget g)%Z) -> (1 <= n)%Z -> (0 <= overdrawn log gid)%Z ->
  balanced m log -> balanced (<[gid := spend n g]> m) (log ++ [(gid, n, enforce)]).
Proof.
  intros Hg Hb Hn Ho [H1 H2 H3]. assert (Ec : cores (<[gid := spend n g]> m) = cores m) by (by eapply cores_insert_same).
  assert (E1 : forall i, charged [(gid, n, enforce)] i = if gid =s i then n else 0%Z).
  { intros i. unfold charged, sumZ; cbn. case_bool; lia. }
  assert (E2 : forall i, overdrawn [(gid, n, enforce)] i = if (gid =s i) && negb enforce then n else 0%Z).
  { intros i. unfold overdrawn, sumZ; cbn. case_bool; lia. }
  split.
  - intros i x Hx. rewrite Ec, charged_app, E1. destruct (String.eqb_spec gid i) as [<-|Hne].
    + rewrite lookup_insert_eq in Hx. simplify_eq. cbn. rewrite (H1 _ _ Hg). lia.
    + rewrite lookup_insert_ne in Hx by done. rewrite (H1 _ _ Hx). lia.
  - intros i x Hx. rewrite overdrawn_app, E2. destruct (String.eqb_spec gid i) as [<-|Hne]; cbn [andb].
    + rewrite lookup_insert_eq in Hx. simplify_eq. cbn. pose proof (H2 _ _ Hg). destruct enforce; cbn [negb]; [specialize (Hb eq_refl)|]; lia.
    + rewrite lookup_insert_ne in Hx by done. pose proof (H2 _ _ Hx). lia.
  - intros i Hi. apply lookup_insert_None in Hi as [Hi Hne]. rewrite charged_app, overdrawn_app, E1, E2.
    destruct (String.eqb_spec gid i); [done|]. destruct (H3 _ Hi). cbn [andb]. lia.
Qed.

Lemma overdrawn_nonneg log gid : Forall (fun e => (1 <= e.1.2)%Z) log -> (0 <= overdrawn log gid)%Z.
Proof. unfold overdrawn, sumZ. induction 1 as [|e log He _ IH]; [done|]. cbn [map foldr]. case_bool; lia. Qed.

Lemma handed_fresh db gid : good db -> db_runs db !! gid = None -> handed (cores (db_runs db)) gid = 0%Z.
Proof.
  intros Hg Hn. unfold handed. destruct (kids (cores (db_runs db)) gid) as [|[i c] l] eqn:E; [done|].
  assert (Hin : (i, c) ∈ kids (cores (db_runs db)) gid) by (rewrite E; apply list_elem_of_here).
  apply kids_elem in Hin as (Hi & Hp & Hne). unfold cores in Hi. rewrite lookup_fmap in Hi. apply fmap_Some in Hi as (g & Hi & ->).
  cbn in Hp. subst gid. destruct (Hg _ _ Hi) as (_ & _ & Hpar). destruct (Hpar Hne) as (p & Hp & _). congruence.
Qed.

Lemma took_lookup db g stamp m gid x : took db g stamp m -> m !! gid = Some x ->
  exists x0, db_runs db !! gid = Some x0 /\ core x = core x0 /\
    ((gid <> rg_Parent g \/ rg_Parent g = "") /\ rg_Spent x = rg_Spent x0 \/
     gid = rg_Parent g /\ rg_Parent g <> "" /\ rg_Spent x = (rg_Spent x0 + rg_Budget g)%Z /\ (rg_Spent x0 + rg_Budget g <= rg_Budget x0)%Z).
Proof.
  intros [E|p E Hp Ht Hl Hb] Hx; [exists x; auto 7|]. destruct (decide (gid = rg_Parent g)) as [->|Hn].
  - rewrite lookup_insert_eq in Hx. simplify_eq. exists p. auto 7.
  - rewrite lookup_insert_ne in Hx by done. exists x. auto 7.
Qed.

Lemma balanced_mint db g generation now expires m gen db' log :
  good db -> mints db g generation now expires m gen db' -> (1 <= rg_Budget g)%Z -> Forall (fun e => (1 <= e.1.2)%Z) log ->
  balanced (db_runs db) log -> balanced (db_runs db') log.
Proof.
  intros Hgood [_ Ht Hf Hr _ _] Hbud Hlog [H1 H2 H3]. rewrite Hr. set (row := minted _ _ _ _).
  assert (Es : entry <$> supersede g (now / Second) m = entry <$> m) by apply fmap_supersede, entry_end.
  assert (Ec : cores (supersede g (now / Second) m) = cores (db_runs db)) by (rewrite cores_supersede; by eapply took_cores).
  assert (Hh : forall gid, handed (cores (<[rg_ID g := row]> (supersede g (now / Second) m))) gid =
    ((if decide (kid gid (rg_ID g, core row)) then rg_Budget g else 0) + handed (cores (db_runs db)) gid)%Z).
  { intros gid. unfold cores at 1. rewrite fmap_insert. fold (cores (supersede g (now / Second) m)). rewrite Ec.
    rewrite handed_insert by (unfold cores; by rewrite lookup_fmap, Hf). done. }
  assert (Hpar : rg_Parent g <> "" -> rg_ID g <> rg_Parent g) by (intros Hne E; destruct Ht as [|p ? Hp]; congruence).
  assert (Hrow : forall gid x, <[rg_ID g := row]> (supersede g (now / Second) m) !! gid = Some x ->
    (gid = rg_ID g /\ x = row) \/ exists x1, gid <> rg_ID g /\ m !! gid = Some x1 /\ entry x1 = entry x).
  { intros gid x Hx. destruct (decide (gid = rg_ID g)) as [->|Hn]; [rewrite lookup_insert_eq in Hx; left; by simplify_eq|].
    rewrite lookup_insert_ne in Hx by done. destruct (fmap_lookup_same entry _ _ _ _ Es Hx) as (x1 & ? & ?). right. eauto. }
  split.
  - intros gid x Hx. rewrite Hh. destruct (Hrow _ _ Hx) as [[-> ->]|(x1 & Hn & Hx1 & Ee)].
    + destruct (H3 _ Hf) as [-> _]. rewrite handed_fresh by done. rewrite decide_False; [done|].
      unfold kid; cbn. intros [Hp Hne]. apply Hpar; [congruence|done].
    + apply (f_equal snd) in Ee. cbn in Ee. rewrite <- Ee.
      destruct (took_lookup _ _ _ _ _ _ Ht Hx1) as (x0 & H0 & _ & [[Hd ->]|(-> & Hne & -> & _)]); rewrite (H1 _ _ H0).
      * rewrite decide_False; [lia|]. unfold kid; cbn. intros [Hp Hne]. destruct Hd; congruence.
      * rewrite decide_True by done. lia.
  - intros gid x Hx. pose proof (overdrawn_nonneg log gid Hlog). destruct (Hrow _ _ Hx) as [[-> ->]|(x1 & Hn & Hx1 & Ee)].
    + cbn. lia.
    + pose proof (f_equal snd Ee) as Esp. pose proof (f_equal (fun e => c_Budget e.1) Ee) as Eb. cbn in Esp, Eb. rewrite <- Esp, <- Eb.
      destruct (took_lookup _ _ _ _ _ _ Ht Hx1) as (x0 & H0 & Ec0 & [[Hd ->]|(-> & Hne & -> & Hle)]);
        apply (f_equal c_Budget) in Ec0; cbn in Ec0; rewrite Ec0; [by apply H2|lia].
  - intros gid Hx. apply lookup_insert_None in Hx as [Hx _]. apply H3.
    apply (f_equal (fun c => c !! gid)) in Ec. unfold cores in Ec. rewrite !lookup_fmap, Hx in Ec. by destruct (db_runs db !! gid).
Qed.

Definition books (db : AuthDB) (log : list (string * Z * bool)) : Prop :=
  Forall (fun e => (1 <= e.1.2)%Z) log /\ balanced (db_runs db) log.

Lemma books_answers {R} (c : Call R) db log r db' :
  good db -> books db log -> pre c db -> answers c db r db' -> books db' (log ++ note c r).
Proof.
  intros Hg [Hlog Hb] Hpre [(ask & now & rnd & E)|[Hf ->]].
  - destruct c; cbn [exec] in E; simplify_eq; cbn [note]; rewrite ?app_nil_r; try done.
    + unfold insertGrant in E. cbv zeta in E. destruct (_ || _); by simplify_eq.
    + destruct Hpre as [(_ & Hbud & _) _]. apply insertRun_inv in E as [->|(m & gen & Hm)]; [done|]. split; [done|]. by eapply balanced_mint.
    + pose proof (fmap_endRun entry entry_end db e tenant id) as Ee. destruct (endRun db e tenant id). simplify_eq/=. rewrite ?app_nil_r.
      split; [done|]. by eapply balanced_same.
    + unfold charge in E. cbn in Hpre. destruct (run_of db tenant id) as [g|] eqn:Er; [|simplify_eq; by rewrite app_nil_r].
      destruct (liveRun g stamp && _) eqn:Ec; simplify_eq; [|by rewrite app_nil_r]. apply run_of_Some in Er as [Hr _]. bool_to_prop.
      split; [apply Forall_app; split; [done|by apply Forall_singleton]|]. cbn [db_runs set_runs].
      apply balanced_charge; [done| |done|by apply overdrawn_nonneg|done]. intros ->. cbn in *. lia.
  - assert (En : note c r = []) by (destruct c; cbn in *; by simplify_eq). rewrite En, app_nil_r. done.
Qed.

(** ** The tree below a grant *)

(** [f] summed over a grant and everything narrowed from it, [depth] levels down. *)
Fixpoint tree (f : string -> Z) (m : gmap string Core) (depth : nat) (gid : string) : Z :=
  f gid + match depth with O => 0 | S depth => sumZ (map (fun x => tree f m depth x.1) (kids m gid)) end.

(** C20: budgets are conserved.  In every reachable state of any number of grant
    operations interleaved call by call, with failing calls, the calls ever
    charged to a run grant and to all the grants narrowed from it, at any depth,
    are at most its own budget, but for the charges that were made without
    enforcing it. *)
Theorem budget_conserved {GL : GatewayLib} ops db s gid g depth :
  no_runs db -> rtc (gstep any_call) (start ops db) s -> db_runs (s_db s) !! gid = Some g ->
  (tree (charged (s_log s)) (cores (db_runs (s_db s))) depth gid
   <= rg_Budget g + tree (overdrawn (s_log s)) (cores (db_runs (s_db s))) depth gid)%Z.
Proof.
  intros [Hr _] Hrun. assert (Hgood : good db) by (intros rid x Hx; by rewrite Hr, lookup_empty in Hx).
  destruct (gsys_invariant any_call books ops db s Hgood) as [Hs [Hlog [H1 H2 _]]]; [| |intros R c d log r d' ? ? ? _; by apply books_answers|done|intros R c d r d'; apply good_answers|].
  { split; [constructor|]. rewrite Hr. split; [done..|]. done. }
  { done. }
  assert (Hkids : forall depth gid, (forall i x, db_runs (s_db s) !! i = Some x -> (tree (charged (s_log s)) (cores (db_runs (s_db s))) depth i
      <= rg_Budget x + tree (overdrawn (s_log s)) (cores (db_runs (s_db s))) depth i)%Z) ->
    (sumZ (map (fun x => tree (charged (s_log s)) (cores (db_runs (s_db s))) depth x.1) (kids (cores (db_runs (s_db s))) gid))
     <= handed (cores (db_runs (s_db s))) gid +
        sumZ (map (fun x => tree (overdrawn (s_log s)) (cores (db_runs (s_db s))) depth x.1) (kids (cores (db_runs (s_db s))) gid)))%Z).
  { intros n i IH. unfold handed. rewrite <- sumZ_add. apply sumZ_le. intros [j c] Hin. apply kids_elem in Hin as (Hj & _ & _).
    unfold cores in Hj. rewrite lookup_fmap in Hj. apply fmap_Some in Hj as (x & Hj & ->). exact (IH _ _ Hj). }
  assert (Hpos : forall gid, (0 <= handed (cores (db_runs (s_db s))) gid)%Z).
  { intros i. unfold handed. etrans; [|apply (sumZ_le (fun _ => 0%Z))].
    - clear. induction (kids _ _) as [|x l IH]; [done|]. unfold sumZ in *. cbn [map foldr]. lia.
    - intros [j c] Hin. apply kids_elem in Hin as (Hj & _ & _). unfold cores in Hj. rewrite lookup_fmap in Hj.
      apply fmap_Some in Hj as (x & Hj & ->). destruct (Hs _ _ Hj) as (_ & Hb & _). cbn. lia. }
  revert gid g; induction depth as [|depth IH]; intros gid g Hg; cbn [tree]; pose proof (H1 _ _ Hg); pose proof (H2 _ _ Hg); pose proof (Hpos gid); [lia|].
  pose proof (Hkids depth gid IH). lia.
Qed.
