(* ===== verification/RunGrantLives.v ===== *)
(** * Run grants: generations, and ending what was narrowed *)

From Stdlib Require Import Ascii String ZArith Lia Bool.
From stdpp Require Import base tactics list strings gmap sorting relations.
From S2P Require Import Prelude GoStrings GoStrconv Sandbox RunGrants Gateway RunGrantFacts.

#[local] Open Scope string_scope.

(** ** Endings *)

Lemma ended_end_row e g : ended (end_row e g) = true.
Proof. destruct e; unfold ended; cbn; [apply orb_true_r|done]. Qed.

(** [closes m m']: the same rows, of which some more have ended. *)
Definition closes (m m' : Runs_) : Prop :=
  cores m' = cores m /\ forall i g g', m !! i = Some g -> m' !! i = Some g' -> ended g = true -> ended g' = true.

Lemma closes_refl m : closes m m.
Proof. split; [done|]. intros. by simplify_eq. Qed.
Lemma closes_trans m1 m2 m3 : closes m1 m2 -> closes m2 m3 -> closes m1 m3.
Proof.
  intros [E1 H1] [E2 H2]. split; [congruence|]. intros i g g' Hg Hg' He. destruct (cores_lookup _ _ _ _ E2 Hg') as (g2 & Hg2 & _). eauto.
Qed.

Lemma end_where_lookup e cond m i g : end_where e cond m !! i = Some g <->
  exists g0, m !! i = Some g0 /\ g = if cond g0 && negb (ended g0) then end_row e g0 else g0.
Proof. unfold end_where. rewrite lookup_fmap, fmap_Some. done. Qed.

Lemma closes_end_where e cond m : closes m (end_where e cond m).
Proof.
  split; [apply fmap_end_where, core_end|]. intros i g g' Hg (g0 & Hg0 & ->)%end_where_lookup He. simplify_eq.
  rewrite He. cbn [negb]. by rewrite andb_false_r.
Qed.
Lemma closes_endDescendants depth e tenant level m : closes m (endDescendants depth e tenant level m).
Proof.
  revert level m; induction depth as [|depth IH]; intros level m; cbn [endDescendants]; [apply closes_refl|].
  destruct level as [|a level]; [apply closes_refl|]. eapply closes_trans; [apply closes_end_where|apply IH].
Qed.
Lemma closes_supersede g stamp m : closes m (supersede g stamp m).
Proof. eapply closes_trans; [apply closes_end_where|apply closes_endDescendants]. Qed.

Lemma closes_back m m' i g' : closes m m' -> m' !! i = Some g' -> exists g, m !! i = Some g /\ core g = core g'.
Proof. intros [E _] Hg. by apply (cores_lookup _ _ _ _ E). Qed.

(** ** Generations *)

Definition newest (db : AuthDB) : Prop := forall gid g, db_runs db !! gid = Some g ->
  exists gen hid, db_heads db !! run_key g = Some (gen, hid) /\ (rg_Generation g <= gen)%Z /\ (ended g = false -> rg_Generation g = gen /\ hid = gid).

Lemma run_key_core g g' : core g = core g' -> run_key g = run_key g' /\ rg_Generation g = rg_Generation g'.
Proof. unfold core, run_key. intros E. injection E as -> -> -> -> _ _ _ _ _. done. Qed.

Lemma newest_closes db db' : closes (db_runs db) (db_runs db') -> db_heads db' = db_heads db -> newest db -> newest db'.
Proof.
  intros Hc Hh Hn gid g' Hg'. destruct (closes_back _ _ _ _ Hc Hg') as (g & Hg & Ec). apply run_key_core in Ec as [Ek Egen].
  destruct (Hn _ _ Hg) as (gen & hid & Hhd & Hle & Hlast). rewrite Hh, <- Ek, <- Egen. exists gen, hid. split; [done|]. split; [done|].
  intros He. apply Hlast. destruct (ended g) eqn:E; [|done]. destruct Hc as [_ Hc]. by rewrite (Hc _ _ _ Hg Hg' E) in He.
Qed.

Lemma same_run_key x g : same_run x g = true <-> run_key x = run_key g.
Proof.
  unfold same_run, run_key. rewrite !andb_true_iff, !String.eqb_eq. split; [intros [[-> ->] ->]; done|]. intros [= -> -> ->]. done.
Qed.

Lemma next_generation_above hd generation gen : next_generation hd generation = Some gen ->
  match hd with None => True | Some (cur, _) => (cur < gen)%Z end.
Proof. unfold next_generation. destruct hd as [[cur hid]|]; [|done]. repeat case_bool; intros [= <-]; lia. Qed.

Lemma took_closes db g stamp m : took db g stamp m -> closes (db_runs db) m.
Proof.
  intros Ht. split; [by eapply took_cores|]. destruct Ht as [_|p _ Hp _ _ _]; intros i x x' Hx Hx' He; [by simplify_eq|].
  destruct (decide (i = rg_Parent g)) as [->|Hn]; [rewrite lookup_insert_eq in Hx'; by simplify_eq|].
  rewrite lookup_insert_ne in Hx' by done. by simplify_eq.
Qed.

Lemma superseded g stamp m i x : supersede g stamp m !! i = Some x -> run_key x = run_key g -> ended x = true.
Proof.
  intros Hx Hk. unfold supersede in Hx. set (e := Closing stamp "superseded") in *.
  pose proof (closes_endDescendants MaxRunDepth e (rg_Tenant g) (ids_where (fun x => same_run x g && negb (ended x)) m) (end_where e (fun x => same_run x g) m)) as Hc.
  destruct (closes_back _ _ _ _ Hc Hx) as (x1 & Hx1 & Ec). destruct Hc as [_ Hc]. apply (Hc _ _ _ Hx1 Hx).
  apply end_where_lookup in Hx1 as (x0 & Hx0 & ->).
  assert (Ek : run_key x0 = run_key g).
  { destruct (run_key_core _ _ Ec) as [E _]. rewrite <- Hk, <- E. case_bool; [|done]. apply run_key_core. symmetry. apply core_end. }
  apply same_run_key in Ek. rewrite Ek. destruct (ended x0) eqn:E0; cbn [negb andb]; [done|apply ended_end_row].
Qed.

Lemma newest_mint db g generation now expires m gen db' : mints db g generation now expires m gen db' -> newest db -> newest db'.
Proof.
  intros [Hgen Ht Hf Hr Hh _] Hn gid x Hx. rewrite Hr in Hx. rewrite Hh.
  destruct (decide (gid = rg_ID g)) as [->|Hne].
  - rewrite lookup_insert_eq in Hx. injection Hx as <-. exists gen, (rg_ID g). split; [|split; [cbn; lia|done]].
    change (run_key (minted _ _ _ _)) with (run_key g). apply lookup_insert_eq.
  - rewrite lookup_insert_ne in Hx by done.
    pose proof (closes_trans _ _ _ (took_closes _ _ _ _ Ht) (closes_supersede g (now / Second) m)) as Hc.
    destruct (closes_back _ _ _ _ Hc Hx) as (x0 & Hx0 & Ec). destruct (run_key_core _ _ Ec) as [Ek Egen].
    destruct (Hn _ _ Hx0) as (gen0 & hid & Hhd & Hle & Hlast). destruct (decide (run_key x = run_key g)) as [Eg|Eg].
    + exists gen, (rg_ID g). rewrite Eg. split; [apply lookup_insert_eq|]. rewrite Ek, Eg in Hhd. apply next_generation_above in Hgen. rewrite Hhd in Hgen.
      split; [lia|]. intros He. pose proof (superseded _ _ _ _ _ Hx Eg). congruence.
    + exists gen0, hid. rewrite lookup_insert_ne by congruence. rewrite <- Ek, <- Egen. split; [done|]. split; [done|]. intros He. apply Hlast.
      destruct (ended x0) eqn:E0; [|done]. destruct Hc as [_ Hc]. pose proof (Hc _ _ _ Hx0 Hx E0). congruence.
Qed.

Lemma closes_endRun db e tenant gid : closes (db_runs db) (db_runs (endRun db e tenant gid).2).
Proof.
  cbn -[endDescendants]. eapply closes_trans; [|apply closes_endDescendants]. split; [apply (fmap_alter_same core); intros x; case_bool; [apply core_end|done]|].
  intros i x x' Hx Hx' He. destruct (decide (i = gid)) as [->|Hn].
  - rewrite lookup_alter_eq, Hx in Hx'. cbn in Hx'. simplify_eq. case_bool; [apply ended_end_row|done].
  - rewrite lookup_alter_ne in Hx' by done. by simplify_eq.
Qed.

(** Every call but a mint only ends rows. *)
Lemma answers_shape {R} (c : Call R) db r db' : answers c db r db' ->
  (closes (db_runs db) (db_runs db') /\ db_heads db' = db_heads db) \/
  exists g generation now expires m gen, mints db g generation now expires m gen db'.
Proof.
  intros [(ask & now & rnd & E)|[_ ->]]; [|left; split; [apply closes_refl|done]].
  destruct c; cbn [exec] in E; simplify_eq; try (left; split; [apply closes_refl|done]).
  - left. unfold insertGrant in E. cbv zeta in E. destruct (_ || _); simplify_eq; (split; [apply closes_refl|done]).
  - apply insertRun_inv in E as [->|(m & gen & Hm)]; [left; split; [apply closes_refl|done]|right; eauto 7].
  - left. pose proof (closes_endRun db e tenant id) as Hc. destruct (endRun db e tenant id) as [hit d] eqn:Ee. simplify_eq/=. split; [done|].
    by injection Ee as _ <-.
  - left. unfold charge in E. destruct (run_of db tenant id) as [g|] eqn:Er; [|simplify_eq; split; [apply closes_refl|done]].
    case_bool; simplify_eq; [|split; [apply closes_refl|done]]. split; [|done]. apply run_of_Some in Er as [Hr _]. cbn.
    split; [by eapply cores_insert_same|]. intros i x x' Hx Hx' He. destruct (decide (i = id)) as [->|Hn].
    + rewrite lookup_insert_eq in Hx'. by simplify_eq.
    + rewrite lookup_insert_ne in Hx' by done. by simplify_eq.
Qed.

(** C23: only the newest generation of a run holds.  In every reachable state of
    any number of grant operations interleaved call by call, with failing calls,
    two grants of one run that have not ended are the same grant, and no grant of
    the run has a later generation. *)
Theorem newest_generation_only {GL : GatewayLib} ops db s i1 g1 i2 g2 :
  no_runs db -> rtc (gstep any_call) (start ops db) s ->
  db_runs (s_db s) !! i1 = Some g1 -> db_runs (s_db s) !! i2 = Some g2 -> run_key g1 = run_key g2 -> ended g1 = false ->
  (rg_Generation g2 <= rg_Generation g1)%Z /\ (ended g2 = false -> i1 = i2).
Proof.
  intros [Hr _] Hrun Hg1 Hg2 Hk He. assert (Hgood : good db) by (intros rid x Hx; by rewrite Hr, lookup_empty in Hx).
  destruct (gsys_invariant any_call (fun d _ => newest d) ops db s Hgood) as [_ Hn]; [|done| |done|intros R c d r d'; apply good_answers|].
  - intros gid g Hg. by rewrite Hr, lookup_empty in Hg.
  - intros R c d log r d' _ Hn _ _ Ha. apply answers_shape in Ha as [[Hc Hh]|(g & generation & now & expires & m & gen & Hm)];
      [by eapply newest_closes|by eapply newest_mint].
  - destruct (Hn _ _ Hg1) as (gen & hid & Hh & _ & Hl1). destruct (Hn _ _ Hg2) as (gen2 & hid2 & Hh2 & Hle & Hl2).
    rewrite Hk, Hh2 in Hh. simplify_eq. destruct (Hl1 He) as [-> ->]. split; [done|]. intros He2. by destruct (Hl2 He2) as [_ ->].
Qed.
