(* ===== verification/RunGrantTree.v ===== *)
(** * Run grants: ending a grant ends what was narrowed from it

    The source keeps the tree in [parent_grant] and walks it down level by level
    in [endDescendants], at most [MaxRunDepth] levels.  That many are enough,
    because no row is deeper; so a grant that still holds stands on ancestors that
    all hold, as long as no run is minted below itself. *)

From Stdlib Require Import Ascii String ZArith Lia Bool.
From stdpp Require Import base tactics list strings gmap sorting relations.
From S2P Require Import Prelude GoStrings GoStrconv Sandbox RunGrants Gateway RunGrantFacts RunGrantLives.

#[local] Open Scope string_scope.

(** A row and the row it was narrowed from. *)
Definition up (m : Runs_) (i j : string) : Prop := exists g, m !! i = Some g /\ rg_Parent g = j /\ j <> "".
Abbreviation above m := (rtc (up m)).

Lemma up_cores m m' i j : cores m' = cores m -> up m i j -> up m' i j.
Proof.
  intros E (g & Hg & Hp & Hn). destruct (cores_lookup _ _ _ _ (eq_sym E) Hg) as (g' & Hg' & Ec). exists g'. split; [done|].
  apply (f_equal c_Parent) in Ec. cbn in Ec. by rewrite Ec.
Qed.
Lemma above_cores m m' i j : cores m' = cores m -> above m i j -> above m' i j.
Proof. intros E. induction 1; [done|]. eapply rtc_l; [by eapply up_cores|done]. Qed.

(** [sealed except m]: no row outlives its parent, but for the excepted rows. *)
Definition sealed (except : RunGrant -> bool) (m : Runs_) : Prop :=
  forall i g p, m !! i = Some g -> rg_Parent g <> "" -> m !! rg_Parent g = Some p -> ended p = true -> except g = true \/ ended g = true.
Definition nothing : RunGrant -> bool := fun _ => false.
Definition tied (m : Runs_) : Prop := forall i g, m !! i = Some g -> linked m g.

Lemma tied_cores m m' : cores m' = cores m -> tied m -> tied m'.
Proof.
  intros E Ht i g' Hg'. destruct (cores_lookup _ _ _ _ E Hg') as (g & Hg & Ec). eapply linked_core; [|symmetry; exact Ec|exact (Ht _ _ Hg)].
  by rewrite E.
Qed.

Lemma child_of_true tenant level g : child_of tenant level g = true <-> rg_Tenant g = tenant /\ rg_Parent g <> "" /\ rg_Parent g ∈ level.
Proof.
  unfold child_of. rewrite !andb_true_iff, negb_true_iff, String.eqb_eq, String.eqb_neq, bool_decide_eq_true. tauto.
Qed.
Lemma ids_where_elem cond m i : i ∈ ids_where cond m <-> exists g, m !! i = Some g /\ cond g = true.
Proof.
  unfold ids_where. rewrite list_elem_of_fmap. split.
  - intros ([j g] & -> & H). apply elem_of_map_to_list, map_lookup_filter_Some in H as [H1 H2]. eauto.
  - intros (g & H1 & H2). exists (i, g). split; [done|]. by apply elem_of_map_to_list, map_lookup_filter_Some.
Qed.

(** Ending the rows that meet [cond] leaves their children as the only exceptions. *)
Lemma sealed_end_where e tenant except cond m :
  tied m -> (forall g, cond g = true -> rg_Tenant g = tenant) -> (forall g, except g = true -> cond g = true) ->
  sealed except m -> forall level, (forall i g, m !! i = Some g -> cond g = true -> ended g = false -> i ∈ level) ->
  sealed (child_of tenant level) (end_where e cond m).
Proof.
  intros Ht Hten Hex Hs level Hl i g p (g0 & Hg0 & Eg)%end_where_lookup Hne (p0 & Hp0 & Ep)%end_where_lookup He.
  assert (Ec : rg_Parent g = rg_Parent g0 /\ rg_Tenant g = rg_Tenant g0) by (subst g; case_bool; [by destruct e|done]).
  destruct Ec as [Epar Eten]. rewrite Epar in Hp0, Hne. destruct (ended p0) eqn:E0.
  - right. destruct (Hs _ _ _ Hg0 Hne Hp0 E0) as [Hx|Hx]; subst g.
    + rewrite (Hex _ Hx). cbn [andb]. destruct (ended g0) eqn:Eg0; [done|]. apply ended_end_row.
    + by rewrite Hx, andb_false_r.
  - left. destruct (cond p0) eqn:Ecp; [|by subst p; cbn in He; congruence]. apply child_of_true. rewrite Epar, Eten.
    destruct (Ht _ _ Hg0) as (_ & _ & Hpar). destruct (Hpar Hne) as (p1 & Hp1 & [Hbt _ _ _ _ _]). simplify_eq.
    split; [rewrite Hbt; by apply Hten|]. split; [done|]. by eapply Hl.
Qed.

Lemma sealed_empty tenant m : sealed (child_of tenant []) m -> sealed nothing m.
Proof. intros Hs i g p Hg Hn Hp He. destruct (Hs _ _ _ Hg Hn Hp He) as [H|H]; [|by right]. apply child_of_true in H as (_ & _ & H). by apply elem_of_nil in H. Qed.

(** The levels that are left reach the bottom of the tree. *)
Lemma sealed_endDescendants depth e tenant level m :
  tied m -> (forall i g, i ∈ level -> m !! i = Some g -> (Z.of_nat MaxRunDepth <= rg_Depth g + Z.of_nat depth)%Z) ->
  sealed (child_of tenant level) m -> sealed nothing (endDescendants depth e tenant level m).
Proof.
  revert level m; induction depth as [|depth IH]; intros level m Ht Hd Hs; cbn [endDescendants].
  - intros i g p Hg Hn Hp He. destruct (Hs _ _ _ Hg Hn Hp He) as [H|H]; [|by right]. apply child_of_true in H as (_ & _ & H).
    destruct (Ht _ _ Hg) as ([_ Hmax] & _ & Hpar). destruct (Hpar Hn) as (p1 & Hp1 & [_ _ Hdep _ _ _]). simplify_eq.
    specialize (Hd _ _ H Hp). lia.
  - destruct level as [|a level]; [by apply sealed_empty in Hs|]. set (L := a :: level) in *.
    pose proof (proj1 (closes_end_where e (child_of tenant L) m)) as Ec. apply IH.
    + by eapply tied_cores.
    + intros i g' (g & Hg & Hc)%ids_where_elem Hg'. destruct (cores_lookup _ _ _ _ Ec Hg') as (g0 & Hg0 & Eg).
      rewrite Hg in Hg0; injection Hg0 as <-. apply (f_equal c_Depth) in Eg. cbn in Eg. apply child_of_true in Hc as (_ & Hn & Hin).
      destruct (Ht _ _ Hg) as (_ & _ & Hpar). destruct (Hpar Hn) as (p & Hp & [_ _ Hdep _ _ _]). specialize (Hd _ _ Hin Hp). lia.
    + eapply sealed_end_where; [done| |by intros g|done|].
      * intros g Hc. by apply child_of_true in Hc as [? _].
      * intros i g Hg Hc _. apply ids_where_elem. eauto.
Qed.

Lemma deep_enough m (level : list string) : tied m -> forall i g, i ∈ level -> m !! i = Some g -> (Z.of_nat MaxRunDepth <= rg_Depth g + Z.of_nat MaxRunDepth)%Z.
Proof. intros Ht i g _ Hg. destruct (Ht _ _ Hg) as ([Hd _] & _). lia. Qed.

Lemma sealed_supersede g stamp m : tied m -> sealed nothing m -> sealed nothing (supersede g stamp m).
Proof.
  intros Ht Hs. unfold supersede. pose proof (proj1 (closes_end_where (Closing stamp "superseded") (fun x => same_run x g) m)) as Ec.
  assert (Ht' : tied (end_where (Closing stamp "superseded") (fun x => same_run x g) m)) by (by eapply tied_cores).
  apply sealed_endDescendants; [done|by apply deep_enough|].
  eapply sealed_end_where; [done| | |exact Hs|]; [|done|].
  - intros x Hx. apply same_run_key in Hx. unfold run_key in Hx. by injection Hx.
  - intros i x Hx Hc He. apply ids_where_elem. exists x. by rewrite Hc, He.
Qed.

Lemma sealed_endRun db e tenant gid : tied (db_runs db) -> sealed nothing (db_runs db) -> sealed nothing (db_runs (endRun db e tenant gid).2).
Proof.
  intros Ht Hs. unfold endRun. cbn -[endDescendants MaxRunDepth]. set (f := fun g : RunGrant => _).
  assert (Ef : forall g, core (f g) = core g) by (intros g; unfold f; case_bool; [apply core_end|done]).
  pose proof (fmap_alter_same core (db_runs db) gid f Ef) as Ec. fold (cores (alter f gid (db_runs db))) (cores (db_runs db)) in Ec.
  apply sealed_endDescendants; [by eapply tied_cores|apply deep_enough; by eapply tied_cores|].
  intros i g' p' Hg' Hn Hp' He. destruct (cores_lookup _ _ _ _ Ec Hg') as (g & Hg & Eg). destruct (cores_lookup _ _ _ _ Ec Hp') as (p & Hp & Ep).
  pose proof (f_equal c_Parent Eg) as Epar. pose proof (f_equal c_Tenant Eg) as Eten. cbn in Epar, Eten. rewrite <- Epar in *.
  assert (Hkeep : ended g = true -> ended g' = true).
  { intros H. destruct (decide (i = gid)) as [->|Hni].
    - rewrite lookup_alter_eq, Hg in Hg'. cbn in Hg'. simplify_eq. unfold f. case_bool; [apply ended_end_row|done].
    - rewrite lookup_alter_ne, Hg in Hg' by done. by simplify_eq. }
  destruct (ended p) eqn:E0.
  - right. apply Hkeep. by destruct (Hs _ _ _ Hg Hn Hp E0).
  - left. destruct (decide (rg_Parent g = gid)) as [<-|Hne].
    + rewrite lookup_alter_eq, Hp in Hp'. cbn in Hp'. simplify_eq. unfold f in He. destruct (_ && _) eqn:Eh in He; [|congruence].
      apply andb_true_iff in Eh as [Et _]. apply String.eqb_eq in Et. apply child_of_true.
      rewrite <- Eten, <- Epar. destruct (Ht _ _ Hg) as (_ & _ & Hpar). destruct (Hpar Hn) as (p1 & Hp1 & [Hbt _ _ _ _ _]). simplify_eq.
      split; [done|]. split; [done|]. apply list_elem_of_here.
    + rewrite lookup_alter_ne, Hp in Hp' by done. injection Hp' as <-. congruence.
Qed.

(** ** What an ending reaches *)

Lemma endDescendants_reach depth e tenant level m i g : endDescendants depth e tenant level m !! i = Some g -> ended g = true ->
  exists g0, m !! i = Some g0 /\ (ended g0 = true \/ exists a, a ∈ level /\ above m i a).
Proof.
  revert level m; induction depth as [|depth IH]; intros level m; cbn [endDescendants]; [eauto|].
  destruct level as [|a level]; [eauto|]. set (L := a :: level). intros Hg He.
  pose proof (closes_end_where e (child_of tenant L) m) as Hc. destruct (IH _ _ Hg He) as (g1 & Hg1 & Hor).
  pose proof Hg1 as Hg1'. apply end_where_lookup in Hg1' as (g0 & Hg0 & E1). exists g0. split; [done|].
  assert (Hup : forall j x, m !! j = Some x -> child_of tenant L x = true -> exists a, a ∈ L /\ above m j a).
  { intros j x Hx (_ & Hn & Hin)%child_of_true. exists (rg_Parent x). split; [done|]. apply rtc_once. exists x. auto. }
  destruct Hor as [He1|(b & (x & Hx & Hcx)%ids_where_elem & Hab)].
  - destruct (ended g0) eqn:E0; [by left|]. right. destruct (child_of tenant L g0) eqn:Ec; [by eapply Hup|]. subst g1. cbn in He1. congruence.
  - right. destruct (Hup _ _ Hx Hcx) as (c & Hcl & Hbc). exists c. split; [done|]. trans b; [|done].
    eapply above_cores; [|exact Hab]. symmetry. apply Hc.
Qed.

Lemma supersede_reach g stamp m i x : supersede g stamp m !! i = Some x -> ended x = true ->
  exists x0, m !! i = Some x0 /\ (ended x0 = true \/ exists a y, above m i a /\ m !! a = Some y /\ run_key y = run_key g).
Proof.
  intros Hx He. destruct (endDescendants_reach _ _ _ _ _ _ _ Hx He) as (x1 & Hx1 & Hor).
  pose proof (closes_end_where (Closing stamp "superseded") (fun x => same_run x g) m) as Hc.
  apply end_where_lookup in Hx1 as (x0 & Hx0 & E1). exists x0. split; [done|].
  destruct Hor as [He1|(a & (y & Hy & Hs)%ids_where_elem & Hab)].
  - destruct (same_run x0 g) eqn:Es; [right; exists i, x0; split; [done|]; split; [done|by apply same_run_key]|].
    left. subst x1. by cbn in He1.
  - right. exists a, y. split; [eapply above_cores; [|exact Hab]; symmetry; apply Hc|]. split; [done|].
    apply andb_true_iff in Hs as [Hs _]. by apply same_run_key.
Qed.

(** ** Runs minted below themselves *)

(** No mint names the run of an ancestor of its parent.  The code refuses the
    parent's own run only. *)
Definition lineal : Calls := fun _ c db =>
  match c with
  | CInsertRun g _ _ _ => forall a x, above (db_runs db) (rg_Parent g) a -> db_runs db !! a = Some x -> rg_Run x <> rg_Run g
  | _ => True
  end.

Lemma sealed_mint db g generation now expires m gen db' :
  good db -> (forall a x, above (db_runs db) (rg_Parent g) a -> db_runs db !! a = Some x -> rg_Run x <> rg_Run g) ->
  mints db g generation now expires m gen db' -> sealed nothing (db_runs db) -> sealed nothing (db_runs db').
Proof.
  intros Hgood Hlin [_ Ht Hf Hr _ _] Hs. rewrite Hr.
  pose proof (took_cores _ _ _ _ Ht) as Ec. pose proof (took_closes _ _ _ _ Ht) as Hcl.
  assert (Htm : tied m) by (eapply tied_cores; [exact Ec|exact Hgood]).
  assert (Hsm : sealed nothing m).
  { intros i x p Hx Hn Hp He. destruct Ht as [_|q Hnp Hq _ Hl _]; [by eapply Hs|].
    assert (Hlive : ended q = false) by (unfold liveRun in Hl; by destruct (ended q)).
    assert (Hp0 : exists p0, db_runs db !! rg_Parent x = Some p0 /\ ended p0 = true).
    { destruct (decide (rg_Parent x = rg_Parent g)) as [E|E]; [rewrite E, lookup_insert_eq in Hp; injection Hp as <-; by unfold ended in *; cbn in *; congruence|].
      rewrite lookup_insert_ne in Hp by done. eauto. }
    destruct Hp0 as (p0 & Hp0 & Hep0). destruct (decide (i = rg_Parent g)) as [->|E].
    - rewrite lookup_insert_eq in Hx. injection Hx as <-. by destruct (Hs _ _ _ Hq Hn Hp0 Hep0) as [|?]; [left|right].
    - rewrite lookup_insert_ne in Hx by done. by eapply Hs. }
  pose proof (sealed_supersede g (now / Second) m Htm Hsm) as Hss.
  pose proof (cores_supersede g (now / Second) m) as Ecs.
  intros i x p Hx Hn Hp He. right. destruct (decide (i = rg_ID g)) as [->|Hi].
  - (* the new row: its parent still holds *)
    rewrite lookup_insert_eq in Hx. injection Hx as <-. cbn [minted rg_Parent] in Hn, Hp. exfalso.
    destruct Ht as [E|q Hnp Hq _ Hl _]; [done|]. rewrite lookup_insert_ne in Hp by congruence.
    assert (Hlive : ended q = false) by (unfold liveRun in Hl; by destruct (ended q)).
    destruct (supersede_reach _ _ _ _ _ Hp He) as (q' & Hq' & [Hq2|(a & y & Hab & Hy & Hk)]).
    + rewrite lookup_insert_eq in Hq'. injection Hq' as <-. unfold ended in *; cbn in *; congruence.
    + destruct (cores_lookup _ _ _ _ Ec Hy) as (y0 & Hy0 & Ey). apply (Hlin a y0); [by eapply above_cores|done|].
      apply run_key_core in Ey as [Ey _]. rewrite Hk in Ey. by injection Ey.
  - rewrite lookup_insert_ne in Hx by done.
    assert (Hpi : rg_Parent x <> rg_ID g).
    { destruct (tied_cores _ _ Ecs Htm _ _ Hx) as (_ & _ & Hpar). destruct (Hpar Hn) as (q & Hq & _). intros E. rewrite E in Hq.
      destruct (cores_lookup _ _ _ _ Ecs Hq) as (q1 & Hq1 & _). destruct (cores_lookup _ _ _ _ Ec Hq1) as (q2 & Hq2 & _). congruence. }
    rewrite lookup_insert_ne in Hp by done. by destruct (Hss _ _ _ Hx Hn Hp He).
Qed.

Lemma sealed_answers {R} (c : Call R) db r db' :
  good db -> sealed nothing (db_runs db) -> lineal R c db -> answers c db r db' -> sealed nothing (db_runs db').
Proof.
  intros Hg Hs Hlin [(ask & now & rnd & E)|[_ ->]]; [|done]. destruct c; cbn [exec] in E; simplify_eq; try done.
  - unfold insertGrant in E. cbv zeta in E. destruct (_ || _); by simplify_eq.
  - apply insertRun_inv in E as [->|(m & gen & Hm)]; [done|]. by eapply sealed_mint.
  - pose proof (sealed_endRun db e tenant id Hg Hs) as H. destruct (endRun db e tenant id). by simplify_eq/=.
  - unfold charge in E. destruct (run_of db tenant id) as [g|] eqn:Er; [|by simplify_eq]. case_bool; simplify_eq; [|done].
    apply run_of_Some in Er as [Hr _]. cbn. intros i x p Hx Hn Hp He.
    assert (Hback : forall j y, <[id := spend n g]> (db_runs db) !! j = Some y -> exists y0, db_runs db !! j = Some y0 /\ ended y = ended y0 /\ rg_Parent y = rg_Parent y0).
    { intros j y Hy. destruct (decide (j = id)) as [->|Hj]; [rewrite lookup_insert_eq in Hy; injection Hy as <-; eauto|rewrite lookup_insert_ne in Hy by done; eauto]. }
    destruct (Hback _ _ Hx) as (x0 & Hx0 & Ex & Epar). destruct (Hback _ _ Hp) as (p0 & Hp0 & Ep & _). rewrite Ex. rewrite Epar in *. right.
    destruct (Hs _ _ _ Hx0 Hn Hp0); [congruence|done|done].
Qed.

(** C22: a grant holds only while everything it was narrowed from does.  In every
    reachable state of any number of grant operations interleaved call by call,
    with failing calls, in which no run is minted below itself, the ancestors of a
    grant that is live at a moment are all live at it: closing, revoking,
    superseding or the expiry of a grant ends all that was narrowed from it. *)
Theorem live_on_live_ancestors {GL : GatewayLib} ops db s gid g a x now :
  no_runs db -> rtc (gstep lineal) (start ops db) s ->
  db_runs (s_db s) !! gid = Some g -> Live g now = true ->
  above (db_runs (s_db s)) gid a -> db_runs (s_db s) !! a = Some x -> Live x now = true.
Proof.
  intros [Hr _] Hrun Hg Hl Hab Hx. assert (Hgood : good db) by (intros rid y Hy; by rewrite Hr, lookup_empty in Hy).
  destruct (gsys_invariant lineal (fun d _ => sealed nothing (db_runs d)) ops db s Hgood) as [Hs Hseal];
    [intros i y p Hy; by rewrite Hr, lookup_empty in Hy|done|intros R c d log r d' ? ? _; by apply sealed_answers|done|intros R c d r d'; apply good_answers|].
  revert g x Hg Hl Hx. induction Hab as [b|b c a (g1 & Hg1 & Hp & Hn) _ IH]; intros g x Hg Hl Hx; [congruence|].
  rewrite Hg in Hg1. injection Hg1 as <-. subst c.
  destruct (Hs _ _ Hg) as (_ & _ & Hpar). destruct (Hpar Hn) as (p & Hpm & [_ _ _ _ _ Hexp]). apply (IH p x Hpm); [|done].
  unfold Live in *. apply andb_true_iff in Hl as [He Ht]. apply Z.ltb_lt in Ht. apply andb_true_iff. split; [|apply Z.ltb_lt; unfold Second in *; lia].
  apply negb_true_iff in He. apply negb_true_iff. destruct (ended p) eqn:Ep; [|done]. destruct (Hseal _ _ _ Hg Hn Hpm Ep); [done|congruence].
Qed.
