(* ===== verification/GatewayFacts.v ===== *)
(** * The grant gateway: nothing is handed over without a reason

    A run of one gateway program is its trace: the calls it made, each with the
    store it found and its answer; between two calls the store may become
    anything.  The theorems say what the trace of a request that was allowed
    holds, and count what was charged. *)

From Stdlib Require Import Ascii String ZArith Lia Bool.
From stdpp Require Import base tactics list strings gmap sorting.
From S2P Require Import Prelude GoStrings GoStrconv Ast Runtime Sandbox RunGrants Tokens Gateway RunGrantFacts.

#[local] Open Scope string_scope.

(** ** Traces *)

Inductive Ev := | ev {R : Type} (c : Call R) (db : AuthDB) (r : R).

Fixpoint traced {A} (p : Tx A) (tr : list Ev) (x : A) : Prop :=
  match p with
  | TRet y => tr = [] /\ x = y
  | TDo c k => exists db r db' tr', tr = ev c db r :: tr' /\ answers c db r db' /\ traced (k r) tr' x
  end.

(** What a trace charged. *)
Definition notes (tr : list Ev) : list (string * Z * bool) := concat (map (fun e => let 'ev c _ r := e in note c r) tr).

Lemma notes_app tr tr' : notes (tr ++ tr') = (notes tr ++ notes tr')%list.
Proof. unfold notes. by rewrite map_app, concat_app. Qed.

Lemma traced_ret {A} (x y : A) tr : traced (TRet x) tr y -> tr = [] /\ y = x.
Proof. done. Qed.

Lemma traced_bind {A B} (p : Tx A) (f : A -> Tx B) tr x : traced (tbind p f) tr x ->
  exists y tr1 tr2, tr = (tr1 ++ tr2)%list /\ traced p tr1 y /\ traced (f y) tr2 x.
Proof.
  revert tr; induction p as [y|R c k IH]; intros tr Ht; cbn [tbind] in Ht.
  - exists y, [], tr. done.
  - destruct Ht as (db & r & db' & tr' & -> & Ha & Hk). apply IH in Hk as (y & tr1 & tr2 & -> & H1 & H2).
    exists y, (ev c db r :: tr1), tr2. split; [done|]. split; [|done]. exists db, r, db', tr1. done.
Qed.

Lemma traced_call {R} (c : Call R) tr r : traced (call c) tr r -> exists db db', tr = [ev c db r] /\ answers c db r db'.
Proof. intros (db & r' & db' & tr' & -> & Ha & [-> ->]). eauto. Qed.

Lemma traced_try {A B} (p : Tx (A + AErr)) (f : A -> Tx (B + AErr)) tr x : traced (try p f) tr (inl x) ->
  exists y tr1 tr2, tr = (tr1 ++ tr2)%list /\ traced p tr1 (inl y) /\ traced (f y) tr2 (inl x).
Proof.
  intros H. apply traced_bind in H as (y & tr1 & tr2 & -> & H1 & H2). destruct y as [y|e]; [eauto 7|]. by apply traced_ret in H2 as [_ ?].
Qed.

(** Programs that charge nothing. *)
Fixpoint quiet {A} (p : Tx A) : Prop :=
  match p with TRet _ => True | TDo c k => (forall r, note c r = []) /\ forall r, quiet (k r) end.
Lemma quiet_notes {A} (p : Tx A) tr x : quiet p -> traced p tr x -> notes tr = [].
Proof.
  revert tr; induction p as [y|R c k IH]; intros tr Hq Ht; [by destruct Ht as [-> _]|]. destruct Hq as [Hn Hk].
  destruct Ht as (db & r & db' & tr' & -> & _ & Ht). unfold notes in *. cbn. by rewrite Hn, (IH r tr' (Hk r) Ht).
Qed.
Lemma quiet_bind {A B} (p : Tx A) (f : A -> Tx B) : quiet p -> (forall x, quiet (f x)) -> quiet (tbind p f).
Proof. intros Hp Hf. induction p as [x|R c k IH]; cbn in *; [done|]. destruct Hp. auto. Qed.
Lemma quiet_call {R} (c : Call R) : (forall r, note c r = []) -> quiet (call c).
Proof. done. Qed.

Ltac quiet_steps :=
  repeat first
    [ done | progress intros | progress unfold try | apply quiet_bind | (apply quiet_call; done)
    | match goal with
      | |- quiet (let '(_, _) := ?x in _) => destruct x
      | |- quiet (if ?b then _ else _) => destruct b
      | |- quiet (match ?x with _ => _ end) => destruct x
      end ].

Lemma quiet_Read tenant gid : quiet (ReadRunGrant tenant gid).
Proof. unfold ReadRunGrant. quiet_steps. Qed.
Lemma quiet_Granted tenant p res verb : quiet (Granted tenant p res verb).
Proof. unfold Granted, requireActive. quiet_steps. Qed.
Lemma quiet_ask {R} (q : Ask R) : quiet (ask q).
Proof. by apply quiet_call. Qed.

(** What holds of every run of a program. *)
Definition post {A} (p : Tx A) (Φ : list Ev -> A -> Prop) : Prop := forall tr x, traced p tr x -> Φ tr x.

Lemma post_ret {A} (x : A) (Φ : list Ev -> A -> Prop) : Φ [] x -> post (TRet x) Φ.
Proof. intros H tr y [-> ->]. done. Qed.
Lemma post_bind {A B} (p : Tx A) (f : A -> Tx B) (Ψ : list Ev -> A -> Prop) (Φ : list Ev -> B -> Prop) :
  post p Ψ -> (forall y tr1, Ψ tr1 y -> post (f y) (fun tr2 x => Φ (tr1 ++ tr2)%list x)) -> post (tbind p f) Φ.
Proof. intros Hp Hf tr x H. apply traced_bind in H as (y & tr1 & tr2 & -> & H1 & H2). by eapply Hf; [apply Hp|]. Qed.
Lemma post_impl {A} (p : Tx A) (Ψ Φ : list Ev -> A -> Prop) : post p Ψ -> (forall tr x, Ψ tr x -> Φ tr x) -> post p Φ.
Proof. intros Hp H tr x Ht. by apply H, Hp. Qed.
Lemma post_quiet {A} (p : Tx A) : quiet p -> post p (fun tr _ => notes tr = []).
Proof. intros Hq tr x. by apply quiet_notes. Qed.
(** A step that charges nothing. *)
Lemma post_silent {A B} (p : Tx A) (f : A -> Tx B) (Φ : list Ev -> B -> Prop) :
  quiet p -> (forall y tr1, notes tr1 = [] -> post (f y) (fun tr2 x => Φ (tr1 ++ tr2)%list x)) -> post (tbind p f) Φ.
Proof. intros Hq. apply post_bind. by apply post_quiet. Qed.

(** ** What the store's answers mean *)

(** The row a read answered. *)
Lemma traced_Read tenant gid tr g : traced (ReadRunGrant tenant gid) tr (inl g) ->
  exists db, ev (CRun tenant gid) db (inl g) ∈ tr /\ db_runs db !! gid = Some g /\ rg_Tenant g = tenant.
Proof.
  unfold ReadRunGrant. case_bool; [intros H; by apply traced_ret in H as [_ ?]|]. intros H. apply traced_call in H as (db & db' & -> & Ha).
  exists db. split; [apply list_elem_of_here|]. destruct Ha as [(ask & now & rnd & E)|[E _]]; [|done]. cbn in E. injection E as E _. unfold scanRunGrant in E.
  destruct (run_of db tenant gid) as [g0|] eqn:Er; [|done]. destruct (decodeAllow _); [|done]. case_bool; [done|]. injection E as <-. by apply run_of_Some.
Qed.

(** A live standing grant of the principal to the resource, with the verb. *)
Definition stands (tenant : string) (p : Principal) (res : Resource) (verb : string) (tr : list Ev) : Prop :=
  exists db gid row, ev (CLiveGrant tenant p res) db (inl (gid, row)) ∈ tr /\ db_grants db !! gid = Some row /\
    gr_Tenant row = tenant /\ gr_Principal row = p_ID p /\ gr_RevokedAt row = None /\ gr_Kind row = r_Kind res /\ gr_Name row = r_Name res /\ verb ∈ gr_Verbs row.

Lemma liveGrant_row db tenant p res gid row : liveGrant db tenant p res = inl (gid, row) ->
  db_grants db !! gid = Some row /\ live_grant tenant (p_ID p) row /\ gr_Kind row = r_Kind res /\ gr_Name row = r_Name res.
Proof.
  unfold liveGrant, scanGrant. set (l := map_to_list _). destruct (head l) as [[i g]|] eqn:Eh; [|done].
  destruct (gr_Verbs g); [done|]. intros [= -> ->]. apply head_Some_elem_of in Eh. unfold l in Eh.
  apply elem_of_map_to_list, map_lookup_filter_Some in Eh as [H1 (H2 & H3 & H4)]. done.
Qed.

Lemma traced_Granted tenant p res verb tr : traced (Granted tenant p res verb) tr (inl true) -> stands tenant p res verb tr.
Proof.
  unfold Granted. case_bool; [intros H; by apply traced_ret in H as [_ ?]|]. case_bool; [intros H; by apply traced_ret in H as [_ ?]|].
  intros H. apply traced_bind in H as (y & tr1 & tr2 & -> & H1 & H2). apply traced_call in H1 as (db & db' & -> & Ha).
  destruct y as [[gid row]|e]; [|destruct e; by apply traced_ret in H2 as [_ ?]].
  destruct (bool_decide (verb ∈ gr_Verbs row)) eqn:Ev; cbn [negb] in H2; [|by apply traced_ret in H2 as [_ ?]].
  apply bool_decide_eq_true in Ev. exists db, gid, row. split; [apply list_elem_of_here|].
  destruct Ha as [(ask & now & rnd & E)|[E _]]; [|done]. cbn in E. injection E as E _. apply liveGrant_row in E as (? & (? & ? & ?) & ? & ?). done.
Qed.

(** One call was charged to a live row, within its budget when [enforce]. *)
Definition charged_once (grant : RunGrant) (enforce : bool) (tr : list Ev) : Prop :=
  notes tr = [(rg_ID grant, 1%Z, enforce)] /\
  exists db stamp row, ev (CCharge (rg_Tenant grant) (rg_ID grant) 1 stamp enforce) db (inl true) ∈ tr /\
    db_runs db !! rg_ID grant = Some row /\ rg_Tenant row = rg_Tenant grant /\ liveRun row stamp = true /\
    (enforce = true -> (rg_Spent row + 1 <= rg_Budget row)%Z).

Lemma traced_Charge grant enforce tr r : traced (ChargeRunGrant (rg_Tenant grant) (rg_ID grant) 1 enforce) tr r ->
  match r with inl _ => charged_once grant enforce tr | inr _ => notes tr = [] end.
Proof.
  unfold ChargeRunGrant. case_bool; [intros H; apply traced_ret in H as [-> ->]; done|]. change ((1 <? 1)%Z) with false. cbv iota. intros H.
  apply traced_bind in H as (now & tr1 & tr2 & -> & H1 & H2). apply traced_call in H1 as (db1 & db1' & -> & _).
  apply traced_bind in H2 as (y & tr3 & tr4 & -> & H3 & H4). apply traced_call in H3 as (db & db' & -> & Ha).
  destruct y as [[|]|e]; [| |apply traced_ret in H4 as [-> ->]; done].
  - apply traced_ret in H4 as [-> ->]. split; [done|]. destruct Ha as [(ask & t & rnd & E)|[E _]]; [|done]. cbn in E. unfold charge in E.
    destruct (run_of db _ _) as [row|] eqn:Er; [|by cbn in E]. case_bool; [|by cbn in E]. apply run_of_Some in Er as [Hr Ht]. bool_to_prop.
    exists db, (now / Second)%Z, row. split; [apply list_elem_of_further, list_elem_of_here|]. split; [done|]. split; [done|]. split; [done|].
    intros ->. cbn in *. lia.
  - assert (Hn : notes tr4 = []).
    { eapply quiet_notes; [|exact H4]. unfold try. apply quiet_bind; [apply quiet_Read|]. quiet_steps. }
    assert (Hr : exists e, r = inr e).
    { apply traced_bind in H4 as (z & t1 & t2 & _ & _ & H5). destruct z; [|apply traced_ret in H5 as [_ ->]; eauto]. case_bool; apply traced_ret in H5 as [_ ->]; eauto. }
    destruct Hr as [e ->]. unfold notes in *. cbn. done.
Qed.

(** ** The decision *)

Section Requests.
Context {GL : GatewayLib}.

(** The rules' run ended in time and was routed and admitted, nobody held the
    request, and what a rule wrote at [_txc.grant.res.allow] is [x]. *)
Definition said (raw : string) (x : Flag) : Prop :=
  Bool_ (gjson_Get raw "_txc.route.unavailable") = false /\ Bool_ (gjson_Get raw "_txc.admission.denied") = false /\
  (flag (gjson_Get raw "_txc.grant.res.hold") = Absent \/ flag (gjson_Get raw "_txc.grant.res.hold") = No) /\
  flag (gjson_Get raw "_txc.grant.res.allow") = x.

Lemma decide_allows p raw timedOut d : Rules.decide p (parseVerdict raw) false timedOut = d -> d_allow d = true ->
  timedOut = false /\ ((d_byRule d = true /\ said raw Yes) \/ (d_byRule d = false /\ said raw Absent /\ p_allow p = true)).
Proof.
  unfold Rules.decide, parseVerdict, said; cbn [v_unavailable v_admission v_hold v_malformed v_set v_allow v_reason]. intros <-.
  destruct timedOut; [done|]. destruct (Bool_ _); [done|]. destruct (Bool_ _); [done|].
  destruct (flag (gjson_Get raw "_txc.grant.res.hold")); destruct (flag (gjson_Get raw "_txc.grant.res.allow")); cbn; try done; auto 7;
    destruct (p_allow p) eqn:E; cbn; auto 9.
Qed.

Lemma propose_allows c : p_allow (propose c) = true ->
  c_exists c = true /\ c_allowlist c = true /\ c_standing c = true /\ c_pull c = true /\ c_budget c = true.
Proof. unfold propose. by destruct c as [[] [] [] [] []]. Qed.

Lemma traced_consult f tr d : traced (consult f) tr d -> notes tr = [] /\
  (d_allow d = true -> exists db raw, ev (CAsk (ARunStack (requestPayload f))) db (inl raw, false) ∈ tr /\
     ((d_byRule d = true /\ said raw Yes) \/ (d_byRule d = false /\ said raw Absent /\ p_allow (f_prop f) = true))).
Proof.
  intros H. apply traced_bind in H as (y & tr1 & tr2 & -> & H1 & H2). apply traced_call in H1 as (db & db' & -> & _).
  destruct y as [[raw|e] timedOut]; apply traced_ret in H2 as [-> ->]; (split; [done|]); intros Hd.
  - destruct (decide_allows _ _ _ _ eq_refl Hd) as [-> Hor]. exists db, raw. split; [apply list_elem_of_here|done].
  - by destruct timedOut.
Qed.

(** A request that was decided and charged: the rules said yes, or said nothing
    and the row names the resource, the principal holds a live standing grant to
    it, its pull policy admits the node and budget remained; and one call was
    charged to the row while it was live, beyond its budget only when a rule said
    yes to a request without budget. *)
Definition granted_request (grant : RunGrant) (res : Resource) (pull : bool) (tr : list Ev) : Prop :=
  exists payload db raw enforce, ev (CAsk (ARunStack payload)) db (inl raw, false) ∈ tr /\ charged_once grant enforce tr /\
    (enforce = false -> said raw Yes /\ (Remaining grant < 1)%Z) /\
    (said raw Yes \/ said raw Absent /\ Allows grant res = true /\ stands (rg_Tenant grant) (principal grant) res (Verb res) tr /\
       pull = true /\ (1 <= Remaining grant)%Z).

Lemma charge_request_traced f d key now tr r : traced (charge_request f d key now) tr r ->
  match r with
  | None => charged_once (f_grant f) (negb (d_byRule d && negb (c_budget (f_checks f)))) tr
  | Some ans => a_Allowed ans = false /\ a_Env ans = ∅ /\ notes tr = []
  end.
Proof.
  intros H. apply traced_bind in H as (y & tr1 & tr2 & -> & H1 & H2). apply traced_Charge in H1.
  destruct y as [u|e]; [apply traced_ret in H2 as [-> ->]; by rewrite app_nil_r|].
  destruct e; try (apply traced_ret in H2 as [-> ->]; by rewrite app_nil_r).
  apply traced_bind in H2 as (u & tr3 & tr4 & -> & H3 & H4). apply traced_ret in H4 as [-> ->]. apply (quiet_notes _ _ _ (quiet_ask _)) in H3.
  by rewrite !notes_app, H1, H3.
Qed.

Lemma charged_once_app grant enforce tr tr1 tr2 : notes tr1 = [] -> notes tr2 = [] -> charged_once grant enforce tr -> charged_once grant enforce (tr1 ++ tr ++ tr2)%list.
Proof.
  intros H1 H2 [Hn (db & stamp & row & Hin & Hrest)]. split; [by rewrite !notes_app, H1, H2, Hn|]. exists db, stamp, row. split; [|done]. set_solver.
Qed.

(** What decides and what charges, put together. *)
Lemma granted_request_intro grant res pull f d tr1 tr2 tr3 tr4 :
  f_grant f = grant -> notes tr1 = [] -> notes tr4 = [] ->
  (forall b, c_standing (f_checks f) = b -> b = true -> stands (rg_Tenant grant) (principal grant) res (Verb res) tr1) ->
  f_prop f = propose (f_checks f) -> c_allowlist (f_checks f) = Allows grant res -> c_pull (f_checks f) = pull -> c_budget (f_checks f) = (1 <=? Remaining grant)%Z ->
  traced (consult f) tr2 d -> d_allow d = true ->
  charged_once grant (negb (d_byRule d && negb (c_budget (f_checks f)))) tr3 ->
  granted_request grant res pull (tr1 ++ tr2 ++ tr3 ++ tr4)%list.
Proof.
  intros Hg Hn1 Hn4 Hst Hp Hall Hpull Hbud Hc Hd Hch. apply traced_consult in Hc as [Hn2 Hc]. destruct (Hc Hd) as (db & raw & Hin & Hor).
  exists (requestPayload f), db, raw, (negb (d_byRule d && negb (c_budget (f_checks f)))). split; [set_solver|]. split; [|split].
  - rewrite app_assoc. by apply charged_once_app; [rewrite notes_app, Hn1, Hn2|..].
  - intros He. apply negb_false_iff, andb_true_iff in He as [Hb Hbb]. apply negb_true_iff in Hbb. rewrite Hbud in Hbb. apply Z.leb_gt in Hbb.
    destruct Hor as [[_ ?]|[Hb' _]]; [done|congruence].
  - destruct Hor as [[_ ?]|(_ & Hsaid & Hpa)]; [by left|]. right. rewrite Hp in Hpa. apply propose_allows in Hpa as (_ & H2 & H3 & H4 & H5).
    split; [done|]. split; [congruence|]. split; [|split; [congruence|rewrite Hbud in H5; by apply Z.leb_le in H5]].
    destruct (Hst _ eq_refl H3) as (db0 & gid & row & Hin0 & Hrest). exists db0, gid, row. split; [set_solver|done].
Qed.

(** ** Identity *)

Lemma traced_identify g o now tr r : traced (identify g o now) tr r -> notes tr = [] /\
  match r with
  | inr ans => a_Allowed ans = false /\ a_Env ans = ∅
  | inl grant => Live grant now = true /\ exists tenant id db, ev (CRun tenant id) db (inl grant) ∈ tr /\ db_runs db !! id = Some grant /\
      ((exists signer claims, gw_signer g = Some signer /\ RG.Verify signer (op_Token o) now = inl claims /\ tenant = RG.Tenant claims /\ id = RG.Grant claims /\
          rg_Generation grant = RG.Generation claims /\ rg_Run grant = RG.Run claims /\ rg_Principal grant = RG.Principal claims) \/
       (op_Token o = "" /\ op_GrantID o <> "" /\ tenant = op_TenantID o /\ id = op_GrantID o))
  end.
Proof.
  unfold identify.
  assert (Hread : forall tenant id same tr r, traced (read_live now tenant id same) tr r -> notes tr = [] /\
    match r with
    | inr ans => a_Allowed ans = false /\ a_Env ans = ∅
    | inl grant => Live grant now = true /\ same grant = true /\ exists db, ev (CRun tenant id) db (inl grant) ∈ tr /\ db_runs db !! id = Some grant
    end).
  { clear tr r. intros tenant id same tr r H. apply traced_bind in H as (y & tr1 & tr2 & -> & H1 & H2). apply traced_ret in H2 as [-> ->].
    rewrite app_nil_r. split; [exact (quiet_notes _ _ _ (quiet_Read _ _) H1)|]. destruct y as [grant|e]; [|by destruct e].
    apply traced_Read in H1 as (db & Hin & Hdb & _). destruct (same grant) eqn:Es; cbn [negb]; [|done]. destruct (Live grant now) eqn:El; cbn [negb]; [|done]. eauto. }
  assert (Hno : forall ans : Answer, a_Allowed ans = false -> a_Env ans = ∅ -> traced (TRet (inr ans)) tr r ->
    notes tr = [] /\ exists a, r = inr a /\ a_Allowed a = false /\ a_Env a = ∅) by (intros ans ? ? [-> ->]; eauto).
  case_bool; [intros H; apply Hno in H as (? & a & -> & ?); done|]. case_bool.
  - destruct (gw_signer g) as [signer|] eqn:Eg; [|intros H; apply Hno in H as (? & a & -> & ?); done].
    destruct (RG.Verify signer (op_Token o) now) as [claims|[]] eqn:Ev; [|intros H; apply Hno in H as (? & a & -> & ?); done..].
    intros H. apply Hread in H as [Hn H]. split; [done|]. destruct r as [grant|ans]; [|done]. destruct H as (Hl & Hs & db & Hin & Hdb). split; [done|].
    exists (RG.Tenant claims), (RG.Grant claims), db. split; [done|]. split; [done|]. left. exists signer, claims.
    apply andb_true_iff in Hs as [Hs H3]. apply andb_true_iff in Hs as [H1 H2]. apply Z.eqb_eq in H1. apply String.eqb_eq in H2, H3. done.
  - match goal with H : negb (op_Token o =s "") = false |- _ => apply negb_false_iff, String.eqb_eq in H as Htok end.
    case_bool; [intros H; apply Hno in H as (? & a & -> & ?); done|]. case_bool; [|intros H; apply Hno in H as (? & a & -> & ?); done].
    match goal with H : negb (op_GrantID o =s "") = true |- _ => apply negb_true_iff, String.eqb_neq in H as Hgid end. intros H. apply Hread in H as [Hn H]. split; [done|]. destruct r as [grant|ans]; [|done]. destruct H as (Hl & Hs & db & Hin & Hdb). split; [done|].
    exists (op_TenantID o), (op_GrantID o), db. split; [done|]. split; [done|]. by right.
Qed.

(** ** Capabilities *)

Lemma of_answer_denied grant tenant ans : vd_Allowed (of_answer grant tenant ans) = false.
Proof. unfold of_answer. by destruct (a_Unavailable ans). Qed.

Lemma granted_request_app grant res pull tr1 tr2 : notes tr1 = [] -> granted_request grant res pull tr2 -> granted_request grant res pull (tr1 ++ tr2)%list.
Proof.
  intros Hn (payload & db & raw & enforce & Hin & Hch & He & Hor). exists payload, db, raw, enforce. split; [set_solver|]. split; [|split; [done|]].
  - rewrite <- (app_nil_r tr2). by apply charged_once_app.
  - destruct Hor as [?|(? & ? & (db0 & gid & row & Hin0 & Hrest) & ?)]; [by left|right]. split; [done|]. split; [done|]. split; [|done].
    exists db0, gid, row. split; [set_solver|done].
Qed.

Ltac to_post := match goal with |- forall tr v, traced ?p tr v -> @?Φ tr v => change (post p Φ) end.

(** What is decided after the grant is known, and what it charged. *)
Lemma post_decided f d key now grant res pull :
  f_grant f = grant -> f_prop f = propose (f_checks f) -> c_allowlist (f_checks f) = Allows grant res -> c_pull (f_checks f) = pull ->
  c_budget (f_checks f) = (1 <=? Remaining grant)%Z -> d_allow d = true ->
  forall tr1 tr2, traced (consult f) tr2 d -> notes tr1 = [] ->
  (c_standing (f_checks f) = true -> stands (rg_Tenant grant) (principal grant) res (Verb res) tr1) ->
  post (charge_request f d key now) (fun tr3 no =>
    match no with
    | Some ans => a_Allowed ans = false /\ a_Env ans = ∅ /\ notes (tr1 ++ tr2 ++ tr3) = []
    | None => forall tr4, notes tr4 = [] -> granted_request grant res pull (tr1 ++ tr2 ++ tr3 ++ tr4)
    end).
Proof.
  intros Hg Hp Ha Hpu Hb Hd tr1 tr2 Hc Hn Hst tr3 no H. pose proof (traced_consult _ _ _ Hc) as [Hn2 _]. apply charge_request_traced in H.
  destruct no as [ans|]; [destruct H as (? & ? & Hn3); by rewrite !notes_app, Hn, Hn2, Hn3|]. intros tr4 Hn4.
  eapply (granted_request_intro grant res pull f d); try done; [by intros b <-|by rewrite <- Hg].
Qed.

Lemma post_decide_call grant res via input now : post (decide_call grant res via input now) (fun tr v =>
  if vd_Allowed v then vd_Grant v = Some grant /\ granted_request grant res true tr else notes tr = []).
Proof.
  unfold decide_call. apply post_silent; [apply quiet_ask|]. intros [[tenant|]|e] tr1 Hn1; [|by apply post_ret; rewrite app_nil_r..].
  apply post_silent; [apply quiet_ask|]. intros [reason|] tr2 Hn2; [apply post_ret; cbn; by rewrite app_nil_r, notes_app, Hn1|].
  eapply post_bind; [intros tr x Ht; exact (conj (quiet_notes _ _ _ (quiet_Granted _ _ _ _) Ht) Ht)|].
  intros standing tr3 [Hn3 Ht3]. destruct standing as [standing|e]; [|apply post_ret; cbn; by rewrite app_nil_r, !notes_app, Hn1, Hn2, Hn3].
  apply post_silent; [by apply quiet_call|]. intros rid tr4 Hn4. set (ch := mkChecks _ _ _ _ _). set (f := mkFacts _ _ _ _ _ _ _ _ _ _ _).
  assert (Hst : c_standing ch = true -> stands (rg_Tenant grant) (principal grant) res (Verb res) (tr1 ++ tr2 ++ tr3 ++ tr4)).
  { cbn. intros ->. apply traced_Granted in Ht3 as (db & gid & row & Hin & Hrest). exists db, gid, row. split; [set_solver|done]. }
  assert (Hn : notes (tr1 ++ tr2 ++ tr3 ++ tr4) = []) by (by rewrite !notes_app, Hn1, Hn2, Hn3, Hn4).
  eapply post_bind; [intros tr x Ht; exact Ht|]. intros d tr5 Ht5. pose proof (traced_consult _ _ _ Ht5) as [Hn5 _].
  destruct (d_allow d) eqn:Ed; cbn [negb].
  - eapply post_bind; [by apply (post_decided f d _ now grant res true eq_refl eq_refl eq_refl eq_refl eq_refl Ed _ tr5 Ht5 Hn Hst)|].
    intros [ans|] tr6 H6; apply post_ret.
    + rewrite of_answer_denied. destruct H6 as (_ & _ & H6). rewrite <- H6. f_equal. by rewrite app_nil_r, <- !app_assoc.
    + cbn [vd_Allowed]. split; [done|]. specialize (H6 [] eq_refl). rewrite !app_nil_r in *. rewrite <- !app_assoc in H6. done.
  - case_bool; [apply post_ret; cbn [vd_Allowed]; rewrite !app_nil_r, <- Hn, !notes_app, Hn5, app_nil_r; by rewrite !app_assoc|].
    apply post_silent; [apply quiet_ask|]. intros [] tr6 Hn6. apply post_ret. cbn [vd_Allowed v_refused].
    by rewrite !notes_app, Hn1, Hn2, Hn3, Hn4, Hn5, Hn6.
Qed.

(** C19: a capability call is allowed for a reason and charged once.  When Invoke
    allows a call, the token verified, the row read for its claims was of that
    generation, run and principal and live, the rules' run ended in time and said
    yes, or said nothing about a capability the row names, the principal holds a
    live standing grant for and budget remained for; and exactly one call was
    charged, to that row, while it was live.  A call that is refused, held or not
    decided charges nothing. *)
Theorem Invoke_accounts g c tr v : traced (Invoke g c) tr v ->
  if vd_Allowed v then
    exists signer claims now grant res, gw_signer g = Some signer /\ RG.Verify signer (cc_Token c) now = inl claims /\
      vd_Grant v = Some grant /\ Live grant now = true /\
      (exists db, ev (CRun (RG.Tenant claims) (RG.Grant claims)) db (inl grant) ∈ tr /\ db_runs db !! RG.Grant claims = Some grant) /\
      rg_Generation grant = RG.Generation claims /\ rg_Run grant = RG.Run claims /\ rg_Principal grant = RG.Principal claims /\
      NewResource ResourceCapability (cc_Name c) = Some res /\ granted_request grant res true tr
  else notes tr = [].
Proof.
  revert tr v. to_post. apply post_silent; [by apply quiet_call|]. intros now tr0 Hn0. cbv zeta. eapply post_bind; [exact (traced_identify _ _ _)|].
  intros [grant|ans] tr1 [Hn1 H1]; [|apply post_ret; cbv beta; by rewrite of_answer_denied, app_nil_r, notes_app, Hn0].
  destruct (NewResource ResourceCapability (cc_Name c)) as [res|] eqn:Er; [|apply post_ret; cbv beta; cbn; by rewrite app_nil_r, notes_app, Hn0].
  eapply post_impl; [apply post_decide_call|]. intros tr2 x Hx. cbv beta in Hx |- *. destruct (vd_Allowed x); [|by rewrite !notes_app, Hn0, Hn1, Hx].
  destruct Hx as [Hg Hgr]. destruct H1 as (Hl & tenant & id & db & Hin & Hdb & [(signer & claims & Hs & Hv & -> & -> & Hgen & Hrun & Hpr)|(_ & Hid & _)]); [|done].
  exists signer, claims, now, grant, res. repeat (split; [done|]). split; [exists db; split; [set_solver|done]|]. repeat (split; [done|]).
  rewrite app_assoc. apply granted_request_app; [by rewrite notes_app, Hn0|done].
Qed.

(** ** Sandboxes *)

Lemma post_decideAndCharge f key now grant res pull :
  f_grant f = grant -> f_prop f = propose (f_checks f) -> c_allowlist (f_checks f) = Allows grant res -> c_pull (f_checks f) = pull ->
  c_budget (f_checks f) = (1 <=? Remaining grant)%Z ->
  forall tr1, notes tr1 = [] -> (c_standing (f_checks f) = true -> stands (rg_Tenant grant) (principal grant) res (Verb res) tr1) ->
  post (decideAndCharge f key now) (fun tr2 no =>
    match no with
    | Some ans => a_Allowed ans = false /\ a_Env ans = ∅
    | None => c_exists (f_checks f) = true /\ forall tr3, notes tr3 = [] -> granted_request grant res pull (tr1 ++ tr2 ++ tr3)
    end).
Proof.
  intros Hg Hp Ha Hpu Hb tr1 Hn Hst. unfold decideAndCharge. eapply post_bind; [intros tr x Ht; exact Ht|]. intros d tr2 Ht2. cbv zeta beta.
  destruct (d_allow d) eqn:Ed; cbn [andb]; [destruct (c_exists (f_checks f)) eqn:Ex; cbn [negb d_allow]|].
  - rewrite Ed. cbn [negb]. eapply post_impl; [exact (post_decided f d key now grant res pull Hg Hp Ha Hpu Hb Ed tr1 tr2 Ht2 Hn Hst)|].
    intros tr3 [ans|] H3; [tauto|]. split; [done|]. intros tr4 Hn4. specialize (H3 tr4 Hn4). by rewrite <- app_assoc.
  - apply post_silent; [apply quiet_ask|]. intros _ tr3 _. by apply post_ret.
  - rewrite Ed. apply post_silent; [apply quiet_ask|]. intros _ tr3 _. by apply post_ret.
Qed.

(** The trace of one value: the resource its entry names, found where it is kept,
    decided and charged, and then given out as [value]. *)
Definition backed (grant : RunGrant) (res : Resource) (value : string) (tr : list Ev) : Prop :=
  (r_Kind res = ResourceSecret /\ exists db meta, ev (CAsk (AResolve (rg_Tenant grant) (rg_Stack grant) (r_Name res))) db (inl (Some meta)) ∈ tr /\
     (exists db', ev (CAsk (ADecrypt meta)) db' (inl value) ∈ tr) /\
     granted_request grant res (Admits (sm_Pull meta) (rg_NodeClass grant =s NodeReviewed)) tr) \/
  (r_Kind res = ResourceConnection /\ exists db i, ev (CAsk (AReleaseCheck i)) db None ∈ tr /\
     ri_Stack i = rg_Stack grant /\ ri_Provider i = r_Name res /\ ri_Principal i = rg_Principal grant /\
     (exists db', ev (CAsk (ARelease i)) db' (inl value) ∈ tr) /\ granted_request grant res true tr).

Lemma backed_notes grant res value tr : backed grant res value tr -> exists enforce, notes tr = [(rg_ID grant, 1%Z, enforce)].
Proof. intros [(_ & db & x & _ & _ & (? & ? & ? & e & _ & [Hn _] & _))|(_ & db & x & _ & _ & _ & _ & _ & (? & ? & ? & e & _ & [Hn _] & _))]; eauto. Qed.

Definition one_value (grant : RunGrant) (res : Resource) (rq : request) (tr : list Ev) (a : Answer) : Prop :=
  if a_Allowed a then exists value, a_Env a = {[rq_key rq := value]} /\ backed grant res value tr else a_Env a = ∅.

Lemma post_release grant tenant res rq now : r_Kind res = ResourceSecret ->
  post (release grant tenant res rq now) (one_value grant res rq).
Proof.
  intros Hk. unfold release. apply post_silent; [apply quiet_ask|]. intros [reason|] tr1 Hn1; [by apply post_ret|].
  eapply post_bind; [intros tr x Ht; exact Ht|]. intros meta tr2 Ht2. pose proof (quiet_notes _ _ _ (quiet_ask _) Ht2) as Hn2.
  apply traced_call in Ht2 as (db2 & db2' & -> & _). destruct meta as [meta|e]; [|by apply post_ret].
  eapply post_bind; [intros tr x Ht; exact Ht|]. intros standing tr3 Ht3. pose proof (quiet_notes _ _ _ (quiet_Granted _ _ _ _) Ht3) as Hn3.
  destruct standing as [standing|e]; [|by apply post_ret]. apply post_silent; [by apply quiet_call|]. intros rid tr4 Hn4.
  set (ch := mkChecks _ _ _ _ _). set (f := mkFacts _ _ _ _ _ _ _ _ _ _ _). set (pre := (tr1 ++ [ev (CAsk (AResolve (rg_Tenant grant) (rg_Stack grant) (r_Name res))) db2 (inl meta)] ++ tr3 ++ tr4)%list).
  assert (Hn : notes pre = []) by (unfold pre; rewrite !notes_app, Hn1, Hn3, Hn4; done).
  assert (Hst : c_standing ch = true -> stands (rg_Tenant grant) (principal grant) res (Verb res) pre).
  { cbn. intros ->. apply traced_Granted in Ht3 as (db & gid & row & Hin & Hrest). exists db, gid, row. split; [unfold pre; set_solver|done]. }
  eapply post_bind; [exact (post_decideAndCharge f _ now grant res (c_pull ch) eq_refl eq_refl eq_refl eq_refl eq_refl pre Hn Hst)|].
  intros [ans|] tr5 H5; [apply post_ret; unfold one_value; by destruct H5 as [-> ->]|]. destruct H5 as [Hex H5].
  destruct meta as [meta|]; [|done]. eapply post_bind; [intros tr x Ht; exact Ht|].
  intros value tr6 Ht6. pose proof (quiet_notes _ _ _ (quiet_ask _) Ht6) as Hn6. apply traced_call in Ht6 as (db6 & db6' & -> & _).
  destruct value as [value|e]; apply post_ret; [|done].
  unfold one_value. cbn [a_Allowed a_Env]. exists value. split; [done|]. left. split; [done|]. exists db2, meta. split; [set_solver|]. split; [exists db6; set_solver|].
  rewrite app_nil_r. specialize (H5 _ Hn6). unfold pre in H5. by rewrite <- !app_assoc in H5.
Qed.

Lemma post_releaseConnection g grant tenant res rq now : r_Kind res = ResourceConnection ->
  post (releaseConnection g grant tenant res rq now) (one_value grant res rq).
Proof.
  intros Hk. unfold releaseConnection. apply post_silent; [apply quiet_ask|]. intros [reason|] tr1 Hn1; [by apply post_ret|].
  destruct (gw_conns g); cbn [negb]; [|by apply post_ret]. set (i := mkRelease _ _ _ _ _).
  eapply post_bind; [intros tr x Ht; exact Ht|]. intros cerr tr2 Ht2. pose proof (quiet_notes _ _ _ (quiet_ask _) Ht2) as Hn2.
  apply traced_call in Ht2 as (db2 & db2' & -> & _). destruct (match cerr with Some _ => _ | None => _ end) eqn:Ecerr; [by apply post_ret|].
  eapply post_bind; [intros tr x Ht; exact Ht|]. intros standing tr3 Ht3. pose proof (quiet_notes _ _ _ (quiet_Granted _ _ _ _) Ht3) as Hn3.
  destruct standing as [standing|e]; [|by apply post_ret]. apply post_silent; [by apply quiet_call|]. intros rid tr4 Hn4.
  set (ch := mkChecks _ _ _ _ _). set (f := mkFacts _ _ _ _ _ _ _ _ _ _ _). set (pre := (tr1 ++ [ev (CAsk (AReleaseCheck i)) db2 cerr] ++ tr3 ++ tr4)%list).
  assert (Hn : notes pre = []) by (unfold pre; rewrite !notes_app, Hn1, Hn3, Hn4; done).
  assert (Hst : c_standing ch = true -> stands (rg_Tenant grant) (principal grant) res (Verb res) pre).
  { cbn. intros ->. apply traced_Granted in Ht3 as (db & gid & row & Hin & Hrest). exists db, gid, row. split; [unfold pre; set_solver|done]. }
  eapply post_bind; [exact (post_decideAndCharge f _ now grant res true eq_refl eq_refl eq_refl eq_refl eq_refl pre Hn Hst)|].
  intros [ans|] tr5 H5; [apply post_ret; unfold one_value; by destruct H5 as [-> ->]|]. destruct H5 as [Hex H5].
  destruct cerr as [code|]; [done|]. eapply post_bind; [intros tr x Ht; exact Ht|].
  intros value tr6 Ht6. pose proof (quiet_notes _ _ _ (quiet_ask _) Ht6) as Hn6. apply traced_call in Ht6 as (db6 & db6' & -> & _).
  destruct value as [value|e]; apply post_ret; [|done].
  unfold one_value. cbn [a_Allowed a_Env]. exists value. split; [done|]. right. split; [done|]. exists db2, i. split; [set_solver|].
  do 3 (split; [done|]). split; [exists db6; set_solver|]. rewrite app_nil_r. specialize (H5 _ Hn6). unfold pre in H5. by rewrite <- !app_assoc in H5.
Qed.

Definition handed_over (grant : RunGrant) (env : gmap string string) (key value : string) (tr : list Ev) : Prop :=
  exists res, names_resource (default "" (env !! key)) = Some res /\ backed grant res value tr.

Lemma post_hand_over g o grant tenant now env key :
  post (hand_over g o grant tenant now key (default "" (env !! key))) (fun tr r =>
    if a_Allowed r.2 then exists value, a_Env r.2 = {[rq_key r.1 := value]} /\ handed_over grant env key value tr else a_Env r.2 = ∅).
Proof.
  unfold hand_over. set (rq := request_of o key). cbv zeta.
  apply (post_bind _ _ (fun tr a => if a_Allowed a then exists value, a_Env a = {[rq_key rq := value]} /\ handed_over grant env key value tr else a_Env a = ∅)).
  - destruct (names_resource _) as [res|] eqn:Er; [|by apply post_ret].
    assert (Hone : forall tr a, one_value grant res rq tr a ->
      if a_Allowed a then exists value, a_Env a = {[rq_key rq := value]} /\ handed_over grant env key value tr else a_Env a = ∅).
    { intros tr a. unfold one_value, handed_over. destruct (a_Allowed a); [intros (value & ? & ?); eauto|done]. }
    destruct (String.eqb_spec (r_Kind res) ResourceSecret) as [Hk|_]; [eapply post_impl; [by apply post_release|exact Hone]|].
    destruct (String.eqb_spec (r_Kind res) ResourceConnection) as [Hk|_]; [|by apply post_ret].
    eapply post_impl; [by apply post_releaseConnection|exact Hone].
  - intros a tr Ha. apply post_ret. by rewrite app_nil_r.
Qed.

Lemma post_hand_all g o grant tenant now env keys out : NoDup keys ->
  post (hand_all g o grant tenant now env keys out) (fun tr r =>
    match r with
    | inr ans => a_Allowed ans = false /\ a_Env ans = ∅
    | inl out' => dom out' = list_to_set keys ∪ dom out /\ (forall key, key ∉ keys -> out' !! key = out !! key) /\
        exists trs, tr = concat trs /\ Forall2 (fun key tr => exists value, out' !! key = Some value /\ handed_over grant env key value tr) keys trs
    end).
Proof.
  revert out. induction keys as [|key keys IH]; intros out Hnd; cbn [hand_all]; [apply post_ret; split_and!; [set_solver|done|by exists []]|].
  apply NoDup_cons in Hnd as [Hni Hnd].
  eapply post_bind; [apply post_hand_over|]. intros [rq ans] tr1. cbv beta. cbn [fst snd]. destruct (a_Allowed ans) eqn:Ea; cbn [negb]; [|intros He; by apply post_ret].
  intros (value & -> & Hh). rewrite lookup_singleton_eq. cbn [default from_option].
  eapply post_impl; [by apply IH|]. intros tr2 [out'|a]; [|done]. intros (Hd & Hout & trs & -> & Hf). split_and!.
  - rewrite Hd, dom_insert_L. set_solver.
  - intros k [Hne Hk]%not_elem_of_cons. rewrite Hout by done. by rewrite lookup_insert_ne.
  - exists (tr1 :: trs). split; [done|]. constructor; [|done]. exists value. split; [|done]. rewrite Hout by done. by rewrite lookup_insert_eq.
Qed.

Lemma entriesFor_NoDup env entry keys : entriesFor env entry = Some keys -> NoDup keys.
Proof.
  assert (Hv : NoDup (filter (fun k => (ParseEntry k).1.1 = EntryVar) (sorted_keys env))).
  { apply NoDup_filter. unfold sorted_keys. rewrite merge_sort_Permutation. apply NoDup_fst_map_to_list. }
  unfold entriesFor. case_bool; [by intros [= <-]|]. destruct (env !! entry); [|done].
  destruct (ParseEntry entry) as [[[] ?] []]; intros [= <-]; (done || apply NoDup_singleton).
Qed.

Lemma notes_handed grant env (P : string -> string -> Prop) keys trs :
  Forall2 (fun key tr => exists value, P key value /\ handed_over grant env key value tr) keys trs ->
  length (notes (concat trs)) = length keys /\ Forall (fun e => e.1 = (rg_ID grant, 1%Z)) (notes (concat trs)).
Proof.
  induction 1 as [|key tr keys trs (value & _ & res & _ & Hb) _ [IH1 IH2]]; [done|]. apply backed_notes in Hb as [e Hn]. cbn [concat]. rewrite notes_app, Hn. cbn [app length].
  split; [by rewrite IH1|by constructor].
Qed.

(** C24: a sandbox opens whole or not at all, and every value is decided and paid
    for.  When OpenSandbox allows, the grant was read and live, it names the
    sandbox, the variables handed over are exactly the sandbox's for what was
    asked, and the trace falls into one part per variable in which the resource its
    entry names was found where it is kept, decided as [granted_request] says and
    then decrypted or released, and the value handed over under the variable's name
    is what that gave; the calls charged are as many as the values.  Listing the files hands over nothing and charges
    nothing, and an answer that is not allowed holds no value. *)
Theorem OpenSandbox_accounts g o tr a : traced (OpenSandbox g o) tr a ->
  if a_Allowed a then
    exists grant now env tenant id db, Live grant now = true /\ ev (CRun tenant id) db (inl grant) ∈ tr /\ db_runs db !! id = Some grant /\
      rg_Sandboxes grant !! op_Sandbox o = Some env /\
      ((op_Entry o = EntryList /\ a_Env a = ∅ /\ notes tr = []) \/
       exists keys pre trs, entriesFor env (op_Entry o) = Some keys /\ dom (a_Env a) = list_to_set keys /\
         tr = (pre ++ concat trs)%list /\ notes pre = [] /\ Forall2 (fun key tr => exists value, a_Env a !! key = Some value /\ handed_over grant env key value tr) keys trs /\
         length (notes tr) = length keys /\ Forall (fun e => e.1 = (rg_ID grant, 1%Z)) (notes tr))
  else a_Env a = ∅.
Proof.
  revert tr a. to_post. apply post_silent; [by apply quiet_call|]. intros now tr0 Hn0. eapply post_bind; [exact (traced_identify _ _ _)|].
  intros [grant|ans] tr1 [Hn1 H1]; [|apply post_ret; cbv beta; by destruct H1 as [-> ->]]. destruct H1 as (Hl & tenant & id & db & Hin & Hdb & _).
  destruct (rg_Sandboxes grant !! op_Sandbox o) as [env|] eqn:Eenv; [|by apply post_ret].
  apply post_silent; [apply quiet_ask|]. intros [[slug|]|e] tr2 Hn2; [|by apply post_ret..].
  destruct (String.eqb_spec (op_Entry o) EntryList) as [El|El].
  - apply post_ret. cbn [a_Allowed]. exists grant, now, env, tenant, id, db. split; [done|]. split; [set_solver|]. split; [done|]. split; [done|]. left.
    split; [done|]. split; [done|]. by rewrite app_nil_r, !notes_app, Hn0, Hn1, Hn2.
  - destruct (entriesFor env (op_Entry o)) as [keys|] eqn:Ek; [|by apply post_ret]. eapply post_bind; [apply post_hand_all; by eapply entriesFor_NoDup|].
    intros [out|ans] tr3 H3; apply post_ret; cbv beta; [|by destruct H3 as [-> ->]]. cbn [a_Allowed a_Env]. destruct H3 as (Hd & _ & trs & -> & Hf).
    exists grant, now, env, tenant, id, db. split; [done|]. split; [set_solver|]. split; [done|]. split; [done|]. right.
    assert (Hn : notes (tr0 ++ tr1 ++ tr2) = []) by (by rewrite !notes_app, Hn0, Hn1, Hn2). destruct (notes_handed _ _ _ _ _ Hf) as [Hlen Hall].
    assert (E : (tr0 ++ tr1 ++ tr2 ++ concat trs ++ [])%list = ((tr0 ++ tr1 ++ tr2) ++ concat trs)%list) by (by rewrite app_nil_r, <- !app_assoc).
    rewrite E. exists keys, (tr0 ++ tr1 ++ tr2)%list, trs. split; [done|]. split; [rewrite Hd; set_solver|]. split; [done|]. split; [done|]. split; [done|].
    by rewrite notes_app, Hn.
Qed.
End Requests.
