(* ===== verification/GrantExamples.v ===== *)
(** * Grants: concrete runs

    One goroutine driven through its calls at one moment, each theorem about run
    grants applied to such a run, and a run that mints an ancestor's run below it. *)

From Stdlib Require Import Ascii String ZArith Lia Bool.
From stdpp Require Import base tactics list strings gmap sorting relations.
From S2P Require Import Prelude GoStrings GoStrconv GoJson Ast Runtime Sandbox RunGrants Tokens Gateway GatewayFacts RunGrantFacts RunGrantLedger RunGrantLives RunGrantTree.

#[local] Open Scope string_scope.

(** ** A JSON of claim sets *)

(** Fields as base64 words between dots, numbers in binary. *)
Fixpoint bits (p : positive) : string := match p with xH => "1" | xO p => String "0" (bits p) | xI p => String "1" (bits p) end.
Fixpoint unbits (s : string) : option positive :=
  match s with
  | EmptyString => None
  | String c EmptyString => if c =c "1" then Some xH else None
  | String c s => match unbits s with Some p => Some (if c =c "1" then xI p else xO p) | None => None end
  end.
Definition number (z : Z) : string := match z with Z0 => "" | Zpos p => String "+" (bits p) | Zneg p => String "-" (bits p) end.
Definition unnumber (s : string) : option Z :=
  match s with
  | EmptyString => Some 0%Z
  | String c s => match unbits s with Some p => Some (if c =c "+" then Zpos p else Zneg p) | None => None end
  end.
Lemma unbits_bits p : unbits (bits p) = Some p.
Proof. induction p as [p IH|p IH|]; [| |done]; cbn [bits unbits]; destruct (bits p) eqn:E; try (by destruct p); by rewrite IH. Qed.
Lemma unnumber_number z : unnumber (number z) = Some z.
Proof. destruct z; cbn; [done| |]; by rewrite unbits_bits. Qed.

Fixpoint fields (l : list string) : string := match l with [] => "" | x :: l => EncodeToString x ++ String "." (fields l) end.
Definition unfields (s : string) : option (list string) := mapM DecodeString (Split s ".").
Lemma unfields_fields l : unfields (fields l) = Some (l ++ [""])%list.
Proof.
  unfold unfields. induction l as [|x l IH]; [done|]. cbn [fields]. rewrite Split_cons_sep by apply word_no_dot, EncodeToString_words.
  cbn [mapM app]. change (mapM DecodeString (Split (fields l) ".")) with (unfields (fields l)) in *. unfold unfields in *. cbn. by rewrite DecodeString_EncodeToString, IH.
Qed.

#[local] Instance toyGrantJSON : ClaimsJSON RG.Claims := {|
  json_Marshal c := fields [RG.Grant c; RG.Tenant c; RG.Principal c; RG.Run c; number (RG.Generation c); number (RG.Depth c); RG.Trace c; number (RG.Expires c); number (RG.KeyVersion c)];
  json_Unmarshal s :=
    match unfields s with
    | Some [g; t; p; r; n; d; x; e; k; _] =>
        match unnumber n, unnumber d, unnumber e, unnumber k with
        | Some n, Some d, Some e, Some k => Some (RG.mkClaims g t p r n d x e k) | _, _, _, _ => None end
    | _ => None
    end |}.
#[local] Instance toyURLJSON : ClaimsJSON URL.Claims := {|
  json_Marshal c := fields [URL.Tenant c; URL.Collection c; URL.Resource c; URL.SHA256 c; number (URL.Expires c); number (URL.KeyVersion c); URL.Name c];
  json_Unmarshal s :=
    match unfields s with
    | Some [t; c; r; h; e; k; n; _] =>
        match unnumber e, unnumber k with Some e, Some k => Some (URL.mkClaims t c r h e k n) | _, _ => None end
    | _ => None
    end |}.
#[local] Instance toyGrantLaws : ClaimsLaws RG.Claims RG.utf8.
Proof. split. intros c _. cbn [json_Marshal json_Unmarshal toyGrantJSON]. rewrite unfields_fields. cbn [app]. rewrite !unnumber_number. by destruct c. Defined.
#[local] Instance toyURLLaws : ClaimsLaws URL.Claims URL.utf8.
Proof. split. intros c _. cbn [json_Marshal json_Unmarshal toyURLJSON]. rewrite unfields_fields. cbn [app]. rewrite !unnumber_number. by destruct c. Defined.

(** A gateway whose rules say nothing. *)
#[local] Instance toyLib : GatewayLib := {|
  gw_claims := toyGrantJSON;
  gw_gjson := fun _ _ => mkResult false 0 (SpecFloat.S754_zero false) "" false ANil;
  json_Valid := fun _ => true;
  Gateway.sjson_SetRaw := fun _ _ _ => None;
  RFC3339 := fun _ => "" |}.
Definition silent : forall R, Ask R -> R := fun R q =>
  match q in Ask R return R with
  | ATenantSlug _ => inl (Some "acme") | ATenantID _ => inl "t1" | AResolve _ _ _ => inl (Some (mkMeta "s1" None 1 "any")) | ADecrypt _ => inl "hush"
  | AReleaseCheck _ => None | ARelease _ => inl "token" | ARunStack _ => (inl "", false) | ASeen _ _ => None | ARemember _ _ _ => tt
  end.

(** One operation to its end, the draws taken from [rnds], each call passing [ok]. *)
Section Drive.
Variable ok : forall R, Call R -> AuthDB -> bool.
Variable now : Z.

Fixpoint drive {A} (p : Tx A) (rnds : list string) (db : AuthDB) (log : list (string * Z * bool)) : option (A * AuthDB * list (string * Z * bool) * list string) :=
  match p with
  | TRet x => Some (x, db, log, rnds)
  | TDo c k =>
      if ok _ c db then
        let '(r, db') := exec silent now (hd "" rnds) c db in
        drive (k r) (match c with CRandom => tl rnds | _ => rnds end) db' (log ++ note c r)%list
      else None
  end.

Fixpoint drives (ops : list GrantOp) (rnds : list string) (db : AuthDB) (log : list (string * Z * bool)) : option (AuthDB * list (string * Z * bool)) :=
  match ops with
  | [] => Some (db, log)
  | o :: ops => match drive (perform o) rnds db log with
                | Some (_, db, log, rnds) => drives ops rnds db log
                | None => None
                end
  end.

Context (Q : Calls) (Hok : forall R (c : Call R) db, ok R c db = true -> Q R c db).

Lemma drive_run (p : Tx unit) rnds db log x db' log' rnds' i ps :
  drive p rnds db log = Some (x, db', log', rnds') -> ps !! i = Some p ->
  rtc (gstep Q) (mkSys ps db log) (mkSys (<[i := TRet x]> ps) db' log').
Proof.
  revert rnds db log ps. induction p as [y|R c k IH]; intros rnds db log ps Hd Hi; cbn in Hd.
  - simplify_eq. by rewrite list_insert_id.
  - destruct (ok R c db) eqn:Eo; [|done]. destruct (exec silent now (hd "" rnds) c db) as [r db1] eqn:Ee.
    eapply rtc_l.
    + apply (gs_actor Q i ps (TDo c k) (k r) db db1 log (note c r)); [done|]. split; [by apply Hok|]. exists r. split; [|done]. left. by exists silent, now, (hd "" rnds).
    + assert (Hl : (i < length ps)%nat) by (by eapply lookup_lt_Some).
      replace (<[i := TRet x]> ps) with (<[i := TRet x]> (<[i := k r]> ps)) by (by rewrite list_insert_insert_eq).
      eapply IH; [exact Hd|]. by rewrite list_lookup_insert_eq.
Qed.

Lemma drives_run ops rnds db log db' log' done : drives ops rnds db log = Some (db', log') ->
  rtc (gstep Q) (mkSys (done ++ map perform ops) db log) (mkSys (done ++ map (fun _ => TRet tt) ops) db' log').
Proof.
  revert rnds db log done. induction ops as [|o ops IH]; intros rnds db log done Hd; cbn [drives map] in *; [by simplify_eq|].
  destruct (drive (perform o) rnds db log) as [[[[[] db1] log1] rnds1]|] eqn:E; [|done].
  etrans; [eapply (drive_run _ _ _ _ _ _ _ _ (length done)); [exact E|by apply list_lookup_middle]|].
  rewrite insert_app_r_alt by lia. rewrite Nat.sub_diag. cbn [insert list_insert].
  specialize (IH _ _ _ (done ++ [TRet tt])%list Hd). by rewrite <- !app_assoc in IH.
Qed.
End Drive.

Definition always : forall R, Call R -> AuthDB -> bool := fun _ _ _ => true.

(** [lineal], as a test. *)
Fixpoint foreign (fuel : nat) (m : Runs_) (i run : string) : bool :=
  match fuel with
  | O => false
  | S fuel => match m !! i with
              | None => true
              | Some g => negb (rg_Run g =s run) && ((rg_Parent g =s "") || foreign fuel m (rg_Parent g) run)
              end
  end.
Definition linealb : forall R, Call R -> AuthDB -> bool := fun _ c db =>
  match c with CInsertRun g _ _ _ => foreign 8 (db_runs db) (rg_Parent g) (rg_Run g) | _ => true end.

Lemma foreign_sound fuel m i run a x : foreign fuel m i run = true -> above m i a -> m !! a = Some x -> rg_Run x <> run.
Proof.
  revert i; induction fuel as [|fuel IH]; intros i Hf Hab Hx; cbn in Hf; [done|].
  destruct Hab as [i|i j a (g & Hg & Hp & Hn) Hja].
  - rewrite Hx in Hf. apply andb_true_iff in Hf as [Hf _]. by apply negb_true_iff, String.eqb_neq in Hf.
  - rewrite Hg in Hf. apply andb_true_iff in Hf as [_ Hf]. subst j. destruct (String.eqb_spec (rg_Parent g) ""); [done|]. by eapply IH.
Qed.
Lemma linealb_sound R (c : Call R) db : linealb R c db = true -> lineal R c db.
Proof. destruct c; try (intros _; exact I). intros Hf a x. by apply (foreign_sound 8). Qed.

(** ** A tenant with one principal *)

Definition paris : Principal := mkPrincipal "pony:paris" "pony".
Definition shop : AuthDB := mkDB ∅ [mkOwner "t1" "pony:paris" "crm" 0 "b1"] ∅ ∅ ∅.
Definition errand (run parent : string) (budget : Z) : NewRunGrant :=
  mkNew run 0 "crm/work" "" "" "" ["crm.lookup"] ∅ budget (60 * Second) parent "".

(** A standing grant, a grant of 10 calls narrowed to one of 4, a charge. *)
Definition plan : list GrantOp :=
  [OPutGrant "t1" "crm" paris "capability" "crm.lookup" [];
   OMint "t1" "crm" paris (errand "a" "" 10);
   OMint "t1" "crm" paris (errand "b" "rgr_1" 4);
   OCharge "t1" "rgr_2" 3 true].
Definition draws : list string := ["0"; "1"; "k1"; "2"; "k2"; "3"; "k3"].

Definition noon : Z := 1000 * Second.
Definition after ok (ops : list GrantOp) : GSys :=
  let '(db, log) := default (shop, []) (drives ok noon ops draws shop []) in mkSys (map (fun _ => TRet tt) ops) db log.
Definition row ok (ops : list GrantOp) (gid : string) : option RunGrant := db_runs (s_db (after ok ops)) !! gid.

Lemma reached ok Q ops : (forall R (c : Call R) db, ok R c db = true -> Q R c db) ->
  is_Some (drives ok noon ops draws shop []) -> rtc (gstep Q) (start ops shop) (after ok ops).
Proof.
  intros Hok [[db log] E]. unfold after. rewrite E. cbn [default]. exact (drives_run ok noon Q Hok ops draws shop [] db log [] E).
Qed.
Lemma shop_empty : no_runs shop.
Proof. done. Qed.

Ltac ran ok := apply (reached ok); [first [done|exact linealb_sound]|eexists; vm_compute; reflexivity].

Lemma authority_narrows_witness : exists g, row always plan "rgr_2" = Some g /\
  (0 <= rg_Depth g <= 4)%Z /\
  (rg_Parent g <> "" -> exists p, row always plan (rg_Parent g) = Some p /\
     rg_Tenant g = rg_Tenant p /\ rg_MintedBy g = rg_MintedBy p /\ rg_Depth g = (rg_Depth p + 1)%Z /\
     allowed g ⊆ allowed p /\ (rg_Expires g <= rg_Expires p)%Z).
Proof.
  eexists. split; [vm_compute; reflexivity|]. apply (authority_narrows plan shop (after always plan) "rgr_2" _ shop_empty); [ran always|vm_compute; reflexivity].
Defined.

Lemma budget_conserved_witness :
  tree (charged (s_log (after always plan))) (cores (db_runs (s_db (after always plan)))) 1 "rgr_1" = 3%Z /\
  (tree (charged (s_log (after always plan))) (cores (db_runs (s_db (after always plan)))) 1 "rgr_1"
   <= 10 + tree (overdrawn (s_log (after always plan))) (cores (db_runs (s_db (after always plan)))) 1 "rgr_1")%Z.
Proof.
  split; [vm_compute; reflexivity|]. destruct (row always plan "rgr_1") as [g|] eqn:E; [|vm_compute in E; discriminate E].
  replace 10%Z with (rg_Budget g) by (vm_compute in E; injection E as <-; reflexivity).
  apply (budget_conserved plan shop (after always plan) "rgr_1" g 1 shop_empty); [ran always|exact E].
Defined.

Definition remint : list GrantOp := (plan ++ [OMint "t1" "crm" paris (errand "a" "" 10)])%list.
Lemma newest_generation_only_witness : exists g1 g2, row always remint "rgr_3" = Some g1 /\ row always remint "rgr_1" = Some g2 /\
  (rg_Generation g2 <= rg_Generation g1)%Z /\ (ended g2 = false -> "rgr_3" = "rgr_1").
Proof.
  eexists _, _. split; [vm_compute; reflexivity|]. split; [vm_compute; reflexivity|].
  apply (newest_generation_only remint shop (after always remint) "rgr_3" _ "rgr_1" _ shop_empty); [ran always|vm_compute; reflexivity..].
Defined.

Lemma live_on_live_ancestors_witness : exists g x, row linealb plan "rgr_2" = Some g /\ row linealb plan "rgr_1" = Some x /\
  Live g noon = true /\ Live x noon = true.
Proof.
  eexists _, _. split; [vm_compute; reflexivity|]. split; [vm_compute; reflexivity|]. split; [vm_compute; reflexivity|].
  eapply (live_on_live_ancestors plan shop (after linealb plan) "rgr_2" _ "rgr_1" _ noon shop_empty); [ran linealb|vm_compute; reflexivity..| |vm_compute; reflexivity].
  apply rtc_once. eexists. split; [vm_compute; reflexivity|]. done.
Defined.

(** ** A run minted below itself *)

Definition loop : list GrantOp := (take 3 plan ++ [OMint "t1" "crm" paris (errand "a" "rgr_2" 1)])%list.

(** The guard of a mint compares the new run with its parent's only.  Minting
    the grandparent's run below the parent supersedes the grandparent, and with it
    the parent, and leaves the new grant live: live work under ancestors that have
    all ended, so [live_on_live_ancestors] needs its condition. *)
Theorem minted_below_itself : exists ops s g p,
  rtc (gstep any_call) (start ops shop) s /\ db_runs (s_db s) !! "rgr_3" = Some g /\ Live g noon = true /\
  rg_Parent g = "rgr_2" /\ db_runs (s_db s) !! "rgr_2" = Some p /\ ended p = true /\
  (forall a x, above (db_runs (s_db s)) "rgr_2" a -> db_runs (s_db s) !! a = Some x -> ended x = true).
Proof.
  exists loop, (after always loop). eexists _, _. split; [ran always|]. split; [vm_compute; reflexivity|]. do 2 (split; [vm_compute; reflexivity|]).
  split; [vm_compute; reflexivity|]. split; [vm_compute; reflexivity|]. intros a x Hab Hx.
  assert (E1 : row always loop "rgr_1" = Some (mkRun "rgr_1" "t1" "pony:paris" "crm" "crm/work" "a" 1 "" "" "unreviewed" "k1" ["crm.lookup"] ∅ 10 4 "" 0 "" 1000 1060 (Some 1000%Z) "superseded" None)) by (vm_compute; reflexivity).
  assert (E2 : row always loop "rgr_2" = Some (mkRun "rgr_2" "t1" "pony:paris" "crm" "crm/work" "b" 1 "" "" "unreviewed" "k2" ["crm.lookup"] ∅ 4 1 "rgr_1" 1 "" 1000 1060 (Some 1000%Z) "superseded" None)) by (vm_compute; reflexivity).
  unfold row in E1, E2. inversion Hab as [|? j ? (g & Hg & Hp & _) Hja]; subst; [rewrite E2 in Hx; by injection Hx as <-|].
  rewrite E2 in Hg. injection Hg as <-. cbn [rg_Parent] in Hja. inversion Hja as [|? j ? (g & Hg & Hp & Hn) _]; subst; [rewrite E1 in Hx; by injection Hx as <-|].
  rewrite E1 in Hg. injection Hg as <-. destruct (Hn eq_refl).
Qed.

(** ** The gateway *)

(** A program run alone, with its trace. *)
Fixpoint record {A} (now : Z) (p : Tx A) (db : AuthDB) : list Ev * A :=
  match p with
  | TRet x => ([], x)
  | TDo c k => let '(r, db') := exec silent now "0" c db in let '(tr, x) := record now (k r) db' in (ev c db r :: tr, x)
  end.
Lemma record_traced {A} now (p : Tx A) db : traced p (record now p db).1 (record now p db).2.
Proof.
  revert db; induction p as [x|R c k IH]; intros db; cbn [record]; [done|]. destruct (exec silent now "0" c db) as [r db'] eqn:E.
  specialize (IH r db'). destruct (record now (k r) db') as [tr x]. exists db, r, db', tr. split; [done|]. split; [left; by exists silent, now, "0"|done].
Qed.

Definition signer : Signer := mkSigner (fun s => srev s) 1.
Definition gate : Gateway := mkGateway (Some signer) true "" "".
Definition paper : RG.Claims := RG.mkClaims "rgr_1" "t1" "pony:paris" "a" 1 0 "" 1060 0.
Definition token : string := default "" (RG.Sign signer paper).

Definition bundle : NewRunGrant :=
  mkNew "a" 0 "crm/work" "" "" "" ["crm.lookup"] {["box" := {["API_KEY" := "secret:apikey"]}]} 10 (60 * Second) "" "".
Definition setup : list GrantOp :=
  [OPutGrant "t1" "crm" paris "capability" "crm.lookup" []; OPutGrant "t1" "crm" paris "secret" "apikey" []; OMint "t1" "crm" paris bundle].
Definition desk : AuthDB := default shop (fst <$> drives always noon setup ["g1"; "g2"; "1"; "k1"] shop []).

Definition asked : list Ev * Verdict := record noon (Invoke gate (mkCap token "crm.lookup" "" "")) desk.
Lemma Invoke_accounts_witness : vd_Allowed asked.2 = true /\ notes asked.1 = [("rgr_1", 1%Z, true)] /\
  exists signer' claims now grant res, gw_signer gate = Some signer' /\ RG.Verify signer' token now = inl claims /\
      vd_Grant asked.2 = Some grant /\ Live grant now = true /\
      (exists db, ev (CRun (RG.Tenant claims) (RG.Grant claims)) db (inl grant) ∈ asked.1 /\ db_runs db !! RG.Grant claims = Some grant) /\
      rg_Generation grant = RG.Generation claims /\ rg_Run grant = RG.Run claims /\ rg_Principal grant = RG.Principal claims /\
      NewResource ResourceCapability "crm.lookup" = Some res /\ granted_request grant res true asked.1.
Proof.
  assert (E : vd_Allowed asked.2 = true) by (vm_compute; reflexivity). split; [exact E|]. split; [vm_compute; reflexivity|].
  pose proof (Invoke_accounts gate (mkCap token "crm.lookup" "" "") asked.1 asked.2 (record_traced noon (Invoke gate (mkCap token "crm.lookup" "" "")) desk)) as H.
  rewrite E in H. exact H.
Defined.

Definition opening : Open := mkOpen "" "t1" "rgr_1" "box" "exec" "".
Definition opened : list Ev * Answer := record noon (OpenSandbox gate opening) desk.
Lemma OpenSandbox_accounts_witness : a_Allowed opened.2 = true /\ a_Env opened.2 = {["API_KEY" := "hush"]} /\
  exists grant now env tenant id db, Live grant now = true /\ ev (CRun tenant id) db (inl grant) ∈ opened.1 /\ db_runs db !! id = Some grant /\
      rg_Sandboxes grant !! op_Sandbox opening = Some env /\
      ((op_Entry opening = EntryList /\ a_Env opened.2 = ∅ /\ notes opened.1 = []) \/
       exists keys pre trs, entriesFor env (op_Entry opening) = Some keys /\ dom (a_Env opened.2) = list_to_set keys /\
         opened.1 = (pre ++ concat trs)%list /\ notes pre = [] /\ Forall2 (fun key tr => exists value, a_Env opened.2 !! key = Some value /\ handed_over grant env key value tr) keys trs /\
         length (notes opened.1) = length keys /\ Forall (fun e => e.1 = (rg_ID grant, 1%Z)) (notes opened.1)).
Proof.
  assert (E : a_Allowed opened.2 = true) by (vm_compute; reflexivity). split; [exact E|]. split; [vm_compute; reflexivity|].
  pose proof (OpenSandbox_accounts gate opening opened.1 opened.2 (record_traced noon (OpenSandbox gate opening) desk)) as H. rewrite E in H. exact H.
Defined.

Lemma token_says_what_was_signed_witness :
  (forall c, RG.Verify signer token noon = inl c -> exists c0, inl c0 ∈ [inl paper : RG.Claims + URL.Claims] /\ c = RG.stamp signer c0 /\ (noon / Second < RG.Expires c0)%Z) /\
  (exists c, RG.Verify signer token noon = inl c).
Proof.
  split; [|eexists; vm_compute; reflexivity].
  apply (token_says_what_was_signed signer [inl paper] token noon).
  - intros c Hc. apply list_elem_of_singleton in Hc. injection Hc as ->. reflexivity.
  - intros c Hc. apply list_elem_of_singleton in Hc. discriminate Hc.
  - intros v body sum Hs _. exists (inl paper). split; [apply list_elem_of_here|].
    assert (E : Split token "." = [RG.version; EncodeToString (json_Marshal (RG.stamp signer paper)); EncodeToString (srev (signed_text signer (inl paper)))]) by (vm_compute; reflexivity).
    rewrite E in Hs. injection Hs as <- <- _. reflexivity.
Defined.
