(* ===== verification/DrivePath.v ===== *)
(** * Drive: paths, conditional headers, client policy and links

    chassis/drive: the resource paths of path.go, the If-Match / If-None-Match
    values of resources.go, the object-key check of objects.go, the client
    policy of policy.go and the links of links.go.  All of it is pure; Unicode
    normalization (golang.org/x/text) is the class [Unicode].  After it, the
    algebra of normalized paths the index relies on (a path below a directory
    has that directory among its ancestors, and moves with it). *)

From Stdlib Require Import Ascii String ZArith Lia Bool.
From stdpp Require Import base tactics list strings gmap sorting.
From S2P Require Import Prelude GoStrings GoJson GoPath Opname.

#[local] Open Scope string_scope.

Class Unicode := { NFC : string -> string }.   (** [norm.NFC.String] *)

(** ** Paths *)

Definition MaxPathBytes : nat := 1024.
Definition MaxPathSegments : nat := 32.
Definition MaxSegmentBytes : nat := 255.

Inductive BadPath :=
  | NotUTF8 | HasNUL | TooManySegments | EmptySegment | DotSegment (seg : string) | LongSegment | LongPath | IsRoot.

Definition check_seg (seg : string) : option BadPath :=
  if seg =s "" then Some EmptySegment
  else if (seg =s ".") || (seg =s "..") then Some (DotSegment seg)
  else if (MaxSegmentBytes <? slen seg)%nat then Some LongSegment
  else None.

Fixpoint check_segs (segs : list string) : option BadPath :=
  match segs with
  | [] => None
  | seg :: segs => match check_seg seg with Some e => Some e | None => check_segs segs end
  end.

Definition NormalizePath `{Unicode} (p : string) : string + BadPath :=
  if negb (utf8_valid p) then inr NotUTF8
  else if ContainsByte p (b 0) then inr HasNUL
  else
    let p := TrimSlashes (NFC p) in
    if p =s "" then inl ""
    else
      let segs := Split p "/" in
      if (MaxPathSegments <? length segs)%nat then inr TooManySegments
      else match check_segs segs with
           | Some e => inr e
           | None => if (MaxPathBytes <? slen p)%nat then inr LongPath else inl p
           end.

Definition ParentOf (p : string) : string :=
  match LastIndex p "/" with Some i => stake i p | None => "" end.

Definition BaseOf (p : string) : string :=
  match LastIndex p "/" with Some i => sdrop (S i) p | None => p end.

(** [strings.Count(p, "/")]. *)
Fixpoint slashes (p : string) : nat :=
  match p with EmptyString => 0 | String c p => (if c =c "/" then 1 else 0) + slashes p end.

Definition Depth (p : string) : nat := if p =s "" then 0 else S (slashes p).

Definition JoinPath (parent seg : string) : string := if parent =s "" then seg else parent ++ "/" ++ seg.

Definition IsInside (p dir : string) : bool :=
  if p =s "" then false else if dir =s "" then true else HasPrefix p (dir ++ "/").

Definition LikePrefix (p : string) : string := EscapeLike p ++ "/%".

(** [checkMoveCopyPaths] of resources.go. *)
Inductive PathErr := PBad (e : BadPath) | PCycle.

Definition checkMoveCopyPaths `{Unicode} (from to : string) : (string * string) + PathErr :=
  match NormalizePath from with
  | inr e => inr (PBad e)
  | inl from =>
      match NormalizePath to with
      | inr e => inr (PBad e)
      | inl to =>
          if (from =s "") || (to =s "") then inr (PBad IsRoot)
          else if (from =s to) || IsInside to from then inr PCycle
          else inl (from, to)
      end
  end.

(** ** Conditional headers *)

Record etagEntry := mkTag { tag : string; weak : bool }.

Definition DQ : ascii := b 34.

Definition tag_skip (c : ascii) : bool := (c =c ",") || (c =c " ") || (c =c b 9).

Definition keep_tag (e : etagEntry) (l : list etagEntry) : list etagEntry := if tag e =s "" then l else e :: l.

(** One turn of the scan per unit of fuel; every turn consumes a byte. *)
Fixpoint scan_tags (fuel : nat) (v : string) : list etagEntry :=
  match fuel, v with
  | S fuel, String c v' =>
      if tag_skip c then scan_tags fuel v'
      else
        let wk := HasPrefix v "W/" in
        let v := if wk then sdrop 2 v else v in
        match v with
        | String d rest =>
            if d =c DQ then
              match IndexByte rest DQ with
              | None => []
              | Some j => keep_tag (mkTag (stake j rest) wk) (scan_tags fuel (sdrop (S j) rest))
              end
            else
              let j := match IndexByte v "," with Some j => j | None => slen v end in
              keep_tag (mkTag (TrimSpace (stake j v)) wk) (scan_tags fuel (sdrop j v))
        | EmptyString => []
        end
  | _, _ => []
  end.

Definition parseETagList (v : string) : list etagEntry :=
  let v := TrimSpace v in
  if v =s "" then [] else if v =s "*" then [mkTag "*" false] else scan_tags (slen v) v.

(** [true]: the precondition fails. *)
Definition checkIfMatch (ifMatch : string) (live : bool) (etag : string) : bool :=
  match parseETagList ifMatch with
  | [] => false
  | entries => if live then negb (existsb (fun e => (tag e =s "*") || (negb (weak e) && (tag e =s etag))) entries) else true
  end.

Definition NoneMatch (ifNoneMatch etag : string) : bool :=
  existsb (fun e => (tag e =s "*") || (tag e =s etag)) (parseETagList ifNoneMatch).

Definition checkIfNoneMatch (ifNoneMatch : string) (live : bool) (etag : string) : bool :=
  live && NoneMatch ifNoneMatch etag.

Definition checkPreconditions (ifMatch ifNoneMatch : string) (live : bool) (etag : string) : bool :=
  checkIfNoneMatch ifNoneMatch live etag || checkIfMatch ifMatch live etag.

(** ** Names *)

Definition key_byte (c : ascii) : bool :=
  is_lower c || is_upper c || is_dec c || (c =c "_") || (c =c "-") || (c =c ".").

Definition ValidKeySegment (seg : string) : bool :=
  negb (seg =s "") && sall key_byte seg && negb (sall (fun c => c =c ".") seg).

Definition coll_byte (c : ascii) : bool :=
  is_lower c || is_upper c || is_dec c || (c =c ".") || (c =c "_") || (c =c "~") || (c =c "-").

Definition ValidCollectionName (name : string) : bool :=
  match name with
  | EmptyString => false
  | String c rest =>
      (is_lower c || is_upper c || is_dec c) && (slen rest <=? 127)%nat && sall coll_byte rest
      && negb (name =s ".") && negb (name =s "..")
  end.

(** ** Links: link path to collection name *)

Definition Links : Type := gmap string string.

Definition MaxLinks : nat := 1000.

Definition link_ok `{Unicode} (l : string * string) : bool :=
  match NormalizePath l.1 with
  | inr _ => false
  | inl p => negb (p =s "") && (p =s l.1) && ValidCollectionName l.2
  end.

(** No path is inside the one before it. *)
Fixpoint none_nested (paths : list string) : bool :=
  match paths with
  | x :: (y :: _) as rest => negb (IsInside y x) && none_nested rest
  | _ => true
  end.

Definition LinksValidate `{Unicode} (l : Links) : bool :=
  (size l <=? MaxLinks)%nat && forallb link_ok (map_to_list l) && none_nested (SortStrings (map_to_list l).*1).

(** The walk up [p]'s ancestors, the path itself first. *)
Fixpoint resolve_from (l : Links) (p : string) (fuel : nat) (q : string) : option (string * string * string) :=
  match fuel with
  | 0 => None
  | S fuel =>
      if q =s "" then None
      else match l !! q with
           | Some n => Some (q, n, TrimPrefix (TrimPrefix p q) "/")
           | None => resolve_from l p fuel (ParentOf q)
           end
  end.

Definition Resolve (l : Links) (p : string) : option (string * string * string) :=
  if (size l =? 0)%nat || (p =s "") then None else resolve_from l p (slen p) p.

Definition Holds (l : Links) (p : string) : bool := existsb (fun at_ => (at_ =s p) || IsInside at_ p) (map_to_list l).*1.
Definition Leads (l : Links) (p : string) : bool := existsb (fun at_ => IsInside at_ p) (map_to_list l).*1.

(** The first segment of [rest], and whether anything follows it. *)
Definition cut_slash (rest : string) : string * string :=
  match IndexByte rest "/" with Some i => (stake i rest, sdrop (S i) rest) | None => (rest, "") end.

Definition under_add (dir : string) (out : gmap string bool) (at_ : string) : gmap string bool :=
  if negb (IsInside at_ dir) then out
  else
    let rest := TrimPrefix (TrimPrefix at_ dir) "/" in
    let '(seg, more) := cut_slash rest in
    if more =s "" then <[seg := true]> out
    else match out !! seg with Some true => out | _ => <[seg := false]> out end.

Definition Under (l : Links) (dir : string) : gmap string bool := foldl (under_add dir) ∅ (map_to_list l).*1.

(** ** Client policy: path prefix to verb to mode *)

Definition Policy : Type := gmap string (gmap string string).

Definition policyVerbs : list string := ["write"; "create"; "delete"; "move_in"; "move_out"].
Definition policyModes : list string := ["allow"; "deny"].
Definition ModeDeny : string := "deny".

Definition PolicyValidate `{Unicode} (p : Policy) : bool :=
  forallb (fun '(prefix, verbs) =>
             match NormalizePath prefix with inr _ => false | inl _ => true end &&
             forallb (fun '(verb, mode) => existsb (String.eqb verb) policyVerbs && existsb (EqualFold mode) policyModes)
               (map_to_list verbs)) (map_to_list p).

Definition best_step `{Unicode} (norm : string) (best : option string) (prefix : string) : option string :=
  match NormalizePath prefix with
  | inr _ => best
  | inl pn =>
      if negb (pn =s norm) && negb (IsInside norm pn) then best
      else match best with
           | None => Some pn
           | Some bst => if (slen bst <? slen pn)%nat then Some pn else best
           end
  end.

Fixpoint verdict_at `{Unicode} (l : list (string * gmap string string)) (best verb : string) : bool :=
  match l with
  | [] => true
  | (prefix, verbs) :: l =>
      match NormalizePath prefix with
      | inr _ => verdict_at l best verb
      | inl pn => if pn =s best then negb (EqualFold (default "" (verbs !! verb)) ModeDeny) else verdict_at l best verb
      end
  end.

(** [Allows] ranges over the map twice; [l1] and [l2] are the orders the two
    loops meet its entries in. *)
Definition Allows `{Unicode} (l1 l2 : list (string * gmap string string)) (path verb : string) : bool :=
  if (length l1 =? 0)%nat then true
  else match NormalizePath path with
       | inr _ => true
       | inl norm =>
           match foldl (best_step norm) None l1.*1 with
           | None => true
           | Some best => verdict_at l2 best verb
           end
       end.

(** ** Clean paths *)

Definition clean (p : string) : Prop := Forall plain (Split p "/").
Definition no_slashb (s : string) : bool := sall (fun d => negb (d =c "/")) s.

Lemma clean_nonempty p : clean p -> p <> "".
Proof. intros H ->. inversion_clear H as [|? ? [_ [Hne _]] _]. done. Qed.

Lemma clean_app d r : clean (d ++ "/" ++ r) <-> clean d /\ clean r.
Proof. unfold clean. cbn [String.append]. by rewrite Split_app_sep, Forall_app. Qed.

Lemma slashes_app s t : slashes (s ++ t) = slashes s + slashes t.
Proof. induction s as [|c s IH]; cbn [slashes String.append]; [done|]. rewrite IH. lia. Qed.

Lemma slashes_none s : no_slashb s = true -> slashes s = 0.
Proof.
  unfold no_slashb. induction s as [|c s IH]; cbn; [done|]. intros H. bool_to_prop.
  rewrite (proj2 (Ascii.eqb_neq _ _)) by done. by rewrite IH.
Qed.

Lemma Split_length s : length (Split s "/") = S (slashes s).
Proof.
  induction s as [|c s IH]; [done|]. cbn [Split slashes]. destruct (c =c "/") eqn:E; cbn [length].
  - by rewrite IH.
  - pose proof (Split_not_nil s "/"). destruct (Split s "/") as [|w ws]; [done|]. cbn in *. by rewrite IH.
Qed.

Lemma Depth_segments p : p <> "" -> Depth p = length (Split p "/").
Proof. intros H. unfold Depth. rewrite (proj2 (String.eqb_neq p "") H). symmetry. apply Split_length. Qed.

(** A path is its last segment, or a parent and a last segment. *)
Lemma path_cases p : (no_slashb p = true /\ ParentOf p = "" /\ BaseOf p = p) \/
  (exists d r, p = d ++ "/" ++ r /\ no_slashb r = true /\ ParentOf p = d /\ BaseOf p = r).
Proof.
  unfold ParentOf, BaseOf. destruct (LastIndex p "/") as [i|] eqn:E.
  - right. apply LastIndex_some in E as [E1 E2]. exists (stake i p), (sdrop (S i) p). done.
  - left. apply LastIndex_none in E. done.
Qed.

Lemma ParentOf_snoc d r : no_slashb r = true -> ParentOf (d ++ "/" ++ r) = d.
Proof. intros H. unfold ParentOf. cbn [String.append]. rewrite LastIndex_app by done. apply stake_app. Qed.

Lemma BaseOf_snoc d r : no_slashb r = true -> BaseOf (d ++ "/" ++ r) = r.
Proof.
  intros H. unfold BaseOf. cbn [String.append]. rewrite LastIndex_app by done.
  replace (S (slen d)) with (slen (d ++ "/")) by (rewrite slen_app; simpl; lia).
  change (String "/" r) with ("/" ++ r). rewrite sapp_assoc. apply sdrop_app.
Qed.

Lemma ParentOf_top r : no_slashb r = true -> ParentOf r = "".
Proof. intros H. unfold ParentOf. apply LastIndex_none in H. by rewrite H. Qed.

Lemma plain_no_slash s : plain s -> no_slashb s = true.
Proof. by intros [H _]. Qed.

(** The parent of a path below [d] keeps its place below [d]. *)
Lemma ParentOf_below d r :
  ParentOf (d ++ "/" ++ r) = if no_slashb r then d else d ++ "/" ++ ParentOf r.
Proof.
  destruct (path_cases r) as [(H & _)|(d' & r' & -> & H & Hp & _)].
  - rewrite H. by apply ParentOf_snoc.
  - replace (no_slashb (d' ++ "/" ++ r')) with false
      by (unfold no_slashb; rewrite sall_app; cbn; by rewrite andb_false_r).
    rewrite Hp. replace (d ++ "/" ++ d' ++ "/" ++ r') with ((d ++ "/" ++ d') ++ "/" ++ r')
      by (by rewrite <- !sapp_assoc).
    by apply ParentOf_snoc.
Qed.

Lemma Depth_below d r : d <> "" -> Depth (d ++ "/" ++ r) = Depth d + S (slashes r).
Proof.
  intros H. unfold Depth. rewrite (proj2 (String.eqb_neq d "") H).
  rewrite (proj2 (String.eqb_neq _ "")) by (destruct d; done).
  rewrite !slashes_app. cbn. lia.
Qed.

Lemma Depth_parent p : p <> "" -> Depth p = S (Depth (ParentOf p)) \/ (ParentOf p = "" /\ Depth p = 1%nat) \/ HasPrefix p "/" = true.
Proof.
  intros Hp. destruct (path_cases p) as [(H & -> & _)|(d & r & -> & H & -> & _)].
  - right. left. split; [done|]. unfold Depth. rewrite (proj2 (String.eqb_neq p "") Hp), slashes_none; done.
  - destruct (String.eqb_spec d "") as [->|Hd]; [right; right; by destruct r|]. left.
    rewrite Depth_below, slashes_none by done. lia.
Qed.

(** ** Insideness *)

Lemma IsInside_spec p d : d <> "" -> IsInside p d = true <-> exists r, p = d ++ "/" ++ r.
Proof.
  intros Hd. unfold IsInside, HasPrefix. rewrite (proj2 (String.eqb_neq d "") Hd).
  destruct (String.eqb_spec p "") as [->|Hp].
  - split; [done|]. intros (r & E). by destruct d.
  - rewrite prefix_iff. split; intros (r & ->); exists r; cbn; by rewrite <- sapp_assoc.
Qed.

Lemma IsInside_below d r : d <> "" -> IsInside (d ++ "/" ++ r) d = true.
Proof. intros Hd. apply IsInside_spec; [done|]. by exists r. Qed.

Lemma IsInside_irrefl p : IsInside p p = false.
Proof.
  destruct (String.eqb_spec p "") as [->|Hp]; [done|]. apply not_true_iff_false. intros (r & E)%IsInside_spec; [|done].
  apply (f_equal slen) in E. rewrite !slen_app in E. simpl in E. lia.
Qed.

Lemma IsInside_trans p q r : IsInside p q = true -> IsInside q r = true -> IsInside p r = true.
Proof.
  intros H1 H2. destruct (String.eqb_spec r "") as [->|Hr].
  - unfold IsInside in *. by destruct (p =s "").
  - apply IsInside_spec in H2 as (t & ->); [|done]. apply IsInside_spec in H1 as (u & ->); [|by destruct r].
    apply IsInside_spec; [done|]. exists (t ++ "/" ++ u). by rewrite <- !sapp_assoc.
Qed.

(** The parent of a path below [d] is [d] or below it. *)
Lemma parent_inside p d : d <> "" -> clean p -> IsInside p d = true -> ParentOf p = d \/ IsInside (ParentOf p) d = true.
Proof.
  intros Hd Hc (r & ->)%IsInside_spec; [|done]. rewrite ParentOf_below. destruct (no_slashb r); [by left|].
  right. by apply IsInside_below.
Qed.

(** Below the parent is below the directory. *)
Lemma inside_parent p d : p <> "" -> d <> "" -> ParentOf p = d \/ IsInside (ParentOf p) d = true -> IsInside p d = true.
Proof.
  intros Hp Hd H. destruct (path_cases p) as [(_ & E & _)|(x & r & -> & _ & E & _)]; rewrite E in H.
  - destruct H as [<-|H]; done.
  - destruct H as [<-|H]; [by apply IsInside_below|].
    eapply IsInside_trans; [|exact H]. apply IsInside_below. by destruct x.
Qed.

Lemma clean_inside_parent p : clean p -> ParentOf p <> "" -> IsInside p (ParentOf p) = true /\ clean (ParentOf p).
Proof.
  intros Hc Hp. destruct (path_cases p) as [(_ & E & _)|(x & r & -> & _ & E & _)]; rewrite E in *; [done|].
  apply clean_app in Hc as [? _]. split; [|done]. by apply IsInside_below.
Qed.

(** ** What LIKE finds below a directory *)

Lemma like_any_slash ceq t : like ceq ("/" ++ "%") t = match t with String e _ => ceq "/"%char e | EmptyString => false end.
Proof.
  destruct t as [|e t]; [done|]. cbn [String.append like]. simpl.
  destruct (ceq "/"%char e); [|done]. cbn [andb].
  assert (H : forall u, (fix any (t : string) : bool :=
     (t =s "") || match t with EmptyString => false | String _ t => any t end) u = true).
  { induction u as [|c u IH]; [done|]. cbn. by rewrite IH. }
  apply H.
Qed.

Lemma strip_exact s t : strip Ascii.eqb s t = if String.prefix s t then Some (sdrop (slen s) t) else None.
Proof.
  revert t; induction s as [|c s IH]; intros [|e t]; [done..|]. cbn [strip String.prefix slen sdrop].
  rewrite IH. destruct (Ascii.eqb_spec c e) as [->|Hn]; destruct (ascii_dec _ _); congruence.
Qed.

(** A database that compares characters exactly finds what is inside. *)
Lemma like_below_exact p t : p <> "" -> like Ascii.eqb (LikePrefix p) t = IsInside t p.
Proof.
  intros Hp. unfold LikePrefix. rewrite EscapeLike_literal, strip_exact. unfold IsInside, HasPrefix.
  rewrite (proj2 (String.eqb_neq p "") Hp). destruct (String.prefix p t) eqn:E.
  - apply prefix_iff in E as (r & ->). rewrite sdrop_app, like_any_slash.
    rewrite (proj2 (String.eqb_neq (p ++ r) "")) by (by destruct p).
    destruct r as [|e r].
    + symmetry. apply not_true_iff_false. intros (u & E)%prefix_iff. apply (f_equal slen) in E.
      rewrite !slen_app in E. simpl in E. lia.
    + destruct (Ascii.eqb_spec "/"%char e) as [<-|Hn].
      * symmetry. apply prefix_iff. exists r. by rewrite <- sapp_assoc.
      * symmetry. apply not_true_iff_false. intros (u & Eu)%prefix_iff.
        rewrite <- sapp_assoc in Eu. apply sapp_inj_l in Eu. by injection Eu as ->.
  - destruct (t =s ""); [done|]. symmetry. apply not_true_iff_false. intros (u & ->)%prefix_iff.
    rewrite <- sapp_assoc in E. by rewrite prefix_app in E.
Qed.

(** SQLite finds every path that differs from one inside only in case. *)
Lemma strip_fold s t : strip fold_eq s t = if EqualFold s (stake (slen s) t) then Some (sdrop (slen s) t) else None.
Proof.
  revert t; induction s as [|c s IH]; intros [|e t]; [done..|]. cbn [strip slen stake sdrop EqualFold].
  rewrite IH. unfold fold_eq. by destruct (to_lower c =c to_lower e).
Qed.
