(* ===== verification/Drive.v ===== *)
(** * Drive: the index and the operations of the document store

    chassis/drive: collections.go, resources.go, sink.go, sweep.go.  The index
    is two tables, [drive_collections] and [drive_resources], and the outbox a
    transactional sink writes in the same database.  An operation is a program
    of the calls it makes, in the order the code makes them: reads of the index,
    one write transaction (SQLite's BEGIN IMMEDIATE, one writer at a time),
    object-store calls, clock reads and minted ids.  Programs of several callers
    run interleaved, call by call, and any call may fail. *)

From Stdlib Require Import Ascii String ZArith Lia Bool.
From stdpp Require Import base tactics list strings gmap sorting relations.
From S2P Require Import Prelude GoStrings GoJson GoPath Opname DrivePath.

#[local] Open Scope string_scope.

(** ** Data *)

Inductive Kind := KindFile | KindDir.
#[export] Instance Kind_eq : EqDecision Kind. Proof. solve_decision. Defined.
Definition is_dir (k : Kind) : bool := match k with KindDir => true | KindFile => false end.

Inductive DErr :=
  | ErrNotFound | ErrExists | ErrNoParent | ErrNotDirectory | ErrIsDirectory | ErrPrecondition | ErrQuota | ErrTooLarge
  | ErrSizeMismatch | ErrBadPath (e : BadPath) | ErrCycle | ErrNotEmpty | ErrTenant | ErrName | ErrPolicy | ErrLinks
  | ErrIndex (** a database call failed *) | ErrStored (** an object-store call failed *).

Record Collection := mkColl {
  cID : string; cTenant : string; cName : string; SyncToken : Z; BytesUsed : Z; ResourceCount : Z;
  cPolicy : Policy; cLinks : Links; cCreated : Z; cUpdated : Z; cDeleted : option Z }.

(** Timestamps are in seconds, as [fmtTime] writes them. *)
Record Resource := mkRes {
  ResourceID : string; CollectionID : string; Path : string; ParentPath : string; rDepth : nat; rKind : Kind;
  ObjectKey : string; rSize : Z; rType : string; rETag : string; ModSeq : Z; rCreated : Z; rUpdated : Z; rDeleted : option Z }.

#[export] Instance Resource_eq : EqDecision Resource. Proof. solve_decision. Defined.

Inductive Event := EventResourceCreated | EventResourceUpdated | EventResourceDeleted | EventResourceMoved.

Record Mutation := mkMut {
  mEvent : Event; mTenant : string; mCollID : string; mColl : string; mID : string; mKind : Kind; mPath : string;
  mFrom : string; mETag : string; mSize : Z; mType : string; mSeq : Z; mAt : Z }.

Record Limits := mkLimits { MaxFileBytes : Z; MaxCollectionBytes : Z; MaxResources : Z }.

Record DB := mkDB { collections : gmap string Collection; resources : gmap string Resource; outbox : list Mutation }.

(** How the database compares characters in LIKE: an equivalence under which a
    slash is only a slash and an ASCII character only an ASCII one (SQLite folds
    ASCII case, others compare exactly). *)
Class Collation := {
  char_eq : ascii -> ascii -> bool;
  char_refl : forall c, char_eq c c = true;
  char_trans : forall c d e, char_eq c d = true -> char_eq d e = true -> char_eq c e = true;
  char_slash : forall c d, char_eq c d = true -> (c =c "/") = (d =c "/");
  char_ascii : forall c d, char_eq c d = true -> (bval c <? 128)%nat = (bval d <? 128)%nat }.

(** sha256 in hexadecimal, and the platform's table of content types. *)
Class Platform := { sha256hex : string -> string; TypeByExtension : string -> string }.

(** ** Programs *)

Record Object := mkObj { o_body : string; o_mod : Z }.

Inductive DProg (A : Type) :=
  | DRet (x : A)
  | DMint (k : string -> DProg A)                                    (** [hxid.NewTimeSort] *)
  | DClock (k : Z -> DProg A)
  | DQuery (k : DB -> DProg A) (broken : DProg A)                    (** one read of the committed index *)
  | DBegin (k : DB -> DProg A) (broken : DProg A)                    (** [BeginWrite] *)
  | DCommit (db : DB) (k : DProg A) (broken : DProg A)
  | DRollback (k : DProg A)
  | DObjPut (key body : string) (k : bool -> DProg A)
  | DObjCopy (from to : string) (k : bool -> DProg A)
  | DObjDelete (key : string) (k : bool -> DProg A)
  | DObjList (k : option (list (string * Object)) -> DProg A)
  | DSink (m : Mutation) (k : DProg A).
Arguments DRet {A} x.
Arguments DMint {A} k.
Arguments DClock {A} k.
Arguments DQuery {A} k broken.
Arguments DBegin {A} k broken.
Arguments DCommit {A} db k broken.
Arguments DRollback {A} k.
Arguments DObjPut {A} key body k.
Arguments DObjCopy {A} from to k.
Arguments DObjDelete {A} key k.
Arguments DObjList {A} k.
Arguments DSink {A} m k.

(** [w_lock]: a write transaction is open; [w_used]: the ids minted so far. *)
Record World := mkWorld {
  w_db : DB; w_lock : bool; w_objects : gmap string Object; w_sunk : list Mutation; w_used : gset string; w_time : Z }.
Definition set_db (db : DB) (w : World) : World := mkWorld db (w_lock w) (w_objects w) (w_sunk w) (w_used w) (w_time w).
Definition set_lock (l : bool) (w : World) : World := mkWorld (w_db w) l (w_objects w) (w_sunk w) (w_used w) (w_time w).
Definition set_objects (o : gmap string Object) (w : World) : World :=
  mkWorld (w_db w) (w_lock w) o (w_sunk w) (w_used w) (w_time w).
Definition add_sunk (m : Mutation) (w : World) : World :=
  mkWorld (w_db w) (w_lock w) (w_objects w) (w_sunk w ++ [m])%list (w_used w) (w_time w).
Definition add_used (id : string) (w : World) : World :=
  mkWorld (w_db w) (w_lock w) (w_objects w) (w_sunk w) ({[ id ]} ∪ w_used w) (w_time w).
Definition set_time (t : Z) (w : World) : World := mkWorld (w_db w) (w_lock w) (w_objects w) (w_sunk w) (w_used w) t.

(** One call.  A failed database call leaves the index alone and ends the
    transaction; a failed object-store put or copy leaves no object. *)
Inductive dstep {A} : DProg A -> World -> DProg A -> World -> Prop :=
  | ds_mint id k w : id ∉ w_used w -> sall (fun c => negb (c =c "/")) id = true ->
      dstep (DMint k) w (k id) (add_used id w)
  | ds_clock t k w : (w_time w <= t)%Z -> dstep (DClock k) w (k t) (set_time t w)
  | ds_query k broken w : dstep (DQuery k broken) w (k (w_db w)) w
  | ds_query_fail k broken w : dstep (DQuery k broken) w broken w
  | ds_begin k broken w : w_lock w = false -> dstep (DBegin k broken) w (k (w_db w)) (set_lock true w)
  | ds_begin_fail k broken w : dstep (DBegin k broken) w broken w
  | ds_commit db k broken w : dstep (DCommit db k broken) w k (set_lock false (set_db db w))
  | ds_commit_fail db k broken w : dstep (DCommit db k broken) w broken (set_lock false w)
  | ds_rollback k w : dstep (DRollback k) w k (set_lock false w)
  | ds_put key body k w :
      dstep (DObjPut key body k) w (k true) (set_objects (<[key := mkObj body (w_time w)]> (w_objects w)) w)
  | ds_put_fail key body k w : dstep (DObjPut key body k) w (k false) w
  | ds_copy from to k w o : w_objects w !! from = Some o ->
      dstep (DObjCopy from to k) w (k true) (set_objects (<[to := mkObj (o_body o) (w_time w)]> (w_objects w)) w)
  | ds_copy_fail from to k w : dstep (DObjCopy from to k) w (k false) w
  | ds_delete key k w : dstep (DObjDelete key k) w (k true) (set_objects (delete key (w_objects w)) w)
  | ds_delete_fail key k w : dstep (DObjDelete key k) w (k false) w
  | ds_list k w : dstep (DObjList k) w (k (Some (map_to_list (w_objects w)))) w
  | ds_list_fail k w : dstep (DObjList k) w (k None) w
  | ds_sink m k w : dstep (DSink m k) w k (add_sunk m w)
  | ds_sink_fail m k w : dstep (DSink m k) w k w.

(** Callers [ps] on one world. *)
Inductive dpstep {A} : list (DProg A) * World -> list (DProg A) * World -> Prop :=
  | dpstep_at i ps p p' w w' : ps !! i = Some p -> dstep p w p' w' -> dpstep (ps, w) (<[i := p']> ps, w').

(** One program alone, nothing failing; [ids] are the ids it is given. *)
Fixpoint dalone {A} (ids : list string) (p : DProg A) (w : World) : option (A * World) :=
  match p with
  | DRet x => Some (x, w)
  | DMint k =>
      match ids with
      | id :: ids =>
          if bool_decide (id ∈ w_used w) || negb (sall (fun c => negb (c =c "/")) id) then None
          else dalone ids (k id) (add_used id w)
      | [] => None
      end
  | DClock k => dalone ids (k (w_time w)) (set_time (w_time w) w)
  | DQuery k _ => dalone ids (k (w_db w)) w
  | DBegin k _ => if w_lock w then None else dalone ids (k (w_db w)) (set_lock true w)
  | DCommit db k _ => dalone ids k (set_lock false (set_db db w))
  | DRollback k => dalone ids k (set_lock false w)
  | DObjPut key body k => dalone ids (k true) (set_objects (<[key := mkObj body (w_time w)]> (w_objects w)) w)
  | DObjCopy from to k =>
      match w_objects w !! from with
      | Some o => dalone ids (k true) (set_objects (<[to := mkObj (o_body o) (w_time w)]> (w_objects w)) w)
      | None => dalone ids (k false) w
      end
  | DObjDelete key k => dalone ids (k true) (set_objects (delete key (w_objects w)) w)
  | DObjList k => dalone ids (k (Some (map_to_list (w_objects w)))) w
  | DSink m k => dalone ids k (add_sunk m w)
  end.

(** ** Queries *)

Definition live (r : Resource) : bool := match rDeleted r with None => true | Some _ => false end.
Definition cLive (c : Collection) : bool := match cDeleted c with None => true | Some _ => false end.

(** The rows a WHERE clause selects, ordered by path. *)
Definition path_le (r1 r2 : Resource) : Prop := string_le (Path r1) (Path r2).
#[export] Instance path_le_dec r1 r2 : Decision (path_le r1 r2) := decide (string_le (Path r1) (Path r2)).
Definition select (P : Resource -> bool) (db : DB) : list Resource :=
  merge_sort path_le (filter (fun r => P r = true) (map_to_list (resources db)).*2).

(** SUM over the rows. *)
Definition msum (f : Resource -> Z) (m : gmap string Resource) : Z := map_fold (fun _ r acc => (f r + acc)%Z) 0%Z m.
Definition count_where (P : Resource -> bool) (db : DB) : Z := msum (fun r => if P r then 1%Z else 0%Z) (resources db).
Definition bytes_where (P : Resource -> bool) (db : DB) : Z := msum (fun r => if P r then rSize r else 0%Z) (resources db).

Definition at_path (collID p : string) (r : Resource) : bool := (CollectionID r =s collID) && (Path r =s p) && live r.

(** A mutation's collection row. *)
Definition GetCollectionByID (db : DB) (id : string) : option Collection :=
  match collections db !! id with Some c => if cLive c then Some c else None | None => None end.
Definition lockCollection (db : DB) (id : string) : Collection + DErr :=
  match GetCollectionByID db id with Some c => inl c | None => inr ErrNotFound end.
Definition named (tenant name : string) (c : Collection) : bool := (cTenant c =s tenant) && (cName c =s name) && cLive c.
Definition GetCollection (db : DB) (tenant name : string) : option Collection :=
  head (filter (fun c => named tenant (TrimSpace name) c = true) (map_to_list (collections db)).*2).
Definition coll_le (c1 c2 : Collection) : Prop := string_le (cName c1) (cName c2).
#[export] Instance coll_le_dec c1 c2 : Decision (coll_le c1 c2) := decide (string_le (cName c1) (cName c2)).
Definition ListCollections (db : DB) (tenant : string) : list Collection :=
  merge_sort coll_le (filter (fun c => (cTenant c =s tenant) && cLive c = true) (map_to_list (collections db)).*2).

(** Every caller asks for live rows only. *)
Definition getResourceQ (db : DB) (collID p : string) : option Resource := head (select (at_path collID p) db).
Definition getResourceByIDQ (db : DB) (collID resID : string) : option Resource :=
  match resources db !! resID with
  | Some r => if (CollectionID r =s collID) && live r then Some r else None
  | None => None
  end.

Definition requireParent (db : DB) (collID p : string) : option DErr :=
  let parent := ParentOf p in
  if parent =s "" then None
  else match getResourceQ db collID parent with
       | None => Some ErrNoParent
       | Some row => if is_dir (rKind row) then None else Some ErrNotDirectory
       end.

Definition rootResource (c : Collection) : Resource :=
  mkRes (cID c) (cID c) "" "" 0 KindDir "" 0 "" "" (SyncToken c) (cCreated c) (cUpdated c) None.

(** ** Updates *)

Definition set_resources (m : gmap string Resource) (db : DB) : DB := mkDB (collections db) m (outbox db).
Definition set_collection (c : Collection) (db : DB) : DB := mkDB (<[cID c := c]> (collections db)) (resources db) (outbox db).

(** UPDATE ... WHERE. *)
Definition update_where (P : Resource -> bool) (f : Resource -> Resource) (db : DB) : DB :=
  set_resources ((fun r => if P r then f r else r) <$> resources db) db.

Definition set_counters (token bytes count now : Z) (c : Collection) : Collection :=
  mkColl (cID c) (cTenant c) (cName c) token bytes count (cPolicy c) (cLinks c) (cCreated c) now (cDeleted c).
Definition advance (c : Collection) (now : Z) (db : DB) : DB :=
  match collections db !! cID c with
  | Some c0 => set_collection (set_counters (SyncToken c) (BytesUsed c) (ResourceCount c) now c0) db
  | None => db
  end.
Definition bump (c : Collection) : Collection :=
  set_counters (SyncToken c + 1) (BytesUsed c) (ResourceCount c) (cUpdated c) c.
Definition charge (c : Collection) (bytes count : Z) : Collection :=
  set_counters (SyncToken c) (BytesUsed c + bytes) (ResourceCount c + count) (cUpdated c) c.

(** INSERT: the primary key, and the unique index on (collection_id, path)
    over live rows. *)
Definition insertResource (r : Resource) (db : DB) : option DB :=
  match resources db !! ResourceID r with
  | Some _ => None
  | None =>
      match getResourceQ db (CollectionID r) (Path r) with
      | Some _ => None
      | None => Some (set_resources (<[ResourceID r := r]> (resources db)) db)
      end
  end.

(** The unique index after an UPDATE of a collection's rows. *)
Definition index_ok (collID : string) (db : DB) : bool :=
  bool_decide (NoDup (Path <$> select (fun r => (CollectionID r =s collID) && live r) db)).

Definition setrow_tomb (now token : Z) (r : Resource) : Resource :=
  mkRes (ResourceID r) (CollectionID r) (Path r) (ParentPath r) (rDepth r) (rKind r) (ObjectKey r) (rSize r) (rType r)
    (rETag r) token (rCreated r) now (Some now).
Definition setrow_bytes (key : string) (size : Z) (ct etag : string) (token now : Z) (r : Resource) : Resource :=
  mkRes (ResourceID r) (CollectionID r) (Path r) (ParentPath r) (rDepth r) (rKind r) key size ct etag token (rCreated r)
    now (rDeleted r).
Definition setrow_path (p parent : string) (depth : nat) (token now : Z) (r : Resource) : Resource :=
  mkRes (ResourceID r) (CollectionID r) p parent depth (rKind r) (ObjectKey r) (rSize r) (rType r) (rETag r) token
    (rCreated r) now (rDeleted r).

(** SQL's [SUBSTR(x, n+1)]: drop [n] characters.  A character is a byte and the
    UTF-8 continuation bytes after it. *)
Fixpoint skip_cont (s : string) : string :=
  match s with String c s' => if is_cont c then skip_cont s' else s | EmptyString => EmptyString end.
Fixpoint substr_drop (n : nat) (s : string) : string :=
  match n, s with S n, String _ s' => substr_drop n (skip_cont s') | _, _ => s end.

Definition has_id (id : string) (r : Resource) : bool := ResourceID r =s id.
Definition add_outbox (ms : list Mutation) (db : DB) : DB := mkDB (collections db) (resources db) (outbox db ++ ms)%list.

(** ** Operations *)

Record PutOpts := mkPutOpts { IfMatch : string; IfNoneMatch : string; oType : string }.
Record PutResult := mkPutRes { pID : string; pETag : string; pSize : Z; pCreated : bool; pNoop : bool; pSeq : Z }.
Record DeleteOpts := mkDelOpts { dIfMatch : string; dIfNoneMatch : string }.
Record ListOpts := mkListOpts {
  lPath : string; Recursive : bool; SinceModSeq : Z; IncludeDeleted : bool; Limit : nat; After : string }.

Definition objectKey (tenant collID resID verID : string) : string := tenant ++ "/" ++ collID ++ "/" ++ resID ++ "/" ++ verID.
Definition newResourceID (id : string) : string := "dr_" ++ id.
Definition newVersionID (id : string) : string := "dv_" ++ id.

(** [path.Ext]. *)
Definition path_Ext (p : string) : string :=
  let base := match LastIndex p "/" with Some i => sdrop (S i) p | None => p end in
  match LastIndex base "." with Some i => sdrop i base | None => "" end.

Definition mutation (e : Event) (c : Collection) (id : string) (k : Kind) (p from etag : string) (size : Z) (ct : string)
    (at_ : Z) : Mutation :=
  mkMut e (cTenant c) (cID c) (cName c) id k p from etag size ct (SyncToken c) at_.
Definition fileMutation (e : Event) (c : Collection) (r : Resource) (at_ : Z) : Mutation :=
  mutation e c (ResourceID r) KindFile (Path r) "" (rETag r) (rSize r) (rType r) at_.
Definition is_file (r : Resource) : bool := negb (is_dir (rKind r)).

(** What a transaction comes to: refused, a value and no write, or a value, its
    events and the new index. *)
Inductive TxOut (A : Type) := TxFail (e : DErr) | TxSame (x : A) | TxDone (x : A) (ms : list Mutation) (db : DB).
Arguments TxFail {A} e.
Arguments TxSame {A} x.
Arguments TxDone {A} x ms db.

Section Ops.
Context `{Unicode} `{Collation} `{Platform}.
Variable lim : Limits.
(** The sink writes its events in the index transaction. *)
Variable transactional : bool.

(** Live and, by LIKE, below [p]. *)
Definition below (collID p : string) (r : Resource) : bool :=
  (CollectionID r =s collID) && live r && like char_eq (LikePrefix p) (Path r).
Definition listQ (db : DB) (collID p : string) : list Resource := select (below collID p) db.

Definition DefaultContentType (p : string) : string :=
  let ct := TypeByExtension (path_Ext p) in if ct =s "" then "application/octet-stream" else ct.

Definition with_outbox (ms : list Mutation) (db : DB) : DB := if transactional then add_outbox ms db else db.

(** [emitPostAll], then the result. *)
Fixpoint emitPostAll {A} (ms : list Mutation) (x : A) : DProg A :=
  if transactional then DRet x else match ms with [] => DRet x | m :: ms => DSink m (emitPostAll ms x) end.

(** [discard]: best effort. *)
Fixpoint discard {A} (keys : list string) (k : DProg A) : DProg A :=
  match keys with [] => k | key :: keys => DObjDelete key (fun _ => discard keys k) end.

Definition query {A B} (f : DB -> B) (broken : DProg A) (k : B -> DProg A) : DProg A := DQuery (fun db => k (f db)) broken.

(** A write transaction whose statements only touch the index. *)
Definition write {A} (body : Z -> Z -> DB -> TxOut A) (keys : list string) : DProg (A + DErr) :=
  DClock (fun now =>
  DBegin (fun db =>
    DClock (fun at_ =>
      match body now at_ db with
      | TxFail e => discard keys (DRollback (DRet (inr e)))
      | TxSame x => DRollback (discard keys (DRet (inl x)))
      | TxDone x ms db' => DCommit (with_outbox ms db') (emitPostAll ms (inl x)) (discard keys (DRet (inr ErrIndex)))
      end))
    (discard keys (DRet (inr ErrIndex)))).

(** *** Put *)

(** The metadata half: everything between BeginWrite and Commit. *)
Definition put_tx (collID p newID key : string) (size : Z) (ct etag : string) (opts : PutOpts) (now at_ : Z) (db : DB)
    : TxOut PutResult :=
  match lockCollection db collID with
  | inr e => TxFail e
  | inl c =>
      match requireParent db collID p with
      | Some e => TxFail e
      | None =>
          let cur := getResourceQ db collID p in
          let live := match cur with Some _ => true | None => false end in
          if match cur with Some r => is_dir (rKind r) | None => false end then TxFail ErrIsDirectory
          else if checkPreconditions (IfMatch opts) (IfNoneMatch opts) live (from_option rETag "" cur) then TxFail ErrPrecondition
          else
            match cur with
            | Some r =>
                if (rETag r =s etag) && (rSize r =? size)%Z then TxSame (mkPutRes (ResourceID r) etag size false true (ModSeq r))
                else
                  let newBytes := (BytesUsed c + size - rSize r)%Z in
                  if (0 <? MaxCollectionBytes lim)%Z && (MaxCollectionBytes lim <? newBytes)%Z then TxFail ErrQuota
                  else
                    let c := bump c in
                    let db := update_where (has_id (ResourceID r)) (setrow_bytes key size ct etag (SyncToken c) now) db in
                    let db := advance (charge c (size - rSize r) 0) now db in
                    TxDone (mkPutRes (ResourceID r) etag size false false (SyncToken c))
                      [mutation EventResourceUpdated c (ResourceID r) KindFile p "" etag size ct at_] db
            | None =>
                let newBytes := (BytesUsed c + size)%Z in
                if (0 <? MaxCollectionBytes lim)%Z && (MaxCollectionBytes lim <? newBytes)%Z then TxFail ErrQuota
                else if (0 <? MaxResources lim)%Z && (MaxResources lim <? ResourceCount c + 1)%Z then TxFail ErrQuota
                else
                  let c := bump c in
                  match insertResource (mkRes newID collID p (ParentOf p) (Depth p) KindFile key size ct etag (SyncToken c) now now None) db with
                  | None => TxFail ErrExists
                  | Some db =>
                      TxDone (mkPutRes newID etag size true false (SyncToken c))
                        [mutation EventResourceCreated c newID KindFile p "" etag size ct at_]
                        (advance (charge c size 1) now db)
                  end
            end
      end
  end.

(** The bytes [io.LimitReader] lets through. *)
Definition limit_reader (limit : Z) (body : string) : string :=
  if (0 <? limit)%Z && (limit <? Z.of_nat (slen body))%Z then stake (Z.to_nat limit) body else body.

(** How much of the body is read, and whether its length is refused. *)
Definition read_limit (size : Z) : Z :=
  if (size <? 0)%Z then if (0 <? MaxFileBytes lim)%Z then wrap64 (MaxFileBytes lim + 1) else 0%Z else wrap64 (size + 1).
Definition refuse_size (size n : Z) : option DErr :=
  if (0 <=? size)%Z then if (n =? size)%Z then None else Some ErrSizeMismatch
  else if (0 <? MaxFileBytes lim)%Z && (MaxFileBytes lim <? n)%Z then Some ErrTooLarge else None.

Definition declared_size (size : Z) : option DErr :=
  if (0 <=? size)%Z && (0 <? MaxFileBytes lim)%Z && (MaxFileBytes lim <? size)%Z then Some ErrTooLarge
  else if (0 <=? size)%Z && (0 <? MaxCollectionBytes lim)%Z && (MaxCollectionBytes lim <? size)%Z then Some ErrQuota
  else None.

Definition Put (collID p body : string) (size : Z) (opts : PutOpts) : DProg (PutResult + DErr) :=
  match NormalizePath p with
  | inr e => DRet (inr (ErrBadPath e))
  | inl p =>
      if p =s "" then DRet (inr (ErrBadPath IsRoot))
      else
        let size := if (size <? 0)%Z then (-1)%Z else size in
        match declared_size size with
        | Some e => DRet (inr e)
        | None =>
            let broken := DRet (inr ErrIndex) in
            query (fun db => GetCollectionByID db collID) broken (fun coll =>
            match coll with
            | None => DRet (inr ErrNotFound)
            | Some coll =>
                query (fun db => requireParent db collID p) broken (fun bad =>
                match bad with
                | Some e => DRet (inr e)
                | None =>
                    query (fun db => getResourceQ db collID p) broken (fun pre =>
                    if match pre with Some r => is_dir (rKind r) | None => false end then DRet (inr ErrIsDirectory)
                    else if checkPreconditions (IfMatch opts) (IfNoneMatch opts)
                              match pre with Some _ => true | None => false end (from_option rETag "" pre)
                    then DRet (inr ErrPrecondition)
                    else
                      DMint (fun id1 => DMint (fun id2 =>
                      let newID := newResourceID id1 in
                      let key := objectKey (cTenant coll) collID (from_option ResourceID newID pre) (newVersionID id2) in
                      let ct := if oType opts =s "" then from_option rType "" pre else oType opts in
                      let ct := if ct =s "" then DefaultContentType p else ct in
                      let stored := limit_reader (read_limit size) body in
                      let n := Z.of_nat (slen stored) in
                      DObjPut key stored (fun ok =>
                      if negb ok then discard [key] (DRet (inr ErrStored))
                      else match refuse_size size n with
                           | Some e => discard [key] (DRet (inr e))
                           | None => write (put_tx collID p newID key n ct (sha256hex stored) opts) [key]
                           end))))
                end)
            end)
        end
  end.

(** *** Mkdir *)

Definition mkdir_tx (collID p id : string) (now at_ : Z) (db : DB) : TxOut Resource :=
  match lockCollection db collID with
  | inr e => TxFail e
  | inl c =>
      match requireParent db collID p, getResourceQ db collID p with
      | Some e, _ => TxFail e
      | None, Some _ => TxFail ErrExists
      | None, None =>
          if (0 <? MaxResources lim)%Z && (MaxResources lim <? ResourceCount c + 1)%Z then TxFail ErrQuota
          else
            let c := bump c in
            let r := mkRes id collID p (ParentOf p) (Depth p) KindDir "" 0 "" "" (SyncToken c) now now None in
            match insertResource r db with
            | None => TxFail ErrExists
            | Some db =>
                TxDone r [mutation EventResourceCreated c id KindDir p "" "" 0 "" at_] (advance (charge c 0 1) now db)
            end
      end
  end.

(** The id, which nobody else sees before the commit, is minted first. *)
Definition Mkdir (collID p : string) : DProg (Resource + DErr) :=
  match NormalizePath p with
  | inr e => DRet (inr (ErrBadPath e))
  | inl p =>
      if p =s "" then DRet (inr (ErrBadPath IsRoot))
      else DMint (fun id => write (mkdir_tx collID p (newResourceID id)) [])
  end.

(** *** Stat and List *)

Definition Stat (collID p : string) : DProg (option Resource + DErr) :=
  match NormalizePath p with
  | inr e => DRet (inr (ErrBadPath e))
  | inl p =>
      let broken := DRet (inr ErrIndex) in
      if p =s "" then query (fun db => GetCollectionByID db collID) broken (fun c => DRet (inl (rootResource <$> c)))
      else query (fun db => getResourceQ db collID p) broken (fun r => DRet (inl r))
  end.

Definition StatByID (collID resID : string) : DProg (option Resource + DErr) :=
  if resID =s "" then DRet (inl None)
  else query (fun db => getResourceByIDQ db collID resID) (DRet (inr ErrIndex)) (fun r => DRet (inl r)).

(** The WHERE clause [List] builds. *)
Definition list_where (collID p : string) (o : ListOpts) (r : Resource) : bool :=
  (CollectionID r =s collID)
  && (if negb (Recursive o) then ParentPath r =s p
      else if p =s "" then true else like char_eq (LikePrefix p) (Path r))
  && (IncludeDeleted o || live r)
  && (if (0 <? SinceModSeq o)%Z then (SinceModSeq o <? ModSeq r)%Z else true)
  && (if After o =s "" then true else String.ltb (After o) (Path r)).

Definition list_rows (collID p : string) (o : ListOpts) (db : DB) : list Resource :=
  let rows := select (list_where collID p o) db in
  if (0 <? Limit o)%nat then take (Limit o) rows else rows.

Definition List_ (collID : string) (o : ListOpts) : DProg (list Resource + DErr) :=
  match NormalizePath (lPath o) with
  | inr e => DRet (inr (ErrBadPath e))
  | inl p => query (list_rows collID p o) (DRet (inr ErrIndex)) (fun rows => DRet (inl rows))
  end.

(** *** Delete *)

(** The rows and bytes removed, and the index after. *)
Definition subtree (collID p : string) (k : Kind) (r : Resource) : bool :=
  at_path collID p r || (is_dir k && below collID p r).
Definition tombstoneSubtree (db : DB) (collID p : string) (k : Kind) (token now : Z) : Z * Z * DB :=
  let P := subtree collID p k in
  (count_where P db, bytes_where P db, update_where P (setrow_tomb now token) db).

Definition below_files (e : Event) (c : Collection) (rows : list Resource) (at_ : Z) : list Mutation :=
  map (fun r => fileMutation e c r at_) (filter (fun r => is_file r = true) rows).

Definition deleted_events (c : Collection) (r : Resource) (rows : list Resource) (at_ : Z) : list Mutation :=
  mutation EventResourceDeleted c (ResourceID r) (rKind r) (Path r) "" (rETag r) (rSize r) (rType r) at_
  :: below_files EventResourceDeleted c rows at_.

Definition delete_tx (collID : string) (find : DB -> option Resource) (o : DeleteOpts) (now at_ : Z) (db : DB) : TxOut Resource :=
  match lockCollection db collID with
  | inr e => TxFail e
  | inl c =>
      match find db with
      | None => TxFail ErrNotFound
      | Some cur =>
          if checkPreconditions (dIfMatch o) (dIfNoneMatch o) true (rETag cur) then TxFail ErrPrecondition
          else
            let c := bump c in
            let rows := if is_dir (rKind cur) then listQ db collID (Path cur) else [] in
            let '(n, bytes, db) := tombstoneSubtree db collID (Path cur) (rKind cur) (SyncToken c) now in
            let c := set_counters (SyncToken c) (Z.max 0 (BytesUsed c - bytes)) (Z.max 0 (ResourceCount c - n)) (cUpdated c) c in
            TxDone (mkRes (ResourceID cur) (CollectionID cur) (Path cur) (ParentPath cur) (rDepth cur) (rKind cur) (ObjectKey cur)
                      (rSize cur) (rType cur) (rETag cur) (SyncToken c) (rCreated cur) (rUpdated cur) (Some now))
              (deleted_events c cur rows at_) (advance c now db)
      end
  end.

Definition Delete (collID p : string) (o : DeleteOpts) : DProg (Resource + DErr) :=
  match NormalizePath p with
  | inr e => DRet (inr (ErrBadPath e))
  | inl p =>
      if p =s "" then DRet (inr (ErrBadPath IsRoot))
      else write (delete_tx collID (fun db => getResourceQ db collID p) o) []
  end.

Definition DeleteByID (collID resID : string) (o : DeleteOpts) : DProg (Resource + DErr) :=
  write (delete_tx collID (fun db => getResourceByIDQ db collID resID) o) [].

(** *** Move *)

(** The events owed, the collection's new counters and the index after. *)
Definition replaceDestination (db : DB) (c : Collection) (to : string) (overwrite : bool) (now at_ : Z)
    : (list Mutation * Collection * DB) + DErr :=
  match getResourceQ db (cID c) to with
  | None => inl ([], c, db)
  | Some dst =>
      if negb overwrite then inr ErrExists
      else
        let rows := if is_dir (rKind dst) then listQ db (cID c) to else [] in
        let '(n, bytes, db) := tombstoneSubtree db (cID c) to (rKind dst) (SyncToken c) now in
        inl (deleted_events c dst rows at_, charge c (- bytes) (- n), db)
  end.

(** The UPDATE of a directory's descendants: [SUBSTR(path, len(from)+1)]. *)
Definition setrow_below (from to : string) (token now : Z) (r : Resource) : Resource :=
  setrow_path (to ++ substr_drop (slen from) (Path r)) (to ++ substr_drop (slen from) (ParentPath r))
    (rDepth r + Depth to - Depth from) token now r.
Definition move_below (collID from to : string) (k : Kind) (token now : Z) (db : DB) : DB :=
  if is_dir k then update_where (below collID from) (setrow_below from to token now) db else db.
Definition move_root (id to : string) (token now : Z) (db : DB) : DB :=
  update_where (has_id id) (setrow_path to (ParentOf to) (Depth to) token now) db.

Definition moved_events (c : Collection) (from to : string) (src : Resource) (rows : list Resource) (at_ : Z) : list Mutation :=
  mutation EventResourceMoved c (ResourceID src) (rKind src) to from (rETag src) (rSize src) (rType src) at_
  :: map (fun r => mutation EventResourceMoved c (ResourceID r) KindFile (to ++ sdrop (slen from) (Path r)) (Path r) (rETag r)
                     (rSize r) (rType r) at_) (filter (fun r => is_file r = true) rows).

Definition move_tx (collID from to : string) (overwrite : bool) (now at_ : Z) (db : DB) : TxOut Resource :=
  match lockCollection db collID with
  | inr e => TxFail e
  | inl c =>
      match getResourceQ db collID from, requireParent db collID to with
      | None, _ => TxFail ErrNotFound
      | Some _, Some e => TxFail e
      | Some src, None =>
          match replaceDestination db (bump c) to overwrite now at_ with
          | inr e => TxFail e
          | inl (replaced, c, db) =>
              let token := SyncToken c in
              let rows := if is_dir (rKind src) then listQ db collID from else [] in
              let db := move_below collID from to (rKind src) token now db in
              if negb (index_ok collID db) then TxFail ErrExists
              else
                let db := move_root (ResourceID src) to token now db in
                if negb (index_ok collID db) then TxFail ErrExists
                else TxDone (setrow_path to (ParentOf to) (Depth to) token now src)
                       (replaced ++ moved_events c from to src rows at_)%list (advance c now db)
          end
      end
  end.

Definition Move (collID from to : string) (overwrite : bool) : DProg (Resource + DErr) :=
  match checkMoveCopyPaths from to with
  | inr PCycle => DRet (inr ErrCycle)
  | inr (PBad e) => DRet (inr (ErrBadPath e))
  | inl (from, to) => write (move_tx collID from to overwrite) []
  end.

(** *** Copy *)

Record copied := mkCopied { srcKey : string; newID : string; newKey : string }.

(** One object duplicated; [fail] when the object store refuses. *)
Definition dup {A} (tenant collID : string) (r : Resource) (fail : DProg A) (k : copied -> DProg A) : DProg A :=
  DMint (fun id =>
  let newID := newResourceID id in
  if is_dir (rKind r) then k (mkCopied (ObjectKey r) newID "")
  else DMint (fun v =>
       let key := objectKey tenant collID newID (newVersionID v) in
       DObjCopy (ObjectKey r) key (fun ok => if ok then k (mkCopied (ObjectKey r) newID key) else fail))).

Definition key_of (cp : copied) : list string := if newKey cp =s "" then [] else [newKey cp].

(** The snapshot's objects; [keys] collects the keys made so far. *)
Fixpoint dup_all {A} (tenant collID : string) (rows : list Resource) (copies : gmap string copied) (keys : list string)
    (k : gmap string copied -> list string -> DProg (A + DErr)) : DProg (A + DErr) :=
  match rows with
  | [] => k copies keys
  | r :: rows =>
      dup tenant collID r (discard keys (DRet (inr ErrStored))) (fun cp =>
        dup_all tenant collID rows (<[ResourceID r := cp]> copies) (keys ++ key_of cp)%list k)
  end.

Definition copy_row (collID from to : string) (cp : copied) (token now : Z) (r : Resource) : Resource :=
  let np := to ++ sdrop (slen from) (Path r) in
  mkRes (newID cp) collID np (ParentOf np) (Depth np) (rKind r) (if is_dir (rKind r) then "" else newKey cp) (rSize r) (rType r)
    (rETag r) token now now None.

(** The rows inserted one by one inside the transaction; a row that changed
    since the snapshot is duplicated now.  [made] pairs each source row with
    its copy. *)
Fixpoint copy_rows {A} (tenant collID from to : string) (token now : Z) (copies : gmap string copied) (rows : list Resource)
    (keys : list string) (made : list (Resource * Resource)) (db : DB)
    (k : list (Resource * Resource) -> list string -> DB -> DProg (A + DErr)) : DProg (A + DErr) :=
  match rows with
  | [] => k made keys db
  | r :: rows =>
      let place cp keys :=
        let row := copy_row collID from to cp token now r in
        match insertResource row db with
        | None => DRollback (discard keys (DRet (inr ErrExists)))
        | Some db => copy_rows tenant collID from to token now copies rows keys (made ++ [(r, row)])%list db k
        end in
      match copies !! ResourceID r with
      | Some cp =>
          if srcKey cp =s ObjectKey r then place cp keys
          else dup tenant collID r (DRollback (discard keys (DRet (inr ErrStored)))) (fun cp => place cp (keys ++ key_of cp)%list)
      | None => dup tenant collID r (DRollback (discard keys (DRet (inr ErrStored)))) (fun cp => place cp (keys ++ key_of cp)%list)
      end
  end.

Definition sizes (rows : list Resource) : Z := foldr (fun r acc => (rSize r + acc)%Z) 0%Z rows.

Definition created_events (c : Collection) (src : Resource) (made : list (Resource * Resource)) (root : Resource) (at_ : Z)
    : list Mutation :=
  mutation EventResourceCreated c (ResourceID root) (rKind root) (Path root) "" (rETag root) (rSize root) (rType root) at_
  :: below_files EventResourceCreated c
       (filter (fun r => negb (ResourceID r =s ResourceID root) = true) made.*2) at_.

(** What the transaction settles before it inserts a row. *)
Definition copy_plan (srcID from collID to : string) (overwrite : bool) (now at_ : Z) (db : DB)
    : (Resource * list Resource * list Mutation * Collection * DB) + DErr :=
  match lockCollection db collID with
  | inr e => inr e
  | inl c =>
      match getResourceQ db srcID from, requireParent db collID to with
      | None, _ => inr ErrNotFound
      | Some _, Some e => inr e
      | Some src, None =>
          let rows := src :: (if is_dir (rKind src) then listQ db srcID from else []) in
          let addCount := Z.of_nat (length rows) in
          if (0 <? MaxCollectionBytes lim)%Z && (MaxCollectionBytes lim <? BytesUsed c + sizes rows)%Z then inr ErrQuota
          else if (0 <? MaxResources lim)%Z && (MaxResources lim <? ResourceCount c + addCount)%Z then inr ErrQuota
          else match replaceDestination db (bump c) to overwrite now at_ with
               | inr e => inr e
               | inl (replaced, c, db) => inl (src, rows, replaced, c, db)
               end
      end
  end.

(** The row returned still names the collection the source is in. *)
Definition in_collection (collID : string) (r : Resource) : Resource :=
  mkRes (ResourceID r) collID (Path r) (ParentPath r) (rDepth r) (rKind r) (ObjectKey r) (rSize r) (rType r) (rETag r) (ModSeq r)
    (rCreated r) (rUpdated r) (rDeleted r).

(** From the snapshot's [rows] to the end. *)
Definition copy_write (tenant srcID from collID to : string) (overwrite : bool) (snapshot : list Resource) : DProg (Resource + DErr) :=
  dup_all tenant collID snapshot ∅ [] (fun copies keys =>
  DClock (fun now =>
  DBegin (fun db =>
    DClock (fun at_ =>
    match copy_plan srcID from collID to overwrite now at_ db with
    | inr e => DRollback (discard keys (DRet (inr e)))
    | inl (src, rows, replaced, c, db) =>
        copy_rows tenant collID from to (SyncToken c) now copies rows keys [] db (fun made keys db =>
        let root := from_option snd src (head made) in
        let db := advance (charge c (sizes rows) (Z.of_nat (length rows))) now db in
        let ms := (replaced ++ created_events c src made root at_)%list in
        DCommit (with_outbox ms db) (emitPostAll ms (inl (in_collection (CollectionID src) root)))
          (discard keys (DRet (inr ErrIndex))))
    end)) (discard keys (DRet (inr ErrIndex))))).

(** The source's rows, outside the transaction. *)
Definition copy_snapshot (tenant srcID from collID to : string) (overwrite : bool) : DProg (Resource + DErr) :=
  let broken : DProg (Resource + DErr) := DRet (inr ErrIndex) in
  query (fun db => getResourceQ db srcID from) broken (fun root =>
  match root with
  | None => DRet (inr ErrNotFound)
  | Some root =>
      query (fun db => requireParent db collID to) broken (fun bad =>
      match bad with
      | Some e => DRet (inr e)
      | None =>
          if is_dir (rKind root)
          then query (list_rows srcID from (mkListOpts from true 0 false 0 "")) broken (fun desc =>
                 copy_write tenant srcID from collID to overwrite (root :: desc))
          else copy_write tenant srcID from collID to overwrite [root]
      end)
  end).

Definition copyBetween (srcID from collID to : string) (overwrite : bool) : DProg (Resource + DErr) :=
  let broken : DProg (Resource + DErr) := DRet (inr ErrIndex) in
  query (fun db => GetCollectionByID db collID) broken (fun coll =>
  match coll with
  | None => DRet (inr ErrNotFound)
  | Some coll =>
      if srcID =s collID then copy_snapshot (cTenant coll) srcID from collID to overwrite
      else query (fun db => GetCollectionByID db srcID) broken (fun sc =>
           match sc with
           | Some sc =>
               if cTenant sc =s cTenant coll then copy_snapshot (cTenant coll) srcID from collID to overwrite
               else DRet (inr ErrNotFound)
           | None => DRet (inr ErrNotFound)
           end)
  end).

Definition Copy (collID from to : string) (overwrite : bool) : DProg (Resource + DErr) :=
  match checkMoveCopyPaths from to with
  | inr PCycle => DRet (inr ErrCycle)
  | inr (PBad e) => DRet (inr (ErrBadPath e))
  | inl (from, to) => copyBetween collID from collID to overwrite
  end.

Definition CopyAcross (srcID from dstID to : string) (overwrite : bool) : DProg (Resource + DErr) :=
  if srcID =s dstID then Copy dstID from to overwrite
  else match NormalizePath from, NormalizePath to with
       | inr e, _ | inl _, inr e => DRet (inr (ErrBadPath e))
       | inl from, inl to =>
           if (from =s "") || (to =s "") then DRet (inr (ErrBadPath IsRoot)) else copyBetween srcID from dstID to overwrite
       end.

(** *** Collections *)

(** INSERT: the primary key, and the unique index on live (tenant, name). *)
Definition insertCollection (c : Collection) (db : DB) : option DB :=
  match collections db !! cID c, GetCollection db (cTenant c) (cName c) with
  | None, None => Some (set_collection c db)
  | _, _ => None
  end.

(** [ensureCollectionOnce]; [None]: the INSERT met a unique index. *)
Definition ensureCollectionOnce (tenant name id : string) (now : Z) (db : DB) : option (Collection * bool * DB) :=
  match GetCollection db tenant name with
  | Some c => Some (c, false, db)
  | None =>
      let c := mkColl id tenant name 0 0 0 ∅ ∅ now now None in
      match insertCollection c db with Some db => Some (c, true, db) | None => None end
  end.

(** Two attempts, each with an id of its own. *)
Fixpoint ensure_attempts (attempts : nat) (tenant name : string) : DProg (Collection * bool + DErr) :=
  DClock (fun now =>
  DBegin (fun db =>
    DMint (fun id =>
    match ensureCollectionOnce tenant name ("dc_" ++ id) now db with
    | Some (c, created, db) => DCommit db (DRet (inl (c, created))) (DRet (inr ErrIndex))
    | None =>
        DRollback (match attempts with S attempts => ensure_attempts attempts tenant name | 0%nat => DRet (inr ErrIndex) end)
    end))
    (DRet (inr ErrIndex))).

Definition EnsureCollection (tenant name : string) : DProg (Collection * bool + DErr) :=
  let name := TrimSpace name in
  if tenant =s "" then DRet (inr ErrTenant)
  else if negb (ValidCollectionName name) then DRet (inr ErrName)
  else ensure_attempts 1 tenant name.

(** One UPDATE statement and a reread. *)
Definition set_policy (p : Policy) (now : Z) (c : Collection) : Collection :=
  mkColl (cID c) (cTenant c) (cName c) (SyncToken c) (BytesUsed c) (ResourceCount c) p (cLinks c) (cCreated c) now (cDeleted c).
Definition set_links (l : Links) (now : Z) (c : Collection) : Collection :=
  mkColl (cID c) (cTenant c) (cName c) (SyncToken c) (BytesUsed c) (ResourceCount c) (cPolicy c) l (cCreated c) now (cDeleted c).
Definition update_named (tenant name : string) (f : Z -> Collection -> Collection) : DProg (Collection + DErr) :=
  DClock (fun now =>
  DBegin (fun db =>
    match GetCollection db tenant name with
    | None => DRollback (DRet (inr ErrNotFound))
    | Some c =>
        DCommit (set_collection (f now c) db)
          (query (fun db => GetCollection db tenant name) (DRet (inr ErrIndex)) (fun c =>
             DRet (match c with Some c => inl c | None => inr ErrNotFound end)))
          (DRet (inr ErrIndex))
    end)
    (DRet (inr ErrIndex))).

Definition SetCollectionPolicy (tenant name : string) (p : Policy) : DProg (Collection + DErr) :=
  if negb (PolicyValidate p) then DRet (inr ErrPolicy) else update_named tenant name (set_policy p).
Definition SetCollectionLinks (tenant name : string) (l : Links) : DProg (Collection + DErr) :=
  if negb (LinksValidate l) then DRet (inr ErrLinks) else update_named tenant name (set_links l).

Definition retire (now token : Z) (c : Collection) : Collection :=
  mkColl (cID c) (cTenant c) (cName c) token 0 0 (cPolicy c) (cLinks c) (cCreated c) now (Some now).

Definition delete_collection_tx (tenant name : string) (force : bool) (now at_ : Z) (db : DB) : TxOut bool :=
  match GetCollection db tenant name with
  | None => TxSame false
  | Some c =>
      if (0 <? ResourceCount c)%Z && negb force then TxFail ErrNotEmpty
      else
        let token := (SyncToken c + 1)%Z in
        let db := update_where (fun r => (CollectionID r =s cID c) && live r) (setrow_tomb now token) db in
        TxDone true [] (set_collection (retire now token c) db)
  end.

Definition DeleteCollection (tenant name : string) (force : bool) : DProg (bool + DErr) :=
  write (delete_collection_tx tenant name force) [].

(** *** Sweep *)

Record SweepReport := mkSwept { Scanned : nat; Orphans : nat; Tombstones : nat; Collections : nat; Errors : nat; OrphanBytes : nat }.

Definition dead_before (cutoff : Z) (deleted : option Z) : bool :=
  match deleted with Some t => (t <? cutoff)%Z | None => false end.
Definition purge_resources (cutoff : Z) (db : DB) : DB :=
  set_resources (filter (fun kv => dead_before cutoff (rDeleted kv.2) = false) (resources db)) db.
Definition purge_collections (cutoff : Z) (db : DB) : DB :=
  mkDB (filter (fun kv => dead_before cutoff (cDeleted kv.2) = false) (collections db)) (resources db) (outbox db).

(** One DELETE statement. *)
Definition statement {A} (f : DB -> DB) (broken : DProg A) (k : nat -> DProg A) (count : DB -> nat) : DProg A :=
  DBegin (fun db => DCommit (f db) (k (count db)) broken) broken.

Definition referenced (key : string) (db : DB) : bool :=
  negb (length (select (fun r => (ObjectKey r =s key) && live r) db) =? 0)%nat.

Fixpoint sweep_objects (cutoff : Z) (objs : list (string * Object)) (rep : SweepReport) : DProg (SweepReport * bool) :=
  match objs with
  | [] => DRet (rep, true)
  | (key, o) :: objs =>
      let rep := mkSwept (S (Scanned rep)) (Orphans rep) (Tombstones rep) (Collections rep) (Errors rep) (OrphanBytes rep) in
      let failed := mkSwept (Scanned rep) (Orphans rep) (Tombstones rep) (Collections rep) (S (Errors rep)) (OrphanBytes rep) in
      if (cutoff <? o_mod o)%Z then sweep_objects cutoff objs rep
      else
        query (referenced key) (sweep_objects cutoff objs failed) (fun yes =>
        if yes then sweep_objects cutoff objs rep
        else DObjDelete key (fun ok =>
             sweep_objects cutoff objs
               (if ok then mkSwept (Scanned rep) (S (Orphans rep)) (Tombstones rep) (Collections rep) (Errors rep)
                             (OrphanBytes rep + slen (o_body o))
                else failed)))
  end.

(** The report, and whether the pass ended without an error. *)
Definition Sweep (grace tombstoneRetention : Z) : DProg (SweepReport * bool) :=
  DClock (fun now =>
  let none := mkSwept 0 0 0 0 0 0 in
  let walk rep :=
    DObjList (fun objs => match objs with
                          | None => DRet (rep, false)
                          | Some objs => sweep_objects (now - grace) objs rep
                          end) in
  if (0 <? tombstoneRetention)%Z then
    let cutoff := (now - tombstoneRetention)%Z in
    statement (purge_resources cutoff) (DRet (none, false)) (fun n =>
      let rep := mkSwept 0 0 n 0 0 0 in
      statement (purge_collections cutoff) (DRet (rep, false)) (fun m => walk (mkSwept 0 0 n m 0 0))
        (fun db => length (filter (fun c => dead_before cutoff (cDeleted c) = true) (map_to_list (collections db)).*2)))
      (fun db => length (filter (fun r => dead_before cutoff (rDeleted r) = true) (map_to_list (resources db)).*2))
  else walk none).
End Ops.
