(* ===== verification/DriveRows.v ===== *)
(** * Drive: sums over rows, queries and updates

    The lemmas the invariants share: a SUM over a table after an insert or an
    UPDATE ... WHERE, what the queries return when live paths are unique, and
    the text facts behind LIKE and SUBSTR. *)

From Stdlib Require Import Ascii String ZArith Lia Bool.
From stdpp Require Import base tactics list strings gmap sorting relations.
From S2P Require Import Prelude GoStrings GoJson GoPath Opname DrivePath Drive.

#[local] Open Scope string_scope.

(** ** SUM *)

Lemma msum_insert f m k r : m !! k = None -> msum f (<[k := r]> m) = (f r + msum f m)%Z.
Proof. intros H. unfold msum. rewrite map_fold_insert_L; [done| |done]. intros. lia. Qed.

Lemma msum_empty f : msum f ∅ = 0%Z.
Proof. unfold msum. by rewrite map_fold_empty. Qed.

Lemma msum_fmap f g m : msum f (g <$> m) = msum (fun r => f (g r)) m.
Proof.
  induction m as [|k r m Hk IH] using map_ind; [by rewrite fmap_empty|].
  rewrite fmap_insert, !msum_insert, IH by (by rewrite ?lookup_fmap, ?Hk). done.
Qed.

Lemma msum_ext f g m : (forall k r, m !! k = Some r -> f r = g r) -> msum f m = msum g m.
Proof.
  induction m as [|k r m Hk IH] using map_ind; intros H; [done|]. rewrite !msum_insert by done.
  rewrite (H k r) by apply lookup_insert_eq. f_equal. apply IH. intros k' r' Hr. apply (H k').
  rewrite lookup_insert_ne; [done|]. congruence.
Qed.

Lemma msum_sub f g m : msum (fun r => (f r - g r)%Z) m = (msum f m - msum g m)%Z.
Proof. induction m as [|k r m Hk IH] using map_ind; [done|]. rewrite !msum_insert, IH by done. lia. Qed.

Lemma msum_add f g m : msum (fun r => (f r + g r)%Z) m = (msum f m + msum g m)%Z.
Proof. induction m as [|k r m Hk IH] using map_ind; [done|]. rewrite !msum_insert, IH by done. lia. Qed.

Lemma msum_zero f m : (forall k r, m !! k = Some r -> f r = 0%Z) -> msum f m = 0%Z.
Proof.
  intros H. rewrite (msum_ext f (fun _ => 0%Z)) by (intros; by eapply H).
  clear H. induction m as [|k r m Hk IH] using map_ind; [done|]. rewrite msum_insert, IH by done. lia.
Qed.

Lemma msum_nonneg f m : (forall k r, m !! k = Some r -> (0 <= f r)%Z) -> (0 <= msum f m)%Z.
Proof.
  induction m as [|k r m Hk IH] using map_ind; intros H; [by rewrite msum_empty|]. rewrite msum_insert by done.
  pose proof (H k r (lookup_insert_eq _ _ _)). enough (0 <= msum f m)%Z by lia.
  apply IH. intros k' r' Hr. apply (H k'). rewrite lookup_insert_ne; [done|]. congruence.
Qed.

(** One row of the table. *)
Lemma msum_single f m k r : m !! k = Some r -> (forall k' r', m !! k' = Some r' -> k' <> k -> f r' = 0%Z) -> msum f m = f r.
Proof.
  intros H Hz. rewrite <- (insert_delete_id m k r H), msum_insert by apply lookup_delete_eq.
  rewrite msum_zero; [lia|]. intros k' r' Hr. apply lookup_delete_Some in Hr as [Hn Hr]. by eapply Hz.
Qed.

(** The sum after removing rows keeps the two parts apart. *)
Lemma msum_filter f P m :
  msum f (filter (fun kv : string * Resource => P kv.2 = true) m) = msum (fun r => if P r then f r else 0%Z) m.
Proof.
  induction m as [|k r m Hk IH] using map_ind; [done|]. rewrite msum_insert by done. destruct (P r) eqn:E.
  - rewrite map_filter_insert_True by done. rewrite msum_insert, IH; [done|]. by apply map_lookup_filter_None_2; left.
  - rewrite map_filter_insert_False by (cbn; congruence). rewrite map_filter_delete, delete_id, IH; [lia|].
    by apply map_lookup_filter_None_2; left.
Qed.

(** ** SELECT *)

#[export] Instance path_le_total : Total path_le.
Proof. intros r1 r2. unfold path_le. destruct (total string_le (Path r1) (Path r2)); auto. Qed.
#[export] Instance path_le_trans : Transitive path_le.
Proof. intros r1 r2 r3. unfold path_le. by trans (Path r2). Qed.

Lemma elem_of_select P db r : r ∈ select P db <-> P r = true /\ exists id, resources db !! id = Some r.
Proof.
  unfold select. rewrite merge_sort_Permutation, list_elem_of_filter, list_elem_of_fmap. split.
  - intros [HP ((id & r') & -> & H%elem_of_map_to_list)]. eauto.
  - intros [HP (id & H)]. split; [done|]. exists (id, r). by rewrite elem_of_map_to_list.
Qed.

Lemma select_nil P db : select P db = [] <-> forall id r, resources db !! id = Some r -> P r = false.
Proof.
  split.
  - intros E id r H. apply not_true_iff_false. intros HP. assert (Hin : r ∈ select P db) by (apply elem_of_select; eauto).
    rewrite E in Hin. by apply elem_of_nil in Hin.
  - intros H. destruct (select P db) as [|r l] eqn:E; [done|].
    assert (Hin : r ∈ select P db) by (rewrite E; left). apply elem_of_select in Hin as [HP (id & Hr)].
    by rewrite (H id r) in HP.
Qed.

Lemma getResourceQ_Some db c p r :
  getResourceQ db c p = Some r ->
  (exists id, resources db !! id = Some r) /\ CollectionID r = c /\ Path r = p /\ live r = true.
Proof.
  unfold getResourceQ. destruct (select _ db) as [|r' l] eqn:E; [done|]. intros [= ->].
  assert (Hin : r ∈ select (at_path c p) db) by (rewrite E; left). apply elem_of_select in Hin as [HP Hr].
  unfold at_path in HP. rewrite !andb_true_iff, !String.eqb_eq in HP. naive_solver.
Qed.

Lemma getResourceQ_None db c p : getResourceQ db c p = None <->
  forall id r, resources db !! id = Some r -> live r = true -> CollectionID r = c -> Path r <> p.
Proof.
  unfold getResourceQ. rewrite head_None, select_nil. split; intros H id r Hr.
  - intros Hl Hc Hp. specialize (H id r Hr). unfold at_path in H. by rewrite Hc, Hp, Hl, !String.eqb_refl in H.
  - apply not_true_iff_false. unfold at_path. rewrite !andb_true_iff, !String.eqb_eq. intros ((? & ?) & ?).
    by eapply H.
Qed.

(** Rows are stored under their id. *)
Definition keyed (db : DB) : Prop := forall id r, resources db !! id = Some r -> ResourceID r = id.

Lemma getResourceQ_row db c p r : keyed db -> getResourceQ db c p = Some r ->
  resources db !! ResourceID r = Some r /\ CollectionID r = c /\ Path r = p /\ live r = true.
Proof. intros Hk ((id & Hr) & ? & ? & ?)%getResourceQ_Some. by rewrite (Hk _ _ Hr). Qed.

Lemma insertResource_Some r db db' : insertResource r db = Some db' ->
  resources db !! ResourceID r = None /\ getResourceQ db (CollectionID r) (Path r) = None /\
  db' = set_resources (<[ResourceID r := r]> (resources db)) db.
Proof. unfold insertResource. destruct (resources db !! _); [done|]. destruct (getResourceQ _ _ _); [done|]. naive_solver. Qed.

Lemma lockCollection_inl db id c : lockCollection db id = inl c -> collections db !! id = Some c /\ cDeleted c = None.
Proof.
  unfold lockCollection, GetCollectionByID, cLive. destruct (collections db !! id) as [c'|]; [|done].
  destruct (cDeleted c') eqn:E; [done|]. by intros [= ->].
Qed.

(** ** LIKE below a directory, under any collation *)

Section Below.
Context `{Collation}.

(** The texts LIKE finds below [d]: a spelling of [d], then a slash. *)
Lemma strip_Some s t u : strip char_eq s t = Some u ->
  exists s', t = s' ++ u /\ slen s' = slen s /\ slashes s' = slashes s /\
    sall (fun c => bval c <? 128)%nat s' = sall (fun c => bval c <? 128)%nat s.
Proof.
  revert t; induction s as [|c s IH]; intros t.
  - intros [= ->]. by exists "".
  - destruct t as [|e t]; [done|]. cbn [strip]. destruct (char_eq c e) eqn:E; [|done]. intros (s' & -> & H1 & H2 & H3)%IH.
    exists (String e s'). cbn [sall slen slashes String.append]. rewrite H1, H2, H3, (char_slash _ _ E), (char_ascii _ _ E). done.
Qed.

Lemma strip_self s u : strip char_eq s (s ++ u) = Some u.
Proof. induction s as [|c s IH]; [done|]. cbn. by rewrite char_refl. Qed.

Definition spelling (d F : string) : Prop :=
  slen F = slen d /\ slashes F = slashes d /\
  sall (fun c => bval c <? 128)%nat F = sall (fun c => bval c <? 128)%nat d.

Lemma below_spelling d t : like char_eq (LikePrefix d) t = true -> exists F r, t = F ++ "/" ++ r /\ spelling d F.
Proof.
  unfold LikePrefix. rewrite EscapeLike_literal. destruct (strip char_eq d t) as [u|] eqn:E; [|done].
  apply strip_Some in E as (F & -> & HF). rewrite like_any_slash. destruct u as [|e u]; [done|]. intros He.
  apply char_slash in He. change ("/" =c "/")%char with true in He. symmetry in He. apply Ascii.eqb_eq in He as ->.
  by exists F, u.
Qed.

(** Whatever follows a spelling of [d] and a slash is found. *)
Lemma below_prefix d F u r : like char_eq (LikePrefix d) (F ++ "/" ++ u) = true -> slen F = slen d ->
  like char_eq (LikePrefix d) (F ++ "/" ++ r) = true.
Proof.
  unfold LikePrefix. rewrite !EscapeLike_literal. intros Hl HF.
  destruct (strip char_eq d (F ++ "/" ++ u)) as [v|] eqn:E; [|done].
  assert (Hs : strip char_eq d (F ++ "/" ++ r) = Some ("/" ++ r)); [|rewrite Hs, like_any_slash; apply char_refl].
  clear Hl. revert F HF E. induction d as [|c d IH]; intros [|e F]; try done; cbn.
  intros [= HF]. destruct (char_eq c e); [|done]. by apply IH.
Qed.

Lemma below_self d r : like char_eq (LikePrefix d) (d ++ "/" ++ r) = true.
Proof. unfold LikePrefix. rewrite EscapeLike_literal, strip_self, like_any_slash. apply char_refl. Qed.

Lemma below_inside d p : d <> "" -> IsInside p d = true -> like char_eq (LikePrefix d) p = true.
Proof. intros Hd (r & ->)%IsInside_spec; [|done]. apply below_self. Qed.

(** A path found below [d] has a parent that is a spelling of [d] or is found
    below [d] too; and everything inside a found path is found. *)
Lemma below_parent d p : like char_eq (LikePrefix d) p = true ->
  spelling d (ParentOf p) \/ like char_eq (LikePrefix d) (ParentOf p) = true.
Proof.
  intros Hl. destruct (below_spelling d p Hl) as (F & r & -> & HF). rewrite ParentOf_below.
  destruct (no_slashb r); [by left|]. right. eapply below_prefix; [exact Hl|]. apply HF.
Qed.

Lemma below_closed d p q : p <> "" -> like char_eq (LikePrefix d) p = true -> IsInside q p = true ->
  like char_eq (LikePrefix d) q = true.
Proof.
  intros Hp Hl (s & ->)%IsInside_spec; [|done]. destruct (below_spelling d p Hl) as (F & r & -> & HF).
  rewrite <- !sapp_assoc in *. eapply below_prefix; [exact Hl|]. apply HF.
Qed.

Lemma strip_trans s t q u v : strip char_eq s t = Some u -> strip char_eq t q = Some v ->
  exists w, strip char_eq s q = Some w /\ strip char_eq u w = Some v.
Proof.
  revert t q; induction s as [|c s IH]; intros t q.
  - intros [= ->] H1. by exists q.
  - destruct t as [|d t]; [done|]. destruct q as [|e q]; [done|]. cbn [strip].
    destruct (char_eq c d) eqn:E1; [|done]. destruct (char_eq d e) eqn:E2; [|done].
    rewrite (char_trans _ _ _ E1 E2). apply IH.
Qed.

(** LIKE is transitive: what is found below something found below [d]. *)
Lemma below_trans d p q : like char_eq (LikePrefix d) p = true -> like char_eq (LikePrefix p) q = true ->
  like char_eq (LikePrefix d) q = true.
Proof.
  unfold LikePrefix. rewrite !EscapeLike_literal. destruct (strip char_eq d p) as [u|] eqn:E1; [|done]. rewrite like_any_slash.
  destruct (strip char_eq p q) as [v|] eqn:E2; [|done]. intros Hu _. destruct (strip_trans _ _ _ _ _ E1 E2) as (w & -> & Hw).
  rewrite like_any_slash. destruct u as [|e u]; [done|]. destruct w as [|f w]; [done|]. cbn [strip] in Hw.
  destruct (char_eq e f) eqn:E; [|done]. by eapply char_trans.
Qed.

Lemma below_longer d p : like char_eq (LikePrefix d) p = true -> slen d < slen p.
Proof. intros (F & r & -> & HF & _)%below_spelling. rewrite !slen_app. simpl. lia. Qed.
End Below.

(** ** SUBSTR *)

Definition asciib (s : string) : bool := sall (fun c => bval c <? 128)%nat s.

Lemma ascii_not_cont c : (bval c <? 128)%nat = true -> is_cont c = false.
Proof. unfold is_cont, between. intros H%Nat.ltb_lt. apply andb_false_iff. left. apply Nat.leb_gt. lia. Qed.

Lemma skip_cont_ascii c s : (bval c <? 128)%nat = true -> skip_cont (String c s) = String c s.
Proof. intros H. cbn. by rewrite ascii_not_cont. Qed.

(** Dropping as many characters as an ASCII prefix has bytes drops the prefix,
    when a character starts after it. *)
Lemma substr_drop_ascii F u : asciib F = true -> skip_cont u = u -> substr_drop (slen F) (F ++ u) = u.
Proof.
  unfold asciib. induction F as [|c F IH]; intros Ha Hu; [done|]. cbn [sall] in Ha.
  apply andb_true_iff in Ha as [_ Ha]. cbn [slen String.append substr_drop].
  replace (skip_cont (F ++ u)) with (F ++ u); [by apply IH|].
  destruct F as [|e F]; [done|]. cbn [sall] in Ha. apply andb_true_iff in Ha as [He _]. symmetry. by apply skip_cont_ascii.
Qed.

#[export] Instance Collation_exact : Collation.
Proof.
  refine {| char_eq := Ascii.eqb; char_refl := Ascii.eqb_refl |}; [|by intros c d ->%Ascii.eqb_eq..].
  by intros c d e ->%Ascii.eqb_eq ->%Ascii.eqb_eq; apply Ascii.eqb_refl.
Defined.

(** SQLite's LIKE. *)
Lemma to_lower_law c : (to_lower c =c "/")%char = (c =c "/")%char /\ (bval (to_lower c) <? 128)%nat = (bval c <? 128)%nat.
Proof. by destruct c as [[] [] [] [] [] [] [] []]. Qed.

Definition Collation_sqlite : Collation.
Proof.
  refine {| char_eq := fold_eq; char_refl := fun c => Ascii.eqb_refl (to_lower c) |}; unfold fold_eq.
  - by intros c d e ->%Ascii.eqb_eq.
  - intros c d E%Ascii.eqb_eq. destruct (to_lower_law c) as [<- _], (to_lower_law d) as [<- _]. by rewrite E.
  - intros c d E%Ascii.eqb_eq. destruct (to_lower_law c) as [_ <-], (to_lower_law d) as [_ <-]. by rewrite E.
Defined.
