(* ===== verification/DriveTxn.v ===== *)
(** * Drive: the programs refine a system of index transactions

    [txn] is the abstract index: one step per write transaction, all its reads
    and writes at once.  Every operation only ever commits such steps, so any
    number of callers, interleaved call by call and with any call failing, take
    the index through a sequence of them. *)

From Stdlib Require Import Ascii String ZArith Lia Bool.
From stdpp Require Import base tactics list strings gmap sorting relations.
From S2P Require Import Prelude GoStrings GoJson GoPath Opname DrivePath Drive DriveRows.

#[local] Open Scope string_scope.

(** ** Programs and the commits they make *)

Fixpoint dbind {A B} (p : DProg A) (f : A -> DProg B) : DProg B :=
  match p with
  | DRet x => f x
  | DMint k => DMint (fun id => dbind (k id) f)
  | DClock k => DClock (fun t => dbind (k t) f)
  | DQuery k broken => DQuery (fun db => dbind (k db) f) (dbind broken f)
  | DBegin k broken => DBegin (fun db => dbind (k db) f) (dbind broken f)
  | DCommit db k broken => DCommit db (dbind k f) (dbind broken f)
  | DRollback k => DRollback (dbind k f)
  | DObjPut key body k => DObjPut key body (fun ok => dbind (k ok) f)
  | DObjCopy from to k => DObjCopy from to (fun ok => dbind (k ok) f)
  | DObjDelete key k => DObjDelete key (fun ok => dbind (k ok) f)
  | DObjList k => DObjList (fun l => dbind (k l) f)
  | DSink m k => DSink m (dbind k f)
  end.

(** Every commit of [p] takes the index the transaction began with to one
    related to it; [held] is that index while a transaction is open. *)
Fixpoint commits {A} (R : DB -> DB -> Prop) (held : option DB) (p : DProg A) : Prop :=
  match p with
  | DRet _ => held = None
  | DMint k => forall id, commits R held (k id)
  | DClock k => forall t, commits R held (k t)
  | DQuery k broken => (forall db, commits R held (k db)) /\ commits R held broken
  | DBegin k broken => held = None /\ (forall db, commits R (Some db) (k db)) /\ commits R None broken
  | DCommit db' k broken => (exists db, held = Some db /\ R db db') /\ commits R None k /\ commits R None broken
  | DRollback k => held <> None /\ commits R None k
  | DObjPut _ _ k | DObjCopy _ _ k | DObjDelete _ k => forall ok, commits R held (k ok)
  | DObjList k => forall l, commits R held (k l)
  | DSink _ k => commits R held k
  end.

Section Generic.
Variable R : DB -> DB -> Prop.

Lemma commits_bind {A B} held (p : DProg A) (f : A -> DProg B) :
  commits R held p -> (forall x, commits R None (f x)) -> commits R held (dbind p f).
Proof using.
  revert held. induction p as [x|k IH|k IH|k IH br IHb|k IH br IHb|db k IH br IHb|k IH|? ? k IH|? ? k IH|? k IH|k IH|m k IH];
    cbn; intros held Hp Hf; try (by intros; apply IH).
  - by rewrite Hp.
  - destruct Hp. split; [|by apply IHb]. intros. by apply IH.
  - destruct Hp as (-> & Hk & Hb). split_and!; [done| |by apply IHb]. intros. by apply IH.
  - destruct Hp as (? & Hk & Hb). split_and!; [done|by apply IH|by apply IHb].
  - destruct Hp. split; [done|]. by apply IH.
Qed.

Lemma commits_discard {A} held keys (k : DProg A) : commits R held k -> commits R held (discard keys k).
Proof using. revert held. induction keys as [|key keys IH]; cbn; [done|]. intros held Hk _. by apply IH. Qed.

Lemma commits_emit {A} tr ms (x : A) : commits R None (emitPostAll tr ms x).
Proof using. induction ms as [|m ms IH]; cbn; by destruct tr. Qed.

Lemma commits_write {A} tr (body : Z -> Z -> DB -> TxOut A) keys :
  (forall now at_ db x ms db', body now at_ db = TxDone x ms db' -> R db (with_outbox tr ms db')) ->
  commits R None (write tr body keys).
Proof using.
  intros HR. unfold write. cbn. intros now. split_and!; [done| |by apply commits_discard].
  intros db at_. destruct (body now at_ db) as [e|x|x ms db'] eqn:E.
  - by apply commits_discard.
  - cbn. split; [done|]. by apply commits_discard.
  - cbn. split_and!; [eauto|apply commits_emit|by apply commits_discard].
Qed.

(** *** Worlds *)

(** At most one caller is in a transaction, on the index as it stands. *)
Definition orderly {A} (ps : list (DProg A)) (w : World) : Prop :=
  exists helds : list (option DB), Forall2 (fun h p => commits R h p) helds ps /\
    (if w_lock w then exists i, helds !! i = Some (Some (w_db w)) /\ forall j h, helds !! j = Some (Some h) -> j = i
     else Forall (fun h => h = None) helds).

Lemma orderly_start {A} (ps : list (DProg A)) w : w_lock w = false -> Forall (commits R None) ps -> orderly ps w.
Proof using.
  intros Hl Hps. exists (replicate (length ps) None). rewrite Hl. split.
  - induction Hps; cbn; by constructor.
  - by apply Forall_replicate.
Qed.

(** What a single step does to the transaction it belongs to. *)
Lemma dstep_held {A} (p p' : DProg A) w w' h :
  dstep p w p' w' -> commits R h p -> (w_lock w = false -> h = None) -> (forall db, h = Some db -> w_lock w = true /\ db = w_db w) ->
  exists h', commits R h' p' /\
    ((h' = h /\ w_lock w' = w_lock w /\ w_db w' = w_db w) \/
     (h = None /\ h' = Some (w_db w) /\ w_lock w = false /\ w_lock w' = true /\ w_db w' = w_db w) \/
     (h = Some (w_db w) /\ h' = None /\ w_lock w' = false /\ (w_db w' = w_db w \/ R (w_db w) (w_db w')))).
Proof using.
  intros Hs Hc Hn Hh. destruct Hs; cbn in Hc; try (exists h; split; [by try apply Hc|by left]).
  - exists (Some (w_db w)). destruct Hc as (-> & Hc & _). split; [apply Hc|]. right. left. done.
  - exists None. destruct Hc as (-> & _ & Hc). split; [done|]. by left.
  - destruct Hc as ((db0 & -> & HR) & Hc & _). destruct (Hh db0 eq_refl) as [Hl ->]. exists None. split; [done|]. right. right. cbn. auto.
  - destruct Hc as ((db0 & -> & _) & _ & Hc). destruct (Hh db0 eq_refl) as [Hl ->]. exists None. split; [done|]. right. right. cbn. auto.
  - destruct Hc as [Hne Hc]. destruct h as [db0|]; [|done]. destruct (Hh db0 eq_refl) as [Hl ->]. exists None. split; [done|].
    right. right. cbn. auto.
Qed.

Lemma orderly_step {A} (ps ps' : list (DProg A)) w w' :
  orderly ps w -> dpstep (ps, w) (ps', w') -> orderly ps' w' /\ (w_db w' = w_db w \/ R (w_db w) (w_db w')).
Proof using.
  intros (hs & HF & Hl) Hs. inversion Hs as [i ps0 p p' w0 w0' Hp Hst E1 E2]; subst. clear Hs.
  destruct (Forall2_lookup_r _ _ _ _ _ HF Hp) as (h & Hh & Hc).
  destruct (dstep_held p p' w w' h Hst Hc) as (h' & Hc' & Hcases).
  { intros El. rewrite El in Hl. by eapply (Forall_lookup_1 _ _ _ _ Hl). }
  { intros db ->. destruct (w_lock w) eqn:El.
    - destruct Hl as (j & Hj & Hu). rewrite (Hu _ _ Hh) in Hh. rewrite Hj in Hh. by injection Hh as <-.
    - by apply (Forall_lookup_1 _ _ _ _ Hl) in Hh. }
  assert (Hlen : i < length hs) by by eapply lookup_lt_Some.
  split; [|naive_solver]. exists (<[i := h']> hs). split; [by apply Forall2_insert|].
  destruct Hcases as [(-> & -> & ->)|[(-> & -> & El & -> & ->)|(-> & -> & -> & _)]].
  - by rewrite list_insert_id.
  - rewrite El in Hl. exists i. rewrite list_lookup_insert_eq by done. split; [done|]. intros j h Hj.
    destruct (decide (j = i)) as [|Hne]; [done|]. rewrite list_lookup_insert_ne in Hj by done. by apply (Forall_lookup_1 _ _ _ _ Hl) in Hj.
  - apply Forall_lookup_2. intros j h Hj. destruct (decide (j = i)) as [->|Hne].
    + rewrite list_lookup_insert_eq in Hj by done. by injection Hj as <-.
    + rewrite list_lookup_insert_ne in Hj by done. destruct h as [h|]; [|done]. destruct (w_lock w).
      * destruct Hl as (j0 & Hj0 & Hu). rewrite (Hu _ _ Hh) in Hne. by rewrite (Hu _ _ Hj) in Hne.
      * by apply (Forall_lookup_1 _ _ _ _ Hl) in Hj.
Qed.

Lemma runs_commit {A} (ps ps' : list (DProg A)) w w' :
  Forall (commits R None) ps -> w_lock w = false -> rtc dpstep (ps, w) (ps', w') -> rtc R (w_db w) (w_db w').
Proof using.
  intros Hps Hl Hr. pose proof (orderly_start ps w Hl Hps) as Ho. clear Hps Hl.
  remember (ps, w) as s eqn:Es. remember (ps', w') as s' eqn:Es'. revert ps w Es Ho.
  induction Hr as [s|s [ps1 w1] s2 Hst Hr IH]; intros ps w -> Ho.
  - injection Es' as <- <-. apply rtc_refl.
  - destruct (orderly_step _ _ _ _ Ho Hst) as [Ho1 [E|HR]].
    + rewrite <- E. by apply (IH Es' ps1 w1).
    + eapply rtc_l; [exact HR|]. by apply (IH Es' ps1 w1).
Qed.
End Generic.

Lemma commits_mono {A} (R1 R2 : DB -> DB -> Prop) held (p : DProg A) :
  (forall db db', R1 db db' -> R2 db db') -> commits R1 held p -> commits R2 held p.
Proof.
  intros HR. revert held. induction p as [x|k IH|k IH|k IH br IHb|k IH br IHb|db k IH br IHb|k IH|? ? k IH|? ? k IH|? k IH|k IH|m k IH];
    cbn; intros held; try done; try (by intros; apply IH).
  - intros []. split; [|by apply IHb]. intros. by apply IH.
  - intros (? & ? & ?). split_and!; [done| |by apply IHb]. intros. by apply IH.
  - intros ((db0 & ? & ?) & ? & ?). split_and!; [eauto|by apply IH|by apply IHb].
  - intros []. split; [done|]. by apply IH.
Qed.

(** A run of one program alone is a run. *)
Lemma dalone_run {A} (p : DProg A) : forall ids w x w', dalone ids p w = Some (x, w') -> rtc dpstep ([p], w) ([DRet x], w').
Proof.
  assert (Hs : forall (p p' : DProg A) w w1 s, dstep p w p' w1 -> rtc dpstep ([p'], w1) s -> rtc dpstep ([p], w) s).
  { intros p1 p2 w w1 s Hd Hr. eapply rtc_l; [|exact Hr]. by eapply (dpstep_at 0 [p1] p1 p2). }
  induction p as [y|k IH|k IH|k IH br IHb|k IH br IHb|db k IH br IHb|k IH|key body k IH|from to k IH|key k IH|k IH|m k IH];
    cbn; intros ids w x w' E.
  - injection E as <- <-. apply rtc_refl.
  - destruct ids as [|id ids]; [done|]. destruct (_ || _) eqn:Ec; [done|]. apply orb_false_iff in Ec as [E1%bool_decide_eq_false E2%negb_false_iff].
    eapply Hs; [by constructor|]. by eapply IH.
  - eapply Hs; [by apply (ds_clock (w_time w))|]. by eapply IH.
  - eapply Hs; [by constructor|]. by eapply IH.
  - destruct (w_lock w) eqn:El; [done|]. eapply Hs; [by constructor|]. by eapply IH.
  - eapply Hs; [by constructor|]. by eapply IH.
  - eapply Hs; [by constructor|]. by eapply IH.
  - eapply Hs; [by constructor|]. by eapply IH.
  - destruct (w_objects w !! from) as [o|] eqn:Eo; (eapply Hs; [by constructor|]; by eapply IH).
  - eapply Hs; [by constructor|]. by eapply IH.
  - eapply Hs; [by constructor|]. by eapply IH.
  - eapply Hs; [by constructor|]. by eapply IH.
Qed.

(** ** The index transactions *)

(** The rows of a copy inserted one after the other. *)
Fixpoint insert_all (rows : list Resource) (db : DB) : option DB :=
  match rows with
  | [] => Some db
  | r :: rows => match insertResource r db with Some db => insert_all rows db | None => None end
  end.

Section Txn.
Context `{Unicode} `{Collation} `{Platform}.
Variable lim : Limits.
Variable tr : bool.
(** The moves the callers ask for, by normalized source and destination. *)
Variable fit : string -> string -> Prop.
(** The tombstone retentions they sweep with, in seconds; one of 0 or less
    purges nothing. *)
Variable purging : Z -> Prop.

Definition normal_path (p : string) : Prop := exists p0, NormalizePath p0 = inl p.

(** [made] pairs the rows read with their copies. *)
Definition copies_of (collID from to : string) (token now : Z) (rows : list Resource) (made : list (Resource * Resource)) : Prop :=
  Forall2 (fun r rc => rc.1 = r /\ exists cp, rc.2 = copy_row collID from to cp token now r) rows made.

Inductive txn : DB -> DB -> Prop :=
  | txn_put collID p id key size ct etag opts now at_ db x ms db' :
      normal_path p -> p <> "" -> (0 <= size)%Z ->
      put_tx lim collID p id key size ct etag opts now at_ db = TxDone x ms db' -> txn db (with_outbox tr ms db')
  | txn_mkdir collID p id now at_ db x ms db' :
      normal_path p -> p <> "" -> mkdir_tx lim collID p id now at_ db = TxDone x ms db' -> txn db (with_outbox tr ms db')
  | txn_delete collID find opts now at_ db x ms db' :
      (exists p, find = fun db => getResourceQ db collID p) \/ (exists id, find = fun db => getResourceByIDQ db collID id) ->
      delete_tx collID find opts now at_ db = TxDone x ms db' -> txn db (with_outbox tr ms db')
  | txn_move collID from0 to0 from to overwrite now at_ db x ms db' :
      checkMoveCopyPaths from0 to0 = inl (from, to) -> fit from to ->
      move_tx collID from to overwrite now at_ db = TxDone x ms db' -> txn db (with_outbox tr ms db')
  | txn_copy srcID from collID to overwrite now at_ db src rows replaced c db1 made db2 ms :
      normal_path from -> from <> "" -> normal_path to -> to <> "" ->
      (srcID = collID -> exists from0 to0, checkMoveCopyPaths from0 to0 = inl (from, to)) ->
      copy_plan lim srcID from collID to overwrite now at_ db = inl (src, rows, replaced, c, db1) ->
      copies_of collID from to (SyncToken c) now rows made -> insert_all made.*2 db1 = Some db2 ->
      ms = (replaced ++ created_events c src made (from_option snd src (head made)) at_)%list ->
      txn db (with_outbox tr ms (advance (charge c (sizes rows) (Z.of_nat (length rows))) now db2))
  | txn_ensure tenant name id now db c created db' :
      ensureCollectionOnce tenant name id now db = Some (c, created, db') -> txn db db'
  | txn_policy tenant name p now db c :
      GetCollection db tenant name = Some c -> txn db (set_collection (set_policy p now c) db)
  | txn_links tenant name l now db c :
      GetCollection db tenant name = Some c -> txn db (set_collection (set_links l now c) db)
  | txn_drop tenant name force now at_ db x ms db' :
      delete_collection_tx tenant name force now at_ db = TxDone x ms db' -> txn db (with_outbox tr ms db')
  | txn_purge_rows retention cutoff db : (0 < retention)%Z -> purging retention -> txn db (purge_resources cutoff db)
  | txn_purge_colls retention cutoff db : (0 < retention)%Z -> purging retention -> txn db (purge_collections cutoff db).

(** The operations callers run. *)
Inductive drive_op : forall A : Type, DProg A -> Prop :=
  | op_put collID p body size opts : drive_op _ (Put lim tr collID p body size opts)
  | op_mkdir collID p : drive_op _ (Mkdir lim tr collID p)
  | op_stat collID p : drive_op _ (Stat collID p)
  | op_stat_id collID id : drive_op _ (StatByID collID id)
  | op_list collID o : drive_op _ (List_ collID o)
  | op_delete collID p o : drive_op _ (Delete tr collID p o)
  | op_delete_id collID id o : drive_op _ (DeleteByID tr collID id o)
  | op_move collID from to overwrite :
      (forall from' to', checkMoveCopyPaths from to = inl (from', to') -> fit from' to') ->
      drive_op _ (Move tr collID from to overwrite)
  | op_copy collID from to overwrite : drive_op _ (Copy lim tr collID from to overwrite)
  | op_across srcID from dstID to overwrite : drive_op _ (CopyAcross lim tr srcID from dstID to overwrite)
  | op_ensure tenant name : drive_op _ (EnsureCollection tenant name)
  | op_policy tenant name p : drive_op _ (SetCollectionPolicy tenant name p)
  | op_links tenant name l : drive_op _ (SetCollectionLinks tenant name l)
  | op_drop tenant name force : drive_op _ (DeleteCollection tr tenant name force)
  | op_sweep grace retention : purging retention -> drive_op _ (Sweep grace retention).

(** A caller runs operations one after the other, each chosen from the results
    of those before. *)
Inductive caller : DProg unit -> Prop :=
  | c_done : caller (DRet tt)
  | c_op {A} (p : DProg A) k : drive_op A p -> (forall x, caller (k x)) -> caller (dbind p k).

Lemma copy_rows_commits {A} tenant collID from to token now copies rows0 keys k held :
  forall rows done_ made db0,
  copies_of collID from to token now done_ made -> rows0 = (done_ ++ rows)%list ->
  (forall made' keys' db', copies_of collID from to token now rows0 made' ->
     (exists more, made' = (made ++ more)%list /\ insert_all more.*2 db0 = Some db') -> commits txn (Some held) (k made' keys' db')) ->
  commits txn (Some held) (copy_rows (A := A) tenant collID from to token now copies rows keys made db0 k).
Proof using.
  revert keys. intros keys rows. revert keys. induction rows as [|r rows IH]; intros keys done_ made db0 Hm E Hk.
  - rewrite app_nil_r in E. subst. cbn. apply Hk; [done|]. exists []. by rewrite app_nil_r.
  - assert (Hplace : forall cp keys, commits txn (Some held)
      (match insertResource (copy_row collID from to cp token now r) db0 with
       | Some db => copy_rows tenant collID from to token now copies rows keys (made ++ [(r, copy_row collID from to cp token now r)])%list db k
       | None => DRollback (discard keys (DRet (inr ErrExists)))
       end)).
    { intros cp ks. destruct (insertResource _ db0) as [db1|] eqn:Hi.
      - apply (IH _ (done_ ++ [r])%list).
        + apply Forall2_app; [done|]. repeat constructor. by exists cp.
        + by rewrite <- app_assoc.
        + intros made' keys' db' Hm' (more & -> & Hins). apply Hk; [done|].
          exists ((r, copy_row collID from to cp token now r) :: more). rewrite <- app_assoc. split; [done|]. cbn. by rewrite Hi.
      - cbn. split; [done|]. by apply commits_discard. }
    assert (Hdup : commits txn (Some held) (dup tenant collID r (DRollback (discard keys (DRet (inr ErrStored))))
      (fun cp => match insertResource (copy_row collID from to cp token now r) db0 with
       | Some db => copy_rows tenant collID from to token now copies rows (keys ++ key_of cp)%list (made ++ [(r, copy_row collID from to cp token now r)])%list db k
       | None => DRollback (discard (keys ++ key_of cp)%list (DRet (inr ErrExists)))
       end))).
    { unfold dup. cbn. intros id. destruct (is_dir (rKind r)); [apply Hplace|]. intros v ok. destruct ok; [apply Hplace|].
      cbn. split; [done|]. by apply commits_discard. }
    cbn [copy_rows]. destruct (copies !! ResourceID r) as [cp|]; [|apply Hdup]. destruct (srcKey cp =s ObjectKey r); [apply Hplace|apply Hdup].
Qed.

Lemma dup_all_commits {A} tenant collID rows copies keys (k : gmap string copied -> list string -> DProg (A + DErr)) :
  (forall copies keys, commits txn None (k copies keys)) -> commits txn None (dup_all tenant collID rows copies keys k).
Proof using.
  intros Hk. revert copies keys. induction rows as [|r rows IH]; intros copies keys; cbn [dup_all]; [apply Hk|].
  unfold dup. cbn. intros id. destruct (is_dir (rKind r)); [apply IH|]. intros v ok. destruct ok; [apply IH|]. by apply commits_discard.
Qed.

Lemma check_paths from0 to0 from to : checkMoveCopyPaths from0 to0 = inl (from, to) ->
  normal_path from /\ normal_path to /\ from <> "" /\ to <> "" /\ from <> to /\ IsInside to from = false.
Proof using.
  unfold checkMoveCopyPaths. destruct (NormalizePath from0) as [f|] eqn:E1; [|done]. destruct (NormalizePath to0) as [t|] eqn:E2; [|done].
  destruct (_ || _) eqn:E3; [done|]. destruct (_ || IsInside t f) eqn:E4; [done|]. intros [= -> ->].
  apply orb_false_iff in E3 as [?%String.eqb_neq ?%String.eqb_neq], E4 as [?%String.eqb_neq ?].
  split_and!; try done; by eexists.
Qed.

Section Copying.
Variables (srcID from collID to : string) (overwrite : bool).
Hypotheses (Hf : normal_path from) (Hfne : from <> "") (Ht : normal_path to) (Htne : to <> "").
Hypothesis Hsame : srcID = collID -> exists from0 to0, checkMoveCopyPaths from0 to0 = inl (from, to).

Lemma copy_write_commits tenant rows0 : commits txn None (copy_write lim tr tenant srcID from collID to overwrite rows0).
Proof using Hf Hfne Ht Htne Hsame.
  apply dup_all_commits. intros copies keys. cbn. intros now. split_and!; [done| |by apply commits_discard].
  intros db at_. destruct (copy_plan _ _ _ _ _ _ _ _ _) as [[[[[src rows] replaced] c] db1]|e] eqn:Hplan.
  - eapply copy_rows_commits; [by constructor|done|]. intros made keys' db2 Hm (more & -> & Hins). cbn [app] in Hm, Hins |- *.
    cbn [commits]. split_and!; [|apply commits_emit|by apply commits_discard]. eexists. split; [done|]. by eapply (txn_copy srcID from collID to).
  - cbn. split; [done|]. by apply commits_discard.
Qed.

Lemma copy_snapshot_commits tenant : commits txn None (copy_snapshot lim tr tenant srcID from collID to overwrite).
Proof using Hf Hfne Ht Htne Hsame.
  unfold copy_snapshot, query. cbn [commits]. split; [|done]. intros db1. destruct (getResourceQ db1 srcID from) as [root|]; [|done].
  cbn [commits]. split; [|done]. intros db2. destruct (requireParent db2 collID to); [done|].
  destruct (is_dir (rKind root)); [|apply copy_write_commits]. cbn [commits]. split; [|done]. intros db3. apply copy_write_commits.
Qed.

Lemma copy_commits : commits txn None (copyBetween lim tr srcID from collID to overwrite).
Proof using Hf Hfne Ht Htne Hsame.
  unfold copyBetween, query. cbn [commits]. split; [|done]. intros db0. destruct (GetCollectionByID db0 collID) as [coll|]; [|done].
  destruct (srcID =s collID); [apply copy_snapshot_commits|]. cbn [commits]. split; [|done]. intros db1.
  destruct (GetCollectionByID db1 srcID) as [sc|]; [|done]. destruct (_ =s _); [apply copy_snapshot_commits|done].
Qed.
End Copying.

Lemma put_commits collID p body size opts : commits txn None (Put lim tr collID p body size opts).
Proof using.
  unfold Put, query. destruct (NormalizePath p) as [q|e] eqn:E; [|done]. destruct (String.eqb_spec q "") as [|Hne]; [done|].
  destruct (declared_size _ _); [done|]. cbn [commits]. split; [|done]. intros db. destruct (GetCollectionByID db collID); [|done].
  cbn [commits]. split; [|done]. intros db1. destruct (requireParent db1 collID q); [done|]. cbn [commits]. split; [|done]. intros db2.
  set (pre := getResourceQ db2 collID q). destruct (match pre with Some r => _ | None => _ end); [done|].
  destruct (checkPreconditions _ _ _ _); [done|]. cbn [commits]. intros id1 id2 ok. destruct ok; cbn [negb]; [|by apply commits_discard].
  destruct (refuse_size _ _ _); [by apply commits_discard|]. apply commits_write. intros now at_ db3 x ms db' Htx.
  eapply txn_put; [by exists p|done| |exact Htx]. lia.
Qed.

Lemma ensure_commits n tenant name : commits txn None (ensure_attempts n tenant name).
Proof using.
  induction n as [|n IH]; cbn; intros now; (split_and!; [done| |done]); intros db id;
    (destruct (ensureCollectionOnce _ _ _ _ _) as [[[c created] db']|] eqn:E; cbn; [|done]);
    (split_and!; [|done..]); eexists; (split; [done|]); by eapply txn_ensure.
Qed.

Lemma update_commits tenant name f :
  (forall now db c, GetCollection db tenant name = Some c -> txn db (set_collection (f now c) db)) ->
  commits txn None (update_named tenant name f).
Proof using.
  intros Hf. unfold update_named. cbn. intros now. split_and!; [done| |done]. intros db.
  destruct (GetCollection db tenant name) as [c|] eqn:E; cbn; [|done]. split_and!; [|done..]. eexists. split; [done|]. by apply Hf.
Qed.

Lemma sweep_commits grace retention : purging retention -> commits txn None (Sweep grace retention).
Proof using.
  intros Hret.
  assert (Hw : forall cutoff objs rep, commits txn None (sweep_objects cutoff objs rep)).
  { intros cutoff objs. induction objs as [|[key o] objs IH]; intros rep; cbn; [done|]. destruct (_ <? _)%Z; [apply IH|].
    cbn. split; [|apply IH]. intros db. destruct (referenced key db); [apply IH|]. cbn. intros []; apply IH. }
  unfold Sweep. cbn. intros now. destruct (0 <? retention)%Z eqn:Er.
  - unfold statement. cbn. split; [done|]. split; [|done]. intros db. split; [eexists; split; [done|]; apply (txn_purge_rows retention); [lia|done]|].
    split; [|done]. split; [done|]. split; [|done]. intros db1. split; [eexists; split; [done|]; apply (txn_purge_colls retention); [lia|done]|].
    split; [|done]. intros [l|]; [apply Hw|done].
  - cbn. intros [l|]; [apply Hw|done].
Qed.

Lemma op_commits A (p : DProg A) : drive_op A p -> commits txn None p.
Proof using.
  intros [collID q body size opts|collID q|collID q|collID id|collID o|collID q o|collID id o|collID f t ov Hfit|collID f t ov|
    s f d t ov|tn nm|tn nm po|tn nm l|tn nm force|g r Hret].
  - apply put_commits.
  - unfold Mkdir. destruct (NormalizePath q) as [q'|] eqn:E; [|done]. destruct (String.eqb_spec q' "") as [|Hne]; [done|]. cbn [commits]. intros id.
    apply commits_write. intros. eapply txn_mkdir; [by exists q|done..].
  - unfold Stat, query. destruct (NormalizePath q) as [q'|]; [|done]. by destruct (q' =s "").
  - unfold StatByID, query. by destruct (id =s "").
  - unfold List_, query. by destruct (NormalizePath _).
  - unfold Delete. destruct (NormalizePath q) as [q'|]; [|done]. destruct (q' =s ""); [done|]. apply commits_write. intros.
    eapply txn_delete; [|done]. left. by exists q'.
  - apply commits_write. intros. eapply txn_delete; [|done]. right. by exists id.
  - unfold Move. destruct (checkMoveCopyPaths f t) as [[f' t']|[]] eqn:E; [|done..]. apply commits_write. intros.
    eapply txn_move; [done|by apply Hfit|done].
  - unfold Copy. destruct (checkMoveCopyPaths f t) as [[f' t']|[]] eqn:E; [|done..].
    destruct (check_paths _ _ _ _ E) as (? & ? & ? & ? & _). apply copy_commits; try done. intros _. eauto.
  - unfold CopyAcross. destruct (String.eqb_spec s d) as [->|Hne].
    + unfold Copy. destruct (checkMoveCopyPaths f t) as [[f' t']|[]] eqn:E; [|done..].
      destruct (check_paths _ _ _ _ E) as (? & ? & ? & ? & _). apply copy_commits; try done. intros _. eauto.
    + destruct (NormalizePath f) as [f'|] eqn:Ef; [|done]. destruct (NormalizePath t) as [t'|] eqn:Et; [|done].
      destruct (_ || _) eqn:E; [done|]. apply orb_false_iff in E as [?%String.eqb_neq ?%String.eqb_neq].
      apply copy_commits; try done; by eexists.
  - unfold EnsureCollection. destruct (tn =s ""); [done|]. destruct (negb _); [done|]. apply ensure_commits.
  - unfold SetCollectionPolicy. destruct (negb _); [done|]. apply update_commits. intros. by eapply txn_policy.
  - unfold SetCollectionLinks. destruct (negb _); [done|]. apply update_commits. intros. by eapply txn_links.
  - apply commits_write. intros. by eapply txn_drop.
  - by apply sweep_commits.
Qed.

Lemma caller_commits p : caller p -> commits txn None p.
Proof using. induction 1 as [|A p k Hop _ IH]; [done|]. apply commits_bind; [|done]. by apply op_commits. Qed.

(** Callers take the index through index transactions, one at a time. *)
Lemma callers_refine ps ps' w w' :
  Forall caller ps -> w_lock w = false -> rtc dpstep (ps, w) (ps', w') -> rtc txn (w_db w) (w_db w').
Proof using.
  intros Hps. apply runs_commit. eapply Forall_impl; [exact Hps|]. intros p. apply caller_commits.
Qed.
End Txn.
