(* ===== verification/DriveErrors.v ===== *)
(** * Drive: an error changes nothing

    An operation that reports an error has written nothing to the index, and has
    asked the object store to delete every object it had stored, wherever it
    failed.  And one that reports success has made one commit ([answers]): what
    it answers goes with what that transaction did. *)

From Stdlib Require Import Ascii String ZArith Lia Bool.
From stdpp Require Import base tactics list strings gmap sorting relations.
From S2P Require Import Prelude GoStrings GoJson GoPath Opname DrivePath Drive DriveTxn.

#[local] Open Scope string_scope.

(** ** One operation's own calls *)

(** The calls of one operation, from worlds that others may have changed
    between them. *)
Inductive trace {A} : DProg A -> list (DProg A * World * World) -> A -> Prop :=
  | trace_ret x : trace (DRet x) [] x
  | trace_step p w p' w' l x : dstep p w p' w' -> trace p' l x -> trace p ((p, w, w') :: l) x.

Definition unwritten {A} (s : DProg A * World * World) : Prop := w_db s.2 = w_db s.1.2.
Definition stores {A} (key : string) (s : DProg A * World * World) : Prop :=
  is_Some (w_objects s.2 !! key) /\ w_objects s.2 !! key <> w_objects s.1.2 !! key.
Definition deletes {A} (key : string) (s : DProg A * World * World) : Prop := exists k, s.1.1 = DObjDelete key k.

(** [written]: a commit went through; [held]: the objects stored and not asked
    to be deleted. *)
Fixpoint errors_clean {A} (written : bool) (held : gset string) (p : DProg (A + DErr)) : Prop :=
  match p with
  | DRet (inl _) => True
  | DRet (inr _) => written = false /\ held = ∅
  | DMint k => forall id, errors_clean written held (k id)
  | DClock k => forall t, errors_clean written held (k t)
  | DQuery k broken | DBegin k broken => (forall db, errors_clean written held (k db)) /\ errors_clean written held broken
  | DCommit _ k broken => errors_clean true held k /\ errors_clean written held broken
  | DRollback k => errors_clean written held k
  | DObjPut key _ k | DObjCopy _ key k => errors_clean written ({[ key ]} ∪ held) (k true) /\ errors_clean written held (k false)
  | DObjDelete key k => forall ok, errors_clean written (held ∖ {[ key ]}) (k ok)
  | DObjList k => forall l, errors_clean written held (k l)
  | DSink _ k => errors_clean written held k
  end.

Lemma written_succeeds {A} (p : DProg (A + DErr)) l e : trace p l (inr e) -> forall held, errors_clean true held p -> False.
Proof.
  remember (inr e) as x eqn:Ex. induction 1 as [x|p w p' w' l x Hst Ht IH]; intros held Hc.
  - subst x. cbn in Hc. by destruct Hc.
  - specialize (IH Ex). destruct Hst; cbn in Hc; try (by eapply IH, Hc); destruct Hc as [? ?]; by eapply IH.
Qed.

Lemma trace_clean {A} (p : DProg (A + DErr)) l e : trace p l (inr e) -> forall held, errors_clean false held p ->
  Forall unwritten l /\ (forall key, key ∈ held -> Exists (deletes key) l) /\
  forall l1 s l2 key, l = (l1 ++ s :: l2)%list -> stores key s -> Exists (deletes key) l2.
Proof.
  remember (inr e) as x eqn:Ex. induction 1 as [x|p w p' w' l x Hst Ht IH]; intros held Hc.
  - subst x. cbn in Hc. destruct Hc as [_ ->]. split_and!; [constructor|set_solver|]. by intros [].
  - subst x. specialize (IH eq_refl).
    assert (Hgo : forall held', errors_clean false held' p' -> w_db w' = w_db w ->
      (forall key, key ∈ held -> key ∈ held' \/ deletes key (p, w, w')) ->
      (forall key, stores key (p, w, w') -> key ∈ held') ->
      Forall unwritten ((p, w, w') :: l) /\ (forall key, key ∈ held -> Exists (deletes key) ((p, w, w') :: l)) /\
      forall l1 s l2 key, ((p, w, w') :: l)%list = (l1 ++ s :: l2)%list -> stores key s -> Exists (deletes key) l2).
    { intros held' Hc' Ew Hh Hst'. destruct (IH held' Hc') as (IH1 & IH2 & IH3). split_and!.
      - by constructor.
      - intros key [?|?]%Hh; [by right; apply IH2|by left].
      - intros [|s1 l1] s l2 key [= E1 E2] Hs; [subst; by apply IH2, Hst'|]. subst. by eapply IH3. }
    assert (Hquiet : forall key, w_objects w' = w_objects w -> ~ stores key (p, w, w')) by (intros key E [_ Hn]; cbn in Hn; congruence).
    destruct Hst as [id k w Hid Hs0|t0 k w Ht0|k br w|k br w|k br w El|k br w|db k br w|db k br w|k w|key body k w|key body k w
      |from to k w o Ho|from to k w|key k w|key k w|k w|k w|m k w|m k w]; cbn in Hc;
      try (apply (Hgo held); [first [exact Hc|apply Hc|exact (proj2 Hc)]|done|by left|intros key' Hs; exfalso; by apply (Hquiet key')]).
    + exfalso. destruct Hc as [Hc _]. by eapply written_succeeds.
    + apply (Hgo ({[ key ]} ∪ held)); [apply Hc|done|set_solver|]. intros key' [_ Hn]. cbn in Hn.
      destruct (decide (key' = key)) as [->|Hne]; [set_solver|by rewrite lookup_insert_ne in Hn].
    + apply (Hgo ({[ to ]} ∪ held)); [apply Hc|done|set_solver|]. intros key' [_ Hn]. cbn in Hn.
      destruct (decide (key' = to)) as [->|Hne]; [set_solver|by rewrite lookup_insert_ne in Hn].
    + apply (Hgo (held ∖ {[ key ]})); [apply Hc|done| |].
      * intros key' Hk. destruct (decide (key' = key)) as [->|Hne]; [right; by eexists|left; set_solver].
      * intros key' [[o Ho] Hn]. cbn in Ho, Hn. apply lookup_delete_Some in Ho as [Hne Ho]. by rewrite lookup_delete_ne in Hn.
    + apply (Hgo (held ∖ {[ key ]})); [apply Hc|done| |intros key' Hs; exfalso; by apply (Hquiet key')].
      intros key' Hk. destruct (decide (key' = key)) as [->|Hne]; [right; by eexists|left; set_solver].
Qed.

(** ** What goes with an answer *)

Section Answers.
Context {A : Type}.
(** What a transaction from one index to another and an answer have to do. *)
Variable Q : DB -> DB -> A -> Prop.

(** Whenever the program answers a result, one commit went through, and [Q]
    holds of it; [held] is the index of the open transaction, [committed] the
    transaction that went through. *)
Fixpoint answers (held : option DB) (committed : option (DB * DB)) (p : DProg (A + DErr)) : Prop :=
  match p with
  | DRet (inl x) => exists db db', committed = Some (db, db') /\ Q db db' x
  | DRet (inr _) => True
  | DMint k => forall id, answers held committed (k id)
  | DClock k => forall t, answers held committed (k t)
  | DQuery k broken => (forall db, answers held committed (k db)) /\ answers held committed broken
  | DBegin k broken => (forall db, answers (Some db) committed (k db)) /\ answers held committed broken
  | DCommit db' k broken =>
      committed = None /\ (exists db, held = Some db /\ answers None (Some (db, db')) k) /\ answers None committed broken
  | DRollback k => answers None committed k
  | DObjPut _ _ k | DObjCopy _ _ k | DObjDelete _ k => forall ok, answers held committed (k ok)
  | DObjList k => forall l, answers held committed (k l)
  | DSink _ k => answers held committed k
  end.

Implicit Types (l : list (DProg (A + DErr) * World * World)).

(** The transaction began with [db]. *)
Definition began (db : DB) (s : DProg (A + DErr) * World * World) : Prop :=
  (exists k broken, s.1.1 = DBegin k broken) /\ w_db s.1.2 = db /\ w_lock s.1.2 = false /\ w_lock s.2 = true.

Lemma trace_committed p l x : trace p l (inl x) -> forall held db db', answers held (Some (db, db')) p -> Forall unwritten l /\ Q db db' x.
Proof using.
  remember (inl x) as y eqn:Ey. induction 1 as [y|p w p' w' l y Hst Ht IH]; intros held db db' Ha.
  - subst y. cbn in Ha. destruct Ha as (db1 & db1' & [= -> ->] & HQ). by split.
  - specialize (IH Ey). destruct Hst; cbn in Ha;
      try (edestruct IH as [? ?]; [first [exact Ha|apply Ha|exact (proj2 Ha)]|split; [by constructor|done]]).
    by destruct Ha.
Qed.

(** One call of the operation commits, and no other call of it changes the
    index. *)
Lemma trace_answers p l x : trace p l (inl x) -> forall held, answers held None p ->
  exists l1 s l2 db, l = (l1 ++ s :: l2)%list /\ Forall unwritten l1 /\ Forall unwritten l2 /\
    (held = Some db \/ Exists (began db) l1) /\ (exists k broken, s.1.1 = DCommit (w_db s.2) k broken) /\ Q db (w_db s.2) x.
Proof using.
  remember (inl x) as y eqn:Ey. induction 1 as [y|p w p' w' l y Hst Ht IH]; intros held Ha.
  - subst y. cbn in Ha. by destruct Ha as (? & ? & ? & _).
  - specialize (IH Ey).
    assert (Hgo : forall held', answers held' None p' -> w_db w' = w_db w ->
      (forall db, held' = Some db -> held = Some db \/ began db (p, w, w')) ->
      exists l1 s l2 db, ((p, w, w') :: l)%list = (l1 ++ s :: l2)%list /\ Forall unwritten l1 /\ Forall unwritten l2 /\
        (held = Some db \/ Exists (began db) l1) /\ (exists k broken, s.1.1 = DCommit (w_db s.2) k broken) /\ Q db (w_db s.2) x).
    { intros held' Ha' Ew Hh. destruct (IH held' Ha') as (l1 & s & l2 & db & -> & H1 & H2 & H3 & H4).
      exists ((p, w, w') :: l1), s, l2, db. split; [done|]. split; [by constructor|]. split; [done|]. split; [|done].
      destruct H3 as [H3|H3]; [|right; by right]. destruct (Hh db H3) as [?|?]; [by left|right; by left]. }
    destruct Hst; cbn in Ha; try (apply (Hgo held); [first [exact Ha|apply Ha|exact (proj2 Ha)]|done|by left]).
    + apply (Hgo (Some (w_db w))); [apply Ha|done|]. intros db [= <-]. right. split_and!; [by do 2 eexists|done..].
    + destruct Ha as (_ & (db0 & -> & Ha) & _). subst y. destruct (trace_committed _ _ _ Ht _ _ _ Ha) as [Hl HQ].
      eexists [], _, l, db0. split; [reflexivity|]. split_and!; [constructor|done|by left|by do 2 eexists|exact HQ].
    + apply (Hgo None); [apply Ha|done|done].
    + apply (Hgo None); [exact Ha|done|done].
Qed.

Lemma answers_discard keys held c (k : DProg (A + DErr)) : answers held c k -> answers held c (discard keys k).
Proof using. induction keys as [|key keys IH]; cbn; [done|]. intros Hk _. by apply IH. Qed.

Lemma answers_emit tr ms x db db' held : Q db db' x -> answers held (Some (db, db')) (emitPostAll tr ms (inl x)).
Proof using. intros HQ. induction ms as [|m ms IH]; cbn; destruct tr; cbn; eauto. Qed.
End Answers.

(** A run of one program alone, as its calls: each in the world the one before
    left. *)
Fixpoint chained {A} (w : World) (l : list (DProg A * World * World)) (w' : World) : Prop :=
  match l with [] => w = w' | (_, a, b) :: l => a = w /\ chained b l w' end.

Lemma chained_app {A} (l1 l2 : list (DProg A * World * World)) s : forall w w', chained w (l1 ++ s :: l2)%list w' -> chained w l1 s.1.2 /\ chained s.2 l2 w'.
Proof.
  destruct s as [[p a] b]. induction l1 as [|[[q c] d] l1 IH]; intros w w'; cbn; [by intros [-> ?]|]. by intros [-> [? ?]%IH].
Qed.

Lemma chained_db {A} (l : list (DProg (A + DErr) * World * World)) : forall w w', chained w l w' -> Forall unwritten l ->
  w_db w' = w_db w /\ forall db, Exists (began db) l -> db = w_db w.
Proof.
  induction l as [|[[p a] b] l IH]; intros w w'; cbn.
  - intros -> _. split; [done|]. by intros db ?%Exists_nil.
  - intros [-> Hc] [Hu Hl]%Forall_cons. unfold unwritten in Hu. cbn in Hu. destruct (IH _ _ Hc Hl) as [E Hb]. rewrite Hu in E, Hb.
    split; [done|]. intros db [(_ & E' & _)|H]%Exists_cons; [done|by apply Hb].
Qed.

Lemma dalone_trace {A} (p : DProg A) : forall ids w x w', dalone ids p w = Some (x, w') -> exists l, trace p l x /\ chained w l w'.
Proof.
  assert (Hs : forall (p p' : DProg A) w w1 x w', dstep p w p' w1 -> (exists l, trace p' l x /\ chained w1 l w') -> exists l, trace p l x /\ chained w l w').
  { intros p1 p2 w w1 x w' Hd (l & Hl & Hc). exists ((p1, w, w1) :: l). split; [by eapply trace_step|done]. }
  induction p as [y|k IH|k IH|k IH br IHb|k IH br IHb|db k IH br IHb|k IH|key body k IH|from to k IH|key k IH|k IH|m k IH];
    cbn; intros ids w x w' E.
  - injection E as <- <-. exists []. split; [constructor|done].
  - destruct ids as [|id ids]; [done|]. destruct (_ || _) eqn:Ec; [done|]. apply orb_false_iff in Ec as [E1%bool_decide_eq_false E2%negb_false_iff].
    eapply Hs; [by constructor|]. by eapply IH.
  - eapply Hs; [by apply (ds_clock (w_time w))|]. by eapply IH.
  - eapply Hs; [by constructor|]. by eapply IH.
  - destruct (w_lock w) eqn:El; [done|]. eapply Hs; [by constructor|]. by eapply IH.
  - eapply Hs; [by constructor|]. by eapply IH.
  - eapply Hs; [by constructor|]. by eapply IH.
  - eapply Hs; [by constructor|]. by eapply IH.
  - destruct (w_objects w !! from) as [o|] eqn:Eo; (eapply Hs; [by constructor|]; by eapply IH).
  - eapply Hs; [by constructor|]. by eapply IH.
  - eapply Hs; [by constructor|]. by eapply IH.
  - eapply Hs; [by constructor|]. by eapply IH.
Qed.

(** ** The operations *)

Definition keys_set (keys : list string) : gset string := list_to_set keys.

Lemma clean_discard {A} wr keys (k : DProg (A + DErr)) : forall held, (forall held', held' ⊆ held ∖ keys_set keys -> errors_clean wr held' k) ->
  errors_clean wr held (discard keys k).
Proof.
  induction keys as [|key keys IH]; intros held Hk; cbn; [apply Hk; set_solver|]. intros _. apply IH. intros held' Hh. apply Hk.
  unfold keys_set in *. set_solver.
Qed.

Lemma clean_refused {A} keys held (e : DErr) : held ⊆ keys_set keys -> errors_clean (A := A) false held (discard keys (DRet (inr e))).
Proof. intros Hh. apply clean_discard. intros held' Hs. cbn. split; [done|set_solver]. Qed.

Lemma clean_emit {A} wr held tr ms (x : A) : errors_clean wr held (emitPostAll tr ms (inl x)).
Proof. induction ms as [|m ms IH]; cbn; by destruct tr. Qed.

Lemma clean_write {A} tr (body : Z -> Z -> DB -> TxOut A) keys held : held ⊆ keys_set keys -> errors_clean false held (write tr body keys).
Proof.
  intros Hh. unfold write. cbn. intros now. split; [|by apply clean_refused]. intros db at_. destruct (body now at_ db) as [e|x|x ms db'].
  - apply clean_discard. intros held' Hs. cbn. split; [done|set_solver].
  - cbn. by apply clean_discard.
  - cbn. split; [apply clean_emit|by apply clean_refused].
Qed.

Lemma objectKey_ne tenant coll res ver : objectKey tenant coll res ver <> "".
Proof. unfold objectKey. by destruct tenant. Qed.

Section Clean.
Context `{Unicode} `{Collation} `{Platform}.
Variable lim : Limits.
Variable tr : bool.

Lemma clean_put collID p body size opts : errors_clean false ∅ (Put lim tr collID p body size opts).
Proof using.
  unfold Put, query. destruct (NormalizePath p) as [q|e]; [|done]. destruct (q =s ""); [done|]. destruct (declared_size _ _); [done|].
  cbn [errors_clean]. split; [|done]. intros db. destruct (GetCollectionByID db collID) as [coll|]; [|done]. cbn [errors_clean]. split; [|done]. intros db1.
  destruct (requireParent db1 collID q); [done|]. cbn [errors_clean]. split; [|done]. intros db2. set (pre := getResourceQ db2 collID q).
  destruct (match pre with Some r => _ | None => _ end); [done|]. destruct (checkPreconditions _ _ _ _); [done|]. cbn [errors_clean]. intros id1 id2.
  set (key := objectKey _ _ _ _). assert (Hh : {[ key ]} ∪ ∅ ⊆ keys_set [key]) by (unfold keys_set; set_solver). cbn [negb]. split.
  - destruct (refuse_size _ _ _); [by apply clean_refused|by apply clean_write].
  - apply clean_refused. set_solver.
Qed.

Lemma clean_dup {A} tenant collID r (fail : DProg (A + DErr)) (k : copied -> DProg (A + DErr)) held :
  errors_clean false held fail -> (forall cp held', held' ⊆ held ∪ keys_set (key_of cp) -> errors_clean false held' (k cp)) ->
  errors_clean false held (dup tenant collID r fail k).
Proof using.
  intros Hf Hk. unfold dup. cbn. intros id. destruct (is_dir (rKind r)); [apply Hk; set_solver|]. cbn. intros v. split; [|done]. apply Hk.
  unfold key_of. cbn [newKey]. rewrite (proj2 (String.eqb_neq _ "")) by apply objectKey_ne. unfold keys_set. set_solver.
Qed.

Lemma keys_set_app k1 k2 : keys_set (k1 ++ k2) = keys_set k1 ∪ keys_set k2.
Proof using. unfold keys_set. by rewrite list_to_set_app_L. Qed.

Lemma clean_dup_all {A} tenant collID rows (k : gmap string copied -> list string -> DProg (A + DErr)) : forall copies keys held,
  held ⊆ keys_set keys -> (forall copies keys held, held ⊆ keys_set keys -> errors_clean false held (k copies keys)) ->
  errors_clean false held (dup_all tenant collID rows copies keys k).
Proof using.
  induction rows as [|r rows IH]; intros copies keys held Hh Hk; cbn [dup_all]; [by apply Hk|]. apply clean_dup; [by apply clean_refused|].
  intros cp held' Hs. apply IH; [|done]. rewrite keys_set_app. set_solver.
Qed.

Lemma clean_copy_rows {A} tenant collID from to token now copies (k : list (Resource * Resource) -> list string -> DB -> DProg (A + DErr)) rows :
  forall keys made db held, held ⊆ keys_set keys ->
  (forall keys made db held, held ⊆ keys_set keys -> errors_clean false held (k made keys db)) ->
  errors_clean false held (copy_rows tenant collID from to token now copies rows keys made db k).
Proof using.
  induction rows as [|r rows IH]; intros keys made db held Hh Hk; cbn [copy_rows]; [by apply Hk|].
  assert (Hplace : forall cp keys held, held ⊆ keys_set keys -> errors_clean false held
    (match insertResource (copy_row collID from to cp token now r) db with
     | Some db => copy_rows tenant collID from to token now copies rows keys (made ++ [(r, copy_row collID from to cp token now r)])%list db k
     | None => DRollback (discard keys (DRet (inr ErrExists)))
     end)).
  { intros cp keys' held' Hh'. destruct (insertResource _ db); [by apply IH|]. cbn. by apply clean_refused. }
  assert (Hdup : errors_clean false held (dup tenant collID r (DRollback (discard keys (DRet (inr ErrStored)))) (fun cp =>
    match insertResource (copy_row collID from to cp token now r) db with
     | Some db => copy_rows tenant collID from to token now copies rows (keys ++ key_of cp)%list (made ++ [(r, copy_row collID from to cp token now r)])%list db k
     | None => DRollback (discard (keys ++ key_of cp)%list (DRet (inr ErrExists)))
     end))).
  { apply clean_dup; [cbn; by apply clean_refused|]. intros cp held' Hs. apply Hplace. rewrite keys_set_app. set_solver. }
  destruct (copies !! ResourceID r) as [cp|]; [|apply Hdup]. destruct (srcKey cp =s ObjectKey r); [by apply Hplace|apply Hdup].
Qed.

Lemma clean_copy_write tenant srcID from collID to overwrite rows0 : errors_clean false ∅ (copy_write lim tr tenant srcID from collID to overwrite rows0).
Proof using.
  apply clean_dup_all; [set_solver|]. intros copies keys held Hh. cbn. intros now. split; [|by apply clean_refused]. intros db at_.
  destruct (copy_plan _ _ _ _ _ _ _ _ _) as [[[[[src rows] replaced] c] db1]|e]; [|cbn; by apply clean_refused].
  apply clean_copy_rows; [done|]. clear held Hh. intros keys' made db2 held Hh. cbn. split; [apply clean_emit|by apply clean_refused].
Qed.

Lemma clean_copy srcID from collID to overwrite : errors_clean false ∅ (copyBetween lim tr srcID from collID to overwrite).
Proof using.
  assert (Hsnap : forall tenant, errors_clean false ∅ (copy_snapshot lim tr tenant srcID from collID to overwrite)).
  { intros tenant. unfold copy_snapshot, query. cbn [errors_clean]. split; [|done]. intros db1. destruct (getResourceQ db1 srcID from) as [root|]; [|done].
    cbn [errors_clean]. split; [|done]. intros db2. destruct (requireParent db2 collID to); [done|].
    destruct (is_dir (rKind root)); [|apply clean_copy_write]. cbn [errors_clean]. split; [|done]. intros db3. apply clean_copy_write. }
  unfold copyBetween, query. cbn [errors_clean]. split; [|done]. intros db0. destruct (GetCollectionByID db0 collID) as [coll|]; [|done].
  destruct (srcID =s collID); [apply Hsnap|]. cbn [errors_clean]. split; [|done]. intros db1.
  destruct (GetCollectionByID db1 srcID) as [sc|]; [|done]. destruct (_ =s _); [apply Hsnap|done].
Qed.

Lemma clean_ensure n tenant name : errors_clean false ∅ (ensure_attempts n tenant name).
Proof using.
  induction n as [|n IH]; cbn; intros now; (split; [|done]); intros db id;
    by destruct (ensureCollectionOnce _ _ _ _ _) as [[[c created] db']|].
Qed.

(** The operations that change the store, setting a collection's policy or links
    apart: those write, then read back, and the reading may fail. *)
Inductive mutating : forall A : Type, DProg (A + DErr) -> Prop :=
  | mu_put collID p body size opts : mutating _ (Put lim tr collID p body size opts)
  | mu_mkdir collID p : mutating _ (Mkdir lim tr collID p)
  | mu_delete collID p o : mutating _ (Delete tr collID p o)
  | mu_delete_id collID id o : mutating _ (DeleteByID tr collID id o)
  | mu_move collID from to overwrite : mutating _ (Move tr collID from to overwrite)
  | mu_copy collID from to overwrite : mutating _ (Copy lim tr collID from to overwrite)
  | mu_across srcID from dstID to overwrite : mutating _ (CopyAcross lim tr srcID from dstID to overwrite)
  | mu_ensure tenant name : mutating _ (EnsureCollection tenant name)
  | mu_drop tenant name force : mutating _ (DeleteCollection tr tenant name force).

Lemma mutating_clean A (p : DProg (A + DErr)) : mutating A p -> errors_clean false ∅ p.
Proof using.
  assert (Hcopy : forall collID f t ov, errors_clean false ∅ (Copy lim tr collID f t ov)).
  { intros. unfold Copy. destruct (checkMoveCopyPaths f t) as [[f' t']|[]]; [apply clean_copy|done..]. }
  intros [collID q body size opts|collID q|collID q o|collID id o|collID f t ov|collID f t ov|s f d t ov|tn nm|tn nm force].
  - apply clean_put.
  - unfold Mkdir. destruct (NormalizePath q) as [q'|]; [|done]. destruct (q' =s ""); [done|]. cbn [errors_clean]. intros id. by apply clean_write.
  - unfold Delete. destruct (NormalizePath q) as [q'|]; [|done]. destruct (q' =s ""); [done|]. by apply clean_write.
  - by apply clean_write.
  - unfold Move. destruct (checkMoveCopyPaths f t) as [[f' t']|[]]; [|done..]. by apply clean_write.
  - apply Hcopy.
  - unfold CopyAcross. destruct (s =s d); [apply Hcopy|]. destruct (NormalizePath f); [|done]. destruct (NormalizePath t); [|done].
    destruct (_ || _); [done|apply clean_copy].
  - unfold EnsureCollection. destruct (tn =s ""); [done|]. destruct (negb _); [done|]. apply clean_ensure.
  - by apply clean_write.
Qed.
End Clean.

(** C18: An operation that reports an error has changed nothing.  Whatever other
    callers do between its calls and whichever of its calls fail: if a put,
    mkdir, delete, move, copy or collection creation or deletion answers an
    error, none of its calls changed the index, and every object it had stored
    it asked the object store, afterwards, to delete. *)
Theorem error_changes_nothing `{Unicode} `{Collation} `{Platform} (lim : Limits) (tr : bool) (A : Type) (p : DProg (A + DErr)) (e : DErr)
    (l : list (DProg (A + DErr) * World * World)) (Hop : mutating lim tr A p) (Ht : trace p l (inr e)) :
  Forall unwritten l /\ forall l1 s l2 key, l = (l1 ++ s :: l2)%list -> stores key s -> Exists (deletes key) l2.
Proof.
  destruct (trace_clean p l e Ht ∅ (mutating_clean lim tr A p Hop)) as (H1' & _ & H3). done.
Qed.
