(* ===== verification/DriveTree.v ===== *)
(** * Drive: every collection stays a tree

    The invariant of the index (live paths are unique and well formed, every
    live row hangs below a live directory, the collection's counters are what
    the rows add up to, no live row is newer than the sync token), that each
    index transaction keeps it, and so that any interleaving of the operations
    does, whatever calls fail. *)

From Stdlib Require Import Ascii String ZArith Lia Bool.
From stdpp Require Import base tactics list strings gmap sorting relations.
From S2P Require Import Prelude GoStrings GoJson GoPath Opname DrivePath Drive DriveRows.

#[local] Open Scope string_scope.

(** ** The invariant *)

Definition live_in (cid : string) (r : Resource) : bool := (CollectionID r =s cid) && live r.

Abbreviation Rows := (gmap string Resource).

Definition row_ok (r : Resource) : Prop :=
  clean (Path r) /\ ParentPath r = ParentOf (Path r) /\ rDepth r = Depth (Path r) /\ (0 <= rSize r)%Z /\
  (rKind r = KindDir -> rSize r = 0%Z /\ rETag r = "").

Definition has_dir (m : Rows) (cid p : string) : Prop :=
  p = "" \/ exists id d, m !! id = Some d /\ live_in cid d = true /\ Path d = p /\ rKind d = KindDir.

Record tree (m : Rows) (cid : string) : Prop := {
  t_ok : forall id r, m !! id = Some r -> live_in cid r = true -> row_ok r;
  t_parent : forall id r, m !! id = Some r -> live_in cid r = true -> has_dir m cid (ParentOf (Path r));
  t_unique : forall id1 r1 id2 r2, m !! id1 = Some r1 -> m !! id2 = Some r2 -> live_in cid r1 = true -> live_in cid r2 = true ->
    Path r1 = Path r2 -> id1 = id2 }.

Definition rows_bytes (m : Rows) (cid : string) : Z := msum (fun r => if live_in cid r then rSize r else 0%Z) m.
Definition rows_count (m : Rows) (cid : string) : Z := msum (fun r => if live_in cid r then 1%Z else 0%Z) m.

Definition counted (m : Rows) (c : Collection) : Prop :=
  BytesUsed c = rows_bytes m (cID c) /\ ResourceCount c = rows_count m (cID c) /\
  forall id r, m !! id = Some r -> live_in (cID c) r = true -> (ModSeq r <= SyncToken c)%Z.

Record Inv (db : DB) : Prop := {
  i_keyed : keyed db;
  i_ckeyed : forall id c, collections db !! id = Some c -> cID c = id;
  i_coll : forall id c, collections db !! id = Some c -> cLive c = true -> tree (resources db) id /\ counted (resources db) c;
  i_live : forall id r, resources db !! id = Some r -> live r = true ->
    exists c, collections db !! CollectionID r = Some c /\ cLive c = true }.

Lemma live_in_spec cid r : live_in cid r = true <-> CollectionID r = cid /\ live r = true.
Proof. unfold live_in. by rewrite andb_true_iff, String.eqb_eq. Qed.

(** ** Rows of the other collections *)

Definition same_elsewhere (cid : string) (m m' : Rows) : Prop :=
  forall id r, CollectionID r <> cid -> m !! id = Some r <-> m' !! id = Some r.

Lemma elsewhere_live cid cid' m m' id r : same_elsewhere cid m m' -> cid' <> cid -> live_in cid' r = true ->
  m !! id = Some r <-> m' !! id = Some r.
Proof. intros Hs Hn [<- _]%live_in_spec. by apply Hs. Qed.

Lemma elsewhere_sum cid cid' f m m' : same_elsewhere cid m m' -> cid' <> cid ->
  msum (fun r => if live_in cid' r then f r else 0%Z) m = msum (fun r => if live_in cid' r then f r else 0%Z) m'.
Proof.
  intros Hs Hn. rewrite <- !msum_filter. f_equal. apply map_eq. intros id. apply option_eq. intros r.
  rewrite !map_lookup_filter_Some. split; intros [H Hl]; (split; [|done]); by apply (elsewhere_live cid cid' m m').
Qed.

Lemma elsewhere_tree cid cid' m m' : same_elsewhere cid m m' -> cid' <> cid -> tree m cid' -> tree m' cid'.
Proof.
  intros Hs Hn [Hok Hp Hu]. assert (E : forall id r, live_in cid' r = true -> m' !! id = Some r -> m !! id = Some r)
    by (intros id r Hl; by apply (elsewhere_live cid cid' m m')).
  split.
  - intros id r Hr Hl. by apply (Hok id), Hl; apply E.
  - intros id r Hr Hl. destruct (Hp id r (E _ _ Hl Hr) Hl) as [?|(id' & d & Hd & Hdl & ?)]; [by left|].
    right. exists id', d. split_and!; [|naive_solver..]. by apply (elsewhere_live cid cid' m m').
  - intros id1 r1 id2 r2 H1 H2 L1 L2. by apply Hu; [apply E|apply E|..].
Qed.

Lemma Inv_step db db' cid c c' :
  Inv db -> collections db !! cid = Some c -> cID c' = cid -> cLive c' = true ->
  collections db' = <[cid := c']> (collections db) -> keyed db' -> same_elsewhere cid (resources db) (resources db') ->
  tree (resources db') cid -> counted (resources db') c' -> Inv db'.
Proof.
  intros [Hk Hck Hcoll Hlive] Hc Hid Hl' E Hk' Hs Ht Hn. split; [done|..].
  - rewrite E. intros id c1. destruct (decide (id = cid)) as [->|Hne].
    + rewrite lookup_insert_eq. by intros [= <-].
    + rewrite lookup_insert_ne by done. apply Hck.
  - rewrite E. intros id c1. destruct (decide (id = cid)) as [->|Hne].
    + rewrite lookup_insert_eq. by intros [= <-].
    + rewrite lookup_insert_ne by done. intros H Hl. destruct (Hcoll id c1 H Hl) as [T (HB & HC & HM)].
      split; [by eapply elsewhere_tree|]. unfold counted. rewrite (Hck _ _ H) in *. split_and!.
      * rewrite HB. by eapply elsewhere_sum.
      * rewrite HC. by eapply (elsewhere_sum cid id (fun _ => 1%Z)).
      * intros id2 r Hr Hlr. apply (HM id2); [|done]. by apply (elsewhere_live cid id (resources db) (resources db')).
  - intros id r Hr Hl. rewrite E. destruct (decide (CollectionID r = cid)) as [Hc'|Hne].
    + exists c'. by rewrite Hc', lookup_insert_eq.
    + rewrite lookup_insert_ne by done. apply (Hlive id); [|done]. by apply Hs.
Qed.

(** ** Tombstones *)

Lemma lookup_update (P : Resource -> bool) f (m : Rows) id r' :
  ((fun r => if P r then f r else r) <$> m) !! id = Some r' <->
  exists r, m !! id = Some r /\ r' = if P r then f r else r.
Proof. rewrite lookup_fmap. destruct (m !! id) as [r|]; cbn; naive_solver. Qed.

Section Tomb.
Variables (m : Rows) (cid : string) (P : Resource -> bool) (now token : Z).
Hypothesis HP : forall r, P r = true -> live_in cid r = true.
Let m' : Rows := (fun r => if P r then setrow_tomb now token r else r) <$> m.

Lemma tomb_live id r' cid' : m' !! id = Some r' -> live_in cid' r' = true -> m !! id = Some r' /\ P r' = false.
Proof using.
  unfold m'. rewrite lookup_update. intros (r & Hr & ->) Hl. destruct (P r) eqn:E; [|done].
  apply live_in_spec in Hl as [_ Hl]. done.
Qed.

Lemma tomb_keep id r : m !! id = Some r -> P r = false -> m' !! id = Some r.
Proof using. intros Hr E. unfold m'. rewrite lookup_update. exists r. by rewrite E. Qed.

Lemma tomb_elsewhere : same_elsewhere cid m m'.
Proof using HP.
  intros id r Hc. unfold m'. rewrite lookup_update. assert (HF : P r = false).
  { apply not_true_iff_false. intros [H _]%HP%live_in_spec. done. }
  split.
  - intros Hr. exists r. by rewrite HF.
  - intros (r0 & Hr & ->). destruct (P r0) eqn:E; [|done]. exfalso. apply Hc. apply HP, live_in_spec in E as [? _]. done.
Qed.

Lemma tomb_tree : tree m cid ->
  (forall id r id' d, m !! id = Some r -> live_in cid r = true -> m !! id' = Some d -> live_in cid d = true ->
     rKind d = KindDir -> Path d = ParentOf (Path r) -> P d = true -> P r = true) -> tree m' cid.
Proof using.
  intros [Hok Hp Hu] Hclosed. split.
  - intros id r Hr Hl. destruct (tomb_live id r cid Hr Hl) as [Hr0 _]. by eapply Hok.
  - intros id r Hr Hl. destruct (tomb_live id r cid Hr Hl) as [Hr0 HF].
    destruct (Hp id r Hr0 Hl) as [?|(id' & d & Hd & Hdl & Hpd & Hkd)]; [by left|]. right. exists id', d.
    split_and!; [|done..]. apply tomb_keep; [done|]. apply not_true_iff_false. intros HPd.
    by rewrite (Hclosed id r id' d) in HF.
  - intros id1 r1 id2 r2 H1 H2 L1 L2. apply tomb_live with (cid' := cid) in H1 as [? _], H2 as [? _]; [|done..]. by eapply Hu.
Qed.

Lemma tomb_sum f : (forall r, f (setrow_tomb now token r) = f r) ->
  msum (fun r => if live_in cid r then f r else 0%Z) m' =
  (msum (fun r => if live_in cid r then f r else 0) m - msum (fun r => if P r then f r else 0) m)%Z.
Proof using HP.
  intros Hf. unfold m'. rewrite msum_fmap, <- msum_sub. apply msum_ext. intros _ r _. destruct (P r) eqn:E.
  - rewrite (HP r E). unfold live_in at 1. cbn. rewrite andb_false_r. lia.
  - lia.
Qed.
End Tomb.

Lemma keyed_update (P : Resource -> bool) f db : keyed db -> (forall r, ResourceID (f r) = ResourceID r) -> keyed (update_where P f db).
Proof.
  intros Hk Hf id r'. cbn. rewrite lookup_update. intros (r & Hr & ->). destruct (P r); rewrite ?Hf; by eapply Hk.
Qed.

Lemma advance_collections c now db c0 : collections db !! cID c = Some c0 ->
  collections (advance c now db) = <[cID c0 := set_counters (SyncToken c) (BytesUsed c) (ResourceCount c) now c0]> (collections db) /\
  resources (advance c now db) = resources db.
Proof. intros H. unfold advance. by rewrite H. Qed.

(** ** Inserts *)

Section Insert.
Variables (m : Rows) (cid id : string) (r : Resource).
Hypotheses (Hfresh : m !! id = None) (Hlive : live_in cid r = true).

Lemma insert_elsewhere : same_elsewhere cid m (<[id := r]> m).
Proof using All.
  intros id' r' Hc. destruct (decide (id' = id)) as [->|Hne].
  - rewrite lookup_insert_eq, Hfresh. split; [done|]. intros [= <-]. by apply live_in_spec in Hlive as [? _].
  - by rewrite lookup_insert_ne.
Qed.

Lemma insert_has_dir p : has_dir m cid p -> has_dir (<[id := r]> m) cid p.
Proof using Hfresh.
  intros [?|(id' & d & Hd & ?)]; [by left|]. right. exists id', d. split; [|done]. rewrite lookup_insert_ne; [done|]. congruence.
Qed.

Lemma insert_tree : tree m cid -> row_ok r -> has_dir m cid (ParentOf (Path r)) ->
  (forall id' r', m !! id' = Some r' -> live_in cid r' = true -> Path r' <> Path r) -> tree (<[id := r]> m) cid.
Proof using All.
  intros [Hok Hp Hu] Hr Hd Hne. split.
  - intros id' r' [[<- <-]|[_ H]]%lookup_insert_Some; [done|]. by apply (Hok id').
  - intros id' r' [[<- <-]|[_ H]]%lookup_insert_Some Hl; apply insert_has_dir; [done|]. by apply (Hp id').
  - intros id1 r1 id2 r2 [[<- <-]|[Hn1 H1]]%lookup_insert_Some [[<- <-]|[Hn2 H2]]%lookup_insert_Some L1 L2 E; [done|..].
    + by destruct (Hne id2 r2).
    + by destruct (Hne id1 r1).
    + by eapply Hu.
Qed.

Lemma insert_sums : rows_bytes (<[id := r]> m) cid = (rSize r + rows_bytes m cid)%Z /\
  rows_count (<[id := r]> m) cid = (1 + rows_count m cid)%Z.
Proof using All. unfold rows_bytes, rows_count. by rewrite !msum_insert, Hlive by done. Qed.
End Insert.

Lemma requireParent_None db cid p : requireParent db cid p = None -> has_dir (resources db) cid (ParentOf p).
Proof.
  unfold requireParent. destruct (String.eqb_spec (ParentOf p) "") as [E|_]; [by left|].
  destruct (getResourceQ db cid _) as [d|] eqn:E; [|done]. apply getResourceQ_Some in E as ((id & Hd) & Hc & Hp & Hl).
  destruct (rKind d) eqn:K; [done|]. intros _. right. exists id, d. split_and!; [done| |done..]. by apply live_in_spec.
Qed.

Lemma free_path db cid p : getResourceQ db cid p = None ->
  forall id r, resources db !! id = Some r -> live_in cid r = true -> Path r <> p.
Proof. intros H id r Hr [Hc Hl]%live_in_spec. by eapply getResourceQ_None. Qed.

Lemma keyed_insert r db : keyed db -> keyed (set_resources (<[ResourceID r := r]> (resources db)) db).
Proof. intros Hk id r' H. cbn in H. apply lookup_insert_Some in H as [[<- <-]|[_ H]]; [done|]. by apply Hk. Qed.

(** The row an insertion adds is counted; the token has moved past every row. *)
Lemma counted_insert m c id r token bytes count t now :
  counted m c -> m !! id = None -> live_in (cID c) r = true -> ModSeq r = token -> (SyncToken c <= token)%Z ->
  bytes = (BytesUsed c + rSize r)%Z -> count = (ResourceCount c + 1)%Z -> cID t = cID c ->
  counted (<[id := r]> m) (set_counters token bytes count now t).
Proof.
  intros (HB & HC & HM) Hf Hl Hs Ht -> -> E. unfold counted, set_counters. cbn [cID BytesUsed ResourceCount SyncToken]. rewrite E.
  destruct (insert_sums m (cID c) id r Hf Hl) as [-> ->]. rewrite HB, HC. split_and!; [lia..|].
  intros id' r' [[<- <-]|[_ H]]%lookup_insert_Some Hl'; [lia|]. specialize (HM id' r' H Hl'). lia.
Qed.

(** ** A row rewritten in place *)

Lemma update_one f db id r : keyed db -> resources db !! id = Some r ->
  update_where (has_id id) f db = set_resources (<[id := f r]> (resources db)) db.
Proof.
  intros Hk Hr. unfold update_where. f_equal. apply map_eq. intros id'. rewrite lookup_fmap. destruct (decide (id' = id)) as [->|Hne].
  - rewrite lookup_insert_eq, Hr. cbn. unfold has_id. by rewrite (Hk _ _ Hr), String.eqb_refl.
  - rewrite lookup_insert_ne by done. destruct (resources db !! id') as [r'|] eqn:E; [|done]. cbn. unfold has_id.
    rewrite (Hk _ _ E). by rewrite (proj2 (String.eqb_neq id' id)).
Qed.

Section Replace.
Variables (m : Rows) (cid id : string) (r r' : Resource).
Hypotheses (Hr : m !! id = Some r) (Hlive : live_in cid r = true) (Hlive' : live_in cid r' = true).
Let m' : Rows := <[id := r']> m.

Lemma replace_elsewhere : same_elsewhere cid m m'.
Proof using All.
  intros id2 r2 Hc. unfold m'. destruct (decide (id2 = id)) as [->|Hne].
  - rewrite lookup_insert_eq, Hr. split; intros [= <-]; exfalso; apply Hc; by apply live_in_spec.
  - by rewrite lookup_insert_ne.
Qed.

Lemma replace_tree : Path r' = Path r -> rKind r' = rKind r -> row_ok r' -> tree m cid -> tree m' cid.
Proof using All.
  intros Hp Hk Ho [Hok Hpar Hu].
  assert (Hd : forall p, has_dir m cid p -> has_dir m' cid p).
  { intros p [?|(id2 & d & Hd & Hl & Hpd & Hkd)]; [by left|]. right. unfold m'. destruct (decide (id2 = id)) as [->|Hne].
    - exists id, r'. rewrite lookup_insert_eq. rewrite Hr in Hd. injection Hd as <-. by rewrite Hp, Hk.
    - exists id2, d. by rewrite lookup_insert_ne. }
  assert (E : forall id2 r2, m' !! id2 = Some r2 -> live_in cid r2 = true ->
    exists r3, m !! id2 = Some r3 /\ live_in cid r3 = true /\ Path r3 = Path r2).
  { intros id2 r2 [[<- <-]|[_ H]]%lookup_insert_Some Hl; eauto. }
  split.
  - intros id2 r2 [[<- <-]|[_ H]]%lookup_insert_Some; [done|]. by apply (Hok id2).
  - intros id2 r2 H Hl. destruct (E _ _ H Hl) as (r3 & H3 & L3 & <-). eapply Hd, Hpar; eauto.
  - intros id1 r1 id2 r2 H1 H2 L1 L2 Hpp. destruct (E _ _ H1 L1) as (r3 & H3 & L3 & E3), (E _ _ H2 L2) as (r4 & H4 & L4 & E4).
    eapply Hu; eauto. congruence.
Qed.

Lemma replace_sums : rows_bytes m' cid = (rows_bytes m cid + rSize r' - rSize r)%Z /\ rows_count m' cid = rows_count m cid.
Proof using All.
  assert (E : m = <[id := r]> (delete id m)) by (symmetry; by apply insert_delete_id).
  unfold rows_bytes, rows_count, m'. rewrite E. rewrite !insert_insert_eq, !msum_insert by apply lookup_delete_eq.
  rewrite Hlive, Hlive'. lia.
Qed.
End Replace.

(** ** The unique index, and rows already dead *)

Lemma index_ok_unique cid db : index_ok cid db = true -> forall id1 r1 id2 r2,
  resources db !! id1 = Some r1 -> resources db !! id2 = Some r2 -> live_in cid r1 = true -> live_in cid r2 = true ->
  Path r1 = Path r2 -> id1 = id2.
Proof.
  unfold index_ok. rewrite bool_decide_eq_true. fold (live_in cid). unfold select. rewrite merge_sort_Permutation.
  intros Hnd id1 r1 id2 r2 H1 H2 L1 L2 E. destruct (decide (id1 = id2)) as [|Hne]; [done|]. exfalso.
  assert (Hp : map_to_list (resources db) ≡ₚ (id1, r1) :: (id2, r2) :: map_to_list (delete id2 (delete id1 (resources db)))).
  { rewrite <- (map_to_list_delete _ id1 r1 H1), <- (map_to_list_delete _ id2 r2); [done|]. by rewrite lookup_delete_ne. }
  rewrite Hp, !fmap_cons, !filter_cons_True, !fmap_cons in Hnd by done. cbn [snd] in Hnd. rewrite E in Hnd. apply NoDup_cons_1_1 in Hnd. apply Hnd. left.
Qed.

Lemma dead_update (g : Resource -> Resource) (m : Rows) cid :
  (forall id r, m !! id = Some r -> live r = true -> g r = r) -> (forall r, live r = false -> live (g r) = false) ->
  (forall r, rSize (g r) = rSize r) ->
  (tree m cid -> tree (g <$> m) cid) /\ rows_bytes (g <$> m) cid = rows_bytes m cid /\ rows_count (g <$> m) cid = rows_count m cid /\
  (forall id r, live r = true -> (g <$> m) !! id = Some r <-> m !! id = Some r).
Proof.
  intros Hlive Hdead Hsz.
  assert (E : forall id r, live r = true -> (g <$> m) !! id = Some r <-> m !! id = Some r).
  { intros id r Hl. rewrite lookup_fmap. split.
    - intros (r0 & Hr & ->)%fmap_Some. destruct (live r0) eqn:L; [by rewrite (Hlive id)|]. by rewrite (Hdead r0 L) in Hl.
    - intros Hr. rewrite Hr. cbn. by rewrite (Hlive id). }
  assert (Es : forall f, (forall r, live r = true -> f (g r) = f r) ->
    msum (fun r => if live_in cid r then f r else 0%Z) (g <$> m) = msum (fun r => if live_in cid r then f r else 0%Z) m).
  { intros f _. rewrite msum_fmap. apply msum_ext. intros id r Hr. destruct (live r) eqn:L; [by rewrite (Hlive id)|].
    unfold live_in. by rewrite L, (Hdead r L), !andb_false_r. }
  split_and!; [|by apply Es..|done]. intros [Hok Hp Hu]. split.
  - intros id r Hr Hl. apply (Hok id); [|done]. apply live_in_spec in Hl as [_ Hl]. by apply E.
  - intros id r Hr Hl. pose proof Hl as [_ L]%live_in_spec.
    destruct (Hp id r (proj1 (E _ _ L) Hr) Hl) as [?|(id' & d & Hd & Hdl & ?)]; [by left|]. right. exists id', d.
    split; [|done]. apply live_in_spec in Hdl as [_ Ld]. by apply E.
  - intros id1 r1 id2 r2 H1 H2 L1 L2. pose proof L1 as [_ ?]%live_in_spec. pose proof L2 as [_ ?]%live_in_spec.
    apply Hu; try done; by apply E.
Qed.

(** ** Mkdir and Put of a new file *)

Section Steps.
Context `{Unicode} `{Collation} `{Platform}.
Variable lim : Limits.

Lemma Inv_insert db cid c r p size now :
  Inv db -> lockCollection db cid = inl c -> requireParent db cid p = None -> getResourceQ db cid p = None ->
  clean p -> Path r = p -> CollectionID r = cid -> live r = true -> row_ok r -> ModSeq r = (SyncToken c + 1)%Z ->
  rSize r = size -> resources db !! ResourceID r = None ->
  Inv (advance (charge (bump c) size 1) now (set_resources (<[ResourceID r := r]> (resources db)) db)).
Proof.
  intros HI Hlock Hreq Hfree Hcl Hp Hc Hl Hok Hseq <- Hnew. apply lockCollection_inl in Hlock as [Hcoll Hdel].
  destruct HI as [Hk Hck HC HL]. assert (Hcid : cID c = cid) by by apply Hck. assert (Hlive : cLive c = true) by (unfold cLive; by rewrite Hdel).
  destruct (HC cid c Hcoll Hlive) as [Ht Hn]. assert (Hin : live_in cid r = true) by by apply live_in_spec.
  set (db1 := set_resources _ db). destruct (advance_collections (charge (bump c) (rSize r) 1) now db1 c) as [E1 E2].
  { cbn. by rewrite Hcid. }
  eapply (Inv_step db _ cid c _ (Build_Inv db Hk Hck HC HL) Hcoll); [| |rewrite E1, Hcid; reflexivity|..].
  - cbn. done.
  - done.
  - intros id r'. rewrite E2. by apply keyed_insert.
  - rewrite E2. by apply insert_elsewhere.
  - rewrite E2. apply insert_tree; [done|done|done|done| |].
    + rewrite Hp. by apply requireParent_None.
    + rewrite Hp. by apply free_path.
  - rewrite E2. rewrite <- Hcid in Hin. eapply counted_insert; try done; cbn; try lia.
Qed.

Lemma row_ok_new p k id cid key size ct etag token now :
  clean p -> (0 <= size)%Z -> (k = KindDir -> size = 0%Z /\ etag = "") ->
  row_ok (mkRes id cid p (ParentOf p) (Depth p) k key size ct etag token now now None).
Proof. intros. unfold row_ok. cbn. split_and!; try done; naive_solver. Qed.

Lemma mkdir_Inv cid p id now at_ db x ms db' :
  clean p -> Inv db -> mkdir_tx lim cid p id now at_ db = TxDone x ms db' -> Inv db'.
Proof.
  intros Hcl HI. unfold mkdir_tx. destruct (lockCollection db cid) as [c|] eqn:Hlock; [|done].
  destruct (requireParent db cid p) eqn:Hreq; [done|]. destruct (getResourceQ db cid p) eqn:Hq; [done|].
  destruct (_ && _); [done|]. destruct (insertResource _ db) as [db1|] eqn:Hi; [|done]. intros [= <- <- <-].
  apply insertResource_Some in Hi as (Hnew & _ & ->). apply (Inv_insert db cid c _ p); try done.
Qed.

(** ** Put *)

Lemma Inv_replace db cid c r r' now size :
  Inv db -> lockCollection db cid = inl c -> resources db !! ResourceID r = Some r -> live_in cid r = true ->
  ResourceID r' = ResourceID r -> live_in cid r' = true -> Path r' = Path r -> rKind r' = rKind r -> row_ok r' ->
  ModSeq r' = (SyncToken c + 1)%Z -> size = (rSize r' - rSize r)%Z ->
  Inv (advance (charge (bump c) size 0) now (set_resources (<[ResourceID r := r']> (resources db)) db)).
Proof.
  intros HI Hlock Hr Hl Hid Hl' Hp Hkd Hok Hseq ->. apply lockCollection_inl in Hlock as [Hcoll Hdel].
  destruct HI as [Hk Hck HC HL]. assert (Hcid : cID c = cid) by by apply Hck. assert (Hlive : cLive c = true) by (unfold cLive; by rewrite Hdel).
  destruct (HC cid c Hcoll Hlive) as [Ht (HB & HN & HM)]. set (db1 := set_resources _ db).
  destruct (advance_collections (charge (bump c) (rSize r' - rSize r) 0) now db1 c) as [E1 E2]; [by cbn; rewrite Hcid|].
  eapply (Inv_step db _ cid c _ (Build_Inv db Hk Hck HC HL) Hcoll); [| |rewrite E1, Hcid; reflexivity|..]; rewrite ?E2.
  - done.
  - done.
  - intros id2 r2 Hx. rewrite E2 in Hx. cbn in Hx. apply lookup_insert_Some in Hx as [[<- <-]|[_ Hx]]; [done|by apply Hk].
  - by apply (replace_elsewhere _ _ _ r).
  - by apply (replace_tree _ _ _ r).
  - destruct (replace_sums _ _ _ r r' Hr Hl Hl') as [E3 E4]. unfold counted. cbn. rewrite Hcid, E3, E4 in *. split_and!; [lia..|].
    intros id2 r2 [[<- <-]|[_ Hx]]%lookup_insert_Some Hl2; [lia|]. specialize (HM id2 r2 Hx Hl2). lia.
Qed.

Lemma put_Inv cid p id key size ct etag opts now at_ db x ms db' :
  clean p -> (0 <= size)%Z -> Inv db -> put_tx lim cid p id key size ct etag opts now at_ db = TxDone x ms db' -> Inv db'.
Proof.
  intros Hcl Hsz HI. unfold put_tx. destruct (lockCollection db cid) as [c|] eqn:Hlock; [|done].
  destruct (requireParent db cid p) eqn:Hreq; [done|]. destruct (getResourceQ db cid p) as [r|] eqn:Hq.
  - destruct (is_dir (rKind r)) eqn:Hdir; [done|]. destruct (checkPreconditions _ _ _ _); [done|]. destruct (_ && _); [done|].
    destruct (_ && _); [done|]. intros [= <- <- <-]. destruct HI as [Hk Hck HC HL].
    apply (getResourceQ_row _ _ _ _ Hk) in Hq as (Hr & Hc & Hp & Hl).
    assert (Hin : live_in cid r = true) by by apply live_in_spec.
    rewrite (update_one _ _ _ r) by done.
    apply (Inv_replace db cid c r); try done. apply lockCollection_inl in Hlock as [Hcoll Hdel].
    destruct (HC cid c Hcoll) as [Ht _]; [unfold cLive; by rewrite Hdel|]. destruct (t_ok _ _ Ht _ r Hr Hin) as (? & ? & ? & ? & ?).
    unfold row_ok. cbn. split_and!; try done. intros E. by rewrite E in Hdir.
  - destruct (checkPreconditions _ _ _ _); [done|]. destruct (_ && _); [done|]. destruct (_ && _); [done|].
    destruct (insertResource _ db) as [db1|] eqn:Hi; [|done]. intros [= <- <- <-].
    apply insertResource_Some in Hi as (Hnew & _ & ->). by apply (Inv_insert db cid c _ p).
Qed.

(** ** Delete *)

Lemma subtree_live cid p k r : subtree cid p k r = true -> live_in cid r = true.
Proof.
  unfold subtree, at_path, below, live_in. destruct (CollectionID r =s cid), (live r); cbn; try done; try (by rewrite ?andb_false_r).
Qed.

(** A live row whose parent goes, goes. *)
Lemma subtree_closed m cid x id r id' d :
  tree m cid -> (exists idx, m !! idx = Some x) -> live_in cid x = true ->
  m !! id = Some r -> live_in cid r = true -> m !! id' = Some d -> live_in cid d = true ->
  rKind d = KindDir -> Path d = ParentOf (Path r) -> subtree cid (Path x) (rKind x) d = true ->
  subtree cid (Path x) (rKind x) r = true.
Proof.
  intros Ht (idx & Hx) Hxl Hr Hrl Hd Hdl Hkd Hpd Hs. destruct (t_ok _ _ Ht _ _ Hr Hrl) as (Hcr & _).
  destruct (t_ok _ _ Ht _ _ Hd Hdl) as (Hcd & _). pose proof (clean_nonempty _ Hcd) as Hne.
  assert (Hin : IsInside (Path r) (Path d) = true) by (rewrite Hpd in *; by apply clean_inside_parent).
  apply live_in_spec in Hrl as [Hrc Hrl]. unfold subtree in *. apply orb_true_iff in Hs as [Hs|Hs].
  - unfold at_path in Hs. rewrite !andb_true_iff, !String.eqb_eq in Hs. destruct Hs as [[_ Hp] _].
    assert (id' = idx) as -> by (eapply (t_unique _ _ Ht); eauto). rewrite Hx in Hd. injection Hd as <-. rewrite Hkd. cbn.
    apply orb_true_iff. right. unfold below. rewrite Hrc, String.eqb_refl, Hrl. cbn. by apply below_inside.
  - apply andb_true_iff in Hs as [-> Hs]. unfold below in Hs. apply andb_true_iff in Hs as [_ Hs]. cbn.
    apply orb_true_iff. right. unfold below. rewrite Hrc, String.eqb_refl, Hrl. cbn. by eapply below_closed.
Qed.

Lemma tombstone_ok db cid x token now n bytes db' :
  tree (resources db) cid -> (exists id, resources db !! id = Some x) -> live_in cid x = true ->
  tombstoneSubtree db cid (Path x) (rKind x) token now = (n, bytes, db') ->
  tree (resources db') cid /\ same_elsewhere cid (resources db) (resources db') /\
  rows_bytes (resources db') cid = (rows_bytes (resources db) cid - bytes)%Z /\
  rows_count (resources db') cid = (rows_count (resources db) cid - n)%Z /\
  collections db' = collections db /\
  (forall id r, resources db' !! id = Some r -> live r = true ->
     resources db !! id = Some r /\ subtree cid (Path x) (rKind x) r = false) /\
  (forall id r, resources db !! id = Some r -> subtree cid (Path x) (rKind x) r = false -> resources db' !! id = Some r).
Proof.
  intros Ht Hx Hl [= <- <- <-]. set (P := subtree cid (Path x) (rKind x)).
  assert (HP : forall r, P r = true -> live_in cid r = true) by (intros r; apply subtree_live).
  split_and!.
  - apply tomb_tree; [done|]. intros id r id' d. intros. by eapply (subtree_closed (resources db) cid x id r id' d).
  - by apply tomb_elsewhere.
  - by apply tomb_sum.
  - by apply (tomb_sum _ _ _ _ _ HP (fun _ => 1%Z)).
  - done.
  - intros id r Hr Hlr. apply (tomb_live (resources db) P now token id r (CollectionID r)); [done|]. by apply live_in_spec.
  - intros id r. apply tomb_keep.
Qed.

Lemma delete_Inv cid find o now at_ db x ms db' :
  (forall r, find db = Some r -> (exists id, resources db !! id = Some r) /\ live_in cid r = true) ->
  Inv db -> delete_tx cid find o now at_ db = TxDone x ms db' -> Inv db'.
Proof.
  intros Hf HI. unfold delete_tx. destruct (lockCollection db cid) as [c|] eqn:Hlock; [|done].
  destruct (find db) as [r|]; [|done]. destruct (Hf r eq_refl) as [Hr Hl]. destruct (checkPreconditions _ _ _ _); [done|].
  destruct (tombstoneSubtree _ _ _ _ _ _) as [[n bytes] db1] eqn:Htomb. intros [= _ _ <-].
  apply lockCollection_inl in Hlock as [Hcoll Hdel]. destruct HI as [Hk Hck HC HL]. assert (Hcid : cID c = cid) by by apply Hck.
  assert (Hlive : cLive c = true) by (unfold cLive; by rewrite Hdel).
  destruct (HC cid c Hcoll Hlive) as [Ht (HB & HN & HM)].
  destruct (tombstone_ok _ _ _ _ _ _ _ _ Ht Hr Hl Htomb) as (Ht' & Hs & EB & EN & Ecoll & Hkeep & _).
  match goal with |- Inv (advance ?c1 _ _) => destruct (advance_collections c1 now db1 c) as [E1 E2] end.
  { cbn. by rewrite Ecoll, Hcid. }
  assert (HB0 : (0 <= rows_bytes (resources db1) cid)%Z).
  { apply msum_nonneg. intros id r0 Hr0. destruct (live_in cid r0) eqn:E; [|done]. by apply (t_ok _ _ Ht' id). }
  assert (HN0 : (0 <= rows_count (resources db1) cid)%Z).
  { apply msum_nonneg. intros id r0 _. by destruct (live_in cid r0). }
  eapply (Inv_step db _ cid c _ (Build_Inv db Hk Hck HC HL) Hcoll); [| |rewrite E1, Hcid, Ecoll; reflexivity|..]; rewrite ?E2.
  - done.
  - done.
  - unfold keyed. rewrite E2. unfold tombstoneSubtree in Htomb. injection Htomb as _ _ <-. by apply keyed_update.
  - done.
  - done.
  - unfold counted. cbn. rewrite Hcid in *. split_and!; [lia..|]. intros id r0 Hr0 [Hc0 Hl0]%live_in_spec.
    destruct (Hkeep id r0 Hr0 Hl0) as [Hr1 _]. specialize (HM id r0 Hr1). rewrite live_in_spec in HM. specialize (HM (conj Hc0 Hl0)). lia.
Qed.

(** ** Replacing a destination *)

Lemma replace_ok db c cid to overwrite now at_ ms c' db' :
  keyed db -> tree (resources db) cid -> cID c = cid -> replaceDestination db c to overwrite now at_ = inl (ms, c', db') ->
  keyed db' /\ tree (resources db') cid /\ same_elsewhere cid (resources db) (resources db') /\
  (BytesUsed c' - BytesUsed c = rows_bytes (resources db') cid - rows_bytes (resources db) cid)%Z /\
  (ResourceCount c' - ResourceCount c = rows_count (resources db') cid - rows_count (resources db) cid)%Z /\
  collections db' = collections db /\ SyncToken c' = SyncToken c /\ cID c' = cid /\
  (forall id r, resources db' !! id = Some r -> live r = true -> resources db !! id = Some r) /\
  (forall id r, resources db !! id = Some r -> ~ (exists k, subtree cid to k r = true) -> resources db' !! id = Some r) /\
  (forall id r, resources db !! id = Some r -> live_in cid r = true -> resources db' !! id <> Some r ->
     Path r = to \/ like char_eq (LikePrefix to) (Path r) = true /\ forall q, live_in cid q = true ->
       like char_eq (LikePrefix to) (Path q) = true -> forall id', resources db' !! id' <> Some q).
Proof.
  intros Hk Ht Hid. unfold replaceDestination. rewrite Hid. destruct (getResourceQ db cid to) as [x|] eqn:Hq.
  - destruct overwrite; [|done]. cbn [negb]. destruct (tombstoneSubtree _ _ _ _ _ _) as [[n bytes] db1] eqn:Htomb. intros [= _ <- <-].
    apply (getResourceQ_row _ _ _ _ Hk) in Hq as (Hx & Hc & <- & Hl). assert (Hxl : live_in cid x = true) by by apply live_in_spec.
    assert (Hex : exists id, resources db !! id = Some x) by eauto.
    destruct (tombstone_ok _ _ _ _ _ _ _ _ Ht Hex Hxl Htomb) as (Ht' & Hs & EB & EN & Ecoll & Hkeep & Hkeep').
    split_and!; try done.
    + unfold tombstoneSubtree in Htomb. injection Htomb as _ _ <-. by apply keyed_update.
    + cbn. lia.
    + cbn. lia.
    + intros id r Hr Hlr. by apply (Hkeep id r Hr Hlr).
    + intros id r Hr Hn. apply (Hkeep' id r Hr). apply not_true_iff_false. intros E. apply Hn. eauto.
    + intros id r Hr Hlr Hgone. destruct (subtree cid (Path x) (rKind x) r) eqn:E; [|by destruct Hgone; apply Hkeep'].
      unfold subtree in E. apply orb_true_iff in E as [E|E].
      * left. unfold at_path in E. rewrite !andb_true_iff, !String.eqb_eq in E. naive_solver.
      * right. apply andb_true_iff in E as [Hdir E]. unfold below in E. apply andb_true_iff in E as [_ E]. split; [done|].
        intros q Hql Hqb id' Hq'. pose proof Hql as [Hqc Hqv]%live_in_spec. destruct (Hkeep id' q Hq' Hqv) as [_ F].
        unfold subtree, below in F. rewrite Hdir, Hqc, String.eqb_refl, Hqv, Hqb in F. by rewrite orb_true_r in F.
  - intros [= <- <- <-]. split_and!; try done; try lia.
Qed.

(** The parent of a destination is not replaced with it. *)
Lemma replace_keeps_parent db db' cid to :
  to <> "" -> (forall id r, resources db !! id = Some r -> ~ (exists k, subtree cid to k r = true) -> resources db' !! id = Some r) ->
  has_dir (resources db) cid (ParentOf to) -> has_dir (resources db') cid (ParentOf to).
Proof.
  intros Hto Hkeep [?|(id & d & Hd & Hl & Hp & Hkd)]; [by left|].
  destruct (String.eqb_spec (ParentOf to) "") as [E|Hne]; [by left|]. right. exists id, d. split_and!; [|done..].
  apply Hkeep; [done|]. intros (k & Hs). assert (Hlt : slen (ParentOf to) < slen to).
  { destruct (path_cases to) as [(_ & E & _)|(a & t & -> & _ & E & _)]; rewrite E in *; [done|]. rewrite !slen_app. simpl. lia. }
  unfold subtree in Hs. apply orb_true_iff in Hs as [Hs|Hs].
  - unfold at_path in Hs. rewrite !andb_true_iff, !String.eqb_eq in Hs. destruct Hs as [[_ Hs] _]. rewrite <- Hp, Hs in Hlt. lia.
  - apply andb_true_iff in Hs as [_ Hs]. unfold below in Hs. apply andb_true_iff in Hs as [_ Hs]. apply below_longer in Hs.
    rewrite Hp in Hs. lia.
Qed.

(** ** A moved subtree *)

(** What the UPDATE of the descendants writes, for an ASCII source. *)
Lemma setrow_below_path from to token now r :
  asciib from = true -> from <> "" -> row_ok r -> like char_eq (LikePrefix from) (Path r) = true ->
  exists F u, Path r = F ++ "/" ++ u /\ spelling from F /\ slen F = slen from /\ clean u /\
    Path (setrow_below from to token now r) = to ++ "/" ++ u /\
    (to <> "" -> ParentPath (setrow_below from to token now r) = ParentOf (to ++ "/" ++ u) /\
     rDepth (setrow_below from to token now r) = Depth (to ++ "/" ++ u)).
Proof.
  intros Ha Hf (Hcl & Hpp & Hd & _) Hl. destruct (below_spelling _ _ Hl) as (F & u & E & HF). pose proof HF as (HFl & HFs & HFa).
  assert (HaF : asciib F = true) by (unfold asciib in *; by rewrite HFa).
  assert (HFne : F <> "") by (intros ->; by destruct from). rewrite E in Hcl. apply clean_app in Hcl as [_ Hcu].
  exists F, u. split_and!; try done; unfold setrow_below, setrow_path; cbn [Path ParentPath rDepth].
  - rewrite E, <- HFl. f_equal. by apply (substr_drop_ascii F ("/" ++ u)).
  - intros Hto. split.
    + rewrite Hpp, E, !ParentOf_below, <- HFl. destruct (no_slashb u).
      * pose proof (substr_drop_ascii F "" HaF eq_refl) as Es. rewrite sapp_nil_r in Es. by rewrite Es, sapp_nil_r.
      * f_equal. by apply (substr_drop_ascii F ("/" ++ ParentOf u)).
    + rewrite Hd, E, !Depth_below by done. unfold Depth.
      rewrite !(proj2 (String.eqb_neq _ "")) by done. rewrite HFs. lia.
Qed.

(** The rows after both UPDATEs of a move. *)
Definition moved (cid from to : string) (src : Resource) (token now : Z) (r : Resource) : Resource :=
  if has_id (ResourceID src) r then setrow_path to (ParentOf to) (Depth to) token now r
  else if is_dir (rKind src) && below cid from r then setrow_below from to token now r else r.

Section Moved.
Variables (m : Rows) (cid from to : string) (src : Resource) (token now : Z).
Hypotheses (Hkey : forall id r, m !! id = Some r -> ResourceID r = id) (Ht : tree m cid) (Hsrc : m !! ResourceID src = Some src).
Hypotheses (Hlive : live_in cid src = true) (Hfrom : Path src = from) (Hto : clean to) (Hpar : has_dir m cid (ParentOf to)).
Hypotheses (Hin : IsInside to from = false) (Hlike : like char_eq (LikePrefix from) to = false).
Hypothesis Hascii : rKind src = KindDir -> asciib from = true.
Let g := moved cid from to src token now.
Let m' : Rows := g <$> m.

Lemma from_ne : from <> "".
Proof using Ht Hsrc Hlive Hfrom. rewrite <- Hfrom. apply clean_nonempty. by apply (t_ok _ _ Ht _ _ Hsrc). Qed.

Lemma g_keeps r : ResourceID (g r) = ResourceID r /\ CollectionID (g r) = CollectionID r /\ rKind (g r) = rKind r /\
  rSize (g r) = rSize r /\ rETag (g r) = rETag r /\ live (g r) = live r /\ live_in cid (g r) = live_in cid r.
Proof using. clear -H0. unfold g, moved. destruct (has_id _ r); [done|]. by destruct (_ && _). Qed.

Lemma m'_lookup id r' : m' !! id = Some r' <-> exists r, m !! id = Some r /\ r' = g r.
Proof using. unfold m'. by rewrite lookup_fmap, fmap_Some. Qed.

(** Nothing below the source is the source. *)
Lemma below_not_src r : m !! ResourceID r = Some r -> below cid from r = true -> has_id (ResourceID src) r = false.
Proof using Hsrc Hfrom.
  intros Hr Hb. apply not_true_iff_false. unfold has_id. intros E%String.eqb_eq. rewrite E, Hsrc in Hr. injection Hr as <-.
  unfold below in Hb. apply andb_true_iff in Hb as [_ Hb]. apply below_longer in Hb. rewrite Hfrom in Hb. lia.
Qed.

Lemma g_src : g src = setrow_path to (ParentOf to) (Depth to) token now src.
Proof using. unfold g, moved, has_id. by rewrite String.eqb_refl. Qed.

Lemma g_below r : m !! ResourceID r = Some r -> rKind src = KindDir -> below cid from r = true -> g r = setrow_below from to token now r.
Proof using Hsrc Hfrom. intros Hr Hk Hb. unfold g, moved. by rewrite (below_not_src r Hr Hb), Hk, Hb. Qed.

Lemma g_other r : ResourceID r <> ResourceID src -> (rKind src = KindDir -> below cid from r = false) -> g r = r.
Proof using.
  clear -H0. intros Hne Hb. unfold g, moved, has_id. rewrite (proj2 (String.eqb_neq _ _) Hne).
  destruct (rKind src); [done|]. by rewrite Hb.
Qed.

(** A directory that is not moved stays where it is. *)
Lemma dir_stays p : p <> from -> like char_eq (LikePrefix from) p = false -> has_dir m cid p -> has_dir m' cid p.
Proof using Hkey Hsrc Hfrom.
  intros Hp Hb [?|(id & d & Hd & Hdl & Hdp & Hdk)]; [by left|]. right. exists id, d. split; [|done]. apply m'_lookup.
  exists d. split; [done|]. symmetry. apply g_other.
  - intros E. rewrite (Hkey _ _ Hd) in E. rewrite E, Hsrc in Hd. injection Hd as <-. congruence.
  - intros _. unfold below. by rewrite Hdp, Hb, andb_false_r.
Qed.

Lemma moved_root_dir : rKind src = KindDir -> has_dir m' cid to.
Proof using Hsrc Hlive.
  intros Hk. right. exists (ResourceID src), (g src). split_and!.
  - apply m'_lookup. by exists src.
  - by rewrite (proj2 (proj2 (proj2 (proj2 (proj2 (proj2 (g_keeps src))))))).
  - by rewrite g_src.
  - by rewrite g_src.
Qed.

Lemma moved_row_ok r : m !! ResourceID r = Some r -> live_in cid r = true -> row_ok r -> row_ok (g r).
Proof using Hsrc Hfrom Hto Hascii Ht Hlive.
  intros Hr Hl Hok. destruct (String.eqb_spec (ResourceID r) (ResourceID src)) as [E|Hne].
  - rewrite E, Hsrc in Hr. injection Hr as <-. rewrite g_src. destruct Hok as (_ & _ & _ & Hsz & Hd). unfold row_ok. by cbn.
  - destruct (is_dir (rKind src) && below cid from r) eqn:E.
    + apply andb_true_iff in E as [Hk Hb]. assert (rKind src = KindDir) as Hk' by by destruct (rKind src).
      rewrite (g_below r Hr Hk' Hb). unfold below in Hb. apply andb_true_iff in Hb as [_ Hb].
      destruct (setrow_below_path from to token now r (Hascii Hk') from_ne Hok Hb) as (F & u & _ & _ & _ & Hu & Ep & Er).
      destruct (Er (clean_nonempty _ Hto)) as [Epp Ed]. destruct Hok as (_ & _ & _ & Hsz & Hd). unfold row_ok. rewrite Ep, Epp, Ed.
      split_and!; try done. by apply clean_app.
    + rewrite g_other; [done..|]. intros Hk. by rewrite Hk in E.
Qed.

(** The parent of what is below the source moves with it. *)
Lemma moved_parent r : m !! ResourceID r = Some r -> live_in cid r = true -> row_ok r -> has_dir m cid (ParentOf (Path r)) ->
  has_dir m' cid (ParentOf (Path (g r))).
Proof using All.
  intros Hr Hl Hok Hp. destruct (String.eqb_spec (ResourceID r) (ResourceID src)) as [E|Hne].
  - rewrite E, Hsrc in Hr. injection Hr as <-. rewrite g_src. cbn. destruct (String.eqb_spec (ParentOf to) "") as [E'|Hne]; [by left|].
    destruct (clean_inside_parent to Hto Hne) as [Hi _]. apply dir_stays; [| |done].
    + intros E'. rewrite E' in Hi. congruence.
    + apply not_true_iff_false. intros Hb. by rewrite (below_closed _ _ _ Hne Hb Hi) in Hlike.
  - destruct (is_dir (rKind src) && below cid from r) eqn:E.
    + apply andb_true_iff in E as [Hk Hb]. assert (rKind src = KindDir) as Hk' by by destruct (rKind src).
      rewrite (g_below r Hr Hk' Hb). unfold below in Hb. apply andb_true_iff in Hb as [_ Hb].
      destruct (setrow_below_path from to token now r (Hascii Hk') from_ne Hok Hb) as (F & u & Eu & HF & HFl & Hu & Ep & _).
      rewrite Ep, ParentOf_below. destruct (no_slashb u) eqn:Eus; [by apply moved_root_dir|].
      rewrite Eu, ParentOf_below, Eus in Hp. destruct Hp as [Hp|(id & d & Hd & Hdl & Hdp & Hdk)]; [by destruct F|].
      assert (Hdb : like char_eq (LikePrefix from) (Path d) = true) by (rewrite Hdp; rewrite Eu in Hb; by eapply below_prefix).
      pose proof (Hkey _ _ Hd) as Hid. pose proof Hdl as [Hdc Hdv]%live_in_spec.
      right. exists id, (g d). split_and!.
      * apply m'_lookup. by exists d.
      * by rewrite (proj2 (proj2 (proj2 (proj2 (proj2 (proj2 (g_keeps d))))))).
      * rewrite g_below; [|by rewrite Hid|done|unfold below; by rewrite Hdc, String.eqb_refl, Hdv].
        unfold setrow_below. cbn. f_equal. rewrite Hdp, <- HFl. apply (substr_drop_ascii F ("/" ++ ParentOf u)); [|done].
        unfold asciib. destruct HF as (_ & _ & ->). by apply Hascii.
      * by rewrite (proj1 (proj2 (proj2 (g_keeps d)))).
    + rewrite g_other; [|done|intros Hk; by rewrite Hk in E]. destruct (String.eqb_spec (ParentOf (Path r)) "") as [E'|Hpne]; [by left|].
      destruct (clean_inside_parent (Path r) (proj1 Hok) Hpne) as [Hi _].
      assert (Hnb : rKind src = KindDir -> like char_eq (LikePrefix from) (Path r) = false).
      { intros Hk. rewrite Hk in E. unfold below in E. apply live_in_spec in Hl as [Hc Hv]. by rewrite Hc, String.eqb_refl, Hv in E. }
      destruct Hp as [?|(id & d & Hd & Hdl & Hdp & Hdk)]; [done|].
      assert (Hnf : ParentOf (Path r) <> from).
      { intros Ef. assert (id = ResourceID src) as -> by (eapply (t_unique _ _ Ht); eauto; congruence).
        rewrite Hsrc in Hd. injection Hd as <-. rewrite (below_inside from (Path r) from_ne) in Hnb; [by specialize (Hnb Hdk)|].
        by rewrite <- Ef. }
      destruct (like char_eq (LikePrefix from) (ParentOf (Path r))) eqn:Eb.
      * destruct (rKind src) eqn:Hk; [|by rewrite (below_closed _ _ _ Hpne Eb Hi) in Hnb; specialize (Hnb eq_refl)].
        right. exists id, d. split; [|done]. apply m'_lookup. exists d. split; [done|]. symmetry. apply g_other; [|by rewrite Hk].
        intros Es. rewrite (Hkey _ _ Hd) in Es. rewrite Es, Hsrc in Hd. injection Hd as <-. congruence.
      * apply dir_stays; [done..|]. right. by exists id, d.
Qed.

Lemma moved_tree : (forall id1 r1 id2 r2, m' !! id1 = Some r1 -> m' !! id2 = Some r2 -> live_in cid r1 = true -> live_in cid r2 = true ->
    Path r1 = Path r2 -> id1 = id2) -> tree m' cid.
Proof using All.
  intros Hu. split; [| |done].
  - intros id r' (r & Hr & ->)%m'_lookup Hl. rewrite (proj2 (proj2 (proj2 (proj2 (proj2 (proj2 (g_keeps r))))))) in Hl.
    pose proof (Hkey _ _ Hr) as Hid. apply moved_row_ok; [by rewrite Hid|done|]. by apply (t_ok _ _ Ht id).
  - intros id r' (r & Hr & ->)%m'_lookup Hl. rewrite (proj2 (proj2 (proj2 (proj2 (proj2 (proj2 (g_keeps r))))))) in Hl.
    pose proof (Hkey _ _ Hr) as Hid. apply moved_parent; [by rewrite Hid|done| |]; [by apply (t_ok _ _ Ht id)|by apply (t_parent _ _ Ht id)].
Qed.

Lemma moved_sums : rows_bytes m' cid = rows_bytes m cid /\ rows_count m' cid = rows_count m cid.
Proof using.
  unfold rows_bytes, rows_count, m'. rewrite !msum_fmap. split; apply msum_ext; intros id r _;
    destruct (g_keeps r) as (_ & _ & _ & E & _ & _ & ->); by rewrite ?E.
Qed.

End Moved.

Lemma move_updates cid from to src token now db :
  (forall id r, resources db !! id = Some r -> ResourceID r = ResourceID src -> below cid from r = false) ->
  resources (move_root (ResourceID src) to token now (move_below cid from to (rKind src) token now db)) =
  moved cid from to src token now <$> resources db.
Proof.
  intros Hb. unfold move_root, move_below. destruct (rKind src) eqn:Hk; cbn.
  - apply map_fmap_ext. intros id r Hr. unfold moved. rewrite Hk. by destruct (has_id _ r).
  - rewrite <- map_fmap_compose. apply map_fmap_ext. intros id r Hr. unfold moved. rewrite Hk. cbn.
    destruct (below cid from r) eqn:E.
    + assert (Hn : has_id (ResourceID src) r = false).
      { apply not_true_iff_false. unfold has_id. intros Ei%String.eqb_eq. by rewrite (Hb id r Hr Ei) in E. }
      rewrite Hn. unfold has_id in *. cbn. by rewrite Hn.
    + by destruct (has_id _ r).
Qed.

(** A move writes only its own collection's rows. *)
Lemma moved_keeps cid from to src token now r :
  ResourceID (moved cid from to src token now r) = ResourceID r /\
  CollectionID (moved cid from to src token now r) = CollectionID r /\ live (moved cid from to src token now r) = live r /\
  rSize (moved cid from to src token now r) = rSize r.
Proof. unfold moved. destruct (has_id _ r); [done|]. by destruct (_ && _). Qed.

Lemma moved_elsewhere cid from to src token now (m : Rows) :
  (forall id r, m !! id = Some r -> has_id (ResourceID src) r = true -> CollectionID r = cid) ->
  same_elsewhere cid m (moved cid from to src token now <$> m).
Proof.
  intros Hid. assert (E : forall id r, m !! id = Some r -> CollectionID r <> cid -> moved cid from to src token now r = r).
  { intros id r Hr Hc. unfold moved. destruct (has_id _ r) eqn:Ei; [by destruct Hc; eapply Hid|].
    unfold below. by rewrite (proj2 (String.eqb_neq _ _) Hc), andb_false_r. }
  intros id r Hc. rewrite lookup_fmap. split.
  - intros Hr. rewrite Hr. cbn. by rewrite (E id r).
  - intros (r0 & Hr & ->)%fmap_Some. rewrite (proj1 (proj2 (moved_keeps cid from to src token now r0))) in Hc. by rewrite (E id r0).
Qed.

Lemma moved_seq cid from to src token now r : ModSeq (moved cid from to src token now r) = token \/ moved cid from to src token now r = r.
Proof. unfold moved. destruct (has_id _ r); [by left|]. destruct (_ && _); [by left|by right]. Qed.

(** A source that went with the destination leaves nothing to move. *)
Lemma moved_dead cid from to src token now (m m1 : Rows) :
  (forall id r, m1 !! id = Some r -> ResourceID r = id) ->
  m !! ResourceID src = Some src -> live_in cid src = true -> Path src = from -> m1 !! ResourceID src <> Some src -> from <> to ->
  (forall id r, m1 !! id = Some r -> live r = true -> m !! id = Some r) ->
  (forall id r, m !! id = Some r -> live_in cid r = true -> m1 !! id <> Some r ->
     Path r = to \/ like char_eq (LikePrefix to) (Path r) = true /\ forall q, live_in cid q = true ->
       like char_eq (LikePrefix to) (Path q) = true -> forall id', m1 !! id' <> Some q) ->
  forall id r, m1 !! id = Some r -> live r = true -> moved cid from to src token now r = r.
Proof.
  intros Hkey Hsrc Hl Hf Hgone Hft Hkeep Hwhy id r Hr Hlr.
  destruct (Hwhy _ _ Hsrc Hl Hgone) as [E|[Hlike Hall]]; [congruence|]. unfold moved.
  destruct (has_id (ResourceID src) r) eqn:Ei.
  - unfold has_id in Ei. apply String.eqb_eq in Ei. rewrite (Hkey _ _ Hr) in Ei. subst id.
    pose proof (Hkeep _ _ Hr Hlr) as E. rewrite Hsrc in E. injection E as <-. done.
  - destruct (is_dir (rKind src) && below cid from r) eqn:Eb; [|done]. apply andb_true_iff in Eb as [_ Eb].
    unfold below in Eb. rewrite !andb_true_iff, String.eqb_eq in Eb. destruct Eb as [[Hc _] Eb].
    exfalso. eapply (Hall r); [by apply live_in_spec| |exact Hr]. rewrite Hf in Hlike. by eapply below_trans.
Qed.

(** A move that goes through: the destination replaced ([db1]), then both
    UPDATEs ([db3]), then the counters. *)
Lemma move_tx_done cid from to overwrite now at_ db x ms db' :
  Inv db -> move_tx cid from to overwrite now at_ db = TxDone x ms db' -> exists c src rep c1 db1 db3,
  lockCollection db cid = inl c /\ getResourceQ db cid from = Some src /\ requireParent db cid to = None /\
  replaceDestination db (bump c) to overwrite now at_ = inl (rep, c1, db1) /\
  resources db3 = moved cid from to src (SyncToken c1) now <$> resources db1 /\ collections db3 = collections db /\
  keyed db3 /\ index_ok cid db3 = true /\ db' = advance c1 now db3 /\
  ms = (rep ++ moved_events c1 from to src (if is_dir (rKind src) then listQ db1 cid from else []) at_)%list.
Proof.
  intros HI. unfold move_tx. destruct (lockCollection db cid) as [c|] eqn:Hlock; [|done].
  destruct (getResourceQ db cid from) as [src|] eqn:Hq; [|done]. destruct (requireParent db cid to) eqn:Hreq; [done|].
  destruct (replaceDestination db (bump c) to overwrite now at_) as [[[rep c1] db1]|] eqn:Hrep; [|done].
  destruct (index_ok cid _); [|done]. destruct (index_ok cid _) eqn:Hidx; [|done]. intros [= _ <- <-].
  apply lockCollection_inl in Hlock as Hc. destruct Hc as [Hc Hd]. destruct HI as [Hk Hck HC _].
  destruct (HC cid c Hc) as [Ht _]; [unfold cLive; by rewrite Hd|].
  apply (getResourceQ_row _ _ _ _ Hk) in Hq as Hq'. destruct Hq' as (Hsrc & _ & Hsf & _).
  destruct (replace_ok _ (bump c) cid _ _ _ _ _ _ _ Hk Ht (Hck _ _ Hc) Hrep) as (Hk1 & _ & _ & _ & _ & Ecoll & _ & _ & Hkeep & _).
  exists c, src, rep, c1, db1, (move_root (ResourceID src) to (SyncToken c1) now (move_below cid from to (rKind src) (SyncToken c1) now db1)).
  split_and!; try done.
  - apply move_updates. intros id r Hr Ei. apply not_true_iff_false. unfold below. rewrite !andb_true_iff, String.eqb_eq.
    intros [[_ Hl] Hb]. pose proof (Hkeep id r Hr Hl) as Hr0. rewrite (Hk _ _ Hr0) in Ei. subst id.
    rewrite Hsrc in Hr0. injection Hr0 as <-. apply below_longer in Hb. rewrite Hsf in Hb. lia.
  - unfold move_root, move_below. destruct (is_dir _); cbn; apply Ecoll.
  - unfold move_root, move_below. apply keyed_update; [|done]. destruct (is_dir _); [|done]. by apply keyed_update.
Qed.

(** The tree and the sums after both UPDATEs. *)
Lemma moved_all cid from to src token now (m : Rows) db1 db3 :
  clean to -> from <> to -> IsInside to from = false -> like char_eq (LikePrefix from) to = false ->
  (rKind src = KindDir -> asciib from = true) -> keyed db1 -> tree (resources db1) cid -> has_dir (resources db1) cid (ParentOf to) ->
  m !! ResourceID src = Some src -> live_in cid src = true -> Path src = from ->
  resources db3 = moved cid from to src token now <$> resources db1 -> index_ok cid db3 = true ->
  (forall id r, resources db1 !! id = Some r -> live r = true -> m !! id = Some r) ->
  (forall id r, m !! id = Some r -> live_in cid r = true -> resources db1 !! id <> Some r ->
     Path r = to \/ like char_eq (LikePrefix to) (Path r) = true /\ forall q, live_in cid q = true ->
       like char_eq (LikePrefix to) (Path q) = true -> forall id', resources db1 !! id' <> Some q) ->
  tree (resources db3) cid /\ rows_bytes (resources db3) cid = rows_bytes (resources db1) cid /\
  rows_count (resources db3) cid = rows_count (resources db1) cid.
Proof.
  intros Hto Hne Hin Hlike Hasc Hk1 Ht1 Hpar Hsrc Hsin Hsf E3 Hidx Hkeep Hwhy. pose proof (index_ok_unique _ _ Hidx) as Hu. rewrite E3 in *.
  destruct (decide (resources db1 !! ResourceID src = Some src)) as [Hs|Hgone].
  - split; [|apply moved_sums]. by eapply moved_tree.
  - pose proof (moved_dead cid from to src token now _ _ Hk1 Hsrc Hsin Hsf Hgone Hne Hkeep Hwhy) as Hsame.
    destruct (dead_update (moved cid from to src token now) (resources db1) cid Hsame) as (HT & ? & ? & _);
      [intros r Hr; by rewrite (proj1 (proj2 (proj2 (moved_keeps _ _ _ _ _ _ r))))|intros r; apply moved_keeps|].
    split; [by apply HT|done].
Qed.

Lemma move_Inv cid from to overwrite now at_ db x ms db' :
  clean to -> from <> to -> IsInside to from = false -> like char_eq (LikePrefix from) to = false ->
  (forall src, getResourceQ db cid from = Some src -> rKind src = KindDir -> asciib from = true) ->
  Inv db -> move_tx cid from to overwrite now at_ db = TxDone x ms db' -> Inv db'.
Proof.
  intros Hto Hne Hin Hlike Hasc HI Htx.
  destruct (move_tx_done _ _ _ _ _ _ _ _ _ _ HI Htx) as (c & src & rep & c1 & db1 & db3 & Hlock & Hq & Hreq & Hrep & E3 & Ec3 & Hk3 & Hidx & -> & _).
  specialize (Hasc src Hq). apply lockCollection_inl in Hlock as [Hcoll Hdel]. destruct HI as [Hk Hck HC HL]. assert (Hcid : cID c = cid) by by apply Hck.
  assert (Hlive : cLive c = true) by (unfold cLive; by rewrite Hdel). destruct (HC cid c Hcoll Hlive) as [Ht (HB & HN & HM)]. rewrite Hcid in *.
  apply (getResourceQ_row _ _ _ _ Hk) in Hq as (Hsrc & Hsc & Hsf & Hsl). assert (Hsin : live_in cid src = true) by by apply live_in_spec.
  destruct (replace_ok _ (bump c) cid _ _ _ _ _ _ _ Hk Ht Hcid Hrep) as (Hk1 & Ht1 & Hs1 & EB & EN & Ecoll & Etok & Eid & Hkeep & Hkeep' & Hwhy).
  assert (Hpar : has_dir (resources db1) cid (ParentOf to)).
  { eapply replace_keeps_parent; [by apply clean_nonempty|done|by apply requireParent_None]. }
  destruct (moved_all cid from to src (SyncToken c1) now _ _ _ Hto Hne Hin Hlike Hasc Hk1 Ht1 Hpar Hsrc Hsin Hsf E3 Hidx Hkeep Hwhy) as (Ht3 & EB3 & EN3).
  assert (Hs3 : same_elsewhere cid (resources db1) (resources db3)).
  { rewrite E3. apply moved_elsewhere. intros id r Hr Ei. unfold has_id in Ei. apply String.eqb_eq in Ei. rewrite (Hk1 _ _ Hr) in Ei. subst id.
    destruct (String.eqb_spec (CollectionID r) cid) as [|Hc]; [done|]. apply (Hs1 _ _ Hc) in Hr. rewrite Hsrc in Hr. by injection Hr as <-. }
  destruct (advance_collections c1 now db3 c) as [E1 E2]; [by rewrite Ec3, Eid|].
  eapply (Inv_step db _ cid c _ (Build_Inv db Hk Hck HC HL) Hcoll); [| |rewrite E1, Hcid, Ec3; reflexivity|..]; rewrite ?E2; try done.
  - unfold keyed. by rewrite E2.
  - intros id r Hc. rewrite (Hs1 id r Hc). by apply Hs3.
  - unfold counted. cbn in *. rewrite Hcid. split_and!; [lia..|]. intros id r Hr [Hc Hl]%live_in_spec. rewrite E3, lookup_fmap in Hr.
    apply fmap_Some in Hr as (r0 & Hr0 & ->). destruct (moved_seq cid from to src (SyncToken c1) now r0) as [->|E]; [lia|].
    rewrite E in *. specialize (HM id r0 (Hkeep _ _ Hr0 Hl)). rewrite live_in_spec in HM. specialize (HM (conj Hc Hl)). lia.
Qed.
End Steps.
