(* ===== verification/DriveInv.v ===== *)
(** * Drive: the tree invariant holds in every run

    The transactions [DriveTree] leaves out (copies, collections, purges), and
    the theorem that whatever callers do, interleaved call by call and with any
    call failing, the index stays a forest with exact counters. *)

From Stdlib Require Import Ascii String ZArith Lia Bool.
From stdpp Require Import base tactics list strings gmap sorting relations.
From S2P Require Import Prelude GoStrings GoJson GoPath Opname DrivePath Drive DriveRows DriveTxn DriveTree.

#[local] Open Scope string_scope.

(** ** Normalized paths are clean *)

Lemma check_segs_plain segs : Forall no_slash segs -> check_segs segs = None -> Forall plain segs.
Proof.
  induction 1 as [|seg segs Hs _ IH]; [by constructor|]. cbn. unfold check_seg.
  destruct (String.eqb_spec seg ""); [done|]. destruct (_ || _) eqn:E; [done|]. destruct (_ <? _)%nat; [done|]. intros Hc.
  apply orb_false_iff in E as [?%String.eqb_neq ?%String.eqb_neq]. constructor; [done|by apply IH].
Qed.

Lemma normal_clean `{Unicode} p : normal_path p -> p <> "" -> clean p.
Proof.
  intros (p0 & E) Hne. unfold NormalizePath in E. destruct (negb _); [done|]. destruct (ContainsByte _ _); [done|].
  destruct (_ =s ""); [by injection E as <-|]. destruct (_ <? _)%nat; [done|]. destruct (check_segs _) eqn:Es; [done|].
  destruct (_ <? _)%nat; [done|]. injection E as <-. apply check_segs_plain; [apply Split_no_slash|done].
Qed.

(** ** Inserting a list of rows *)

Lemma insert_all_cons r rows db db' : insert_all (r :: rows) db = Some db' ->
  resources db !! ResourceID r = None /\ getResourceQ db (CollectionID r) (Path r) = None /\
  insert_all rows (set_resources (<[ResourceID r := r]> (resources db)) db) = Some db'.
Proof.
  cbn. destruct (insertResource r db) as [db1|] eqn:E; [|done]. apply insertResource_Some in E as (? & ? & ->). done.
Qed.

Lemma insert_all_rows rows : forall db db', insert_all rows db = Some db' -> keyed db ->
  keyed db' /\ collections db' = collections db /\
  (forall id r, resources db !! id = Some r -> resources db' !! id = Some r) /\
  (forall r, r ∈ rows -> resources db' !! ResourceID r = Some r) /\
  (forall id r, resources db' !! id = Some r -> resources db !! id = Some r \/ r ∈ rows).
Proof.
  induction rows as [|r rows IH]; intros db db' E Hk.
  - injection E as <-. split_and!; try done; [by intros r ?%elem_of_nil|by left].
  - apply insert_all_cons in E as (Hnew & _ & E). destruct (IH _ _ E (keyed_insert r db Hk)) as (Hk' & Hc & Hold & Hin & Hback).
    assert (Hr : resources db' !! ResourceID r = Some r) by (apply Hold; cbn; apply lookup_insert_eq). split_and!; try done.
    + intros id r0 Hr0. apply Hold. cbn. rewrite lookup_insert_ne; [done|]. congruence.
    + intros r0 [->|?]%elem_of_cons; [done|by apply Hin].
    + intros id r0 [Hr0|?]%Hback; [|by right; right]. cbn in Hr0. apply lookup_insert_Some in Hr0 as [[_ ->]|[_ ?]]; [right; left|by left].
Qed.

Lemma insert_all_new rows : forall db db' r, insert_all rows db = Some db' -> r ∈ rows -> resources db !! ResourceID r = None.
Proof.
  induction rows as [|r0 rows IH]; intros db db' r E Hr; [by apply elem_of_nil in Hr|].
  apply insert_all_cons in E as (Hnew & _ & E). apply elem_of_cons in Hr as [->|Hr]; [done|].
  specialize (IH _ _ _ E Hr). cbn in IH. by apply lookup_insert_None in IH as [? _].
Qed.

Lemma insert_all_cid cid rows : forall db db', insert_all rows db = Some db' -> Forall (fun r => live_in cid r = true) rows ->
  same_elsewhere cid (resources db) (resources db') /\
  rows_bytes (resources db') cid = (rows_bytes (resources db) cid + sizes rows)%Z /\
  rows_count (resources db') cid = (rows_count (resources db) cid + Z.of_nat (length rows))%Z /\
  ((forall id1 r1 id2 r2, resources db !! id1 = Some r1 -> resources db !! id2 = Some r2 -> live_in cid r1 = true ->
      live_in cid r2 = true -> Path r1 = Path r2 -> id1 = id2) ->
   (forall id1 r1 id2 r2, resources db' !! id1 = Some r1 -> resources db' !! id2 = Some r2 -> live_in cid r1 = true ->
      live_in cid r2 = true -> Path r1 = Path r2 -> id1 = id2)).
Proof.
  induction rows as [|r rows IH]; intros db db' E Hl.
  - injection E as <-. cbn. split_and!; try done; lia.
  - apply insert_all_cons in E as (Hnew & Hq & E). inversion_clear Hl as [|? ? Hr Hrows].
    destruct (IH _ _ E Hrows) as (Hs & HB & HN & HU). cbn [resources set_resources] in *.
    destruct (insert_sums (resources db) cid _ r Hnew Hr) as [EB EN]. split_and!.
    + intros id r0 Hc. rewrite <- (Hs id r0 Hc). exact (insert_elsewhere _ _ _ _ Hnew Hr id r0 Hc).
    + cbn [sizes foldr] in *. fold (sizes rows). lia.
    + cbn [length]. lia.
    + intros Hu. apply HU. pose proof Hr as [Hc _]%live_in_spec. subst cid.
      intros id1 r1 id2 r2 [[<- <-]|[Hn1 H1]]%lookup_insert_Some [[<- <-]|[Hn2 H2]]%lookup_insert_Some L1 L2 Ep; [done|..].
      * by destruct (free_path _ _ _ Hq _ _ H2 L2).
      * by destruct (free_path _ _ _ Hq _ _ H1 L1).
      * by eapply Hu.
Qed.

Section Steps.
Context `{Unicode} `{Collation} `{Platform}.
Variable lim : Limits.

(** ** Copies *)

(** A row below the source, and where its copy goes. *)
Lemma copy_row_path from to cp collID token now r :
  row_ok r -> to <> "" -> Path r = from \/ like char_eq (LikePrefix from) (Path r) = true ->
  (Path r = from /\ Path (copy_row collID from to cp token now r) = to) \/
  exists F u, Path r = F ++ "/" ++ u /\ spelling from F /\ clean u /\ Path (copy_row collID from to cp token now r) = to ++ "/" ++ u.
Proof.
  intros (Hcl & _) Hto [E|Hb].
  - left. split; [done|]. cbn. by rewrite E, sdrop_len, sapp_nil_r.
  - right. destruct (below_spelling _ _ Hb) as (F & u & E & HF). pose proof HF as (HFl & _). rewrite E in Hcl.
    apply clean_app in Hcl as [_ Hu]. exists F, u. split_and!; try done. unfold copy_row. cbn [Path]. rewrite E, <- HFl.
    f_equal. apply sdrop_app.
Qed.

Section Copy.
Variables (db1 db2 : DB) (m0 : Rows) (srcID collID from to : string) (src : Resource) (rows : list Resource) (token now : Z).
Variable made : list (Resource * Resource).
Hypotheses (Hto : clean to) (Ht0 : tree m0 srcID) (Hsrc : m0 !! ResourceID src = Some src) (Hsl : live_in srcID src = true).
Hypothesis Hpath : Path src = from.
Hypothesis Hrows : forall r, r ∈ rows <-> r = src \/
  rKind src = KindDir /\ below srcID from r = true /\ exists id, m0 !! id = Some r.
Hypotheses (Hmade : copies_of collID from to token now rows made) (Hins : insert_all made.*2 db1 = Some db2).
Hypotheses (Hk1 : keyed db1) (Ht1 : tree (resources db1) collID) (Hpar : has_dir (resources db1) collID (ParentOf to)).

Lemma made_row rc : rc ∈ made.*2 -> exists r cp, r ∈ rows /\ rc = copy_row collID from to cp token now r.
Proof using Hmade.
  intros ((r & rc') & -> & Hin)%list_elem_of_fmap. apply list_elem_of_lookup in Hin as [i Hi].
  destruct (Forall2_lookup_r _ _ _ _ _ Hmade Hi) as (r0 & Hr0 & E & cp & Ec). cbn in E, Ec. subst r0. exists r, cp. split; [by eapply list_elem_of_lookup_2|done].
Qed.

Lemma row_made r : r ∈ rows -> exists cp, copy_row collID from to cp token now r ∈ made.*2.
Proof using Hmade.
  intros [i Hi]%list_elem_of_lookup. destruct (Forall2_lookup_l _ _ _ _ _ Hmade Hi) as (rc & Hrc & _ & cp & Ec).
  exists cp. rewrite <- Ec. apply list_elem_of_fmap. exists rc. split; [done|]. by eapply list_elem_of_lookup_2.
Qed.

Lemma row_source r : r ∈ rows -> row_ok r /\ live_in srcID r = true /\ (exists id, m0 !! id = Some r) /\
  (Path r = from \/ like char_eq (LikePrefix from) (Path r) = true /\ rKind src = KindDir).
Proof using Hrows Ht0 Hsrc Hsl Hpath.
  intros [->|(Hk & Hb & id & Hr)]%Hrows.
  - split_and!; try done; [by apply (t_ok _ _ Ht0 _ _ Hsrc)|by eexists|by left].
  - unfold below in Hb. rewrite !andb_true_iff, String.eqb_eq in Hb. destruct Hb as [[Hc Hl] Hb].
    assert (live_in srcID r = true) by by apply live_in_spec. split_and!; try done; [by apply (t_ok _ _ Ht0 _ _ Hr)|by eexists|by right].
Qed.

Lemma made_live : Forall (fun r => live_in collID r = true) made.*2.
Proof using Hmade. apply Forall_forall. intros rc (r & cp & _ & ->)%made_row. by apply live_in_spec. Qed.

Lemma made_sizes : sizes made.*2 = sizes rows /\ length made.*2 = length rows.
Proof using Hmade.
  rewrite length_fmap. split; [|symmetry; by eapply Forall2_length]. clear -Hmade.
  induction Hmade as [|r [r' rc] rows made (Er & cp & Ec) _ IH]; [done|]. cbn in Er, Ec. subst. cbn. f_equal. apply IH. by inversion Hmade.
Qed.

Lemma copied_has_dir r : r ∈ rows -> rKind r = KindDir -> forall cp, has_dir (resources db2) collID (Path (copy_row collID from to cp token now r)).
Proof using Hmade Hins Hk1.
  intros Hr Hk cp. destruct (row_made r Hr) as (cp' & Hin). destruct (insert_all_rows _ _ _ Hins Hk1) as (_ & _ & _ & Hrow & _).
  right. exists (newID cp'), (copy_row collID from to cp' token now r). split_and!; [by apply (Hrow _ Hin)|by apply live_in_spec|done|done].
Qed.

Lemma copied_tree : tree (resources db2) collID.
Proof using All.
  destruct (insert_all_rows _ _ _ Hins Hk1) as (_ & _ & Hold & _ & Hback). destruct (insert_all_cid collID _ _ _ Hins made_live) as (_ & _ & _ & Hu).
  assert (Hd : forall p, has_dir (resources db1) collID p -> has_dir (resources db2) collID p).
  { intros p [?|(id & d & Hd & ?)]; [by left|]. right. exists id, d. split; [by apply Hold|done]. }
  pose proof (clean_nonempty _ Hto) as Htne. split.
  - intros id rc Hrc Hl. destruct (Hback _ _ Hrc) as [Hrc1|(r & cp & Hr & ->)%made_row]; [by apply (t_ok _ _ Ht1 id)|].
    destruct (row_source r Hr) as (Hok & _ & _ & Hwhere).
    assert (Hcl : clean (Path (copy_row collID from to cp token now r))).
    { destruct (copy_row_path from to cp collID token now r Hok Htne) as [[_ ->]|(F & u & _ & _ & Hu' & ->)]; [naive_solver|done|by apply clean_app]. }
    destruct Hok as (_ & _ & _ & Hsz & Hkd). unfold row_ok. cbn in *. by split_and!.
  - intros id rc Hrc Hl. destruct (Hback _ _ Hrc) as [Hrc1|(r & cp & Hr & ->)%made_row]; [by apply Hd, (t_parent _ _ Ht1 id)|].
    destruct (row_source r Hr) as (Hok & Hrl & (idr & Hrm) & Hwhere).
    destruct (copy_row_path from to cp collID token now r Hok Htne) as [[_ ->]|(F & u & Eu & HF & _ & ->)]; [naive_solver|by apply Hd|].
    rewrite ParentOf_below. destruct Hwhere as [E|[Hb Hks]].
    { exfalso. rewrite E in Eu. pose proof HF as [HFl _]. apply (f_equal slen) in Eu. rewrite !slen_app in Eu. simpl in Eu. lia. }
    assert (Hsin : src ∈ rows) by (apply Hrows; by left). destruct (no_slashb u) eqn:Eus.
    + pose proof (copied_has_dir src Hsin Hks (mkCopied "" "" "")) as Hdir. cbn in Hdir.
      by rewrite Hpath, sdrop_len, sapp_nil_r in Hdir.
    + pose proof (t_parent _ _ Ht0 _ _ Hrm Hrl) as Hpr. rewrite Eu, ParentOf_below, Eus in Hpr.
      destruct Hpr as [Hpr|(idd & d & Hd' & Hdl & Hdp & Hdk)]; [by destruct F|].
      assert (Hdin : d ∈ rows).
      { apply Hrows. right. split_and!; [done| |by eexists]. unfold below. pose proof Hdl as [Hdc Hdv]%live_in_spec.
        rewrite Hdc, String.eqb_refl, Hdv, Hdp. cbn [andb]. rewrite Eu in Hb. eapply below_prefix; [exact Hb|]. by destruct HF. }
      pose proof (copied_has_dir d Hdin Hdk (mkCopied "" "" "")) as Hdir. unfold copy_row in Hdir. cbn [Path] in Hdir.
      destruct HF as [HFl _]. by rewrite Hdp, <- HFl, sdrop_app in Hdir.
  - apply Hu, Ht1.
Qed.
End Copy.

(** What a plan that goes through has settled. *)
Lemma copy_plan_inl srcID from collID to overwrite now at_ db src rows replaced c1 db1 :
  copy_plan lim srcID from collID to overwrite now at_ db = inl (src, rows, replaced, c1, db1) ->
  exists c, lockCollection db collID = inl c /\ getResourceQ db srcID from = Some src /\ requireParent db collID to = None /\
    rows = src :: (if is_dir (rKind src) then listQ db srcID from else []) /\
    replaceDestination db (bump c) to overwrite now at_ = inl (replaced, c1, db1).
Proof.
  unfold copy_plan. destruct (lockCollection db collID) as [c|]; [|done]. destruct (getResourceQ db srcID from) as [s0|]; [|done].
  destruct (requireParent db collID to); [done|]. destruct (_ && _); [done|]. destruct (_ && _); [done|].
  destruct (replaceDestination _ _ _ _ _ _) as [[[rep c2] db2]|] eqn:E; [|done]. intros [= <- <- <- <- <-]. by exists c.
Qed.

Lemma elem_of_plan_rows db srcID from src r :
  r ∈ src :: (if is_dir (rKind src) then listQ db srcID from else []) <->
  r = src \/ rKind src = KindDir /\ below srcID from r = true /\ exists id, resources db !! id = Some r.
Proof.
  rewrite elem_of_cons. destruct (rKind src); cbn; [rewrite elem_of_nil; naive_solver|].
  unfold listQ. rewrite elem_of_select. naive_solver.
Qed.

Lemma copy_Inv srcID from collID to overwrite now at_ db src rows replaced c1 db1 made db2 :
  clean to -> Inv db -> copy_plan lim srcID from collID to overwrite now at_ db = inl (src, rows, replaced, c1, db1) ->
  copies_of collID from to (SyncToken c1) now rows made -> insert_all made.*2 db1 = Some db2 ->
  Inv (advance (charge c1 (sizes rows) (Z.of_nat (length rows))) now db2).
Proof.
  intros Hto HI Hplan Hmade Hins. apply copy_plan_inl in Hplan as (c & Hlock & Hq & Hreq & Erows & Hrep).
  apply lockCollection_inl in Hlock as [Hcoll Hdel]. destruct HI as [Hk Hck HC HL]. assert (Hcid : cID c = collID) by by apply Hck.
  assert (Hlive : cLive c = true) by (unfold cLive; by rewrite Hdel).
  destruct (HC collID c Hcoll Hlive) as [Ht (HB & HN & HM)]. rewrite Hcid in *.
  apply (getResourceQ_row _ _ _ _ Hk) in Hq as (Hsrc & Hsc & Hsf & Hsl). assert (Hsin : live_in srcID src = true) by by apply live_in_spec.
  destruct (HL _ _ Hsrc Hsl) as (cs & Hcs & Hcsl). rewrite Hsc in Hcs. destruct (HC _ _ Hcs Hcsl) as [Hts _].
  destruct (replace_ok _ (bump c) collID _ _ _ _ _ _ _ Hk Ht Hcid Hrep) as (Hk1 & Ht1 & Hs1 & EB & EN & Ecoll & Etok & Eid & Hkeep & Hkeep' & _).
  assert (Hpar : has_dir (resources db1) collID (ParentOf to)).
  { eapply replace_keeps_parent; [by apply clean_nonempty|done|by apply requireParent_None]. }
  assert (Hrows : forall r, r ∈ rows <-> r = src \/ rKind src = KindDir /\ below srcID from r = true /\ exists id, resources db !! id = Some r)
    by (intros r; rewrite Erows; apply elem_of_plan_rows).
  pose proof (copied_tree db1 db2 (resources db) srcID collID from to src rows (SyncToken c1) now made
    Hto Hts Hsrc Hsin Hsf Hrows Hmade Hins Hk1 Ht1 Hpar) as Ht2.
  destruct (insert_all_rows _ _ _ Hins Hk1) as (Hk2 & Ec2 & _ & _ & Hback).
  destruct (insert_all_cid collID _ _ _ Hins (made_live _ _ _ _ _ _ _ Hmade)) as (Hs2 & EB2 & EN2 & _).
  destruct (made_sizes _ _ _ _ _ _ _ Hmade) as [Esz Elen].
  destruct (advance_collections (charge c1 (sizes rows) (Z.of_nat (length rows))) now db2 c) as [E1 E2]; [cbn; by rewrite Ec2, Ecoll, Eid|].
  eapply (Inv_step db _ collID c _ (Build_Inv db Hk Hck HC HL) Hcoll); [| |rewrite E1, Hcid, Ec2, Ecoll; reflexivity|..]; rewrite ?E2.
  - done.
  - done.
  - unfold keyed. by rewrite E2.
  - intros id r Hc. rewrite (Hs1 id r Hc). by apply Hs2.
  - done.
  - unfold counted. cbn in *. rewrite Hcid, EB2, EN2, Esz, Elen. split_and!; [lia..|].
    intros id r Hr Hl. destruct (Hback _ _ Hr) as [Hr1|(r0 & cp & _ & ->)%(made_row _ _ _ _ _ _ _ Hmade)]; [|cbn; lia].
    pose proof Hl as [_ Hv]%live_in_spec. specialize (HM id r (Hkeep _ _ Hr1 Hv) Hl). cbn in Etok. lia.
Qed.

(** ** Collections and purges *)

Lemma ensure_Inv tenant name id now db c created db' :
  Inv db -> ensureCollectionOnce tenant name id now db = Some (c, created, db') -> Inv db'.
Proof.
  intros HI. unfold ensureCollectionOnce. destruct (GetCollection db tenant name); [by intros [= _ _ <-]|].
  unfold insertCollection. cbn [cID]. destruct (collections db !! id) eqn:E; [done|]. destruct (GetCollection _ _ _); [done|].
  intros [= _ _ <-]. destruct HI as [Hk Hck HC HL].
  assert (Hnone : forall i r, resources db !! i = Some r -> live_in id r = false).
  { intros i r Hr. apply not_true_iff_false. intros [Hc Hl]%live_in_spec. destruct (HL _ _ Hr Hl) as (c0 & Hc0 & _). congruence. }
  split; cbn [collections resources set_collection cID]; [done|..].
  - intros i c0 [[<- <-]|[_ Hi]]%lookup_insert_Some; [done|by apply Hck].
  - intros i c0 [[<- <-]|[_ Hi]]%lookup_insert_Some Hl; [|by apply HC]. split.
    + split; [intros i r Hr Hlr|intros i r Hr Hlr|intros i r i2 r2 Hr _ Hlr]; by rewrite (Hnone i r Hr) in Hlr.
    + unfold counted. cbn. split_and!; [symmetry; apply msum_zero; intros i r Hr; by rewrite (Hnone i r Hr)..|].
      intros i r Hr Hl2. by rewrite (Hnone i r Hr) in Hl2.
  - intros i r Hr Hl. destruct (HL i r Hr Hl) as (c0 & Hc0 & Hl0). exists c0. rewrite lookup_insert_ne; [done|]. congruence.
Qed.

Lemma named_lookup db tenant name c : (forall id c, collections db !! id = Some c -> cID c = id) ->
  GetCollection db tenant name = Some c -> collections db !! cID c = Some c /\ cLive c = true.
Proof.
  intros Hck. unfold GetCollection. destruct (filter _ _) as [|c0 l] eqn:E; [done|]. intros [= ->].
  assert (Hin : c ∈ c :: l) by left. rewrite <- E in Hin. apply list_elem_of_filter in Hin as [Hn Hin].
  apply list_elem_of_fmap in Hin as ((id & c') & -> & Hin%elem_of_map_to_list). cbn in *. rewrite (Hck _ _ Hin).
  unfold named in Hn. rewrite !andb_true_iff in Hn. by destruct Hn as [_ ?].
Qed.

(** Only the counters of a collection's row are in the invariant. *)
Lemma relabel_Inv db c c' :
  Inv db -> collections db !! cID c = Some c -> cLive c = true -> cID c' = cID c -> cLive c' = true ->
  SyncToken c' = SyncToken c -> BytesUsed c' = BytesUsed c -> ResourceCount c' = ResourceCount c -> Inv (set_collection c' db).
Proof.
  intros HI Hc Hl Eid Hl' E1 E2 E3. destruct (i_coll _ HI _ _ Hc Hl) as [Ht (HB & HN & HM)].
  eapply (Inv_step db _ (cID c) c c' HI Hc); try done; [cbn; by rewrite Eid|apply HI|].
  unfold counted. by rewrite Eid, E1, E2, E3.
Qed.

Lemma drop_Inv tenant name force now at_ db x ms db' :
  Inv db -> delete_collection_tx tenant name force now at_ db = TxDone x ms db' -> Inv db'.
Proof.
  intros HI. unfold delete_collection_tx. destruct (GetCollection db tenant name) as [c|] eqn:Hg; [|done]. destruct (_ && _); [done|].
  intros [= _ _ <-]. apply (named_lookup _ _ _ _ (i_ckeyed _ HI)) in Hg as [Hc Hl]. destruct HI as [Hk Hck HC HL].
  set (P := fun r => (CollectionID r =s cID c) && live r).
  assert (HP : forall r, P r = true -> live_in (cID c) r = true) by done.
  pose proof (tomb_elsewhere (resources db) (cID c) P now (SyncToken c + 1) HP) as Hs.
  split; cbn [collections resources set_collection cID update_where set_resources retire].
  - by apply (keyed_update P).
  - intros i c0 [[<- <-]|[_ Hi]]%lookup_insert_Some; [done|by apply Hck].
  - intros i c0 [[<- <-]|[Hne Hi]]%lookup_insert_Some Hl0; [done|]. destruct (HC i c0 Hi Hl0) as [Ht (HB & HN & HM)].
    assert (Hne' : i <> cID c) by done. pose proof (Hck _ _ Hi) as Ei. split; [by eapply elsewhere_tree|]. unfold counted in *. rewrite Ei in *. split_and!.
    + rewrite HB. by eapply (elsewhere_sum (cID c) i).
    + rewrite HN. by eapply (elsewhere_sum (cID c) i (fun _ => 1%Z)).
    + intros id r Hr Hlr. apply (HM id); [|done]. by eapply (elsewhere_live (cID c) i).
  - intros i r Hr Hlr. apply (tomb_live _ P now _ i r (CollectionID r)) in Hr as [Hr HF]; [|by apply live_in_spec].
    destruct (HL i r Hr Hlr) as (c0 & Hc0 & Hl0). exists c0. rewrite lookup_insert_ne; [done|]. intros E.
    unfold P in HF. by rewrite <- E, String.eqb_refl, Hlr in HF.
Qed.

Lemma purge_rows_Inv cutoff db : Inv db -> Inv (purge_resources cutoff db).
Proof.
  intros [Hk Hck HC HL].
  assert (E : forall id r, live r = true -> resources (purge_resources cutoff db) !! id = Some r <-> resources db !! id = Some r).
  { intros id r Hl. cbn. rewrite map_lookup_filter_Some. cbn. unfold dead_before. unfold live in Hl. destruct (rDeleted r); naive_solver. }
  assert (Es : forall f cid, msum (fun r => if live_in cid r then f r else 0%Z) (resources (purge_resources cutoff db)) =
    msum (fun r => if live_in cid r then f r else 0%Z) (resources db)).
  { intros f cid. rewrite <- !msum_filter. f_equal. apply map_eq. intros id. apply option_eq. intros r.
    rewrite !map_lookup_filter_Some. split; intros [Hr Hl]; (split; [|done]); cbn in Hl; apply live_in_spec in Hl as [_ Hl];
      by apply (E id r Hl). }
  assert (Hd : forall cid p, has_dir (resources db) cid p -> has_dir (resources (purge_resources cutoff db)) cid p).
  { intros cid p [?|(id & d & Hd & Hdl & ?)]; [by left|]. right. exists id, d. split; [|done]. apply live_in_spec in Hdl as [_ ?]. by apply E. }
  assert (Hin : forall cid id r, resources (purge_resources cutoff db) !! id = Some r -> live_in cid r = true -> resources db !! id = Some r)
    by (intros cid id r Hr [_ Hl]%live_in_spec; by apply E).
  split; [|done| |].
  - intros id r Hr. cbn in Hr. apply map_lookup_filter_Some in Hr as [Hr _]. by apply Hk.
  - intros id c Hc Hl. destruct (HC id c Hc Hl) as [Ht (HB & HN & HM)]. split; [split|].
    + intros i r Hr Hlr. by apply (t_ok _ _ Ht i r (Hin _ _ _ Hr Hlr)).
    + intros i r Hr Hlr. by apply Hd, (t_parent _ _ Ht i r (Hin _ _ _ Hr Hlr)).
    + intros i1 r1 i2 r2 H1' H2' L1 L2. by apply (t_unique _ _ Ht i1 r1 i2 r2 (Hin _ _ _ H1' L1) (Hin _ _ _ H2' L2)).
    + unfold counted, rows_bytes, rows_count. rewrite !Es. split_and!; [done..|]. intros i r Hr Hlr. by apply (HM i r (Hin _ _ _ Hr Hlr)).
  - intros i r Hr Hl. by apply (HL i), Hl; apply E.
Qed.

Lemma purge_colls_Inv cutoff db : Inv db -> Inv (purge_collections cutoff db).
Proof.
  intros [Hk Hck HC HL].
  assert (Hin : forall id c, collections (purge_collections cutoff db) !! id = Some c -> collections db !! id = Some c)
    by (intros id c Hc; cbn in Hc; by apply map_lookup_filter_Some in Hc as [Hc _]).
  split; [done|eauto..|].
  intros id r Hr Hl. destruct (HL id r Hr Hl) as (c & Hc & Hcl). exists c. split; [|done]. cbn. apply map_lookup_filter_Some. split; [done|].
  cbn. unfold cLive in Hcl. by destruct (cDeleted c).
Qed.

(** ** Every run *)

(** The moves the invariant survives: an ASCII source (the UPDATE counts its
    characters by its bytes), and a destination LIKE does not find below it
    (under SQLite, "a" and "A" are found below each other). *)
Definition fit_move (from to : string) : Prop := asciib from = true /\ like char_eq (LikePrefix from) to = false.

Definition any_retention (retention : Z) : Prop := True.

Lemma outbox_Inv tr ms db : Inv db -> Inv (with_outbox tr ms db).
Proof. unfold with_outbox. destruct tr; [|done]. intros []. by split. Qed.

Lemma txn_Inv tr db db' : txn lim tr fit_move any_retention db db' -> Inv db -> Inv db'.
Proof.
  destruct 1 as [collID p id key size ct etag opts now at_ db x ms db' Hp Hne Hsz E|collID p id now at_ db x ms db' Hp Hne E
    |collID find opts now at_ db x ms db' Hf E|collID from0 to0 from to ov now at_ db x ms db' Hc [Ha Hl] E
    |srcID from collID to ov now at_ db src rows rep c db1 made db2 ms Hf Hfne Ht Htne _ Hplan Hm Hi ->
    |tenant name id now db c created db' E|tenant name p now db c E|tenant name l now db c E|tenant name force now at_ db x ms db' E
    |ret cutoff db _ _|ret cutoff db _ _]; intros HI; try apply outbox_Inv.
  - eapply put_Inv; [|exact Hsz|exact HI|exact E]. by apply normal_clean.
  - eapply mkdir_Inv; [|exact HI|exact E]. by apply normal_clean.
  - eapply delete_Inv; [|exact HI|exact E]. intros r Hr. destruct Hf as [(p & ->)|(id & ->)].
    + apply (getResourceQ_row _ _ _ _ (i_keyed _ HI)) in Hr as (? & ? & _ & ?). split; [by eexists|by apply live_in_spec].
    + unfold getResourceByIDQ in Hr. destruct (resources db !! id) as [r0|] eqn:Er; [|done]. destruct (_ && _) eqn:El; [|done].
      injection Hr as <-. split; [by eexists|done].
  - destruct (check_paths _ _ _ _ Hc) as (? & ? & ? & ? & ? & ?). eapply (move_Inv lim); [by apply normal_clean|..]; eauto.
  - eapply copy_Inv; [by apply normal_clean|done..].
  - by eapply ensure_Inv.
  - apply (named_lookup _ _ _ _ (i_ckeyed _ HI)) in E as [? ?]. by eapply (relabel_Inv _ c).
  - apply (named_lookup _ _ _ _ (i_ckeyed _ HI)) in E as [? ?]. by eapply (relabel_Inv _ c).
  - by eapply drop_Inv.
  - by apply purge_rows_Inv.
  - by apply purge_colls_Inv.
Qed.

Lemma txns_Inv tr db db' : rtc (txn lim tr fit_move any_retention) db db' -> Inv db -> Inv db'.
Proof. induction 1 as [|db1 db2 db3 Ht _ IH]; [done|]. intros HI. apply IH. by eapply txn_Inv. Qed.
End Steps.

Lemma Inv_empty ms : Inv (mkDB ∅ ∅ ms).
Proof. by split; intros ? ?; rewrite ?lookup_empty. Qed.

(** C14: Whatever programs any number of callers run (puts, mkdirs, stats, lists,
    deletes, moves, copies, collection operations, sweeps, each chosen from the
    results of those before), interleaved call by call, with any database or
    object-store call failing at any point: if the index starts well formed it
    stays so.  Live paths are unique and canonical, every live resource hangs
    below a live directory, [parent_path] and [depth] agree with the path, each
    live collection's [bytes_used] and [resource_count] are exactly what its
    live rows add up to, and no live row is newer than the sync token.  It holds
    for any LIKE collation, SQLite's included, provided every move ([fit_move]) is
    from an ASCII path and to none LIKE finds below it, which under SQLite takes a
    case variant of the source for the source. *)
Theorem index_stays_tree `{Unicode} `{Collation} `{Platform} (lim : Limits) (tr : bool) (ps ps' : list (DProg unit)) (w w' : World)
    (Hps : Forall (caller lim tr fit_move any_retention) ps) (Hlock : w_lock w = false) (HI : Inv (w_db w))
    (Hrun : rtc dpstep (ps, w) (ps', w')) : Inv (w_db w').
Proof. eapply txns_Inv; [|exact HI]. by eapply (callers_refine lim tr fit_move any_retention ps ps' w w'). Qed.
