(* ===== verification/DriveSync.v ===== *)
(** * Drive: sync tokens

    A consumer that keeps a collection's live rows by resource id, and asks for
    what changed after the sync token it last saw, ends with exactly the live
    rows, whatever happened in between. *)

From Stdlib Require Import Ascii String ZArith Lia Bool.
From stdpp Require Import base tactics list strings gmap sorting relations.
From S2P Require Import Prelude GoStrings GoJson GoPath Opname DrivePath Drive DriveRows DriveTxn.

#[local] Open Scope string_scope.

(** ** What a transaction may change *)

Definition ckeyed (db : DB) : Prop := forall id c, collections db !! id = Some c -> cID c = id.

(** From rows [m] to [m']: every row that differs is one of collection [cid]
    stamped [token], no row goes, and no row changes collection. *)
Record changes (cid : string) (token : Z) (m m' : gmap string Resource) : Prop := {
  ch_new : forall id r, m' !! id = Some r -> m !! id = Some r \/ (CollectionID r = cid /\ ModSeq r = token);
  ch_keep : forall id r, m !! id = Some r -> exists r', m' !! id = Some r' /\ CollectionID r' = CollectionID r;
  ch_keyed : (forall id r, m !! id = Some r -> ResourceID r = id) -> forall id r, m' !! id = Some r -> ResourceID r = id }.

Lemma changes_refl cid token m : changes cid token m m.
Proof. split; eauto. Qed.

Lemma changes_trans cid token m1 m2 m3 : changes cid token m1 m2 -> changes cid token m2 m3 -> changes cid token m1 m3.
Proof.
  intros [N1 K1 I1] [N2 K2 I2]. split; [| |auto].
  - intros id r [Hr|?]%N2; [|by right]. by apply N1.
  - intros id r (r1 & H1 & E1)%K1. destruct (K2 _ _ H1) as (r2 & H2 & E2). exists r2. split; [done|congruence].
Qed.

Lemma changes_update cid token P f db :
  (forall r, ResourceID (f r) = ResourceID r /\ CollectionID (f r) = CollectionID r /\ ModSeq (f r) = token) ->
  (forall id r, resources db !! id = Some r -> P r = true -> CollectionID r = cid) ->
  changes cid token (resources db) (resources (update_where P f db)).
Proof.
  intros Hf HP. assert (E : forall id r', resources (update_where P f db) !! id = Some r' <->
    exists r, resources db !! id = Some r /\ r' = if P r then f r else r) by (intros id r'; cbn; rewrite lookup_fmap, fmap_Some; naive_solver).
  split.
  - intros id r' (r & Hr & ->)%E. destruct (P r) eqn:EP; [|by left]. right. destruct (Hf r) as (_ & -> & ->). split; [by eapply HP|done].
  - intros id r Hr. eexists. split; [apply E; by exists r|]. destruct (P r); [apply Hf|done].
  - intros Hk id r' (r & Hr & ->)%E. destruct (P r); [rewrite (proj1 (Hf r))|]; by eapply Hk.
Qed.

Lemma changes_insert r db db' : insertResource r db = Some db' -> changes (CollectionID r) (ModSeq r) (resources db) (resources db').
Proof.
  intros (Hn & _ & ->)%insertResource_Some. cbn. split.
  - intros id r' [[<- <-]|[_ ?]]%lookup_insert_Some; [by right|by left].
  - intros id r' Hr. exists r'. rewrite lookup_insert_ne; [done|]. congruence.
  - intros Hk id r' [[<- <-]|[_ ?]]%lookup_insert_Some; [done|by apply Hk].
Qed.

Lemma insert_collections r db db' : insertResource r db = Some db' -> collections db' = collections db.
Proof. by intros (_ & _ & ->)%insertResource_Some. Qed.

Lemma changes_insert_all cid token rows : forall db db', insert_all rows db = Some db' ->
  Forall (fun r => CollectionID r = cid /\ ModSeq r = token) rows ->
  changes cid token (resources db) (resources db') /\ collections db' = collections db.
Proof.
  induction rows as [|r rows IH]; intros db db' E Hl.
  - injection E as <-. split; [apply changes_refl|done].
  - cbn in E. destruct (insertResource r db) as [db1|] eqn:Hi; [|done]. inversion_clear Hl as [|? ? [Hc Hs] Hl'].
    destruct (IH _ _ E Hl') as [H1 H2]. rewrite H2, (insert_collections _ _ _ Hi). split; [|done].
    eapply changes_trans; [|exact H1]. rewrite <- Hc, <- Hs. by apply changes_insert.
Qed.

(** ** One step, seen from every collection *)

Record synced (db db' : DB) : Prop := {
  sy_keyed : keyed db -> ckeyed db -> keyed db' /\ ckeyed db';
  sy_coll : keyed db -> ckeyed db -> forall cid c, collections db !! cid = Some c -> exists c', collections db' !! cid = Some c' /\
    (SyncToken c <= SyncToken c')%Z /\
    (forall id r, resources db' !! id = Some r -> CollectionID r = cid -> resources db !! id = Some r \/ (SyncToken c < ModSeq r)%Z) /\
    (forall id r, resources db !! id = Some r -> exists r', resources db' !! id = Some r' /\ CollectionID r' = CollectionID r) }.

Lemma synced_refl db : synced db db.
Proof. split; [done|]. intros _ _ cid c Hc. exists c. split_and!; [done|lia|by left|eauto]. Qed.

Lemma synced_trans db1 db2 db3 : synced db1 db2 -> synced db2 db3 -> synced db1 db3.
Proof.
  intros [K1 C1] [K2 C2]. split.
  - intros Hk Hck. destruct (K1 Hk Hck). by apply K2.
  - intros Hk Hck cid c Hc. destruct (K1 Hk Hck) as [Hk2 Hck2]. destruct (C1 Hk Hck cid c Hc) as (c2 & Hc2 & Hle & Hn & Hp).
    destruct (C2 Hk2 Hck2 cid c2 Hc2) as (c3 & Hc3 & Hle3 & Hn3 & Hp3). exists c3. split_and!; [done|lia| |].
    + intros id r Hr Hrc. destruct (Hn3 id r Hr Hrc) as [Hr2|?]; [by apply Hn|right; lia].
    + intros id r Hr. destruct (Hp id r Hr) as (r2 & Hr2 & E2). destruct (Hp3 id r2 Hr2) as (r3 & Hr3 & E3). exists r3. split; [done|congruence].
Qed.

Lemma synced_outbox tr ms db db' : synced db db' -> synced db (with_outbox tr ms db').
Proof. unfold with_outbox. destruct tr; [|done]. intros [K C]. by split. Qed.

(** A transaction that stamps one collection's rows with its next token. *)
Lemma synced_step db db' cid c c' :
  collections db !! cid = Some c -> cID c' = cid -> (SyncToken c < SyncToken c')%Z -> collections db' = <[cid := c']> (collections db) ->
  (keyed db -> ckeyed db -> changes cid (SyncToken c') (resources db) (resources db')) -> synced db db'.
Proof.
  intros Hc Eid Hlt Ec Hch. split.
  - intros Hk Hck. split; [exact (ch_keyed _ _ _ _ (Hch Hk Hck) Hk)|]. unfold ckeyed. rewrite Ec.
    intros id c0 [[<- <-]|[_ ?]]%lookup_insert_Some; [done|by apply Hck].
  - intros Hk Hck cid2 c2 Hc2. destruct (Hch Hk Hck) as [Hn Hp _]. destruct (decide (cid2 = cid)) as [->|Hne].
    + rewrite Hc in Hc2. injection Hc2 as <-. exists c'. rewrite Ec, lookup_insert_eq. split_and!; [done|lia| |done].
      intros id r [?|[_ ->]]%Hn _; [by left|by right].
    + exists c2. rewrite Ec, lookup_insert_ne by done. split_and!; [done|lia| |done].
      intros id r [?|[E _]]%Hn E2; [by left|congruence].
Qed.

(** A transaction that leaves the rows alone and no token behind. *)
Lemma synced_coll db cid c' :
  cID c' = cid -> (forall c, collections db !! cid = Some c -> SyncToken c = SyncToken c') -> synced db (set_collection c' db).
Proof.
  intros <- Hs. split.
  - intros Hk Hck. split; [done|]. intros id c0 Hx. cbn in Hx. apply lookup_insert_Some in Hx as [[<- <-]|[_ ?]]; [done|by apply Hck].
  - intros _ _ cid2 c2 Hc2. cbn. destruct (decide (cid2 = cID c')) as [->|Hne].
    + exists c'. rewrite lookup_insert_eq. rewrite (Hs _ Hc2). split_and!; [done|lia|by left|eauto].
    + exists c2. rewrite lookup_insert_ne by done. split_and!; [done|lia|by left|eauto].
Qed.

Lemma advanced db1 c now c0 : collections db1 !! cID c = Some c0 ->
  collections (advance c now db1) = <[cID c0 := set_counters (SyncToken c) (BytesUsed c) (ResourceCount c) now c0]> (collections db1) /\
  resources (advance c now db1) = resources db1.
Proof. intros Hc. unfold advance. by rewrite Hc. Qed.

(** The common ending: the counters are written back. *)
Lemma synced_advance db db1 cid c c1 now :
  lockCollection db cid = inl c -> cID c1 = cID c -> (SyncToken c < SyncToken c1)%Z -> collections db1 = collections db ->
  (keyed db -> ckeyed db -> changes cid (SyncToken c1) (resources db) (resources db1)) -> synced db (advance c1 now db1).
Proof.
  intros [Hc _]%lockCollection_inl Eid Hlt Ec Hch.
  assert (Hs : ckeyed db -> synced db (advance c1 now db1)).
  { intros Hck. pose proof (Hck _ _ Hc) as Ecid. destruct (advanced db1 c1 now c) as [E1 E2]; [by rewrite Ec, Eid, Ecid|].
    apply (synced_step db _ cid c (set_counters (SyncToken c1) (BytesUsed c1) (ResourceCount c1) now c) Hc); [done|done|by rewrite E1, Ecid, Ec|].
    intros Hk _. rewrite E2. by apply Hch. }
  split.
  - intros Hk Hck. by apply (sy_keyed _ _ (Hs Hck)).
  - intros Hk Hck. by apply (sy_coll _ _ (Hs Hck)).
Qed.

Lemma has_id_coll db id r0 cid : keyed db -> resources db !! id = Some r0 -> CollectionID r0 = cid ->
  forall i r, resources db !! i = Some r -> has_id id r = true -> CollectionID r = cid.
Proof.
  intros Hk Hr0 Hc i r Hr Hi. unfold has_id in Hi. apply String.eqb_eq in Hi. rewrite (Hk _ _ Hr) in Hi. subst. rewrite Hr0 in Hr.
  by injection Hr as <-.
Qed.

Section Steps.
Context `{Unicode} `{Collation} `{Platform}.
Variable lim : Limits.

Lemma subtree_coll cid p k r : subtree cid p k r = true -> CollectionID r = cid.
Proof.
  unfold subtree, at_path, below. rewrite orb_true_iff, !andb_true_iff, !String.eqb_eq. naive_solver.
Qed.

Lemma tombstone_changes db cid p k token now n bytes db' :
  tombstoneSubtree db cid p k token now = (n, bytes, db') -> changes cid token (resources db) (resources db') /\ collections db' = collections db.
Proof.
  intros [= _ _ <-]. split; [|done]. apply changes_update; [done|]. intros id r _ Hs. by eapply subtree_coll.
Qed.

Lemma replace_changes db c to overwrite now at_ ms c' db' :
  replaceDestination db c to overwrite now at_ = inl (ms, c', db') ->
  changes (cID c) (SyncToken c) (resources db) (resources db') /\ collections db' = collections db /\ SyncToken c' = SyncToken c /\ cID c' = cID c.
Proof.
  unfold replaceDestination. destruct (getResourceQ _ _ _) as [x|].
  - destruct overwrite; [|done]. cbn [negb]. destruct (tombstoneSubtree _ _ _ _ _ _) as [[n bytes] db1] eqn:E. intros [= _ <- <-].
    apply tombstone_changes in E as [? ?]. done.
  - intros [= _ <- <-]. split_and!; try done. apply changes_refl.
Qed.

Lemma put_synced cid p id key size ct etag opts now at_ db x ms db' :
  put_tx lim cid p id key size ct etag opts now at_ db = TxDone x ms db' -> synced db db'.
Proof.
  unfold put_tx. destruct (lockCollection db cid) as [c|] eqn:Hlock; [|done]. destruct (requireParent db cid p); [done|].
  destruct (getResourceQ db cid p) as [r|] eqn:Hq.
  - destruct (is_dir (rKind r)); [done|]. destruct (checkPreconditions _ _ _ _); [done|]. destruct (_ && _); [done|]. destruct (_ && _); [done|].
    intros [= _ _ <-]. eapply (synced_advance db _ cid c); [done|done|cbn; lia|done|]. intros Hk _. apply changes_update; [done|].
    apply (getResourceQ_row _ _ _ _ Hk) in Hq as (Hr & Hc & _). by eapply has_id_coll.
  - destruct (checkPreconditions _ _ _ _); [done|]. destruct (_ && _); [done|]. destruct (_ && _); [done|].
    destruct (insertResource _ db) as [db1|] eqn:Hi; [|done]. intros [= _ _ <-].
    eapply (synced_advance db _ cid c); [done|done|cbn; lia|by eapply insert_collections|]. intros _ _. by apply changes_insert in Hi.
Qed.

Lemma mkdir_synced cid p id now at_ db x ms db' : mkdir_tx lim cid p id now at_ db = TxDone x ms db' -> synced db db'.
Proof.
  unfold mkdir_tx. destruct (lockCollection db cid) as [c|] eqn:Hlock; [|done]. destruct (requireParent db cid p); [done|].
  destruct (getResourceQ db cid p); [done|]. destruct (_ && _); [done|]. destruct (insertResource _ db) as [db1|] eqn:Hi; [|done].
  intros [= _ _ <-]. eapply (synced_advance db _ cid c); [done|done|cbn; lia|by eapply insert_collections|]. intros _ _. by apply changes_insert in Hi.
Qed.

Lemma delete_synced cid find o now at_ db x ms db' : delete_tx cid find o now at_ db = TxDone x ms db' -> synced db db'.
Proof.
  unfold delete_tx. destruct (lockCollection db cid) as [c|] eqn:Hlock; [|done]. destruct (find db) as [r|]; [|done].
  destruct (checkPreconditions _ _ _ _); [done|]. destruct (tombstoneSubtree _ _ _ _ _ _) as [[n bytes] db1] eqn:E. intros [= _ _ <-].
  apply tombstone_changes in E as [Hch Ec]. by eapply (synced_advance db _ cid c); [done|done|cbn; lia|done|].
Qed.

Lemma move_synced cid from to overwrite now at_ db x ms db' : move_tx cid from to overwrite now at_ db = TxDone x ms db' -> synced db db'.
Proof.
  unfold move_tx. destruct (lockCollection db cid) as [c|] eqn:Hlock; [|done]. destruct (getResourceQ db cid from) as [src|] eqn:Hq; [|done].
  destruct (requireParent db cid to); [done|]. destruct (replaceDestination _ _ _ _ _ _) as [[[rep c1] db1]|] eqn:Hrep; [|done].
  destruct (index_ok cid _); [|done]. destruct (index_ok cid _); [|done]. intros [= _ _ <-].
  apply replace_changes in Hrep as (Hch & Ec & Et & Ei). cbn [bump set_counters cID SyncToken] in Hch, Ei, Et. pose proof Hlock as [Hc _]%lockCollection_inl.
  eapply (synced_advance db _ cid c); [done|done|rewrite Et; cbn; lia|unfold move_root, move_below; by destruct (is_dir _)|].
  intros Hk Hck. rewrite (Hck _ _ Hc) in *. apply (getResourceQ_row _ _ _ _ Hk) in Hq as (Hsrc & Hsc & _).
  pose proof (ch_keyed _ _ _ _ Hch Hk) as Hk1. rewrite Et. eapply changes_trans; [exact Hch|].
  assert (H2 : changes cid (SyncToken c + 1) (resources db1) (resources (move_below cid from to (rKind src) (SyncToken c + 1) now db1))).
  { unfold move_below. destruct (is_dir (rKind src)); [|apply changes_refl]. apply changes_update; [done|]. intros id r _ Hb.
    unfold below in Hb. rewrite !andb_true_iff, String.eqb_eq in Hb. naive_solver. }
  eapply changes_trans; [exact H2|]. destruct (ch_keep _ _ _ _ Hch _ _ Hsrc) as (s1 & Hs1 & E1).
  destruct (ch_keep _ _ _ _ H2 _ _ Hs1) as (s2 & Hs2 & E2).
  apply changes_update; [done|]. eapply has_id_coll; [exact (ch_keyed _ _ _ _ H2 Hk1)|exact Hs2|congruence].
Qed.

Lemma copy_synced srcID from collID to overwrite now at_ db src rows replaced c1 db1 made db2 :
  copy_plan lim srcID from collID to overwrite now at_ db = inl (src, rows, replaced, c1, db1) ->
  copies_of collID from to (SyncToken c1) now rows made -> insert_all made.*2 db1 = Some db2 ->
  synced db (advance (charge c1 (sizes rows) (Z.of_nat (length rows))) now db2).
Proof.
  unfold copy_plan. destruct (lockCollection db collID) as [c|] eqn:Hlock; [|done]. destruct (getResourceQ db srcID from) as [s0|]; [|done].
  destruct (requireParent db collID to); [done|]. destruct (_ && _); [done|]. destruct (_ && _); [done|].
  destruct (replaceDestination _ _ _ _ _ _) as [[[rep c2] db0]|] eqn:Hrep; [|done]. intros [= <- <- <- <- <-] Hm Hi.
  apply replace_changes in Hrep as (Hch & Ec & Et & Ei). cbn [bump set_counters cID SyncToken] in Hch, Ei, Et.
  assert (Hrows : Forall (fun r => CollectionID r = collID /\ ModSeq r = SyncToken c2) made.*2).
  { clear -Hm. induction Hm as [|r rc rows made (_ & cp & E) _ IH]; cbn; constructor; [by rewrite E|done]. }
  destruct (changes_insert_all _ _ _ _ _ Hi Hrows) as [Hch2 Ec2]. pose proof Hlock as [Hc _]%lockCollection_inl.
  eapply (synced_advance db _ collID c); [done|done|cbn; lia|congruence|]. intros _ Hck. rewrite (Hck _ _ Hc) in Hch. cbn [charge set_counters SyncToken].
  rewrite Et in *. by eapply changes_trans.
Qed.

Lemma ensure_synced tenant name id now db c created db' :
  ensureCollectionOnce tenant name id now db = Some (c, created, db') -> synced db db'.
Proof.
  unfold ensureCollectionOnce. destruct (GetCollection db tenant name); [intros [= _ _ <-]; apply synced_refl|].
  unfold insertCollection. cbn [cID]. destruct (collections db !! id) eqn:E; [done|]. destruct (GetCollection _ _ _); [done|].
  intros [= _ _ <-]. apply (synced_coll _ id); [done|]. intros c0. by rewrite E.
Qed.

Lemma named_row db tenant name c : GetCollection db tenant name = Some c -> exists id, collections db !! id = Some c.
Proof.
  unfold GetCollection. destruct (filter _ _) as [|c0 l] eqn:E; [done|]. intros [= ->].
  assert (Hin : c ∈ c :: l) by left. rewrite <- E in Hin. apply list_elem_of_filter in Hin as [_ Hin].
  apply list_elem_of_fmap in Hin as ((id & c') & -> & Hin%elem_of_map_to_list). by exists id.
Qed.

(** Rewriting the row of a collection, when rows are stored under their ids. *)
Lemma relabel_synced tenant name db c c' :
  GetCollection db tenant name = Some c -> cID c' = cID c -> SyncToken c' = SyncToken c -> synced db (set_collection c' db).
Proof.
  intros (id & Hc)%named_row Eid Et. assert (Hs : ckeyed db -> synced db (set_collection c' db)).
  { intros Hck. apply (synced_coll _ id); [by rewrite Eid, (Hck _ _ Hc)|]. intros c0 Hc0. congruence. }
  split; intros Hk Hck; by apply (Hs Hck).
Qed.

Lemma drop_synced tenant name force now at_ db x ms db' : delete_collection_tx tenant name force now at_ db = TxDone x ms db' -> synced db db'.
Proof.
  unfold delete_collection_tx. destruct (GetCollection db tenant name) as [c|] eqn:Hg; [|done]. destruct (_ && _); [done|]. intros [= _ _ <-].
  apply named_row in Hg as (id & Hc).
  assert (Hs : ckeyed db -> synced db (set_collection (retire now (SyncToken c + 1) c)
    (update_where (fun r => (CollectionID r =s cID c) && live r) (setrow_tomb now (SyncToken c + 1)) db))).
  { intros Hck. rewrite <- (Hck _ _ Hc) in Hc. eapply (synced_step db _ (cID c) c); [done| | |reflexivity|]; [done|cbn; lia|].
    intros _ _. apply changes_update; [done|]. intros i r _ Hp. by apply andb_true_iff in Hp as [?%String.eqb_eq _]. }
  split; intros Hk Hck; by apply (Hs Hck).
Qed.

Definition no_purge (retention : Z) : Prop := (retention <= 0)%Z.

Lemma txn_synced tr fit db db' : txn lim tr fit no_purge db db' -> synced db db'.
Proof.
  destruct 1 as [collID p id key size ct etag opts now at_ db x ms db' Hp Hne Hsz E|collID p id now at_ db x ms db' Hp Hne E
    |collID find opts now at_ db x ms db' Hf E|collID from0 to0 from to ov now at_ db x ms db' Hc Hfit E
    |srcID from collID to ov now at_ db src rows rep c db1 made db2 ms Hf Hfne Ht Htne _ Hplan Hm Hi ->
    |tenant name id now db c created db' E|tenant name p now db c E|tenant name l now db c E|tenant name force now at_ db x ms db' E
    |ret cutoff db Hr Hn|ret cutoff db Hr Hn]; try apply synced_outbox; try (unfold no_purge in Hn; lia).
  - by eapply put_synced.
  - by eapply mkdir_synced.
  - by eapply delete_synced.
  - by eapply move_synced.
  - by eapply copy_synced.
  - by eapply ensure_synced.
  - by eapply relabel_synced.
  - by eapply relabel_synced.
  - by eapply drop_synced.
Qed.
End Steps.

(** ** The consumer *)

(** A row listed: a tombstone removes, anything else replaces. *)
Definition consume (seen : gmap string Resource) (r : Resource) : gmap string Resource :=
  match rDeleted r with Some _ => delete (ResourceID r) seen | None => <[ResourceID r := r]> seen end.

Definition live_rows (db : DB) (cid : string) : gmap string Resource :=
  filter (fun kv => (CollectionID kv.2 =s cid) && live kv.2 = true) (resources db).

(** `list since=T` with tombstones, over the whole collection. *)
Definition since (token : Z) : ListOpts := mkListOpts "" true token true 0 "".

Lemma consume_lookup id rows : forall seen, NoDup (ResourceID <$> rows) ->
  (forall r, r ∈ rows -> ResourceID r = id -> foldl consume seen rows !! id = if live r then Some r else None) /\
  ((forall r, r ∈ rows -> ResourceID r <> id) -> foldl consume seen rows !! id = seen !! id).
Proof.
  induction rows as [|r0 rows IH]; intros seen Hnd; [split; [by intros r ?%elem_of_nil|done]|].
  cbn in Hnd. apply NoDup_cons in Hnd as [Hn Hnd]. destruct (IH (consume seen r0) Hnd) as [IH1 IH2]. cbn [foldl]. split.
  - intros r [->|Hin]%elem_of_cons E; [|by apply IH1]. rewrite IH2.
    + unfold consume, live. rewrite E. destruct (rDeleted r0); [by rewrite lookup_delete_eq|by rewrite lookup_insert_eq].
    + intros r1 Hin E1. apply Hn. rewrite E, <- E1. by apply list_elem_of_fmap_2.
  - intros Hne. rewrite IH2 by (intros r Hin; apply Hne; by right). unfold consume. pose proof (Hne r0 (list_elem_of_here _ _)).
    destruct (rDeleted r0); [by rewrite lookup_delete_ne|by rewrite lookup_insert_ne].
Qed.

Lemma select_ids P db : keyed db -> NoDup (ResourceID <$> select P db).
Proof.
  intros Hk. unfold select. rewrite merge_sort_Permutation.
  assert (Hnd : NoDup (ResourceID <$> (map_to_list (resources db)).*2)).
  { rewrite <- list_fmap_compose. rewrite (list_fmap_ext _ fst); [apply NoDup_fst_map_to_list|].
    intros i [id r] Hi%list_elem_of_lookup_2%elem_of_map_to_list. cbn. by apply Hk. }
  induction (map_to_list (resources db)).*2 as [|r l IH]; [constructor|]. cbn in Hnd. apply NoDup_cons in Hnd as [Hn Hnd].
  destruct (decide (P r = true)) as [E|E]; [|rewrite filter_cons_False by done; by apply IH].
  rewrite filter_cons_True by done. cbn. apply NoDup_cons. split; [|by apply IH]. intros (r' & Er & [_ Hin]%list_elem_of_filter)%list_elem_of_fmap.
  apply Hn. rewrite Er. by apply list_elem_of_fmap_2.
Qed.

(** C13: Sync by token is complete.  A consumer holds a collection's live rows,
    by resource id, as of sync token T.  Any number of callers then run any
    operations (moves and copies of whole trees, overwrites, deletes, even
    deleting the collection; sweeps that purge no tombstones), interleaved call
    by call and with any call failing.  When the consumer lists what changed
    after T, tombstones included, and applies the rows listed,
    it holds exactly the collection's live rows. *)
Theorem sync_complete `{Unicode} `{Collation} `{Platform} (lim : Limits) (tr : bool) (fit : string -> string -> Prop)
    (ps ps' : list (DProg unit)) (w w' : World) (cid : string) (c : Collection)
    (Hps : Forall (caller lim tr fit no_purge) ps) (Hlock : w_lock w = false) (Hk : keyed (w_db w)) (Hck : ckeyed (w_db w))
    (Hc : collections (w_db w) !! cid = Some c) (Hrun : rtc dpstep (ps, w) (ps', w')) :
  foldl consume (live_rows (w_db w) cid) (list_rows cid "" (since (SyncToken c)) (w_db w')) = live_rows (w_db w') cid.
Proof.
  pose proof (callers_refine lim tr fit no_purge ps ps' w w' Hps Hlock Hrun) as Hr.
  assert (Hs : synced (w_db w) (w_db w')).
  { clear -Hr. induction Hr as [|db1 db2 db3 Ht _ IH]; [apply synced_refl|]. eapply synced_trans; [by eapply txn_synced|done]. }
  destruct (sy_keyed _ _ Hs Hk Hck) as [Hk' _]. destruct (sy_coll _ _ Hs Hk Hck cid c Hc) as (c' & _ & _ & Hn & Hp).
  set (db := w_db w) in *. set (db' := w_db w') in *. change (list_rows cid "" (since (SyncToken c)) db') with (select (list_where cid "" (since (SyncToken c))) db').
  set (P := list_where cid "" (since (SyncToken c))).
  assert (HP : forall r, P r = true <-> CollectionID r = cid /\ ((0 < SyncToken c)%Z -> (SyncToken c < ModSeq r)%Z)).
  { intros r. unfold P, list_where. cbn. rewrite !andb_true_iff, String.eqb_eq. destruct (Z.ltb_spec 0 (SyncToken c)); [|naive_solver lia].
    rewrite Z.ltb_lt. naive_solver. }
  apply map_eq. intros id. destruct (consume_lookup id (select P db') (live_rows db cid) (select_ids P db' Hk')) as [Hin Hout].
  unfold live_rows in *. destruct (resources db' !! id) as [r'|] eqn:Hr'.
  - destruct (P r') eqn:EP.
    + rewrite (Hin r'); [|by apply elem_of_select; eauto|by apply Hk']. apply HP in EP as [Ec _].
      destruct (live r') eqn:El; symmetry.
      * apply map_lookup_filter_Some. split; [done|]. cbn. by rewrite Ec, String.eqb_refl.
      * apply map_lookup_filter_None. right. intros r0 Hr0. rewrite Hr' in Hr0. injection Hr0 as <-. cbn. by rewrite El, andb_false_r.
    + rewrite Hout; [|intros r (HPr & i & Hi)%elem_of_select E; rewrite (Hk' _ _ Hi) in E; subst i; congruence].
      destruct (String.eqb_spec (CollectionID r') cid) as [Ec|Ec].
      * destruct (Hn id r' Hr' Ec) as [Hr0|Hlt]; [|exfalso; by rewrite (proj2 (HP r')) in EP].
        apply option_eq. intros r. rewrite !map_lookup_filter_Some, Hr', Hr0. done.
      * transitivity (@None Resource); [|symmetry]; apply map_lookup_filter_None; right; intros r Hr1; cbn.
        -- destruct (Hp id r Hr1) as (r2 & Hr2 & E2). rewrite Hr' in Hr2. injection Hr2 as <-.
           by rewrite <- E2, (proj2 (String.eqb_neq _ _) Ec).
        -- rewrite Hr' in Hr1. injection Hr1 as <-. by rewrite (proj2 (String.eqb_neq _ _) Ec).
  - rewrite Hout; [|intros r (HPr & i & Hi)%elem_of_select E; rewrite (Hk' _ _ Hi) in E; subst i; congruence].
    transitivity (@None Resource); [|symmetry]; apply map_lookup_filter_None; left; [|done].
    destruct (resources db !! id) as [r|] eqn:Hr0; [|done]. destruct (Hp id r Hr0) as (r2 & Hr2 & _). congruence.
Qed.
