(* ===== verification/DriveMoves.v ===== *)
(** * Drive: what deletes, moves and copies do to the tree

    Seen through path lookups: a delete empties a subtree, a move transplants
    one with every resource's identity and content, a copy duplicates one. *)

From Stdlib Require Import Ascii String ZArith Lia Bool.
From stdpp Require Import base tactics list strings gmap sorting relations.
From S2P Require Import Prelude GoStrings GoJson GoPath Opname DrivePath Drive DriveRows DriveTxn DriveErrors DriveTree DriveInv DriveSync.

#[local] Open Scope string_scope.

(** ** At or inside a path *)

Definition within (p d : string) : bool := (p =s d) || IsInside p d.

Lemma within_spec p d : d <> "" -> within p d = true <-> p = d \/ exists u, p = d ++ "/" ++ u.
Proof. intros Hd. unfold within. rewrite orb_true_iff, String.eqb_eq, IsInside_spec by done. done. Qed.

Lemma app_slash_cases a u : forall c v, a ++ "/" ++ u = c ++ "/" ++ v -> a = c \/ (exists s, a = c ++ "/" ++ s) \/ (exists s, c = a ++ "/" ++ s).
Proof.
  induction a as [|x a IH]; intros [|y c] v E; cbn in E.
  - by left.
  - injection E as <- E. right. right. by exists c.
  - injection E as -> E. right. left. by exists a.
  - injection E as -> E. destruct (IH c v E) as [->|[(s & ->)|(s & ->)]]; [by left|right; left; by exists s|right; right; by exists s].
Qed.

(** Two directories with a path in common are one inside the other. *)
Lemma within_common p a c : a <> "" -> c <> "" -> within p a = true -> within p c = true -> within a c = true \/ within c a = true.
Proof.
  intros Ha Hc [->|(u & ->)]%within_spec [E|(v & E)]%within_spec; try done.
  - left. apply within_spec; [done|]. by left.
  - left. apply within_spec; [done|]. right. by exists v.
  - right. apply within_spec; [done|]. right. by exists u.
  - destruct (app_slash_cases _ _ _ _ E) as [->|[Hs|Hs]]; [left|left|right]; apply within_spec; auto.
Qed.

Lemma within_trans p q r : within p q = true -> within q r = true -> within p r = true.
Proof.
  unfold within. rewrite !orb_true_iff, !String.eqb_eq. intros [->|H1] [->|H2]; auto. right. by eapply IsInside_trans.
Qed.

(** ** Lookups under the invariant *)

Lemma lookup_path db cid p r : Inv db -> (exists c, collections db !! cid = Some c /\ cLive c = true) ->
  getResourceQ db cid p = Some r <-> resources db !! ResourceID r = Some r /\ live_in cid r = true /\ Path r = p.
Proof.
  intros HI (c & Hc & Hl). destruct (i_coll _ HI _ _ Hc Hl) as [Ht _]. split.
  - intros (? & ? & ? & ?)%(getResourceQ_row _ _ _ _ (i_keyed _ HI)). split_and!; try done. by apply live_in_spec.
  - intros (Hr & Hrl & Hp). destruct (getResourceQ db cid p) as [r'|] eqn:E.
    + apply (getResourceQ_row _ _ _ _ (i_keyed _ HI)) in E as (Hr' & Hc' & Hp' & Hl'). f_equal.
      assert (ResourceID r' = ResourceID r) as Eid by (eapply (t_unique _ _ Ht); eauto; [by apply live_in_spec|congruence]). congruence.
    + apply live_in_spec in Hrl as [Hrc Hrl]. destruct (proj1 (getResourceQ_None db cid p) E _ _ Hr Hrl Hrc Hp).
Qed.

(** A live row inside [d] makes [d] a live directory. *)
Lemma ancestor_dir m cid d : tree m cid -> d <> "" -> forall r id, m !! id = Some r -> live_in cid r = true -> IsInside (Path r) d = true ->
  exists id' x, m !! id' = Some x /\ live_in cid x = true /\ Path x = d /\ rKind x = KindDir.
Proof.
  intros Ht Hd r. remember (slen (Path r)) as n eqn:En. revert r En. induction n as [n IH] using lt_wf_ind. intros r -> id Hr Hl Hin.
  destruct (t_ok _ _ Ht _ _ Hr Hl) as (Hcl & _). destruct (parent_inside _ _ Hd Hcl Hin) as [E|Hp].
  - destruct (t_parent _ _ Ht _ _ Hr Hl) as [E2|(id' & x & ? & ? & ? & ?)]; [congruence|]. exists id', x. by rewrite <- E.
  - destruct (t_parent _ _ Ht _ _ Hr Hl) as [E|(id' & x & Hx & Hxl & Hxp & Hxk)]; [by rewrite E in Hp|].
    apply (IH (slen (Path x))) with (r := x) (id := id'); try done; rewrite Hxp; [|done].
    destruct (path_cases (Path r)) as [(_ & E & _)|(a & t & E & _ & Ep & _)]; [by rewrite E in Hp|].
    rewrite Ep. rewrite E at 1. rewrite !slen_app. simpl. lia.
Qed.

(** LIKE finds, below [p], exactly the live rows inside [p]: so on a database
    that compares exactly, and on SQLite when no live path differs from one
    inside [p] only in case. *)
Definition like_exact `{Collation} (db : DB) (cid p : string) : Prop :=
  forall id r, resources db !! id = Some r -> live_in cid r = true -> like char_eq (LikePrefix p) (Path r) = true -> IsInside (Path r) p = true.

Lemma exact_like_exact (db : DB) (cid p : string) : p <> "" -> @like_exact Collation_exact db cid p.
Proof. intros Hp id r _ _ Hl. change (@char_eq Collation_exact) with Ascii.eqb in Hl. by rewrite like_below_exact in Hl. Qed.

(** What a lookup is about, besides the path: identity, kind and content. *)
Definition content (r : Resource) : string * Kind * string * Z * string * string :=
  (ResourceID r, rKind r, ObjectKey r, rSize r, rType r, rETag r).

Section Ops.
Context `{Unicode} `{Collation} `{Platform}.
Variable lim : Limits.

Section Subtree.
Variables (db : DB) (cid : string) (x : Resource).
Hypotheses (Ht : tree (resources db) cid) (Hx : exists id, resources db !! id = Some x) (Hxl : live_in cid x = true).
Hypothesis Hexact : like_exact db cid (Path x).

Lemma x_path_ne : Path x <> "".
Proof using Ht Hx Hxl. destruct Hx as [id Hid]. apply clean_nonempty. by apply (t_ok _ _ Ht id). Qed.

(** The rows a delete of [x] takes are those at or inside its path. *)
Lemma subtree_within id r : resources db !! id = Some r -> live_in cid r = true ->
  subtree cid (Path x) (rKind x) r = within (Path r) (Path x).
Proof using All.
  intros Hr Hl. pose proof Hl as [Hc Hv]%live_in_spec. unfold subtree, at_path, below, within. rewrite Hc, String.eqb_refl, Hv. cbn [andb].
  rewrite andb_true_r. destruct (String.eqb_spec (Path r) (Path x)) as [|Hne]; [done|]. cbn [orb].
  destruct (IsInside (Path r) (Path x)) eqn:Ei.
  - destruct (ancestor_dir _ _ _ Ht x_path_ne _ _ Hr Hl Ei) as (id' & y & Hy & Hyl & Hyp & Hyk). destruct Hx as [idx Hidx].
    assert (id' = idx) as -> by by eapply (t_unique _ _ Ht). rewrite Hidx in Hy. injection Hy as <-. rewrite Hyk. cbn.
    apply below_inside; [apply x_path_ne|done].
  - apply andb_false_iff. right. apply not_true_iff_false. intros Hb. by rewrite (Hexact id r Hr Hl Hb) in Ei.
Qed.
End Subtree.

(** The live rows after a destination was replaced: those not at or inside it. *)
Lemma replace_rows db c cid to overwrite now at_ ms c' db' :
  Inv db -> collections db !! cid = Some c -> cLive c = true -> to <> "" -> like_exact db cid to ->
  replaceDestination db (bump c) to overwrite now at_ = inl (ms, c', db') ->
  forall id r, live_in cid r = true -> resources db' !! id = Some r <-> resources db !! id = Some r /\ within (Path r) to = false.
Proof.
  intros HI Hc Hcl Hto Hex Hrep id r Hl. destruct (i_coll _ HI _ _ Hc Hcl) as [Ht _]. pose proof (i_ckeyed _ HI _ _ Hc) as Ecid.
  unfold replaceDestination in Hrep. cbn [bump set_counters cID] in Hrep. rewrite Ecid in Hrep.
  destruct (getResourceQ db cid to) as [x|] eqn:Hq.
  - destruct overwrite; [|done]. cbn [negb] in Hrep. destruct (tombstoneSubtree _ _ _ _ _ _) as [[n bytes] db1] eqn:Htomb. injection Hrep as _ _ <-.
    apply (lookup_path db cid to x HI) in Hq as (Hx & Hxl & <-); [|by exists c].
    assert (Hex' : exists id, resources db !! id = Some x) by eauto.
    destruct (tombstone_ok _ _ _ _ _ _ _ _ Ht Hex' Hxl Htomb) as (_ & _ & _ & _ & _ & Hkeep & Hkeep').
    pose proof Hl as [_ Hv]%live_in_spec. split.
    + intros Hr. destruct (Hkeep id r Hr Hv) as [Hr0 Hs]. split; [done|]. by rewrite (subtree_within db cid x Ht Hex' Hxl Hex id r) in Hs.
    + intros [Hr Hw]. apply (Hkeep' id r Hr). by rewrite (subtree_within db cid x Ht Hex' Hxl Hex id r).
  - injection Hrep as _ _ <-. split; [|naive_solver]. intros Hr. split; [done|]. apply not_true_iff_false. intros Hw.
    unfold within in Hw. apply orb_true_iff in Hw as [E%String.eqb_eq|Hi].
    + apply live_in_spec in Hl as [Hrc Hv]. by eapply (proj1 (getResourceQ_None db cid to)) in Hq.
    + destruct (ancestor_dir _ _ _ Ht Hto _ _ Hr Hl Hi) as (id' & y & Hy & Hyl & Hyp & _).
      apply live_in_spec in Hyl as [Hyc Hyv]. by eapply (proj1 (getResourceQ_None db cid to)) in Hq.
Qed.

(** ** Delete *)

(** Deleting the resource at a path takes exactly its subtree.  After the
    transaction a lookup of the path, or of anything inside it, finds nothing,
    and every other path leads to the row it led to before, untouched: not a
    sibling whose name merely starts the same way, nor one that matches the
    name's LIKE metacharacters. *)
Theorem delete_takes_subtree (cid p : string) (o : DeleteOpts) (now at_ : Z) (db db' : DB) (x : Resource) (ms : list Mutation)
    (HI : Inv db) (Hex : like_exact db cid p)
    (Htx : delete_tx cid (fun db => getResourceQ db cid p) o now at_ db = TxDone x ms db') (q : string) :
  getResourceQ db' cid q = if within q p then None else getResourceQ db cid q.
Proof.
  assert (HI' : Inv db').
  { eapply delete_Inv; [|exact HI|exact Htx]. intros r (? & ? & _ & ?)%(getResourceQ_row _ _ _ _ (i_keyed _ HI)).
    split; [by eexists|by apply live_in_spec]. }
  unfold delete_tx in Htx. destruct (lockCollection db cid) as [c|] eqn:Hlock; [|done].
  destruct (getResourceQ db cid p) as [y|] eqn:Hq; [|done]. destruct (checkPreconditions _ _ _ _); [done|].
  destruct (tombstoneSubtree _ _ _ _ _ _) as [[n bytes] db1] eqn:Htomb. injection Htx as _ _ <-.
  apply lockCollection_inl in Hlock as [Hc Hd]. assert (Hcl : cLive c = true) by (unfold cLive; by rewrite Hd).
  destruct (i_coll _ HI _ _ Hc Hcl) as [Ht _]. apply (lookup_path db cid p y HI) in Hq as (Hy & Hyl & <-); [|by exists c].
  assert (Hex' : exists id, resources db !! id = Some y) by eauto.
  destruct (tombstone_ok _ _ _ _ _ _ _ _ Ht Hex' Hyl Htomb) as (_ & _ & _ & _ & Ecoll & Hkeep & Hkeep').
  match type of HI' with Inv (advance ?c1 _ _) => destruct (advance_collections c1 now db1 c) as [E1 E2] end.
  { cbn. by rewrite Ecoll, (i_ckeyed _ HI _ _ Hc). }
  assert (Hrow : forall r, live_in cid r = true -> resources db1 !! ResourceID r = Some r <->
    resources db !! ResourceID r = Some r /\ within (Path r) (Path y) = false).
  { intros r Hl. pose proof Hl as [_ Hv]%live_in_spec. split.
    - intros Hr. destruct (Hkeep _ r Hr Hv) as [Hr0 Hs]. split; [done|]. by rewrite (subtree_within db cid y Ht Hex' Hyl Hex _ r Hr0 Hl) in Hs.
    - intros [Hr Hw]. apply (Hkeep' _ r Hr). by rewrite (subtree_within db cid y Ht Hex' Hyl Hex _ r Hr Hl). }
  apply option_eq. intros r. rewrite (lookup_path _ cid q r HI'), E2.
  - destruct (within q (Path y)) eqn:Hw.
    + split; [|done]. intros (Hr & Hl & <-). apply Hrow in Hr as [_ E]; [|done]. congruence.
    + rewrite (lookup_path _ cid q r HI); [|by exists c]. split; intros (Hr & Hl & <-); (split_and!; [|done..]).
      * by apply Hrow in Hr as [? _].
      * by apply Hrow.
  - eexists. rewrite E1, (i_ckeyed _ HI _ _ Hc), lookup_insert_eq. split; [done|]. unfold cLive in *. cbn. by rewrite Hd.
Qed.

(** ** Move *)

Section Move.
Variables (cid from to : string) (overwrite : bool) (now at_ : Z) (db db' : DB) (x : Resource) (ms : list Mutation).
Hypotheses (Hfrom : clean from) (Hto : clean to) (Hne : from <> to) (Hin : IsInside to from = false) (Hout : IsInside from to = false).
Hypotheses (HI : Inv db) (Hexf : like_exact db cid from) (Hext : like_exact db cid to) (Hlike : like char_eq (LikePrefix from) to = false).
Hypothesis Hasc : forall src, getResourceQ db cid from = Some src -> rKind src = KindDir -> asciib from = true.
Hypothesis Htx : move_tx cid from to overwrite now at_ db = TxDone x ms db'.

(** Where a row goes that is at or inside the source. *)
Definition transplant (p : string) : string := to ++ sdrop (slen from) p.

Lemma transplant_within q : within q to = true -> exists p, within p from = true /\ transplant p = q /\ p = from ++ sdrop (slen to) q.
Proof using Hfrom Hto.
  pose proof (clean_nonempty _ Hfrom). pose proof (clean_nonempty _ Hto). unfold transplant.
  intros [->|(u & ->)]%within_spec; [| |done].
  - exists from. rewrite !sdrop_len, !sapp_nil_r. split_and!; try done. apply within_spec; auto.
  - exists (from ++ "/" ++ u). rewrite !sdrop_app. split_and!; try done. apply within_spec; eauto.
Qed.

(** The rows of the result: those of the source subtree, transplanted, and
    those that were in neither subtree, as they were. *)
Lemma move_rows : (exists c, collections db' !! cid = Some c /\ cLive c = true) /\ exists g : Resource -> Resource,
  (forall r, content (g r) = content r /\ live_in cid (g r) = live_in cid r) /\
  (forall r, resources db !! ResourceID r = Some r -> live_in cid r = true -> within (Path r) from = true -> Path (g r) = transplant (Path r)) /\
  forall r', live_in cid r' = true -> resources db' !! ResourceID r' = Some r' <->
    (exists r, resources db !! ResourceID r = Some r /\ live_in cid r = true /\ within (Path r) from = true /\ r' = g r) \/
    (resources db !! ResourceID r' = Some r' /\ within (Path r') from = false /\ within (Path r') to = false).
Proof using All.
  destruct (move_tx_done _ _ _ _ _ _ _ _ _ _ HI Htx) as (c & src & rep & c1 & db1 & db3 & Hlock & Hq & Hreq & Hrep & E3 & Ec3 & Hk3 & Hidx & -> & _).
  specialize (Hasc src Hq). apply lockCollection_inl in Hlock as [Hc Hd]. assert (Hcl : cLive c = true) by (unfold cLive; by rewrite Hd).
  pose proof (i_ckeyed _ HI _ _ Hc) as Ecid. destruct (i_coll _ HI _ _ Hc Hcl) as [Ht _].
  pose proof (replace_rows db c cid to overwrite now at_ _ _ _ HI Hc Hcl (clean_nonempty _ Hto) Hext Hrep) as Hrows.
  destruct (replace_ok _ (bump c) cid _ _ _ _ _ _ _ (i_keyed _ HI) Ht Ecid Hrep) as (Hk1 & _ & _ & _ & _ & Ecoll & _ & Eid & _).
  destruct (advance_collections c1 now db3 c) as [E1 E2]; [by rewrite Ec3, Eid|].
  apply (lookup_path db cid from src HI) in Hq as (Hsrc & Hsl & Hsp); [|by exists c].
  split. { rewrite E1, Ecid, lookup_insert_eq. eexists. split; [done|]. unfold cLive. cbn. by rewrite Hd. }
  pose proof (clean_nonempty _ Hfrom) as Hfne. pose proof (clean_nonempty _ Hto) as Htne.
  (* the source subtree survives the replacement, and moves *)
  assert (Hmv : forall r, resources db !! ResourceID r = Some r -> live_in cid r = true -> within (Path r) from = true ->
    resources db1 !! ResourceID r = Some r /\ Path (moved cid from to src (SyncToken c1) now r) = transplant (Path r)).
  { intros r Hr Hl Hw. split.
    - apply Hrows; [done|]. split; [done|]. apply not_true_iff_false. intros Hw2.
      destruct (within_common _ _ _ Hfne Htne Hw Hw2) as [Hc1|Hc1]; unfold within in Hc1; apply orb_true_iff in Hc1 as [E%String.eqb_eq|?]; congruence.
    - unfold within in Hw. apply orb_true_iff in Hw as [E%String.eqb_eq|Hi].
      + assert (ResourceID r = ResourceID src) as Eir by (eapply (t_unique _ _ Ht); eauto; congruence).
        unfold moved, has_id, transplant. rewrite Eir, String.eqb_refl, E. cbn. by rewrite sdrop_len, sapp_nil_r.
      + destruct (ancestor_dir _ _ _ Ht Hfne _ _ Hr Hl Hi) as (id' & y & Hy & Hyl & Hyp & Hyk).
        assert (id' = ResourceID src) as -> by (eapply (t_unique _ _ Ht); eauto; congruence). rewrite Hsrc in Hy. injection Hy as <-.
        pose proof (below_inside _ _ Hfne Hi) as Hb. pose proof Hl as [Hrc Hv]%live_in_spec.
        assert (Hnid : has_id (ResourceID src) r = false).
        { apply not_true_iff_false. unfold has_id. intros Er%String.eqb_eq. rewrite Er, Hsrc in Hr. injection Hr as <-. by rewrite Hsp, IsInside_irrefl in Hi. }
        unfold moved. rewrite Hnid, Hyk. unfold below. rewrite Hrc, String.eqb_refl, Hv, Hb. cbn [is_dir andb].
        apply IsInside_spec in Hi as (u & Eu); [|done]. unfold setrow_below, transplant. cbn [Path setrow_path]. rewrite Eu, sdrop_app.
        f_equal. apply (substr_drop_ascii from ("/" ++ u)); [by apply Hasc|done]. }
  (* what is in neither subtree is left alone *)
  assert (Hstay : forall r, live_in cid r = true -> resources db1 !! ResourceID r = Some r -> within (Path r) from = false ->
    moved cid from to src (SyncToken c1) now r = r).
  { intros r Hl Hr Hw. apply Hrows in Hr as [Hr _]; [|done]. unfold moved. destruct (has_id (ResourceID src) r) eqn:Ei.
    - unfold has_id in Ei. apply String.eqb_eq in Ei. rewrite Ei, Hsrc in Hr. injection Hr as <-. exfalso. apply not_true_iff_false in Hw. apply Hw.
      apply within_spec; auto.
    - destruct (_ && _) eqn:Eb; [|done]. apply andb_true_iff in Eb as [_ Eb]. unfold below in Eb. apply andb_true_iff in Eb as [_ Eb].
      unfold within in Hw. by rewrite (Hexf _ _ Hr Hl Eb), orb_true_r in Hw. }
  assert (Hg : forall r, content (moved cid from to src (SyncToken c1) now r) = content r /\
    live_in cid (moved cid from to src (SyncToken c1) now r) = live_in cid r).
  { intros r. split; [|unfold live_in; destruct (moved_keeps cid from to src (SyncToken c1) now r) as (_ & -> & -> & _); done].
    unfold moved, content. destruct (has_id _ r); [done|]. by destruct (_ && _). }
  exists (moved cid from to src (SyncToken c1) now). split; [done|]. split; [intros r Hr Hl Hw; by apply Hmv|].
  intros r' Hl'. rewrite E2, E3, lookup_fmap, fmap_Some. split.
  - intros (r & Hr1 & E). assert (Hlr : live_in cid r = true) by (destruct (Hg r) as [_ <-]; by rewrite <- E).
    assert (Er : ResourceID r' = ResourceID r) by (rewrite E; apply moved_keeps). rewrite Er in *. destruct (within (Path r) from) eqn:Hw.
    + left. apply Hrows in Hr1 as [Hr _]; [|done]. by exists r.
    + right. rewrite (Hstay r Hlr Hr1 Hw) in E. subst r'. apply Hrows in Hr1; [|done]. naive_solver.
  - intros [(r & Hr & Hlr & Hw & ->)|(Hr & Hwf & Hwt)].
    + exists r. rewrite (proj1 (moved_keeps _ _ _ _ _ _ r)). split; [by apply Hmv|done].
    + exists r'. assert (Hr1 : resources db1 !! ResourceID r' = Some r') by by apply Hrows. split; [done|]. symmetry. by apply Hstay.
Qed.

(** C16: A move transplants a subtree.  After a move of [from] to [to], whatever
    was found at or inside [from] is found at the same place at or inside [to],
    with its resource id, kind, object, size, content type and etag; nothing is
    found at or inside [from] any more; whatever was at or inside [to] before
    (an overwritten destination) is gone; and every other path leads to the row
    it led to, untouched.  This is for a destination that neither contains nor
    is inside the source, an ASCII source path when a directory moves, and
    paths on which LIKE is exact: on other inputs the code does something
    else. *)
Theorem move_transplants (q : string) :
  content <$> getResourceQ db' cid q =
    if within q to then content <$> getResourceQ db cid (from ++ sdrop (slen to) q)
    else if within q from then None else content <$> getResourceQ db cid q.
Proof using All.
  assert (HI' : Inv db') by (eapply move_Inv; eauto). destruct move_rows as (Hc' & g & Hg & Hgp & Hrows).
  assert (Hc : exists c, collections db !! cid = Some c /\ cLive c = true).
  { destruct (move_tx_done _ _ _ _ _ _ _ _ _ _ HI Htx) as (c & ? & ? & ? & ? & ? & Hlock & _). apply lockCollection_inl in Hlock as [? Hd].
    exists c. split; [done|]. unfold cLive. by rewrite Hd. }
  assert (Hlk : forall r', getResourceQ db' cid q = Some r' <-> resources db' !! ResourceID r' = Some r' /\ live_in cid r' = true /\ Path r' = q)
    by (intros r'; by apply lookup_path). clear HI'.
  assert (Hnew : forall r, getResourceQ db cid (from ++ sdrop (slen to) q) = Some r -> within q to = true -> getResourceQ db' cid q = Some (g r)).
  { intros r (Hr & Hl & Hp)%lookup_path Hw; [|done..]. destruct (transplant_within q Hw) as (p & Hpw & <- & Ep). rewrite <- Ep in Hp. subst p.
    apply Hlk. split_and!; [|by rewrite (proj2 (Hg r))|by apply Hgp]. apply Hrows; [by rewrite (proj2 (Hg r))|]. left. by exists r. }
  assert (Hold : forall r, getResourceQ db cid q = Some r -> within q to = false -> within q from = false -> getResourceQ db' cid q = Some r).
  { intros r (Hr & Hl & <-)%lookup_path Hw1 Hw2; [|done..]. apply Hlk. split_and!; [|done..]. apply Hrows; [done|]. by right. }
  assert (Hback : forall r', getResourceQ db' cid q = Some r' ->
    (within q to = true /\ exists r, getResourceQ db cid (from ++ sdrop (slen to) q) = Some r /\ r' = g r) \/
    (within q to = false /\ within q from = false /\ getResourceQ db cid q = Some r')).
  { intros r' (Hr' & Hl' & Hp')%Hlk. apply Hrows in Hr' as [(r & Hr & Hl & Hw & ->)|(Hr & Hwf & Hwt)]; [| |done].
    - left. rewrite (Hgp r Hr Hl Hw) in Hp'. pose proof (clean_nonempty _ Hfrom). pose proof (clean_nonempty _ Hto). unfold transplant in Hp'.
      apply within_spec in Hw as [E|(u & E)]; [| |done]; rewrite E in Hp'.
      + rewrite sdrop_len, sapp_nil_r in Hp'. subst q. split; [apply within_spec; auto|]. exists r. split; [|done].
        rewrite sdrop_len, sapp_nil_r. by apply lookup_path.
      + rewrite sdrop_app in Hp'. subst q. split; [apply within_spec; eauto|]. exists r. split; [|done]. rewrite sdrop_app. by apply lookup_path.
    - right. subst q. split_and!; try done. by apply lookup_path. }
  destruct (getResourceQ db' cid q) as [r'|] eqn:E.
  - destruct (Hback r' eq_refl) as [(-> & r & -> & ->)|(-> & -> & ->)]; cbn; [by rewrite (proj1 (Hg r))|done].
  - destruct (within q to) eqn:Hw; [|destruct (within q from) eqn:Hw2; [done|]].
    + destruct (getResourceQ db cid (from ++ _)) as [r|] eqn:Er; [|done]. by specialize (Hnew r eq_refl eq_refl).
    + destruct (getResourceQ db cid q) as [r|] eqn:Er; [|done]. by specialize (Hold r eq_refl eq_refl eq_refl).
Qed.
End Move.

(** ** Copy *)

Definition shape (r : Resource) : Kind * Z * string * string := (rKind r, rSize r, rType r, rETag r).

Section Copy.
Variables (srcID from collID to : string) (overwrite : bool) (now at_ : Z) (db db1 db2 : DB) (src : Resource) (rows : list Resource).
Variables (replaced : list Mutation) (c1 : Collection) (made : list (Resource * Resource)).
Hypotheses (Hfrom : clean from) (Hto : clean to) (HI : Inv db) (Hexf : like_exact db srcID from) (Hext : like_exact db collID to).
Hypothesis Hplan : copy_plan lim srcID from collID to overwrite now at_ db = inl (src, rows, replaced, c1, db1).
Hypothesis Hmade : copies_of collID from to (SyncToken c1) now rows made.
Hypothesis Hins : insert_all made.*2 db1 = Some db2.
Let db' : DB := advance (charge c1 (sizes rows) (Z.of_nat (length rows))) now db2.

(** The rows copied are those at or inside the source. *)
Lemma plan_rows : (exists c, collections db !! srcID = Some c /\ cLive c = true) /\
  forall r, r ∈ rows <-> (exists id, resources db !! id = Some r) /\ live_in srcID r = true /\ within (Path r) from = true.
Proof using All.
  apply copy_plan_inl in Hplan as (c & _ & Hq & _ & -> & _). pose proof (clean_nonempty _ Hfrom) as Hfne.
  apply (getResourceQ_row _ _ _ _ (i_keyed _ HI)) in Hq as (Hsrc & Hsc & Hsp & Hsv).
  destruct (i_live _ HI _ _ Hsrc Hsv) as (cs & Hcs & Hcsl). rewrite Hsc in Hcs. destruct (i_coll _ HI _ _ Hcs Hcsl) as [Ht _].
  assert (Hsl : live_in srcID src = true) by by apply live_in_spec. split; [eauto|].
  intros r. rewrite elem_of_plan_rows. split.
  - intros [->|(Hk & Hb & id & Hr)].
    + split_and!; [eauto|done|]. apply within_spec; auto.
    + unfold below in Hb. rewrite !andb_true_iff, String.eqb_eq in Hb. destruct Hb as [[Hc Hv] Hb].
      assert (Hl : live_in srcID r = true) by by apply live_in_spec. split_and!; [eauto|done|]. unfold within. by rewrite (Hexf _ _ Hr Hl Hb), orb_true_r.
  - intros ((id & Hr) & Hl & Hw). unfold within in Hw. apply orb_true_iff in Hw as [E%String.eqb_eq|Hi].
    + left. assert (id = ResourceID src) as -> by (eapply (t_unique _ _ Ht); eauto; congruence). congruence.
    + right. destruct (ancestor_dir _ _ _ Ht Hfne _ _ Hr Hl Hi) as (id' & y & Hy & Hyl & Hyp & Hyk).
      assert (id' = ResourceID src) as -> by (eapply (t_unique _ _ Ht); eauto; congruence). rewrite Hsrc in Hy. injection Hy as <-.
      split_and!; [done| |eauto]. unfold below. apply live_in_spec in Hl as [-> ->]. by rewrite String.eqb_refl, (below_inside _ _ Hfne Hi).
Qed.

(** What the copy's transaction makes of the paths. *)
Lemma plan_duplicates (q : string) :
  shape <$> getResourceQ db' collID q =
    (if within q to then shape <$> getResourceQ db srcID (from ++ sdrop (slen to) q) else shape <$> getResourceQ db collID q) /\
  (within q to = false -> getResourceQ db' collID q = getResourceQ db collID q) /\
  (forall r, within q to = true -> getResourceQ db' collID q = Some r -> resources db !! ResourceID r = None).
Proof using All.
  assert (HI' : Inv db') by by eapply copy_Inv. destruct plan_rows as [Hsc Hrows].
  pose proof (clean_nonempty _ Hfrom) as Hfne. pose proof (clean_nonempty _ Hto) as Htne.
  pose proof Hplan as Hpl. apply copy_plan_inl in Hpl as (c & Hlock & _ & _ & _ & Hrep).
  apply lockCollection_inl in Hlock as [Hc Hd]. assert (Hcl : cLive c = true) by (unfold cLive; by rewrite Hd).
  pose proof (i_ckeyed _ HI _ _ Hc) as Ecid. destruct (i_coll _ HI _ _ Hc Hcl) as [Ht _].
  pose proof (replace_rows db c collID to overwrite now at_ _ _ _ HI Hc Hcl Htne Hext Hrep) as Hrr.
  destruct (replace_ok _ (bump c) collID _ _ _ _ _ _ _ (i_keyed _ HI) Ht Ecid Hrep) as (Hk1 & _ & _ & _ & _ & Ecoll & _ & Eid & _).
  destruct (insert_all_rows _ _ _ Hins Hk1) as (Hk2 & Ec2 & Hold & Hin & Hback).
  destruct (advance_collections (charge c1 (sizes rows) (Z.of_nat (length rows))) now db2 c) as [E1 E2]; [cbn; by rewrite Ec2, Ecoll, Eid|].
  fold db' in E1, E2.
  assert (Hlk : forall r, getResourceQ db' collID q = Some r <-> resources db2 !! ResourceID r = Some r /\ live_in collID r = true /\ Path r = q).
  { intros r. rewrite <- E2. apply lookup_path; [done|]. rewrite E1, Ecid, lookup_insert_eq. eexists. split; [done|]. unfold cLive. cbn. by rewrite Hd. }
  assert (Hdst : exists c, collections db !! collID = Some c /\ cLive c = true) by eauto.
  assert (Hnoid : forall id, resources db1 !! id = None -> resources db !! id = None).
  { intros id Hn. destruct (resources db !! id) as [r|] eqn:E; [|done]. apply replace_changes in Hrep as [Hch _].
    destruct (ch_keep _ _ _ _ Hch _ _ E) as (r' & Hr' & _). congruence. }
  assert (Hcopy : forall r, within q to = true -> getResourceQ db srcID (from ++ sdrop (slen to) q) = Some r ->
    exists cp, getResourceQ db' collID q = Some (copy_row collID from to cp (SyncToken c1) now r)).
  { intros r Hw (Hr & Hl & Hp)%(lookup_path db srcID _ r HI Hsc). destruct (transplant_within from to Hfrom Hto q Hw) as (p & Hpw & Eq & Ep).
    rewrite <- Ep in Hp. subst p. destruct (row_made _ _ _ _ _ _ _ Hmade r) as (cp & Hcp); [apply Hrows; eauto|]. exists cp. apply Hlk.
    split_and!; [by apply Hin|by apply live_in_spec|done]. }
  assert (Hrow : forall r', getResourceQ db' collID q = Some r' ->
    (within q to = true /\ resources db !! ResourceID r' = None /\ exists r, getResourceQ db srcID (from ++ sdrop (slen to) q) = Some r /\ shape r' = shape r) \/
    (within q to = false /\ getResourceQ db collID q = Some r')).
  { intros r' (Hr' & Hl' & Hp')%Hlk. destruct (Hback _ _ Hr') as [Hr1|Hm].
    - right. apply Hrr in Hr1 as [Hr Hw]; [|done]. subst q. split; [done|]. by apply lookup_path.
    - left. pose proof (insert_all_new _ _ _ _ Hins Hm) as Hnew. destruct (made_row _ _ _ _ _ _ _ Hmade r' Hm) as (r & cp & (( id & Hr) & Hl & Hw)%Hrows & ->).
      cbn [Path copy_row] in Hp'. rewrite <- (i_keyed _ HI _ _ Hr) in Hr. assert (Hq : within q to = true /\ Path r = from ++ sdrop (slen to) q).
      { apply within_spec in Hw as [E|(u & E)]; [| |done]; rewrite E in Hp' |- *.
        - rewrite sdrop_len, sapp_nil_r in Hp'. subst q. rewrite sdrop_len, sapp_nil_r. split; [apply within_spec; auto|done].
        - rewrite sdrop_app in Hp'. subst q. rewrite sdrop_app. split; [apply within_spec; eauto|done]. }
      destruct Hq as [Hq1 Hq2]. split_and!; [done|by apply Hnoid|]. exists r. split; [|done]. by apply lookup_path. }
  assert (Hkeep : within q to = false -> forall r, getResourceQ db collID q = Some r -> getResourceQ db' collID q = Some r).
  { intros Hw r (Hr & Hl & <-)%lookup_path; [|done..]. apply Hlk. split_and!; [|done..]. apply Hold. by apply Hrr. }
  assert (Hsame : within q to = false -> getResourceQ db' collID q = getResourceQ db collID q).
  { intros Hw. destruct (getResourceQ db' collID q) as [r'|] eqn:E.
    - destruct (Hrow r' eq_refl) as [(? & _)|[_ ->]]; congruence.
    - destruct (getResourceQ db collID q) as [r|] eqn:E2'; [|done]. by specialize (Hkeep Hw r eq_refl). }
  split_and!; [|done|intros r Hw Hr; by destruct (Hrow r Hr) as [(_ & ? & _)|[? _]]; congruence].
  destruct (within q to) eqn:Hw; [|by rewrite Hsame].
  destruct (getResourceQ db' collID q) as [r'|] eqn:E.
  - destruct (Hrow r' eq_refl) as [(_ & _ & r & -> & Es)|[? _]]; [|done]. cbn. by rewrite Es.
  - destruct (getResourceQ db srcID _) as [r|] eqn:E2'; [|done]. by destruct (Hcopy r eq_refl eq_refl) as (cp & ?).
Qed.
End Copy.

(** *** The whole operation *)

Section Copying.
Variables (tr : bool) (srcID from collID to : string) (overwrite : bool).

(** What the copy's transaction does, and the answer that goes with it. *)
Definition copied_by (db db' : DB) (x : Resource) : Prop :=
  exists now at_ src rows replaced c db1 made db2 ms,
    copy_plan lim srcID from collID to overwrite now at_ db = inl (src, rows, replaced, c, db1) /\
    copies_of collID from to (SyncToken c) now rows made /\ insert_all made.*2 db1 = Some db2 /\
    db' = with_outbox tr ms (advance (charge c (sizes rows) (Z.of_nat (length rows))) now db2) /\
    x = in_collection (CollectionID src) (from_option snd src (head made)).
Abbreviation answers_ held p := (answers copied_by held None p).

Lemma dup_answers held tenant r (fail : DProg (Resource + DErr)) k :
  answers_ held fail -> (forall cp, answers_ held (k cp)) -> answers_ held (dup tenant collID r fail k).
Proof using. intros Hf Hk. unfold dup. cbn. intros id. destruct (is_dir (rKind r)); [apply Hk|]. intros v []; [apply Hk|apply Hf]. Qed.

Lemma dup_all_answers tenant rows k : (forall copies keys, answers_ None (k copies keys)) ->
  forall copies keys, answers_ None (dup_all tenant collID rows copies keys k).
Proof using.
  intros Hk. induction rows as [|r rows IH]; intros copies keys; cbn [dup_all]; [apply Hk|].
  apply dup_answers; [by apply answers_discard|]. intros cp. apply IH.
Qed.

Lemma copy_rows_answers db0 tenant token now copies rows0 k :
  (forall made keys db1 db2, copies_of collID from to token now rows0 made -> insert_all made.*2 db1 = Some db2 ->
     db1 = db0.2 -> answers_ (Some db0.1) (k made keys db2)) ->
  forall rows keys done_ made db, copies_of collID from to token now done_ made -> rows0 = (done_ ++ rows)%list ->
  insert_all made.*2 db0.2 = Some db -> answers_ (Some db0.1) (copy_rows tenant collID from to token now copies rows keys made db k).
Proof using.
  intros Hk. induction rows as [|r rows IH]; intros keys done_ made db Hm E Hi.
  - rewrite app_nil_r in E. subst. by eapply Hk.
  - assert (Hplace : forall cp keys, answers_ (Some db0.1)
      (match insertResource (copy_row collID from to cp token now r) db with
       | Some db => copy_rows tenant collID from to token now copies rows keys (made ++ [(r, copy_row collID from to cp token now r)])%list db k
       | None => DRollback (discard keys (DRet (inr ErrExists)))
       end)).
    { intros cp ks. destruct (insertResource _ db) as [db1|] eqn:Hr; [|cbn; by apply answers_discard].
      apply (IH _ (done_ ++ [r])%list).
      - apply Forall2_app; [done|]. repeat constructor. by exists cp.
      - by rewrite <- app_assoc.
      - rewrite fmap_app. clear -Hi Hr. revert Hi. generalize db0.2. induction made.*2 as [|y ys IH]; intros d; cbn; [intros [= ->]; by rewrite Hr|].
        destruct (insertResource y d); [apply IH|done]. }
    assert (Hdup : answers_ (Some db0.1) (dup tenant collID r (DRollback (discard keys (DRet (inr ErrStored)))) (fun cp =>
      match insertResource (copy_row collID from to cp token now r) db with
       | Some db => copy_rows tenant collID from to token now copies rows (keys ++ key_of cp)%list (made ++ [(r, copy_row collID from to cp token now r)])%list db k
       | None => DRollback (discard (keys ++ key_of cp)%list (DRet (inr ErrExists)))
       end))) by (apply dup_answers; [cbn; by apply answers_discard|intros cp; apply Hplace]).
    cbn [copy_rows]. destruct (copies !! ResourceID r) as [cp|]; [|apply Hdup]. destruct (srcKey cp =s ObjectKey r); [apply Hplace|apply Hdup].
Qed.

Lemma copy_write_answers tenant rows0 : answers_ None (copy_write lim tr tenant srcID from collID to overwrite rows0).
Proof using.
  apply dup_all_answers. intros copies keys. cbn. intros now. split; [|by apply answers_discard]. intros db at_.
  destruct (copy_plan _ _ _ _ _ _ _ _ _) as [[[[[src rows] replaced] c] db1]|e] eqn:Hplan; [|cbn; by apply answers_discard].
  apply (copy_rows_answers (db, db1) tenant (SyncToken c) now copies rows) with (done_ := []); [|by constructor|done|done].
  intros made keys' db1' db2 Hm Hi ->. cbn in Hi |- *. split; [done|]. split; [|by apply answers_discard].
  eexists. split; [done|]. apply answers_emit. by repeat eexists.
Qed.

Lemma copy_between_answers : answers_ None (copyBetween lim tr srcID from collID to overwrite).
Proof using.
  assert (Hsnap : forall tenant, answers_ None (copy_snapshot lim tr tenant srcID from collID to overwrite)).
  { intros tenant. unfold copy_snapshot, query. cbn [answers]. split; [|done]. intros db1. destruct (getResourceQ db1 srcID from) as [root|]; [|done].
    cbn [answers]. split; [|done]. intros db2. destruct (requireParent db2 collID to); [done|].
    destruct (is_dir (rKind root)); [|apply copy_write_answers]. cbn [answers]. split; [|done]. intros db3. apply copy_write_answers. }
  unfold copyBetween, query. cbn [answers]. split; [|done]. intros db0. destruct (GetCollectionByID db0 collID) as [coll|]; [|done].
  destruct (srcID =s collID); [apply Hsnap|]. cbn [answers]. split; [|done]. intros db1.
  destruct (GetCollectionByID db1 srcID) as [sc|]; [|done]. destruct (_ =s _); [apply Hsnap|done].
Qed.
End Copying.

(** A copy that is not refused for its paths is [copyBetween] of clean paths. *)
Lemma across_paths tr srcID from0 dstID to0 overwrite l x :
  trace (CopyAcross lim tr srcID from0 dstID to0 overwrite) l (inl x) ->
  exists from to, NormalizePath from0 = inl from /\ NormalizePath to0 = inl to /\ clean from /\ clean to /\
    CopyAcross lim tr srcID from0 dstID to0 overwrite = copyBetween lim tr srcID from dstID to overwrite.
Proof using.
  assert (Hno : forall e, trace (DRet (inr e)) l (inl x) -> False) by (intros e Ht; inversion Ht as [|? ? ? ? ? ? Hs]; inversion Hs).
  assert (Hcl : forall p0 p, NormalizePath p0 = inl p -> (p =s "") = false -> clean p) by (intros p0 p E ?%String.eqb_neq; apply normal_clean; [by exists p0|done]).
  unfold CopyAcross. destruct (String.eqb_spec srcID dstID) as [->|Hne].
  - unfold Copy, checkMoveCopyPaths. destruct (NormalizePath from0) as [f|] eqn:E1; [|by intros ?%Hno].
    destruct (NormalizePath to0) as [t|] eqn:E2; [|by intros ?%Hno]. destruct (_ || _) eqn:E3; [by intros ?%Hno|].
    destruct (_ || IsInside t f) eqn:E4; [by intros ?%Hno|]. intros _. apply orb_false_iff in E3 as [? ?]. exists f, t. eauto 10.
  - destruct (NormalizePath from0) as [f|] eqn:E1; [|by intros ?%Hno]. destruct (NormalizePath to0) as [t|] eqn:E2; [|by intros ?%Hno].
    destruct (_ || _) eqn:E3; [by intros ?%Hno|]. intros _. apply orb_false_iff in E3 as [? ?]. exists f, t. eauto 10.
Qed.
End Ops.

(** C17: A copy duplicates a subtree.  Take a copy of [from] to [to], within a
    collection or across two, that answers a resource, whatever other callers do
    between its calls and whichever of its calls fail.  One of its calls commits,
    none other changes the index; and what is found at or inside [to] in the
    index it committed is what was at the same place at or inside [from] in the
    index its transaction began with, directory for directory and file for file,
    with its size, content type and etag, under resource ids that no row had,
    while every path of the destination collection that is not at or inside [to]
    leads to the row it led to, the source's own paths among them.  This is for
    an index in order ([Inv], which [index_stays_tree] keeps) and for paths on
    which LIKE is exact: under SQLite a live path that differs from one below
    [from] or [to] only in case would be taken along or replaced. *)
Theorem copy_duplicates `{Unicode} `{Collation} `{Platform} (lim : Limits) (tr : bool) (srcID from0 dstID to0 : string) (overwrite : bool)
    (l : list (DProg (Resource + DErr) * World * World)) (x : Resource)
    (Ht : trace (CopyAcross lim tr srcID from0 dstID to0 overwrite) l (inl x)) :
  exists from to l1 s l2 db, NormalizePath from0 = inl from /\ NormalizePath to0 = inl to /\
    l = (l1 ++ s :: l2)%list /\ Forall unwritten l1 /\ Forall unwritten l2 /\ Exists (began db) l1 /\
    let db' := w_db s.2 in
    Inv db -> like_exact db srcID from -> like_exact db dstID to -> forall q,
      shape <$> getResourceQ db' dstID q =
        (if within q to then shape <$> getResourceQ db srcID (from ++ sdrop (slen to) q) else shape <$> getResourceQ db dstID q) /\
      (within q to = false -> getResourceQ db' dstID q = getResourceQ db dstID q) /\
      (forall r, within q to = true -> getResourceQ db' dstID q = Some r -> resources db !! ResourceID r = None).
Proof.
  destruct (across_paths lim _ _ _ _ _ _ _ _ Ht) as (from & to & Hf & Ht' & Hcf & Hct & E). rewrite E in Ht.
  destruct (trace_answers _ _ _ _ Ht None (copy_between_answers lim tr srcID from dstID to overwrite))
    as (l1 & s & l2 & db & -> & H1' & H2 & [?|Hb] & _ & HQ); [done|].
  exists from, to, l1, s, l2, db. do 6 (split; [done|]). intros db' HI Hexf Hext q.
  destruct HQ as (now & at_ & src & rows & replaced & c & db1 & made & db2 & ms & Hplan & Hm & Hi & E' & _).
  assert (Hq : forall cid, getResourceQ db' cid q = getResourceQ (advance (charge c (sizes rows) (Z.of_nat (length rows))) now db2) cid q)
    by (intros cid; unfold db'; rewrite E'; unfold with_outbox; by destruct tr).
  rewrite !Hq. by eapply plan_duplicates.
Qed.
