(* ===== verification/DriveBytes.v ===== *)
(** * Drive: never a row without bytes

    Bytes first, metadata second.  Every operation stores its objects under keys
    it has just minted, names them in the rows of one transaction, and discards
    them when it fails; so at every moment of every interleaving each live file
    has its object, with the size and the sha256 the row says. *)

From Stdlib Require Import Ascii String ZArith Lia Bool.
From stdpp Require Import base tactics list strings gmap sorting relations.
From S2P Require Import Prelude GoStrings GoJson GoPath Opname DrivePath Drive DriveRows DriveTxn DriveTree DriveInv.

#[local] Open Scope string_scope.

(** ** Keys and the ids they end in *)

Definition key_has (key id : string) : Prop := no_slashb id = true /\ exists pre, key = pre ++ "/" ++ "dv_" ++ id.

Lemma key_has_inj key id1 id2 : key_has key id1 -> key_has key id2 -> id1 = id2.
Proof.
  intros [H1 (p1 & ->)] [H2 (p2 & E)]. apply (f_equal BaseOf) in E. rewrite !BaseOf_snoc in E; [by injection E| |].
  - unfold no_slashb in *. by rewrite sall_app, H2.
  - unfold no_slashb in *. by rewrite sall_app, H1.
Qed.

Lemma objectKey_has tenant coll res id : no_slashb id = true -> key_has (objectKey tenant coll res (newVersionID id)) id.
Proof. intros Hid. split; [done|]. exists (tenant ++ "/" ++ coll ++ "/" ++ res). unfold objectKey, newVersionID. by rewrite <- !sapp_assoc. Qed.

Lemma key_has_ne key id : key_has key id -> key <> "".
Proof. intros [_ (pre & ->)]. by destruct pre. Qed.

Section Bytes.
Context `{Unicode} `{Collation} `{Platform}.

(** [W]: the body ever stored under each key.  A row of a file names a key that
    was stored with the row's sha256 and size; a directory names none. *)
Abbreviation Bodies := (gmap string string).

Definition row_bytes (W : Bodies) (r : Resource) : Prop :=
  match rKind r with
  | KindDir => ObjectKey r = ""
  | KindFile => exists body, W !! ObjectKey r = Some body /\ sha256hex body = rETag r /\ Z.of_nat (slen body) = rSize r /\ ObjectKey r <> ""
  end.

Definition good (W : Bodies) (db : DB) : Prop := keyed db /\ forall id r, resources db !! id = Some r -> live r = true -> row_bytes W r.

(** A commit's live files have the objects of the index's live files, or
    objects the program has just stored. *)
Definition bytes_step (W : Bodies) (own : gmap string bool) (db db' : DB) : Prop := keyed db' /\ forall id r', resources db' !! id = Some r' -> live r' = true ->
  row_bytes W r' /\ (rKind r' = KindFile ->
    (exists id0 r, resources db !! id0 = Some r /\ rKind r = KindFile /\ live r = true /\ ObjectKey r = ObjectKey r') \/
    own !! ObjectKey r' = Some true).

Lemma bytes_step_own W (own own' : gmap string bool) db db' : own ⊆ own' -> bytes_step W own db db' -> bytes_step W own' db db'.
Proof.
  intros Ho [Hk Hs]. split; [done|]. intros id r Hr Hl. destruct (Hs id r Hr Hl) as [? Hw]. split; [done|]. intros Hkd.
  destruct (Hw Hkd) as [?|Hown]; [by left|right]. by eapply lookup_weaken.
Qed.

Lemma row_bytes_mono W W' r : W ⊆ W' -> row_bytes W r -> row_bytes W' r.
Proof. intros HW. unfold row_bytes. destruct (rKind r); [|done]. intros (body & Hb & ?). exists body. split; [by eapply lookup_weaken|done]. Qed.

Lemma good_mono W W' db : W ⊆ W' -> good W db -> good W' db.
Proof. intros HW [Hk Hg]. split; [done|]. intros id r Hr Hl. eapply row_bytes_mono; [exact HW|by eapply Hg]. Qed.

Lemma bytes_step_mono W W' own db db' : W ⊆ W' -> bytes_step W own db db' -> bytes_step W' own db db'.
Proof. intros HW [Hk Hs]. split; [done|]. intros id r Hr Hl. destruct (Hs id r Hr Hl). split; [by eapply row_bytes_mono|done]. Qed.

(** A program that keeps the rule: it stores only under ids it has minted and
    not used, deletes only keys of its own, and commits only [bytes_step]s.
    [own]: its keys, with whether the object is there; [F]: its unused ids. *)
Fixpoint careful {A} (W : Bodies) (held : option DB) (own : gmap string bool) (F : gset string) (p : DProg A) : Prop :=
  match p with
  | DRet _ => held = None
  | DMint k => forall id, no_slashb id = true -> id ∉ F -> careful W held own ({[ id ]} ∪ F) (k id)
  | DClock k => forall t, careful W held own F (k t)
  | DQuery k broken => (forall W' db, W ⊆ W' -> good W' db -> careful W' held own F (k db)) /\ careful W held own F broken
  | DBegin k broken => held = None /\ (forall W' db, W ⊆ W' -> good W' db -> careful W' (Some db) own F (k db)) /\ careful W None own F broken
  | DCommit db' k broken => (exists db, held = Some db /\ bytes_step W own db db') /\ careful W None ∅ ∅ k /\ careful W None own F broken
  | DRollback k => held <> None /\ careful W None own F k
  | DObjPut key body k => exists id, id ∈ F /\ key_has key id /\ (W !! key = None -> own !! key = None ->
      careful (<[key := body]> W) held (<[key := true]> own) (F ∖ {[ id ]}) (k true) /\
      careful W held (<[key := false]> own) (F ∖ {[ id ]}) (k false))
  | DObjCopy from to k => exists id, id ∈ F /\ key_has to id /\ (own !! to = None ->
      (forall W' body, W ⊆ W' -> W' !! from = Some body -> W' !! to = None ->
         careful (<[to := body]> W') held (<[to := true]> own) (F ∖ {[ id ]}) (k true)) /\
      careful W held (<[to := false]> own) (F ∖ {[ id ]}) (k false))
  | DObjDelete key k => is_Some (own !! key) /\ forall ok, careful W held (<[key := false]> own) F (k ok)
  | DObjList k => forall l, careful W held own F (k l)
  | DSink m k => careful W held own F k
  end.

Lemma careful_mono {A} (p : DProg A) : forall W W' held own F, W ⊆ W' -> careful W held own F p -> careful W' held own F p.
Proof.
  induction p as [x|k IH|k IH|k IH br IHb|k IH br IHb|db k IH br IHb|k IH|key body k IH|from to k IH|key k IH|k IH|m k IH];
    cbn; intros W W' held own F HW; try done; try (by intros; eapply IH; eauto).
  - intros [Hk Hb]. split; [|by eapply IHb]. intros W2 db HW2. apply Hk. by trans W'.
  - intros (? & Hk & Hb). split_and!; [done| |by eapply IHb]. intros W2 db HW2. apply Hk. by trans W'.
  - intros ((db0 & ? & ?) & Hk & Hb). split_and!; [|by eapply IH|by eapply IHb]. exists db0. split; [done|]. by eapply bytes_step_mono.
  - intros [? Hk]. split; [done|]. by eapply IH.
  - intros (id & ? & ? & Hc). exists id. split_and!; [done..|]. intros HWn Hon. destruct (Hc (lookup_weaken_None _ _ _ HWn HW) Hon) as [Ht Hf].
    split; [|by eapply IH]. eapply IH; [|exact Ht]. by apply insert_mono.
  - intros (id & ? & ? & Hc). exists id. split_and!; [done..|]. intros Hon. destruct (Hc Hon) as [Ht Hf]. split; [|by eapply IH].
    intros W2 body HW2. apply Ht. by trans W'.
  - intros [? Hk]. split; [done|]. intros ok. by eapply IH.
Qed.

(** ** Worlds *)

Record Thread := mkThread { t_held : option DB; t_own : gmap string bool; t_fresh : gset string }.

(** At most one thread is in a transaction, on the index as it stands. *)
Definition lock_ok (ts : list Thread) (w : World) : Prop :=
  if w_lock w then exists i, (t_held <$> ts !! i) = Some (Some (w_db w)) /\ forall j t db, ts !! j = Some t -> t_held t = Some db -> j = i
  else forall j t, ts !! j = Some t -> t_held t = None.

Record rule (W : Bodies) (ts : list Thread) (w : World) : Prop := {
  ru_obj : forall key o, w_objects w !! key = Some o -> W !! key = Some (o_body o);
  ru_used : forall key body, W !! key = Some body -> exists id, id ∈ w_used w /\ key_has key id;
  ru_rows : good W (w_db w);
  ru_live : forall id r, resources (w_db w) !! id = Some r -> rKind r = KindFile -> live r = true -> is_Some (w_objects w !! ObjectKey r);
  ru_lock : lock_ok ts w;
  ru_own : forall i t key b, ts !! i = Some t -> t_own t !! key = Some b ->
    (b = true -> is_Some (w_objects w !! key)) /\ (exists id, id ∈ w_used w /\ key_has key id) /\
    forall id r, resources (w_db w) !! id = Some r -> rKind r = KindFile -> live r = true -> ObjectKey r <> key;
  ru_fresh : forall i t id, ts !! i = Some t -> id ∈ t_fresh t -> id ∈ w_used w /\ forall key, key_has key id -> W !! key = None /\
    forall j t', ts !! j = Some t' -> t_own t' !! key = None;
  ru_disj : forall i j t t', i <> j -> ts !! i = Some t -> ts !! j = Some t' ->
    (forall key b, t_own t !! key = Some b -> t_own t' !! key = None) /\ (forall id, id ∈ t_fresh t -> id ∉ t_fresh t') }.

(** Each thread's program keeps the rule, from the state the thread is in. *)
Definition keeping {A} (W : Bodies) (ts : list Thread) (ps : list (DProg A)) : Prop :=
  Forall2 (fun t p => careful W (t_held t) (t_own t) (t_fresh t) p) ts ps.

Definition ruled {A} (ps : list (DProg A)) (w : World) : Prop := exists W ts, rule W ts w /\ keeping W ts ps.

(** A call by thread [i] that touches only what is its own: its keys, keys under
    its unused ids, and ids nobody has. *)
Lemma rule_step W W' ts i t t' w w' :
  rule W ts w -> ts !! i = Some t -> W ⊆ W' -> w_used w ⊆ w_used w' ->
  (forall key o, w_objects w' !! key = Some o -> W' !! key = Some (o_body o)) ->
  (forall key, (W' !! key = W !! key /\ (w_objects w' !! key = w_objects w !! key \/ is_Some (t_own t !! key))) \/
     exists id, id ∈ t_fresh t /\ key_has key id) ->
  good W' (w_db w') ->
  (forall id r, resources (w_db w') !! id = Some r -> rKind r = KindFile -> live r = true -> is_Some (w_objects w' !! ObjectKey r) /\
     ((exists id0 r0, resources (w_db w) !! id0 = Some r0 /\ rKind r0 = KindFile /\ live r0 = true /\ ObjectKey r0 = ObjectKey r) \/
      is_Some (t_own t !! ObjectKey r))) ->
  lock_ok (<[i := t']> ts) w' ->
  (forall key b, t_own t' !! key = Some b -> (b = true -> is_Some (w_objects w' !! key)) /\
     (is_Some (t_own t !! key) \/ exists id, id ∈ t_fresh t /\ key_has key id) /\
     forall id r, resources (w_db w') !! id = Some r -> rKind r = KindFile -> live r = true -> ObjectKey r <> key) ->
  (forall id, id ∈ t_fresh t' -> (id ∈ t_fresh t \/ ((id ∉ w_used w) /\ id ∈ w_used w')) /\
     forall key, key_has key id -> W' !! key = None /\ t_own t' !! key = None) ->
  rule W' (<[i := t']> ts) w'.
Proof.
  intros HR Hi HWW Hused Hobj Htouch Hgood Hlive Hlock Hown Hfresh. destruct HR as [Robj Rused Rrows Rlive Rlock Rown Rfresh Rdisj].
  assert (Hlen : i < length ts) by by eapply lookup_lt_Some.
  assert (Hcase : forall j t0, (<[i := t']> ts) !! j = Some t0 -> (j = i /\ t0 = t') \/ (j <> i /\ ts !! j = Some t0)).
  { intros j t0 Hj. destruct (decide (j = i)) as [->|Hne]; [rewrite list_lookup_insert_eq in Hj by done; left; by injection Hj|].
    rewrite list_lookup_insert_ne in Hj by done. by right. }
  (* keys of another thread are out of reach *)
  assert (Hother : forall j t0 key b, j <> i -> ts !! j = Some t0 -> t_own t0 !! key = Some b ->
    t_own t !! key = None /\ ~ (exists id, id ∈ t_fresh t /\ key_has key id)).
  { intros j t0 key b Hne Hj Hk. split; [by eapply (Rdisj j i)|]. intros (id & Hid & Hkey).
    destruct (Rfresh i t id Hi Hid) as [_ Hf]. destruct (Hf key Hkey) as [_ Hf']. by rewrite (Hf' j t0 Hj) in Hk. }
  assert (Hownid : forall key, is_Some (t_own t !! key) \/ (exists id, id ∈ t_fresh t /\ key_has key id) -> exists id, id ∈ w_used w /\ key_has key id).
  { intros key [[b Hb]|(id & Hid & Hk)]; [by apply (Rown i t key b)|]. exists id. split; [by apply (Rfresh i t)|done]. }
  split; try done.
  - intros key body Hb. destruct (Htouch key) as [[E _]|(id & Hid & Hk)].
    + rewrite E in Hb. destruct (Rused _ _ Hb) as (id & ? & ?). exists id. split; [by apply Hused|done].
    + exists id. split; [by apply Hused, (Rfresh i t)|done].
  - intros id r Hr Hk Hl. by apply (Hlive id).
  - intros j t0 key b [[-> ->]|[Hne Hj]]%Hcase Hk.
    + destruct (Hown key b Hk) as (H1' & Hw & H3). split_and!; [done| |done]. destruct (Hownid key Hw) as (id & ? & ?). exists id. split; [by apply Hused|done].
    + destruct (Rown j t0 key b Hj Hk) as (H1' & (id & Hid & Hkey) & H3). destruct (Hother j t0 key b Hne Hj Hk) as [Hn1 Hn2]. split_and!.
      * intros ->. destruct (Htouch key) as [[_ [E|[x Hx]]]|Hf]; [rewrite E; by apply H1'|congruence|done].
      * exists id. split; [by apply Hused|done].
      * intros id0 r Hr Hkd Hl E. destruct (Hlive id0 r Hr Hkd Hl) as [_ [(id1 & r1 & Hr1 & Hk1 & Hl1 & E1)|[x Hx]]]; [|congruence].
        by apply (H3 id1 r1); [..|congruence].
  - intros j t0 id [[-> ->]|[Hne Hj]]%Hcase Hid.
    + destruct (Hfresh id Hid) as [Hw Hk]. split; [destruct Hw as [?|[_ ?]]; [by apply Hused, (Rfresh i t)|done]|].
      intros key Hkey. destruct (Hk key Hkey) as [? Ho]. split; [done|]. intros k t1 [[-> ->]|[Hnk Hk1]]%Hcase; [done|].
      destruct Hw as [Hw|[Hn _]]; [destruct (Rfresh i t id Hi Hw) as [_ Hf]; destruct (Hf key Hkey) as [_ Ho']; by apply (Ho' k)|].
      destruct (t_own t1 !! key) as [b|] eqn:E; [|done]. destruct (Rown k t1 key b Hk1 E) as (_ & (id' & Hid' & Hk') & _).
      by rewrite (key_has_inj _ _ _ Hkey Hk') in Hn.
    + destruct (Rfresh j t0 id Hj Hid) as [Hu Hk]. split; [by apply Hused|]. intros key Hkey. destruct (Hk key Hkey) as [HWn Ho].
      assert (Hnf : ~ exists id', id' ∈ t_fresh t /\ key_has key id').
      { intros (id' & Hid' & Hk'). rewrite (key_has_inj _ _ _ Hkey Hk') in Hid. by apply (proj2 (Rdisj j i t0 t Hne Hj Hi) id'). }
      split; [destruct (Htouch key) as [[-> _]|?]; done|]. intros k t1 [[-> ->]|[_ Hk1]]%Hcase; [|by eapply Ho].
      destruct (t_own t' !! key) as [b|] eqn:E; [|done]. destruct (Hown key b E) as (_ & [[x Hx]|?] & _); [|done]. by rewrite (Ho i t Hi) in Hx.
  - assert (Hsym : forall k t0, k <> i -> ts !! k = Some t0 ->
      (forall key b, t_own t' !! key = Some b -> t_own t0 !! key = None) /\ (forall id, id ∈ t_fresh t' -> id ∉ t_fresh t0)).
    { intros k t0 Hne Hk. split.
      - intros key b Hb. destruct (t_own t0 !! key) as [b0|] eqn:E; [|done]. destruct (Hother k t0 key b0 Hne Hk E) as [Hn1 Hn2].
        destruct (Hown key b Hb) as (_ & [[x Hx]|?] & _); [congruence|done].
      - intros id Hid Hid0. destruct (Hfresh id Hid) as [[Hw|[Hn _]] _]; [by apply (proj2 (Rdisj i k t t0 (not_eq_sym Hne) Hi Hk) id)|].
        by apply Hn, (Rfresh k t0). }
    intros j k t0 t1 Hjk [[-> ->]|[Hnj Hj]]%Hcase [[-> ->]|[Hnk Hk]]%Hcase; [done|by apply (Hsym k)| |exact (Rdisj j k t0 t1 Hjk Hj Hk)].
    destruct (Hsym j t0 Hnj Hj) as [Ho Hf]. split.
    + intros key b Hb. destruct (t_own t' !! key) as [b'|] eqn:E; [|done]. by rewrite (Ho _ _ E) in Hb.
    + intros id Hid Hid'. by apply (Hf id Hid').
Qed.

Lemma insert_thread (ts : list Thread) i t t' j t0 : ts !! i = Some t -> (<[i := t']> ts) !! j = Some t0 ->
  (j = i /\ t0 = t') \/ (j <> i /\ ts !! j = Some t0).
Proof.
  intros Hi%lookup_lt_Some Hj. destruct (decide (j = i)) as [->|Hne].
  - rewrite list_lookup_insert_eq in Hj by done. left. by injection Hj.
  - rewrite list_lookup_insert_ne in Hj by done. by right.
Qed.

Lemma lock_same ts i t t' w w' : lock_ok ts w -> ts !! i = Some t -> t_held t' = t_held t -> w_lock w' = w_lock w -> w_db w' = w_db w ->
  lock_ok (<[i := t']> ts) w'.
Proof.
  intros Hl Hi Eh El Ed. unfold lock_ok in *. rewrite El, Ed. assert (Hlen : i < length ts) by by eapply lookup_lt_Some. destruct (w_lock w).
  - destruct Hl as (j & Hj & Hu). exists j. split.
    + destruct (decide (j = i)) as [->|Hne]; [rewrite list_lookup_insert_eq by done; rewrite Hi in Hj; cbn in *; congruence|].
      by rewrite list_lookup_insert_ne.
    + intros k t0 db Hk Hh. destruct (insert_thread _ _ _ _ _ _ Hi Hk) as [[-> ->]|[_ Hk']]; [rewrite Eh in Hh; by eapply Hu|by eapply Hu].
  - intros k t0 Hk. destruct (insert_thread _ _ _ _ _ _ Hi Hk) as [[-> ->]|[_ Hk']]; [rewrite Eh; by eapply Hl|by eapply Hl].
Qed.

Lemma lock_begin ts i t t' w : lock_ok ts w -> w_lock w = false -> ts !! i = Some t -> t_held t' = Some (w_db w) ->
  lock_ok (<[i := t']> ts) (set_lock true w).
Proof.
  intros Hl El Hi Eh. unfold lock_ok in *. rewrite El in Hl. cbn. exists i. assert (Hlen : i < length ts) by by eapply lookup_lt_Some. split.
  - rewrite list_lookup_insert_eq by done. cbn. by rewrite Eh.
  - intros k t0 db Hk Hh. destruct (insert_thread _ _ _ _ _ _ Hi Hk) as [[-> _]|[_ Hk']]; [done|]. by rewrite (Hl _ _ Hk') in Hh.
Qed.

Lemma lock_end ts i t t' w w' db : lock_ok ts w -> ts !! i = Some t -> t_held t = Some db -> t_held t' = None -> w_lock w' = false ->
  lock_ok (<[i := t']> ts) w' /\ db = w_db w.
Proof.
  intros Hl Hi Eh Eh' El. unfold lock_ok in *. rewrite El. destruct (w_lock w); [|by rewrite (Hl _ _ Hi) in Eh].
  destruct Hl as (j & Hj & Hu). pose proof (Hu _ _ _ Hi Eh) as ->. rewrite Hi in Hj. cbn in Hj. split; [|congruence].
  intros k t0 Hk. destruct (insert_thread _ _ _ _ _ _ Hi Hk) as [[_ ->]|[Hne Hk']]; [done|]. destruct (t_held t0) as [db0|] eqn:E; [|done].
  by destruct Hne; eapply Hu.
Qed.

(** A call that leaves the world's index and objects as they are. *)
Lemma rule_quiet W ts i t t' w w' :
  rule W ts w -> ts !! i = Some t -> w_db w' = w_db w -> w_objects w' = w_objects w -> w_used w ⊆ w_used w' ->
  lock_ok (<[i := t']> ts) w' ->
  (forall key b, t_own t' !! key = Some b -> t_own t !! key = Some b \/
     (b = false /\ (is_Some (t_own t !! key) \/ exists id, id ∈ t_fresh t /\ key_has key id))) ->
  (forall id, id ∈ t_fresh t' -> (id ∈ t_fresh t \/ ((id ∉ w_used w) /\ id ∈ w_used w')) /\
     forall key, key_has key id -> t_own t' !! key = None) ->
  rule W (<[i := t']> ts) w'.
Proof.
  intros HR Hi Ed Eo Hu Hl Hown Hfr. assert (Hnoref : forall key id, id ∈ t_fresh t -> key_has key id ->
    forall i0 r, resources (w_db w) !! i0 = Some r -> rKind r = KindFile -> live r = true -> ObjectKey r <> key).
  { intros key id Hid Hk i0 r Hr Hkd Hl0 E. destruct (ru_fresh _ _ _ HR i t id Hi Hid) as [_ Hf]. destruct (Hf key Hk) as [HW _].
    pose proof (proj2 (ru_rows _ _ _ HR) i0 r Hr Hl0) as Hb. unfold row_bytes in Hb. rewrite Hkd, E, HW in Hb. by destruct Hb as (? & ? & _). }
  eapply rule_step; try done; rewrite ?Ed, ?Eo.
  - apply HR.
  - intros key. left. auto.
  - apply HR.
  - intros id r Hr Hk Hlv. split; [by eapply (ru_live _ _ _ HR)|]. left. by exists id, r.
  - intros key b Hb. destruct (Hown key b Hb) as [Hb'|[-> Hw]].
    + destruct (ru_own _ _ _ HR i t key b Hi Hb') as (? & _ & ?). split_and!; try done. left. by exists b.
    + split_and!; [done|done|]. destruct Hw as [[b' Hb']|(id & Hid & Hk)]; [by destruct (ru_own _ _ _ HR i t key b' Hi Hb') as (_ & _ & ?)|by apply (Hnoref key id)].
  - intros id Hid. destruct (Hfr id Hid) as [Hw Hk]. split; [done|]. intros key Hkey. split; [|by apply Hk].
    destruct Hw as [Hw|[Hn _]]; [by apply (ru_fresh _ _ _ HR i t id Hi Hw)|]. destruct (W !! key) as [body|] eqn:E; [|done].
    destruct (ru_used _ _ _ HR key body E) as (id' & Hid' & Hk'). by rewrite (key_has_inj _ _ _ Hkey Hk') in Hn.
Qed.

Section Step.
Variables (W : Bodies) (ts : list Thread) (w : World) (i : nat) (t : Thread).
Hypotheses (HR : rule W ts w) (Hi : ts !! i = Some t).

Lemma fresh_unowned id key : id ∈ t_fresh t -> key_has key id -> W !! key = None /\ t_own t !! key = None /\ w_objects w !! key = None.
Proof using HR Hi.
  intros Hid Hk. destruct (ru_fresh _ _ _ HR i t id Hi Hid) as [_ Hf]. destruct (Hf key Hk) as [HW Ho]. split_and!; [done|by eapply Ho|].
  destruct (w_objects w !! key) as [o|] eqn:E; [|done]. apply (ru_obj _ _ _ HR) in E. congruence.
Qed.

(** A thread that only forgets. *)
Lemma rule_same w' held :
  w_db w' = w_db w -> w_objects w' = w_objects w -> w_used w' = w_used w -> lock_ok (<[i := mkThread held (t_own t) (t_fresh t)]> ts) w' ->
  rule W (<[i := mkThread held (t_own t) (t_fresh t)]> ts) w'.
Proof using HR Hi.
  intros Ed Eo Eu Hl. eapply rule_quiet; [exact HR|exact Hi|done|done|by rewrite Eu|done|by left|]. cbn. intros id Hid. split; [by left|].
  intros key Hk. by apply (fresh_unowned id).
Qed.

(** A new key, with or without its object. *)
Lemma rule_spend id key w' : id ∈ t_fresh t -> key_has key id -> w_db w' = w_db w -> w_objects w' = w_objects w -> w_used w' = w_used w -> w_lock w' = w_lock w ->
  rule W (<[i := mkThread (t_held t) (<[key := false]> (t_own t)) (t_fresh t ∖ {[ id ]})]> ts) w'.
Proof using HR Hi.
  intros Hid Hk Ed Eo Eu El. eapply rule_quiet; [exact HR|exact Hi|done|done|by rewrite Eu|by apply (lock_same ts i t _ w _ (ru_lock _ _ _ HR) Hi)| |]; cbn.
  - intros key' b [[<- <-]|[_ Hb]]%lookup_insert_Some; [right|by left]. split; [done|]. right. by exists id.
  - intros id' [Hid' Hne]%elem_of_difference. split; [by left|]. intros key' Hk'. rewrite lookup_insert_ne; [by apply (fresh_unowned id')|].
    intros <-. by apply Hne, elem_of_singleton, (key_has_inj key).
Qed.

Lemma rule_store id key body : id ∈ t_fresh t -> key_has key id ->
  rule (<[key := body]> W) (<[i := mkThread (t_held t) (<[key := true]> (t_own t)) (t_fresh t ∖ {[ id ]})]> ts)
    (set_objects (<[key := mkObj body (w_time w)]> (w_objects w)) w) /\ W ⊆ <[key := body]> W.
Proof using HR Hi.
  intros Hid Hk. destruct (fresh_unowned id key Hid Hk) as (HWn & Hon & Hobj). assert (HWW : W ⊆ <[key := body]> W) by by apply insert_subseteq.
  split; [|done]. eapply rule_step; [exact HR|exact Hi|done|done|..]; cbn.
  - intros key' o [[<- <-]|[Hne Ho]]%lookup_insert_Some; [by rewrite lookup_insert_eq|]. rewrite lookup_insert_ne by done. by apply HR.
  - intros key'. destruct (decide (key' = key)) as [->|Hne]; [right; by exists id|]. left. rewrite !lookup_insert_ne by done. auto.
  - eapply good_mono; [done|apply HR].
  - intros i0 r Hr Hkd Hl. split; [|left; by exists i0, r]. destruct (ru_live _ _ _ HR i0 r Hr Hkd Hl) as [o Ho]. apply lookup_insert_is_Some'. by right; exists o.
  - by apply (lock_same ts i t _ w _ (ru_lock _ _ _ HR) Hi).
  - intros key' b Hb. split_and!.
    + intros ->. apply lookup_insert_is_Some'. apply lookup_insert_Some in Hb as [[<- _]|[_ Hb]]; [by left|right]. by apply (ru_own _ _ _ HR i t key' true Hi Hb).
    + apply lookup_insert_Some in Hb as [[<- _]|[_ Hb]]; [right; by exists id|left; by exists b].
    + apply lookup_insert_Some in Hb as [[<- _]|[_ Hb]]; [|by apply (ru_own _ _ _ HR i t key' b Hi Hb)].
      intros i0 r Hr Hkd Hl E. destruct (ru_live _ _ _ HR i0 r Hr Hkd Hl) as [o Ho]. congruence.
  - intros id' [Hid' Hne]%elem_of_difference. split; [by left|]. intros key' Hk'. assert (key' <> key).
    { intros ->. by apply Hne, elem_of_singleton, (key_has_inj key). }
    rewrite !lookup_insert_ne by done. by destruct (fresh_unowned id' key' Hid' Hk') as (? & ? & _).
Qed.

Lemma rule_drop key w' : is_Some (t_own t !! key) -> w_db w' = w_db w -> w_used w' = w_used w -> w_lock w' = w_lock w ->
  w_objects w' = delete key (w_objects w) \/ w_objects w' = w_objects w ->
  rule W (<[i := mkThread (t_held t) (<[key := false]> (t_own t)) (t_fresh t)]> ts) w'.
Proof using HR Hi.
  intros [b0 Hb0] Ed Eu El Eo. destruct (ru_own _ _ _ HR i t key b0 Hi Hb0) as (_ & _ & Hnoref).
  assert (Hobj : forall key', key' <> key -> w_objects w' !! key' = w_objects w !! key').
  { intros key' Hne. destruct Eo as [-> | ->]; [by rewrite lookup_delete_ne|done]. }
  eapply rule_step; [exact HR|exact Hi|done|by rewrite Eu|..]; rewrite ?Ed; cbn.
  - intros key' o Ho. destruct (decide (key' = key)) as [->|Hne]; [|rewrite Hobj in Ho by done; by apply HR].
    destruct Eo as [E|E]; rewrite E in Ho; [by rewrite lookup_delete_eq in Ho|by apply HR].
  - intros key'. left. split; [done|]. destruct (decide (key' = key)) as [->|Hne]; [right; by exists b0|left; by apply Hobj].
  - apply HR.
  - intros i0 r Hr Hkd Hl. split; [|left; by exists i0, r]. rewrite Hobj; [by eapply (ru_live _ _ _ HR)|by eapply Hnoref].
  - by apply (lock_same ts i t _ w _ (ru_lock _ _ _ HR) Hi).
  - intros key' b [[<- <-]|[Hne Hb]]%lookup_insert_Some; [split_and!; [done|left; by exists b0|done]|].
    destruct (ru_own _ _ _ HR i t key' b Hi Hb) as (? & _ & ?). split_and!; [rewrite Hobj by done; done|left; by exists b|done].
  - intros id Hid. split; [by left|]. intros key' Hk'. destruct (fresh_unowned id key' Hid Hk') as (? & Hn & _). split; [done|].
    rewrite lookup_insert_ne; [done|]. intros <-. congruence.
Qed.

Lemma rule_mint id : no_slashb id = true -> (id ∉ w_used w) ->
  rule W (<[i := mkThread (t_held t) (t_own t) ({[ id ]} ∪ t_fresh t)]> ts) (add_used id w).
Proof using HR Hi.
  intros Hs Hn. eapply rule_quiet; [exact HR|exact Hi|done|done|cbn; set_solver|by apply (lock_same ts i t _ w _ (ru_lock _ _ _ HR) Hi)|by left|]. cbn.
  intros id' [->%elem_of_singleton|Hid]%elem_of_union.
  - split; [right; split; [done|set_solver]|]. intros key Hk. destruct (t_own t !! key) as [b|] eqn:E; [|done].
    destruct (ru_own _ _ _ HR i t key b Hi E) as (_ & (id2 & Hid2 & Hk2) & _). by rewrite (key_has_inj _ _ _ Hk Hk2) in Hn.
  - split; [by left|]. intros key Hk. by apply (fresh_unowned id').
Qed.

Lemma rule_commit db db' : t_held t = Some db -> bytes_step W (t_own t) db db' ->
  rule W (<[i := mkThread None ∅ ∅]> ts) (set_lock false (set_db db' w)).
Proof using HR Hi.
  intros Eh [Hkd' Hs]. destruct (lock_end ts i t (mkThread None ∅ ∅) w (set_lock false (set_db db' w)) db (ru_lock _ _ _ HR) Hi Eh) as [Hl ->]; [done..|].
  eapply rule_step; [exact HR|exact Hi|done|done|..]; cbn; try done.
  - apply HR.
  - intros key. left. auto.
  - split; [done|]. intros id r Hr Hlv. by apply (Hs id r).
  - intros id r Hr Hkd Hlv. destruct (Hs id r Hr Hlv) as [_ Hk]. destruct (Hk Hkd) as [(i0 & r0 & Hr0 & Hk0 & Hl0 & E)|Ho].
    + split; [rewrite <- E; by eapply (ru_live _ _ _ HR)|]. left. by exists i0, r0.
    + split; [by apply (ru_own _ _ _ HR i t _ true Hi Ho)|]. right. by eexists.
Qed.
End Step.

Lemma careful_call {A} W ts i t (p p' : DProg A) w w' :
  rule W ts w -> ts !! i = Some t -> dstep p w p' w' -> careful W (t_held t) (t_own t) (t_fresh t) p ->
  exists W' t', W ⊆ W' /\ rule W' (<[i := t']> ts) w' /\ careful W' (t_held t') (t_own t') (t_fresh t') p'.
Proof.
  intros HR Hi Hst Hc. pose proof (ru_lock _ _ _ HR) as Hlock. pose proof (ru_rows _ _ _ HR) as Hrows.
  assert (Hsame : forall w', w_db w' = w_db w -> w_objects w' = w_objects w -> w_used w' = w_used w -> w_lock w' = w_lock w ->
    rule W (<[i := mkThread (t_held t) (t_own t) (t_fresh t)]> ts) w').
  { intros w2 ? ? ? ?. apply (rule_same W ts w i t HR Hi w2 (t_held t)); try done. by apply (lock_same ts i t _ w _ Hlock Hi). }
  assert (Hquiet : forall w', w_db w' = w_db w -> w_objects w' = w_objects w -> w_used w' = w_used w -> w_lock w' = w_lock w ->
    careful W (t_held t) (t_own t) (t_fresh t) p' ->
    exists W' t', W ⊆ W' /\ rule W' (<[i := t']> ts) w' /\ careful W' (t_held t') (t_own t') (t_fresh t') p').
  { intros w2 ? ? ? ? Hc'. exists W, (mkThread (t_held t) (t_own t) (t_fresh t)). split_and!; [done|by apply Hsame|done]. }
  assert (Hend : forall w' db, t_held t = Some db -> w_db w' = w_db w -> w_objects w' = w_objects w -> w_used w' = w_used w -> w_lock w' = false ->
    careful W None (t_own t) (t_fresh t) p' ->
    exists W' t', W ⊆ W' /\ rule W' (<[i := t']> ts) w' /\ careful W' (t_held t') (t_own t') (t_fresh t') p').
  { intros w2 db Eh ? ? ? ? Hc'. exists W, (mkThread None (t_own t) (t_fresh t)). split_and!; [done| |done].
    apply (rule_same W ts w i t HR Hi w2 None); try done. by eapply lock_end. }
  destruct Hst as [id k w Hid Hs|t0 k w Ht|k br w|k br w|k br w El|k br w|db k br w|db k br w|k w|key body k w|key body k w
    |from to k w o Ho|from to k w|key k w|key k w|k w|k w|m k w|m k w]; cbn in Hc.
  - exists W, (mkThread (t_held t) (t_own t) ({[ id ]} ∪ t_fresh t)). split_and!; [done|by apply (rule_mint W ts w i t HR Hi)|]. apply Hc; [done|].
    intros Hin. by apply Hid, (ru_fresh _ _ _ HR i t).
  - by apply Hquiet.
  - apply Hquiet; try done. by apply Hc.
  - apply Hquiet; try done. by apply Hc.
  - destruct Hc as (Eh & Hc & _). exists W, (mkThread (Some (w_db w)) (t_own t) (t_fresh t)). split_and!; [done| |by apply Hc].
    apply (rule_same W ts w i t HR Hi _ (Some (w_db w))); try done. by eapply lock_begin.
  - destruct Hc as (Eh & _ & Hc). apply Hquiet; try done. by rewrite Eh.
  - destruct Hc as ((db0 & Eh & Hs) & Hc & _). exists W, (mkThread None ∅ ∅). split_and!; [done|exact (rule_commit W ts w i t HR Hi db0 db Eh Hs)|done].
  - destruct Hc as ((db0 & Eh & _) & _ & Hc). by eapply Hend.
  - destruct Hc as [Hne Hc]. destruct (t_held t) as [db0|] eqn:Eh; [|done]. by eapply Hend.
  - destruct Hc as (id & Hid & Hk & Hc). destruct (fresh_unowned W ts w i t HR Hi id key Hid Hk) as (HWn & Hon & _).
    destruct (Hc HWn Hon) as [Hct _]. destruct (rule_store W ts w i t HR Hi id key body Hid Hk) as [HR' HW].
    exists (<[key := body]> W), (mkThread (t_held t) (<[key := true]> (t_own t)) (t_fresh t ∖ {[ id ]})). done.
  - destruct Hc as (id & Hid & Hk & Hc). destruct (fresh_unowned W ts w i t HR Hi id key Hid Hk) as (HWn & Hon & _).
    destruct (Hc HWn Hon) as [_ Hcf]. exists W, (mkThread (t_held t) (<[key := false]> (t_own t)) (t_fresh t ∖ {[ id ]})).
    split_and!; [done|by apply (rule_spend W ts w i t HR Hi id)|done].
  - destruct Hc as (id & Hid & Hk & Hc). destruct (fresh_unowned W ts w i t HR Hi id to Hid Hk) as (HWn & Hon & _).
    destruct (Hc Hon) as [Hct _]. destruct (rule_store W ts w i t HR Hi id to (o_body o) Hid Hk) as [HR' HW].
    exists (<[to := o_body o]> W), (mkThread (t_held t) (<[to := true]> (t_own t)) (t_fresh t ∖ {[ id ]})).
    split_and!; [done|done|]. apply Hct; [done|by apply HR|done].
  - destruct Hc as (id & Hid & Hk & Hc). destruct (fresh_unowned W ts w i t HR Hi id to Hid Hk) as (_ & Hon & _).
    destruct (Hc Hon) as [_ Hcf]. exists W, (mkThread (t_held t) (<[to := false]> (t_own t)) (t_fresh t ∖ {[ id ]})).
    split_and!; [done|by apply (rule_spend W ts w i t HR Hi id)|done].
  - destruct Hc as [Ho Hc]. exists W, (mkThread (t_held t) (<[key := false]> (t_own t)) (t_fresh t)).
    split_and!; [done|apply (rule_drop W ts w i t HR Hi); auto|apply Hc].
  - destruct Hc as [Ho Hc]. exists W, (mkThread (t_held t) (<[key := false]> (t_own t)) (t_fresh t)).
    split_and!; [done|apply (rule_drop W ts w i t HR Hi); auto|apply Hc].
  - by apply Hquiet.
  - by apply Hquiet.
  - by apply Hquiet.
  - by apply Hquiet.
Qed.

Lemma ruled_step {A} (ps ps' : list (DProg A)) w w' : ruled ps w -> dpstep (ps, w) (ps', w') -> ruled ps' w'.
Proof.
  intros (W & ts & HR & HF) Hs. inversion Hs as [i ps0 p p' w0 w0' Hp Hst E1 E2]; subst. clear Hs.
  destruct (Forall2_lookup_r _ _ _ _ _ HF Hp) as (t & Ht & Hc).
  destruct (careful_call W ts i t p p' w w' HR Ht Hst Hc) as (W' & t' & HW & HR' & Hc'). exists W', (<[i := t']> ts). split; [done|].
  apply Forall2_insert; [|done]. eapply Forall2_impl; [exact HF|]. intros t0 p0 H0'. by eapply careful_mono.
Qed.

Lemma ruled_runs {A} (ps ps' : list (DProg A)) w w' : ruled ps w -> rtc dpstep (ps, w) (ps', w') -> ruled ps' w'.
Proof.
  intros Hr Hs. remember (ps, w) as s eqn:Es. remember (ps', w') as s' eqn:Es'. revert ps w Es Hr.
  induction Hs as [s|s [ps1 w1] s2 Hst _ IH]; intros ps w -> Hr; [by injection Es' as <- <-|].
  apply (IH Es' ps1 w1); [done|]. by eapply ruled_step.
Qed.

(** ** The operations keep the rule *)

(** More keys and ids do no harm. *)
Lemma careful_perm {A} (p : DProg A) : forall W held own own' F F', own ⊆ own' -> F ⊆ F' -> careful W held own F p -> careful W held own' F' p.
Proof.
  induction p as [x|k IH|k IH|k IH br IHb|k IH br IHb|db k IH br IHb|k IH|key body k IH|from to k IH|key k IH|k IH|m k IH];
    cbn; intros W held own own' F F' Ho HF; try done; try (by intros; eapply IH; eauto).
  - intros Hc id Hid Hn. apply (IH id _ _ own _ ({[ id ]} ∪ F)); [done|set_solver|]. apply Hc; [done|set_solver].
  - intros [Hk Hb]. split; [|by eapply IHb]. intros W2 db ? ?. by eapply IH, Hk.
  - intros (? & Hk & Hb). split_and!; [done| |by eapply IHb]. intros W2 db ? ?. by eapply IH, Hk.
  - intros ((db0 & ? & Hs) & Hk & Hb). split_and!; [|done|by eapply IHb]. exists db0. split; [done|]. by eapply bytes_step_own.
  - intros [? Hk]. split; [done|]. by eapply IH.
  - intros (id & ? & ? & Hc). exists id. split_and!; [set_solver|done|]. intros HWn Hon. destruct (Hc HWn (lookup_weaken_None _ _ _ Hon Ho)) as [Ht Hf].
    split; [eapply IH; [| |exact Ht]|eapply IH; [| |exact Hf]]; try (by apply insert_mono); set_solver.
  - intros (id & ? & ? & Hc). exists id. split_and!; [set_solver|done|]. intros Hon. destruct (Hc (lookup_weaken_None _ _ _ Hon Ho)) as [Ht Hf].
    split; [intros W2 body HW2 Hb Hn; eapply IH; [| |by apply Ht]|eapply IH; [| |exact Hf]]; try (by apply insert_mono); set_solver.
  - intros [[b Hb] Hk]. split; [exists b; by eapply lookup_weaken|]. intros ok. eapply IH; [| |apply Hk]; [by apply insert_mono|done].
Qed.

Lemma careful_then {A B} (p : DProg A) (f : A -> DProg B) : (forall W x, careful W None ∅ ∅ (f x)) ->
  forall W held own F, careful W held own F p -> careful W held own F (dbind p f).
Proof.
  intros Hf. induction p as [x|k IH|k IH|k IH br IHb|k IH br IHb|db k IH br IHb|k IH|key body k IH|from to k IH|key k IH|k IH|m k IH];
    cbn; intros W held own F Hc; try (by intros; apply IH); try naive_solver.
  subst held. eapply careful_perm; [| |apply Hf]; [apply map_empty_subseteq|set_solver].
Qed.

Definition owns (own : gmap string bool) (keys : list string) : Prop := Forall (fun k => is_Some (own !! k)) keys.

Lemma careful_discard {A} W held F keys (k : DProg A) : forall own, owns own keys -> (forall own, careful W held own F k) ->
  careful W held own F (discard keys k).
Proof.
  induction keys as [|key keys IH]; intros own Ho Hk; [apply Hk|]. inversion_clear Ho as [|? ? H1' H2']. cbn. split; [done|]. intros _.
  apply IH; [|done]. eapply Forall_impl; [exact H2'|]. intros k0 [b Hb]. cbn. destruct (decide (k0 = key)) as [->|Hne].
  - rewrite lookup_insert_eq. by eexists.
  - rewrite lookup_insert_ne by done. by eexists.
Qed.

Lemma careful_emit {A} W own F tr ms (x : A) : careful W None own F (emitPostAll tr ms x).
Proof. induction ms as [|m ms IH]; cbn; by destruct tr. Qed.

Lemma bytes_step_outbox W own db tr ms db' : bytes_step W own db (with_outbox tr ms db') <-> bytes_step W own db db'.
Proof. unfold with_outbox. by destruct tr. Qed.

Lemma careful_write {A} W own F tr (body : Z -> Z -> DB -> TxOut A) keys : owns own keys ->
  (forall W' now at_ db x ms db', W ⊆ W' -> good W' db -> body now at_ db = TxDone x ms db' -> bytes_step W' own db db') ->
  careful W None own F (write tr body keys).
Proof.
  intros Hk Hs. unfold write. cbn. intros now. split_and!; [done| |by apply careful_discard]. intros W' db HW Hg at_.
  destruct (body now at_ db) as [e|x|x ms db'] eqn:E.
  - apply careful_discard; [done|]. by intros own'.
  - cbn. split; [done|]. by apply careful_discard.
  - cbn. split_and!; [|apply careful_emit|by apply careful_discard]. exists db. split; [done|]. apply bytes_step_outbox. by eapply Hs.
Qed.

(** Transactions that bring no file: every row is an old one, or a directory. *)
Definition same_bytes (db db' : DB) : Prop := (keyed db -> keyed db') /\ forall id r', resources db' !! id = Some r' ->
  (exists id0 r, resources db !! id0 = Some r /\ rKind r = rKind r' /\ ObjectKey r = ObjectKey r' /\ rETag r = rETag r' /\ rSize r = rSize r' /\
     (live r' = true -> live r = true)) \/ (rKind r' = KindDir /\ ObjectKey r' = "").

Lemma same_bytes_step W own db db' : good W db -> same_bytes db db' -> bytes_step W own db db'.
Proof.
  intros [Hk Hg] [Hkk Hs]. split; [by apply Hkk|]. intros id r' Hr' Hl. destruct (Hs id r' Hr') as [(id0 & r & Hr & Ek & Eo & Ee & Es & El)|[Ek Eo]].
  - split; [|intros Hkd; left; exists id0, r; split_and!; [done|congruence|by apply El|done]].
    specialize (Hg _ _ Hr (El Hl)). unfold row_bytes in *. by rewrite <- Ek, <- Eo, <- Ee, <- Es.
  - split; [unfold row_bytes; by rewrite Ek|]. by rewrite Ek.
Qed.

Lemma same_bytes_refl db : same_bytes db db.
Proof. split; [done|]. intros id r Hr. left. by exists id, r. Qed.

Lemma same_bytes_trans db1 db2 db3 : same_bytes db1 db2 -> same_bytes db2 db3 -> same_bytes db1 db3.
Proof.
  intros [K1 H1'] [K2 H2']. split; [auto|]. intros id r3 Hr3. destruct (H2' id r3 Hr3) as [(id2 & r2 & Hr2 & Ek & Eo & Ee & Es & El)|?]; [|by right].
  destruct (H1' id2 r2 Hr2) as [(id1 & r1 & Hr1 & Ek1 & Eo1 & Ee1 & Es1 & El1)|[? ?]]; [left|right; split; congruence].
  exists id1, r1. split_and!; [done|congruence..|auto].
Qed.

Lemma same_bytes_rows db db' : resources db' = resources db -> same_bytes db db'.
Proof. intros E. split; [unfold keyed; by rewrite E|]. intros id r Hr. rewrite E in Hr. left. by exists id, r. Qed.

Lemma same_bytes_update P f db : (forall r, ResourceID (f r) = ResourceID r /\ rKind (f r) = rKind r /\ ObjectKey (f r) = ObjectKey r /\ rETag (f r) = rETag r /\ rSize (f r) = rSize r /\
  (live (f r) = true -> live r = true)) -> same_bytes db (update_where P f db).
Proof.
  intros Hf. split.
  - intros Hk id r'. cbn. rewrite lookup_fmap, fmap_Some. intros (r & Hr & ->). destruct (P r); [rewrite (proj1 (Hf r))|]; by apply Hk.
  - intros id r'. cbn. rewrite lookup_fmap, fmap_Some. intros (r & Hr & ->). left. exists id, r. destruct (P r); [|done].
    destruct (Hf r) as (_ & -> & -> & -> & -> & ?). done.
Qed.

Lemma advance_rows c now db : resources (advance c now db) = resources db.
Proof. unfold advance. by destruct (collections db !! cID c). Qed.

Variable lim : Limits.
Variable tr : bool.

Lemma tombstone_bytes db cid p k token now n bytes db' : tombstoneSubtree db cid p k token now = (n, bytes, db') -> same_bytes db db'.
Proof. intros [= _ _ <-]. by apply same_bytes_update. Qed.

Lemma replace_bytes db c to overwrite now at_ ms c' db' : replaceDestination db c to overwrite now at_ = inl (ms, c', db') -> same_bytes db db'.
Proof.
  unfold replaceDestination. destruct (getResourceQ _ _ _) as [x|]; [|intros [= _ _ <-]; apply same_bytes_refl]. destruct overwrite; [|done].
  cbn [negb]. destruct (tombstoneSubtree _ _ _ _ _ _) as [[n bytes] db1] eqn:E. intros [= _ _ <-]. by eapply tombstone_bytes.
Qed.

Lemma mkdir_bytes cid p id now at_ db x ms db' : mkdir_tx lim cid p id now at_ db = TxDone x ms db' -> same_bytes db db'.
Proof.
  unfold mkdir_tx. destruct (lockCollection db cid) as [c|]; [|done]. destruct (requireParent db cid p); [done|].
  destruct (getResourceQ db cid p); [done|]. destruct (_ && _); [done|]. destruct (insertResource _ db) as [db1|] eqn:Hi; [|done].
  intros [= _ _ <-]. eapply same_bytes_trans; [|apply same_bytes_rows, advance_rows]. apply insertResource_Some in Hi as (_ & _ & ->). split.
  - intros Hk i r Hx. cbn in Hx. apply lookup_insert_Some in Hx as [[<- <-]|[_ Hr]]; [done|by apply Hk].
  - intros i r Hx. cbn in Hx. apply lookup_insert_Some in Hx as [[<- <-]|[_ Hr]]; [by right|left; by exists i, r].
Qed.

Lemma delete_bytes cid find o now at_ db x ms db' : delete_tx cid find o now at_ db = TxDone x ms db' -> same_bytes db db'.
Proof.
  unfold delete_tx. destruct (lockCollection db cid) as [c|]; [|done]. destruct (find db) as [r|]; [|done].
  destruct (checkPreconditions _ _ _ _); [done|]. destruct (tombstoneSubtree _ _ _ _ _ _) as [[n bytes] db1] eqn:E. intros [= _ _ <-].
  apply tombstone_bytes in E. eapply same_bytes_trans; [exact E|]. apply same_bytes_rows, advance_rows.
Qed.

Lemma move_bytes cid from to overwrite now at_ db x ms db' : move_tx cid from to overwrite now at_ db = TxDone x ms db' -> same_bytes db db'.
Proof.
  unfold move_tx. destruct (lockCollection db cid) as [c|]; [|done]. destruct (getResourceQ db cid from) as [src|]; [|done].
  destruct (requireParent db cid to); [done|]. destruct (replaceDestination _ _ _ _ _ _) as [[[rep c1] db1]|] eqn:Hrep; [|done].
  destruct (index_ok cid _); [|done]. destruct (index_ok cid _); [|done]. intros [= _ _ <-]. apply replace_bytes in Hrep.
  eapply same_bytes_trans; [exact Hrep|]. eapply same_bytes_trans; [|apply same_bytes_rows, advance_rows].
  apply same_bytes_trans with (move_below cid from to (rKind src) (SyncToken c1) now db1); [|by apply same_bytes_update].
  unfold move_below. destruct (is_dir _); [by apply same_bytes_update|apply same_bytes_refl].
Qed.

(** An old row, or one whose object the program has just stored. *)
Lemma old_row W (own : gmap string bool) db i r : good W db -> resources db !! i = Some r -> live r = true -> row_bytes W r /\ (rKind r = KindFile ->
    (exists id0 r0, resources db !! id0 = Some r0 /\ rKind r0 = KindFile /\ live r0 = true /\ ObjectKey r0 = ObjectKey r) \/ own !! ObjectKey r = Some true).
Proof. intros [_ Hg] Hr Hl. split; [by eapply Hg|]. intros. left. by exists i, r. Qed.

Lemma put_bytes W (own : gmap string bool) cid p id key body ct opts now at_ db x ms db' :
  W !! key = Some body -> own !! key = Some true -> key <> "" -> good W db ->
  put_tx lim cid p id key (Z.of_nat (slen body)) ct (sha256hex body) opts now at_ db = TxDone x ms db' -> bytes_step W own db db'.
Proof.
  intros HW Ho Hne Hg. pose proof Hg as [Hk Hg']. unfold put_tx. destruct (lockCollection db cid) as [c|]; [|done]. destruct (requireParent db cid p); [done|].
  destruct (getResourceQ db cid p) as [r|] eqn:Hq.
  - destruct (is_dir (rKind r)) eqn:Hdir; [done|]. destruct (checkPreconditions _ _ _ _); [done|]. destruct (_ && _); [done|]. destruct (_ && _); [done|].
    intros [= _ _ <-]. apply (getResourceQ_row _ _ _ _ Hk) in Hq as (Hr & _). split.
    + intros i r'. rewrite advance_rows. cbn. rewrite lookup_fmap, fmap_Some. intros (r0 & Hr0 & ->). destruct (has_id _ r0); exact (Hk _ _ Hr0).
    + intros i r'. rewrite advance_rows. cbn. rewrite lookup_fmap, fmap_Some. intros (r0 & Hr0 & ->).
      destruct (has_id _ r0) eqn:Ei; [|by eapply old_row]. split; [|by right]. unfold has_id in Ei. apply String.eqb_eq in Ei.
      rewrite (Hk _ _ Hr0) in Ei. subst i. rewrite Hr in Hr0. injection Hr0 as <-. unfold row_bytes. cbn. destruct (rKind r); [by exists body|done].
  - destruct (checkPreconditions _ _ _ _); [done|]. destruct (_ && _); [done|]. destruct (_ && _); [done|].
    destruct (insertResource _ db) as [db1|] eqn:Hi; [|done]. intros [= _ _ <-]. apply insertResource_Some in Hi as (_ & _ & ->). split.
    + intros i r Hx. rewrite advance_rows in Hx. cbn in Hx. apply lookup_insert_Some in Hx as [[<- <-]|[_ Hr]]; [done|by apply Hk].
    + intros i r Hx. rewrite advance_rows in Hx. cbn in Hx. apply lookup_insert_Some in Hx as [[<- <-]|[_ Hr]]; [|by eapply old_row].
      split; [|by right]. unfold row_bytes. cbn. by exists body.
Qed.

Lemma put_careful W collID p body size opts : careful W None ∅ ∅ (Put lim tr collID p body size opts).
Proof.
  unfold Put, query. destruct (NormalizePath p) as [q|e]; [|done]. destruct (q =s ""); [done|]. destruct (declared_size _ _); [done|].
  cbn [careful]. split; [|done]. intros W1 db _ _. destruct (GetCollectionByID db collID) as [coll|]; [|done].
  cbn [careful]. split; [|done]. intros W2 db1 _ _. destruct (requireParent db1 collID q); [done|]. cbn [careful]. split; [|done]. intros W3 db2 _ _.
  set (pre := getResourceQ db2 collID q). destruct (match pre with Some r => _ | None => _ end); [done|].
  destruct (checkPreconditions _ _ _ _); [done|]. cbn [careful]. intros id1 Hs1 Hn1 id2 Hs2 Hn2. set (key := objectKey _ _ _ _).
  set (stored := limit_reader _ _). pose proof (objectKey_has (cTenant coll) collID (from_option ResourceID (newResourceID id1) pre) id2 Hs2) as Hkey.
  exists id2. split_and!; [set_solver|exact Hkey|]. intros HWn Hon. split.
  - cbn [negb]. assert (Hown : owns (<[key := true]> ∅) [key]) by (repeat constructor; rewrite lookup_insert_eq; by eexists).
    destruct (refuse_size _ _ _); [by apply careful_discard|]. apply careful_write; [done|]. intros W4 now at_ db3 x ms db' HW Hg.
    apply put_bytes; [|by rewrite lookup_insert_eq|by eapply key_has_ne|done]. eapply lookup_weaken; [|exact HW]. by rewrite lookup_insert_eq.
  - cbn [negb]. apply careful_discard; [|done]. repeat constructor. rewrite lookup_insert_eq. by eexists.
Qed.

(** *** Copies *)

(** A duplicate made for a directory row, or of the object named. *)
Definition cp_ok (W : Bodies) (own : gmap string bool) (cp : copied) : Prop :=
  (newKey cp = "" /\ srcKey cp = "") \/
  (newKey cp <> "" /\ own !! newKey cp = Some true /\ exists body, W !! newKey cp = Some body /\ W !! srcKey cp = Some body).

Lemma cp_ok_mono W W' own own' cp : W ⊆ W' -> own ⊆ own' -> cp_ok W own cp -> cp_ok W' own' cp.
Proof.
  intros HW Ho [?|(Hn & Hk & body & H1' & H2')]; [by left|right]. split_and!; [done|by eapply lookup_weaken|].
  exists body. split; by eapply lookup_weaken.
Qed.

Lemma owns_mono own own' keys : own ⊆ own' -> owns own keys -> owns own' keys.
Proof. intros Ho Hk. eapply Forall_impl; [exact Hk|]. intros k [b Hb]. exists b. by eapply lookup_weaken. Qed.

Lemma key_of_owned W own cp : cp_ok W own cp -> owns own (key_of cp).
Proof.
  unfold key_of. intros [[-> _]|(Hn & Hk & _)]; [by constructor|]. rewrite (proj2 (String.eqb_neq _ _) Hn). repeat constructor. by eexists.
Qed.

Lemma careful_dup {A} tenant collID r held (fail : DProg A) (k : copied -> DProg A) W own F :
  row_bytes W r ->
  (forall own', own ⊆ own' -> careful W held own' ∅ fail) ->
  (forall W' own' cp, W ⊆ W' -> own ⊆ own' -> srcKey cp = ObjectKey r -> cp_ok W' own' cp -> careful W' held own' ∅ (k cp)) ->
  careful W held own F (dup tenant collID r fail k).
Proof.
  intros Hr Hf Hk. unfold dup. cbn [careful]. intros id Hs Hn. unfold row_bytes in Hr. destruct (rKind r) eqn:Ek; cbn [is_dir].
  - cbn [careful]. intros v Hv Hnv. set (key := objectKey _ _ _ _). pose proof (objectKey_has tenant collID (newResourceID id) v Hv) as Hkey.
    exists v. split_and!; [set_solver|done|]. intros Hon. assert (Hoo : forall b, own ⊆ <[key := b]> own) by (intros b; by apply insert_subseteq). split.
    + intros W' body HW Hb HWn. eapply careful_perm; [done|apply empty_subseteq|]. apply Hk; [by trans W'; [|apply insert_subseteq]|done|done|].
      right. split_and!; [by eapply key_has_ne|by rewrite lookup_insert_eq|]. exists body. cbn. rewrite lookup_insert_eq. split; [done|].
      rewrite lookup_insert_ne; [done|]. intros E. rewrite <- E in Hb. congruence.
    + eapply careful_perm; [done|apply empty_subseteq|]. by apply Hf.
  - eapply careful_perm; [done|apply empty_subseteq|]. apply Hk; [done|done|done|]. by left.
Qed.

Definition copies_ok (W : Bodies) (own : gmap string bool) (copies : gmap string copied) : Prop :=
  forall i cp, copies !! i = Some cp -> cp_ok W own cp.

Lemma copies_ok_mono W W' own own' copies : W ⊆ W' -> own ⊆ own' -> copies_ok W own copies -> copies_ok W' own' copies.
Proof. intros HW Ho Hc i cp Hi. eapply cp_ok_mono; [done|done|by eapply Hc]. Qed.

Lemma owns_app own k1 k2 : owns own k1 -> owns own k2 -> owns own (k1 ++ k2).
Proof. apply Forall_app_2. Qed.

Lemma rows_mono W W' rows : W ⊆ W' -> Forall (row_bytes W) rows -> Forall (row_bytes W') rows.
Proof. intros HW Hr. eapply Forall_impl; [exact Hr|]. intros r. by apply row_bytes_mono. Qed.

Lemma careful_dup_all {A} tenant collID rows (k : gmap string copied -> list string -> DProg (A + DErr)) : forall W own copies keys,
  Forall (row_bytes W) rows -> owns own keys -> copies_ok W own copies ->
  (forall W' own' copies' keys', W ⊆ W' -> own ⊆ own' -> owns own' keys' -> copies_ok W' own' copies' -> careful W' None own' ∅ (k copies' keys')) ->
  careful W None own ∅ (dup_all tenant collID rows copies keys k).
Proof using.
  induction rows as [|r rows IH]; intros W own copies keys Hr Ho Hc Hk; cbn [dup_all]; [by apply Hk|]. apply Forall_cons in Hr as [Hr Hrs].
  apply careful_dup; [done| |].
  - intros own' Hoo. apply careful_discard; [by eapply owns_mono|done].
  - intros W' own' cp HW Hoo Hsrc Hcp. apply IH.
    + by eapply rows_mono.
    + apply owns_app; [by eapply owns_mono|by eapply key_of_owned].
    + intros i cp' Hx. apply lookup_insert_Some in Hx as [[<- <-]|[_ Hx]]; [done|]. eapply cp_ok_mono; [done|done|by eapply Hc].
    + intros W2 own2 copies2 keys2 ? ?. apply Hk; by etrans.
Qed.

Lemma bytes_step_more W W' own own' db db' : W ⊆ W' -> own ⊆ own' -> bytes_step W own db db' -> bytes_step W' own' db db'.
Proof using. intros HW Ho Hs. eapply bytes_step_mono; [exact HW|]. by eapply bytes_step_own. Qed.

Lemma copy_row_bytes W own collID from to cp token now r : row_bytes W r -> cp_ok W own cp -> srcKey cp = ObjectKey r ->
  let row := copy_row collID from to cp token now r in row_bytes W row /\ (rKind row = KindFile -> own !! ObjectKey row = Some true).
Proof using.
  intros Hr Hcp Hs. unfold row_bytes in *. cbn. destruct (rKind r) eqn:Ek; cbn; [|done]. destruct Hr as (body & Hb & Hh & Hn & Hne).
  destruct Hcp as [[_ E]|(Hne' & Ho & body' & Hb' & Hs')]; [congruence|]. split; [|done]. exists body'. rewrite Hs in Hs'. rewrite Hb in Hs'. injection Hs' as <-. done.
Qed.

(** The row of a copy joins an index that keeps the rule. *)
Lemma bytes_step_insert W own db00 r db db' : bytes_step W own db00 db -> row_bytes W r -> (rKind r = KindFile -> own !! ObjectKey r = Some true) ->
  insertResource r db = Some db' -> bytes_step W own db00 db'.
Proof using.
  intros [Hk Hs] Hr Ho (_ & _ & ->)%insertResource_Some. split.
  - intros i r' Hx. cbn in Hx. apply lookup_insert_Some in Hx as [[<- <-]|[_ Hx]]; [done|by apply Hk].
  - intros i r' Hx. cbn in Hx. apply lookup_insert_Some in Hx as [[<- <-]|[_ Hx]]; [|by apply (Hs i)]. intros _. split; [done|]. intros ?. right. by apply Ho.
Qed.

Lemma careful_copy_rows {A} tenant collID from to token now copies db00 (k : list (Resource * Resource) -> list string -> DB -> DProg (A + DErr)) rows :
  forall W own keys made db,
  Forall (row_bytes W) rows -> owns own keys -> copies_ok W own copies -> bytes_step W own db00 db ->
  (forall W' own' made' keys' db', W ⊆ W' -> own ⊆ own' -> owns own' keys' -> bytes_step W' own' db00 db' -> careful W' (Some db00) own' ∅ (k made' keys' db')) ->
  careful W (Some db00) own ∅ (copy_rows tenant collID from to token now copies rows keys made db k).
Proof using.
  induction rows as [|r rows IH]; intros W own keys made db Hr Ho Hc Hs Hk; cbn [copy_rows]; [by apply Hk|]. apply Forall_cons in Hr as [Hr Hrs].
  assert (Hplace : forall W' own' cp keys', W ⊆ W' -> own ⊆ own' -> owns own' keys' -> cp_ok W' own' cp -> srcKey cp = ObjectKey r ->
    careful W' (Some db00) own' ∅
      (match insertResource (copy_row collID from to cp token now r) db with
       | Some db => copy_rows tenant collID from to token now copies rows keys' (made ++ [(r, copy_row collID from to cp token now r)])%list db k
       | None => DRollback (discard keys' (DRet (inr ErrExists)))
       end)).
  { intros W' own' cp keys' HW Hoo Ho' Hcp Hsrc. destruct (insertResource _ db) as [db'|] eqn:Hi; [|cbn; split; [done|by apply careful_discard]].
    destruct (copy_row_bytes W' own' collID from to cp token now r) as [Hrow Hown]; [by eapply row_bytes_mono|done|done|].
    apply IH; [by eapply rows_mono|done|by eapply copies_ok_mono| |].
    - eapply bytes_step_insert; [by eapply bytes_step_more|exact Hrow|exact Hown|done].
    - intros W2 own2 made2 keys2 db2 ? ?. apply Hk; by etrans. }
  assert (Hdup : careful W (Some db00) own ∅ (dup tenant collID r (DRollback (discard keys (DRet (inr ErrStored))))
    (fun cp => match insertResource (copy_row collID from to cp token now r) db with
     | Some db => copy_rows tenant collID from to token now copies rows (keys ++ key_of cp)%list (made ++ [(r, copy_row collID from to cp token now r)])%list db k
     | None => DRollback (discard (keys ++ key_of cp)%list (DRet (inr ErrExists)))
     end))).
  { apply careful_dup; [done| |].
    - intros own' Hoo. cbn. split; [done|]. apply careful_discard; [by eapply owns_mono|done].
    - intros W' own' cp HW Hoo Hsrc Hcp. apply Hplace; try done. apply owns_app; [by eapply owns_mono|by eapply key_of_owned]. }
  destruct (copies !! ResourceID r) as [cp|] eqn:Ecp; [|apply Hdup]. destruct (String.eqb_spec (srcKey cp) (ObjectKey r)) as [E|_]; [|apply Hdup].
  apply Hplace; try done. by eapply Hc.
Qed.

Lemma select_bytes W db P : (forall r, P r = true -> live r = true) -> good W db -> Forall (row_bytes W) (select P db).
Proof using. intros HP [_ Hg]. apply Forall_forall. intros r [HPr (id & Hid)]%elem_of_select. eapply Hg; [exact Hid|by apply HP]. Qed.

Lemma below_live cid p r : below cid p r = true -> live r = true.
Proof using. unfold below. by intros [[_ ?]%andb_true_iff _]%andb_true_iff. Qed.

Lemma listed_live cid p q r : list_where cid p (mkListOpts q true 0 false 0 "") r = true -> live r = true.
Proof using. unfold list_where. cbn. by intros [[[_ ?]%andb_true_iff _]%andb_true_iff _]%andb_true_iff. Qed.

Lemma found_bytes W db cid p r : good W db -> getResourceQ db cid p = Some r -> row_bytes W r.
Proof using. intros [Hk Hg] Hq. apply (getResourceQ_row _ _ _ _ Hk) in Hq as (Hr & _ & _ & Hl). by eapply Hg. Qed.

Lemma bytes_step_trans W own db db1 db2 : bytes_step W own db db1 -> resources db2 = resources db1 -> bytes_step W own db db2.
Proof using. unfold bytes_step, keyed. by intros [? ?] ->. Qed.

Lemma careful_copy_write W own tenant srcID from collID to overwrite snapshot :
  Forall (row_bytes W) snapshot -> careful W None own ∅ (copy_write lim tr tenant srcID from collID to overwrite snapshot).
Proof using.
  intros Hsnap. unfold copy_write. eapply careful_perm; [apply map_empty_subseteq|done|].
  apply careful_dup_all; [done|by constructor|intros i cp; by rewrite lookup_empty|]. intros W1 own1 copies keys HW1 _ Hown Hcopies.
  cbn [careful]. intros now. split_and!; [done| |by apply careful_discard]. intros W2 db HW2 Hg at_.
  destruct (copy_plan _ _ _ _ _ _ _ _ _) as [[[[[src rows] replaced] c] db1]|e] eqn:Hplan.
  2:{ cbn. split; [done|]. by apply careful_discard. }
  apply copy_plan_inl in Hplan as (c0 & _ & Hsrc & _ & -> & Hrep). apply replace_bytes in Hrep.
  apply careful_copy_rows.
  - constructor; [by eapply found_bytes|]. destruct (is_dir _); [apply select_bytes; [apply below_live|done]|by constructor].
  - done.
  - eapply copies_ok_mono; [|done|exact Hcopies]. done.
  - by apply same_bytes_step.
  - intros W3 own3 made keys3 db3 HW3 _ Hown3 Hs3. cbn [careful]. split_and!; [|apply careful_emit|by apply careful_discard].
    exists db. split; [done|]. apply bytes_step_outbox. eapply bytes_step_trans; [exact Hs3|]. apply advance_rows.
Qed.

Lemma careful_snapshot W tenant srcID from collID to overwrite : careful W None ∅ ∅ (copy_snapshot lim tr tenant srcID from collID to overwrite).
Proof using.
  unfold copy_snapshot, query. cbn [careful]. split; [|done]. intros W1 db1 HW1 Hg1. destruct (getResourceQ db1 srcID from) as [root|] eqn:Hroot; [|done].
  pose proof (found_bytes _ _ _ _ _ Hg1 Hroot) as Hrb. cbn [careful]. split; [|done]. intros W2 db2 HW2 _. destruct (requireParent db2 collID to); [done|].
  destruct (is_dir (rKind root)).
  - cbn [careful]. split; [|done]. intros W3 db3 HW3 Hg3. apply careful_copy_write. constructor; [eapply row_bytes_mono; [|exact Hrb]; by trans W2|].
    change (list_rows srcID from (mkListOpts from true 0 false 0 "") db3) with (select (list_where srcID from (mkListOpts from true 0 false 0 "")) db3).
    apply select_bytes; [apply listed_live|done].
  - apply careful_copy_write. constructor; [by eapply row_bytes_mono|constructor].
Qed.

Lemma careful_copy W srcID from collID to overwrite : careful W None ∅ ∅ (copyBetween lim tr srcID from collID to overwrite).
Proof using.
  unfold copyBetween, query. cbn [careful]. split; [|done]. intros W0 db0 _ _. destruct (GetCollectionByID db0 collID) as [coll|]; [|done].
  destruct (srcID =s collID); [apply careful_snapshot|]. cbn [careful]. split; [|done]. intros W1 db1 _ _.
  destruct (GetCollectionByID db1 srcID) as [sc|]; [|done]. destruct (_ =s _); [apply careful_snapshot|done].
Qed.

(** *** Collections *)

Lemma ensure_bytes tenant name id now db c created db' : ensureCollectionOnce tenant name id now db = Some (c, created, db') -> same_bytes db db'.
Proof using.
  unfold ensureCollectionOnce, insertCollection. destruct (GetCollection db tenant name); [intros [= _ _ <-]; apply same_bytes_refl|].
  cbn. destruct (collections db !! id); [done|]. destruct (GetCollection db tenant name); [done|]. intros [= _ _ <-]. by apply same_bytes_rows.
Qed.

Lemma ensure_careful W own F n tenant name : careful W None own F (ensure_attempts n tenant name).
Proof using.
  revert W own F. induction n as [|n IH]; intros W own F; cbn; intros now; (split_and!; [done| |done]); intros W' db _ Hg id Hs Hn;
    (destruct (ensureCollectionOnce _ _ _ _ _) as [[[c created] db']|] eqn:E; cbn; [|by split]);
    (split_and!; [|done..]); exists db; (split; [done|]); apply same_bytes_step; try done; by eapply ensure_bytes.
Qed.

Lemma update_careful W tenant name f : careful W None ∅ ∅ (update_named tenant name f).
Proof using.
  unfold update_named. cbn. intros now. split_and!; [done| |done]. intros W' db _ Hg.
  destruct (GetCollection db tenant name) as [c|]; cbn; [|done]. split_and!; try done. exists db. split; [done|].
  apply same_bytes_step; [done|]. by apply same_bytes_rows.
Qed.

Lemma drop_bytes tenant name force now at_ db x ms db' : delete_collection_tx tenant name force now at_ db = TxDone x ms db' -> same_bytes db db'.
Proof using.
  unfold delete_collection_tx. destruct (GetCollection db tenant name) as [c|]; [|done]. destruct (_ && _); [done|]. intros [= _ _ <-].
  eapply same_bytes_trans; [|by apply same_bytes_rows]. by apply same_bytes_update.
Qed.

(** *** Callers *)

Definition no_sweep (retention : Z) : Prop := False.

Lemma write_careful {A} W (body : Z -> Z -> DB -> TxOut A) :
  (forall now at_ db x ms db', body now at_ db = TxDone x ms db' -> same_bytes db db') -> careful W None ∅ ∅ (write tr body []).
Proof using. intros Hb. apply careful_write; [by constructor|]. intros W' now at_ db x ms db' _ Hg E. apply same_bytes_step; [done|]. by eapply Hb. Qed.

Lemma op_careful fit W A (p : DProg A) : drive_op lim tr fit no_sweep A p -> careful W None ∅ ∅ p.
Proof using.
  intros [collID q body size opts|collID q|collID q|collID id|collID o|collID q o|collID id o|collID f t ov Hfit|collID f t ov|
    s f d t ov|tn nm|tn nm po|tn nm l|tn nm force|g r []].
  - apply put_careful.
  - unfold Mkdir. destruct (NormalizePath q) as [q'|]; [|done]. destruct (q' =s ""); [done|]. cbn [careful]. intros id _ _.
    eapply careful_perm; [done|apply empty_subseteq|]. apply write_careful. intros. by eapply mkdir_bytes.
  - unfold Stat, query. destruct (NormalizePath q) as [q'|]; [|done]. by destruct (q' =s "").
  - unfold StatByID, query. by destruct (id =s "").
  - unfold List_, query. by destruct (NormalizePath _).
  - unfold Delete. destruct (NormalizePath q) as [q'|]; [|done]. destruct (q' =s ""); [done|]. apply write_careful. intros. by eapply delete_bytes.
  - apply write_careful. intros. by eapply delete_bytes.
  - unfold Move. destruct (checkMoveCopyPaths f t) as [[f' t']|[]]; [|done..]. apply write_careful. intros. by eapply move_bytes.
  - unfold Copy. destruct (checkMoveCopyPaths f t) as [[f' t']|[]]; [|done..]. apply careful_copy.
  - unfold CopyAcross, Copy. destruct (s =s d); [destruct (checkMoveCopyPaths f t) as [[f' t']|[]]; [apply careful_copy|done..]|].
    destruct (NormalizePath f); [|done]. destruct (NormalizePath t); [|done]. destruct (_ || _); [done|]. apply careful_copy.
  - unfold EnsureCollection. destruct (tn =s ""); [done|]. destruct (negb _); [done|]. apply ensure_careful.
  - unfold SetCollectionPolicy. destruct (negb _); [done|]. apply update_careful.
  - unfold SetCollectionLinks. destruct (negb _); [done|]. apply update_careful.
  - apply write_careful. intros. by eapply drop_bytes.
Qed.

Lemma caller_careful fit p : caller lim tr fit no_sweep p -> forall W, careful W None ∅ ∅ p.
Proof using. induction 1 as [|A p k Hop _ IH]; intros W; [done|]. apply careful_then; [intros W' x; apply IH|]. by eapply op_careful. Qed.

(** Every live file has its object, of the sha256 and the size its row says. *)
Definition has_bytes (db : DB) (objects : gmap string Object) : Prop := forall id r, resources db !! id = Some r -> live r = true -> rKind r = KindFile ->
  exists o, objects !! ObjectKey r = Some o /\ sha256hex (o_body o) = rETag r /\ Z.of_nat (slen (o_body o)) = rSize r.

(** A store as the operations leave it: besides, no directory names an object,
    and every object is stored under an id that was minted. *)
Record sound_store (w : World) : Prop := {
  so_keyed : keyed (w_db w);
  so_bytes : has_bytes (w_db w) (w_objects w);
  so_dirs : forall id r, resources (w_db w) !! id = Some r -> live r = true -> rKind r = KindDir -> ObjectKey r = "";
  so_used : forall key o, w_objects w !! key = Some o -> exists id, id ∈ w_used w /\ key_has key id }.

Lemma rule_sound W ts w : rule W ts w -> sound_store w.
Proof using.
  intros HR. pose proof (ru_rows _ _ _ HR) as [Hk Hg]. split; [done| | |].
  - intros id r Hr Hl Hkd. destruct (ru_live _ _ _ HR id r Hr Hkd Hl) as [o Ho]. exists o. split; [done|].
    pose proof (Hg id r Hr Hl) as Hb. unfold row_bytes in Hb. rewrite Hkd in Hb. destruct Hb as (body & Hb & ? & ? & _).
    rewrite (ru_obj _ _ _ HR _ _ Ho) in Hb. by injection Hb as <-.
  - intros id r Hr Hl Hkd. specialize (Hg id r Hr Hl). unfold row_bytes in Hg. by rewrite Hkd in Hg.
  - intros key o Ho. eapply (ru_used _ _ _ HR). by eapply (ru_obj _ _ _ HR).
Qed.

Lemma sound_ruled fit (ps : list (DProg unit)) w :
  Forall (caller lim tr fit no_sweep) ps -> w_lock w = false -> sound_store w -> ruled ps w.
Proof using.
  intros Hps Hlock [Hk Hb Hd Hu]. exists (o_body <$> w_objects w), (replicate (length ps) (mkThread None ∅ ∅)).
  assert (Hts : forall j t, replicate (length ps) (mkThread None ∅ ∅) !! j = Some t -> t = mkThread None ∅ ∅) by by intros j t [-> _]%lookup_replicate.
  split.
  - split.
    + intros key o Ho. by rewrite lookup_fmap, Ho.
    + intros key body. rewrite lookup_fmap, fmap_Some. intros (o & Ho & _). by eapply Hu.
    + split; [done|]. intros id r Hr Hl. unfold row_bytes. destruct (rKind r) eqn:Hkd; [|by eapply Hd].
      destruct (Hb id r Hr Hl Hkd) as (o & Ho & ? & ?). exists (o_body o). rewrite lookup_fmap, Ho. split_and!; try done.
      destruct (Hu _ _ Ho) as (id' & _ & Hid'). by eapply key_has_ne.
    + intros id r Hr Hkd Hl. destruct (Hb id r Hr Hl Hkd) as (o & Ho & _). by exists o.
    + unfold lock_ok. rewrite Hlock. intros j t Hj. by rewrite (Hts j t Hj).
    + intros j t key b Hj. by rewrite (Hts j t Hj).
    + intros j t id Hj. rewrite (Hts j t Hj). cbn. set_solver.
    + intros j j' t t' _ Hj Hj'. rewrite (Hts j t Hj), (Hts j' t' Hj'). by split.
  - clear Hts. induction Hps as [|p ps Hp _ IH]; cbn; constructor; [|exact IH]. by eapply caller_careful.
Qed.
End Bytes.

(** C12: Never a row without bytes.  Whatever programs any number of callers run
    (every operation but [Sweep]), interleaved call by call, with any database
    or object-store call failing at any point, commits included: if every live
    file of the index has its object, with the sha256 its etag says and the size
    its row says, then so it is at every moment of every run.  No put, copy or
    clean-up of one caller takes or overwrites an object another's row names. *)
Theorem never_row_without_bytes `{Unicode} `{Collation} `{Platform} (lim : Limits) (tr : bool) (fit : string -> string -> Prop)
    (ps ps' : list (DProg unit)) (w w' : World)
    (Hps : Forall (caller lim tr fit no_sweep) ps) (Hlock : w_lock w = false) (Hs : sound_store w)
    (Hrun : rtc dpstep (ps, w) (ps', w')) : sound_store w'.
Proof.
  destruct (ruled_runs ps ps' w w' (sound_ruled lim tr fit ps w Hps Hlock Hs) Hrun) as (W & ts & HR & _). by eapply rule_sound.
Qed.
