(* ===== verification/DriveEvents.v ===== *)
(** * Drive: the event stream

    A transactional sink writes each mutation's events in the mutation's own
    transaction.  A consumer that indexes files and only reads these events, a
    directory's move or delete included, holds exactly the live files. *)

From Stdlib Require Import Ascii String ZArith Lia Bool.
From stdpp Require Import base tactics list strings gmap sorting relations.
From S2P Require Import Prelude GoStrings GoJson GoPath Opname DrivePath Drive DriveRows DriveTxn DriveTree DriveInv DriveSync.

#[local] Open Scope string_scope.

(** ** The consumer *)

(** What an indexer keeps of a file: its collection, path, etag, size and type. *)
Record FileInfo := mkInfo { fColl : string; fPath : string; fETag : string; fSize : Z; fType : string }.

Definition file_info (r : Resource) : FileInfo := mkInfo (CollectionID r) (Path r) (rETag r) (rSize r) (rType r).
Definition event_info (m : Mutation) : FileInfo := mkInfo (mCollID m) (mPath m) (mETag m) (mSize m) (mType m).

(** What an event says of its resource; directories are nothing to index. *)
Definition told (m : Mutation) : option FileInfo :=
  match mEvent m with EventResourceDeleted => None | _ => Some (event_info m) end.
Definition apply_event (seen : gmap string FileInfo) (m : Mutation) : gmap string FileInfo :=
  if is_dir (mKind m) then seen else partial_alter (fun _ => told m) (mID m) seen.

(** The live file under an id. *)
Definition shown (m : Rows) (id : string) : option FileInfo :=
  match m !! id with Some r => if live r && is_file r then Some (file_info r) else None | None => None end.

(** [seen] is right about collection [cid]. *)
Definition mirrors (cid : string) (seen : gmap string FileInfo) (m : Rows) : Prop :=
  forall id v, fColl v = cid -> seen !! id = Some v <-> shown m id = Some v.

Definition file_event (m : Mutation) : Prop := mKind m = KindFile.

Lemma replay_lookup ms : forall seen, NoDup (mID <$> ms) ->
  (forall m, m ∈ ms -> file_event m -> foldl apply_event seen ms !! mID m = told m) /\
  (forall id, (forall m, m ∈ ms -> file_event m -> mID m <> id) -> foldl apply_event seen ms !! id = seen !! id).
Proof.
  induction ms as [|m0 ms IH]; intros seen Hnd; [split; [by intros m ?%elem_of_nil|done]|].
  cbn in Hnd. apply NoDup_cons in Hnd as [Hn Hnd]. destruct (IH (apply_event seen m0) Hnd) as [IH1 IH2]. cbn [foldl]. split.
  - intros m [->|Hin]%elem_of_cons Hf; [|by apply IH1]. rewrite IH2.
    + unfold apply_event. rewrite Hf. cbn. by rewrite lookup_partial_alter_eq.
    + intros m1 Hin _ E. apply Hn. rewrite <- E. by apply list_elem_of_fmap_2.
  - intros id Hne. rewrite IH2 by (intros m Hin; apply Hne; by right). unfold apply_event. destruct (mKind m0) eqn:Hk; [|done]. cbn.
    rewrite lookup_partial_alter_ne; [done|]. apply Hne; [left|done].
Qed.

(** ** Events that tell what changed *)

(** [ms], all of collection [cid] at [token] and of distinct rows, say what
    became of every file that changed from [m] to [m']. *)
Record tells (cid : string) (token : Z) (ms : list Mutation) (m m' : Rows) : Prop := {
  te_ids : NoDup (mID <$> ms);
  te_rows : forall e, e ∈ ms -> mCollID e = cid /\ mSeq e = token /\ exists r, m' !! mID e = Some r /\ CollectionID r = cid;
  te_files : forall e, e ∈ ms -> file_event e -> shown m' (mID e) = told e;
  te_rest : forall id, (forall e, e ∈ ms -> file_event e -> mID e <> id) -> shown m' id = shown m id }.

Lemma tells_nil cid token m : tells cid token [] m m.
Proof. split; [constructor|by intros e ?%elem_of_nil|by intros e ?%elem_of_nil|done]. Qed.

Lemma tells_app cid token ms1 ms2 m m1 m2 :
  tells cid token ms1 m m1 -> tells cid token ms2 m1 m2 ->
  (forall e1 e2, e1 ∈ ms1 -> e2 ∈ ms2 -> mID e1 <> mID e2) ->
  (forall id r, m1 !! id = Some r -> exists r', m2 !! id = Some r' /\ CollectionID r' = CollectionID r) ->
  tells cid token (ms1 ++ ms2) m m2.
Proof.
  intros [I1 R1 F1 O1] [I2 R2 F2 O2] Hd Hp. split.
  - rewrite fmap_app. apply NoDup_app. split_and!; [done| |done]. intros id (e1 & -> & H1)%list_elem_of_fmap (e2 & E & H2)%list_elem_of_fmap.
    by apply (Hd e1 e2).
  - intros e [He|He]%elem_of_app; [|by apply R2]. destruct (R1 e He) as (? & ? & r & Hr & Hc). split_and!; [done..|].
    destruct (Hp _ _ Hr) as (r' & Hr' & E). exists r'. split; [done|congruence].
  - intros e [He|He]%elem_of_app Hf; [|by apply F2]. rewrite <- (F1 e He Hf). apply O2. intros e2 He2 _ E. by apply (Hd e e2).
  - intros id Hne. rewrite O2 by (intros e He; apply Hne, elem_of_app; by right). apply O1. intros e He. apply Hne, elem_of_app. by left.
Qed.

Lemma mirrors_step cid0 cid token ms m m' seen :
  tells cid token ms m m' -> mirrors cid0 seen m -> mirrors cid0 (foldl apply_event seen ms) m'.
Proof.
  intros [Hi _ Hf Ho] Hm id v Hv. destruct (replay_lookup ms seen Hi) as [R1 R2].
  destruct (decide (Exists (fun e => file_event e /\ mID e = id) ms)) as [(e & He & Hfe & <-)%Exists_exists|Hn].
  - by rewrite (R1 e He Hfe), (Hf e He Hfe).
  - assert (Hne : forall e, e ∈ ms -> file_event e -> mID e <> id).
    { intros e He Hfe E. apply Hn, Exists_exists. by exists e. }
    rewrite (R2 id Hne), (Ho id Hne). by apply Hm.
Qed.

(** ** The events the code builds *)

Lemma NoDup_filtered {A} (f : A -> string) (P : A -> Prop) `{forall x, Decision (P x)} l : NoDup (f <$> l) -> NoDup (f <$> filter P l).
Proof.
  induction l as [|x l IH]; [done|]. rewrite fmap_cons, filter_cons. intros [Hn Hnd]%NoDup_cons. destruct (decide (P x)); [|by apply IH].
  rewrite fmap_cons. apply NoDup_cons. split; [|by apply IH]. intros (y & Ey & [_ Hy]%list_elem_of_filter)%list_elem_of_fmap. apply Hn. rewrite Ey. by apply list_elem_of_fmap_2.
Qed.

Lemma elem_of_below_files e c rows at_ m : m ∈ below_files e c rows at_ <-> exists r, m = fileMutation e c r at_ /\ rKind r = KindFile /\ r ∈ rows.
Proof.
  unfold below_files. rewrite list_elem_of_fmap. split.
  - intros (r & -> & [Hf Hr]%list_elem_of_filter). exists r. split_and!; [done| |done]. unfold is_file in Hf. by destruct (rKind r).
  - intros (r & -> & Hk & Hr). exists r. split; [done|]. apply list_elem_of_filter. split; [|done]. unfold is_file. by rewrite Hk.
Qed.

Lemma ids_below_files e c rows at_ : mID <$> below_files e c rows at_ = ResourceID <$> filter (fun r => is_file r = true) rows.
Proof. unfold below_files. by rewrite <- list_fmap_compose. Qed.

(** A row and the rows a statement selects: the ids of its events. *)
Lemma NoDup_root_and_files id (rows : list Resource) : NoDup (ResourceID <$> rows) -> (forall r, r ∈ rows -> ResourceID r <> id) ->
  NoDup (id :: (ResourceID <$> filter (fun r => is_file r = true) rows)).
Proof.
  intros Hnd Hne. apply NoDup_cons. split; [|by apply NoDup_filtered]. intros (r & -> & [_ Hr]%list_elem_of_filter)%list_elem_of_fmap. by apply (Hne r Hr).
Qed.

Section Told.
Context `{Unicode} `{Collation} `{Platform}.

(** The rows a directory's events are about. *)
Definition rows_below (k : Kind) (db : DB) (cid p : string) : list Resource := if is_dir k then listQ db cid p else [].

Lemma elem_of_rows_below k db cid p r : r ∈ rows_below k db cid p <-> k = KindDir /\ below cid p r = true /\ exists id, resources db !! id = Some r.
Proof using. unfold rows_below. destruct k; cbn; [rewrite elem_of_nil; naive_solver|]. unfold listQ. rewrite elem_of_select. naive_solver. Qed.

Lemma rows_below_ids k db cid p : keyed db -> NoDup (ResourceID <$> rows_below k db cid p).
Proof using. intros Hk. unfold rows_below. destruct (is_dir k); [by apply select_ids|constructor]. Qed.

Lemma rows_below_other k db cid x r : keyed db -> resources db !! ResourceID x = Some x -> r ∈ rows_below k db cid (Path x) -> ResourceID r <> ResourceID x.
Proof using.
  intros Hk Hx (_ & Hb & id & Hr)%elem_of_rows_below E. rewrite (Hk _ _ Hr) in E. subst id. rewrite Hx in Hr. injection Hr as <-.
  unfold below in Hb. apply andb_true_iff in Hb as [_ Hb]. apply below_longer in Hb. lia.
Qed.

Lemma below_coll cid p r : below cid p r = true -> CollectionID r = cid /\ live r = true.
Proof using. unfold below. rewrite !andb_true_iff, String.eqb_eq. tauto. Qed.

Lemma tells_tombstone db cid x c token now at_ n bytes db' :
  keyed db -> tree (resources db) cid -> resources db !! ResourceID x = Some x -> live_in cid x = true -> cID c = cid -> SyncToken c = token ->
  tombstoneSubtree db cid (Path x) (rKind x) token now = (n, bytes, db') ->
  tells cid token (deleted_events c x (rows_below (rKind x) db cid (Path x)) at_) (resources db) (resources db') /\
  forall e, e ∈ deleted_events c x (rows_below (rKind x) db cid (Path x)) at_ -> exists r, resources db' !! mID e = Some r /\ live r = false.
Proof using.
  intros Hk Ht Hx Hl Ec Et [= _ _ <-]. set (P := subtree cid (Path x) (rKind x)). set (rows := rows_below (rKind x) db cid (Path x)).
  assert (Hrow : forall id r, resources db !! id = Some r -> resources (update_where P (setrow_tomb now token) db) !! id = Some (if P r then setrow_tomb now token r else r)).
  { intros id r Hr. cbn. by rewrite lookup_fmap, Hr. }
  assert (HPx : P x = true).
  { apply live_in_spec in Hl as [Hc Hv]. unfold P, subtree, at_path. by rewrite Hc, Hv, !String.eqb_refl. }
  assert (HPb : forall r, r ∈ rows -> P r = true /\ CollectionID r = cid /\ live r = true /\ resources db !! ResourceID r = Some r).
  { intros r (Hd & Hb & id & Hr)%elem_of_rows_below. destruct (below_coll _ _ _ Hb) as [? ?]. rewrite (Hk _ _ Hr).
    split_and!; try done. unfold P, subtree. by rewrite Hd, Hb, orb_true_r. }
  assert (Hgone : forall id r, resources db !! id = Some r -> P r = true -> shown (resources (update_where P (setrow_tomb now token) db)) id = None).
  { intros id r Hr HP. unfold shown. by rewrite (Hrow _ _ Hr), HP. }
  split; [split|].
  - unfold deleted_events. cbn [fmap list_fmap mID mutation]. rewrite ids_below_files.
    apply NoDup_root_and_files; [by apply rows_below_ids|]. intros r Hr. by eapply rows_below_other.
  - intros e [->|(r & -> & _ & Hr)%elem_of_below_files]%elem_of_cons.
    + split_and!; [done|done|]. eexists. split; [by apply Hrow|]. rewrite HPx. by apply live_in_spec in Hl as [? _].
    + destruct (HPb r Hr) as (HP & Hc & _ & Hr0). split_and!; [done|done|]. eexists. split; [by apply Hrow|]. by rewrite HP.
  - intros e [->|(r & -> & _ & Hr)%elem_of_below_files]%elem_of_cons _; cbn; [by apply (Hgone _ x)|].
    destruct (HPb r Hr) as (HP & _ & _ & Hr0). by apply (Hgone _ r).
  - intros id Hne. unfold shown at 2. destruct (resources db !! id) as [r|] eqn:Hr; [|unfold shown; cbn; by rewrite lookup_fmap, Hr].
    destruct (P r) eqn:HP; [|unfold shown; by rewrite (Hrow _ _ Hr), HP]. rewrite (Hgone _ _ Hr HP). pose proof HP as Hlr%subtree_live.
    destruct (live r && is_file r) eqn:Hf; [|done]. exfalso. apply andb_true_iff in Hf as [_ Hf]. assert (Hkf : rKind r = KindFile) by (unfold is_file in Hf; by destruct (rKind r)).
    unfold P, subtree in HP. apply orb_true_iff in HP as [HP|[Hd HP]%andb_true_iff].
    + unfold at_path in HP. rewrite !andb_true_iff, !String.eqb_eq in HP. destruct HP as [[_ Hp] _].
      assert (id = ResourceID x) as -> by (eapply (t_unique _ _ Ht); eauto). rewrite Hx in Hr. injection Hr as <-.
      by eapply Hne; [left| |].
    + eapply (Hne (fileMutation EventResourceDeleted c r at_)); [right|done|cbn; by apply Hk]. apply elem_of_below_files. exists r. split_and!; [done..|].
      apply elem_of_rows_below. split_and!; [by destruct (rKind x)|done|eauto].
  - intros e [->|(r & -> & _ & Hr)%elem_of_below_files]%elem_of_cons.
    + eexists. split; [by apply Hrow|]. by rewrite HPx.
    + destruct (HPb r Hr) as (HP & _ & _ & Hr0). eexists. split; [by apply Hrow|]. by rewrite HP.
Qed.

Lemma tells_replace db c cid to overwrite now at_ ms c' db' :
  keyed db -> tree (resources db) cid -> cID c = cid -> replaceDestination db c to overwrite now at_ = inl (ms, c', db') ->
  tells cid (SyncToken c) ms (resources db) (resources db') /\ forall e, e ∈ ms -> exists r, resources db' !! mID e = Some r /\ live r = false.
Proof using.
  intros Hk Ht Ec. unfold replaceDestination. rewrite Ec. destruct (getResourceQ db cid to) as [x|] eqn:Hq.
  - destruct overwrite; [|done]. cbn [negb]. destruct (tombstoneSubtree _ _ _ _ _ _) as [[n bytes] db1] eqn:Htomb. intros [= <- _ <-].
    apply (getResourceQ_row _ _ _ _ Hk) in Hq as (Hx & Hc & <- & Hl). eapply tells_tombstone; try done. by apply live_in_spec.
  - intros [= <- _ <-]. split; [apply tells_nil|by intros e ?%elem_of_nil].
Qed.

Lemma elem_of_moved_events c from to src rows at_ m : m ∈ moved_events c from to src rows at_ <->
  m = mutation EventResourceMoved c (ResourceID src) (rKind src) to from (rETag src) (rSize src) (rType src) at_ \/
  exists r, rKind r = KindFile /\ r ∈ rows /\
    m = mutation EventResourceMoved c (ResourceID r) KindFile (to ++ sdrop (slen from) (Path r)) (Path r) (rETag r) (rSize r) (rType r) at_.
Proof using.
  unfold moved_events. rewrite elem_of_cons, list_elem_of_fmap. split.
  - intros [?|(r & -> & [Hf Hr]%list_elem_of_filter)]; [by left|right]. exists r. split_and!; [|done|done]. unfold is_file in Hf. by destruct (rKind r).
  - intros [?|(r & Hk & Hr & ->)]; [by left|right]. exists r. split; [done|]. apply list_elem_of_filter. split; [|done]. unfold is_file. by rewrite Hk.
Qed.

Lemma tells_move db1 m3 cid from to src c now at_ :
  keyed db1 -> tree (resources db1) cid -> resources db1 !! ResourceID src = Some src -> live_in cid src = true -> Path src = from ->
  (rKind src = KindDir -> asciib from = true) -> cID c = cid -> m3 = moved cid from to src (SyncToken c) now <$> resources db1 ->
  tells cid (SyncToken c) (moved_events c from to src (rows_below (rKind src) db1 cid from) at_) (resources db1) m3.
Proof using.
  intros Hk Ht Hx Hl Hf Ha Ec ->. set (g := moved cid from to src (SyncToken c) now). set (rows := rows_below (rKind src) db1 cid from).
  assert (Hrow : forall id r, resources db1 !! id = Some r -> (g <$> resources db1) !! id = Some (g r)) by (intros id r Hr; by rewrite lookup_fmap, Hr).
  assert (Hgx : g src = setrow_path to (ParentOf to) (Depth to) (SyncToken c) now src) by apply g_src.
  assert (Hb : forall r, r ∈ rows -> rKind src = KindDir /\ below cid from r = true /\ resources db1 !! ResourceID r = Some r /\ ResourceID r <> ResourceID src).
  { intros r Hr. pose proof Hr as (Hd & Hb & id & Hid)%elem_of_rows_below. rewrite (Hk _ _ Hid). split_and!; try done.
    unfold rows in Hr. rewrite <- Hf in Hr. intros E. apply (rows_below_other _ _ _ _ _ Hk Hx Hr). by rewrite (Hk _ _ Hid). }
  assert (Hgb : forall r, r ∈ rows -> g r = setrow_below from to (SyncToken c) now r /\ Path (g r) = to ++ sdrop (slen from) (Path r)).
  { intros r Hr. destruct (Hb r Hr) as (Hd & Hbl & Hid & Hne). assert (E : g r = setrow_below from to (SyncToken c) now r).
    { unfold g, moved, has_id. by rewrite (proj2 (String.eqb_neq _ _) Hne), Hd, Hbl. }
    split; [done|]. rewrite E. pose proof (below_coll _ _ _ Hbl) as [Hc Hv]. assert (Hlr : live_in cid r = true) by by apply live_in_spec.
    unfold below in Hbl. apply andb_true_iff in Hbl as [_ Hlk]. assert (Hfne : from <> "") by (rewrite <- Hf; apply clean_nonempty; by apply (t_ok _ _ Ht _ _ Hx)).
    destruct (setrow_below_path from to (SyncToken c) now r (Ha Hd) Hfne (t_ok _ _ Ht _ _ Hid Hlr) Hlk) as (F & u & -> & _ & <- & _ & -> & _).
    by rewrite sdrop_app. }
  assert (Hlive : forall r, live (g r) = live r /\ rKind (g r) = rKind r /\ CollectionID (g r) = CollectionID r).
  { intros r. unfold g, moved. destruct (has_id _ r); [done|]. by destruct (_ && _). }
  split.
  - unfold moved_events. cbn [fmap list_fmap mID mutation]. rewrite <- list_fmap_compose. unfold compose. cbn [mID mutation].
    apply NoDup_root_and_files; [by apply rows_below_ids|]. intros r Hr. by apply Hb.
  - intros e [->|(r & _ & Hr & ->)]%elem_of_moved_events; (split_and!; [done|done|]); eexists; cbn [mID mutation].
    + split; [by apply Hrow|]. rewrite (proj2 (proj2 (Hlive src))). by apply live_in_spec in Hl as [? _].
    + destruct (Hb r Hr) as (_ & Hbl & Hid & _). split; [by apply Hrow|]. rewrite (proj2 (proj2 (Hlive r))). by apply below_coll in Hbl as [? _].
  - intros e [->|(r & Hkf & Hr & ->)]%elem_of_moved_events; unfold shown, file_event; cbn [mID mKind mutation].
    + intros Hkf. rewrite (Hrow _ _ Hx), Hgx. apply live_in_spec in Hl as [Hc Hv]. unfold is_file. cbn. unfold live in *. cbn. rewrite Hv, Hkf. cbn.
      unfold told, event_info, file_info. cbn. by rewrite Ec, Hc.
    + intros _. destruct (Hb r Hr) as (_ & Hbl & Hid & _). destruct (Hgb r Hr) as [Eg Ep]. rewrite (Hrow _ _ Hid). unfold is_file.
      destruct (Hlive r) as (-> & -> & Hc). apply below_coll in Hbl as [Hrc ->]. rewrite Hkf. cbn. unfold told, event_info, file_info. cbn [mEvent mCollID mPath mETag mSize mType mutation].
      rewrite Ep, Hc, Eg. cbn. by rewrite Hrc, Ec.
  - intros id Hne. unfold shown. rewrite lookup_fmap. destruct (resources db1 !! id) as [r|] eqn:Hr; [|done]. cbn. unfold is_file.
    destruct (Hlive r) as (-> & -> & _). destruct (live r) eqn:Hv; [|done]. destruct (rKind r) eqn:Hkr; [|done]. cbn.
    assert (E : g r = r); [|by rewrite E]. unfold g, moved. destruct (has_id (ResourceID src) r) eqn:Ei.
    + unfold has_id in Ei. apply String.eqb_eq in Ei. rewrite (Hk _ _ Hr) in Ei. subst id. rewrite Hx in Hr. injection Hr as <-.
      exfalso. eapply Hne; [apply elem_of_moved_events; by left|done|done].
    + destruct (is_dir (rKind src) && below cid from r) eqn:Eb; [|done]. apply andb_true_iff in Eb as [Hd Hbl]. exfalso.
      eapply Hne; [apply elem_of_moved_events; right; exists r|..]; [split_and!; [done| |reflexivity]|done|cbn; by apply Hk].
      apply elem_of_rows_below. split_and!; [by destruct (rKind src)|done|eauto].
Qed.

Lemma insert_all_ids rows : forall db db', insert_all rows db = Some db' -> NoDup (ResourceID <$> rows).
Proof using.
  induction rows as [|r rows IH]; intros db db' E; [constructor|]. apply insert_all_cons in E as (_ & _ & E). rewrite fmap_cons. apply NoDup_cons.
  split; [|by eapply IH]. intros (r' & Er & Hr')%list_elem_of_fmap. pose proof (insert_all_new _ _ _ _ E Hr') as Hn. cbn in Hn.
  by rewrite Er, lookup_insert_eq in Hn.
Qed.

Definition created (c : Collection) (r : Resource) (at_ : Z) : Mutation :=
  mutation EventResourceCreated c (ResourceID r) (rKind r) (Path r) "" (rETag r) (rSize r) (rType r) at_.
Definition others (root : Resource) (rows : list Resource) : list Resource := filter (fun r => negb (ResourceID r =s ResourceID root) = true) rows.

Lemma elem_of_others root rows r : r ∈ others root rows <-> r ∈ rows /\ ResourceID r <> ResourceID root.
Proof using.
  unfold others. rewrite list_elem_of_filter, negb_true_iff, String.eqb_neq. tauto.
Qed.

Lemma tells_created db1 db2 cid c rows root at_ :
  keyed db1 -> insert_all rows db1 = Some db2 -> root ∈ rows -> Forall (fun r => live_in cid r = true) rows -> cID c = cid ->
  tells cid (SyncToken c) (created c root at_ :: below_files EventResourceCreated c (others root rows) at_) (resources db1) (resources db2).
Proof using.
  intros Hk Hins Hroot Hlive Ec. destruct (insert_all_rows _ _ _ Hins Hk) as (Hk2 & _ & Hold & Hin & Hback). rewrite Forall_forall in Hlive.
  assert (Hcoll : forall r, r ∈ rows -> CollectionID r = cid /\ live r = true) by (intros r Hr; by apply live_in_spec, Hlive).
  assert (Hshow : forall r, r ∈ rows -> rKind r = KindFile -> shown (resources db2) (ResourceID r) = Some (file_info r)).
  { intros r Hr Hkr. unfold shown, is_file. rewrite (Hin r Hr), (proj2 (Hcoll r Hr)), Hkr. done. }
  split.
  - rewrite fmap_cons, ids_below_files. apply NoDup_root_and_files; [apply NoDup_filtered; by eapply insert_all_ids|]. by intros r [_ ?]%elem_of_others.
  - intros e [->|(r & -> & _ & [Hr _]%elem_of_others)%elem_of_below_files]%elem_of_cons; (split_and!; [done|done|]); eexists; cbn [mID created mutation fileMutation];
      (split; [by apply Hin|by apply Hcoll]).
  - intros e [->|(r & -> & Hkr & [Hr _]%elem_of_others)%elem_of_below_files]%elem_of_cons; unfold file_event; cbn [mID mKind created mutation fileMutation]; intros Hf.
    + rewrite Hshow by done. unfold told, file_info, event_info. cbn. by rewrite Ec, (proj1 (Hcoll _ Hroot)).
    + rewrite Hshow by done. unfold told, file_info, event_info. cbn. by rewrite Ec, (proj1 (Hcoll _ Hr)).
  - intros id Hne. unfold shown. destruct (resources db1 !! id) as [r|] eqn:E; [by rewrite (Hold _ _ E)|].
    destruct (resources db2 !! id) as [r|] eqn:E2; [|done]. destruct (Hback _ _ E2) as [?|Hr]; [congruence|]. rewrite (proj2 (Hcoll r Hr)). unfold is_file.
    destruct (rKind r) eqn:Hkr; [|done]. exfalso. pose proof (Hk2 _ _ E2) as Eid. destruct (String.eqb_spec (ResourceID r) (ResourceID root)) as [Er|Er].
    + assert (r = root) as -> by (pose proof (Hin _ Hroot) as E3; rewrite <- Er, Eid, E2 in E3; by injection E3). by eapply Hne; [left|done|].
    + eapply (Hne (fileMutation EventResourceCreated c r at_)); [right|done|done]. apply elem_of_below_files. exists r. split_and!; [done..|]. by apply elem_of_others.
Qed.

Lemma tells_inserted r db db' c at_ : insertResource r db = Some db' -> keyed db -> live r = true -> cID c = CollectionID r ->
  tells (CollectionID r) (SyncToken c) [created c r at_] (resources db) (resources db').
Proof using.
  intros Hi Hk Hl Ec. pose proof (tells_created db db' (CollectionID r) c [r] r at_ Hk) as Ht. cbn [insert_all] in Ht. rewrite Hi in Ht.
  unfold others in Ht. rewrite filter_cons_False in Ht by (by rewrite String.eqb_refl). apply Ht; [done|by left| |done]. by apply Forall_singleton, live_in_spec.
Qed.

Lemma tells_bytes db r key size ct etag c now at_ cid :
  keyed db -> resources db !! ResourceID r = Some r -> live_in cid r = true -> rKind r = KindFile -> cID c = cid ->
  tells cid (SyncToken c) [mutation EventResourceUpdated c (ResourceID r) KindFile (Path r) "" etag size ct at_] (resources db)
    (resources (update_where (has_id (ResourceID r)) (setrow_bytes key size ct etag (SyncToken c) now) db)).
Proof using.
  intros Hk Hr [Hc Hv]%live_in_spec Hkr Ec. set (m' := resources (update_where _ _ _)).
  assert (Em : forall id, m' !! id = (fun r0 => if has_id (ResourceID r) r0 then setrow_bytes key size ct etag (SyncToken c) now r0 else r0) <$>
    resources db !! id) by (intros id; apply lookup_fmap).
  assert (Hnew : m' !! ResourceID r = Some (setrow_bytes key size ct etag (SyncToken c) now r)).
  { rewrite Em, Hr. cbn. unfold has_id. by rewrite String.eqb_refl. }
  split.
  - apply NoDup_singleton.
  - intros e ->%list_elem_of_singleton. split_and!; [done|done|]. by eexists.
  - intros e ->%list_elem_of_singleton _. unfold shown, is_file. cbn [mID mutation]. rewrite Hnew. unfold live in *. cbn. rewrite Hv, Hkr. cbn.
    unfold told, event_info, file_info. cbn. by rewrite Hc, Ec.
  - intros id Hne. unfold shown. rewrite Em. destruct (resources db !! id) as [r0|] eqn:E; [|done]. cbn.
    unfold has_id. destruct (String.eqb_spec (ResourceID r0) (ResourceID r)) as [Ei|_]; [|done]. exfalso. eapply Hne; [by left|done|]. cbn.
    rewrite <- Ei. by apply Hk.
Qed.

(** ** Every transaction tells what it changed *)

(** One collection moves to its next token, and the events tell the rest. *)
Definition step_told (db : DB) (ms : list Mutation) (db' : DB) : Prop := outbox db' = outbox db /\ exists cid c c',
  collections db !! cid = Some c /\ cLive c = true /\ collections db' = <[cid := c']> (collections db) /\ cLive c' = true /\
  (SyncToken c < SyncToken c')%Z /\ tells cid (SyncToken c') ms (resources db) (resources db').

Lemma advance_outbox c now db : outbox (advance c now db) = outbox db.
Proof using. unfold advance. by destruct (collections db !! cID c). Qed.

Lemma told_advance db db1 cid c c1 now ms :
  ckeyed db -> lockCollection db cid = inl c -> cID c1 = cid -> (SyncToken c < SyncToken c1)%Z -> collections db1 = collections db ->
  outbox (advance c1 now db1) = outbox db -> tells cid (SyncToken c1) ms (resources db) (resources db1) -> step_told db ms (advance c1 now db1).
Proof using.
  intros Hck [Hc Hd]%lockCollection_inl Eid Hlt Ecoll Eo Ht. split; [done|]. pose proof (Hck _ _ Hc) as Ecid.
  destruct (advanced db1 c1 now c) as [E1 E2]; [by rewrite Ecoll, Eid|]. exists cid, c. eexists. rewrite E1, E2, Ecoll, Ecid. split_and!; try reflexivity; try done.
  - unfold cLive. by rewrite Hd.
  - unfold cLive. cbn. by rewrite Hd.
Qed.

Lemma insert_outbox r db db' : insertResource r db = Some db' -> outbox db' = outbox db.
Proof using. by intros (_ & _ & ->)%insertResource_Some. Qed.

Lemma insert_all_outbox rows : forall db db', insert_all rows db = Some db' -> outbox db' = outbox db.
Proof using. induction rows as [|r rows IH]; intros db db' E; [by injection E as <-|]. apply insert_all_cons in E as (_ & _ & E). by apply IH in E. Qed.

Lemma replace_outbox db c to overwrite now at_ ms c' db' : replaceDestination db c to overwrite now at_ = inl (ms, c', db') -> outbox db' = outbox db.
Proof using.
  unfold replaceDestination. destruct (getResourceQ _ _ _) as [x|]; [|by intros [= _ _ <-]]. destruct overwrite; [|done]. cbn [negb].
  destruct (tombstoneSubtree _ _ _ _ _ _) as [[n bytes] db1] eqn:E. intros [= _ _ <-]. by injection E as _ _ <-.
Qed.

Variable lim : Limits.

Lemma put_told cid p id key size ct etag opts now at_ db x ms db' :
  Inv db -> put_tx lim cid p id key size ct etag opts now at_ db = TxDone x ms db' -> step_told db ms db'.
Proof using.
  intros HI. unfold put_tx. destruct (lockCollection db cid) as [c|] eqn:Hlock; [|done]. pose proof Hlock as [Hc _]%lockCollection_inl.
  pose proof (i_ckeyed _ HI _ _ Hc) as Ecid. destruct (requireParent db cid p); [done|]. destruct (getResourceQ db cid p) as [r|] eqn:Hq.
  - destruct (is_dir (rKind r)) eqn:Hdir; [done|]. destruct (checkPreconditions _ _ _ _); [done|]. destruct (_ && _); [done|]. destruct (_ && _); [done|].
    intros [= _ <- <-]. apply (getResourceQ_row _ _ _ _ (i_keyed _ HI)) in Hq as (Hr & Hrc & <- & Hv). assert (Hkr : rKind r = KindFile) by by destruct (rKind r).
    eapply told_advance; [exact (i_ckeyed _ HI)|exact Hlock|done|cbn; lia|done|by rewrite advance_outbox|].
    apply (tells_bytes db r key size ct etag (bump c) now at_ cid); try done; [apply HI|by apply live_in_spec].
  - destruct (checkPreconditions _ _ _ _); [done|]. destruct (_ && _); [done|]. destruct (_ && _); [done|].
    destruct (insertResource _ db) as [db1|] eqn:Hi; [|done]. intros [= _ <- <-].
    eapply told_advance; [exact (i_ckeyed _ HI)|exact Hlock|done|cbn; lia|by eapply insert_collections|rewrite advance_outbox; by eapply insert_outbox|].
    exact (tells_inserted _ _ _ (bump c) at_ Hi (i_keyed _ HI) eq_refl Ecid).
Qed.

Lemma mkdir_told cid p id now at_ db x ms db' : Inv db -> mkdir_tx lim cid p id now at_ db = TxDone x ms db' -> step_told db ms db'.
Proof using.
  intros HI. unfold mkdir_tx. destruct (lockCollection db cid) as [c|] eqn:Hlock; [|done]. pose proof Hlock as [Hc _]%lockCollection_inl.
  pose proof (i_ckeyed _ HI _ _ Hc) as Ecid. destruct (requireParent db cid p); [done|]. destruct (getResourceQ db cid p); [done|]. destruct (_ && _); [done|].
  destruct (insertResource _ db) as [db1|] eqn:Hi; [|done]. intros [= _ <- <-].
  eapply told_advance; [exact (i_ckeyed _ HI)|exact Hlock|done|cbn; lia|by eapply insert_collections|rewrite advance_outbox; by eapply insert_outbox|].
  exact (tells_inserted _ _ _ (bump c) at_ Hi (i_keyed _ HI) eq_refl Ecid).
Qed.

Lemma locked_tree db cid c : Inv db -> lockCollection db cid = inl c -> cID c = cid /\ tree (resources db) cid.
Proof using.
  intros HI [Hc Hd]%lockCollection_inl. split; [by apply (i_ckeyed _ HI)|]. apply (i_coll _ HI _ _ Hc). unfold cLive. by rewrite Hd.
Qed.

Lemma delete_told cid find o now at_ db x ms db' :
  (forall r, find db = Some r -> resources db !! ResourceID r = Some r /\ live_in cid r = true) ->
  Inv db -> delete_tx cid find o now at_ db = TxDone x ms db' -> step_told db ms db'.
Proof using.
  intros Hf HI. unfold delete_tx. destruct (lockCollection db cid) as [c|] eqn:Hlock; [|done]. destruct (locked_tree _ _ _ HI Hlock) as [Ecid Ht].
  destruct (find db) as [r|]; [|done]. destruct (Hf r eq_refl) as [Hr Hl]. destruct (checkPreconditions _ _ _ _); [done|].
  destruct (tombstoneSubtree _ _ _ _ _ _) as [[n bytes] db1] eqn:Htomb. intros [= _ <- <-].
  pose proof (tells_tombstone db cid r (bump c) _ now at_ n bytes db1 (i_keyed _ HI) Ht Hr Hl Ecid eq_refl Htomb) as [Hte _].
  injection Htomb as _ _ <-. eapply told_advance; [exact (i_ckeyed _ HI)|exact Hlock|done|cbn; lia|done|by rewrite advance_outbox|]. exact Hte.
Qed.

Lemma move_outbox cid from to overwrite now at_ db x ms db' : move_tx cid from to overwrite now at_ db = TxDone x ms db' -> outbox db' = outbox db.
Proof using.
  unfold move_tx. destruct (lockCollection db cid) as [c|]; [|done]. destruct (getResourceQ db cid from) as [src|]; [|done].
  destruct (requireParent db cid to); [done|]. destruct (replaceDestination _ _ _ _ _ _) as [[[rep c1] db1]|] eqn:Hrep; [|done].
  destruct (index_ok cid _); [|done]. destruct (index_ok cid _); [|done]. intros [= _ _ <-]. rewrite advance_outbox. apply replace_outbox in Hrep.
  rewrite <- Hrep. unfold move_root, move_below. by destruct (is_dir _).
Qed.

(** Moves from ASCII paths, neither up nor down their own branch. *)
Definition apart (from to : string) : Prop := fit_move from to /\ like char_eq (LikePrefix to) from = false.

Lemma move_told cid from to overwrite now at_ db x ms db' :
  from <> to -> apart from to -> Inv db -> move_tx cid from to overwrite now at_ db = TxDone x ms db' -> step_told db ms db'.
Proof using.
  intros Hne [[Ha _] Hup] HI Htx.
  destruct (move_tx_done _ _ _ _ _ _ _ _ _ _ HI Htx) as (c & src & rep & c1 & db1 & db3 & Hlock & Hq & _ & Hrep & E3 & Ec3 & Hk3 & _ & -> & ->).
  destruct (locked_tree _ _ _ HI Hlock) as [Ecid Ht]. apply (getResourceQ_row _ _ _ _ (i_keyed _ HI)) in Hq as (Hsrc & Hsc & Hsf & Hsl).
  destruct (replace_ok _ (bump c) cid _ _ _ _ _ _ _ (i_keyed _ HI) Ht Ecid Hrep) as (Hk1 & Ht1 & _ & _ & _ & _ & Etok & Eid & _ & Hkeep & _).
  destruct (tells_replace _ (bump c) cid _ _ _ _ _ _ _ (i_keyed _ HI) Ht Ecid Hrep) as [Hte1 Hdead]. rewrite <- Etok in Hte1.
  assert (Hsrc1 : resources db1 !! ResourceID src = Some src).
  { apply (Hkeep _ _ Hsrc). intros (k & Hs). unfold subtree, at_path, below in Hs. rewrite Hsf, Hup, andb_false_r, andb_false_r, orb_false_r in Hs.
    rewrite !andb_true_iff, !String.eqb_eq in Hs. naive_solver. }
  assert (Hsl1 : live_in cid src = true) by by apply live_in_spec.
  pose proof (tells_move db1 (resources db3) cid from to src c1 now at_ Hk1 Ht1 Hsrc1 Hsl1 Hsf (fun _ => Ha) Eid E3) as Hte2.
  eapply told_advance; [exact (i_ckeyed _ HI)|exact Hlock|exact Eid|cbn in Etok; lia|done|by eapply move_outbox|].
  eapply tells_app; [exact Hte1|exact Hte2| |].
  - intros e1 e2 H1' H2' E. destruct (Hdead e1 H1') as (r & Hr & Hd). rewrite E in Hr.
    apply elem_of_moved_events in H2' as [->|(r2 & _ & (_ & Hb & id & Hid)%elem_of_rows_below & ->)]; cbn in Hr.
    + rewrite Hsrc1 in Hr. injection Hr as <-. congruence.
    + apply below_coll in Hb as [_ Hv]. rewrite (Hk1 _ _ Hid) in Hr. rewrite Hid in Hr. injection Hr as <-. congruence.
  - intros id r Hr. rewrite E3, lookup_fmap, Hr. eexists. split; [done|]. apply moved_keeps.
Qed.

Lemma copy_told srcID from collID to overwrite now at_ db src rows rep c1 db1 made db2 :
  clean to -> Inv db -> copy_plan lim srcID from collID to overwrite now at_ db = inl (src, rows, rep, c1, db1) ->
  copies_of collID from to (SyncToken c1) now rows made -> insert_all made.*2 db1 = Some db2 ->
  step_told db (rep ++ created_events c1 src made (from_option snd src (head made)) at_)
    (advance (charge c1 (sizes rows) (Z.of_nat (length rows))) now db2).
Proof using.
  intros Hto HI Hplan Hmade Hins. apply copy_plan_inl in Hplan as (c & Hlock & _ & _ & Erows & Hrep). destruct (locked_tree _ _ _ HI Hlock) as [Ecid Ht].
  destruct (replace_ok _ (bump c) collID _ _ _ _ _ _ _ (i_keyed _ HI) Ht Ecid Hrep) as (Hk1 & _ & _ & _ & _ & Ecoll & Etok & Eid & _).
  destruct (tells_replace _ (bump c) collID _ _ _ _ _ _ _ (i_keyed _ HI) Ht Ecid Hrep) as [Hte1 Hdead]. rewrite <- Etok in Hte1.
  destruct (insert_all_rows _ _ _ Hins Hk1) as (_ & Ec2 & Hold & _).
  assert (Hroot : from_option snd src (head made) ∈ made.*2) by (subst rows; inversion_clear Hmade; by left).
  pose proof (tells_created db1 db2 collID c1 made.*2 _ at_ Hk1 Hins Hroot (made_live _ _ _ _ _ _ _ Hmade) Eid) as Hte2.
  eapply told_advance; [exact (i_ckeyed _ HI)|exact Hlock|exact Eid|cbn in *; lia|congruence| |].
  - rewrite advance_outbox. apply insert_all_outbox in Hins. apply replace_outbox in Hrep. congruence.
  - eapply tells_app; [exact Hte1|exact Hte2| |].
    + intros e1 e2 H1' H2' E. destruct (Hdead e1 H1') as (r & Hr & _). rewrite E in Hr. assert (Hnew : exists r2, r2 ∈ made.*2 /\ mID e2 = ResourceID r2).
      { apply elem_of_cons in H2' as [->|(r2 & -> & _ & [Hr2 _]%elem_of_others)%elem_of_below_files]; eauto. }
      destruct Hnew as (r2 & Hr2 & E2). rewrite E2, (insert_all_new _ _ _ _ Hins Hr2) in Hr. done.
    + intros id r Hr. exists r. split; [by apply Hold|done].
Qed.

(** ** Runs *)

Lemma txn_mono tr (fit fit' : string -> string -> Prop) (pu pu' : Z -> Prop) db db' : (forall f t, fit f t -> fit' f t) -> (forall r, pu r -> pu' r) ->
  txn lim tr fit pu db db' -> txn lim tr fit' pu' db db'.
Proof using.
  intros Hf Hp. destruct 1; [eapply txn_put|eapply txn_mkdir|eapply txn_delete|eapply txn_move|eapply txn_copy; [..|eassumption|eassumption|eassumption|eassumption]|eapply txn_ensure|eapply txn_policy|
    eapply txn_links|eapply txn_drop|eapply txn_purge_rows|eapply txn_purge_colls]; eauto.
Qed.

(** The events of index [db] since [db0] tell all there is to know of the live
    collections, under keys of their own. *)
Definition event_key (m : Mutation) : string * Z := (mID m, mSeq m).

Record mirrored (db0 : DB) (ms : list Mutation) (db : DB) : Prop := {
  mi_start : Inv db0;
  mi_inv : Inv db;
  mi_sync : synced db0 db;
  mi_outbox : outbox db = (outbox db0 ++ ms)%list;
  mi_seen : forall cid c seen, collections db !! cid = Some c -> cLive c = true -> mirrors cid seen (resources db0) ->
    mirrors cid (foldl apply_event seen ms) (resources db);
  mi_keys : NoDup (event_key <$> ms);
  mi_known : forall m, m ∈ ms -> exists r c, resources db !! mID m = Some r /\ CollectionID r = mCollID m /\
    collections db !! mCollID m = Some c /\ (mSeq m <= SyncToken c)%Z }.

Lemma mirrored_refl db : Inv db -> mirrored db [] db.
Proof using.
  intros HI. split; [done|done|apply synced_refl|by rewrite app_nil_r|done|constructor|by intros m ?%elem_of_nil].
Qed.

Lemma inv_keys db : Inv db -> keyed db /\ ckeyed db.
Proof using. intros HI. split; [apply HI|]. intros id c. apply (i_ckeyed _ HI). Qed.

(** What was known of an event stays known. *)
Lemma known_later db0 ms db db' m : mirrored db0 ms db -> synced db db' -> m ∈ ms ->
  exists r c, resources db' !! mID m = Some r /\ CollectionID r = mCollID m /\ collections db' !! mCollID m = Some c /\ (mSeq m <= SyncToken c)%Z.
Proof using.
  intros HM HS Hm. destruct (inv_keys _ (mi_inv _ _ _ HM)) as [Hk Hck]. destruct (mi_known _ _ _ HM m Hm) as (r & c & Hr & Hc & Hcoll & Hle).
  destruct (sy_coll _ _ HS Hk Hck _ _ Hcoll) as (c' & Hc' & Hle' & _ & Hkeep). destruct (Hkeep _ _ Hr) as (r' & Hr' & E).
  exists r', c'. split_and!; [done|congruence|done|lia].
Qed.

(** A transaction without events that changes no row of a collection that was
    live and still is. *)
Lemma mirrored_quiet db0 ms db db' :
  mirrored db0 ms db -> Inv db' -> synced db db' -> outbox db' = outbox db ->
  (forall cid c, collections db' !! cid = Some c -> cLive c = true ->
     (exists c0, collections db !! cid = Some c0 /\ cLive c0 = true /\
        forall id v, fColl v = cid -> shown (resources db) id = Some v <-> shown (resources db') id = Some v) \/
     (collections db !! cid = None /\ resources db' = resources db)) ->
  mirrored db0 ms db'.
Proof using.
  intros HM HI HS Eo Hsame. destruct (inv_keys _ (mi_inv _ _ _ HM)) as [Hk Hck]. split.
  - apply HM.
  - done.
  - eapply synced_trans; [apply HM|done].
  - rewrite Eo. apply HM.
  - intros cid c seen Hc Hl Hs id v Hv. destruct (Hsame cid c Hc Hl) as [(c0 & Hc0 & Hl0 & E)|[Hn E]].
    + rewrite <- (E id v Hv). by apply (mi_seen _ _ _ HM cid c0 seen).
    + (* a collection of whom nothing was ever told *)
      assert (Hno : shown (resources db) id <> Some v).
      { unfold shown. intros Hx. destruct (resources db !! id) as [r|] eqn:Hr; [|done]. destruct (live r) eqn:Hlr; [|done]. cbn in Hx. destruct (is_file r); [|done].
        injection Hx as <-. cbn in Hv. destruct (i_live _ (mi_inv _ _ _ HM) _ _ Hr Hlr) as (c1 & Hc1 & _). congruence. }
      rewrite E. split; [|done]. intros Hx. exfalso.
      assert (Hold : forall l, (forall m, m ∈ l -> m ∈ ms) -> forall s, foldl apply_event s l !! id = Some v -> s !! id = Some v).
      { intros l. induction l as [|m l IH]; [done|]. intros Hsub s. cbn. intros Hx'%IH; [|intros m' Hm'; apply Hsub; by right]. revert Hx'.
        unfold apply_event. destruct (is_dir (mKind m)); [done|]. destruct (decide (mID m = id)) as [<-|Hne]; [|by rewrite lookup_partial_alter_ne].
        rewrite lookup_partial_alter_eq. unfold told. intros Ht. destruct (mi_known _ _ _ HM m (Hsub m (list_elem_of_here _ _))) as (r & c1 & _ & _ & Hc1 & _).
        destruct (mEvent m); try done; injection Ht as <-; cbn in Hv; congruence. }
      apply (Hold ms (fun _ H => H)) in Hx. apply (Hs id v Hv) in Hx. unfold shown in Hx. destruct (resources db0 !! id) as [r|] eqn:Hr; [|done].
      destruct (live r) eqn:Hlr; [|done]. cbn in Hx. destruct (is_file r); [|done]. injection Hx as <-. cbn in Hv.
      destruct (inv_keys _ (mi_start _ _ _ HM)) as [Hk0 Hck0]. destruct (i_live _ (mi_start _ _ _ HM) _ _ Hr Hlr) as (c1 & Hc1 & _). rewrite Hv in Hc1.
      destruct (sy_coll _ _ (mi_sync _ _ _ HM) Hk0 Hck0 _ _ Hc1) as (c2 & Hc2 & _). congruence.
  - apply HM.
  - intros m Hm. by eapply known_later.
Qed.

Lemma shown_live m id v : shown m id = Some v -> exists r, m !! id = Some r /\ live r = true /\ v = file_info r.
Proof using.
  unfold shown. destruct (m !! id) as [r|]; [|done]. destruct (live r) eqn:Hl; [|done]. cbn. destruct (is_file r); [|done]. intros [= <-]. by exists r.
Qed.

(** A transaction that tells what it changed. *)
Lemma mirrored_told db0 ms db ms' db' :
  mirrored db0 ms db -> Inv (add_outbox ms' db') -> synced db (add_outbox ms' db') -> step_told db ms' db' ->
  mirrored db0 (ms ++ ms') (add_outbox ms' db').
Proof using.
  intros HM HI HS (Eo & cid & c & c' & Hc & Hl & Ecoll & Hl' & Hlt & Hte).
  assert (Hnew : forall m, m ∈ ms' -> mCollID m = cid /\ mSeq m = SyncToken c' /\ exists r, resources db' !! mID m = Some r /\ CollectionID r = cid)
    by apply Hte.
  split.
  - apply HM.
  - done.
  - eapply synced_trans; [apply HM|done].
  - cbn. rewrite Eo, (mi_outbox _ _ _ HM). by rewrite (assoc_L (++)).
  - intros cid2 c2 seen Hc2 Hl2 Hs. cbn in Hc2 |- *. rewrite foldl_app. eapply mirrors_step; [exact Hte|].
    rewrite Ecoll in Hc2. apply lookup_insert_Some in Hc2 as [[<- <-]|[_ Hc2]]; [by apply (mi_seen _ _ _ HM cid c)|by apply (mi_seen _ _ _ HM cid2 c2)].
  - rewrite fmap_app. apply NoDup_app. split_and!; [apply HM| |].
    + intros k (m1 & -> & H1')%list_elem_of_fmap (m2 & E & H2')%list_elem_of_fmap. injection E as Eid Eseq.
      destruct (known_later _ _ _ _ _ HM HS H1') as (r & _ & Hr & Hrc & _). cbn in Hr. destruct (Hnew m2 H2') as (_ & Es & r2 & Hr2 & Hrc2). rewrite Eid, Hr2 in Hr.
      injection Hr as <-. destruct (mi_known _ _ _ HM m1 H1') as (_ & c1 & _ & _ & Hc1 & Hle). rewrite <- Hrc, Hrc2, Hc in Hc1. injection Hc1 as <-. lia.
    + pose proof (te_ids _ _ _ _ _ Hte) as Hnd. apply (NoDup_fmap_1 fst). by rewrite <- list_fmap_compose.
  - intros m [Hm|Hm]%elem_of_app; [exact (known_later _ _ _ _ _ HM HS Hm)|]. cbn. destruct (Hnew m Hm) as (-> & -> & r & Hr & Hrc). exists r, c'. rewrite Ecoll, lookup_insert_eq.
    split_and!; [done|done|done|lia].
Qed.

Lemma mirrored_relabel db0 ms db tenant name c c' :
  mirrored db0 ms db -> GetCollection db tenant name = Some c -> cID c' = cID c -> cLive c' = cLive c ->
  Inv (set_collection c' db) -> synced db (set_collection c' db) -> mirrored db0 ms (set_collection c' db).
Proof using.
  intros HM Hg Eid El HI HS. apply (named_lookup _ _ _ _ (i_ckeyed _ (mi_inv _ _ _ HM))) in Hg as [Hc Hl].
  apply (mirrored_quiet db0 ms db); try done. intros cid c1 Hc1 Hl1. left. cbn in Hc1.
  apply lookup_insert_Some in Hc1 as [[<- <-]|[_ Hc1]]; [exists c; rewrite Eid, <- El; done|by exists c1].
Qed.

Lemma mirrored_ensure db0 ms db tenant name id now c created db' :
  mirrored db0 ms db -> ensureCollectionOnce tenant name id now db = Some (c, created, db') -> Inv db' -> synced db db' -> mirrored db0 ms db'.
Proof using.
  intros HM. unfold ensureCollectionOnce, insertCollection. destruct (GetCollection db tenant name); [by intros [= _ _ <-]|].
  cbn. destruct (collections db !! id) eqn:E; [done|]. destruct (GetCollection db tenant name); [done|]. intros [= _ _ <-] HI HS.
  apply (mirrored_quiet db0 ms db); try done. intros cid c1 Hc1 Hl1. cbn in Hc1. apply lookup_insert_Some in Hc1 as [[<- _]|[_ Hc1]]; [by right|left; by exists c1].
Qed.

(** A collection dropped is nobody's to mirror; the others' rows stay. *)
Lemma mirrored_drop db0 ms db tenant name force now at_ db' x ms' :
  mirrored db0 ms db -> delete_collection_tx tenant name force now at_ db = TxDone x ms' db' -> Inv (add_outbox ms' db') -> synced db (add_outbox ms' db') ->
  mirrored db0 ms (add_outbox ms' db').
Proof using.
  intros HM. unfold delete_collection_tx. destruct (GetCollection db tenant name) as [c|] eqn:Hg; [|done]. destruct (_ && _); [done|]. intros [= _ <- <-] HI HS.
  apply (mirrored_quiet db0 ms db); try done; [cbn; by rewrite app_nil_r|]. intros cid c1 Hc1 Hl1. cbn in Hc1. left.
  apply lookup_insert_Some in Hc1 as [[_ <-]|[Hne Hc1]]; [done|]. exists c1. split_and!; [done..|]. intros id v Hv. cbn in Hne |- *.
  assert (E : forall r, resources db !! id = Some r -> CollectionID r = cid ->
    (fun r => if (CollectionID r =s cID c) && live r then setrow_tomb now (SyncToken c + 1) r else r) r = r).
  { intros r _ Hc. cbn. rewrite (proj2 (String.eqb_neq _ _)); [done|congruence]. }
  split; intros Hx; apply shown_live in Hx as Hy; destruct Hy as (r & Hr & Hlr & ->); cbn in Hv.
  - unfold shown in *. rewrite Hr in Hx. rewrite lookup_fmap, Hr. cbn. by rewrite (E r Hr Hv).
  - rewrite lookup_fmap in Hr. apply fmap_Some in Hr as (r0 & Hr0 & ->). assert (Hc0 : CollectionID r0 = cid) by by destruct (_ && _) in Hv.
    unfold shown in *. rewrite lookup_fmap, Hr0 in Hx. rewrite Hr0. cbn in Hx. by rewrite (E r0 Hr0 Hc0) in Hx |- *.
Qed.

Lemma txn_mirrored db0 ms db db' : txn lim true apart no_purge db db' -> mirrored db0 ms db -> exists ms', mirrored db0 (ms ++ ms') db'.
Proof.
  intros Ht HM. pose proof (mi_inv _ _ _ HM) as HI. pose proof (txn_synced lim true _ _ _ Ht) as HS.
  pose proof (txn_mono true apart fit_move no_purge any_retention _ _ (fun f t H => proj1 H) (fun _ _ => I) Ht) as Ht'.
  pose proof (txn_Inv lim true _ _ Ht' HI) as HI'. clear Ht'. pose proof (app_nil_r ms) as Enil.
  destruct Ht as [collID p id key size ct etag opts now at_ db x ms' db' Hp Hne Hsz E|collID p id now at_ db x ms' db' Hp Hne E
    |collID find opts now at_ db x ms' db' Hf E|collID from0 to0 from to ov now at_ db x ms' db' Hc Hfit E
    |srcID from collID to ov now at_ db src rows rep c db1 made db2 ms' Hf Hfne Ht Htne _ Hplan Hm Hi ->
    |tenant name id now db c created db' E|tenant name p now db c E|tenant name l now db c E|tenant name force now at_ db x ms' db' E
    |ret cutoff db Hr Hn|ret cutoff db Hr Hn]; try (unfold no_purge in Hn; lia); unfold with_outbox in *.
  - exists ms'. apply (mirrored_told db0 ms db); try done. by eapply put_told.
  - exists ms'. apply (mirrored_told db0 ms db); try done. by eapply mkdir_told.
  - exists ms'. apply (mirrored_told db0 ms db); try done. eapply delete_told; [|exact HI|exact E]. intros r Hr. destruct Hf as [(p & ->)|(id & ->)].
    + apply (getResourceQ_row _ _ _ _ (i_keyed _ HI)) in Hr as (? & ? & _ & ?). split; [done|by apply live_in_spec].
    + unfold getResourceByIDQ in Hr. destruct (resources db !! id) as [r0|] eqn:Er; [|done]. destruct (_ && _) eqn:El; [|done].
      injection Hr as <-. split; [by rewrite (i_keyed _ HI _ _ Er)|done].
  - exists ms'. apply (mirrored_told db0 ms db); try done. destruct (check_paths _ _ _ _ Hc) as (_ & _ & _ & _ & ? & _). by eapply move_told.
  - eexists. apply (mirrored_told db0 ms db); [done|exact HI'|exact HS|]. eapply copy_told; eauto. by apply normal_clean.
  - exists []. rewrite Enil. by eapply mirrored_ensure.
  - exists []. rewrite Enil. by eapply mirrored_relabel.
  - exists []. rewrite Enil. by eapply mirrored_relabel.
  - exists []. rewrite Enil. by eapply mirrored_drop.
Qed.
Lemma txns_mirrored db db' : rtc (txn lim true apart no_purge) db db' -> forall db0 ms, mirrored db0 ms db -> exists ms', mirrored db0 ms' db'.
Proof.
  induction 1 as [|db1 db2 db3 Ht _ IH]; [eauto|]. intros db0 ms HM. destruct (txn_mirrored _ _ _ _ Ht HM) as (ms' & HM'). by eapply IH.
Qed.
End Told.

(** C15: The event stream is enough to mirror the drive.  With a transactional
    sink, whatever programs any number of callers run, interleaved call by call
    and with any call failing: a consumer that was right about a collection's
    live files (resource id, path, etag, size, type) and then only reads the
    events of the outbox, in order, without walking any tree, is right again,
    for every collection that exists in the end.  Each event has a key
    (resource id and modseq) of its own, so a queue that coalesces on it loses
    none.  Sweeps that purge tombstones are excepted, and of every move it is
    asked ([apart]) that its source is ASCII and that LIKE finds neither path
    below the other, so that it goes neither up nor down its own branch nor, under
    SQLite, to a case variant of it; a move of a directory with a name outside
    ASCII does break the mirror ([move_cuts_foreign_names]). *)
Theorem outbox_mirrors `{Unicode} `{Collation} `{Platform} (lim : Limits) (ps ps' : list (DProg unit)) (w w' : World)
    (Hps : Forall (caller lim true apart no_purge) ps) (Hlock : w_lock w = false) (HI : Inv (w_db w)) (Hrun : rtc dpstep (ps, w) (ps', w')) :
  exists ms, outbox (w_db w') = (outbox (w_db w) ++ ms)%list /\ NoDup (event_key <$> ms) /\
    forall cid c seen, collections (w_db w') !! cid = Some c -> cLive c = true -> mirrors cid seen (resources (w_db w)) ->
      mirrors cid (foldl apply_event seen ms) (resources (w_db w')).
Proof.
  pose proof (callers_refine lim true apart no_purge ps ps' w w' Hps Hlock Hrun) as Hr.
  destruct (txns_mirrored lim _ _ Hr _ _ (mirrored_refl _ HI)) as (ms & HM). exists ms. split_and!; apply HM.
Qed.
