(* ===== verification/DriveExamples.v ===== *)
(** * Drive: concrete runs

    One caller after another on an empty store, SQLite's LIKE, nothing failing:
    each theorem about drives applied to such a run, and runs in which the code
    does not do what it says. *)

From Stdlib Require Import Ascii String ZArith Lia Bool.
From stdpp Require Import base tactics list strings gmap sorting relations pretty.
From S2P Require Import Prelude GoStrings GoJson GoPath Opname DrivePath Drive DriveRows DriveTxn DriveErrors DriveTree DriveInv DriveSync DriveMoves DriveBytes DriveEvents.

#[local] Open Scope string_scope.

(** Text that is in NFC already, a hash that tells the bodies used here apart,
    and a platform that knows no extension. *)
#[local] Instance ascii_text : Unicode := {| NFC := fun s => s |}.
#[local] Instance demo_platform : Platform := {| sha256hex := fun s => "#" ++ s; TypeByExtension := fun _ => "" |}.

Definition no_limits : Limits := mkLimits 0 0 0.
Definition plain_put : PutOpts := mkPutOpts "" "" "".
Definition any_version : DeleteOpts := mkDelOpts "" "".
Definition empty_store : World := mkWorld (mkDB ∅ ∅ []) false ∅ [] ∅ 100.

(** The last world of a run, from ids of its own. *)
Definition ids (prefix : string) : list string := map (fun n => prefix ++ pretty n) (seq 1 40).
Definition end_of {A} (prefix : string) (p : DProg A) (w : World) : World := from_option snd w (dalone (ids prefix) p w).
Definition result_of {A} (prefix : string) (p : DProg A) (w : World) : option A := fst <$> dalone (ids prefix) p w.

#[local] Existing Instance Collation_sqlite.

Definition docs : string := "dc_m1".
Definition store (p body : string) : DProg (PutResult + DErr) := Put no_limits true docs p body (-1) plain_put.
#[local] Notation "p ~> k" := (dbind p (fun _ => k)) (at level 62, right associativity).

(** A tree of files, copied and overwritten, moved and in part deleted. *)
Definition setup : DProg unit :=
  EnsureCollection "acme" "docs" ~> Mkdir no_limits true docs "a" ~> store "a/x.txt" "hello" ~> Mkdir no_limits true docs "a/sub" ~>
  store "a/sub/y" "bytes" ~> DRet tt.
Definition work : DProg unit :=
  Copy no_limits true docs "a" "b" false ~> store "b/x.txt" "again" ~> Move true docs "a/sub" "c" false ~>
  Delete true docs "a" any_version ~> DRet tt.

Definition before : World := end_of "m" setup empty_store.
Definition after : World := end_of "n" work before.

(** The live paths of the collection. *)
Definition paths (w : World) : list string := Path <$> select live (w_db w).

Lemma demo_paths : paths before = ["a"; "a/sub"; "a/sub/y"; "a/x.txt"] /\ paths after = ["b"; "b/sub"; "b/sub/y"; "b/x.txt"; "c"; "c/y"].
Proof. split; by vm_compute. Qed.

Lemma run_of {A} prefix (p : DProg A) w x : result_of prefix p w = Some x -> rtc dpstep ([p], w) ([DRet x], end_of prefix p w).
Proof. unfold result_of, end_of. destruct (dalone _ _ _) as [[y w']|] eqn:E; [|done]. intros [= ->]. cbn. by eapply dalone_run. Qed.

Lemma c_then {A} lim tr fit ret (p : DProg A) k : drive_op lim tr fit ret A p -> caller lim tr fit ret k -> caller lim tr fit ret (p ~> k).
Proof. intros Hp Hk. by apply c_op. Qed.

Lemma setup_caller fit ret : caller no_limits true fit ret setup.
Proof. do 5 (apply c_then; [constructor|]). constructor. Qed.

Lemma work_caller (fit : string -> string -> Prop) ret : fit "a/sub" "c" -> caller no_limits true fit ret work.
Proof.
  intros Hf. do 2 (apply c_then; [constructor|]). apply c_then; [constructor|apply c_then; constructor; constructor].
  intros f t. vm_compute. by intros [= <- <-].
Qed.

Lemma work_fits : fit_move "a/sub" "c".
Proof. split; by vm_compute. Qed.

Lemma before_Inv : Inv (w_db before).
Proof.
  apply (txns_Inv no_limits true (w_db empty_store)); [|apply Inv_empty].
  refine (callers_refine no_limits true fit_move any_retention [setup] [DRet tt] empty_store before _ eq_refl (run_of "m" setup empty_store tt _)).
  - apply Forall_singleton, setup_caller.
  - by vm_compute.
Qed.

Lemma index_stays_tree_witness : Inv (w_db after).
Proof.
  refine (index_stays_tree no_limits true [work] [DRet tt] before after _ _ before_Inv (run_of "n" work before tt _)).
  - by apply Forall_singleton, work_caller, work_fits.
  - by vm_compute.
  - by vm_compute.
Defined.

Definition seen_coll : Collection :=
  from_option (fun c => c) (mkColl "" "" "" 0 0 0 ∅ ∅ 0 0 None) (collections (w_db before) !! docs).

Lemma sync_complete_witness : SyncToken seen_coll = 4%Z /\
  foldl consume (live_rows (w_db before) docs) (list_rows docs "" (since (SyncToken seen_coll)) (w_db after)) = live_rows (w_db after) docs.
Proof.
  split; [by vm_compute|].
  refine (sync_complete no_limits true (fun _ _ => True) [work] [DRet tt] before after docs seen_coll _ _ _ _ _ (run_of "n" work before tt _)).
  - by apply Forall_singleton, work_caller.
  - by vm_compute.
  - intros id r Hr. by rewrite (i_keyed _ before_Inv _ _ Hr).
  - intros id c Hc. by rewrite (i_ckeyed _ before_Inv _ _ Hc).
  - by vm_compute.
  - by vm_compute.
Defined.

(** Both in one run, started on the empty store. *)
Definition whole : DProg unit :=
  EnsureCollection "acme" "docs" ~> Mkdir no_limits true docs "a" ~> store "a/x.txt" "hello" ~> Mkdir no_limits true docs "a/sub" ~>
  store "a/sub/y" "bytes" ~> work.

Lemma whole_caller (fit : string -> string -> Prop) ret : fit "a/sub" "c" -> caller no_limits true fit ret whole.
Proof. intros Hf. do 5 (apply c_then; [constructor|]). by apply work_caller. Qed.

Lemma sound_empty : sound_store empty_store.
Proof. split; intros ? ?; cbn; rewrite lookup_empty; done. Qed.

Lemma never_row_without_bytes_witness : sound_store (end_of "m" whole empty_store) /\ paths (end_of "m" whole empty_store) = paths after.
Proof.
  split; [|by vm_compute].
  refine (never_row_without_bytes no_limits true (fun _ _ => True) [whole] [DRet tt] empty_store _ _ eq_refl sound_empty (run_of "m" whole empty_store tt _)).
  - by apply Forall_singleton, whole_caller.
  - by vm_compute.
Defined.

Lemma outbox_mirrors_witness : exists ms, outbox (w_db after) = (outbox (w_db before) ++ ms)%list /\ NoDup (event_key <$> ms) /\
  forall cid c seen, collections (w_db after) !! cid = Some c -> cLive c = true -> mirrors cid seen (resources (w_db before)) ->
    mirrors cid (foldl apply_event seen ms) (resources (w_db after)).
Proof.
  refine (outbox_mirrors no_limits [work] [DRet tt] before after _ _ before_Inv (run_of "n" work before tt _)).
  - apply Forall_singleton, work_caller. split; [apply work_fits|by vm_compute].
  - by vm_compute.
  - by vm_compute.
Defined.

(** A put that declares three bytes and sends five: the object is stored, found
    too long and discarded. *)
Definition mismatched : DProg (PutResult + DErr) := Put no_limits true docs "a/z" "hello" 3 plain_put.

Lemma error_changes_nothing_witness : exists l : list (DProg (PutResult + DErr) * World * World), trace mismatched l (inr ErrSizeMismatch) /\
  Forall unwritten l /\ forall l1 s l2 key, l = (l1 ++ s :: l2)%list -> stores key s -> Exists (deletes key) l2.
Proof.
  assert (Hrun : result_of "n" mismatched before = Some (inr ErrSizeMismatch)) by by vm_compute.
  unfold result_of in Hrun. apply fmap_Some in Hrun as ([x w] & Hrun & E). cbn in E. subst x. destruct (dalone_trace _ _ _ _ _ Hrun) as (l & Hl & _).
  exists l. split; [exact Hl|]. apply (error_changes_nothing no_limits true _ mismatched ErrSizeMismatch l); [constructor|exact Hl].
Defined.

(** What the consumer holds in the end, replayed from the first event. *)
Lemma demo_replay : (fun v => (fPath v, fETag v)) <$> (map_to_list (foldl apply_event ∅ (outbox (w_db after)))).*2 =
  [("c/y", "#bytes"); ("b/sub/y", "#bytes"); ("b/x.txt", "#again")].
Proof. by vm_compute. Qed.

(** *** The three tree theorems *)

Definition like_exactb (db : DB) (cid p : string) : bool :=
  forallb (fun r => negb (live_in cid r) || negb (like char_eq (LikePrefix p) (Path r)) || IsInside (Path r) p) (map_to_list (resources db)).*2.

Lemma like_exactb_ok db cid p : like_exactb db cid p = true -> like_exact db cid p.
Proof.
  unfold like_exactb. rewrite forallb_forall. intros Hb id r Hr Hl Hk.
  assert (Hin : In r (map_to_list (resources db)).*2).
  { apply list_elem_of_In, list_elem_of_fmap. exists (id, r). split; [done|]. by apply elem_of_map_to_list. }
  specialize (Hb r Hin). by rewrite Hl, Hk in Hb.
Qed.

Lemma normalized_clean p : NormalizePath p = inl p -> p <> "" -> clean p.
Proof. intros E Hne. apply normal_clean; [by exists p|done]. Qed.

Definition index_after {A} (out : TxOut A) (db : DB) : DB := match out with TxDone _ _ db => db | _ => db end.
Definition value_of {A} (out : TxOut A) (x : A) : A := match out with TxDone x _ _ => x | _ => x end.
Definition events_of {A} (out : TxOut A) : list Mutation := match out with TxDone _ ms _ => ms | _ => [] end.
Definition no_row : Resource := mkRes "" "" "" "" 0 KindDir "" 0 "" "" 0 0 0 None.
Lemma tx_done {A} (out : TxOut A) x db : match out with TxDone _ _ _ => true | _ => false end = true ->
  out = TxDone (value_of out x) (events_of out) (index_after out db).
Proof. by destruct out. Qed.

Definition deleting : TxOut Resource := delete_tx docs (fun db => getResourceQ db docs "a/sub") any_version 7 7 (w_db before).

Lemma delete_takes_subtree_witness : forall q,
  getResourceQ (index_after deleting (w_db before)) docs q = if within q "a/sub" then None else getResourceQ (w_db before) docs q.
Proof.
  refine (delete_takes_subtree no_limits docs "a/sub" any_version 7 7 (w_db before) _ (value_of deleting no_row) (events_of deleting) before_Inv _ _).
  - apply like_exactb_ok. by vm_compute.
  - apply (tx_done deleting). by vm_compute.
Defined.

Definition moving : TxOut Resource := move_tx docs "a/sub" "b" false 7 7 (w_db before).

Lemma move_transplants_witness : rSize <$> getResourceQ (w_db before) docs "a/sub/y" = Some 5%Z /\ forall q,
  content <$> getResourceQ (index_after moving (w_db before)) docs q =
    if within q "b" then content <$> getResourceQ (w_db before) docs ("a/sub" ++ sdrop 1 q)
    else if within q "a/sub" then None else content <$> getResourceQ (w_db before) docs q.
Proof.
  split; [by vm_compute|].
  refine (move_transplants no_limits docs "a/sub" "b" false 7 7 (w_db before) _ (value_of moving no_row) (events_of moving) _ _ _ _ _ before_Inv _ _ _ _ _).
  - apply normalized_clean; [by vm_compute|done].
  - apply normalized_clean; [by vm_compute|done].
  - done.
  - by vm_compute.
  - by vm_compute.
  - apply like_exactb_ok. by vm_compute.
  - apply like_exactb_ok. by vm_compute.
  - by vm_compute.
  - done.
  - apply (tx_done moving). by vm_compute.
Defined.

(** A copy of "a" to "b", alone. *)
Definition copying : DProg (Resource + DErr) := CopyAcross no_limits true docs "a" docs "b" false.

Lemma copy_duplicates_witness : length (paths (end_of "n" copying before)) = 8 /\ forall q,
  shape <$> getResourceQ (w_db (end_of "n" copying before)) docs q =
    if within q "b" then shape <$> getResourceQ (w_db before) docs ("a" ++ sdrop 1 q) else shape <$> getResourceQ (w_db before) docs q.
Proof.
  split; [by vm_compute|]. intros q.
  assert (Hrun : exists x, result_of "n" copying before = Some (inl x)) by (vm_compute; by eexists). destruct Hrun as [x Hrun].
  unfold result_of in Hrun. apply fmap_Some in Hrun as ([y w] & Hrun & E). cbn in E. subst y.
  assert (Ew : end_of "n" copying before = w) by (unfold end_of; by rewrite Hrun).
  destruct (dalone_trace _ _ _ _ _ Hrun) as (l & Hl & Hc).
  destruct (copy_duplicates no_limits true docs "a" docs "b" false l x Hl) as (from & to & l1 & s & l2 & db & Hf & Ht & -> & H1 & H2 & Hb & Hq).
  apply chained_app in Hc as [Hc1 Hc2]. destruct (chained_db _ _ _ Hc1 H1) as [_ Hdb]. rewrite (Hdb db Hb) in Hq.
  destruct (chained_db _ _ _ Hc2 H2) as [E2 _]. rewrite Ew, E2.
  assert (from = "a") as -> by (vm_compute in Hf; by injection Hf). assert (to = "b") as -> by (vm_compute in Ht; by injection Ht).
  refine (proj1 (Hq before_Inv _ _ q)); apply like_exactb_ok; by vm_compute.
Defined.

(** ** Where the code does something else *)

(** Moving a directory onto its own parent, overwriting: the move reports
    success, and neither is there any more. *)
Lemma move_onto_parent_loses :
  match result_of "n" (Move true docs "a/sub" "a" true) before with Some (inl _) => true | _ => false end = true /\
  paths (end_of "n" (Move true docs "a/sub" "a" true) before) = [].
Proof. split; by vm_compute. Qed.

(** A directory whose name is not ASCII, one letter of two bytes: the file in it
    comes out without its slash and its first letter. *)
Definition e_acute : string := String (b 195) (String (b 169) "").
Definition foreign : World :=
  end_of "m" (EnsureCollection "acme" "docs" ~> Mkdir no_limits true docs e_acute ~> store (e_acute ++ "/file") "x" ~> DRet tt) empty_store.

Lemma move_cuts_foreign_names :
  paths foreign = [e_acute; e_acute ++ "/file"] /\ paths (end_of "n" (Move true docs e_acute "d" false) foreign) = ["d"; "dfile"].
Proof. split; by vm_compute. Qed.

(** Two directories whose names differ in case: deleting one takes the other's
    files with it, and leaves the directory. *)
Definition cased : World :=
  end_of "m" (EnsureCollection "acme" "docs" ~> Mkdir no_limits true docs "Foo" ~> Mkdir no_limits true docs "foo" ~> store "foo/f" "x" ~> DRet tt)
    empty_store.

Lemma delete_takes_case_variants :
  paths cased = ["Foo"; "foo"; "foo/f"] /\ paths (end_of "n" (Delete true docs "Foo" any_version) cased) = ["foo"].
Proof. split; by vm_compute. Qed.

(** Links nested in one another that pass [Validate]: another sorts between. *)
Definition nested_links : Links := <["a" := "x"]> (<["a-b" := "y"]> (<["a/c" := "z"]> ∅)).
Lemma nested_links_pass : LinksValidate nested_links = true /\ IsInside "a/c" "a" = true /\ LinksValidate (delete "a-b" nested_links) = false.
Proof. split_and!; by vm_compute. Qed.

(** Two prefixes of one path pass [Validate], and the order the map is met in
    decides. *)
Definition two_spellings : Policy := <["a" := <["write" := "deny"]> ∅]> (<["/a" := <["write" := "allow"]> ∅]> ∅).
Lemma policy_by_order : PolicyValidate two_spellings = true /\
  exists l1 l2, l1 ≡ₚ map_to_list two_spellings /\ l2 ≡ₚ map_to_list two_spellings /\ Allows l1 l1 "a/b" "write" <> Allows l2 l2 "a/b" "write".
Proof.
  split; [by vm_compute|]. exists (map_to_list two_spellings), (rev (map_to_list two_spellings)).
  split_and!; [done|symmetry; apply Permutation_rev|by vm_compute].
Qed.
